(* ===== verification/_CoqProject ===== *)
-Q . S2P
Prelude.v
PyText.v
Effects.v
PyValue.v
PyDict.v
Ordering.v
TypedValues.v
Temporal.v
Append.v
PyFloat.v
RunAudit.v
FullCapture.v
Replace.v
SnapshotDiff.v
CurrentState.v
ConfigTypes.v
SchemaEvolution.v
Config.v
Capabilities.v
DispatchContracts.v
Planner.v
Dispatcher.v
RuntimeState.v
Watermark.v
CdcCapture.v
KafkaCdc.v
CdcApply.v
CdcSource.v
Bootstrap.v
DeltaCdf.v
Scd2.v
CurrentProjection.v
CdcScd2.v
Reconciliation.v
RunContracts.v
Quality.v
Repository.v
RunState.v
WatermarkRun.v
BatchRuns.v
Transactions.v
ControlPlane.v
DatasetLease.v
TargetOperation.v
Retry.v
RecoveryPlan.v
Quarantine.v
Replay.v
Progress.v
ProjectionRun.v
RebuildImpact.v
Versioned.v
TargetCutover.v
Rebuild.v
