(* ===== verification/Prelude.v ===== *)
(** * fabric-data-framework: a verification development

    The program moves data from sources into lakehouse tables.  A run of a group of datasets is
    planned from their metadata ([orchestration/planner.py]), dispatched in waves that respect
    the dependencies ([orchestration/dispatcher.py]), and for each dataset a capture
    ([capture/]) reads a bounded batch, quality checks admit its rows, and an apply strategy
    ([apply/]) computes the new state of the target; progress (watermarks, CDC checkpoints)
    moves only behind a commit gate ([contracts/runtime.py]).  A relational control plane
    ([control_plane/]) keeps leases and the journal of target operations, so that concurrent or
    restarted runs do not mutate a target twice.  All paths below are under
    [src/src/fabric_data_framework/].

    ** How the code is modelled

    A Python function that may raise returns [res]; a raised exception is its class and the
    constant part of its message.  Rows are finite maps of dynamically typed [value]s with
    Python's [==] and [<] (PyValue), dictionaries are insertion-ordered association lists whose
    keys are compared with [==] (PyDict), floats are their exact rational values with correct
    rounding where the code divides (PyFloat).  A Pydantic model is a record and a function that
    runs its field bounds and validators in the code's order.  [repr], [json.dumps], SHA-256, the
    text of scalars and [model_dump] are parameters ([PyRuntime], [ScalarText], arguments named
    after what they hash), with the laws the code relies on as classes; the witnesses
    instantiate them.  Clock readings and generated ids are arguments.

    Three kinds of effect occur.  The dispatcher talks to an arbitrary outside world (clock,
    repository, backend) through a log of calls from which the world computes its answers: it is
    written in the monad [eff] of a shared state and exceptions (Effects), whose rules [ends],
    [emits] and [keeps] state what a computation leaves behind on every path.  A run of a dataset
    is written in the same monad over the pair of an arbitrary control plane and the rows of the
    target: the control plane is a type with the operations of the class [RunWorld], every call
    may fail, and the laws of [LawfulWorld] say what a call that returns has recorded; the
    in-memory control plane of the repository is an instance.  The relational
    control plane runs programs of SQL statements, which interleave in any order, on any database
    whose answers are those its documentation allows (Transactions, ControlPlane): statements may
    fail with an unknown outcome, constraints may reject a write, timestamps may lose their zone.

    ** The files

    - Prelude, PyValue, PyDict, PyFloat: the error monad, generic lemmas, values, rows,
      dictionaries, floats.  Ordering: fallible comparators and the stable sort by them, with
      the interface [ResCmp] that the capture and apply modules discharge.
    - TypedValues: [contracts/typed_values.py], [apply/record_hash.py]: canonical encoding of
      values.  [meaning] says, apart from the encoding, what a value denotes (a decimal number, an
      instant with its offset, a text, items); decoding an encoding keeps it, and rows with the
      same fingerprint have the same meaning up to a collision of SHA-256.  PyText: Python's text operations on strings.
    - Temporal: [quality/temporal.py], [contracts/temporal.py].  RunAudit: the row accounting of
      [contracts/audit.py].
    - FullCapture ([capture/full.py], [capture/snapshot.py], [data_plane/staging.py]), Watermark
      ([capture/watermark.py]), CdcCapture ([capture/cdc.py]): which rows or events a batch
      takes.  Theorems: a batch is complete up to its boundary and disjoint from what was
      committed, does not depend on the order of the input, checkpoints only move forward.
    - Append, Replace, SnapshotDiff, CurrentState (UPSERT and SCD1), CdcApply, Scd2, CdcScd2: one
      file per apply strategy of [apply/].  Theorems: replaying a batch changes nothing, the
      latest row wins, no version of a history is lost and at most one version per key is
      current, every row is accounted for, unsafe deletes are refused.
    - CurrentProjection ([apply/current_projection.py]): the projection of a history, rebuilt or
      incremental; they agree, and both are the projection of the current rows, an existing row
      being kept when it has the same fingerprint.  ProjectionRun
      ([execution/current_projection.py]): runs of a projection on a target and a checkpoint that
      share no transaction; whatever fails, every key stays the projection of the history at a
      version between the checkpoint and the greatest attempted one.
    - KafkaCdc ([adapters/cdc/debezium_kafka.py], [adapters/cdc/resume.py]), DeltaCdf ([adapters/cdc/delta_cdf.py]), CdcSource: the
      bounded reads of the two change sources and their normalisation.  Theorems: every message
      is captured exactly once and resume plans stay within retention; applying the captures of
      consecutive ranges makes the target the state of the source table.
    - Bootstrap ([capture/bootstrap_watermark.py], [capture/bootstrap_cdc.py]): the handoff of a
      baseline to incremental capture misses nothing.
    - ConfigTypes, Config, Capabilities ([metadata/config.py], [metadata/capabilities.py]):
      metadata, overrides, effective configuration, engine capabilities.
    - SchemaEvolution ([quality/schema_evolution.py]): a schema change is accepted exactly when
      every column changes as the policy allows; accepted rows stay readable.
    - DispatchContracts, Planner, Dispatcher ([contracts/dispatch.py],
      [contracts/group_policy.py], [contracts/audit_safety.py], [orchestration/]): the plan is
      acyclic and respects limits, waves respect dependencies, every run is closed in the audit
      trail, the loop ends.  [Dispatcher] runs any world that satisfies [LawfulWorld].
    - RuntimeState ([contracts/runtime.py]): run status, commit gate, watermark transitions.
    - Reconciliation ([contracts/reconciliation.py], [quality/reconciliation/]): the gate fails
      exactly when the policy is violated, which is stated over the quantities the observations
      mean.
    - RunContracts: the evidence a run leaves ([contracts/audit.py], [contracts/quarantine.py],
      [contracts/capture_receipt.py], [contracts/rebuild.py], [contracts/recovery.py]) with its
      validators.  Quality ([data_plane/bronze.py], [quality/rules.py]): which rows are admitted.
      Repository ([control_plane/repository.py]): the in-memory control plane and the interface
      of the executors; evidence is only appended, a watermark never moves back.
    - RunState, WatermarkRun, BatchRuns: the executors of [execution/] for WATERMARK to SCD2 and
      for APPEND, REPLACE and SNAPSHOT_DIFF.  Target and watermark change only behind an open
      gate, whose conditions are stated over the batch of the run; a rerun over the same source changes the target at most once, crashes included.
    - Transactions: programs of statements, pools, the proof rule [safe] for one program of a
      pool, and databases.  ControlPlane ([control_plane/schema.py]): tables and statements.
    - DatasetLease ([control_plane/dataset_lease.py], [control_plane/dataset_lease_recovery.py]):
      leases are exclusive and are never stolen: between two leases of a dataset the first one was
      released, or recovered with evidence not before its expiry.
    - TargetOperation ([contracts/target_operation.py],
      [control_plane/target_operation_journal.py]): the journal is a chain of allowed
      transitions, a write is executed again only after a report that it did not commit, a
      success is final, no update is lost.
    - Retry ([recovery/runtime.py]): the retry loop over any world of answers refines a
      specification of attempt histories, commits at most one attempt and accounts for all.
      RecoveryPlan ([recovery/pipeline.py]): which failures are offered for automatic retry.
    - Quarantine ([contracts/quarantine.py], [contracts/replay.py],
      [control_plane/quarantine_governance.py], the quarantine part of [control_plane/io.py]):
      the tables of quarantined batches, their reviews and corrections, as programs of
      statements.  Replay ([recovery/replay.py]): reviews stay a governed chain, a replay calls
      the target once with recorded payloads that it has checked, and a case that was resolved by a
      correction only with that correction, whatever interleaves.  The transaction of a review is
      rolled back when the read at its end raises.

    - Progress ([control_plane/schema.py], the checkpoint, receipt, lineage and reprocess parts of
      [control_plane/io.py]): recorded progress as programs of statements; a checkpoint advances
      one version at a time, behind its gate, whatever interleaves.
    - RebuildImpact ([contracts/rebuild_impact.py], [recovery/rebuild_impact.py]): a rebuild plan
      holds exactly the datasets built from its roots, in the earliest waves.
    - Versioned: pools of programs over a versioned state.  TargetCutover
      ([contracts/target_version.py], [recovery/target_cutover.py]) and Rebuild
      ([contracts/rebuild.py], [recovery/rebuild.py]): on any adapter that keeps the contract of
      the reference one, a binding or a state changes only behind its gates, from the version
      that was read.

    ** Fuel

    The dependency search runs with one more unit of fuel than there are selected datasets, the
    depth of a simple path; the dispatch loop runs with as many units as there are selected
    datasets, since each iteration completes one.  [dependency_graph_decided] and
    [dispatch_loop_progresses] show that neither runs out.  In RebuildImpact the graph search has
    one more unit than there are configurations, the descent as many as there are datasets (each
    enters the queue once) and the waves as many as there are affected datasets (each wave
    completes one); [rebuild_impact_exact] shows that a valid request never runs out.  The
    recursion limit of Python is not modelled: where these searches recurse, a chain of about a
    thousand dependencies raises [RecursionError] in the code.

    ** Not modelled

    The adapters of Microsoft Fabric, Spark and ODBC ([adapters/fabric/], [adapters/capture/]),
    the backends that start pipelines and notebooks ([execution/backends/]), the command line,
    deployment, and the scripts that certify the framework against live systems
    ([certification/], [evidence/]) are input and output around provider sessions: what they
    compute is the text of requests and of collected files.  The SQL repository
    ([control_plane/sqlalchemy_repository.py]) repeats the operations of the in-memory one as
    SQL; the statements whose interleaving matters (leases, journal, checkpoints, quarantine) are
    modelled.  [capture/patterns.py], [capture/semantic_contracts.py] and [capture/onboarding.py]
    are tables of documentation and validators of declared metadata; [capture/files.py] and
    [capture/api.py] check file manifests and API pages against frozen evidence, and no executor
    calls them.  Regular expressions ([redact]),
    Pydantic's dumps and string stripping are parameters. *)

From stdpp Require Import base gmap strings list fin_maps sorting.
From Stdlib Require String Ascii.

(** ** Exceptions and the error monad

    A Python function that may [raise] returns [res A].  An exception is its class
    name together with the constant part of the message of the [raise] statement, so
    that the model tells apart two guards that raise the same class. *)

Record exn := Exn { exn_type : string; exn_site : string }.

Inductive res (A : Type) :=
| Ok (a : A)
| Raise (e : exn).
Arguments Ok {A} _.
Arguments Raise {A} _.

#[export] Instance exn_eq_dec : EqDecision exn.
Proof. solve_decision. Defined.

#[export] Instance res_eq_dec {A} `{EqDecision A} : EqDecision (res A).
Proof. solve_decision. Defined.

#[export] Instance res_ret : MRet res := fun A a => Ok a.

#[export] Instance res_bind : MBind res := fun A B f m =>
  match m with Ok a => f a | Raise e => Raise e end.

#[export] Instance res_fmap : FMap res := fun A B f m =>
  match m with Ok a => Ok (f a) | Raise e => Raise e end.

(** [raise cls site] is Python's [raise cls(f"site ...")]. *)
Definition raise {A} (cls site : string) : res A := Raise (Exn cls site).

(** [raise_if b cls site] is [if b: raise cls("site")]. *)
Definition raise_if (b : bool) (cls site : string) : res unit :=
  if b then raise cls site else Ok tt.

(** [except cls handler m] is [try: m  except cls as exc: handler exc]. *)
Definition except {A} (classes : list string) (handler : exn -> res A) (m : res A) : res A :=
  match m with
  | Ok a => Ok a
  | Raise e => if bool_decide (exn_type e ∈ classes) then handler e else Raise e
  end.

Definition is_ok {A} (m : res A) : bool := match m with Ok _ => true | Raise _ => false end.

(** ** Loops

    [foldM] is a [for] loop over a sequence whose body may raise. *)

Fixpoint foldM {S A : Type} (f : S -> A -> res S) (s : S) (l : list A) : res S :=
  match l with
  | [] => Ok s
  | a :: l' => match f s a with Ok s' => foldM f s' l' | Raise e => Raise e end
  end.

(** [mapM_res f l] is the list comprehension [[f(x) for x in l]]. *)
Fixpoint mapM_res {A B : Type} (f : A -> res B) (l : list A) : res (list B) :=
  match l with
  | [] => Ok []
  | a :: l' =>
    match f a with
    | Ok b => match mapM_res f l' with Ok bs => Ok (b :: bs) | Raise e => Raise e end
    | Raise e => Raise e
    end
  end.

(** ** Sorting

    Python's [sorted] is a stable sort; [sort_by leb] is stable insertion sort, which
    agrees with every other stable sort when [leb] is a total preorder. *)

Section sorting.
Context {A : Type} (leb : A -> A -> bool).

Fixpoint insert_by (x : A) (l : list A) : list A :=
  match l with
  | [] => [x]
  | y :: l' => if leb x y then x :: y :: l' else y :: insert_by x l'
  end.

Definition sort_by (l : list A) : list A := foldr insert_by [] l.

End sorting.

(** [str_leb] is the order of Python strings, by code points. *)
Definition str_leb (a b : string) : bool := String.leb a b.

(** [sort_on key l] is [sorted(l, key=key)] for a key function into strings. *)
Definition sort_on {A} (key : A -> string) (l : list A) : list A :=
  sort_by (fun x y => str_leb (key x) (key y)) l.

(** [str.startswith] *)
Definition startswith (s prefix : string) : bool := String.prefix prefix s.

(** ** Tactics *)

(** Case-split every [match] and [if] of a hypothesis of the form [... = Ok _]. *)
Ltac inv_ok H :=
  repeat
    (first
       [ progress (unfold mbind, res_bind, mret, res_ret, fmap, res_fmap, raise, raise_if in H)
       | match type of H with
         | context [match ?m with _ => _ end] =>
           let E := fresh "E" in destruct m eqn:E; try discriminate H
         end ]);
  simplify_eq.

(** Case-split the scrutinees of the goal. *)
Ltac split_goal :=
  repeat match goal with
         | |- context [match ?m with _ => _ end] => destruct m eqn:?; simplify_eq/=
         end.

(** ** Lemmas on the monad and on loops *)

Lemma bind_Ok {A B} (m : res A) (f : A -> res B) b :
  (m ≫= f) = Ok b <-> exists a, m = Ok a /\ f a = Ok b.
Proof.
  destruct m; cbn; split; [by eauto|by intros (? & [= <-] & ?)|done|by intros (? & ? & ?)].
Qed.

Lemma foldM_app {S A} (f : S -> A -> res S) s l1 l2 :
  foldM f s (l1 ++ l2) = (foldM f s l1 ≫= fun s' => foldM f s' l2).
Proof.
  revert s; induction l1 as [|a l1 IH]; intros s; [done|]. simpl.
  destruct (f s a); [apply IH|done].
Qed.

(** The loop rule: an invariant of the state and of the items already processed. *)
Lemma foldM_ind {S A} (f : S -> A -> res S) (P : list A -> S -> Prop) s0 l s :
  foldM f s0 l = Ok s ->
  P [] s0 ->
  (forall done a s1 s2, (exists rest, l = done ++ a :: rest) ->
     P done s1 -> f s1 a = Ok s2 -> P (done ++ [a]) s2) ->
  P l s.
Proof.
  intros Hf H0 Hstep.
  assert (forall done todo s1, l = done ++ todo -> P done s1 ->
            foldM f s1 todo = Ok s -> P l s) as Hgen; [|by eapply (Hgen [] l s0)].
  intros done0 todo. revert done0.
  induction todo as [|a todo IH]; intros done0 s1 Hl HP Hf1; simpl in Hf1.
  - simplify_eq. by rewrite app_nil_r.
  - destruct (f s1 a) as [s2|] eqn:E; [|done].
    apply (IH (done0 ++ [a]) s2); [by rewrite <-app_assoc| |done].
    eapply Hstep; eauto.
Qed.

(** A loop whose body keeps an invariant or raises an exception of a kind. *)
Lemma foldM_total {S A} (f : S -> A -> res S) (P : S -> Prop) (E : exn -> Prop) l s0 :
  P s0 ->
  (forall s a, a ∈ l -> P s -> (exists s', f s a = Ok s' /\ P s') \/ (exists e, f s a = Raise e /\ E e)) ->
  (exists s, foldM f s0 l = Ok s /\ P s) \/ (exists e, foldM f s0 l = Raise e /\ E e).
Proof.
  revert s0. induction l as [|a l IH]; intros s0 HP Hstep; simpl; [eauto|].
  destruct (Hstep s0 a) as [(s1 & -> & H1)|(e & -> & He)]; [left|done| |eauto].
  apply IH; [done|]. intros s b Hb. apply Hstep. by right.
Qed.

Lemma foldM_ext {S A} (f g : S -> A -> res S) s l :
  (forall s a, a ∈ l -> f s a = g s a) -> foldM f s l = foldM g s l.
Proof.
  revert s; induction l as [|a l IH]; intros s Hext; simpl; [done|].
  rewrite Hext by left. destruct (g s a); [|done]. apply IH. intros. apply Hext. by right.
Qed.

Lemma foldM_map {S A B} (f : S -> B -> res S) (g : A -> B) s l :
  foldM f s (map g l) = foldM (fun s a => f s (g a)) s l.
Proof.
  revert s; induction l as [|a l IH]; intros s; simpl; [done|].
  by destruct (f s (g a)).
Qed.

Lemma mapM_res_Forall2 {A B} (f : A -> res B) l bs :
  mapM_res f l = Ok bs <-> Forall2 (fun a b => f a = Ok b) l bs.
Proof.
  split.
  - revert bs. induction l as [|a l IH]; intros bs; simpl; [by intros [= <-]|].
    destruct (f a) eqn:Ea; [|done]. destruct (mapM_res f l); [|done].
    intros [= <-]. constructor; auto.
  - induction 1 as [|a b l bs Hab _ IH]; simpl; [done|]. by rewrite Hab, IH.
Qed.

Lemma mapM_res_ext {A B} (f g : A -> res B) l :
  (forall a, a ∈ l -> f a = g a) -> mapM_res f l = mapM_res g l.
Proof.
  induction l as [|a l IH]; intros Hext; simpl; [done|].
  rewrite Hext by left. rewrite IH; [done|]. intros. apply Hext. by right.
Qed.

Lemma mapM_res_map {A B C} (f : B -> res C) (g : A -> B) l : mapM_res (fun a => f (g a)) l = mapM_res f (map g l).
Proof. induction l as [|a l IH]; simpl; [done|]. by rewrite IH. Qed.

(** Two runs of a loop preserve a relation between their states. *)
Lemma foldM_sim {S T A} (f : S -> A -> res S) (g : T -> A -> res T)
    (R : S -> T -> Prop) l s0 t0 s :
  (forall a s1 t1 s2, R s1 t1 -> f s1 a = Ok s2 -> exists t2, g t1 a = Ok t2 /\ R s2 t2) ->
  R s0 t0 -> foldM f s0 l = Ok s -> exists t, foldM g t0 l = Ok t /\ R s t.
Proof.
  intros Hstep. revert s0 t0. induction l as [|a l IH]; intros s0 t0 HR Hf; simpl in *.
  - simplify_eq. eauto.
  - destruct (f s0 a) as [s1|] eqn:E; [|done].
    destruct (Hstep _ _ _ _ HR E) as (t1 & Ht1 & HR1). rewrite Ht1. eauto.
Qed.

(** ** Lemmas on sorting *)

Section sorting_lemmas.
Context {A : Type} (leb : A -> A -> bool).

Lemma insert_by_perm x l : insert_by leb x l ≡ₚ x :: l.
Proof.
  induction l as [|y l IH]; simpl; [done|].
  destruct (leb x y); [done|]. rewrite IH. apply Permutation_swap.
Qed.

Lemma sort_by_perm l : sort_by leb l ≡ₚ l.
Proof. induction l as [|x l IH]; simpl; [done|]. by rewrite insert_by_perm, IH. Qed.

Lemma elem_of_sort_by x l : x ∈ sort_by leb l <-> x ∈ l.
Proof. by rewrite (sort_by_perm l). Qed.

Lemma length_sort_by l : length (sort_by leb l) = length l.
Proof. by rewrite (sort_by_perm l). Qed.

Context (leb_total : forall x y, leb x y = true \/ leb y x = true).
Context (leb_trans : forall x y z, leb x y = true -> leb y z = true -> leb x z = true).

Lemma insert_by_sorted x l :
  StronglySorted (fun a b => leb a b = true) l ->
  StronglySorted (fun a b => leb a b = true) (insert_by leb x l).
Proof using leb_total leb_trans.
  induction l as [|y l IH]; intros Hs; simpl.
  - repeat constructor.
  - apply StronglySorted_inv in Hs as [Hs Hall]. destruct (leb x y) eqn:E.
    + constructor; [by constructor|]. constructor; [done|].
      eapply Forall_impl; [done|]. intros z Hz. by eapply leb_trans.
    + constructor; [by apply IH|].
      rewrite insert_by_perm. constructor; [|done].
      by destruct (leb_total x y) as [H|H]; [congruence|].
Qed.

Lemma sort_by_sorted l : StronglySorted (fun a b => leb a b = true) (sort_by leb l).
Proof using leb_total leb_trans.
  induction l as [|x l IH]; simpl; [constructor|]. by apply insert_by_sorted.
Qed.

End sorting_lemmas.

Lemma strongly_sorted_impl {A} (R R' : A -> A -> Prop) l :
  (forall a b, R a b -> R' a b) -> StronglySorted R l -> StronglySorted R' l.
Proof. intros Himp. induction 1 as [|a l Hs IH Hall]; constructor; [done|]. eapply Forall_impl; [exact Hall|auto]. Qed.

(** Sorting a sorted list changes nothing. *)
Lemma sort_by_id {A} (leb : A -> A -> bool) l :
  StronglySorted (fun a b => leb a b = true) l -> sort_by leb l = l.
Proof.
  induction 1 as [|x l Hs IH Hall]; simpl; [done|]. rewrite IH.
  destruct l as [|y l]; simpl; [done|]. apply Forall_cons in Hall as [-> _]. done.
Qed.

Lemma str_leb_total a b : str_leb a b = true \/ str_leb b a = true.
Proof. apply String.leb_total. Qed.

Lemma ascii_compare_trans (c : comparison) a1 a2 a3 :
  Ascii.compare a1 a2 = c -> Ascii.compare a2 a3 = c -> Ascii.compare a1 a3 = c.
Proof.
  unfold Ascii.compare. intros H1 H2. destruct c.
  - apply N.compare_eq_iff in H1, H2. apply N.compare_eq_iff. congruence.
  - apply N.compare_lt_iff in H1, H2. apply N.compare_lt_iff. by eapply N.lt_trans.
  - apply N.compare_gt_iff in H1, H2. apply N.compare_gt_iff. by eapply N.lt_trans.
Qed.

Lemma ascii_compare_Eq a1 a2 : Ascii.compare a1 a2 = Eq <-> a1 = a2.
Proof. split; [apply Ascii.compare_eq_iff|intros ->]. apply N.compare_refl. Qed.

Lemma str_compare_Eq a b : String.compare a b = Eq <-> a = b.
Proof.
  split; [apply String.compare_eq_iff|intros ->].
  induction b as [|c b IH]; [done|]. simpl. by rewrite (proj2 (ascii_compare_Eq c c)).
Qed.

Lemma str_compare_Lt_trans a b c :
  String.compare a b = Lt -> String.compare b c = Lt -> String.compare a c = Lt.
Proof.
  revert b c. induction a as [|x a IH]; intros [|y b] [|z c]; simpl; try done.
  destruct (Ascii.compare x y) eqn:E1; destruct (Ascii.compare y z) eqn:E2; try done;
    repeat match goal with
    | H : Ascii.compare _ _ = Eq |- _ => apply ascii_compare_Eq in H; subst
    end.
  - rewrite (proj2 (ascii_compare_Eq z z) eq_refl). apply IH.
  - by rewrite E2.
  - by rewrite E1.
  - by rewrite (ascii_compare_trans Lt _ _ _ E1 E2).
Qed.

Lemma str_leb_trans a b c : str_leb a b = true -> str_leb b c = true -> str_leb a c = true.
Proof.
  unfold str_leb, String.leb.
  destruct (String.compare a b) eqn:E1, (String.compare b c) eqn:E2; try done; intros _ _;
    repeat match goal with
    | H : String.compare _ _ = Eq |- _ => apply str_compare_Eq in H; subst
    end.
  - by rewrite (proj2 (str_compare_Eq c c) eq_refl).
  - by rewrite E2.
  - by rewrite E1.
  - by rewrite (str_compare_Lt_trans _ _ _ E1 E2).
Qed.

Lemma elem_of_sort_on {A} (key : A -> string) x l : x ∈ sort_on key l <-> x ∈ l.
Proof. apply elem_of_sort_by. Qed.

Lemma sort_on_perm {A} (key : A -> string) l : sort_on key l ≡ₚ l.
Proof. apply sort_by_perm. Qed.

Lemma sort_on_sorted {A} (key : A -> string) l :
  StronglySorted (fun a b => str_leb (key a) (key b) = true) (sort_on key l).
Proof.
  apply sort_by_sorted; [intros; apply str_leb_total|intros x y z; apply str_leb_trans].
Qed.

(** Filters by boolean tests that agree on the list. *)
Lemma filter_bool_ext {A} (f g : A -> bool) (b : bool) l :
  Forall (fun x => f x = g x) l -> filter (fun x => f x = b) l = filter (fun x => g x = b) l.
Proof.
  induction 1 as [|x l Hx _ IH]; [done|]. rewrite !filter_cons, Hx, IH. done.
Qed.

(** Sorting by keys that are pairwise different forgets the order of the input. *)
Lemma sort_on_perm_eq {A} (key : A -> string) l1 l2 :
  NoDup (map key l1) -> l1 ≡ₚ l2 -> sort_on key l1 = sort_on key l2.
Proof.
  intros Hnd Hp.
  apply (StronglySorted_unique_strong (fun a b => str_leb (key a) (key b) = true)).
  - intros x y Hx Hy Hxy Hyx. rewrite elem_of_sort_on in Hx, Hy. rewrite <-Hp in Hy.
    assert (key x = key y) as Heq by (apply String.leb_antisym; done).
    apply list_elem_of_lookup in Hx as [i Hi], Hy as [j Hj].
    assert (i = j) as ->; [|congruence].
    eapply (NoDup_lookup (map key l1) i j (key x)); [done| |].
    + change (map key l1) with (key <$> l1). by rewrite list_lookup_fmap, Hi.
    + change (map key l1) with (key <$> l1). by rewrite list_lookup_fmap, Hj, Heq.
  - apply sort_on_sorted.
  - apply sort_on_sorted.
  - by rewrite !sort_on_perm.
Qed.

(** ** [max]

    [max(l, key=...)]: the first element that no other element exceeds. *)

Definition py_max {A} (ltb : A -> A -> bool) (l : list A) : res A :=
  match l with
  | [] => raise "ValueError" "max() iterable argument is empty"
  | a :: l' => Ok (foldl (fun best x => if ltb best x then x else best) a l')
  end.

Section py_max.
Context {A : Type} (ltb : A -> A -> bool).
Context (ltb_irrefl : forall a, ltb a a = false).
Context (ltb_trans : forall a b c, ltb b a = false -> ltb c b = false -> ltb c a = false).
Context (ltb_asym : forall a b, ltb a b = true -> ltb b a = false).

Lemma py_max_foldl a l :
  let m := foldl (fun best x => if ltb best x then x else best) a l in
  m ∈ a :: l /\ Forall (fun x => ltb m x = false) (a :: l).
Proof using All.
  revert a. induction l as [|b l IH]; intros a; simpl.
  - split; [left|by repeat constructor].
  - destruct (ltb a b) eqn:E; simpl.
    + destruct (IH b) as [Hin Hall]. split; [by right|]. constructor; [|done].
      apply Forall_cons in Hall as [Hb _]. apply (ltb_trans _ b); [by apply ltb_asym|done].
    + destruct (IH a) as [Hin Hall]. apply Forall_cons in Hall as [Ha Hl]. split.
      * apply elem_of_cons in Hin as [->|Hin]; [left|by do 2 right].
      * constructor; [done|]. constructor; [|done].
        apply (ltb_trans _ a); [exact E|exact Ha].
Qed.

Lemma py_max_spec l m : py_max ltb l = Ok m -> m ∈ l /\ Forall (fun x => ltb m x = false) l.
Proof using All. destruct l as [|a l]; [done|]. intros [= <-]. apply py_max_foldl. Qed.
End py_max.

Lemma filter_nil_iff {A} (P : A -> Prop) `{!forall x, Decision (P x)} l :
  filter P l = [] <-> Forall (fun x => ~ P x) l.
Proof.
  split.
  - intros Hf. apply Forall_forall. intros x Hx HP.
    assert (x ∈ filter P l) as Hin by by apply list_elem_of_filter. rewrite Hf in Hin.
    by apply elem_of_nil in Hin.
  - induction 1 as [|x l Hx _ IH]; [done|]. by rewrite filter_cons, decide_False.
Qed.

Lemma existsb_elem {A} (f : A -> bool) l : existsb f l = true <-> exists x, x ∈ l /\ f x = true.
Proof. rewrite existsb_exists. by setoid_rewrite list_elem_of_In. Qed.

(** [[x for x in l if f(x)]] for a condition that may raise. *)
Fixpoint filterM_res {A} (f : A -> res bool) (l : list A) : res (list A) :=
  match l with
  | [] => Ok []
  | a :: l' =>
    match f a with
    | Ok b => match filterM_res f l' with
              | Ok l'' => Ok (if b then a :: l'' else l'')
              | Raise e => Raise e
              end
    | Raise e => Raise e
    end
  end.

Lemma filterM_res_Ok {A} (f : A -> res bool) l l' :
  filterM_res f l = Ok l' <->
  Forall (fun a => is_ok (f a) = true) l /\ l' = filter (fun a => f a = Ok true) l.
Proof.
  revert l'. induction l as [|a l IH]; intros l'; simpl.
  - split; [by intros [= <-]|by intros [_ ->]].
  - rewrite Forall_cons, filter_cons. destruct (f a) as [b|] eqn:E; simpl.
    + destruct (filterM_res f l) as [l''|].
      * destruct (IH l'') as [Hf _]. destruct (Hf eq_refl) as [Hall ->].
        destruct b; [rewrite decide_True by done|rewrite decide_False by done];
          (split; [by intros [= <-]|by intros [_ ->]]).
      * split; [done|]. intros [[_ Hall] _]. destruct (IH (filter (fun a => f a = Ok true) l)) as [_ Hb].
        by discriminate (Hb (conj Hall eq_refl)).
    + split; [done|]. by intros [[? _] _].
Qed.

Lemma filter_all {A} (P : A -> Prop) `{!forall x, Decision (P x)} l :
  Forall P l -> filter P l = l.
Proof. induction 1 as [|x l Hx _ IH]; [done|]. by rewrite filter_cons, decide_True, IH. Qed.

Lemma filter_none {A} (P : A -> Prop) `{!forall x, Decision (P x)} l :
  Forall (fun x => ~ P x) l -> filter P l = [].
Proof. apply filter_nil_iff. Qed.

Lemma sublist_sorted {A} (R : relation A) l1 l2 :
  sublist l1 l2 -> StronglySorted R l2 -> StronglySorted R l1.
Proof.
  induction 1 as [|x l1 l2 Hsub IH|x l1 l2 Hsub IH]; intros Hs; [done| |];
    apply StronglySorted_inv in Hs as [Hs Hall].
  - constructor; [by apply IH|]. apply Forall_forall. intros y Hy. rewrite Forall_forall in Hall.
    apply Hall. by eapply elem_of_sublist.
  - by apply IH.
Qed.
