(* ===== verification/PyText.v ===== *)
(** * Text: whitespace, slices and [int(text)]

    Strings are byte strings; whitespace and digits are those of ASCII. *)

From stdpp Require Import base numbers strings list pretty.
From Stdlib Require Import Ascii.
From S2P Require Import Prelude.
#[local] Open Scope Z_scope.

(** The whitespace of [str.strip] *)
Definition is_space (c : Ascii.ascii) : bool :=
  let n := Ascii.nat_of_ascii c in
  ((9 <=? n)%nat && (n <=? 13)%nat) || ((28 <=? n)%nat && (n <=? 32)%nat).

(** [not s.strip()] *)
Definition blank (s : string) : bool := forallb is_space (String.list_ascii_of_string s).

(** [s[n:]] *)
Fixpoint str_drop (n : nat) (s : string) : string :=
  match n, s with
  | S n', String.String _ s' => str_drop n' s'
  | O, _ => s
  | _, String.EmptyString => s
  end.

Definition digit_of (c : Ascii.ascii) : option Z :=
  let n := Ascii.nat_of_ascii c in
  if (48 <=? n)%nat && (n <=? 57)%nat then Some (Z.of_nat n - 48) else None.

(** The digits of an integer literal, an underscore between two of them, whitespace after them;
    [after_digit] tells whether the last character is a digit. *)
Fixpoint parse_digits (acc : Z) (after_digit : bool) (s : string) : option Z :=
  match s with
  | String.EmptyString => if after_digit then Some acc else None
  | String.String c s' =>
    match digit_of c with
    | Some d => parse_digits (10 * acc + d) true s'
    | None =>
      if after_digit && Ascii.eqb c "_"%char then parse_digits acc false s'
      else if after_digit && is_space c && blank s' then Some acc
      else None
    end
  end.

(** [int(s)], [None] for [ValueError] *)
Fixpoint parse_int (s : string) : option Z :=
  match s with
  | String.EmptyString => None
  | String.String c s' =>
    if is_space c then parse_int s'
    else if Ascii.eqb c "+"%char then parse_digits 0 false s'
    else if Ascii.eqb c "-"%char then Z.opp <$> parse_digits 0 false s'
    else parse_digits 0 false s
  end.

(** ** Lemmas *)

Lemma str_drop_app p s : str_drop (String.length p) (p +:+ s) = s.
Proof. induction p as [|c p IH]; [by destruct s|exact IH]. Qed.

Lemma startswith_app p s : startswith (p +:+ s) p = true.
Proof.
  unfold startswith. induction p as [|c p IH]; [by destruct s|]. simpl. by destruct (Ascii.ascii_dec c c).
Qed.

Lemma startswith_split s p : startswith s p = true -> s = p +:+ str_drop (String.length p) s.
Proof.
  unfold startswith. revert s. induction p as [|c p IH]; intros s; [by destruct s|]. destruct s as [|d s]; [done|].
  simpl. destruct (Ascii.ascii_dec c d) as [<-|]; [|done]. intros H.
  change (String.String c s = String.String c (p +:+ str_drop (String.length p) s)). f_equal. by apply IH.
Qed.

Lemma digit_of_char x : (x < 10)%N -> digit_of (pretty_N_char x) = Some (Z.of_N x).
Proof.
  intros Hx. assert (x = 0 \/ x = 1 \/ x = 2 \/ x = 3 \/ x = 4 \/ x = 5 \/ x = 6 \/ x = 7 \/ x = 8 \/ x = 9)%N as H by lia.
  by repeat destruct H as [->|H]; try (rewrite H).
Qed.

Lemma parse_digits_go x : (0 < x)%N ->
  exists k, forall acc after s, parse_digits acc after (pretty_N_go x s) = parse_digits (acc * 10 ^ Z.of_nat k + Z.of_N x) true s.
Proof.
  induction (N.lt_wf_0 x) as [x _ IH]. intros Hx.
  assert (Hstep : forall acc after s, parse_digits acc after (String.String (pretty_N_char (x `mod` 10)) s) =
    parse_digits (10 * acc + Z.of_N (x `mod` 10)) true s).
  { intros acc after s. cbn [parse_digits]. rewrite digit_of_char; [done|]. by apply N.mod_lt. }
  assert (Hdiv : Z.of_N x = 10 * Z.of_N (x `div` 10) + Z.of_N (x `mod` 10)).
  { rewrite N2Z.inj_div, N2Z.inj_mod. apply Z.div_mod. done. }
  destruct (decide (0 < x `div` 10)%N) as [Hq|Hq].
  - destruct (IH (x `div` 10)%N) as [k Hk]; [by apply N.div_lt|done|]. exists (S k). intros acc after s.
    rewrite pretty_N_go_step, Hk, Hstep by done. f_equal. rewrite Nat2Z.inj_succ, Z.pow_succ_r, Hdiv by lia. lia.
  - assert ((x `div` 10)%N = 0%N) as E by (destruct (N.eq_0_gt_0_cases (x `div` 10)%N); [done|by destruct Hq]). exists 1%nat. intros acc after s.
    rewrite pretty_N_go_step, E, pretty_N_go_0, Hstep by done. f_equal. rewrite Hdiv, E. simpl Z.of_nat. lia.
Qed.

Lemma parse_digits_pretty (n : N) : parse_digits 0 false (pretty n) = Some (Z.of_N n).
Proof.
  unfold pretty, pretty_N. case_decide as E; [by subst|]. destruct (parse_digits_go n) as [k Hk]; [lia|]. by rewrite Hk.
Qed.

Lemma pretty_N_head (n : N) : exists c s, pretty n = String.String c s /\ is_Some (digit_of c).
Proof.
  pose proof (parse_digits_pretty n) as H. destruct (pretty n) as [|c s]; [done|]. exists c, s. split; [done|].
  cbn [parse_digits] in H. destruct (digit_of c); [by eexists|done].
Qed.

Lemma digit_head_plain c : is_Some (digit_of c) -> is_space c = false /\ Ascii.eqb c "+"%char = false /\ Ascii.eqb c "-"%char = false.
Proof.
  intros [d Hd]. split_and!.
  - unfold digit_of in Hd. destruct (_ && _) eqn:E in Hd; [|done]. apply andb_true_iff in E as [H1%Nat.leb_le H2%Nat.leb_le].
    unfold is_space. rewrite orb_false_iff, !andb_false_iff, !Nat.leb_gt. lia.
  - destruct (Ascii.eqb_spec c "+"%char); [by subst|done].
  - destruct (Ascii.eqb_spec c "-"%char); [by subst|done].
Qed.

(** [int(str(z)) == z] *)
Lemma parse_int_pretty (z : Z) : parse_int (pretty z) = Some z.
Proof.
  assert (Hp : forall p, parse_int (pretty (Npos p)) = Some (Zpos p)).
  { intros p. destruct (pretty_N_head (Npos p)) as (c & s & E & Hc). pose proof (parse_digits_pretty (Npos p)) as H. rewrite E in *.
    cbn [parse_int]. destruct (digit_head_plain c Hc) as (-> & -> & ->). exact H. }
  unfold pretty, pretty_Z. destruct z as [|p|p]; [done|apply Hp|].
  change (Z.opp <$> parse_digits 0 false (pretty (Npos p)) = Some (Zneg p)). by rewrite parse_digits_pretty.
Qed.

(** The number at the start of a text, and the rest. *)
Fixpoint leading_number (acc : Z) (s : string) : Z * string :=
  match s with
  | String.String c s' => match digit_of c with Some d => leading_number (10 * acc + d) s' | None => (acc, s) end
  | String.EmptyString => (acc, s)
  end.

Lemma leading_number_go x : exists k, forall acc s,
  leading_number acc (pretty_N_go x s) = leading_number (acc * 10 ^ Z.of_nat k + Z.of_N x) s.
Proof.
  induction (N.lt_wf_0 x) as [x _ IH]. destruct (N.eq_0_gt_0_cases x) as [->|Hx].
  { exists 0%nat. intros acc s. rewrite pretty_N_go_0. f_equal. lia. }
  assert (Hdiv : Z.of_N x = 10 * Z.of_N (x `div` 10) + Z.of_N (x `mod` 10)).
  { rewrite N2Z.inj_div, N2Z.inj_mod. apply Z.div_mod. done. }
  destruct (IH (x `div` 10)%N) as [k Hk]; [by apply N.div_lt|]. exists (S k). intros acc s.
  rewrite pretty_N_go_step, Hk by done. cbn [leading_number]. rewrite digit_of_char by (by apply N.mod_lt). f_equal.
  rewrite Nat2Z.inj_succ, Z.pow_succ_r, Hdiv by lia. lia.
Qed.

(** Texts [n:rest] and [m:rest'] of natural numbers are equal only if their parts are. *)
Lemma pretty_colon_inj (x y : N) s s' :
  pretty x +:+ ":" +:+ s = pretty y +:+ ":" +:+ s' -> x = y /\ s = s'.
Proof.
  assert (Happ : forall n t u, pretty_N_go n t +:+ u = pretty_N_go n (t +:+ u)).
  { intros n. induction (N.lt_wf_0 n) as [n _ IH]. intros t u. destruct (N.eq_0_gt_0_cases n) as [->|Hn]; [by rewrite !pretty_N_go_0|].
    rewrite !(pretty_N_go_step n) by done. rewrite IH by (by apply N.div_lt). done. }
  assert (Hlead : forall n t, leading_number 0 (pretty n +:+ ":" +:+ t) = (Z.of_N n, ":" +:+ t)).
  { intros n t. unfold pretty, pretty_N. case_decide as E; [by subst|]. rewrite Happ. destruct (leading_number_go n) as [k Hk]. by rewrite Hk. }
  intros E. apply (f_equal (leading_number 0)) in E. rewrite !Hlead in E. injection E as Hn Hs. split; [lia|done].
Qed.
