(* ===== verification/Effects.v ===== *)
(** * Stateful computations that may raise

    A computation runs on a state, which an exception leaves as it was when it was raised.  The
    state is the program's own, the outside world, or the log of the calls made so far, newest
    first.  [ends] states what holds when a computation ends, [emits] what a computation adds to
    a log. *)

From stdpp Require Import base strings list.
From S2P Require Import Prelude.

(** ** Computations *)

Definition eff (St A : Type) : Type := St -> res A * St.

#[export] Instance eff_ret {St} : MRet (eff St) := fun A a s => (Ok a, s).
#[export] Instance eff_bind {St} : MBind (eff St) := fun A B f m s =>
  match m s with
  | (Ok a, s') => f a s'
  | (Raise e, s') => (Raise e, s')
  end.

Section computations.
Context {St : Type}.

Definition lift {A} (r : res A) : eff St A := fun s => (r, s).
Definition throw {A} (cls site : string) : eff St A := lift (raise cls site).

(** [try: m  except Exception as exc: handler(exc)] *)
Definition try {A} (m : eff St A) (handler : exn -> eff St A) : eff St A := fun s =>
  match m s with
  | (Ok a, s') => (Ok a, s')
  | (Raise e, s') => handler e s'
  end.

(** A [for] loop. *)
Fixpoint forM {S A} (f : S -> A -> eff St S) (s : S) (xs : list A) : eff St S :=
  match xs with
  | [] => mret s
  | x :: xs => s' ← f s x; forM f s' xs
  end.

(** A list built by a loop. *)
Fixpoint mapM_eff {A B} (f : A -> eff St B) (xs : list A) : eff St (list B) :=
  match xs with
  | [] => mret []
  | x :: xs => y ← f x; ys ← mapM_eff f xs; mret (y :: ys)
  end.

(** A [for] loop whose body only has effects. *)
Fixpoint for_each {A} (f : A -> eff St unit) (xs : list A) : eff St unit :=
  match xs with
  | [] => mret tt
  | x :: xs => _ ← f x; for_each f xs
  end.
End computations.

Lemma eff_bind_inv {St A B} (m : eff St A) (f : A -> eff St B) s r s' :
  (m ≫= f) s = (r, s') ->
  (exists e, m s = (Raise e, s') /\ r = Raise e) \/ (exists a s1, m s = (Ok a, s1) /\ f a s1 = (r, s')).
Proof.
  unfold mbind, eff_bind. destruct (m s) as [[a|e] s1]; [by right; exists a, s1|].
  intros [= <- <-]. left. by exists e.
Qed.

Lemma eff_bind_Ok {St A B} (m : eff St A) (f : A -> eff St B) s b s' :
  (m ≫= f) s = (Ok b, s') <-> exists a s1, m s = (Ok a, s1) /\ f a s1 = (Ok b, s').
Proof.
  unfold mbind, eff_bind. destruct (m s) as [[a|e] s1]; [|naive_solver].
  split; [by intros Hf; exists a, s1|]. by intros (? & ? & [= <- <-] & ?).
Qed.

(** ** What holds at the end *)

Section ends.
Context {St : Type}.

(** From [s], the computation ends in a result and a state that satisfy [Q]. *)
Definition ends {A} (m : eff St A) (s : St) (Q : res A -> St -> Prop) : Prop := Q (m s).1 (m s).2.

Lemma ends_ret {A} (a : A) s (Q : res A -> St -> Prop) : Q (Ok a) s -> ends (mret a) s Q.
Proof. done. Qed.

Lemma ends_lift {A} (r : res A) s (Q : res A -> St -> Prop) : Q r s -> ends (lift r) s Q.
Proof. done. Qed.

Lemma ends_bind {A B} (m : eff St A) (f : A -> eff St B) s (Q : res B -> St -> Prop) :
  ends m s (fun r s' => match r with Ok a => ends (f a) s' Q | Raise e => Q (Raise e) s' end) -> ends (m ≫= f) s Q.
Proof. unfold ends, mbind, eff_bind. by destruct (m s) as [[a|e] s']. Qed.

Lemma ends_impl {A} (m : eff St A) s (Q1 Q2 : res A -> St -> Prop) :
  ends m s Q1 -> (forall r s', Q1 r s' -> Q2 r s') -> ends m s Q2.
Proof. unfold ends. auto. Qed.

Lemma ends_and {A} (m : eff St A) s (Q1 Q2 : res A -> St -> Prop) :
  ends m s Q1 -> ends m s Q2 -> ends m s (fun r s' => Q1 r s' /\ Q2 r s').
Proof. by split. Qed.

Lemma ends_try {A} (m : eff St A) handler s (Q : res A -> St -> Prop) :
  ends m s (fun r s' => match r with Ok a => Q (Ok a) s' | Raise e => ends (handler e) s' Q end) -> ends (try m handler) s Q.
Proof. unfold ends, try. by destruct (m s) as [[a|e] s']. Qed.

(** A loop keeps what each of its steps keeps. *)
Lemma ends_for_each {A} (f : A -> eff St unit) xs s (I : St -> Prop) :
  I s -> (forall x s, x ∈ xs -> I s -> ends (f x) s (fun _ s' => I s')) -> ends (for_each f xs) s (fun _ s' => I s').
Proof.
  revert s. induction xs as [|x xs IH]; intros s Hs Hf; [done|]. cbn [for_each]. apply ends_bind.
  eapply ends_impl; [apply Hf; [apply list_elem_of_here|done]|]. intros [[]|e] s' Hs'; [|done].
  apply IH; [done|]. intros y t Hy. apply Hf. by apply elem_of_cons; right.
Qed.
End ends.

(** ** What a computation leaves unchanged *)

Section keeps.
Context {St O : Type} (obs : St -> O).

(** The observation of the state is the same after the computation, whatever its result. *)
Definition keeps {A} (m : eff St A) : Prop := forall s, obs (m s).2 = obs s.

Lemma keeps_ret {A} (a : A) : keeps (mret a).
Proof. done. Qed.

Lemma keeps_lift {A} (r : res A) : keeps (lift r).
Proof. done. Qed.

Lemma keeps_throw {A} cls site : keeps (throw (A := A) cls site).
Proof. done. Qed.

Lemma keeps_bind {A B} (m : eff St A) (f : A -> eff St B) : keeps m -> (forall a, keeps (f a)) -> keeps (m ≫= f).
Proof.
  intros Hm Hf s. unfold mbind, eff_bind. specialize (Hm s). destruct (m s) as [[a|e] s']; [|done].
  simpl in Hm. by rewrite Hf.
Qed.

Lemma keeps_try {A} (m : eff St A) handler : keeps m -> (forall e, keeps (handler e)) -> keeps (try m handler).
Proof.
  intros Hm Hh s. unfold try. specialize (Hm s). destruct (m s) as [[a|e] s']; [done|].
  simpl in Hm. by rewrite Hh.
Qed.

Lemma keeps_for_each {A} (f : A -> eff St unit) xs : (forall x, keeps (f x)) -> keeps (for_each f xs).
Proof. intros Hf. induction xs; [apply keeps_ret|]. apply keeps_bind; auto. Qed.

Lemma keeps_mapM {A B} (f : A -> eff St B) xs : (forall x, keeps (f x)) -> keeps (mapM_eff f xs).
Proof.
  intros Hf. induction xs; [apply keeps_ret|]. apply keeps_bind; [done|]. intros b.
  apply keeps_bind; [done|]. intros bs. apply keeps_ret.
Qed.

(** After a computation that keeps the observation. *)
Lemma ends_keeps {A B} (m : eff St A) (f : A -> eff St B) s (Q : res B -> St -> Prop) :
  keeps m ->
  (forall a s', m s = (Ok a, s') -> obs s' = obs s -> ends (f a) s' Q) ->
  (forall e s', m s = (Raise e, s') -> obs s' = obs s -> Q (Raise e) s') ->
  ends (m ≫= f) s Q.
Proof.
  intros Hm Hf He. apply ends_bind. unfold ends. specialize (Hm s).
  destruct (m s) as [[a|e] s'] eqn:E; simpl in *; [by apply Hf|by apply He].
Qed.
End keeps.

Create HintDb keeps.
#[export] Hint Resolve keeps_ret keeps_lift keeps_throw keeps_for_each keeps_mapM : keeps.
#[export] Hint Extern 2 (keeps _ (_ ≫= _)) => apply keeps_bind; [|intro] : keeps.
#[export] Hint Extern 2 (keeps _ (try _ _)) => apply keeps_try; [|intro] : keeps.
#[export] Hint Extern 3 (keeps _ (if ?b then _ else _)) => destruct b : keeps.
#[export] Hint Extern 3 (keeps _ (match ?x with _ => _ end)) => destruct x : keeps.

(** ** Calls a computation makes *)

Section emits.
Context {event : Type}.

(** All calls of the computation satisfy [P], whatever its result. *)
Definition emits {A} (P : event -> Prop) (m : eff (list event) A) : Prop :=
  forall l r l', m l = (r, l') -> exists new, l' = new ++ l /\ Forall P new.

Context (P : event -> Prop).

Lemma emits_lift {A} (r : res A) : emits P (lift r).
Proof. intros l r' l' [= <- <-]. by exists []. Qed.

Lemma emits_ret {A} (a : A) : emits P (mret a).
Proof. apply (emits_lift (Ok a)). Qed.

Lemma emits_bind {A B} (m : eff (list event) A) (f : A -> eff (list event) B) :
  emits P m -> (forall a, emits P (f a)) -> emits P (m ≫= f).
Proof.
  intros Hm Hf l r l' [(e & H & ->)|(a & l1 & H1 & H2)]%eff_bind_inv; [by eapply Hm|].
  apply Hm in H1 as (n1 & -> & Hn1). apply Hf in H2 as (n2 & -> & Hn2).
  exists (n2 ++ n1). rewrite <-app_assoc. split; [done|]. by apply Forall_app.
Qed.

Lemma emits_try {A} (m : eff (list event) A) (handler : exn -> eff (list event) A) :
  emits P m -> (forall e, emits P (handler e)) -> emits P (try m handler).
Proof.
  intros Hm Hh l r l'. unfold try. destruct (m l) as [[a|e] l1] eqn:E.
  - intros [= <- <-]. by eapply Hm.
  - intros H. apply Hm in E as (n1 & -> & Hn1). apply Hh in H as (n2 & -> & Hn2).
    exists (n2 ++ n1). rewrite <-app_assoc. split; [done|]. by apply Forall_app.
Qed.

Lemma emits_forM {S A} (f : S -> A -> eff (list event) S) s xs :
  (forall s x, emits P (f s x)) -> emits P (forM f s xs).
Proof.
  intros Hf. revert s. induction xs as [|x xs IH]; intros s; [apply emits_ret|].
  apply emits_bind; [apply Hf|apply IH].
Qed.

Lemma emits_weaken {A} (Q : event -> Prop) (m : eff (list event) A) :
  (forall ev, P ev -> Q ev) -> emits P m -> emits Q m.
Proof.
  intros HPQ Hm l r l' (new & -> & Hn)%Hm. exists new. split; [done|]. by eapply Forall_impl.
Qed.
End emits.

(** ** The exceptions of a computation *)

Section raises.
Context {St : Type} (P : exn -> Prop).

(** Every exception the computation may raise satisfies [P]. *)
Definition raises {A} (m : eff St A) : Prop := forall s e s', m s = (Raise e, s') -> P e.
Definition res_raises {A} (r : res A) : Prop := forall e, r = Raise e -> P e.

Lemma raises_ret {A} (a : A) : raises (mret a).
Proof. intros s e s'. unfold mret, eff_ret. congruence. Qed.

Lemma raises_lift {A} (r : res A) : res_raises r -> raises (lift r).
Proof. intros Hr s e s' [= -> _]. by apply Hr. Qed.

Lemma raises_throw {A} cls site : P (Exn cls site) -> raises (throw (A := A) cls site).
Proof. by intros HP s e s' [= <- _]. Qed.

Lemma raises_bind {A B} (m : eff St A) (f : A -> eff St B) : raises m -> (forall a, raises (f a)) -> raises (m ≫= f).
Proof. intros Hm Hf s e s' [(e' & H & [= ->])|(a & s1 & _ & H)]%eff_bind_inv; [by eapply Hm|by eapply Hf]. Qed.

Lemma raises_forM {S A} (f : S -> A -> eff St S) s xs : (forall s x, raises (f s x)) -> raises (forM f s xs).
Proof.
  intros Hf. revert s. induction xs as [|x xs IH]; intros s; [apply raises_ret|]. cbn [forM]. apply raises_bind; [apply Hf|apply IH].
Qed.

Lemma res_raises_ok {A} (a : A) : res_raises (Ok a).
Proof. by intros e [=]. Qed.

Lemma res_raises_raise {A} cls site : P (Exn cls site) -> res_raises (raise (A := A) cls site).
Proof. by intros HP e [= <-]. Qed.

Lemma res_raises_bind {A B} (m : res A) (f : A -> res B) : res_raises m -> (forall a, res_raises (f a)) -> res_raises (m ≫= f).
Proof. intros Hm Hf e. destruct m as [a|e']; simpl; [apply Hf|intros [= ->]; by apply Hm]. Qed.

Lemma res_raises_mapM {A B} (f : A -> res B) l : (forall a, res_raises (f a)) -> res_raises (mapM_res f l).
Proof.
  intros Hf. induction l as [|a l IH]; [apply res_raises_ok|]. simpl. intros e.
  destruct (f a) eqn:Ea; [|intros [= <-]; by eapply Hf]. destruct (mapM_res f l); [done|]. intros [= <-]. by apply IH.
Qed.

Lemma res_raises_filterM {A} (f : A -> res bool) l : (forall a, res_raises (f a)) -> res_raises (filterM_res f l).
Proof.
  intros Hf. induction l as [|a l IH]; [apply res_raises_ok|]. simpl. intros e.
  destruct (f a) eqn:Ea; [|intros [= <-]; by eapply Hf]. destruct (filterM_res f l); [by destruct a0|]. intros [= <-]. by apply IH.
Qed.
End raises.
