(* ===== verification/PyValue.v ===== *)
(** * Python values, rows and the interpreter's renderings

    The values a row may hold, with Python's [==] and [<] on them; rows as finite
    maps from column names; the renderings ([repr], [str], [json.dumps], SHA-256)
    of the interpreter, which the code uses only as sort keys and fingerprints. *)

From stdpp Require Import base gmap strings list fin_maps sorting.
From stdpp Require pretty.
From Stdlib Require Import QArith.
From S2P Require Import Prelude.
#[local] Close Scope Q_scope.
#[local] Open Scope nat_scope.

(** ** Values

    [VFloat q] is the finite float whose exact value is the rational [q] (there is no
    NaN, no infinity and one zero); [VDatetime off us] is a wall-clock time in
    microseconds since year 1 with its UTC offset in microseconds, [None] for a naive
    datetime; [VDate] is a proleptic ordinal; [VDecimal c e] is [c * 10^e];
    the items of [VDict] are its [str]-keyed entries. *)

Inductive value :=
| VNone
| VBool (b : bool)
| VInt (z : Z)
| VFloat (q : Q)
| VStr (s : string)
| VDatetime (off : option Z) (us : Z)
| VDate (ordinal : Z)
| VDecimal (c e : Z)
| VUUID (n : N)
| VTuple (l : list value)
| VList (l : list value)
| VDict (l : list (string * value)).

(** A row, [dict[str, Any]]. *)
Abbreviation row := (gmap string value).

Section value_ind.
Context (P : value -> Prop).
Context (HNone : P VNone) (HBool : forall b, P (VBool b)) (HInt : forall z, P (VInt z))
  (HFloat : forall q, P (VFloat q)) (HStr : forall s, P (VStr s))
  (HDatetime : forall o u, P (VDatetime o u)) (HDate : forall d, P (VDate d))
  (HDecimal : forall c e, P (VDecimal c e)) (HUUID : forall n, P (VUUID n))
  (HTuple : forall l, Forall P l -> P (VTuple l))
  (HList : forall l, Forall P l -> P (VList l))
  (HDict : forall l, Forall (fun kv => P kv.2) l -> P (VDict l)).

Fixpoint value_nested_ind (v : value) : P v :=
  match v with
  | VNone => HNone | VBool b => HBool b | VInt z => HInt z | VFloat q => HFloat q
  | VStr s => HStr s | VDatetime o u => HDatetime o u | VDate d => HDate d
  | VDecimal c e => HDecimal c e | VUUID n => HUUID n
  | VTuple l => HTuple l
      ((fix go l := match l return Forall P l with
                    | [] => Forall_nil_2 P
                    | x :: l => Forall_cons_2 P x l (value_nested_ind x) (go l)
                    end) l)
  | VList l => HList l
      ((fix go l := match l return Forall P l with
                    | [] => Forall_nil_2 P
                    | x :: l => Forall_cons_2 P x l (value_nested_ind x) (go l)
                    end) l)
  | VDict l => HDict l
      ((fix go l := match l return Forall (fun kv => P kv.2) l with
                    | [] => Forall_nil_2 _
                    | x :: l => Forall_cons_2 _ x l (value_nested_ind x.2) (go l)
                    end) l)
  end.

End value_ind.

#[export] Instance Q_leibniz_dec : EqDecision Q.
Proof. solve_decision. Defined.

#[export] Instance value_eq_dec : EqDecision value.
Proof.
  unfold EqDecision. fix go 1. intros x y.
  assert (EqDecision (list value)) as dl by exact (@list_eq_dec value go).
  assert (EqDecision (list (string * value))) as dd
    by exact (@list_eq_dec _ (@prod_eq_dec string _ value go)).
  destruct x, y; try (right; discriminate); try (left; reflexivity);
  first
  [ match goal with |- Decision (VTuple ?a = VTuple ?b) => destruct (dl a b) end
  | match goal with |- Decision (VList ?a = VList ?b) => destruct (dl a b) end
  | match goal with |- Decision (VDict ?a = VDict ?b) => destruct (dd a b) end
  | match goal with |- Decision (_ ?a ?b = _ ?c ?d) =>
      destruct (decide (a = c)), (decide (b = d)) end
  | match goal with |- Decision (_ ?a = _ ?b) => destruct (decide (a = b)) end ];
  first [left; congruence | right; congruence].
Defined.

(** ** Equality

    [True == 1 == 1.0 == Decimal(1)], aware datetimes are equal when they denote the
    same instant, and dictionaries are equal whatever the order of their entries.
    [nrm] maps a value to a representative of its class under [==]. *)

Definition decimal_Q (c e : Z) : Q :=
  if (0 <=? e)%Z then Qmake (c * 10 ^ e) 1 else Qmake c (Z.to_pos (10 ^ (- e))).

(** The exact value of a number. *)
Definition num (v : value) : option Q :=
  match v with
  | VBool b => Some (inject_Z (if b then 1 else 0)%Z)
  | VInt z => Some (inject_Z z)
  | VFloat q => Some q
  | VDecimal c e => Some (decimal_Q c e)
  | _ => None
  end.

Definition sort_items {A} (l : list (string * A)) : list (string * A) := sort_on fst l.

Fixpoint nrm (v : value) : value :=
  match v with
  | VBool b => VFloat (Qred (inject_Z (if b then 1 else 0)%Z))
  | VInt z => VFloat (Qred (inject_Z z))
  | VFloat q => VFloat (Qred q)
  | VDecimal c e => VFloat (Qred (decimal_Q c e))
  | VDatetime (Some off) us => VDatetime (Some 0%Z) (us - off)%Z
  | VTuple l => VTuple (map nrm l)
  | VList l => VList (map nrm l)
  | VDict l => VDict (sort_items (map (fun kv => (kv.1, nrm kv.2)) l))
  | _ => v
  end.

(** Python's [a == b]. *)
Definition py_eqb (a b : value) : bool := bool_decide (nrm a = nrm b).

Definition is_none (v : value) : bool := match v with VNone => true | _ => false end.
Definition is_true (v : value) : bool := match v with VBool true => true | _ => false end.
(** The truth value of a Python value. *)
Definition truthy (v : value) : bool :=
  match v with
  | VNone => false
  | VBool b => b
  | VInt z => negb (z =? 0)%Z
  | VFloat q => negb (QArith_base.Qeq_bool q (QArith_base.inject_Z 0))
  | VDecimal c _ => negb (c =? 0)%Z
  | VStr s => negb (String.eqb s "")
  | VTuple l | VList l => negb (bool_decide (l = []))
  | VDict l => negb (bool_decide (l = []))
  | _ => true
  end.

Definition is_datetime (v : value) : bool :=
  match v with VDatetime _ _ => true | _ => false end.
(** [isinstance(v, int)], which holds of [bool] too. *)
Definition is_int_instance (v : value) : bool :=
  match v with VInt _ | VBool _ => true | _ => false end.

(** ** Order

    [py_cmp a b] is the outcome of [a < b] and [a > b]; [None] is a [TypeError].
    Sequences are compared at the first position where they differ under [==]. *)

Fixpoint py_cmp (a b : value) {struct a} : option comparison :=
  let go := fix go (l m : list value) {struct l} : option comparison :=
    match l, m with
    | [], [] => Some Eq
    | [], _ :: _ => Some Lt
    | _ :: _, [] => Some Gt
    | x :: l', y :: m' => if py_eqb x y then go l' m' else py_cmp x y
    end in
  match a, b with
  | VStr s, VStr t => Some (String.compare s t)
  | VDatetime None u, VDatetime None w => Some (u ?= w)%Z
  | VDatetime (Some o) u, VDatetime (Some p) w => Some (u - o ?= w - p)%Z
  | VDate u, VDate w => Some (u ?= w)%Z
  | VUUID u, VUUID w => Some (u ?= w)%N
  | VTuple l, VTuple m => go l m
  | VList l, VList m => go l m
  | _, _ => match num a, num b with
            | Some p, Some q => Some (p ?= q)%Q
            | _, _ => None
            end
  end.

(** Comparison of two tuples of values. *)
Definition tuple_cmp (l m : list value) : option comparison := py_cmp (VTuple l) (VTuple m).

(** ** Rows *)

(** [row.get(column)] *)
Definition get (r : row) (c : string) : value := default VNone (r !! c).

(** [{**base, **upd}], also [base.update(upd)] *)
Definition row_update (base upd : row) : row := upd ∪ base.

(** [r1 == r2] on dictionaries *)
Definition row_eqb (r1 r2 : row) : bool := bool_decide (nrm <$> r1 = nrm <$> r2).

(** Equality of key tuples, as used for dictionary keys. *)
Definition key_eqb (k1 k2 : list value) : bool := bool_decide (map nrm k1 = map nrm k2).

(** A row as a Python value. *)
Definition row_value (r : row) : value := VDict (sort_items (map_to_list r)).

(** ** The interpreter's renderings

    [py_repr] is [repr], [str_of] is [str] on values that are not strings, [json_dumps] is
    [json.dumps] with the arguments of [contracts/hashing.py] (sorted keys, compact
    separators, [default=str]) and [sha256_hex] is [hashlib.sha256(..).hexdigest()]. *)

Class PyRuntime := {
  py_repr : value -> string;
  str_of : value -> string;
  json_dumps : value -> string;
  sha256_hex : string -> string
}.

Section renderings.
Context `{PyRuntime}.

(** [str(v)] *)
Definition py_str (v : value) : string := match v with VStr s => s | _ => str_of v end.

(** [repr(key)] of a key tuple *)
Definition repr_key (k : list value) : string := py_repr (VTuple k).

(** [contracts/hashing.py]: the SHA-256 of the canonical JSON of a payload. *)
Definition canonical_hash (payload : value) : string := sha256_hex (json_dumps payload).

End renderings.

(** ** Laws of [==] and [<] *)

Lemma nrm_idemp v : nrm (nrm v) = nrm v.
Proof.
  induction v as [| | | | |[o|] u| | | |l IH|l IH|l IH] using value_nested_ind; simpl;
    rewrite ?Z.sub_0_r; try done; try (by f_equal; apply Qred_complete, Qred_correct).
  - f_equal. rewrite map_map. by apply map_ext_Forall.
  - f_equal. rewrite map_map. by apply map_ext_Forall.
  - f_equal. unfold sort_items.
    assert (map (fun kv => (kv.1, nrm kv.2)) (sort_on fst (map (fun kv => (kv.1, nrm kv.2)) l))
            = sort_on fst (map (fun kv => (kv.1, nrm kv.2)) l)) as ->.
    + etrans; [apply (map_ext_Forall _ id)|apply map_id].
      apply Forall_forall. intros kv Hin.
      apply elem_of_sort_on, list_elem_of_fmap in Hin as (kv' & -> & Hin). simpl. f_equal.
      by apply (Forall_forall (fun kv => nrm (nrm kv.2) = nrm kv.2) l) in Hin.
    + apply sort_by_id, sort_on_sorted.
Qed.

Lemma py_eqb_spec a b : py_eqb a b = true <-> nrm a = nrm b.
Proof. apply bool_decide_eq_true. Qed.

Lemma py_eqb_refl a : py_eqb a a = true.
Proof. by apply py_eqb_spec. Qed.

Lemma py_eqb_sym a b : py_eqb a b = py_eqb b a.
Proof. apply bool_decide_ext. naive_solver. Qed.

Lemma py_eqb_nrm a b : py_eqb (nrm a) (nrm b) = py_eqb a b.
Proof. unfold py_eqb. by rewrite !nrm_idemp. Qed.

Lemma num_nrm v : num (nrm v) = Qred <$> num v.
Proof. by destruct v as [| | | | |[o|] u| | | | | |]. Qed.

Lemma Qcompare_Qred p q : (Qred p ?= Qred q)%Q = (p ?= q)%Q.
Proof. apply Qcompare_comp; apply Qred_correct. Qed.

(** [<] depends on its operands only up to [==]. *)
Lemma py_cmp_nrm a b : py_cmp (nrm a) (nrm b) = py_cmp a b.
Proof.
  revert b. induction a as [| | | | |[o|] u| | | |l IH|l IH|l IH] using value_nested_ind;
    intros v2; destruct v2 as [| | | | |[p|] w| | | |m|m|m]; simpl; try done;
    rewrite ?Qcompare_Qred, ?Z.sub_0_r; try done.
  - revert m. induction l as [|x l IHl]; intros [|y m]; simpl; try done.
    apply Forall_cons in IH as [Hx IH]. rewrite py_eqb_nrm, Hx.
    destruct (py_eqb x y); [|done]. by apply IHl.
  - revert m. induction l as [|x l IHl]; intros [|y m]; simpl; try done.
    apply Forall_cons in IH as [Hx IH]. rewrite py_eqb_nrm, Hx.
    destruct (py_eqb x y); [|done]. by apply IHl.
Qed.

Lemma py_cmp_compat a a' b b' :
  py_eqb a a' = true -> py_eqb b b' = true -> py_cmp a b = py_cmp a' b'.
Proof.
  rewrite !py_eqb_spec. intros Ha Hb.
  by rewrite <-(py_cmp_nrm a b), Ha, Hb, py_cmp_nrm.
Qed.

Lemma Qcompare_antisym p q : (q ?= p)%Q = CompOpp (p ?= q)%Q.
Proof. symmetry. apply Qcompare_antisym. Qed.

Lemma py_cmp_antisym a b : py_cmp b a = CompOpp <$> py_cmp a b.
Proof.
  revert b. induction a as [| | | | |[o|] u| | | |l IH|l IH|l IH] using value_nested_ind;
    intros v2; destruct v2 as [| | | | |[p|] w| | | |m|m|m]; simpl; try done;
    try (by rewrite Qcompare_antisym); try (by rewrite Z.compare_antisym).
  - by rewrite String.compare_antisym.
  - by rewrite N.compare_antisym.
  - revert m. induction l as [|x l IHl]; intros [|y m]; simpl; try done.
    apply Forall_cons in IH as [Hx IH]. rewrite py_eqb_sym.
    destruct (py_eqb x y); [by apply IHl|by apply Hx].
  - revert m. induction l as [|x l IHl]; intros [|y m]; simpl; try done.
    apply Forall_cons in IH as [Hx IH]. rewrite py_eqb_sym.
    destruct (py_eqb x y); [by apply IHl|by apply Hx].
Qed.

Lemma nrm_inject_eq p q : (p ?= q)%Q = Eq -> VFloat (Qred p) = VFloat (Qred q).
Proof. intros H. f_equal. apply Qred_complete. by apply Qeq_alt. Qed.

(** Operands that compare equal are equal. *)
Lemma py_cmp_Eq a b : py_cmp a b = Some Eq -> py_eqb a b = true.
Proof.
  rewrite py_eqb_spec. revert b.
  induction a as [| | | | |[o|] u| | | |l IH|l IH|l IH] using value_nested_ind;
    intros v2; destruct v2 as [| | | | |[p|] w| | | |m|m|m]; simpl; try done; intros [=H];
    try (by apply nrm_inject_eq); try (apply Z.compare_eq_iff in H; by subst).
  - f_equal. by apply str_compare_Eq.
  - apply Z.compare_eq_iff in H. by rewrite H.
  - apply N.compare_eq_iff in H. by subst.
  - f_equal. revert m H. induction l as [|x l IHl]; intros [|y m]; simpl; try done.
    apply Forall_cons in IH as [Hx IH]. destruct (py_eqb x y) eqn:E.
    + intros H. apply py_eqb_spec in E. rewrite E. f_equal. by apply IHl.
    + intros H. apply Hx in H. apply py_eqb_spec in H. congruence.
  - f_equal. revert m H. induction l as [|x l IHl]; intros [|y m]; simpl; try done.
    apply Forall_cons in IH as [Hx IH]. destruct (py_eqb x y) eqn:E.
    + intros H. apply py_eqb_spec in E. rewrite E. f_equal. by apply IHl.
    + intros H. apply Hx in H. apply py_eqb_spec in H. congruence.
Qed.

(** Operands equal under [==] never compare as different. *)
Lemma py_cmp_eqb a b c : py_eqb a b = true -> py_cmp a b = Some c -> c = Eq.
Proof.
  intros Hab Hc. pose proof (py_cmp_antisym a b) as Hs. rewrite Hc in Hs. simpl in Hs.
  rewrite (py_cmp_compat b a a b) in Hs by (by rewrite ?(py_eqb_sym b a)).
  rewrite Hc in Hs. by destruct c.
Qed.

Lemma Qcompare_Lt_trans p q r : (p ?= q)%Q = Lt -> (q ?= r)%Q = Lt -> (p ?= r)%Q = Lt.
Proof. rewrite <-!Qlt_alt. apply Qlt_trans. Qed.

Lemma Zcompare_Lt_trans a b c : (a ?= b)%Z = Lt -> (b ?= c)%Z = Lt -> (a ?= c)%Z = Lt.
Proof. rewrite !Z.compare_lt_iff. lia. Qed.

Lemma py_eqb_trans a b c : py_eqb a b = true -> py_eqb b c = true -> py_eqb a c = true.
Proof. rewrite !py_eqb_spec. congruence. Qed.

Lemma py_cmp_Lt_trans a b c :
  py_cmp a b = Some Lt -> py_cmp b c = Some Lt -> py_cmp a c = Some Lt.
Proof.
  revert b c. induction a as [| | | | |[o|] u| | | |l IH|l IH|l IH] using value_nested_ind;
    intros v2 v3; destruct v2 as [| | | | |[p|] w| | | |m|m|m]; simpl; try done;
    destruct v3 as [| | | | |[r|] t| | | |k|k|k]; simpl; try done; intros [=H1] [=H2];
    try (f_equal; by eapply Qcompare_Lt_trans); try (f_equal; by eapply Zcompare_Lt_trans).
  - f_equal. by eapply str_compare_Lt_trans.
  - rewrite N.compare_lt_iff in *. f_equal. rewrite N.compare_lt_iff. by eapply N.lt_trans.
  - revert m k H1 H2. induction l as [|x l IHl]; intros [|y m] [|z k]; simpl; try done.
    apply Forall_cons in IH as [Hx IH].
    destruct (py_eqb x y) eqn:E1, (py_eqb y z) eqn:E2; intros H1 H2.
    + rewrite (py_eqb_trans x y z) by done. by eapply IHl.
    + rewrite (py_cmp_compat x y z z) by (by rewrite ?py_eqb_refl).
      destruct (py_eqb x z) eqn:E3; [|done].
      rewrite (py_eqb_trans y x z) in E2; [done|by rewrite py_eqb_sym|done].
    + rewrite (py_cmp_compat x x z y) by (by rewrite ?py_eqb_refl, 1?py_eqb_sym).
      destruct (py_eqb x z) eqn:E3; [|done].
      rewrite (py_eqb_trans x z y) in E1; [done|done|by rewrite py_eqb_sym].
    + rewrite (Hx y z) by done. destruct (py_eqb x z) eqn:E3; [|done].
      pose proof (py_cmp_eqb x z Lt E3 (Hx _ _ H1 H2)). done.
  - revert m k H1 H2. induction l as [|x l IHl]; intros [|y m] [|z k]; simpl; try done.
    apply Forall_cons in IH as [Hx IH].
    destruct (py_eqb x y) eqn:E1, (py_eqb y z) eqn:E2; intros H1 H2.
    + rewrite (py_eqb_trans x y z) by done. by eapply IHl.
    + rewrite (py_cmp_compat x y z z) by (by rewrite ?py_eqb_refl).
      destruct (py_eqb x z) eqn:E3; [|done].
      rewrite (py_eqb_trans y x z) in E2; [done|by rewrite py_eqb_sym|done].
    + rewrite (py_cmp_compat x x z y) by (by rewrite ?py_eqb_refl, 1?py_eqb_sym).
      destruct (py_eqb x z) eqn:E3; [|done].
      rewrite (py_eqb_trans x z y) in E1; [done|done|by rewrite py_eqb_sym].
    + rewrite (Hx y z) by done. destruct (py_eqb x z) eqn:E3; [|done].
      pose proof (py_cmp_eqb x z Lt E3 (Hx _ _ H1 H2)). done.
Qed.

(** ** Laws of key equality *)

Lemma key_eqb_spec k1 k2 : key_eqb k1 k2 = true <-> map nrm k1 = map nrm k2.
Proof. apply bool_decide_eq_true. Qed.

Lemma key_eqb_refl k : key_eqb k k = true.
Proof. by apply key_eqb_spec. Qed.

Lemma key_eqb_sym k1 k2 : key_eqb k1 k2 = key_eqb k2 k1.
Proof. apply bool_decide_ext. naive_solver. Qed.

Lemma key_eqb_trans k1 k2 k3 :
  key_eqb k1 k2 = true -> key_eqb k2 k3 = true -> key_eqb k1 k3 = true.
Proof. rewrite !key_eqb_spec. congruence. Qed.

(** ** Laws of rows *)

Lemma row_eqb_spec r1 r2 : row_eqb r1 r2 = true <-> nrm <$> r1 = nrm <$> r2.
Proof. apply bool_decide_eq_true. Qed.

Lemma row_eqb_refl r : row_eqb r r = true.
Proof. by apply row_eqb_spec. Qed.

Lemma get_update_in base upd c : is_Some (upd !! c) -> get (row_update base upd) c = get upd c.
Proof. intros [v Hv]. unfold get, row_update. by rewrite (lookup_union_Some_l _ _ _ v), Hv. Qed.

Lemma get_update_out base upd c : upd !! c = None -> get (row_update base upd) c = get base c.
Proof. intros Hv. unfold get, row_update. by rewrite lookup_union_r. Qed.

Lemma get_insert_eq (r : row) c v : get (<[c:=v]> r) c = v.
Proof. unfold get. by rewrite lookup_insert_eq. Qed.

Lemma get_insert_ne (r : row) c c' v : c <> c' -> get (<[c:=v]> r) c' = get r c'.
Proof. intros. unfold get. by rewrite lookup_insert_ne. Qed.

(** ** A concrete runtime

    For the witnesses: exact on integers, strings and tuples of them, with the identity in
    place of SHA-256 (so that distinct inputs have distinct digests). *)

Fixpoint demo_repr (v : value) : string :=
  match v with
  | VNone => "None"
  | VBool true => "True"
  | VBool false => "False"
  | VInt z => pretty.pretty z
  | VStr s => "'" +:+ s +:+ "'"
  | VTuple l => "(" +:+ String.concat ", " (map demo_repr l) +:+ (if decide (length l = 1) then ",)" else ")")
  | VList l => "[" +:+ String.concat ", " (map demo_repr l) +:+ "]"
  | VDict l => "{" +:+ String.concat ", " (map (fun kv => "'" +:+ kv.1 +:+ "': " +:+ demo_repr kv.2) l) +:+ "}"
  | VDatetime _ us => "datetime(" +:+ pretty.pretty us +:+ ")"
  | _ => "?"
  end.

Definition demo_runtime : PyRuntime :=
  {| py_repr := demo_repr; str_of := demo_repr; json_dumps := demo_repr; sha256_hex := id |}.

(** ** Datetimes *)

(** A [datetime] on its own, as in the typed fields of the contracts. *)
Record datetime := Datetime { dt_off : option Z; dt_us : Z }.

#[export] Instance datetime_eq_dec : EqDecision datetime.
Proof. solve_decision. Defined.

Definition VDt (d : datetime) : value := VDatetime (dt_off d) (dt_us d).
Definition as_datetime (v : value) : option datetime :=
  match v with VDatetime o u => Some (Datetime o u) | _ => None end.

(** [value.tzinfo is None or value.utcoffset() is None] *)
Definition is_naive (d : datetime) : bool := match dt_off d with None => true | Some _ => false end.

(** The UTC instant of an aware datetime. *)
Definition dt_utc (d : datetime) : Z := dt_us d - default 0%Z (dt_off d).

(** A datetime in UTC. *)
Definition utc (us : Z) : datetime := Datetime (Some 0%Z) us.

#[global] Arguments py_cmp : simpl never.
