(* ===== verification/PyDict.v ===== *)
(** * Insertion-ordered dictionaries

    Python dictionaries whose keys are compared with [==]: association lists in
    insertion order.  An assignment to a present key keeps the position and the key
    object of the first insertion.  The loops of the apply strategies that index rows by
    key are instances of [index_by]. *)

From stdpp Require Import base gmap strings list fin_maps sorting.
From S2P Require Import Prelude PyValue.

(** Keys with a decidable equivalence, Python's [==] on hashable values. *)
Class PyKey (K : Type) := keq : K -> K -> bool.

Class PyKeyLaws (K : Type) `{PyKey K} : Prop := {
  keq_refl k : keq k k = true;
  keq_sym k1 k2 : keq k1 k2 = keq k2 k1;
  keq_trans k1 k2 k3 : keq k1 k2 = true -> keq k2 k3 = true -> keq k1 k3 = true
}.

(** Key tuples are compared element by element with [==]. *)
#[export] Instance tuple_key : PyKey (list value) := key_eqb.
#[export] Instance tuple_key_laws : PyKeyLaws (list value).
Proof. split; [apply key_eqb_refl|apply key_eqb_sym|apply key_eqb_trans]. Qed.

(** [hash(v)] is defined. *)
Fixpoint hashable (v : value) : bool :=
  match v with
  | VList _ | VDict _ => false
  | VTuple l => forallb hashable l
  | _ => true
  end.

#[export] Instance string_key : PyKey string := String.eqb.
#[export] Instance string_key_laws : PyKeyLaws string.
Proof.
  split; unfold keq, string_key; [apply String.eqb_refl|apply String.eqb_sym|].
  intros k1 k2 k3. by intros ->%String.eqb_eq.
Qed.

Section dict.
Context {K V : Type} `{PyKey K}.

(** [d.get(k)] *)
Fixpoint dget (d : list (K * V)) (k : K) : option V :=
  match d with
  | [] => None
  | (k', v) :: d' => if keq k' k then Some v else dget d' k
  end.

(** [k in d] *)
Definition dmem (d : list (K * V)) (k : K) : bool :=
  match dget d k with Some _ => true | None => false end.

(** [d[k] = v] *)
Fixpoint dset (d : list (K * V)) (k : K) (v : V) : list (K * V) :=
  match d with
  | [] => [(k, v)]
  | (k', v') :: d' => if keq k' k then (k', v) :: d' else (k', v') :: dset d' k v
  end.

(** [d.pop(k, None)], also [del d[k]] *)
Fixpoint dpop (d : list (K * V)) (k : K) : list (K * V) :=
  match d with
  | [] => []
  | (k', v') :: d' => if keq k' k then d' else (k', v') :: dpop d' k
  end.

(** The entries have pairwise different keys. *)
Fixpoint dwf (d : list (K * V)) : Prop :=
  match d with
  | [] => True
  | (k, _) :: d' => dget d' k = None /\ dwf d'
  end.

(** Same lookups: equality of dictionaries up to the order of their entries. *)
Definition deq (d1 d2 : list (K * V)) : Prop := forall k, dget d1 k = dget d2 k.

(** [for row in rows: key = key_of(row); if key in d: raise dup; check(key, row);
    d[key] = row] *)
Definition index_by (key_of : V -> res K) (dup : exn) (check : K -> V -> res unit)
    (rows : list V) : res (list (K * V)) :=
  foldM (fun d v =>
    match key_of v with
    | Raise e => Raise e
    | Ok k => if dmem d k then Raise dup
              else match check k v with Raise e => Raise e | Ok _ => Ok (dset d k v) end
    end) [] rows.

(** [[d[k] for k in sorted(d, key=repr)]] for a rendering of keys. *)
Definition sorted_values (repr : K -> string) (d : list (K * V)) : list V :=
  map snd (sort_on (fun kv => repr kv.1) d).

Context `{!PyKeyLaws K}.
Implicit Types (d : list (K * V)) (k : K) (v : V).

Lemma dget_compat d k1 k2 : keq k1 k2 = true -> dget d k1 = dget d k2.
Proof using All.
  intros Hk. induction d as [|[k v] d IH]; simpl; [done|].
  destruct (keq k k1) eqn:E1, (keq k k2) eqn:E2; try done.
  - by rewrite (keq_trans k k1 k2) in E2.
  - rewrite (keq_trans k k2 k1) in E1; [done|done|by rewrite keq_sym].
Qed.

Lemma dget_dset d k v k' : dget (dset d k v) k' = if keq k k' then Some v else dget d k'.
Proof using All.
  induction d as [|[k1 v1] d IH]; simpl; [done|].
  destruct (keq k1 k) eqn:E1; simpl.
  - destruct (keq k1 k') eqn:E2, (keq k k') eqn:E3; try done.
    + rewrite (keq_trans k k1 k') in E3; [done|by rewrite keq_sym|done].
    + by rewrite (keq_trans k1 k k') in E2.
  - rewrite IH. destruct (keq k1 k') eqn:E2, (keq k k') eqn:E3; try done.
    rewrite (keq_trans k1 k' k) in E1; [done|done|by rewrite keq_sym].
Qed.

Lemma dget_dset_eq d k v : dget (dset d k v) k = Some v.
Proof using All. by rewrite dget_dset, keq_refl. Qed.

Lemma dset_fresh d k v : dget d k = None -> dset d k v = d ++ [(k, v)].
Proof using Type.
  induction d as [|[k1 v1] d IH]; simpl; [done|].
  destruct (keq k1 k); [done|]. intros Hk. by rewrite IH.
Qed.

Lemma dget_app d1 d2 k :
  dget (d1 ++ d2) k = match dget d1 k with Some v => Some v | None => dget d2 k end.
Proof using Type.
  induction d1 as [|[k1 v1] d1 IH]; simpl; [done|]. by destruct (keq k1 k).
Qed.

Lemma dget_None d k : dget d k = None <-> Forall (fun kv => keq kv.1 k = false) d.
Proof using Type.
  induction d as [|[k1 v1] d IH]; simpl; [by split|].
  rewrite Forall_cons. simpl. destruct (keq k1 k); naive_solver.
Qed.

Lemma dget_Some_elem d k v :
  dget d k = Some v -> exists k', keq k' k = true /\ (k', v) ∈ d.
Proof using Type.
  induction d as [|[k1 v1] d IH]; simpl; [done|]. destruct (keq k1 k) eqn:E.
  - intros [= ->]. exists k1. split; [done|left].
  - intros (k' & ? & ?)%IH. exists k'. split; [done|by right].
Qed.

Lemma dwf_elem d k v : dwf d -> (k, v) ∈ d -> dget d k = Some v.
Proof using All.
  induction d as [|[k1 v1] d IH]; simpl; [by intros ? ?%elem_of_nil|].
  intros [Hk1 Hwf] [[= -> ->]|Hin]%elem_of_cons; [by rewrite keq_refl|].
  destruct (keq k1 k) eqn:E; [|by apply IH].
  rewrite (dget_compat _ k1 k) in Hk1 by done. by rewrite IH in Hk1.
Qed.

Lemma dwf_app_one d k v : dwf d -> dget d k = None -> dwf (d ++ [(k, v)]).
Proof using All.
  induction d as [|[k1 v1] d IH]; simpl; [done|]. intros [H1 Hwf].
  destruct (keq k1 k) eqn:E; [done|]. intros Hk. split; [|by apply IH].
  rewrite dget_app, H1. simpl. by rewrite keq_sym, E.
Qed.

Lemma dwf_dset d k v : dwf d -> dwf (dset d k v).
Proof using All.
  induction d as [|[k1 v1] d IH]; simpl; [done|]. intros [H1 Hwf].
  destruct (keq k1 k) eqn:E; simpl; split; [done|done| |by apply IH].
  by rewrite dget_dset, keq_sym, E.
Qed.

Lemma dget_dpop_out d k k' : keq k k' = false -> dget (dpop d k) k' = dget d k'.
Proof using All.
  intros Hk. induction d as [|[k1 v1] d IH]; simpl; [done|].
  destruct (keq k1 k) eqn:E; simpl.
  - destruct (keq k1 k') eqn:E2; [|done].
    rewrite (keq_trans k k1 k') in Hk; [done|by rewrite keq_sym|done].
  - by rewrite IH.
Qed.

Lemma dget_dpop_eq d k : dwf d -> dget (dpop d k) k = None.
Proof using All.
  induction d as [|[k1 v1] d IH]; simpl; [done|]. intros [H1 Hwf].
  destruct (keq k1 k) eqn:E; simpl; [by rewrite <-(dget_compat _ k1 k)|].
  rewrite E. by apply IH.
Qed.

Lemma dwf_dpop d k : dwf d -> dwf (dpop d k).
Proof using All.
  induction d as [|[k1 v1] d IH]; simpl; [done|]. intros [H1 Hwf].
  destruct (keq k1 k) eqn:E; simpl; [done|]. split; [|by apply IH].
  rewrite dget_dpop_out; [done|]. by rewrite keq_sym.
Qed.

Lemma dget_dpop d k k' : dwf d -> dget (dpop d k) k' = if keq k k' then None else dget d k'.
Proof using All.
  intros Hwf. destruct (keq k k') eqn:E; [|by apply dget_dpop_out].
  rewrite <-(dget_compat _ k k') by done. by apply dget_dpop_eq.
Qed.

Lemma dmem_true d k : dmem d k = true <-> is_Some (dget d k).
Proof using Type. unfold dmem. destruct (dget d k); split; eauto; [done|by intros [? ?]]. Qed.

Lemma dmem_false d k : dmem d k = false <-> dget d k = None.
Proof using Type. unfold dmem. by destruct (dget d k). Qed.

Lemma dwf_perm d1 d2 : d1 ≡ₚ d2 -> dwf d1 -> dwf d2.
Proof using All.
  induction 1 as [|[k v] d1 d2 Hp IH|[k1 v1] [k2 v2] d|d1 d2 d3 Hp1 IH1 Hp2 IH2]; simpl; auto.
  - intros [Hk Hwf]. split; [|by auto]. rewrite dget_None in *. by rewrite <-Hp.
  - rewrite (keq_sym k1 k2). destruct (keq k2 k1); naive_solver.
Qed.

Lemma dget_perm d1 d2 k : d1 ≡ₚ d2 -> dwf d1 -> dget d1 k = dget d2 k.
Proof using All.
  intros Hp Hwf. pose proof (dwf_perm _ _ Hp Hwf) as Hwf2.
  destruct (dget d2 k) as [v|] eqn:E2.
  - apply dget_Some_elem in E2 as (k' & Hk & Hin).
    rewrite <-(dget_compat _ k' k) by done. apply dwf_elem; [done|]. by rewrite Hp.
  - rewrite dget_None in *. by rewrite Hp.
Qed.

(** ** The indexing loop *)

Lemma index_by_spec key_of dup check rows d :
  index_by key_of dup check rows = Ok d ->
  dwf d /\ map snd d = rows /\
  Forall (fun kv => key_of kv.2 = Ok kv.1 /\ is_ok (check kv.1 kv.2) = true) d.
Proof using All.
  intros Hi. apply (foldM_ind _ (fun done d => dwf d /\ map snd d = done /\
    Forall (fun kv => key_of kv.2 = Ok kv.1 /\ is_ok (check kv.1 kv.2) = true) d)) in Hi;
    [done|done|].
  clear Hi. intros done v d1 d2 _ (Hwf & Hsnd & Hall) Hstep.
  destruct (key_of v) as [k|] eqn:Ek; [|discriminate].
  destruct (dmem d1 k) eqn:Em; [discriminate|]. apply dmem_false in Em.
  destruct (check k v) eqn:Ec; [|discriminate]. injection Hstep as <-.
  rewrite dset_fresh by done. split; [by apply dwf_app_one|]. split.
  - rewrite map_app. simpl. by rewrite Hsnd.
  - apply Forall_app. split; [done|]. constructor; [|done]. simpl. by rewrite Ec.
Qed.

Lemma index_by_complete key_of dup check d :
  dwf d ->
  Forall (fun kv => key_of kv.2 = Ok kv.1 /\ is_ok (check kv.1 kv.2) = true) d ->
  index_by key_of dup check (map snd d) = Ok d.
Proof using All.
  unfold index_by. intros Hwf Hall.
  assert (forall pre todo, d = pre ++ todo ->
    foldM (fun d v => match key_of v with Raise e => Raise e | Ok k =>
       if dmem d k then Raise dup else match check k v with
         Raise e => Raise e | Ok _ => Ok (dset d k v) end end) pre (map snd todo) = Ok d)
    as Hgen; [|by apply (Hgen [] d)].
  intros pre todo. revert pre. induction todo as [|[k v] todo IH]; intros pre Hd; simpl.
  - by rewrite Hd, app_nil_r.
  - assert ((k, v) ∈ d) as Hin by (rewrite Hd; set_solver).
    rewrite Forall_forall in Hall. destruct (Hall _ Hin) as [Hk Hc]. simpl in *.
    rewrite Hk. assert (dget pre k = None) as Hpre.
    { rewrite Hd in Hwf. clear -Hwf PyKeyLaws0.
      induction pre as [|[k1 v1] pre IH]; simpl in *; [done|]. destruct Hwf as [H1 Hwf].
      rewrite dget_app in H1. destruct (dget pre k1) eqn:E1; [done|]. simpl in H1.
      rewrite keq_sym in H1. destruct (keq k1 k); [done|]. by apply IH. }
    rewrite (proj2 (dmem_false _ _)) by done. destruct (check k v); [|done].
    rewrite dset_fresh by done. apply IH. by rewrite <-app_assoc.
Qed.

(** Replacing each key by an equal one changes no lookup. *)
Definition rekeyed d1 d2 : Prop := Forall2 (fun e1 e2 => keq e1.1 e2.1 = true /\ e1.2 = e2.2) d1 d2.

Lemma keq_compat_l k1 k2 k : keq k1 k2 = true -> keq k1 k = keq k2 k.
Proof using All.
  intros Hk. destruct (keq k1 k) eqn:E1, (keq k2 k) eqn:E2; try done.
  - rewrite (keq_trans k2 k1 k) in E2; [done|by rewrite keq_sym|done].
  - by rewrite (keq_trans k1 k2 k) in E1.
Qed.

Lemma rekeyed_dget d1 d2 k : rekeyed d1 d2 -> dget d1 k = dget d2 k.
Proof using All.
  induction 1 as [|[k1 v1] [k2 v2] d1 d2 [Hk Hv] _ IH]; simpl in *; [done|].
  by rewrite (keq_compat_l k1 k2), Hv, IH.
Qed.

Lemma rekeyed_dwf d1 d2 : rekeyed d1 d2 -> dwf d2 -> dwf d1.
Proof using All.
  induction 1 as [|[k1 v1] [k2 v2] d1 d2 [Hk Hv] Hr IH]; simpl in *; [done|].
  intros [H2 Hwf]. split; [|by apply IH].
  rewrite (rekeyed_dget d1 d2) by done. by rewrite (dget_compat _ k1 k2).
Qed.

(** Indexing the values of a dictionary again, in any order, when the key of each value is the
    key of its entry up to [==]: the same lookups. *)
Lemma index_by_reindex key_of dup check d rows :
  dwf d -> rows ≡ₚ map snd d ->
  Forall (fun kv => exists k', key_of kv.2 = Ok k' /\ keq k' kv.1 = true /\
            is_ok (check k' kv.2) = true) d ->
  exists d', index_by key_of dup check rows = Ok d' /\ dwf d' /\ deq d' d.
Proof using All.
  intros Hwf Hp Hall. apply Permutation_map_inv in Hp as (p & -> & Hp).
  apply (dwf_perm _ _ Hp) in Hwf as Hwfp. rewrite Hp in Hall.
  assert (exists d', rekeyed d' p /\
    Forall (fun kv => key_of kv.2 = Ok kv.1 /\ is_ok (check kv.1 kv.2) = true) d') as (d' & Hr & Hok).
  { clear -Hall. induction Hall as [|[k v] p (k' & Hk & Hkk & Hc) _ (d' & Hr & Hok)].
    - exists []. by split; constructor.
    - exists ((k', v) :: d'). split; by constructor. }
  pose proof (rekeyed_dwf _ _ Hr Hwfp) as Hwf'. exists d'. split_and!; [|done|].
  - assert (map snd p = map snd d') as ->; [|by apply index_by_complete].
    clear -Hr. induction Hr as [|[k1 v1] [k2 v2] d1 d2 [_ Hv] _ IH]; simpl in *; congruence.
  - intros k. rewrite (rekeyed_dget _ _ _ Hr). symmetry. by apply dget_perm.
Qed.

(** ** Update of a dictionary by another: [d.update(upd)] *)

Definition dupdate (d upd : list (K * V)) : list (K * V) :=
  foldl (fun d kv => dset d kv.1 kv.2) d upd.

Lemma dwf_dupdate d upd : dwf d -> dwf (dupdate d upd).
Proof using All.
  revert d. induction upd as [|[k v] upd IH]; intros d Hwf; simpl; [done|].
  by apply IH, dwf_dset.
Qed.

Lemma dget_dupdate d upd k :
  dwf upd ->
  dget (dupdate d upd) k = match dget upd k with Some v => Some v | None => dget d k end.
Proof using All.
  revert d. induction upd as [|[k1 v1] upd IH]; intros d Hwf; simpl; [done|].
  destruct Hwf as [H1 Hwf]. rewrite IH, dget_dset by done.
  destruct (keq k1 k) eqn:E; [|done]. by rewrite <-(dget_compat _ k1 k), H1.
Qed.

(** ** Sorted iteration *)

Lemma sorted_values_perm repr d : sorted_values repr d ≡ₚ map snd d.
Proof using Type. apply Permutation_map, sort_on_perm. Qed.

(** The values in sorted key order are the lookups of the sorted keys. *)
Lemma sorted_values_index repr d :
  dwf d -> Some <$> sorted_values repr d = map (fun kv => dget d kv.1) (sort_on (fun kv => repr kv.1) d).
Proof using All.
  intros Hwf. unfold sorted_values. change (Some <$> map snd ?l) with (map Some (map snd l)).
  rewrite map_map. apply map_ext_Forall, Forall_forall. intros [k v] Hin.
  rewrite elem_of_sort_on in Hin. simpl. by rewrite (dwf_elem d k v).
Qed.

End dict.

(** ** Counting shared keys *)

Section counting.
Context {K V W : Type} `{PyKeyLaws K}.

Definition shared_keys (a : list (K * V)) (b : list (K * W)) : list K :=
  filter (fun k => dmem b k = true) (map fst a).

Definition private_keys (a : list (K * V)) (b : list (K * W)) : list K :=
  filter (fun k => dmem b k = false) (map fst a).

Lemma shared_private_length (a : list (K * V)) (b : list (K * W)) :
  length (private_keys a b) + length (shared_keys a b) = length a.
Proof using Type.
  unfold private_keys, shared_keys. induction a as [|[k v] a IH]; simpl; [done|].
  rewrite !filter_cons. destruct (dmem b k) eqn:E.
  - rewrite decide_False, decide_True by done. simpl. lia.
  - rewrite decide_True, decide_False by done. simpl. lia.
Qed.

End counting.

(** A dictionary without the entry of [k]: membership of the other keys is unchanged. *)
Lemma filter_dmem_cons {K V W} `{PyKeyLaws K} (a : list (K * V)) (b : list (K * W)) k v :
  dget b k = None ->
  filter (fun k' => dmem ((k, v) :: a) k' = true) (map fst b) =
  filter (fun k' => dmem a k' = true) (map fst b).
Proof.
  rewrite dget_None. intros Hall. apply filter_bool_ext.
  apply Forall_forall. intros k' Hin. apply list_elem_of_fmap in Hin as ([k1 v1] & -> & Hin).
  rewrite Forall_forall in Hall. specialize (Hall _ Hin). simpl in *.
  unfold dmem. simpl. by rewrite keq_sym, Hall.
Qed.

(** The keys of [a] found in [b] are as many as the keys of [b] found in [a]. *)
Lemma shared_keys_length {K V W} `{PyKeyLaws K} (a : list (K * V)) (b : list (K * W)) :
  dwf a -> dwf b -> length (shared_keys a b) = length (shared_keys b a).
Proof.
  unfold shared_keys. revert b. induction a as [|[k v] a IH]; intros b Ha Hb; simpl.
  - induction b as [|[k1 v1] b IHb]; simpl; [done|]. rewrite filter_cons, decide_False by done.
    apply IHb, Hb.
  - destruct Ha as [Hk Ha]. rewrite filter_cons. destruct (dget b k) as [w|] eqn:Eb.
    + rewrite decide_True by (apply dmem_true; by eexists). simpl.
      apply dget_Some_elem in Eb as (k' & Hkk & Hin).
      apply list_elem_of_split in Hin as (b1 & b2 & ->).
      assert ((k', w) :: b1 ++ b2 ≡ₚ b1 ++ (k', w) :: b2) as Hp by by rewrite Permutation_middle.
      pose proof (dwf_perm _ _ (symmetry Hp) Hb) as [Hk' Hb'].
      rewrite <-(Permutation_map fst Hp). simpl. rewrite filter_cons, decide_True
        by (unfold dmem; simpl; by rewrite keq_sym, Hkk). simpl. f_equal.
      rewrite filter_dmem_cons by (by rewrite <-(dget_compat _ k' k)).
      rewrite <-(IH (b1 ++ b2)) by done. f_equal. apply filter_bool_ext, Forall_forall.
      intros k2 Hin. apply list_elem_of_fmap in Hin as ([k3 v3] & -> & Hin). simpl.
      unfold dmem. rewrite <-(dget_perm _ _ k3 Hp) by done. simpl.
      destruct (keq k' k3) eqn:E; [|done].
      rewrite dget_None, Forall_forall in Hk. specialize (Hk _ Hin). simpl in Hk.
      rewrite (keq_trans k3 k' k) in Hk; [done|by rewrite keq_sym|done].
    + rewrite decide_False by (rewrite dmem_true, Eb; by intros [? ?]).
      rewrite filter_dmem_cons by done. by apply IH.
Qed.

(** Dictionaries with related lookups have related values, up to their order. *)
Lemma drel_values {K V W} `{PyKeyLaws K} (R : V -> W -> Prop) (d1 : list (K * V)) (d2 : list (K * W)) :
  dwf d1 -> dwf d2 ->
  (forall k, match dget d1 k, dget d2 k with
             | Some v, Some w => R v w | None, None => True | _, _ => False end) ->
  exists vs, map snd d1 ≡ₚ vs /\ Forall2 R vs (map snd d2).
Proof.
  revert d1. induction d2 as [|[k w] d2 IH]; intros d1 Hwf1 Hwf2 Hrel; simpl.
  - exists []. split; [|done]. destruct d1 as [|[k v] d1]; [done|]. specialize (Hrel k). simpl in Hrel.
    by rewrite keq_refl in Hrel.
  - destruct Hwf2 as [Hk Hwf2]. pose proof (Hrel k) as Hg. simpl in Hg. rewrite keq_refl in Hg.
    destruct (dget d1 k) as [v|] eqn:E; [|done].
    apply dget_Some_elem in E as (k' & Hkk & Hin). apply elem_of_Permutation in Hin as [d1' Hp].
    pose proof (dwf_perm _ _ Hp Hwf1) as [Hk' Hwf1'].
    destruct (IH d1' Hwf1' Hwf2) as (vs & Hvs & HR).
    + intros k2. pose proof (Hrel k2) as Hg2. rewrite (dget_perm _ _ k2 Hp Hwf1) in Hg2. simpl in Hg2.
      destruct (keq k k2) eqn:E1.
      * rewrite <-(dget_compat d2 k k2), Hk by done.
        by rewrite <-(dget_compat d1' k' k2), Hk' by (by eapply keq_trans).
      * destruct (keq k' k2) eqn:E2; [|done].
        rewrite (keq_trans k k' k2) in E1; [done|by rewrite keq_sym|done].
    + exists (v :: vs). rewrite Hp. simpl. split; [by f_equiv|by constructor].
Qed.

(** Dictionaries with the same lookups have the same values. *)
Lemma deq_values_perm {K V} `{PyKeyLaws K} (d1 d2 : list (K * V)) :
  dwf d1 -> dwf d2 -> deq d1 d2 -> map snd d1 ≡ₚ map snd d2.
Proof.
  intros Hwf1 Hwf2 Hdeq. destruct (drel_values eq d1 d2 Hwf1 Hwf2) as (vs & -> & Hvs).
  - intros k. rewrite (Hdeq k). by destruct (dget d2 k).
  - apply list_eq_Forall2 in Hvs. by rewrite Hvs.
Qed.

(** Dictionary equality is a congruence for lookup and assignment. *)
#[export] Instance deq_equiv {K V} `{PyKey K} : Equivalence (@deq K V _).
Proof.
  split.
  - by intros d k.
  - intros d1 d2 Hd k. by rewrite (Hd k).
  - intros d1 d2 d3 H1 H2 k. by rewrite (H1 k), (H2 k).
Qed.

#[export] Instance dget_proper {K V} `{PyKey K} : Proper (deq ==> eq ==> eq) (@dget K V _).
Proof. intros d1 d2 Hd k k' <-. apply Hd. Qed.

#[export] Instance dset_proper {K V} `{PyKeyLaws K} :
  Proper (deq ==> eq ==> eq ==> deq) (@dset K V _).
Proof. intros d1 d2 Hd k k' <- v v' <- k2. rewrite !dget_dset. by rewrite Hd. Qed.

Create HintDb pydict.
#[export] Hint Resolve dwf_dset dwf_dpop dwf_app_one dget_dset_eq keq_refl : pydict.
#[export] Hint Rewrite @dget_dset @dget_app @keq_refl using typeclasses eauto : pydict.
