(* ===== verification/Ordering.v ===== *)
(** * Fallible three-way comparison

    The interface of the comparators of the program that return [-1], [0] or [1] and raise
    on values of different domains, and the stable sort by such a comparator. *)

From stdpp Require Import base strings list sorting.
From S2P Require Import Prelude PyValue.
#[local] Open Scope Z_scope.

(** A comparator whose successful results form an order. *)
Class ResCmp {A} (cmp : A -> A -> res Z) : Prop := {
  rcmp_range a b c : cmp a b = Ok c -> -1 <= c <= 1;
  rcmp_swap a b c : cmp a b = Ok c -> cmp b a = Ok (- c);
  rcmp_trans a b d c1 c2 :
    cmp a b = Ok c1 -> cmp b d = Ok c2 -> c1 <= 0 -> c2 <= 0 -> cmp a d = Ok (Z.min c1 c2)
}.

(** The result of [<], [>] and otherwise equality. *)
Definition z_of (c : comparison) : Z := match c with Lt => -1 | Eq => 0 | Gt => 1 end.

(** [l.sort(key=cmp_to_key(cmp))]: stable insertion sort by a comparator that may raise. *)
Fixpoint insertM {A} (cmp : A -> A -> res Z) (x : A) (l : list A) : res (list A) :=
  match l with
  | [] => Ok [x]
  | y :: l' =>
    match cmp x y with
    | Raise e => Raise e
    | Ok c => if c <=? 0 then Ok (x :: y :: l')
              else match insertM cmp x l' with
                   | Ok l'' => Ok (y :: l'')
                   | Raise e => Raise e
                   end
    end
  end.

Fixpoint sortM {A} (cmp : A -> A -> res Z) (l : list A) : res (list A) :=
  match l with
  | [] => Ok []
  | x :: l' => match sortM cmp l' with Ok s => insertM cmp x s | Raise e => Raise e end
  end.

Section rescmp.
Context {A : Type} (cmp : A -> A -> res Z).

(** [a] is known to come no later than [b]. *)
Definition cmp_le (a b : A) : Prop := exists c, cmp a b = Ok c /\ c <= 0.

Lemma insertM_perm x l s : insertM cmp x l = Ok s -> s ≡ₚ x :: l.
Proof.
  revert s. induction l as [|y l IH]; intros s; simpl; [by intros [= <-]|].
  destruct (cmp x y) as [c|]; [|done]. destruct (c <=? 0); [by intros [= <-]|].
  destruct (insertM cmp x l) eqn:E; [|done]. intros [= <-].
  rewrite (IH _ eq_refl). apply Permutation_swap.
Qed.

Lemma sortM_perm l s : sortM cmp l = Ok s -> s ≡ₚ l.
Proof.
  revert s. induction l as [|x l IH]; intros s; simpl; [intros [= <-]; constructor|].
  destruct (sortM cmp l) as [s'|]; [|done]. intros Hs%insertM_perm. by rewrite Hs, (IH _ eq_refl).
Qed.

Context `{!ResCmp cmp}.

Lemma cmp_le_trans a b d : cmp_le a b -> cmp_le b d -> cmp_le a d.
Proof using All.
  intros (c1 & H1 & ?) (c2 & H2 & ?). exists (Z.min c1 c2). split; [|lia]. by eapply rcmp_trans.
Qed.

Lemma insertM_sorted x l s :
  insertM cmp x l = Ok s -> StronglySorted cmp_le l -> StronglySorted cmp_le s.
Proof using All.
  revert s. induction l as [|y l IH]; intros s; simpl.
  - intros [= <-] _. repeat constructor.
  - destruct (cmp x y) as [c|] eqn:Ec; [|done]. intros H Hs.
    apply StronglySorted_inv in Hs as [Hs Hall].
    destruct (c <=? 0) eqn:E.
    + injection H as <-. assert (cmp_le x y) as Hxy by (exists c; split; [done|lia]).
      constructor; [by constructor|]. constructor; [done|].
      eapply Forall_impl; [done|]. intros z. by apply cmp_le_trans.
    + destruct (insertM cmp x l) as [s'|] eqn:Ei; [|done]. injection H as <-.
      constructor; [by apply IH|]. rewrite (insertM_perm _ _ _ Ei). constructor; [|done].
      exists (- c). split; [by apply rcmp_swap|lia].
Qed.

Lemma sortM_sorted l s : sortM cmp l = Ok s -> StronglySorted cmp_le s.
Proof using All.
  revert s. induction l as [|x l IH]; intros s; simpl; [intros [= <-]; constructor|].
  destruct (sortM cmp l) as [s'|]; [|done]. intros H. eapply insertM_sorted; eauto.
Qed.

(** The comparisons succeed between all elements of a sorted list. *)
Lemma sorted_cmp_Ok s a b :
  StronglySorted cmp_le s -> a ∈ s -> b ∈ s -> a = b \/ cmp_le a b \/ cmp_le b a.
Proof using Type.
  induction 1 as [|x s Hs IH Hall]; [by intros ?%elem_of_nil|].
  rewrite Forall_forall in Hall. intros [->|Ha]%elem_of_cons [->|Hb]%elem_of_cons; auto.
Qed.
End rescmp.

(** Python's comparison on values of one domain is such a comparator. *)
Lemma py_cmp_le_trans a b d c1 c2 :
  py_cmp a b = Some c1 -> py_cmp b d = Some c2 -> c1 <> Gt -> c2 <> Gt ->
  py_cmp a d = Some (match c1 with Lt => Lt | _ => c2 end).
Proof.
  intros H1 H2 N1 N2. destruct c1; [|destruct c2|done].
  - apply py_cmp_Eq in H1. by rewrite (py_cmp_compat a b d d) by (by rewrite ?py_eqb_refl).
  - apply py_cmp_Eq in H2. rewrite (py_cmp_compat a a d b); [done|apply py_eqb_refl|].
    by rewrite py_eqb_sym.
  - by eapply py_cmp_Lt_trans.
  - done.
Qed.

Lemma py_cmp_swap a b c : py_cmp a b = Some c -> py_cmp b a = Some (CompOpp c).
Proof. intros H. by rewrite py_cmp_antisym, H. Qed.

Lemma z_of_opp c : z_of (CompOpp c) = - z_of c.
Proof. by destruct c. Qed.

Lemma z_of_le0 c : z_of c <= 0 -> c <> Gt.
Proof. by destruct c. Qed.

Lemma z_of_min c1 c2 :
  c1 <> Gt -> c2 <> Gt -> Z.min (z_of c1) (z_of c2) = z_of (match c1 with Lt => Lt | _ => c2 end).
Proof. by destruct c1, c2. Qed.

(** A comparator that reads [py_cmp] on a set of values closed under it. *)
Lemma ResCmp_of_py_cmp (cmp : value -> value -> res Z) (valid : value -> Prop) :
  (forall a b z, cmp a b = Ok z <->
     valid a /\ valid b /\ exists c, py_cmp a b = Some c /\ z = z_of c) -> ResCmp cmp.
Proof.
  intros Hiff. split.
  - intros a b z (_ & _ & [] & _ & ->)%Hiff; simpl; lia.
  - intros a b z (Ha & Hb & c & Hc & ->)%Hiff. apply Hiff. repeat split; [done..|].
    exists (CompOpp c). by rewrite z_of_opp, (py_cmp_swap _ _ _ Hc).
  - intros a b d z1 z2 (Ha & Hb & c1 & H1 & ->)%Hiff (_ & Hd & c2 & H2 & ->)%Hiff
      N1%z_of_le0 N2%z_of_le0.
    rewrite (z_of_min _ _ N1 N2). apply Hiff. repeat split; [done..|].
    eexists. split; [|done]. by eapply py_cmp_le_trans.
Qed.

(** ** Lexicographic comparison of tuples, element by element *)

Section lex.
Context {A : Type} (cmp : A -> A -> res Z).

Fixpoint lexM (l m : list A) : res Z :=
  match l, m with
  | x :: l', y :: m' =>
    match cmp x y with
    | Raise e => Raise e
    | Ok c => if c =? 0 then lexM l' m' else Ok c
    end
  | [], [] => Ok 0
  | _, _ => raise "ValueError" "zip() arguments have different lengths"
  end.

Context `{!ResCmp cmp}.

Lemma lexM_range l m c : lexM l m = Ok c -> -1 <= c <= 1.
Proof using All.
  revert m. induction l as [|x l IH]; intros [|y m]; simpl; try done; [intros [= <-]; lia|].
  destruct (cmp x y) as [cx|] eqn:E; [|done]. apply rcmp_range in E.
  destruct (cx =? 0); [apply IH|]. by intros [= <-].
Qed.

#[export] Instance lexM_ResCmp : ResCmp lexM.
Proof using All.
  split; [apply lexM_range| |].
  - intros l. induction l as [|x l IH]; intros [|y m] c; simpl; try done; [by intros [= <-]|].
    destruct (cmp x y) as [cx|] eqn:E; [|done]. rewrite (rcmp_swap _ _ _ E).
    destruct (cx =? 0) eqn:E0.
    + assert (- cx =? 0 = true) as -> by lia. apply IH.
    + assert (- cx =? 0 = false) as -> by lia. by intros [= <-].
  - intros l. induction l as [|x l IH]; intros [|y m] [|z k] c1 c2; simpl; try done;
      [by intros [= <-] [= <-]|].
    destruct (cmp x y) as [a|] eqn:E1; [|done]. destruct (cmp y z) as [b|] eqn:E2; [|done].
    pose proof (rcmp_range _ _ _ E1). pose proof (rcmp_range _ _ _ E2).
    intros H1 H2 N1 N2.
    assert (a <= 0) by (destruct (a =? 0) eqn:E; [lia|congruence]).
    assert (b <= 0) by (destruct (b =? 0) eqn:E; [lia|congruence]).
    rewrite (rcmp_trans _ _ _ _ _ E1 E2) by lia.
    destruct (a =? 0) eqn:Ea, (b =? 0) eqn:Eb; simplify_eq.
    + assert (Z.min a b =? 0 = true) as -> by lia. by eapply IH.
    + apply lexM_range in H1. assert (Z.min a c2 =? 0 = false) as -> by lia. f_equal. lia.
    + apply lexM_range in H2. assert (Z.min c1 b =? 0 = false) as -> by lia. f_equal. lia.
    + assert (Z.min c1 c2 =? 0 = false) as -> by lia. done.
Qed.
End lex.

(** Sorting a sorted list succeeds and changes nothing. *)
Lemma sortM_id {A} (cmp : A -> A -> res Z) l : StronglySorted (cmp_le cmp) l -> sortM cmp l = Ok l.
Proof.
  induction 1 as [|x l Hs IH Hall]; simpl; [done|]. rewrite IH. destruct l as [|y l]; simpl; [done|].
  apply Forall_cons in Hall as [(c & -> & Hc) _]. by apply Z.leb_le in Hc as ->.
Qed.
