(* ===== verification/TypedValues.v ===== *)
(** * Typed value encoding ([contracts/typed_values.py], [apply/record_hash.py])

    A value is encoded as a JSON object tagged with its Python type.  JSON documents are
    trees; the texts of scalars ([str], [float.hex], [isoformat]) and their parsers are the
    class [ScalarText], the text of a document is [json_text].  [normalize_decimal] is
    [Decimal.normalize] in the default context, which rounds to 28 significant digits. *)

From Stdlib Require Import QArith Qpower.
From stdpp Require Import base gmap strings sorting list.
From S2P Require Import Prelude PyValue.
#[local] Close Scope Q_scope.
#[local] Open Scope Z_scope.

Inductive json :=
| JNull
| JBool (b : bool)
| JInt (z : Z)
| JFloat (q : Q)
| JStr (s : string)
| JArr (l : list json)
| JObj (l : list (string * json)).

Class ScalarText := {
  int_text : Z -> string;
  int_parse : string -> option Z;
  float_text : Q -> string;
  float_parse : string -> option Q;
  datetime_text : Z -> string;
  datetime_parse : string -> option (option Z * Z);
  date_text : Z -> string;
  date_parse : string -> option Z;
  decimal_text : Z * Z -> string;
  decimal_parse : string -> option (Z * Z);
  uuid_text : N -> string;
  uuid_parse : string -> option N;
  json_text : json -> string
}.

(** The documented round trips of the standard library: each parser reads back what the
    corresponding rendering writes; a UTC datetime is read back as an aware one. *)
Class ScalarTextLaws `{ScalarText} : Prop := {
  int_roundtrip z : int_parse (int_text z) = Some z;
  float_roundtrip q : float_parse (float_text q) = Some q;
  datetime_roundtrip us : datetime_parse (datetime_text us) = Some (Some 0, us);
  date_roundtrip d : date_parse (date_text d) = Some d;
  decimal_roundtrip c : decimal_parse (decimal_text c) = Some c;
  uuid_roundtrip u : uuid_parse (uuid_text u) = Some u
}.

Definition TYPE_FIELD : string := "$type".
Definition VALUE_FIELD : string := "value".
Definition ITEMS_FIELD : string := "items".

(** ** [Decimal.normalize] *)

(** Round half even to a multiple of [10^k], in units of [10^k]. *)
Definition round_half_even (c : Z) (k : Z) : Z :=
  let u := 10 ^ k in
  let q := Z.abs c / u in
  let r := Z.abs c mod u in
  let up := (u <? 2 * r) || ((2 * r =? u) && Z.odd q) in
  Z.sgn c * (if up then q + 1 else q).

(** The number of decimal digits of a non-negative integer, by counting down powers. *)
Fixpoint digits_fuel (fuel : nat) (c : Z) : Z :=
  match fuel with
  | O => 0
  | S n => if c =? 0 then 0 else 1 + digits_fuel n (c / 10)
  end.

Definition digits (c : Z) : Z := digits_fuel (S (Z.to_nat (Z.log2 (Z.abs c)))) (Z.abs c).

(** Strip trailing zeros. *)
Fixpoint strip_zeros (fuel : nat) (c e : Z) : Z * Z :=
  match fuel with
  | O => (c, e)
  | S n => if (c mod 10 =? 0) && negb (c =? 0) then strip_zeros n (c / 10) (e + 1) else (c, e)
  end.

Definition decimal_precision : Z := 28.

Definition normalize_decimal (c e : Z) : Z * Z :=
  let k := digits c - decimal_precision in
  let '(c1, e1) := if 0 <? k then (round_half_even c k, e + k) else (c, e) in
  if c1 =? 0 then (0, 0) else strip_zeros (S (Z.to_nat (Z.log2 (Z.abs c1)))) c1 e1.

Section typed.
Context `{ScalarText}.

Definition tagged (kind : string) (v : json) : json := JObj [(TYPE_FIELD, JStr kind); (VALUE_FIELD, v)].
Definition container (kind : string) (items : list json) : json :=
  JObj [(TYPE_FIELD, JStr kind); (ITEMS_FIELD, JArr items)].

(** Floats and decimals are finite: the model has no others.  The entries of a dictionary
    are visited in the order of their keys. *)
Fixpoint encode_typed_value (v : value) : res json :=
  match v with
  | VNone => Ok (JObj [(TYPE_FIELD, JStr "none")])
  | VBool b => Ok (tagged "bool" (JBool b))
  | VInt z => Ok (tagged "int" (JStr (int_text z)))
  | VFloat q => Ok (tagged "float" (JStr (float_text q)))
  | VStr s => Ok (tagged "str" (JStr s))
  | VDatetime off us =>
    match off with
    | None => raise "TypedValueError" "datetime values must be timezone-aware"
    | Some o => Ok (tagged "datetime" (JStr (datetime_text (us - o))))
    end
  | VDate d => Ok (tagged "date" (JStr (date_text d)))
  | VDecimal c e => Ok (tagged "decimal" (JStr (decimal_text (normalize_decimal c e))))
  | VUUID u => Ok (tagged "uuid" (JStr (uuid_text u)))
  | VTuple l => js ← mapM_res encode_typed_value l; Ok (container "tuple" js)
  | VList l => js ← mapM_res encode_typed_value l; Ok (container "list" js)
  | VDict l =>
    js ← mapM_res (fun kv => j ← encode_typed_value kv.2; Ok (kv.1, j)) l;
    Ok (container "dict" (map (fun kj => JArr [JStr kj.1; kj.2]) (sort_on fst js)))
  end.

(** [payload.get(name)] *)
Fixpoint field (payload : list (string * json)) (name : string) : option json :=
  match payload with
  | [] => None
  | (k, v) :: payload' => if String.eqb k name then Some v else field payload' name
  end.

Definition _require_exact_keys (payload : list (string * json)) (expected : list string) : res unit :=
  if forallb (fun k => bool_decide (k ∈ expected)) (map fst payload)
     && forallb (fun k => bool_decide (k ∈ map fst payload)) expected
  then Ok tt else raise "TypedValueError" "typed value has invalid fields".

Definition as_str (j : option json) (site : string) : res string :=
  match j with Some (JStr s) => Ok s | _ => raise "TypedValueError" site end.

Definition parsed {A} (o : option A) (site : string) : res A :=
  match o with Some a => Ok a | None => raise "TypedValueError" site end.

(** A scalar of kind [kind] read from the text of its value field. *)
Definition decode_text {A} (payload : list (string * json)) (site1 site2 : string)
    (parse : string -> option A) : res A :=
  _ ← _require_exact_keys payload [TYPE_FIELD; VALUE_FIELD];
  s ← as_str (field payload VALUE_FIELD) site1;
  parsed (parse s) site2.

(** [k(payload[name])] *)
Fixpoint with_field {A} (k : json -> res A) (name : string) (payload : list (string * json)) : res A :=
  match payload with
  | [] => raise "KeyError" name
  | (n, j) :: payload' => if String.eqb n name then k j else with_field k name payload'
  end.

(** The item loop of the [dict] branch: [seen] are the keys of the result so far. *)
Fixpoint decode_entries (decode : json -> res value) (seen : list string)
    (previous_key : option string) (items : list json) : res (list (string * value)) :=
  match items with
  | [] => Ok []
  | JArr [JStr key; x] :: items' =>
    if bool_decide (key ∈ seen) then
      raise "TypedValueError" "dict typed value contains a duplicate key"
    else if match previous_key with Some p => str_leb key p | None => false end then
      raise "TypedValueError" "dict typed value keys must be strictly sorted"
    else
      v ← decode x;
      rest ← decode_entries decode (key :: seen) (Some key) items';
      Ok ((key, v) :: rest)
  | _ :: _ => raise "TypedValueError" "dict typed value item must be [string-key, typed-value]"
  end.

Fixpoint decode_typed_value (payload : json) : res value :=
  match payload with
  | JObj l =>
    match field l TYPE_FIELD with
    | None => raise "TypedValueError" "typed value must be an object containing $type"
    | Some (JStr kind) =>
      if String.eqb kind "none" then _ ← _require_exact_keys l [TYPE_FIELD]; Ok VNone
      else if String.eqb kind "bool" then
        _ ← _require_exact_keys l [TYPE_FIELD; VALUE_FIELD];
        match field l VALUE_FIELD with
        | Some (JBool b) => Ok (VBool b)
        | _ => raise "TypedValueError" "bool typed value must contain a boolean"
        end
      else if String.eqb kind "int" then
        z ← decode_text l "int typed value must contain a string" "invalid encoded int value" int_parse;
        Ok (VInt z)
      else if String.eqb kind "float" then
        q ← decode_text l "float typed value must contain a string" "invalid encoded float value" float_parse;
        Ok (VFloat q)
      else if String.eqb kind "str" then
        s ← decode_text l "str typed value must contain a string" "" Some; Ok (VStr s)
      else if String.eqb kind "datetime" then
        d ← decode_text l "datetime typed value must contain a string" "invalid encoded datetime value"
              datetime_parse;
        match d with
        | (None, _) => raise "TypedValueError" "datetime values must be timezone-aware"
        | (Some off, us) => Ok (VDatetime (Some 0) (us - off))
        end
      else if String.eqb kind "date" then
        d ← decode_text l "date typed value must contain a string" "invalid encoded date value" date_parse;
        Ok (VDate d)
      else if String.eqb kind "decimal" then
        c ← decode_text l "decimal typed value must contain a string" "invalid encoded Decimal value"
              decimal_parse;
        Ok (VDecimal c.1 c.2)
      else if String.eqb kind "uuid" then
        u ← decode_text l "uuid typed value must contain a string" "invalid encoded UUID value" uuid_parse;
        Ok (VUUID u)
      else if String.eqb kind "list" || String.eqb kind "tuple" then
        _ ← _require_exact_keys l [TYPE_FIELD; ITEMS_FIELD];
        with_field (fun j =>
          match j with
          | JArr items =>
            decoded ← mapM_res decode_typed_value items;
            Ok (if String.eqb kind "list" then VList decoded else VTuple decoded)
          | _ => raise "TypedValueError" "typed value items must be a list"
          end) ITEMS_FIELD l
      else if String.eqb kind "dict" then
        _ ← _require_exact_keys l [TYPE_FIELD; ITEMS_FIELD];
        with_field (fun j =>
          match j with
          | JArr items => decoded ← decode_entries decode_typed_value [] None items; Ok (VDict decoded)
          | _ => raise "TypedValueError" "dict typed value items must be a list"
          end) ITEMS_FIELD l
      else raise "TypedValueError" "unsupported typed value tag"
    | Some _ => raise "TypedValueError" "typed value $type must be a string"
    end
  | _ => raise "TypedValueError" "typed value must be an object containing $type"
  end.

Definition canonical_typed_json_bytes (v : value) : res string := json_text <$> encode_typed_value v.

(** [decode_legacy_or_typed_scalar]: tagged scalars and safe legacy JSON scalars. *)
Definition decode_legacy_or_typed_scalar (payload : json) : res value :=
  let legacy :=
    match payload with
    | JNull => Ok VNone
    | JStr s => Ok (VStr s)
    | JBool b => Ok (VBool b)
    | JInt z => Ok (VInt z)
    | JFloat q => Ok (VFloat q)
    | _ => raise "TypedValueError" "unsupported legacy persisted scalar representation"
    end in
  match payload with
  | JObj l =>
    match field l TYPE_FIELD with
    | Some _ =>
      v ← decode_typed_value payload;
      match v with
      | VList _ | VTuple _ | VDict _ => raise "TypedValueError" "expected a scalar typed value"
      | _ => Ok v
      end
    | None => legacy
    end
  | _ => legacy
  end.

End typed.

(** [apply/record_hash.py]: the payload is [{column: row.get(column) for column in columns}]. *)
Definition tracked_payload (r : row) (tracked_columns : list string) : value :=
  row_value (list_to_map (map (fun column => (column, get r column)) tracked_columns)).

Definition hash_tracked_attributes `{PyRuntime} `{ScalarText} (r : row) (tracked_columns : list string) :
    res string :=
  sha256_hex <$> canonical_typed_json_bytes (tracked_payload r tracked_columns).

(** ** Round trip *)

(** What decoding the encoding of a value returns: the same value, of the same type, with
    datetimes in UTC, decimals normalised and dictionaries in key order. *)
Fixpoint canon (v : value) : value :=
  match v with
  | VDatetime (Some o) us => VDatetime (Some 0) (us - o)
  | VDecimal c e => VDecimal (normalize_decimal c e).1 (normalize_decimal c e).2
  | VTuple l => VTuple (map canon l)
  | VList l => VList (map canon l)
  | VDict l => VDict (sort_on fst (map (fun kv => (kv.1, canon kv.2)) l))
  | _ => v
  end.

(** Dictionaries have pairwise different keys, and datetimes are aware. *)
Fixpoint encodable (v : value) : bool :=
  match v with
  | VDatetime None _ => false
  | VTuple l | VList l => forallb encodable l
  | VDict l => bool_decide (NoDup (map fst l)) && forallb (fun kv => encodable kv.2) l
  | _ => true
  end.

Section roundtrip.
Context `{ScalarTextLaws}.

Lemma exact_value_keys kind j :
  _require_exact_keys [(TYPE_FIELD, JStr kind); (VALUE_FIELD, j)] [TYPE_FIELD; VALUE_FIELD] = Ok tt.
Proof. reflexivity. Qed.

Lemma decode_text_tagged {A} kind s site1 site2 (parse : string -> option A) a :
  parse s = Some a ->
  decode_text [(TYPE_FIELD, JStr kind); (VALUE_FIELD, JStr s)] site1 site2 parse = Ok a.
Proof. intros Hp. unfold decode_text. rewrite exact_value_keys. simpl. by rewrite Hp. Qed.

Lemma mapM_res_decode l :
  Forall (fun v => encodable v = true ->
    exists j, encode_typed_value v = Ok j /\ decode_typed_value j = Ok (canon v)) l ->
  forallb encodable l = true ->
  exists js, mapM_res encode_typed_value l = Ok js /\ mapM_res decode_typed_value js = Ok (map canon l).
Proof.
  induction 1 as [|v l Hv _ IH]; simpl; [by exists []|]. intros [Hev Hl]%andb_true_iff.
  destruct (Hv Hev) as (j & -> & Hj). destruct (IH Hl) as (js & -> & Hjs).
  exists (j :: js). split; [done|]. simpl. by rewrite Hj, Hjs.
Qed.

(** Entries in strictly increasing key order are decoded one by one. *)
Lemma decode_entries_sorted (entries : list (string * json)) (g : string * json -> value) seen prev :
  Forall (fun kj => decode_typed_value kj.2 = Ok (g kj)) entries ->
  StronglySorted (fun a b : string * json => str_leb b.1 a.1 = false) entries ->
  (forall kj, kj ∈ entries -> kj.1 ∉ seen) ->
  (forall p kj, prev = Some p -> kj ∈ entries -> str_leb kj.1 p = false) ->
  decode_entries decode_typed_value seen prev (map (fun kj => JArr [JStr kj.1; kj.2]) entries) =
    Ok (map (fun kj => (kj.1, g kj)) entries).
Proof.
  intros Hdec Hs. revert seen prev. induction Hs as [|[k j] entries Hs IH Hall]; intros seen prev Hseen Hprev;
    [done|]. apply Forall_cons_1 in Hdec as [Hj Hdec]. simpl in *.
  pose proof (Hseen (k, j) (list_elem_of_here _ _)) as Hk. simpl in Hk.
  rewrite (bool_decide_false (k ∈ seen)) by done.
  assert (match prev with Some p => str_leb k p | None => false end = false) as ->.
  { destruct prev as [p|]; [|done]. by apply (Hprev p (k, j) eq_refl); left. }
  rewrite Hj. cbn [mbind res_bind]. rewrite Forall_forall in Hall.
  rewrite (IH Hdec (k :: seen) (Some k)); [done| |].
  - intros kj Hin. specialize (Hall kj Hin). simpl in Hall.
    apply not_elem_of_cons. split; [|apply Hseen; by right]. intros Heq. rewrite Heq in Hall.
    by destruct (str_leb_total k k) as [?|?]; congruence.
  - intros p kj [= <-] Hin. by apply (Hall kj).
Qed.

(** Sorting entries with pairwise different keys gives strictly increasing keys. *)
Lemma sort_entries_strict {A} (l : list (string * A)) :
  NoDup (map fst l) -> StronglySorted (fun a b : string * A => str_leb b.1 a.1 = false) (sort_on fst l).
Proof.
  intros Hnd. rewrite <-(sort_on_perm fst l) in Hnd.
  pose proof (sort_on_sorted fst l) as Hs. induction Hs as [|x s Hs IH Hall]; [constructor|].
  simpl in Hnd. apply NoDup_cons in Hnd as [Hx Hnd]. constructor; [by apply IH|].
  rewrite Forall_forall in *. intros y Hy. destruct (str_leb y.1 x.1) eqn:E; [|done]. exfalso.
  apply Hx. apply list_elem_of_fmap. exists y. split; [|done].
  by apply String.leb_antisym; [apply Hall|].
Qed.

Lemma sort_on_map {A B} (f : A -> B) (key : B -> string) l :
  sort_on key (map f l) = map f (sort_on (fun a => key (f a)) l).
Proof.
  unfold sort_on, sort_by. induction l as [|x l IH]; simpl; [done|]. rewrite IH.
  generalize (foldr (insert_by (fun x y => str_leb (key (f x)) (key (f y)))) [] l).
  intros s. induction s as [|y s IHs]; simpl; [done|].
  destruct (str_leb (key (f x)) (key (f y))); [done|]. simpl. by rewrite IHs.
Qed.

Lemma typed_value_decodes v :
  encodable v = true -> exists j, encode_typed_value v = Ok j /\ decode_typed_value j = Ok (canon v).
Proof.
  induction v as [|b|z|q|s|o us|d|c e|u|l IH|l IH|l IH] using value_nested_ind; simpl encodable; intros Hv.
  1,2,5: (eexists; split; reflexivity).
  - eexists. split; [done|]. simpl. by rewrite (decode_text_tagged _ _ _ _ _ _ (int_roundtrip z)).
  - eexists. split; [done|]. simpl. by rewrite (decode_text_tagged _ _ _ _ _ _ (float_roundtrip q)).
  - destruct o as [o|]; [|done]. eexists. split; [done|]. simpl.
    rewrite (decode_text_tagged _ _ _ _ _ _ (datetime_roundtrip _)). cbn [mbind res_bind].
    by rewrite Z.sub_0_r.
  - eexists. split; [done|]. simpl. by rewrite (decode_text_tagged _ _ _ _ _ _ (date_roundtrip d)).
  - eexists. split; [done|]. simpl. by rewrite (decode_text_tagged _ _ _ _ _ _ (decimal_roundtrip _)).
  - eexists. split; [done|]. simpl. by rewrite (decode_text_tagged _ _ _ _ _ _ (uuid_roundtrip u)).
  - destruct (mapM_res_decode l IH Hv) as (js & Hjs & Hd). exists (container "tuple" js). simpl.
    rewrite Hjs. split; [done|]. simpl. by rewrite Hd.
  - destruct (mapM_res_decode l IH Hv) as (js & Hjs & Hd). exists (container "list" js). simpl.
    rewrite Hjs. split; [done|]. simpl. by rewrite Hd.
  - apply andb_true_iff in Hv as [Hnd Hl]. apply bool_decide_eq_true in Hnd.
    assert (exists js, mapM_res (fun kv => j ← encode_typed_value kv.2; Ok (kv.1, j)) l = Ok js /\
      map fst js = map fst l /\
      Forall2 (fun kj kv => kj.1 = kv.1 /\ decode_typed_value kj.2 = Ok (canon kv.2)) js l)
      as (js & Hjs & Hfst & Hdec).
    { clear Hnd. induction IH as [|[k v] l Hv _ IHl]; simpl; [by exists []|].
      apply andb_true_iff in Hl as [Hev Hl]. simpl in *. destruct (Hv Hev) as (j & -> & Hj).
      destruct (IHl Hl) as (js & Hjs & Hf & Hd). cbn [mbind res_bind] in *. rewrite Hjs.
      exists ((k, j) :: js). split; [done|]. split; [simpl; by rewrite Hf|]. by constructor. }
    set (g := fun kj : string * json =>
      match decode_typed_value kj.2 with Ok w => w | Raise _ => VNone end).
    exists (container "dict" (map (fun kj => JArr [JStr kj.1; kj.2]) (sort_on fst js))). simpl.
    rewrite Hjs. split; [done|]. simpl.
    assert (Forall (fun kj => decode_typed_value kj.2 = Ok (g kj)) js /\
      map (fun kj => (kj.1, g kj)) js = map (fun kv => (kv.1, canon kv.2)) l) as [Hg Hmap].
    { clear Hjs Hfst Hnd Hl IH. unfold g. induction Hdec as [|kj kv js l [Hk Hd] _ [IH1 IH2]]; [done|]. simpl.
      rewrite Hd, Hk, IH2. split; [|done]. constructor; [|done]. by rewrite Hd. }
    rewrite (decode_entries_sorted _ g); [|by rewrite sort_on_perm| | |].
    + cbn [mbind res_bind]. by rewrite <-Hmap, sort_on_map.
    + apply sort_entries_strict. by rewrite Hfst.
    + intros kj _. apply not_elem_of_nil.
    + done.
Qed.
End roundtrip.

(** ** What a value means

    Without the operations of the encoding: a datetime is an instant, a decimal is a rational
    number in lowest terms, a dictionary is its entries in key order, and values of different
    types mean different things. *)

Inductive meaning :=
| MNone
| MBool (b : bool)
| MInt (z : Z)
| MFloat (q : Q)
| MStr (s : string)
| MInstant (us : Z)
| MNaive (us : Z)
| MDate (d : Z)
| MDecimal (q : Q)
| MUUID (u : N)
| MTuple (l : list meaning)
| MList (l : list meaning)
| MDict (l : list (string * meaning)).

Fixpoint meaning_of (v : value) : meaning :=
  match v with
  | VNone => MNone
  | VBool b => MBool b
  | VInt z => MInt z
  | VFloat q => MFloat q
  | VStr s => MStr s
  | VDatetime (Some o) us => MInstant (us - o)
  | VDatetime None us => MNaive us
  | VDate d => MDate d
  | VDecimal c e => MDecimal (Qred (decimal_Q c e))
  | VUUID u => MUUID u
  | VTuple l => MTuple (map meaning_of l)
  | VList l => MList (map meaning_of l)
  | VDict l => MDict (sort_on fst (map (fun kv => (kv.1, meaning_of kv.2)) l))
  end.

(** Every decimal has at most 28 digits. *)
Fixpoint short_decimals (v : value) : bool :=
  match v with
  | VDecimal c _ => Z.abs c <? 10 ^ 28
  | VTuple l | VList l => forallb short_decimals l
  | VDict l => forallb (fun kv => short_decimals kv.2) l
  | _ => true
  end.

Lemma digits_bound n c : 0 <= n -> Z.abs c < 10 ^ n -> digits c <= n.
Proof.
  unfold digits. generalize (S (Z.to_nat (Z.log2 (Z.abs c)))). intros fuel. assert (0 <= Z.abs c) as Hc by lia. revert Hc.
  generalize (Z.abs c). clear c. intros c. revert c n.
  induction fuel as [|fuel IH]; intros c n Hc Hn Hlt; simpl; [done|]. destruct (c =? 0) eqn:E; [done|].
  assert (n <> 0) by (intros ->; simpl in Hlt; lia).
  assert (digits_fuel fuel (c / 10) <= n - 1); [|lia].
  apply IH; [apply Z.div_pos; lia|lia|]. apply Z.div_lt_upper_bound; [lia|].
  rewrite <-Z.pow_succ_r by lia. by replace (Z.succ (n - 1)) with n by lia.
Qed.

Section decimals.
#[local] Open Scope Q_scope.

Lemma decimal_Q_power c e : decimal_Q c e == inject_Z c * Qpower 10 e.
Proof.
  unfold decimal_Q. destruct (0 <=? e)%Z eqn:E.
  - apply Z.leb_le in E. change (10 # 1) with (inject_Z 10). rewrite <-Zpower_Qpower by done.
    rewrite <-inject_Z_mult. done.
  - apply Z.leb_gt in E. replace e with (- (- e))%Z at 2 by lia. rewrite Qpower_opp.
    change (10 # 1) with (inject_Z 10). rewrite <-Zpower_Qpower by lia.
    assert (0 < 10 ^ (- e))%Z as Hpos by (apply Z.pow_pos_nonneg; lia).
    unfold Qeq, Qmult, Qinv, inject_Z. simpl.
    destruct (10 ^ (- e))%Z as [|p|p]; [lia| |lia]. simpl. lia.
Qed.

Lemma strip_zeros_value fuel c e :
  decimal_Q (strip_zeros fuel c e).1 (strip_zeros fuel c e).2 == decimal_Q c e.
Proof.
  revert c e. induction fuel as [|fuel IH]; intros c e; simpl; [done|].
  destruct ((c mod 10 =? 0)%Z && negb (c =? 0)%Z) eqn:E; [|done].
  apply andb_true_iff in E as [E _]. apply Z.eqb_eq in E. rewrite IH, !decimal_Q_power.
  rewrite Qpower_plus by done. assert (c = 10 * (c / 10))%Z as Hc
    by (pose proof (Z.div_mod c 10 ltac:(lia)); lia).
  rewrite Hc at 2. rewrite inject_Z_mult. simpl (Qpower 10 1). change (inject_Z 10) with 10. ring.
Qed.

Lemma normalize_decimal_value c e :
  (digits c <= decimal_precision)%Z ->
  decimal_Q (normalize_decimal c e).1 (normalize_decimal c e).2 == decimal_Q c e.
Proof.
  intros Hd. unfold normalize_decimal.
  assert ((0 <? digits c - decimal_precision)%Z = false) as -> by (apply Z.ltb_ge; lia).
  destruct (c =? 0)%Z eqn:E; [|apply strip_zeros_value].
  apply Z.eqb_eq in E as ->. rewrite !decimal_Q_power. simpl. ring.
Qed.
End decimals.

Lemma sort_on_idemp {A} (key : A -> string) l : sort_on key (sort_on key l) = sort_on key l.
Proof. apply sort_by_id, sort_on_sorted. Qed.

Lemma map_Forall_ext {A B} (f g : A -> B) l : Forall (fun x => f x = g x) l -> map f l = map g l.
Proof. induction 1 as [|x l Hx _ IH]; simpl; [done|]. by rewrite Hx, IH. Qed.

(** Decoding the encoding of a value keeps its meaning. *)
Lemma canon_meaning v : short_decimals v = true -> meaning_of (canon v) = meaning_of v.
Proof.
  induction v as [|b|z|q|s|o us|d|c e|u|l IH|l IH|l IH] using value_nested_ind; try done; simpl; intros Hs.
  - destruct o as [o|]; [|done]. simpl. by rewrite Z.sub_0_r.
  - f_equal. apply Qred_complete, normalize_decimal_value. apply (digits_bound 28); [done|]. by apply Z.ltb_lt.
  - f_equal. rewrite map_map. apply map_Forall_ext.
    induction IH as [|v l Hv _ IHl]; constructor; simpl in Hs; apply andb_true_iff in Hs as [? ?]; auto.
  - f_equal. rewrite map_map. apply map_Forall_ext.
    induction IH as [|v l Hv _ IHl]; constructor; simpl in Hs; apply andb_true_iff in Hs as [? ?]; auto.
  - f_equal. rewrite !(sort_on_map _ fst). cbn [fst].
    change (fun a : string * value => a.1) with (@fst string value).
    rewrite (sort_on_map (fun kv : string * value => (kv.1, canon kv.2)) fst (sort_on fst l)). cbn [fst].
    change (fun a : string * value => a.1) with (@fst string value).
    rewrite sort_on_idemp, map_map. apply map_Forall_ext. rewrite sort_on_perm.
    induction IH as [|[k v] l Hv _ IHl]; constructor; simpl in Hs; apply andb_true_iff in Hs as [? ?]; auto.
    simpl in *. f_equal. auto.
Qed.

Section injective.
Context `{ScalarTextLaws}.


(** The encoding collapses no two values: values with one encoding mean the same, when their
    decimals have at most 28 digits. *)
Lemma typed_encoding_injective a b :
  encodable a = true -> encodable b = true -> short_decimals a = true -> short_decimals b = true ->
  encode_typed_value a = encode_typed_value b -> meaning_of a = meaning_of b.
Proof.
  intros (j & Ej & Dj)%typed_value_decodes (j' & Ej' & Dj')%typed_value_decodes Sa Sb Heq.
  rewrite Ej, Ej' in Heq. injection Heq as ->. rewrite Dj in Dj'. injection Dj' as Hc.
  by rewrite <-(canon_meaning a), Hc, canon_meaning.
Qed.
End injective.

(** The texts of encodings are those of the documents: [json.dumps] writes no two of them alike. *)
Class TypedTextLaws `{ScalarText} : Prop := {
  typed_scalars :: ScalarTextLaws;
  json_faithful a b j j' :
    encode_typed_value a = Ok j -> encode_typed_value b = Ok j' -> json_text j = json_text j' -> j = j'
}.

(** The values the encoding distinguishes: aware datetimes, short decimals, no key twice. *)
Definition regular (v : value) : bool := encodable v && short_decimals v.

Lemma canonical_bytes_injective `{TypedTextLaws} a b t :
  regular a = true -> regular b = true ->
  canonical_typed_json_bytes a = Ok t -> canonical_typed_json_bytes b = Ok t -> meaning_of a = meaning_of b.
Proof.
  intros [Ha Sa]%andb_true_iff [Hb Sb]%andb_true_iff. unfold canonical_typed_json_bytes.
  destruct (encode_typed_value a) as [j|] eqn:Ej; [|done]. destruct (encode_typed_value b) as [j'|] eqn:Ej'; [|done].
  simpl. intros [= <-] [= Ht]. apply typed_encoding_injective; [done..|]. rewrite Ej, Ej'. f_equal.
  symmetry in Ht. by eapply json_faithful.
Qed.

(** Two rows mean the same, unless the SHA-256 of their texts collide. *)
Definition same_row `{PyRuntime} `{ScalarText} (x a : row) : Prop :=
  regular (row_value x) = true -> regular (row_value a) = true ->
  meaning_of (row_value x) = meaning_of (row_value a) \/
  exists tx ta, canonical_typed_json_bytes (row_value x) = Ok tx /\ canonical_typed_json_bytes (row_value a) = Ok ta /\
    tx <> ta /\ sha256_hex tx = sha256_hex ta.

Lemma same_digest_same_row `{PyRuntime} `{TypedTextLaws} x a f :
  sha256_hex <$> canonical_typed_json_bytes (row_value x) = Ok f ->
  sha256_hex <$> canonical_typed_json_bytes (row_value a) = Ok f -> same_row x a.
Proof.
  intros Hx Ha Rx Ra. destruct (canonical_typed_json_bytes (row_value x)) as [tx|] eqn:Ex; [|done].
  destruct (canonical_typed_json_bytes (row_value a)) as [ta|] eqn:Ea; [|done]. injection Hx as Hx. injection Ha as Ha.
  destruct (decide (tx = ta)) as [->|Hne]; [left; by eapply canonical_bytes_injective|right].
  exists tx, ta. split_and!; [done..|congruence].
Qed.

(** Longer decimals are rounded by [normalize]: two different amounts of 29 digits have the same
    encoding, hence the same fingerprint. *)
Lemma long_decimals_collide `{ScalarText} :
  let a := VDecimal 10000000000000000000000000000 0 in
  let b := VDecimal 10000000000000000000000000001 0 in
  py_eqb a b = false /\ encode_typed_value a = encode_typed_value b.
Proof. split; reflexivity. Qed.

(** ** A concrete text of scalars

    For the witnesses: the binary code of a scalar under stdpp's [Countable] encodings. *)

Fixpoint bits_text (p : positive) : string :=
  match p with
  | xH => ""
  | xO p => String Ascii.zero (bits_text p)
  | xI p => String Ascii.one (bits_text p)
  end.

Fixpoint bits_parse (s : string) : positive :=
  match s with
  | EmptyString => xH
  | String c s => if bool_decide (c = Ascii.zero) then xO (bits_parse s) else xI (bits_parse s)
  end.

Lemma bits_roundtrip p : bits_parse (bits_text p) = p.
Proof. induction p as [p IH|p IH|]; simpl; [by rewrite IH|by rewrite IH|done]. Qed.

Definition demo_text {A} `{countable.Countable A} (a : A) : string := bits_text (countable.encode a).
Definition demo_parse {A} `{countable.Countable A} (s : string) : option A := countable.decode (bits_parse s).

Lemma demo_roundtrip {A} `{countable.Countable A} (a : A) : demo_parse (demo_text a) = Some a.
Proof. unfold demo_parse, demo_text. rewrite bits_roundtrip. apply countable.decode_encode. Qed.

(** A string that ends where it says: every character is announced. *)
Fixpoint announced (s : string) : string :=
  match s with EmptyString => "." | String c s => String (Ascii.ascii_of_nat 43) (String c (announced s)) end.

Fixpoint demo_json (j : json) : string :=
  match j with
  | JNull => "n"
  | JBool true => "t"
  | JBool false => "f"
  | JInt z => "i" +:+ announced (demo_text z)
  | JFloat q => "q" +:+ announced (demo_text (Qnum q, Qden q))
  | JStr s => "s" +:+ announced s
  | JArr l => "[" +:+ foldr (fun j s => "," +:+ demo_json j +:+ s) "]" l
  | JObj l => "{" +:+ foldr (fun kj s => "," +:+ announced kj.1 +:+ demo_json kj.2 +:+ s) "}" l
  end.

Lemma announced_prefix s s' r r' : announced s +:+ r = announced s' +:+ r' -> s = s' /\ r = r'.
Proof.
  revert s'. induction s as [|c s IH]; intros [|c' s'] Heq; try discriminate Heq; [by injection Heq|].
  injection Heq as -> Heq. by destruct (IH _ Heq) as [-> ->].
Qed.

Lemma demo_text_inj {A} `{countable.Countable A} (a b : A) : demo_text a = demo_text b -> a = b.
Proof. intros Heq. apply (f_equal (demo_parse (A := A))) in Heq. rewrite !demo_roundtrip in Heq. by injection Heq. Qed.

Lemma str_app_assoc (a b c : string) : a +:+ b +:+ c = (a +:+ b) +:+ c.
Proof. induction a as [|x a IH]; [done|]. change (String x (a +:+ b +:+ c) = String x ((a +:+ b) +:+ c)). by rewrite IH. Qed.

Section json_ind.
Context (P : json -> Prop) (Hnull : P JNull) (Hbool : forall b, P (JBool b)) (Hint : forall z, P (JInt z))
  (Hfloat : forall q, P (JFloat q)) (Hstr : forall s, P (JStr s)) (Harr : forall l, Forall P l -> P (JArr l))
  (Hobj : forall l, Forall (fun kj : string * json => P kj.2) l -> P (JObj l)).

Fixpoint json_nested_ind (j : json) : P j :=
  match j with
  | JNull => Hnull | JBool b => Hbool b | JInt z => Hint z | JFloat q => Hfloat q | JStr s => Hstr s
  | JArr l => Harr l ((fix go l := match l return Forall P l with
                                   | [] => Forall_nil_2 _
                                   | j :: l => Forall_cons_2 _ _ _ (json_nested_ind j) (go l)
                                   end) l)
  | JObj l => Hobj l ((fix go l := match l return Forall (fun kj : string * json => P kj.2) l with
                                   | [] => Forall_nil_2 _
                                   | kj :: l => Forall_cons_2 _ _ _ (json_nested_ind kj.2) (go l)
                                   end) l)
  end.
End json_ind.

(** The text of a document ends where it says. *)
Definition ends_itself (j : json) : Prop := forall j' r r', demo_json j +:+ r = demo_json j' +:+ r' -> j = j' /\ r = r'.

Lemma announced_demo {A} `{countable.Countable A} (a b : A) r r' :
  announced (demo_text a) +:+ r = announced (demo_text b) +:+ r' -> a = b /\ r = r'.
Proof. intros [Heq ->]%announced_prefix. by apply demo_text_inj in Heq. Qed.

Lemma array_prefix l : Forall ends_itself l -> forall l' r r',
  foldr (fun j s => "," +:+ demo_json j +:+ s) "]" l +:+ r = foldr (fun j s => "," +:+ demo_json j +:+ s) "]" l' +:+ r' ->
  l = l' /\ r = r'.
Proof.
  induction 1 as [|j l Hj _ IH]; intros [|j' l'] r r' Heq; simpl in Heq; try discriminate Heq; [by injection Heq|].
  injection Heq as Heq. rewrite <-!str_app_assoc in Heq. apply Hj in Heq as [-> Heq]. by apply IH in Heq as [-> ->].
Qed.

Lemma object_prefix l : Forall (fun kj => ends_itself kj.2) l -> forall l' r r',
  foldr (fun kj s => "," +:+ announced kj.1 +:+ demo_json kj.2 +:+ s) "}" l +:+ r =
  foldr (fun kj s => "," +:+ announced kj.1 +:+ demo_json kj.2 +:+ s) "}" l' +:+ r' -> l = l' /\ r = r'.
Proof.
  induction 1 as [|[k j] l Hj _ IH]; intros [|[k' j'] l'] r r' Heq; simpl in Heq; try discriminate Heq; [by injection Heq|].
  injection Heq as Heq. rewrite <-!str_app_assoc in Heq. apply announced_prefix in Heq as [-> Heq].
  simpl in Hj. apply Hj in Heq as [-> Heq]. by apply IH in Heq as [-> ->].
Qed.

Lemma demo_json_prefix j : ends_itself j.
Proof.
  induction j as [|b|z|q|s|l IH|l IH] using json_nested_ind; intros j' r r' Heq;
    try destruct b; destruct j' as [|[]| z'|q'|s'|l'|l']; try discriminate Heq; try (by injection Heq); simpl in Heq; injection Heq as Heq.
  - by apply announced_demo in Heq as [-> ->].
  - apply announced_demo in Heq as [[= Hn Hd] ->]. destruct q, q'. simpl in *. by subst.
  - by apply announced_prefix in Heq as [-> ->].
  - by apply array_prefix in Heq as [-> ->].
  - by apply object_prefix in Heq as [-> ->].
Qed.

Lemma demo_json_inj j j' : demo_json j = demo_json j' -> j = j'.
Proof. intros Heq. apply (demo_json_prefix j j' "" ""). by rewrite Heq. Qed.

Definition demo_scalars : ScalarText :=
  {| int_text := demo_text; int_parse := demo_parse;
     float_text q := demo_text (Qnum q, Qden q);
     float_parse s := (fun nd => Qmake nd.1 nd.2) <$> demo_parse s;
     datetime_text := demo_text; datetime_parse s := (fun us => (Some 0, us)) <$> demo_parse s;
     date_text := demo_text; date_parse := demo_parse;
     decimal_text := demo_text; decimal_parse := demo_parse;
     uuid_text := demo_text; uuid_parse := demo_parse;
     json_text := demo_json |}.

Lemma demo_scalars_laws : @ScalarTextLaws demo_scalars.
Proof.
  split; cbn; intros.
  - apply demo_roundtrip.
  - rewrite demo_roundtrip. by destruct q.
  - by rewrite demo_roundtrip.
  - apply demo_roundtrip.
  - apply demo_roundtrip.
  - apply demo_roundtrip.
Qed.

Lemma demo_text_laws : @TypedTextLaws demo_scalars.
Proof. split; [exact demo_scalars_laws|]. intros a b j j' _ _. apply demo_json_inj. Qed.

Definition demo_typed : value :=
  VDict [("b", VTuple [VInt 1; VBool true; VDecimal 1200 (-2)]); ("a", VDatetime (Some 3600000000) 7200000000)].

