(* ===== verification/Temporal.v ===== *)
(** * Source order and event time ([quality/temporal.py], [contracts/temporal.py]) *)

From stdpp Require Import base gmap strings list.
From S2P Require Import Prelude PyValue.

Inductive SourceOrderRelation := SO_STALE | SO_EQUAL | SO_NEWER.
Inductive EventTimeRelation := ET_EARLIER | ET_EQUAL | ET_LATER | ET_UNKNOWN.
Inductive TemporalCondition :=
| IN_ORDER | STALE_SOURCE_POSITION | EQUAL_SOURCE_POSITION | LATE_EVENT_TIME | SAME_EVENT_TIME.

#[export] Instance SourceOrderRelation_eq_dec : EqDecision SourceOrderRelation.
Proof. solve_decision. Defined.
#[export] Instance EventTimeRelation_eq_dec : EqDecision EventTimeRelation.
Proof. solve_decision. Defined.
#[export] Instance TemporalCondition_eq_dec : EqDecision TemporalCondition.
Proof. solve_decision. Defined.

Record TemporalAssessment := {
  ta_source_order : SourceOrderRelation;
  ta_event_time : EventTimeRelation;
  ta_condition : TemporalCondition;
  ta_requires_history_rewrite : bool
}.

(** [contracts/temporal.py] *)
Definition require_aware_datetime (d : datetime) (field_name : string) : res unit :=
  if is_naive d then raise "ValueError" (field_name +:+ " must be timezone-aware") else Ok tt.

Definition _compare (left right : value) (label : string) : res Z :=
  match py_cmp left right with
  | Some Lt => Ok (-1)%Z
  | Some Gt => Ok 1%Z
  | Some Eq => Ok 0%Z
  | None => raise "TemporalOrderingError" (label +:+ " values are not mutually comparable")
  end.

Definition compare_source_order (candidate current : list value) : res SourceOrderRelation :=
  if bool_decide (candidate = []) || bool_decide (current = []) then
    raise "TemporalOrderingError" "source positions cannot be empty"
  else if negb (bool_decide (length candidate = length current)) then
    raise "TemporalOrderingError" "source positions must have the same arity before comparison"
  else
    comparison ← _compare (VTuple candidate) (VTuple current) "source position";
    if (comparison <? 0)%Z then Ok SO_STALE
    else if (comparison >? 0)%Z then Ok SO_NEWER
    else Ok SO_EQUAL.

Definition compare_event_time (candidate current : option datetime) : res EventTimeRelation :=
  match candidate, current with
  | Some cand, Some cur =>
    if is_naive cand then
      raise "TemporalOrderingError" "candidate event_time must be timezone-aware"
    else if is_naive cur then
      raise "TemporalOrderingError" "current event_time must be timezone-aware"
    else
      comparison ← _compare (VDt cand) (VDt cur) "event time";
      if (comparison <? 0)%Z then Ok ET_EARLIER
      else if (comparison >? 0)%Z then Ok ET_LATER
      else Ok ET_EQUAL
  | _, _ => Ok ET_UNKNOWN
  end.

Definition assess_temporal (candidate_source_position current_source_position : list value)
    (candidate_event_time current_event_time : option datetime) : res TemporalAssessment :=
  source_relation ← compare_source_order candidate_source_position current_source_position;
  event_relation ← compare_event_time candidate_event_time current_event_time;
  Ok (match source_relation with
      | SO_STALE => {| ta_source_order := source_relation; ta_event_time := event_relation;
          ta_condition := STALE_SOURCE_POSITION; ta_requires_history_rewrite := false |}
      | SO_EQUAL => {| ta_source_order := source_relation; ta_event_time := event_relation;
          ta_condition := EQUAL_SOURCE_POSITION; ta_requires_history_rewrite := false |}
      | SO_NEWER =>
        match event_relation with
        | ET_EARLIER => {| ta_source_order := source_relation; ta_event_time := event_relation;
            ta_condition := LATE_EVENT_TIME; ta_requires_history_rewrite := true |}
        | ET_EQUAL => {| ta_source_order := source_relation; ta_event_time := event_relation;
            ta_condition := SAME_EVENT_TIME; ta_requires_history_rewrite := false |}
        | _ => {| ta_source_order := source_relation; ta_event_time := event_relation;
            ta_condition := IN_ORDER; ta_requires_history_rewrite := false |}
        end
      end).

#[global] Arguments compare_source_order : simpl never.
#[global] Arguments compare_event_time : simpl never.

(** ** Lemmas *)

(** The relation is read off Python's tuple order. *)
Lemma compare_source_order_Ok a b r :
  compare_source_order a b = Ok r ->
  a <> [] /\ b <> [] /\ length a = length b /\
  tuple_cmp a b = Some (match r with SO_STALE => Lt | SO_EQUAL => Eq | SO_NEWER => Gt end).
Proof.
  unfold compare_source_order, _compare, tuple_cmp. intros H.
  case_bool_decide; [done|]. case_bool_decide; [done|]. case_bool_decide; [|done]. cbn [orb negb] in H.
  destruct (py_cmp (VTuple a) (VTuple b)) as [[]|]; vm_compute in H; try discriminate H;
    injection H as <-; by repeat split.
Qed.

Lemma compare_source_order_intro a b c :
  a <> [] -> length a = length b -> tuple_cmp a b = Some c ->
  compare_source_order a b =
    Ok (match c with Lt => SO_STALE | Eq => SO_EQUAL | Gt => SO_NEWER end).
Proof.
  unfold compare_source_order, _compare, tuple_cmp. intros Ha Hl Hc.
  assert (b <> []) by (destruct a, b; done).
  rewrite !bool_decide_false, bool_decide_true, Hc by done. by destruct c.
Qed.

Lemma compare_source_order_swap a b r :
  compare_source_order a b = Ok r ->
  compare_source_order b a =
    Ok (match r with SO_STALE => SO_NEWER | SO_EQUAL => SO_EQUAL | SO_NEWER => SO_STALE end).
Proof.
  intros (Ha & Hb & Hl & Hc)%compare_source_order_Ok.
  unfold tuple_cmp in *. pose proof (py_cmp_antisym (VTuple a) (VTuple b)) as Hs.
  rewrite Hc in Hs. rewrite (compare_source_order_intro b a _ Hb (eq_sym Hl) Hs). by destruct r.
Qed.

Lemma compare_source_order_NEWER_trans a b c :
  compare_source_order a b = Ok SO_NEWER -> compare_source_order b c = Ok SO_NEWER ->
  compare_source_order a c = Ok SO_NEWER.
Proof.
  intros (Ha & Hb & Hl & Hc)%compare_source_order_Ok (_ & Hc' & Hl' & Hd)%compare_source_order_Ok.
  unfold tuple_cmp in *.
  pose proof (py_cmp_antisym (VTuple a) (VTuple b)) as Hs. rewrite Hc in Hs.
  pose proof (py_cmp_antisym (VTuple b) (VTuple c)) as Hs'. rewrite Hd in Hs'.
  pose proof (py_cmp_Lt_trans _ _ _ Hs' Hs) as Ht.
  pose proof (py_cmp_antisym (VTuple c) (VTuple a)) as Hu. rewrite Ht in Hu.
  exact (compare_source_order_intro a c _ Ha (eq_trans Hl Hl') Hu).
Qed.

(** A position compared with an equal one is EQUAL. *)
Lemma tuple_cmp_eq a b : key_eqb a b = true -> tuple_cmp a b = Some Eq.
Proof.
  rewrite key_eqb_spec. revert b. induction a as [|x a IH]; intros [|y b]; simpl; try done.
  intros [= Hx Hab]. unfold tuple_cmp, py_cmp; fold py_cmp.
  rewrite (proj2 (py_eqb_spec x y) Hx). by apply IH.
Qed.

Lemma compare_source_order_eq a b :
  a <> [] -> key_eqb a b = true -> compare_source_order a b = Ok SO_EQUAL.
Proof.
  intros Ha Hk. rewrite (compare_source_order_intro a b Eq); [done|done| |by apply tuple_cmp_eq].
  apply key_eqb_spec in Hk. by rewrite <-(length_map nrm a), Hk, length_map.
Qed.

(** [a] is not newer than [b]. *)
Definition older_eq (a b : list value) : Prop :=
  exists r, compare_source_order a b = Ok r /\ r <> SO_NEWER.

Lemma older_eq_refl a : a <> [] -> older_eq a a.
Proof. intros. exists SO_EQUAL. split; [|done]. by apply compare_source_order_eq, key_eqb_refl. Qed.

Lemma older_eq_trans a b c : older_eq a b -> older_eq b c -> older_eq a c.
Proof.
  intros (r1 & (Ha & Hb & Hl & H1)%compare_source_order_Ok & Hr1)
         (r2 & (_ & Hc & Hl' & H2)%compare_source_order_Ok & Hr2).
  unfold tuple_cmp in *.
  assert (exists o, tuple_cmp a c = Some o /\ o <> Gt) as (o & Ho & Hne).
  { unfold tuple_cmp. destruct r1, r2; try done.
    - exists Lt. split; [by eapply py_cmp_Lt_trans|done].
    - exists Lt. split; [|done]. rewrite <-H1. apply py_cmp_compat; [apply py_eqb_refl|].
      rewrite py_eqb_sym. by apply py_cmp_Eq.
    - exists Lt. split; [|done]. rewrite <-H2. apply py_cmp_compat; [by apply py_cmp_Eq|].
      apply py_eqb_refl.
    - exists Eq. split; [|done]. rewrite <-H1. apply py_cmp_compat; [apply py_eqb_refl|].
      rewrite py_eqb_sym. by apply py_cmp_Eq. }
  eexists. split; [by apply (compare_source_order_intro a c o Ha (eq_trans Hl Hl') Ho)|].
  by destruct o.
Qed.

(** ** Properties *)

(** Source positions are classified by a strict total preorder wherever they are
    comparable: NEWER and STALE are converse, NEWER composes, and EQUAL positions are equal
    under Python's [==]. *)
Theorem source_order_is_strict_order (a b c : list value) r :
  compare_source_order a b = Ok r ->
  compare_source_order b a =
    Ok (match r with SO_STALE => SO_NEWER | SO_EQUAL => SO_EQUAL | SO_NEWER => SO_STALE end) /\
  (r = SO_NEWER -> compare_source_order b c = Ok SO_NEWER ->
   compare_source_order a c = Ok SO_NEWER) /\
  (r = SO_EQUAL -> key_eqb a b = true).
Proof.
  intros H. split; [by apply compare_source_order_swap|]. split.
  - intros ->. by apply compare_source_order_NEWER_trans.
  - intros ->. apply compare_source_order_Ok in H as (_ & _ & _ & H).
    apply py_cmp_Eq, py_eqb_spec in H. apply key_eqb_spec. by injection H.
Qed.

Theorem source_order_is_strict_order_witness :
  compare_source_order [VInt 2; VInt 1] [VInt 1; VInt 9] = Ok SO_NEWER /\
  compare_source_order [VInt 2; VInt 1] [VInt 1; VInt 0] = Ok SO_NEWER.
Proof.
  split; [vm_compute; reflexivity|].
  refine (proj1 (proj2 (source_order_is_strict_order [VInt 2; VInt 1] [VInt 1; VInt 9]
    [VInt 1; VInt 0] SO_NEWER _)) eq_refl _); vm_compute; reflexivity.
Defined.
