(* ===== verification/Append.v ===== *)
(** * APPEND with immutable record identity ([apply/append.py], [contracts/append.py])

    [apply_append] is the deterministic oracle of append-once publication: it indexes the
    target by identity, collapses exact duplicates of the batch, and appends only new
    identities.  [append_replay] proves replays idempotent. *)

From stdpp Require Import base gmap strings list fin_maps.
From S2P Require Import Prelude PyValue PyDict.

(** [contracts/append.py] *)
Definition FRAMEWORK_FIELD_PREFIX : string := "_framework_".
Definition APPEND_IDENTITY_HASH : string := "_framework_append_identity_hash".
Definition APPEND_PAYLOAD_HASH : string := "_framework_append_payload_hash".
Definition RESERVED_APPEND_FIELDS : list string := [APPEND_IDENTITY_HASH; APPEND_PAYLOAD_HASH].

Definition business_payload (r : row) : row :=
  filter (fun kv => startswith kv.1 FRAMEWORK_FIELD_PREFIX = false) r.

Record AppendApplyResult := {
  aar_rows : list row;
  aar_inserted : nat;
  aar_replayed : nat;
  aar_duplicate_incoming : nat
}.

Section append.
Context `{PyRuntime}.

Definition append_payload_fingerprint (r : row) : string :=
  canonical_hash (row_value (business_payload r)).

Definition append_identity_fingerprint (identity : list value) : string :=
  canonical_hash (VTuple identity).

Definition is_container (v : value) : bool :=
  match v with VDict _ | VList _ => true | _ => false end.

Definition _identity (r : row) (append_identity : list string) : res (list value) :=
  if bool_decide (append_identity = []) then
    raise "AppendIdentityError" "APPEND requires at least one append_identity column"
  else
    mapM_res (fun column =>
      match r !! column with
      | None => raise "AppendIdentityError" "append identity column is missing"
      | Some v =>
        if is_none v then raise "AppendIdentityError" "append identity column cannot be null"
        else if is_container v then
          raise "AppendIdentityError" "append identity column must be a stable scalar value"
        else Ok v
      end) append_identity.

Definition _existing_fingerprint_for_incoming (existing incoming : row) : res string :=
  let stored := get existing APPEND_PAYLOAD_HASH in
  if negb (is_none stored) then Ok (py_str stored)
  else
    let incoming_payload := business_payload incoming in
    if bool_decide (dom incoming_payload ⊆ dom existing) then
      Ok (canonical_hash (row_value (existing ∩ incoming_payload)))
    else raise "AppendConflictError" "existing append identity is missing incoming business columns".

Definition _decorate (r : row) (identity : list value) (payload_hash : string) : res row :=
  if existsb (fun f => bool_decide (f ∈ dom r)) RESERVED_APPEND_FIELDS then
    raise "AppendIdentityError" "incoming row cannot provide framework-owned fields"
  else
    Ok (<[APPEND_PAYLOAD_HASH := VStr payload_hash]>
          (<[APPEND_IDENTITY_HASH := VStr (append_identity_fingerprint identity)]> r)).

(** The evidence check of the first loop of [apply_append]. *)
Definition check_identity_evidence (identity : list value) (r : row) : res unit :=
  let stored_identity_hash := get r APPEND_IDENTITY_HASH in
  if negb (is_none stored_identity_hash) &&
     negb (String.eqb (py_str stored_identity_hash) (append_identity_fingerprint identity))
  then raise "AppendIdentityError" "target append identity evidence does not match row identity"
  else Ok tt.

(** First loop of [apply_append]: [existing_by_identity]. *)
Definition existing_index (append_identity : list string) (existing : list row) :
    res (list (list value * row)) :=
  index_by (fun r => _identity r append_identity)
    (Exn "AppendIdentityError" "target already contains duplicate append identity")
    check_identity_evidence existing.

(** State of the second loop: [unique_incoming], [order], [duplicate_incoming]. *)
Record incoming_state := {
  is_unique : list (list value * (row * string));
  is_order : list (list value);
  is_duplicates : nat
}.

Definition collapse_step (append_identity : list string) (s : incoming_state) (r : row) :
    res incoming_state :=
  identity ← _identity r append_identity;
  let payload_hash := append_payload_fingerprint r in
  match dget (is_unique s) identity with
  | Some prior =>
    if negb (String.eqb prior.2 payload_hash) then
      raise "AppendConflictError" "incoming batch reuses append identity with conflicting payload"
    else Ok {| is_unique := is_unique s; is_order := is_order s;
               is_duplicates := S (is_duplicates s) |}
  | None =>
    Ok {| is_unique := dset (is_unique s) identity (r, payload_hash);
          is_order := is_order s ++ [identity];
          is_duplicates := is_duplicates s |}
  end.

(** Third loop: appended rows and replay count. *)
Definition publish_step (existing_by_identity : list (list value * row))
    (unique : list (list value * (row * string))) (s : list row * nat) (identity : list value) :
    res (list row * nat) :=
  match dget unique identity with
  | None => raise "KeyError" "unique_incoming"
  | Some (r, payload_hash) =>
    match dget existing_by_identity identity with
    | Some current =>
      stored ← _existing_fingerprint_for_incoming current r;
      if negb (String.eqb stored payload_hash) then
        raise "AppendConflictError" "append identity already exists with different payload"
      else Ok (s.1, S s.2)
    | None => decorated ← _decorate r identity payload_hash; Ok (s.1 ++ [decorated], s.2)
    end
  end.

Definition apply_append (existing_rows incoming_rows : list row) (append_identity : list string) :
    res AppendApplyResult :=
  if bool_decide (append_identity = []) then
    raise "AppendIdentityError" "APPEND requires at least one append_identity column"
  else if negb (bool_decide (NoDup append_identity)) then
    raise "AppendIdentityError" "append_identity columns must be unique"
  else
    existing_by_identity ← existing_index append_identity existing_rows;
    incoming ← foldM (collapse_step append_identity)
                 {| is_unique := []; is_order := []; is_duplicates := 0 |} incoming_rows;
    published ← foldM (publish_step existing_by_identity (is_unique incoming)) ([], 0)
                  (is_order incoming);
    Ok {| aar_rows := existing_rows ++ published.1;
          aar_inserted := length published.1;
          aar_replayed := published.2;
          aar_duplicate_incoming := is_duplicates incoming |}.

End append.

Section append_lemmas.
Context `{PyRuntime}.
Implicit Types (ids : list string) (r : row) (k : list value).

Notation entry := (list value * (row * string))%type.

(** What an entry of [unique_incoming] records. *)
Definition entry_ok ids (e : entry) : Prop :=
  _identity e.2.1 ids = Ok e.1 /\ e.2.2 = append_payload_fingerprint e.2.1.

(** An observation is represented in [unique_incoming]. *)
Definition represented ids (u : list entry) r : Prop :=
  exists k r', _identity r ids = Ok k /\
    dget u k = Some (r', append_payload_fingerprint r).

Lemma collapse_spec ids incoming s :
  foldM (collapse_step ids) {| is_unique := []; is_order := []; is_duplicates := 0 |} incoming
    = Ok s ->
  dwf (is_unique s) /\ is_order s = map fst (is_unique s) /\
  is_duplicates s + length (is_unique s) = length incoming /\
  Forall (entry_ok ids) (is_unique s) /\ Forall (represented ids (is_unique s)) incoming.
Proof.
  intros Hf. apply (foldM_ind _ (fun done s =>
    dwf (is_unique s) /\ is_order s = map fst (is_unique s) /\
    is_duplicates s + length (is_unique s) = length done /\
    Forall (entry_ok ids) (is_unique s) /\ Forall (represented ids (is_unique s)) done)) in Hf;
    [done|by repeat split|].
  clear. intros done r s1 s2 _ (Hwf & Hord & Hlen & Hent & Hrep) Hstep.
  unfold collapse_step in Hstep. apply bind_Ok in Hstep as (k & Hk & Hstep). simpl in Hstep.
  rewrite length_app; simpl. destruct (dget (is_unique s1) k) as [[r' h]|] eqn:Eg.
  - simpl in Hstep. destruct (String.eqb_spec h (append_payload_fingerprint r)); [|done].
    simpl in Hstep. injection Hstep as <-; simpl. split_and!; [done|done|lia|done|].
    apply Forall_app. split; [done|]. repeat constructor. exists k, r'. by subst.
  - injection Hstep as <-; simpl. rewrite dset_fresh by done. split_and!.
    + by apply dwf_app_one.
    + by rewrite map_app, Hord.
    + rewrite length_app; simpl; lia.
    + apply Forall_app. by repeat constructor.
    + apply Forall_app. split.
      * eapply Forall_impl; [exact Hrep|]. intros r1 (k1 & r1' & Hk1 & Hg).
        exists k1, r1'. by rewrite dget_app, Hg.
      * repeat constructor. exists k, r. split; [done|]. rewrite dget_app, Eg. simpl.
        by rewrite keq_refl.
Qed.

(** What publication did with an entry: replayed it, or appended its decorated row. *)
Definition published (d : list (list value * row)) (dA : list (list value * row)) (e : entry) : Prop :=
  (exists current, dget d e.1 = Some current /\
     _existing_fingerprint_for_incoming current e.2.1 = Ok e.2.2) \/
  (dget d e.1 = None /\ exists decorated, _decorate e.2.1 e.1 e.2.2 = Ok decorated /\
     (e.1, decorated) ∈ dA).

(** An appended entry comes from the batch. *)
Definition appended_ok (u : list entry) (kd : list value * row) : Prop :=
  exists r h, (kd.1, (r, h)) ∈ u /\ _decorate r kd.1 h = Ok kd.2.

Definition publish_entry d (s : list row * nat) (e : entry) : res (list row * nat) :=
  publish_step d [e] s e.1.

Lemma publish_entries d u s :
  dwf u -> foldM (publish_step d u) s (map fst u) = foldM (publish_entry d) s u.
Proof.
  intros Hwf. rewrite foldM_map. apply foldM_ext. intros s' [k [r h]] Hin.
  unfold publish_entry, publish_step. rewrite (dwf_elem u k (r, h)) by done. simpl.
  by rewrite keq_refl.
Qed.

Lemma publish_spec d u A n :
  dwf d -> dwf u -> foldM (publish_step d u) ([], 0) (map fst u) = Ok (A, n) ->
  exists dA, map snd dA = A /\ dwf (d ++ dA) /\ n + length A = length u /\
    Forall (published d dA) u /\ Forall (appended_ok u) dA.
Proof.
  intros Hd Hu. rewrite publish_entries by done. intros Hf.
  assert (exists dA, map snd dA = A /\ dwf (d ++ dA) /\ n + length A = length u /\
    Forall (published d dA) u /\ Forall (appended_ok u) dA /\
    Forall (fun kd => kd.1 ∈ map fst u) dA) as (dA & HA); [|naive_solver].
  apply (foldM_ind _ (fun done s => exists dA, map snd dA = s.1 /\ dwf (d ++ dA) /\
    s.2 + length s.1 = length done /\ Forall (published d dA) done /\
    Forall (appended_ok done) dA /\ Forall (fun kd => kd.1 ∈ map fst done) dA)) in Hf;
    [done|exists []; rewrite app_nil_r; by repeat split; try constructor|].
  clear Hf.
  intros done [k [r h]] [A1 n1] [A2 n2] [rest Hrest] (dA & HA & Hwf & Hlen & Hpub & Happ & Hkeys).
  unfold publish_entry, publish_step; simpl. rewrite keq_refl. simpl in *.
  assert (Forall (appended_ok (done ++ [(k, (r, h))])) dA) as Happ'.
  { eapply Forall_impl; [exact Happ|]. intros kd (r1 & h1 & Hin & Hdec). exists r1, h1.
    split; [set_solver|done]. }
  assert (Forall (fun kd => kd.1 ∈ map fst (done ++ [(k, (r, h))])) dA) as Hkeys'.
  { eapply Forall_impl; [exact Hkeys|]. intros kd Hin; simpl. rewrite map_app. set_solver. }
  destruct (dget d k) as [current|] eqn:Eg; intros Hstep;
    apply bind_Ok in Hstep as (x & Hx & Hstep).
  - destruct (String.eqb_spec x h) as [->|]; [|done]. injection Hstep as <- <-.
    exists dA. rewrite length_app; simpl. split_and!; try done; [lia|].
    apply Forall_app. split; [done|]. constructor; [|done]. left. by exists current.
  - injection Hstep as <- <-. exists (dA ++ [(k, x)]). simpl. split_and!.
    + rewrite map_app. simpl. by rewrite HA.
    + rewrite app_assoc. apply dwf_app_one; [done|]. rewrite dget_app, Eg.
      apply dget_None, Forall_forall. intros [k' x'] Hin. simpl.
      rewrite Forall_forall in Hkeys. specialize (Hkeys _ Hin). simpl in Hkeys.
      rewrite Hrest in Hu. clear -Hu Hkeys.
      induction done as [|[k1 v1] done IH]; [by apply elem_of_nil in Hkeys|].
      simpl in Hu, Hkeys. destruct Hu as [H1 Hu]. apply elem_of_cons in Hkeys as [->|Hin];
        [|by apply IH].
      rewrite dget_None, Forall_app, Forall_cons in H1. destruct H1 as (_ & H1 & _).
      simpl in H1. by rewrite keq_sym.
    + rewrite !length_app; simpl. lia.
    + apply Forall_app. split.
      * eapply Forall_impl; [exact Hpub|]. intros e [He|(He & dec & Hdec & Hin)]; [by left|].
        right. split; [done|]. exists dec. split; [done|]. set_solver.
      * constructor; [|done]. right. split; [done|]. exists x. split; [done|set_solver].
    + apply Forall_app. split; [done|]. constructor; [|done]. exists r, h.
      split; [set_solver|done].
    + apply Forall_app. split; [done|]. constructor; [|done]. simpl. rewrite map_app. set_solver.
Qed.

(** Inversion of a successful [apply_append]. *)
Lemma apply_append_Ok ids E I res :
  apply_append E I ids = Ok res ->
  exists d u A,
    ids <> [] /\ NoDup ids /\ existing_index ids E = Ok d /\
    foldM (collapse_step ids) {| is_unique := []; is_order := []; is_duplicates := 0 |} I
      = Ok u /\
    foldM (publish_step d (is_unique u)) ([], 0) (is_order u) = Ok A /\
    res = {| aar_rows := E ++ A.1; aar_inserted := length A.1; aar_replayed := A.2;
             aar_duplicate_incoming := is_duplicates u |}.
Proof.
  unfold apply_append. case_bool_decide; [done|]. case_bool_decide; [|done]. simpl.
  intros (d & Hd & (u & Hu & (A & HA & [= <-])%bind_Ok)%bind_Ok)%bind_Ok. by exists d, u, A.
Qed.

Lemma decorate_Ok r k h dec :
  _decorate r k h = Ok dec ->
  dec = <[APPEND_PAYLOAD_HASH := VStr h]>
          (<[APPEND_IDENTITY_HASH := VStr (append_identity_fingerprint k)]> r) /\
  r !! APPEND_PAYLOAD_HASH = None /\ r !! APPEND_IDENTITY_HASH = None.
Proof.
  unfold _decorate. simpl. case_bool_decide as H1; [done|]. case_bool_decide as H2; [done|].
  simpl. intros [= <-]. rewrite not_elem_of_dom in H1, H2. done.
Qed.

Lemma decorate_identity ids r k k' h dec :
  _identity r ids = Ok k -> _decorate r k' h = Ok dec -> _identity dec ids = Ok k.
Proof.
  intros Hid (-> & Hp & Hi)%decorate_Ok. revert Hid. unfold _identity.
  case_bool_decide; [done|]. rewrite !mapM_res_Forall2. intros HF.
  eapply Forall2_impl; [exact HF|]. intros c v. simpl.
  destruct (r !! c) as [w|] eqn:Ec; [|done].
  rewrite !lookup_insert_ne by (intros <-; congruence). by rewrite Ec.
Qed.

Lemma decorate_evidence r k h dec :
  _decorate r k h = Ok dec -> check_identity_evidence k dec = Ok tt.
Proof.
  intros (-> & _ & _)%decorate_Ok. unfold check_identity_evidence.
  rewrite get_insert_ne, get_insert_eq by done. simpl. by rewrite String.eqb_refl.
Qed.

Lemma decorate_fingerprint r r' k h dec :
  _decorate r k h = Ok dec -> _existing_fingerprint_for_incoming dec r' = Ok h.
Proof.
  intros (-> & _ & _)%decorate_Ok. unfold _existing_fingerprint_for_incoming.
  by rewrite get_insert_eq.
Qed.

(** The index of the result of a successful run, in terms of its inputs. *)
Lemma append_result_indexed ids E I res :
  apply_append E I ids = Ok res ->
  exists d u dA,
    existing_index ids (aar_rows res) = Ok (d ++ dA) /\ dwf (d ++ dA) /\
    foldM (collapse_step ids) {| is_unique := []; is_order := []; is_duplicates := 0 |} I
      = Ok u /\
    aar_rows res = E ++ map snd dA /\ aar_inserted res = length dA /\
    aar_replayed res + aar_inserted res = length (is_unique u) /\
    aar_duplicate_incoming res = is_duplicates u /\
    Forall (published d dA) (is_unique u).
Proof.
  intros (d & u & [A n] & Hne & Hnd & Hd & Hu & HA & ->)%apply_append_Ok. simpl in *.
  destruct (collapse_spec _ _ _ Hu) as (Huwf & Hord & Hlen & Hent & Hrep).
  destruct (index_by_spec _ _ _ _ _ Hd) as (Hdwf & Hsnd & Hall).
  rewrite Hord in HA.
  destruct (publish_spec _ _ _ _ Hdwf Huwf HA) as (dA & <- & Hwf & Hcount & Hpub & Happ).
  exists d, u, dA. rewrite length_map in *. split_and!; try done.
  rewrite <-Hsnd, <-map_app. apply index_by_complete; [done|].
  apply Forall_app. split; [done|].
  eapply Forall_impl; [exact Happ|]. intros [k x] (r & h & Hin & Hdec). simpl in *.
  rewrite Forall_forall in Hent. destruct (Hent _ Hin) as [Hid _]. simpl in Hid.
  by rewrite (decorate_identity _ _ _ _ _ _ Hid Hdec), (decorate_evidence _ _ _ _ Hdec).
Qed.

(** A published entry is found again, with the fingerprint of the batch. *)
Lemma published_found d dA e :
  dwf (d ++ dA) -> published d dA e ->
  exists current, dget (d ++ dA) e.1 = Some current /\
    _existing_fingerprint_for_incoming current e.2.1 = Ok e.2.2.
Proof.
  intros Hwf [(cur & Hg & Hfp)|(Hg & dec & Hdec & Hin)].
  - exists cur. by rewrite dget_app, Hg.
  - exists dec. split; [|by eapply decorate_fingerprint].
    apply dwf_elem; [done|]. apply elem_of_app. by right.
Qed.

Lemma publish_replays d u s l :
  dwf u -> (forall e, e ∈ u -> exists current, dget d e.1 = Some current /\
    _existing_fingerprint_for_incoming current e.2.1 = Ok e.2.2) ->
  (forall e, e ∈ l -> e ∈ u) ->
  foldM (publish_step d u) s (map fst l) = Ok (s.1, length l + s.2).
Proof.
  intros Hwf Hcur. revert s. induction l as [|[k [r h]] l IH]; intros [A n] Hl; simpl; [done|].
  unfold publish_step at 1. rewrite (dwf_elem u k (r, h)) by (first [done|apply Hl; left]).
  destruct (Hcur (k, (r, h))) as (cur & Hg & Hfp); [apply Hl; left|]. simpl in *.
  rewrite Hg, Hfp. simpl. rewrite String.eqb_refl. simpl.
  rewrite IH by (intros; apply Hl; by right). simpl. f_equal. f_equal. lia.
Qed.

End append_lemmas.

(** ** Properties *)

Section append_properties.
Context `{PyRuntime}.

(** Append-once accounting: the target rows are kept as they are, in order, and every
    incoming row is counted exactly once as inserted, replayed or duplicate. *)
Theorem append_accounts_every_row ids E I res :
  apply_append E I ids = Ok res ->
  exists A, aar_rows res = E ++ A /\ aar_inserted res = length A /\
    aar_inserted res + aar_replayed res + aar_duplicate_incoming res = length I.
Proof.
  intros (d & u & dA & _ & _ & Hu & Hrows & Hins & Hrep & Hdup & _)%append_result_indexed.
  destruct (collapse_spec _ _ _ Hu) as (_ & _ & Hlen & _).
  exists (map snd dA). rewrite length_map. split_and!; [done|done|lia].
Qed.

(** Fail-closed identity: after a successful run the target indexes without duplicate
    identities, and each incoming row is found under its identity by a row whose recorded
    payload fingerprint is that of the incoming row. *)
Theorem append_result_identities ids E I res :
  apply_append E I ids = Ok res ->
  exists d, existing_index ids (aar_rows res) = Ok d /\ dwf d /\
    Forall (fun r => exists k r' current,
      _identity r ids = Ok k /\ dget d k = Some current /\
      append_payload_fingerprint r' = append_payload_fingerprint r /\
      _existing_fingerprint_for_incoming current r' = Ok (append_payload_fingerprint r)) I.
Proof.
  intros (d & u & dA & Hidx & Hwf & Hu & _ & _ & _ & _ & Hpub)%append_result_indexed.
  destruct (collapse_spec _ _ _ Hu) as (Huwf & _ & _ & Hent & Hrep).
  exists (d ++ dA). split_and!; [done|done|].
  eapply Forall_impl; [exact Hrep|]. intros r (k & r' & Hk & Hg).
  apply dget_Some_elem in Hg as (k' & Hkk & Hin). rewrite Forall_forall in Hpub, Hent.
  destruct (published_found _ _ _ Hwf (Hpub _ Hin)) as (cur & Hcur & Hfp). simpl in *.
  destruct (Hent _ Hin) as [_ Hh]. simpl in Hh. exists k, r', cur. split_and!; [done| |done|done].
  by rewrite <-(dget_compat _ k' k).
Qed.

(** Replays are idempotent: publishing the same batch again inserts nothing, leaves the
    target as it is, and reports every distinct identity as replayed. *)
Theorem append_replay ids E I res :
  apply_append E I ids = Ok res ->
  apply_append (aar_rows res) I ids =
    Ok {| aar_rows := aar_rows res; aar_inserted := 0;
          aar_replayed := aar_inserted res + aar_replayed res;
          aar_duplicate_incoming := aar_duplicate_incoming res |}.
Proof.
  intros Happly. pose proof (apply_append_Ok _ _ _ _ Happly) as (_ & _ & _ & Hne & Hnd & _).
  apply append_result_indexed in Happly
    as (d & u & dA & Hidx & Hwf & Hu & _ & _ & Hrep & Hdup & Hpub).
  destruct (collapse_spec _ _ _ Hu) as (Huwf & Hord & _ & _ & _).
  unfold apply_append. rewrite bool_decide_false, bool_decide_true by done. simpl.
  rewrite Hidx. simpl. rewrite Hu. simpl. rewrite Hord, publish_replays; [|done| |done].
  - simpl. rewrite app_nil_r, Hdup, <-Hrep. do 2 f_equal; lia.
  - intros e He. rewrite Forall_forall in Hpub. by apply published_found, Hpub.
Qed.

End append_properties.

(** A target with one row, and a batch with a replay, a duplicate and two new rows. *)
Definition demo_target : list row := [{[ "id" := VInt 1; "amount" := VInt 10 ]}].
Definition demo_batch : list row :=
  [ {[ "id" := VInt 1; "amount" := VInt 10 ]}; {[ "id" := VInt 2; "amount" := VInt 20 ]};
    {[ "id" := VInt 2; "amount" := VInt 20 ]}; {[ "id" := VInt 3; "amount" := VInt 30 ]} ].

Definition demo_result : AppendApplyResult :=
  match @apply_append demo_runtime demo_target demo_batch ["id"] with
  | Ok r => r
  | Raise _ => {| aar_rows := []; aar_inserted := 0; aar_replayed := 0;
                  aar_duplicate_incoming := 0 |}
  end.

Lemma append_accounts_every_row_witness :
  aar_inserted demo_result = 2 /\
  exists A, aar_rows demo_result = demo_target ++ A /\ aar_inserted demo_result = length A /\
    aar_inserted demo_result + aar_replayed demo_result + aar_duplicate_incoming demo_result
      = length demo_batch.
Proof.
  split; [vm_compute; reflexivity|].
  apply (@append_accounts_every_row demo_runtime ["id"]). vm_compute; reflexivity.
Defined.

Lemma append_result_identities_witness :
  exists d, @existing_index demo_runtime ["id"] (aar_rows demo_result) = Ok d /\ dwf d /\
    Forall (fun r => exists k r' current,
      _identity r ["id"] = Ok k /\ dget d k = Some current /\
      @append_payload_fingerprint demo_runtime r' = @append_payload_fingerprint demo_runtime r /\
      @_existing_fingerprint_for_incoming demo_runtime current r'
        = Ok (@append_payload_fingerprint demo_runtime r)) demo_batch.
Proof.
  apply (@append_result_identities demo_runtime ["id"] demo_target). vm_compute; reflexivity.
Defined.

Lemma append_replay_witness :
  @apply_append demo_runtime (aar_rows demo_result) demo_batch ["id"] =
    Ok {| aar_rows := aar_rows demo_result; aar_inserted := 0; aar_replayed := 3;
          aar_duplicate_incoming := 1 |}.
Proof.
  apply (@append_replay demo_runtime ["id"] demo_target). vm_compute; reflexivity.
Defined.
