(* ===== verification/PyFloat.v ===== *)
(** * Binary floating point

    Finite floats are represented by their exact rational value.  [round_double] rounds a
    rational to the nearest binary64 value, ties to even, with an unbounded largest exponent; a
    result that [overflows] is infinite in Python.  Integer division [a / b] of Python is the
    correctly rounded quotient. *)

From stdpp Require Import base numbers.
From Stdlib Require Import QArith Qabs.
#[local] Open Scope Z_scope.

(** Nearest integer to [n / d], ties to even, for [0 <= n] and [0 < d]. *)
Definition round_half_even (n d : Z) : Z :=
  let q := n / d in
  match 2 * (n mod d) ?= d with
  | Lt => q
  | Gt => q + 1
  | Eq => if Z.even q then q else q + 1
  end.

(** The exponent [e] with [2^52 <= (p / d) / 2^e < 2^53], at least that of the subnormals. *)
Definition double_exp (p d : Z) : Z :=
  let e := Z.log2 p - Z.log2 d - 52 in
  let big := if 0 <=? e then d * 2 ^ (52 + e) <=? p
             else d * 2 ^ 52 <=? p * 2 ^ (- e) in
  Z.max (-1074) (if big then e else e - 1).

Definition round_double_pos (p d : Z) : Q :=
  let e := double_exp p d in
  if 0 <=? e then inject_Z (round_half_even p (d * 2 ^ e) * 2 ^ e)
  else Qred (Qmake (round_half_even (p * 2 ^ (- e)) d) (Z.to_pos (2 ^ (- e)))).

Definition round_double (q : Q) : Q :=
  match Qnum q with
  | 0 => 0%Q
  | Zpos p => round_double_pos (Zpos p) (Zpos (Qden q))
  | Zneg p => Qopp (round_double_pos (Zpos p) (Zpos (Qden q)))
  end.

(** [a / b] on integers, [0 <= a] and [0 < b]. *)
Definition py_truediv (a b : Z) : Q := round_double (Qmake a (Z.to_pos b)).

(** [a + b], [a * b], [abs(a)], [float(z)] on floats. *)
Definition fadd (a b : Q) : Q := round_double (Qplus a b).
Definition fsub (a b : Q) : Q := round_double (Qminus a b).
Definition fmul (a b : Q) : Q := round_double (Qmult a b).
Definition fabs (a : Q) : Q := Qabs a.
Definition float_of_int (z : Z) : Q := round_double (inject_Z z).

(** The result of an operation is beyond the largest double. *)
Definition overflows (q : Q) : bool := Qle_bool (inject_Z (2 ^ 1024)) (Qabs q).

(** [a <= b] and [a < b] on floats. *)
Definition fle (a b : Q) : bool := Qle_bool a b.
Definition flt (a b : Q) : bool := negb (Qle_bool b a).

Example third : py_truediv 1 3 = Qmake 6004799503160661 18014398509481984.
Proof. reflexivity. Qed.
Example tenth_plus_fifth : fadd (py_truediv 1 10) (py_truediv 2 10) = Qmake 1351079888211149 4503599627370496.
Proof. reflexivity. Qed.
Example smallest_subnormal : round_double (Qmake 3 (2 ^ 1075)) = Qmake 1 (2 ^ 1073).
Proof. vm_compute. reflexivity. Qed.
