(* ===== verification/RunAudit.v ===== *)
(** * Row accounting and mutation counts ([contracts/audit.py]) *)

From stdpp Require Import base strings list.
From S2P Require Import Prelude.

Record RowAccounting := {
  rows_read : Z;
  rows_accepted : Z;
  rows_quarantined : Z;
  rows_filtered : Z
}.

(** [RowAccounting(...)]: the field bounds, then [validate_balance]. *)
Definition make_RowAccounting (read accepted quarantined filtered : Z) : res RowAccounting :=
  if (read <? 0)%Z || (accepted <? 0)%Z || (quarantined <? 0)%Z || (filtered <? 0)%Z then
    raise "ValidationError" "greater_than_equal"
  else if negb (read =? accepted + quarantined + filtered)%Z then
    raise "ValidationError" "row accounting must satisfy rows_read = accepted + quarantined + filtered"
  else Ok {| rows_read := read; rows_accepted := accepted;
             rows_quarantined := quarantined; rows_filtered := filtered |}.

Record MutationCounts := {
  mc_inserted : nat;
  mc_updated : nat;
  mc_deleted : nat
}.

#[export] Instance RowAccounting_eq_dec : EqDecision RowAccounting.
Proof. solve_decision. Defined.
#[export] Instance MutationCounts_eq_dec : EqDecision MutationCounts.
Proof. solve_decision. Defined.

Lemma make_RowAccounting_balanced a b c d r :
  make_RowAccounting a b c d = Ok r ->
  rows_read r = (rows_accepted r + rows_quarantined r + rows_filtered r)%Z.
Proof.
  unfold make_RowAccounting. destruct (_ || _); [done|].
  destruct (a =? b + c + d)%Z eqn:E; [|done]. apply Z.eqb_eq in E. by intros [= <-].
Qed.
