(* ===== verification/FullCapture.v ===== *)
(** * Complete-snapshot capture and staging
    ([capture/full.py], [capture/snapshot.py], [data_plane/staging.py]) *)

From stdpp Require Import base gmap strings list.
From S2P Require Import Prelude PyValue.

Record FullSnapshotEvidence := {
  snapshot_id : string;
  complete : bool;
  source_row_count : Z;
  boundary_ref : option string
}.

Record FullCaptureBatch := {
  fcb_rows : list row;
  fcb_evidence : FullSnapshotEvidence
}.

Definition capture_full_snapshot (rows : list row) (evidence : FullSnapshotEvidence) :
    res FullCaptureBatch :=
  if negb (source_row_count evidence =? Z.of_nat (length rows))%Z then
    raise "FullSnapshotEvidenceError"
      "source snapshot evidence row count does not match extracted rows"
  else Ok {| fcb_rows := rows; fcb_evidence := evidence |}.

Definition capture_snapshot (rows : list row) (evidence : FullSnapshotEvidence) :
    res FullCaptureBatch := capture_full_snapshot rows evidence.

Record StagedBatch := {
  stage_id : N;
  staged_dataset_run_id : N;
  staged_rows : list row
}.

(** [stage_rows]; [fresh_id] is the value of [uuid4()]. *)
Definition stage_rows (rows : list row) (dataset_run_id : N) (stage_id : option N)
    (fresh_id : N) : StagedBatch :=
  {| stage_id := default fresh_id stage_id;
     staged_dataset_run_id := dataset_run_id;
     staged_rows := rows |}.
