(* ===== verification/Replace.v ===== *)
(** * FULL -> REPLACE publication guards ([apply/replace.py]) *)

From stdpp Require Import base gmap strings list.
From Stdlib Require Import QArith.
From S2P Require Import Prelude PyValue PyFloat RunAudit FullCapture.
#[local] Close Scope Q_scope.
#[local] Open Scope nat_scope.

Record ReplaceGuardPolicy := {
  rg_require_complete_snapshot : bool;
  rg_allow_empty_source : bool;
  rg_allow_empty_candidate : bool;
  rg_max_candidate_drop_fraction : option Q
}.

Definition default_ReplaceGuardPolicy : ReplaceGuardPolicy :=
  {| rg_require_complete_snapshot := true; rg_allow_empty_source := false;
     rg_allow_empty_candidate := false; rg_max_candidate_drop_fraction := None |}.

Record ReplacePlan := {
  rp_rows : list row;
  rp_before_count : nat;
  rp_candidate_count : nat;
  rp_mutations : MutationCounts
}.

(** [(before_count - candidate_count) / before_count] *)
Definition drop_fraction (before_count candidate_count : nat) : Q :=
  py_truediv (Z.of_nat before_count - Z.of_nat candidate_count) (Z.of_nat before_count).

(** The four guards, in the order of the source. *)
Definition incomplete_snapshot (evidence : FullSnapshotEvidence) (policy : ReplaceGuardPolicy) : bool :=
  rg_require_complete_snapshot policy && negb (complete evidence).

Definition empty_source (before_count : nat) (evidence : FullSnapshotEvidence)
    (policy : ReplaceGuardPolicy) : bool :=
  (0 <? before_count) && (source_row_count evidence =? 0)%Z && negb (rg_allow_empty_source policy).

Definition empty_candidate (before_count candidate_count : nat) (policy : ReplaceGuardPolicy) : bool :=
  (0 <? before_count) && (candidate_count =? 0) && negb (rg_allow_empty_candidate policy).

Definition excessive_drop (before_count candidate_count : nat) (policy : ReplaceGuardPolicy) : bool :=
  match rg_max_candidate_drop_fraction policy with
  | Some bound => (0 <? before_count) && (candidate_count <? before_count)
                  && flt bound (drop_fraction before_count candidate_count)
  | None => false
  end.

Definition plan_replace (current_rows : list row) (staged : StagedBatch)
    (evidence : FullSnapshotEvidence) (policy : ReplaceGuardPolicy) : res ReplacePlan :=
  let before_count := length current_rows in
  let candidate_count := length (staged_rows staged) in
  if incomplete_snapshot evidence policy then
    raise "ReplaceGuardError" "FULL -> REPLACE requires complete snapshot evidence"
  else if empty_source before_count evidence policy then
    raise "ReplaceGuardError" "empty FULL source is not allowed to replace a non-empty target"
  else if empty_candidate before_count candidate_count policy then
    raise "ReplaceGuardError"
      "empty accepted candidate is not allowed to replace a non-empty target"
  else if excessive_drop before_count candidate_count policy then
    raise "ReplaceGuardError" "FULL candidate row-count drop exceeds configured guard"
  else
    Ok {| rp_rows := staged_rows staged; rp_before_count := before_count;
          rp_candidate_count := candidate_count;
          rp_mutations := {| mc_inserted := candidate_count; mc_updated := 0;
                             mc_deleted := before_count |} |}.

(** [InMemoryReplaceTarget]: the live rows change only on [publish]. *)
Definition InMemoryReplaceTarget := list row.
Definition publish (_ : InMemoryReplaceTarget) (rows : list row) : InMemoryReplaceTarget := rows.

(** ** The guards as propositions *)

Lemma incomplete_snapshot_false e p :
  incomplete_snapshot e p = false <->
  (rg_require_complete_snapshot p = true -> complete e = true).
Proof. unfold incomplete_snapshot. destruct (rg_require_complete_snapshot p), (complete e); naive_solver. Qed.

Lemma empty_source_false n e p :
  empty_source n e p = false <->
  (0 < n -> rg_allow_empty_source p = false -> source_row_count e <> 0%Z).
Proof.
  unfold empty_source. rewrite !andb_false_iff, Nat.ltb_ge, Z.eqb_neq, negb_false_iff.
  destruct (rg_allow_empty_source p), (decide (n = 0)); intuition (try done; try lia).
Qed.

Lemma empty_candidate_false n m p :
  empty_candidate n m p = false <->
  (0 < n -> rg_allow_empty_candidate p = false -> 0 < m).
Proof.
  unfold empty_candidate. rewrite !andb_false_iff, Nat.ltb_ge, Nat.eqb_neq, negb_false_iff.
  destruct (rg_allow_empty_candidate p), (decide (n = 0)); intuition (try done; try lia).
Qed.

Lemma excessive_drop_false n m p :
  excessive_drop n m p = false <->
  (forall bound, rg_max_candidate_drop_fraction p = Some bound -> m < n ->
     fle (drop_fraction n m) bound = true).
Proof.
  unfold excessive_drop, flt, fle. destruct (rg_max_candidate_drop_fraction p) as [b|]; [|done].
  rewrite !andb_false_iff, !Nat.ltb_ge, negb_false_iff. split.
  - intros H b' [= <-]. intuition lia.
  - intros H. destruct (decide (m < n)); [right; by apply H|left; right; lia].
Qed.

(** ** Properties *)

(** A destructive replacement of a target is planned exactly when every guard of the policy
    holds, and the plan publishes the staged rows; when a guard fails nothing is planned. *)
Theorem plan_replace_guarded current staged evidence policy plan :
  plan_replace current staged evidence policy = Ok plan <->
  (rg_require_complete_snapshot policy = true -> complete evidence = true) /\
  (0 < length current -> rg_allow_empty_source policy = false -> source_row_count evidence <> 0%Z) /\
  (0 < length current -> rg_allow_empty_candidate policy = false -> 0 < length (staged_rows staged)) /\
  (forall bound, rg_max_candidate_drop_fraction policy = Some bound ->
     length (staged_rows staged) < length current ->
     fle (drop_fraction (length current) (length (staged_rows staged))) bound = true) /\
  plan = {| rp_rows := staged_rows staged; rp_before_count := length current;
            rp_candidate_count := length (staged_rows staged);
            rp_mutations := {| mc_inserted := length (staged_rows staged); mc_updated := 0;
                               mc_deleted := length current |} |}.
Proof.
  rewrite <-incomplete_snapshot_false, <-empty_source_false, <-empty_candidate_false,
    <-excessive_drop_false.
  unfold plan_replace. repeat case_match; naive_solver.
Qed.
