(* ===== verification/SnapshotDiff.v ===== *)
(** * Complete-snapshot diff planning ([apply/snapshot_diff.py]) *)

From stdpp Require Import base gmap strings list.
From Stdlib Require Import QArith.
From S2P Require Import Prelude PyValue PyFloat PyDict RunAudit FullCapture.
#[local] Close Scope Q_scope.
#[local] Open Scope nat_scope.

Record SnapshotDiffPolicy := {
  sd_require_complete_snapshot : bool;
  sd_propagate_deletes : bool;
  sd_allow_delete_all : bool;
  sd_allow_delete_with_quarantine : bool;
  sd_max_delete_fraction : option Q
}.

Definition default_SnapshotDiffPolicy : SnapshotDiffPolicy :=
  {| sd_require_complete_snapshot := true; sd_propagate_deletes := false;
     sd_allow_delete_all := false; sd_allow_delete_with_quarantine := false;
     sd_max_delete_fraction := None |}.

Record SnapshotDiffPlan := {
  sdp_rows : list row;
  sdp_inserted_keys : list (list value);
  sdp_updated_keys : list (list value);
  sdp_deleted_keys : list (list value);
  sdp_unchanged_keys : list (list value);
  sdp_mutations : MutationCounts
}.

Definition _key (r : row) (merge_key : list string) : res (list value) :=
  values ← mapM_res (fun column =>
    match r !! column with
    | None => raise "SnapshotDiffError" "missing merge-key column"
    | Some v => Ok v
    end) merge_key;
  if existsb is_none values then
    raise "SnapshotDiffError" "snapshot merge-key values must not be null"
  else Ok values.

Definition _index (rows : list row) (merge_key : list string) (label : string) :
    res (list (list value * row)) :=
  index_by (fun r => _key r merge_key)
    (Exn "SnapshotDiffError" ("duplicate " +:+ label +:+ " merge key"))
    (fun _ _ => Ok tt) rows.

Definition _changed (before after : row) (tracked_columns : list string) : bool :=
  if bool_decide (tracked_columns = []) then negb (row_eqb before after)
  else existsb (fun column => negb (py_eqb (get before column) (get after column))) tracked_columns.

Section snapshot_diff.
Context `{PyRuntime}.

Definition sorted_keys (ks : list (list value)) : list (list value) := sort_on repr_key ks.

(** [set(a) - set(b)] on the keys of two dictionaries. *)
Definition key_difference {V W} (a : list (list value * V)) (b : list (list value * W)) :
    list (list value) :=
  filter (fun k => dmem b k = false) (map fst a).

(** [set(a) & set(b)]: CPython iterates over the smaller operand, the right one when they have
    the same size, and keeps its elements. *)
Definition key_intersection {V W} (a : list (list value * V)) (b : list (list value * W)) :
    list (list value) :=
  if length a <? length b then filter (fun k => dmem b k = true) (map fst a)
  else filter (fun k => dmem a k = true) (map fst b).

(** The rows of the result: the candidate alone, or the target updated with the candidate. *)
Definition final_rows (current candidate : list (list value * row)) (policy : SnapshotDiffPolicy) :
    list row :=
  if sd_propagate_deletes policy then sorted_values repr_key candidate
  else sorted_values repr_key (dupdate current candidate).

(** The delete guards: [deleted], or the guard that forbids it. *)
Definition plan_deletes (current : list (list value * row)) (missing : list (list value))
    (quarantined_count : Z) (policy : SnapshotDiffPolicy) : res (list (list value)) :=
  if negb (sd_propagate_deletes policy) then Ok []
  else if negb (quarantined_count =? 0)%Z && negb (sd_allow_delete_with_quarantine policy) then
    raise "SnapshotDiffError" "delete inference is blocked when source rows were quarantined"
  else if (0 <? length current) && (length missing =? length current)
          && negb (sd_allow_delete_all policy) then
    raise "SnapshotDiffError" "snapshot would delete all existing target rows"
  else if match sd_max_delete_fraction policy with
          | Some bound => (0 <? length current)
              && flt bound (py_truediv (Z.of_nat (length missing)) (Z.of_nat (length current)))
          | None => false
          end then
    raise "SnapshotDiffError" "snapshot delete fraction exceeds configured guard"
  else Ok missing.

(** [_changed(current[key], candidate[key], tracked_columns)] *)
Definition key_changed (current candidate : list (list value * row))
    (tracked_columns : list string) (key : list value) : bool :=
  match dget current key, dget candidate key with
  | Some before, Some after => _changed before after tracked_columns
  | _, _ => false
  end.

Definition plan_snapshot_diff (current_rows candidate_rows : list row)
    (evidence : FullSnapshotEvidence) (merge_key tracked_columns : list string)
    (quarantined_count : Z) (policy : option SnapshotDiffPolicy) : res SnapshotDiffPlan :=
  if bool_decide (merge_key = []) then raise "SnapshotDiffError" "SNAPSHOT_DIFF requires merge_key"
  else
    let policy := default default_SnapshotDiffPolicy policy in
    if sd_require_complete_snapshot policy && negb (complete evidence) then
      raise "SnapshotDiffError" "SNAPSHOT_DIFF requires complete snapshot evidence"
    else
      current ← _index current_rows merge_key "target";
      candidate ← _index candidate_rows merge_key "candidate";
      let inserted := sorted_keys (key_difference candidate current) in
      let missing := sorted_keys (key_difference current candidate) in
      let common := sorted_keys (key_intersection current candidate) in
      let updated := filter (fun k => key_changed current candidate tracked_columns k = true) common in
      let unchanged :=
        filter (fun k => existsb (fun k' => keq k' k) updated = false) common in
      deleted ← plan_deletes current missing quarantined_count policy;
      Ok {| sdp_rows := final_rows current candidate policy;
            sdp_inserted_keys := inserted; sdp_updated_keys := updated;
            sdp_deleted_keys := deleted; sdp_unchanged_keys := unchanged;
            sdp_mutations := {| mc_inserted := length inserted; mc_updated := length updated;
                                mc_deleted := length deleted |} |}.

End snapshot_diff.

(** ** Lemmas *)

Lemma index_Ok rows mk label d :
  _index rows mk label = Ok d ->
  dwf d /\ map snd d = rows /\ Forall (fun kv => _key kv.2 mk = Ok kv.1) d.
Proof.
  intros (Hwf & Hsnd & Hall)%index_by_spec. split_and!; [done|done|].
  eapply Forall_impl; [exact Hall|]. by intros kv [? _].
Qed.

Section snapshot_diff_lemmas.
Context `{PyRuntime}.
Notation dict := (list (list value * row)).

Lemma length_key_intersection (a b : dict) :
  dwf a -> dwf b -> length (key_intersection a b) = length (shared_keys a b).
Proof.
  intros Ha Hb. unfold key_intersection. destruct (length a <? length b); [done|].
  symmetry. by apply shared_keys_length.
Qed.

(** Inversion of a successful plan. *)
Lemma plan_snapshot_diff_Ok cur cand ev mk tracked q pol plan :
  plan_snapshot_diff cur cand ev mk tracked q pol = Ok plan ->
  let policy := default default_SnapshotDiffPolicy pol in
  exists dcur dcand deleted,
    (sd_require_complete_snapshot policy = true -> complete ev = true) /\
    _index cur mk "target" = Ok dcur /\ _index cand mk "candidate" = Ok dcand /\
    plan_deletes dcur (sorted_keys (key_difference dcur dcand)) q policy = Ok deleted /\
    sdp_rows plan = final_rows dcur dcand policy /\
    sdp_inserted_keys plan = sorted_keys (key_difference dcand dcur) /\
    sdp_updated_keys plan = filter (fun k => key_changed dcur dcand tracked k = true)
      (sorted_keys (key_intersection dcur dcand)) /\
    sdp_unchanged_keys plan =
      filter (fun k => existsb (fun k' => keq k' k) (sdp_updated_keys plan) = false)
        (sorted_keys (key_intersection dcur dcand)) /\
    sdp_deleted_keys plan = deleted /\
    sdp_mutations plan = {| mc_inserted := length (sdp_inserted_keys plan);
      mc_updated := length (sdp_updated_keys plan); mc_deleted := length deleted |}.
Proof.
  unfold plan_snapshot_diff. case_bool_decide; [done|]. simpl.
  destruct (sd_require_complete_snapshot _ && negb (complete ev)) eqn:Ec; [done|].
  intros (dcur & Hcur & (dcand & Hcand & (deleted & Hdel & [= <-])%bind_Ok)%bind_Ok)%bind_Ok.
  exists dcur, dcand, deleted. simpl. split_and!; try done.
  intros Hr. rewrite Hr in Ec. by destruct (complete ev).
Qed.

(** What the delete guards allow. *)
Lemma plan_deletes_Ok (dcur : dict) missing q policy deleted :
  plan_deletes dcur missing q policy = Ok deleted ->
  (sd_propagate_deletes policy = false /\ deleted = []) \/
  (sd_propagate_deletes policy = true /\ deleted = missing /\
   (q <> 0%Z -> sd_allow_delete_with_quarantine policy = true) /\
   (dcur <> [] -> length missing = length dcur -> sd_allow_delete_all policy = true) /\
   (forall bound, sd_max_delete_fraction policy = Some bound -> dcur <> [] ->
      fle (py_truediv (Z.of_nat (length missing)) (Z.of_nat (length dcur))) bound = true)).
Proof.
  unfold plan_deletes. destruct (sd_propagate_deletes policy); simpl; [|naive_solver].
  destruct (negb (q =? 0)%Z && _) eqn:E1; [done|].
  destruct ((0 <? length dcur) && (length missing =? length dcur) && _) eqn:E2; [done|].
  assert (dcur <> [] -> (0 <? length dcur) = true) as Hpos.
  { intros. apply Nat.ltb_lt. destruct dcur; [done|simpl; lia]. }
  destruct (match sd_max_delete_fraction policy with Some _ => _ | None => _ end) eqn:E3; [done|].
  intros [= <-]. right. split_and!; [done|done| | |].
  - intros Hq. apply Z.eqb_neq in Hq. rewrite Hq in E1. by destruct (sd_allow_delete_with_quarantine policy).
  - intros Hne Hl. rewrite Hpos, Hl, Nat.eqb_refl in E2 by done. by destruct (sd_allow_delete_all policy).
  - intros bound Hb Hne. rewrite Hb, Hpos in E3 by done. simpl in E3.
    unfold flt in E3. by apply negb_false_iff in E3.
Qed.

(** The keys that are not updated are all the other common keys. *)
Lemma updated_unchanged_length (f : list value -> bool) (l : list (list value)) :
  (forall k k', keq k k' = true -> f k = f k') ->
  length (filter (fun k => f k = true) l) +
  length (filter (fun k => existsb (fun k' => keq k' k) (filter (fun k => f k = true) l) = false) l)
  = length l.
Proof.
  intros Hf. rewrite (filter_bool_ext _ f false l).
  - induction l as [|k l IH]; [done|]. rewrite !filter_cons. destruct (f k) eqn:E.
    + rewrite decide_True, decide_False by done. simpl. lia.
    + rewrite decide_False, decide_True by done. simpl. lia.
  - apply Forall_forall. intros k Hin. apply eq_bool_prop_intro.
    rewrite !Is_true_true, existsb_exists. split.
    + intros (k' & Hk' & Hkk). apply list_elem_of_In, list_elem_of_filter in Hk' as [Hk' _].
      by rewrite <-(Hf k' k).
    + intros Hk. exists k. split; [|apply keq_refl].
      apply list_elem_of_In, list_elem_of_filter. done.
Qed.

Lemma key_changed_compat (a b : dict) tracked k k' :
  keq k k' = true -> key_changed a b tracked k = key_changed a b tracked k'.
Proof.
  intros Hk. unfold key_changed. by rewrite (dget_compat a k k'), (dget_compat b k k').
Qed.

End snapshot_diff_lemmas.

(** ** Properties *)

Section snapshot_diff_properties.
Context `{PyRuntime}.

(** The planned key sets partition the snapshots: every candidate row is inserted, updated or
    unchanged, every target row is updated, unchanged or missing from the candidate, and the
    deletes are all the missing keys or none. *)
Theorem snapshot_diff_partitions cur cand ev mk tracked q pol plan :
  plan_snapshot_diff cur cand ev mk tracked q pol = Ok plan ->
  length (sdp_inserted_keys plan) + length (sdp_updated_keys plan)
    + length (sdp_unchanged_keys plan) = length cand /\
  (if sd_propagate_deletes (default default_SnapshotDiffPolicy pol) then
     length (sdp_deleted_keys plan) + length (sdp_updated_keys plan)
       + length (sdp_unchanged_keys plan) = length cur
   else sdp_deleted_keys plan = []).
Proof.
  intros (dcur & dcand & del & _ & Hcur & Hcand & Hdel & _ & Hins & Hupd & Hunch & -> & _)%plan_snapshot_diff_Ok.
  apply index_Ok in Hcur as (Hwf1 & <- & _), Hcand as (Hwf2 & <- & _).
  set (common := sorted_keys (key_intersection dcur dcand)) in *.
  assert (length (sdp_updated_keys plan) + length (sdp_unchanged_keys plan) = length common) as Hc.
  { rewrite Hunch, Hupd. apply (updated_unchanged_length (key_changed dcur dcand tracked)).
    intros. by apply key_changed_compat. }
  assert (length common = length (shared_keys dcur dcand)) as Hlen.
  { unfold common, sorted_keys, sort_on. rewrite length_sort_by. by apply length_key_intersection. }
  pose proof (shared_private_length dcur dcand) as H1.
  pose proof (shared_private_length dcand dcur) as H2.
  rewrite <-(shared_keys_length dcur dcand) in H2 by done.
  assert (length (sdp_inserted_keys plan) = length (private_keys dcand dcur)) as Hi.
  { rewrite Hins. apply length_sort_by. }
  rewrite !length_map. split; [lia|].
  apply plan_deletes_Ok in Hdel as [[-> ->]|(-> & -> & _)]; [done|].
  assert (length (sorted_keys (key_difference dcur dcand)) = length (private_keys dcur dcand))
    as Hm by apply length_sort_by. lia.
Qed.

(** The planned rows are, key by key, the candidate when deletes are propagated, and the target
    overridden by the candidate otherwise, so no target key is lost without delete propagation. *)
Theorem snapshot_diff_rows cur cand ev mk tracked q pol plan :
  plan_snapshot_diff cur cand ev mk tracked q pol = Ok plan ->
  exists dcur dcand dfinal,
    _index cur mk "target" = Ok dcur /\ _index cand mk "candidate" = Ok dcand /\
    dwf dfinal /\ sdp_rows plan ≡ₚ map snd dfinal /\
    forall k, dget dfinal k =
      match dget dcand k with
      | Some after => Some after
      | None => if sd_propagate_deletes (default default_SnapshotDiffPolicy pol) then None
                else dget dcur k
      end.
Proof.
  intros (dcur & dcand & del & _ & Hcur & Hcand & _ & Hrows & _)%plan_snapshot_diff_Ok.
  pose proof (index_Ok _ _ _ _ Hcur) as (Hwf1 & _ & _).
  pose proof (index_Ok _ _ _ _ Hcand) as (Hwf2 & _ & _).
  exists dcur, dcand. unfold final_rows in Hrows.
  destruct (sd_propagate_deletes _).
  - exists dcand. split_and!; [done|done|done| |].
    + rewrite Hrows. apply sorted_values_perm.
    + intros k. by destruct (dget dcand k).
  - exists (dupdate dcur dcand). split_and!; [done|done|by apply dwf_dupdate| |].
    + rewrite Hrows. apply sorted_values_perm.
    + intros k. by rewrite dget_dupdate.
Qed.

(** Deletes are inferred only from a snapshot that the policy accepts as complete, with no
    quarantined row, never for the whole target, and within the configured fraction, unless the
    policy opts out of the guard. *)
Theorem snapshot_diff_delete_safety cur cand ev mk tracked q pol plan :
  plan_snapshot_diff cur cand ev mk tracked q pol = Ok plan ->
  sdp_deleted_keys plan <> [] ->
  let policy := default default_SnapshotDiffPolicy pol in
  sd_propagate_deletes policy = true /\
  (sd_require_complete_snapshot policy = true -> complete ev = true) /\
  (q <> 0%Z -> sd_allow_delete_with_quarantine policy = true) /\
  (length (sdp_deleted_keys plan) = length cur -> sd_allow_delete_all policy = true) /\
  (forall bound, sd_max_delete_fraction policy = Some bound ->
     fle (py_truediv (Z.of_nat (length (sdp_deleted_keys plan))) (Z.of_nat (length cur))) bound
       = true).
Proof.
  intros (dcur & dcand & del & Hcompl & Hcur & _ & Hdel & _ & _ & _ & _ & -> & _)%plan_snapshot_diff_Ok.
  intros Hne policy. apply index_Ok in Hcur as (_ & <- & _). rewrite length_map.
  apply plan_deletes_Ok in Hdel as [[_ ->]|(Hp & -> & Hq & Hall & Hfrac)]; [done|].
  assert (dcur <> []) as Hcur by (intros ->; apply Hne; reflexivity).
  split_and!; auto.
Qed.

End snapshot_diff_properties.

Definition demo_evidence : FullSnapshotEvidence :=
  {| snapshot_id := "s1"; complete := true; source_row_count := 2; boundary_ref := None |}.
Definition demo_policy : SnapshotDiffPolicy :=
  {| sd_require_complete_snapshot := true; sd_propagate_deletes := true;
     sd_allow_delete_all := false; sd_allow_delete_with_quarantine := false;
     sd_max_delete_fraction := Some (Qmake 1 2) |}.
Definition demo_current : list row :=
  [{[ "id" := VInt 1; "v" := VInt 1 ]}; {[ "id" := VInt 2; "v" := VInt 1 ]}].
Definition demo_candidate : list row :=
  [{[ "id" := VInt 2; "v" := VInt 5 ]}; {[ "id" := VInt 3; "v" := VInt 1 ]}].

Definition demo_plan : SnapshotDiffPlan :=
  match @plan_snapshot_diff demo_runtime demo_current demo_candidate demo_evidence ["id"] ["v"]
          0 (Some demo_policy) with
  | Ok p => p
  | Raise _ => {| sdp_rows := []; sdp_inserted_keys := []; sdp_updated_keys := [];
      sdp_deleted_keys := []; sdp_unchanged_keys := [];
      sdp_mutations := {| mc_inserted := 0; mc_updated := 0; mc_deleted := 0 |} |}
  end.

Lemma snapshot_diff_partitions_witness :
  sdp_deleted_keys demo_plan = [[VInt 1]] /\
  length (sdp_inserted_keys demo_plan) + length (sdp_updated_keys demo_plan)
    + length (sdp_unchanged_keys demo_plan) = 2.
Proof.
  split; [vm_compute; reflexivity|].
  refine (proj1 (@snapshot_diff_partitions demo_runtime demo_current demo_candidate demo_evidence
    ["id"] ["v"] 0%Z (Some demo_policy) demo_plan _)). vm_compute; reflexivity.
Defined.

Lemma snapshot_diff_rows_witness :
  exists dcur dcand dfinal,
    _index demo_current ["id"] "target" = Ok dcur /\
    _index demo_candidate ["id"] "candidate" = Ok dcand /\
    dwf dfinal /\ sdp_rows demo_plan ≡ₚ map snd dfinal /\
    forall k, dget dfinal k =
      match dget dcand k with Some after => Some after | None => None end.
Proof.
  refine (@snapshot_diff_rows demo_runtime demo_current demo_candidate demo_evidence
    ["id"] ["v"] 0%Z (Some demo_policy) demo_plan _). vm_compute; reflexivity.
Defined.

Lemma snapshot_diff_delete_safety_witness :
  sdp_deleted_keys demo_plan <> [] /\ sd_propagate_deletes demo_policy = true /\
  fle (py_truediv 1 2) (Qmake 1 2) = true.
Proof.
  assert (sdp_deleted_keys demo_plan <> []) as Hne by (vm_compute; discriminate).
  split; [exact Hne|].
  pose proof (@snapshot_diff_delete_safety demo_runtime demo_current demo_candidate demo_evidence
    ["id"] ["v"] 0%Z (Some demo_policy) demo_plan ltac:(vm_compute; reflexivity) Hne)
    as (Hp & _ & _ & _ & Hf).
  split; [exact Hp|]. exact (Hf (Qmake 1 2) eq_refl).
Defined.
