(* ===== verification/CurrentState.v ===== *)
(** * Ordered current-state apply: UPSERT and SCD1
    ([apply/current_state.py], [apply/upsert.py], [apply/scd1.py]) *)

From stdpp Require Import base gmap strings list.
From S2P Require Import Prelude PyValue PyDict Temporal RunAudit.

Inductive StaleRecordAction := STALE_IGNORE | STALE_ERROR.

#[export] Instance StaleRecordAction_eq_dec : EqDecision StaleRecordAction.
Proof. solve_decision. Defined.

Record CurrentStateApplyPolicy := {
  cs_allow_unordered_updates : bool;
  cs_stale_record_action : StaleRecordAction
}.

Definition default_CurrentStateApplyPolicy : CurrentStateApplyPolicy :=
  {| cs_allow_unordered_updates := false; cs_stale_record_action := STALE_IGNORE |}.

Record CurrentStateApplyResult := {
  csr_rows : list row;
  csr_mutations : MutationCounts;
  csr_stale_ignored : nat;
  csr_duplicate_ignored : nat;
  csr_incoming_superseded : nat
}.

Definition _key (r : row) (columns : list string) : res (list value) :=
  let values := map (get r) columns in
  if existsb is_none values then raise "ValueError" "merge key columns cannot be null"
  else Ok values.

Definition _position (r : row) (columns : list string) : res (option (list value)) :=
  if bool_decide (columns = []) then Ok None
  else
    let values := map (get r) columns in
    if existsb is_none values then
      raise "CurrentStateOrderingError" "ordering columns cannot be null"
    else Ok (Some values).

(** Equality of the payload tuples, which list the items of a row by column name, is
    equality of the rows as dictionaries; the payload is the representative of its class. *)
Definition _canonical_payload (r : row) : row := nrm <$> r.

Definition payload_eqb (r1 r2 : row) : bool :=
  bool_decide (_canonical_payload r1 = _canonical_payload r2).

Definition _compare_positions (left right : list value) : res Z :=
  relation ← except ["TemporalOrderingError"]
    (fun _ => raise "CurrentStateOrderingError" "ordering values are not mutually comparable")
    (compare_source_order left right);
  Ok (match relation with SO_STALE => -1 | SO_NEWER => 1 | SO_EQUAL => 0 end)%Z.

(** [_position] of two rows, asserted not to be [None], then [_compare_positions]. *)
Definition compare_rows (candidate current : row) (ordering_columns : list string) : res Z :=
  candidate_position ← _position candidate ordering_columns;
  current_position ← _position current ordering_columns;
  match candidate_position, current_position with
  | Some l, Some r => _compare_positions l r
  | _, _ => raise "AssertionError" "position"
  end.

(** State of [_select_latest_incoming]. *)
Record selection := {
  sel_selected : list (list value * row);
  sel_duplicate_ignored : nat;
  sel_incoming_superseded : nat
}.

Definition select_step (merge_key ordering_columns : list string) (s : selection) (candidate : row) :
    res selection :=
  key ← _key candidate merge_key;
  match dget (sel_selected s) key with
  | None =>
    _ ← _position candidate ordering_columns;
    Ok {| sel_selected := dset (sel_selected s) key candidate;
          sel_duplicate_ignored := sel_duplicate_ignored s;
          sel_incoming_superseded := sel_incoming_superseded s |}
  | Some current =>
    let duplicate := Ok {| sel_selected := sel_selected s;
                           sel_duplicate_ignored := S (sel_duplicate_ignored s);
                           sel_incoming_superseded := sel_incoming_superseded s |} in
    if bool_decide (ordering_columns = []) then
      if negb (payload_eqb candidate current) then
        raise "CurrentStateOrderingError"
          "multiple unordered incoming rows have different payloads"
      else duplicate
    else
      comparison ← compare_rows candidate current ordering_columns;
      if (comparison >? 0)%Z then
        Ok {| sel_selected := dset (sel_selected s) key candidate;
              sel_duplicate_ignored := sel_duplicate_ignored s;
              sel_incoming_superseded := S (sel_incoming_superseded s) |}
      else if (comparison <? 0)%Z then
        Ok {| sel_selected := sel_selected s;
              sel_duplicate_ignored := sel_duplicate_ignored s;
              sel_incoming_superseded := S (sel_incoming_superseded s) |}
      else if payload_eqb candidate current then duplicate
      else raise "CurrentStateConflictError" "conflicting incoming rows at equal position"
  end.

Definition _select_latest_incoming (incoming_rows : list row)
    (merge_key ordering_columns : list string) : res selection :=
  foldM (select_step merge_key ordering_columns)
    {| sel_selected := []; sel_duplicate_ignored := 0; sel_incoming_superseded := 0 |}
    incoming_rows.

(** State of the update loop of [apply_ordered_current_state]. *)
Record apply_state := {
  as_rows_by_key : list (list value * row);
  as_inserted : nat;
  as_updated : nat;
  as_stale_ignored : nat;
  as_duplicate_ignored : nat
}.

Definition apply_step (ordering_columns : list string) (policy : CurrentStateApplyPolicy)
    (s : apply_state) (kv : list value * row) : res apply_state :=
  let '(key, candidate) := kv in
  match dget (as_rows_by_key s) key with
  | None =>
    Ok {| as_rows_by_key := dset (as_rows_by_key s) key candidate;
          as_inserted := S (as_inserted s); as_updated := as_updated s;
          as_stale_ignored := as_stale_ignored s;
          as_duplicate_ignored := as_duplicate_ignored s |}
  | Some current =>
    let merged :=
      {| as_rows_by_key := dset (as_rows_by_key s) key (row_update current candidate);
         as_inserted := as_inserted s; as_updated := S (as_updated s);
         as_stale_ignored := as_stale_ignored s;
         as_duplicate_ignored := as_duplicate_ignored s |} in
    if payload_eqb candidate current then
      Ok {| as_rows_by_key := as_rows_by_key s; as_inserted := as_inserted s;
            as_updated := as_updated s; as_stale_ignored := as_stale_ignored s;
            as_duplicate_ignored := S (as_duplicate_ignored s) |}
    else if bool_decide (ordering_columns = []) then
      if negb (cs_allow_unordered_updates policy) then
        raise "CurrentStateOrderingError" "changed update has no ordering columns"
      else Ok merged
    else
      comparison ← compare_rows candidate current ordering_columns;
      if (comparison <? 0)%Z then
        if bool_decide (cs_stale_record_action policy = STALE_ERROR) then
          raise "CurrentStateOrderingError" "stale row"
        else
          Ok {| as_rows_by_key := as_rows_by_key s; as_inserted := as_inserted s;
                as_updated := as_updated s; as_stale_ignored := S (as_stale_ignored s);
                as_duplicate_ignored := as_duplicate_ignored s |}
      else if (comparison =? 0)%Z then
        raise "CurrentStateConflictError" "conflicting row at equal position"
      else Ok merged
  end.

Definition index_existing (existing_rows : list row) (merge_key ordering_columns : list string) :
    res (list (list value * row)) :=
  index_by (fun r => _key r merge_key)
    (Exn "ValueError" "existing target contains duplicate key")
    (fun _ r => _ ← _position r ordering_columns; Ok tt) existing_rows.

Section current_state.
Context `{PyRuntime}.

Definition apply_ordered_current_state (existing_rows incoming_rows : list row)
    (merge_key ordering_columns : list string) (policy : option CurrentStateApplyPolicy) :
    res CurrentStateApplyResult :=
  if bool_decide (merge_key = []) then raise "ValueError" "merge_key is required"
  else if negb (bool_decide (NoDup merge_key)) then
    raise "ValueError" "merge_key columns must be unique"
  else if negb (bool_decide (NoDup ordering_columns)) then
    raise "ValueError" "ordering columns must be unique"
  else
    let effective_policy := default default_CurrentStateApplyPolicy policy in
    rows_by_key ← index_existing existing_rows merge_key ordering_columns;
    sel ← _select_latest_incoming incoming_rows merge_key ordering_columns;
    final ← foldM (apply_step ordering_columns effective_policy)
      {| as_rows_by_key := rows_by_key; as_inserted := 0; as_updated := 0;
         as_stale_ignored := 0; as_duplicate_ignored := sel_duplicate_ignored sel |}
      (sort_on (fun kv => repr_key kv.1) (sel_selected sel));
    Ok {| csr_rows := sorted_values repr_key (as_rows_by_key final);
          csr_mutations := {| mc_inserted := as_inserted final; mc_updated := as_updated final;
                              mc_deleted := 0 |};
          csr_stale_ignored := as_stale_ignored final;
          csr_duplicate_ignored := as_duplicate_ignored final;
          csr_incoming_superseded := sel_incoming_superseded sel |}.

Definition apply_upsert (existing_rows incoming_rows : list row)
    (merge_key ordering_columns : list string) (policy : option CurrentStateApplyPolicy) :
    res CurrentStateApplyResult :=
  apply_ordered_current_state existing_rows incoming_rows merge_key ordering_columns policy.

Definition apply_scd1 (existing_rows incoming_rows : list row)
    (merge_key ordering_columns : list string) (policy : option CurrentStateApplyPolicy) :
    res CurrentStateApplyResult :=
  apply_ordered_current_state existing_rows incoming_rows merge_key ordering_columns policy.

End current_state.

#[local] Arguments apply_step : simpl never.

(** ** Lemmas *)

Section current_state_lemmas.
Implicit Types (mk oc : list string) (r c : row) (k : list value).

(** The position of a row, when it has one. *)
Definition pos oc r : list value := map (get r) oc.
Definition has_position oc r : Prop := oc = [] \/ existsb is_none (pos oc r) = false.

Lemma key_Ok r cols k :
  _key r cols = Ok k <-> k = map (get r) cols /\ existsb is_none k = false.
Proof.
  unfold _key. destruct (existsb is_none (map (get r) cols)) eqn:E; split.
  - done.
  - intros [-> Hn]. congruence.
  - by intros [= <-].
  - by intros [-> _].
Qed.

Lemma position_Ok r oc :
  (exists p, _position r oc = Ok p) <-> has_position oc r.
Proof.
  unfold _position, has_position, pos. case_bool_decide as Hoc.
  { split; [by left|by eexists]. }
  destruct (existsb is_none _); split.
  - by intros [? ?].
  - by intros [?|?].
  - by right.
  - by eexists.
Qed.

Lemma compare_rows_Ok c r oc z :
  oc <> [] -> compare_rows c r oc = Ok z ->
  has_position oc c /\ has_position oc r /\
  exists rel, compare_source_order (pos oc c) (pos oc r) = Ok rel /\
    z = (match rel with SO_STALE => -1 | SO_NEWER => 1 | SO_EQUAL => 0 end)%Z.
Proof.
  unfold compare_rows, _position, has_position, pos, _compare_positions, except. intros Hne.
  rewrite bool_decide_false by done. destruct (existsb is_none (map (get c) oc)); [done|].
  destruct (existsb is_none (map (get r) oc)); [done|]. simpl.
  destruct (compare_source_order _ _) as [rel|e]; simpl; [|by case_bool_decide].
  intros [= <-]. split_and!; [by right|by right|]. by exists rel.
Qed.

Lemma pos_nonempty oc r : oc <> [] -> pos oc r <> [].
Proof. by destruct oc. Qed.

Lemma payload_eqb_row_eqb r1 r2 : payload_eqb r1 r2 = row_eqb r1 r2.
Proof. done. Qed.

Lemma payload_eqb_get r1 r2 col : payload_eqb r1 r2 = true -> nrm (get r1 col) = nrm (get r2 col).
Proof.
  intros Heq%bool_decide_eq_true. unfold _canonical_payload in Heq.
  assert (forall r : row, nrm (get r col) = default VNone ((nrm <$> r) !! col)) as Hg.
  { intros r. rewrite lookup_fmap. unfold get. by destruct (r !! col). }
  by rewrite !Hg, Heq.
Qed.

Lemma payload_eqb_pos r1 r2 cols :
  payload_eqb r1 r2 = true -> key_eqb (map (get r1) cols) (map (get r2) cols) = true.
Proof.
  intros Heq. apply key_eqb_spec. rewrite !map_map. apply map_ext. intros col.
  by apply payload_eqb_get.
Qed.

Lemma payload_eqb_older oc r1 r2 :
  oc <> [] -> payload_eqb r1 r2 = true -> older_eq (pos oc r1) (pos oc r2).
Proof.
  intros Hoc Heq. exists SO_EQUAL. split; [|done].
  apply compare_source_order_eq; [by apply pos_nonempty|by apply payload_eqb_pos].
Qed.

(** A merged row has the key and the position of the incoming row. *)
Lemma merged_columns cur c cols :
  existsb is_none (map (get c) cols) = false ->
  map (get (row_update cur c)) cols = map (get c) cols.
Proof.
  intros Hnn. apply map_ext_Forall, Forall_forall. intros col Hin.
  apply get_update_in. unfold get in Hnn.
  destruct (c !! col) as [v|] eqn:E; [by eexists|]. exfalso.
  assert (existsb is_none (map (fun col => default VNone (c !! col)) cols) = true) as Ht; [|by rewrite Ht in Hnn].
  apply existsb_exists. exists VNone. split; [|done]. apply list_elem_of_In, list_elem_of_fmap.
  exists col. by rewrite E.
Qed.

Lemma merged_key cur c mk k : _key c mk = Ok k -> _key (row_update cur c) mk = Ok k.
Proof.
  rewrite !key_Ok. intros [-> Hn]. by rewrite merged_columns.
Qed.

Lemma merged_pos cur c oc : has_position oc c -> pos oc (row_update cur c) = pos oc c.
Proof. intros [->|Hn]; [done|]. by apply merged_columns. Qed.

Lemma merged_has_position cur c oc : has_position oc c -> has_position oc (row_update cur c).
Proof. intros H. destruct H as [->|H]; [by left|right]. by rewrite merged_pos by (by right). Qed.

(** *** Selection of the latest incoming rows *)

Definition selected_ok mk oc (done : list row) (e : list value * row) : Prop :=
  e.2 ∈ done /\ has_position oc e.2 /\
  exists k', _key e.2 mk = Ok k' /\ keq k' e.1 = true.

Definition superseded_by mk oc (sel : list (list value * row)) r : Prop :=
  exists k c, _key r mk = Ok k /\ dget sel k = Some c /\
    (oc <> [] -> older_eq (pos oc r) (pos oc c)) /\ (oc = [] -> payload_eqb r c = true).

Definition selection_ok mk oc (done : list row) (s : selection) : Prop :=
  dwf (sel_selected s) /\ Forall (selected_ok mk oc done) (sel_selected s) /\
  Forall (superseded_by mk oc (sel_selected s)) done /\
  length (sel_selected s) + sel_duplicate_ignored s + sel_incoming_superseded s = length done.

Lemma payload_eqb_refl r : payload_eqb r r = true.
Proof. by apply bool_decide_eq_true. Qed.

Lemma selected_ok_more mk oc done done' e :
  selected_ok mk oc done e -> selected_ok mk oc (done ++ done') e.
Proof. intros (Hin & H). split; [set_solver|done]. Qed.

(** Overwriting the entry of a key keeps the other entries. *)
Lemma Forall_dset (P : list value * row -> Prop) d k r :
  Forall P d -> (forall k', keq k' k = true -> P (k', r)) -> Forall P (dset d k r).
Proof.
  induction 1 as [|[k1 r1] d H1 Hd IH]; intros Hk; simpl.
  - constructor; [|done]. apply Hk, keq_refl.
  - destruct (keq k1 k) eqn:E; constructor; auto.
Qed.

Lemma length_dset_in (d : list (list value * row)) k r :
  is_Some (dget d k) -> length (dset d k r) = length d.
Proof.
  induction d as [|[k1 r1] d IH]; simpl; [by intros [? ?]|].
  destruct (keq k1 k); simpl; [done|]. intros H. by rewrite IH.
Qed.

Lemma superseded_keep mk oc sel sel' r :
  superseded_by mk oc sel r ->
  (forall k c, dget sel k = Some c -> exists c', dget sel' k = Some c' /\
     (oc <> [] -> older_eq (pos oc c) (pos oc c')) /\ (oc = [] -> c' = c)) ->
  superseded_by mk oc sel' r.
Proof.
  intros (k & c & Hk & Hg & Hold & Heq) Hsel. destruct (Hsel k c Hg) as (c' & Hg' & Hold' & Heq').
  exists k, c'. split_and!; [done|done| |].
  - intros Hoc. eapply older_eq_trans; auto.
  - intros Hoc. rewrite (Heq' Hoc). auto.
Qed.


Lemma select_step_ok mk oc done s1 r s2 :
  selection_ok mk oc done s1 -> select_step mk oc s1 r = Ok s2 ->
  selection_ok mk oc (done ++ [r]) s2.
Proof.
  intros (Hwf & Hsel & Hsup & Hlen). unfold select_step. intros (k & Hk & Hstep)%bind_Ok.
  assert (Forall (selected_ok mk oc (done ++ [r])) (sel_selected s1)) as Hsel'.
  { eapply Forall_impl; [exact Hsel|]. intros e. apply selected_ok_more. }
  assert (has_position oc r -> Forall (selected_ok mk oc (done ++ [r])) (dset (sel_selected s1) k r)) as Hset.
  { intros Hp. apply Forall_dset; [done|]. intros k' Hkk. split; [set_solver|]. split; [done|].
    exists k. by rewrite keq_sym. }
  assert (forall sel', dget sel' k = Some r -> superseded_by mk oc sel' r) as Hself.
  { intros sel' Hg. exists k, r. split_and!; [done|done| |intros; apply payload_eqb_refl].
    intros Hoc. by apply older_eq_refl, pos_nonempty. }
  unfold selection_ok. rewrite length_app; simpl.
  destruct (dget (sel_selected s1) k) as [cur|] eqn:Eg.
  - assert (forall c, superseded_by mk oc (sel_selected s1) c ->
      (oc <> [] -> older_eq (pos oc cur) (pos oc r)) -> oc <> [] ->
      superseded_by mk oc (dset (sel_selected s1) k r) c) as Hover.
    { intros c Hc Hnew Hoc. apply (superseded_keep _ _ _ _ _ Hc). intros k' c' Hg'.
      rewrite dget_dset. destruct (keq k k') eqn:E.
      - exists r. split; [done|]. split; [|by intros]. intros _.
        rewrite <-(dget_compat _ k k'), Eg in Hg' by done. injection Hg' as <-. auto.
      - exists c'. split; [done|]. split; [|done]. intros _. apply older_eq_refl.
        by apply pos_nonempty. }
    assert (forall rel, compare_source_order (pos oc r) (pos oc cur) = Ok rel -> rel <> SO_NEWER ->
      oc <> [] -> superseded_by mk oc (sel_selected s1) r) as Hold.
    { intros rel Hrel Hne Hoc. exists k, cur. split_and!; [done|done| |done]. by exists rel. }
    case_bool_decide as Hoc.
    + destruct (payload_eqb r cur) eqn:Ep; [|done]. injection Hstep as <-; simpl.
      split_and!; [done|done| |lia]. apply Forall_app. split; [done|]. repeat constructor.
      by exists k, cur.
    + apply bind_Ok in Hstep as (z & Hz & Hstep).
      apply compare_rows_Ok in Hz as (Hp & _ & rel & Hrel & ->); [|done].
      destruct rel; simpl in Hstep.
      * injection Hstep as <-; simpl. split_and!; [done|done| |lia].
        apply Forall_app. split; [done|]. repeat constructor. by eapply Hold.
      * destruct (payload_eqb r cur); [|done]. injection Hstep as <-; simpl.
        split_and!; [done|done| |lia].
        apply Forall_app. split; [done|]. repeat constructor. by eapply Hold.
      * injection Hstep as <-; simpl. split_and!; [by apply dwf_dset|by auto| |].
        -- apply Forall_app. split.
           ++ eapply Forall_impl; [exact Hsup|]. intros c Hc. apply Hover; [done| |done].
              intros _. eexists. split; [by apply compare_source_order_swap|done].
           ++ repeat constructor. apply Hself, dget_dset_eq.
        -- rewrite length_dset_in by (by eexists). lia.
  - apply bind_Ok in Hstep as (p & Hp & [= <-]); simpl.
    assert (has_position oc r) as Hpos by (apply position_Ok; by eexists).
    split_and!; [by apply dwf_dset|by auto| |].
    + apply Forall_app. split.
      * eapply Forall_impl; [exact Hsup|]. intros c Hc. apply (superseded_keep _ _ _ _ _ Hc).
        intros k' c' Hg'. exists c'. rewrite dset_fresh, dget_app, Hg' by done. split; [done|].
        split; [|done]. intros. by apply older_eq_refl, pos_nonempty.
      * repeat constructor. apply Hself, dget_dset_eq.
    + rewrite dset_fresh, length_app by done. simpl. lia.
Qed.

Lemma select_spec mk oc I s :
  _select_latest_incoming I mk oc = Ok s -> selection_ok mk oc I s.
Proof.
  intros Hf. apply (foldM_ind _ (selection_ok mk oc)) in Hf; [done|by repeat split|].
  intros done r s1 s2 _. apply select_step_ok.
Qed.

(** *** The update loop *)

(** What the update loop may make of an existing row and an incoming one. *)
Inductive outcome oc (policy : CurrentStateApplyPolicy) : option row -> row -> row -> Prop :=
| outcome_insert c : outcome oc policy None c c
| outcome_duplicate cur c : payload_eqb c cur = true -> outcome oc policy (Some cur) c cur
| outcome_unordered cur c :
    oc = [] -> cs_allow_unordered_updates policy = true ->
    outcome oc policy (Some cur) c (row_update cur c)
| outcome_stale cur c :
    oc <> [] -> payload_eqb c cur = false ->
    compare_source_order (pos oc c) (pos oc cur) = Ok SO_STALE ->
    cs_stale_record_action policy <> STALE_ERROR ->
    outcome oc policy (Some cur) c cur
| outcome_newer cur c :
    oc <> [] -> compare_source_order (pos oc c) (pos oc cur) = Ok SO_NEWER ->
    outcome oc policy (Some cur) c (row_update cur c).

Definition counted (s : apply_state) : nat :=
  as_inserted s + as_updated s + as_stale_ignored s + as_duplicate_ignored s.

(** One step touches only the entry of its key, with one of the outcomes. *)
Lemma apply_step_ok oc policy s1 k c s2 :
  apply_step oc policy s1 (k, c) = Ok s2 ->
  (exists r, outcome oc policy (dget (as_rows_by_key s1) k) c r /\
     dget (as_rows_by_key s2) k = Some r) /\
  (forall k', keq k k' = false -> dget (as_rows_by_key s2) k' = dget (as_rows_by_key s1) k') /\
  (dwf (as_rows_by_key s1) -> dwf (as_rows_by_key s2)) /\
  counted s2 = S (counted s1).
Proof.
  unfold apply_step, counted. destruct (dget (as_rows_by_key s1) k) as [cur|] eqn:Eg.
  - assert (forall r, dget (dset (as_rows_by_key s1) k r) k = Some r /\
      (forall k', keq k k' = false ->
         dget (dset (as_rows_by_key s1) k r) k' = dget (as_rows_by_key s1) k') /\
      (dwf (as_rows_by_key s1) -> dwf (dset (as_rows_by_key s1) k r))) as Hset.
    { intros r. split_and!; [apply dget_dset_eq| |by apply dwf_dset].
      intros k' Hk. by rewrite dget_dset, Hk. }
    destruct (payload_eqb c cur) eqn:Ep.
    { intros [= <-]; simpl. split_and!; [|done|done|lia]. exists cur. split; [by constructor|done]. }
    case_bool_decide as Hoc.
    { destruct (cs_allow_unordered_updates policy) eqn:Ea; [|done]. intros [= <-]; simpl.
      destruct (Hset (row_update cur c)) as (H1 & H2 & H3). split_and!; [|done|done|lia].
      eexists. split; [by apply outcome_unordered|done]. }
    intros (z & (_ & _ & rel & Hrel & ->)%compare_rows_Ok & Hstep)%bind_Ok; [|done].
    destruct rel; simpl in Hstep; [|done|].
    + case_bool_decide as Ha; [done|]. injection Hstep as <-; simpl.
      split_and!; [|done|done|lia]. exists cur. split; [by apply outcome_stale|done].
    + injection Hstep as <-; simpl. destruct (Hset (row_update cur c)) as (H1 & H2 & H3).
      split_and!; [|done|done|lia]. eexists. split; [by apply outcome_newer|done].
  - intros [= <-]; simpl. split_and!; [| |by apply dwf_dset|lia].
    + exists c. split; [constructor|apply dget_dset_eq].
    + intros k' Hk. by rewrite dget_dset, Hk.
Qed.

Lemma apply_loop_spec oc policy sel s0 s :
  dwf sel -> foldM (apply_step oc policy) s0 sel = Ok s ->
  (forall k c, dget sel k = Some c -> exists r,
     outcome oc policy (dget (as_rows_by_key s0) k) c r /\ dget (as_rows_by_key s) k = Some r) /\
  (forall k, dget sel k = None -> dget (as_rows_by_key s) k = dget (as_rows_by_key s0) k) /\
  (dwf (as_rows_by_key s0) -> dwf (as_rows_by_key s)) /\
  counted s = length sel + counted s0.
Proof.
  revert s0. induction sel as [|[k c] sel IH]; intros s0 Hwf Hf; simpl in *.
  { simplify_eq. by split_and!. }
  destruct Hwf as [Hk Hwf]. destruct (apply_step oc policy s0 (k, c)) as [s1|] eqn:E; [|done].
  destruct (apply_step_ok _ _ _ _ _ _ E) as ((r & Hr & Hg) & Hout & Hd & Hc).
  destruct (IH s1 Hwf Hf) as (H1 & H2 & H3 & H4). split_and!; [| |by auto|lia].
  - intros k' c'. destruct (keq k k') eqn:Ek.
    + intros [= <-]. exists r. rewrite <-(dget_compat (as_rows_by_key s0) k k') by done.
      split; [done|]. rewrite H2; [by rewrite <-(dget_compat _ k k')|].
      by rewrite <-(dget_compat _ k k').
    + intros Hg'. destruct (H1 k' c' Hg') as (r' & Hr' & Hg''). exists r'. by rewrite <-Hout.
  - intros k'. destruct (keq k k') eqn:Ek; [done|]. intros Hg'. rewrite H2 by done. by apply Hout.
Qed.

End current_state_lemmas.

Section current_state_results.
Context `{PyRuntime}.
Implicit Types (mk oc : list string) (r c : row) (k : list value).

(** An indexed or updated dictionary: each row has the key of its entry and a position. *)
Definition keyed mk oc (d : list (list value * row)) : Prop :=
  Forall (fun kv => has_position oc kv.2 /\ exists k', _key kv.2 mk = Ok k' /\ keq k' kv.1 = true) d.

Lemma index_existing_Ok E mk oc d :
  index_existing E mk oc = Ok d -> dwf d /\ map snd d = E /\ keyed mk oc d.
Proof.
  intros (Hwf & Hsnd & Hall)%index_by_spec. split_and!; [done|done|].
  eapply Forall_impl; [exact Hall|]. intros [k r] [Hk Hc]; simpl in *. split.
  - apply position_Ok. destruct (_position r oc) as [p|]; [by exists p|done].
  - exists k. split; [done|apply key_eqb_refl].
Qed.

(** Inversion of a successful run. *)
Lemma apply_Ok E I mk oc pol res :
  apply_ordered_current_state E I mk oc pol = Ok res ->
  exists d sel s,
    mk <> [] /\ NoDup mk /\ NoDup oc /\
    index_existing E mk oc = Ok d /\ _select_latest_incoming I mk oc = Ok sel /\
    foldM (apply_step oc (default default_CurrentStateApplyPolicy pol))
      {| as_rows_by_key := d; as_inserted := 0; as_updated := 0;
         as_stale_ignored := 0; as_duplicate_ignored := sel_duplicate_ignored sel |}
      (sort_on (fun kv => repr_key kv.1) (sel_selected sel)) = Ok s /\
    res = {| csr_rows := sorted_values repr_key (as_rows_by_key s);
          csr_mutations := {| mc_inserted := as_inserted s; mc_updated := as_updated s;
                              mc_deleted := 0 |};
          csr_stale_ignored := as_stale_ignored s;
          csr_duplicate_ignored := as_duplicate_ignored s;
          csr_incoming_superseded := sel_incoming_superseded sel |}.
Proof.
  unfold apply_ordered_current_state.
  case_bool_decide; [done|]. do 2 (case_bool_decide; [|done]). simpl.
  intros (d & Hd & (sel & Hsel & (s & Hs & [= <-])%bind_Ok)%bind_Ok)%bind_Ok.
  by exists d, sel, s.
Qed.

(** The final dictionary of a successful run, key by key. *)
Lemma apply_final E I mk oc pol res :
  apply_ordered_current_state E I mk oc pol = Ok res ->
  exists d sel d',
    index_existing E mk oc = Ok d /\ _select_latest_incoming I mk oc = Ok sel /\
    dwf d /\ dwf d' /\ csr_rows res ≡ₚ map snd d' /\
    (forall k c, dget (sel_selected sel) k = Some c -> exists r,
       outcome oc (default default_CurrentStateApplyPolicy pol) (dget d k) c r /\
       dget d' k = Some r) /\
    (forall k, dget (sel_selected sel) k = None -> dget d' k = dget d k) /\
    mc_inserted (csr_mutations res) + mc_updated (csr_mutations res) + csr_stale_ignored res
      + csr_duplicate_ignored res + csr_incoming_superseded res = length I.
Proof.
  intros (d & sel & s & _ & _ & _ & Hd & Hsel & Hs & ->)%apply_Ok.
  destruct (index_existing_Ok _ _ _ _ Hd) as (Hwf & _ & _).
  destruct (select_spec _ _ _ _ Hsel) as (Hswf & _ & _ & Hlen).
  assert (sel_selected sel ≡ₚ sort_on (fun kv => repr_key kv.1) (sel_selected sel)) as Hp
    by (symmetry; apply sort_on_perm).
  pose proof (dwf_perm _ _ Hp Hswf) as Hwf2.
  destruct (apply_loop_spec _ _ _ _ _ Hwf2 Hs) as (H1 & H2 & H3 & H4). simpl in *.
  exists d, sel, (as_rows_by_key s). split_and!; [done|done|done|by auto|apply sorted_values_perm| | |].
  - intros k c Hg. apply H1. by rewrite <-(dget_perm _ _ k Hp).
  - intros k Hg. apply H2. by rewrite <-(dget_perm _ _ k Hp).
  - unfold counted in H4; simpl in H4. rewrite <-Hp in H4. lia.
Qed.

(** An outcome is never older than the incoming row, nor than the existing one. *)
Lemma outcome_not_older oc policy cur c r :
  oc <> [] -> outcome oc policy cur c r -> has_position oc c ->
  older_eq (pos oc c) (pos oc r) /\ (forall e, cur = Some e -> older_eq (pos oc e) (pos oc r)).
Proof.
  intros Hoc Hout Hp. assert (forall r, older_eq (pos oc r) (pos oc r)) as Hrefl
    by (intros; by apply older_eq_refl, pos_nonempty).
  destruct Hout as [c|cur c Heq|cur c ? _|cur c _ _ Hst _|cur c _ Hn]; [| |done| |].
  - by split.
  - split; [by apply payload_eqb_older|]. by intros e [= ->].
  - split; [by exists SO_STALE|]. by intros e [= ->].
  - rewrite merged_pos by done. split; [done|]. intros e [= ->].
    exists SO_STALE. split; [|done]. by apply compare_source_order_swap in Hn.
Qed.

(** The rows of the result keep their keys and positions. *)
Lemma apply_final_keyed E I mk oc pol d sel d' :
  index_existing E mk oc = Ok d -> _select_latest_incoming I mk oc = Ok sel ->
  dwf d' ->
  (forall k c, dget (sel_selected sel) k = Some c -> exists r,
     outcome oc pol (dget d k) c r /\ dget d' k = Some r) ->
  (forall k, dget (sel_selected sel) k = None -> dget d' k = dget d k) ->
  keyed mk oc d'.
Proof.
  intros Hd Hsel Hwf' Hin Hout.
  destruct (index_existing_Ok _ _ _ _ Hd) as (Hwf & _ & Hkd).
  destruct (select_spec _ _ _ _ Hsel) as (Hswf & Hsok & _ & _).
  assert (forall k r, dget d k = Some r ->
    has_position oc r /\ exists k', _key r mk = Ok k' /\ keq k' k = true) as Hdk.
  { intros k r (k1 & Hk1 & Hin1)%dget_Some_elem. unfold keyed in Hkd. rewrite Forall_forall in Hkd.
    destruct (Hkd _ Hin1) as (Hp & k2 & Hk2 & Hk21). simpl in *. split; [done|].
    exists k2. split; [done|]. by eapply keq_trans. }
  apply Forall_forall. intros [k r] Hin'. simpl.
  pose proof (dwf_elem d' k r Hwf' Hin') as Hg.
  destruct (dget (sel_selected sel) k) as [c|] eqn:Ec; [|rewrite Hout in Hg by done; by apply Hdk].
  destruct (Hin k c Ec) as (r' & Hr & Hg'). rewrite Hg in Hg'. injection Hg' as <-.
  apply dget_Some_elem in Ec as (k1 & Hk1 & Hin1). rewrite Forall_forall in Hsok.
  destruct (Hsok _ Hin1) as (_ & Hp & k2 & Hk2 & Hk21). simpl in *.
  assert (keq k2 k = true) as Hk2k by by eapply keq_trans.
  assert (has_position oc (row_update r c) /\
    exists k', _key c mk = Ok k' /\ keq k' k = true) as _ by eauto using merged_has_position.
  remember (dget d k) as cur eqn:Ecur.
  destruct Hr as [c|cur c _|cur c _ _|cur c _ _ _ _|cur c _ _];
    try (by apply Hdk); (split; [by auto using merged_has_position|]);
    exists k2; split; by auto using merged_key.
Qed.

End current_state_results.

(** ** Properties *)

Section current_state_properties.
Context `{PyRuntime}.

(** Every incoming row of an UPSERT or SCD1 batch is counted exactly once: as inserted, updated,
    stale, duplicate or superseded inside its batch. *)
Theorem current_state_accounting E I mk oc pol res :
  apply_upsert E I mk oc pol = Ok res ->
  mc_inserted (csr_mutations res) + mc_updated (csr_mutations res) + csr_stale_ignored res
    + csr_duplicate_ignored res + csr_incoming_superseded res = length I.
Proof. by intros (d & sel & d' & _ & _ & _ & _ & _ & _ & _ & Hc)%apply_final. Qed.

(** Latest wins and nothing regresses: with ordering columns, the result holds under the key of
    each target row and of each incoming row a row whose source position is not older. *)
Theorem current_state_latest_wins E I mk oc pol res :
  apply_ordered_current_state E I mk oc pol = Ok res -> oc <> [] ->
  exists d', dwf d' /\ csr_rows res ≡ₚ map snd d' /\
    Forall (fun r => exists k final, _key r mk = Ok k /\ dget d' k = Some final /\
                       older_eq (pos oc r) (pos oc final)) (E ++ I).
Proof.
  intros (d & sel & d' & Hd & Hsel & Hwf & Hwf' & Hrows & Hin & Hout & _)%apply_final Hoc.
  destruct (index_existing_Ok _ _ _ _ Hd) as (_ & <- & _).
  destruct (index_by_spec _ _ _ _ _ Hd) as (_ & _ & Hkd).
  destruct (select_spec _ _ _ _ Hsel) as (Hswf & Hsok & Hsup & _).
  assert (forall k c, dget (sel_selected sel) k = Some c -> has_position oc c) as Hpos.
  { intros k c (k' & _ & Hin')%dget_Some_elem. rewrite Forall_forall in Hsok.
    exact (proj1 (proj2 (Hsok _ Hin'))). }
  exists d'. split_and!; [done|done|]. apply Forall_app. split.
  - apply Forall_map. apply Forall_forall. intros [k r] Hkr. simpl.
    rewrite Forall_forall in Hkd. destruct (Hkd _ Hkr) as [Hk _]. simpl in Hk.
    pose proof (dwf_elem d k r Hwf Hkr) as Hg. exists k.
    destruct (dget (sel_selected sel) k) as [c|] eqn:Ec.
    + destruct (Hin k c Ec) as (final & Hf & Hg'). exists final. split_and!; [done|done|].
      exact (proj2 (outcome_not_older _ _ _ _ _ Hoc Hf (Hpos _ _ Ec)) r Hg).
    + exists r. split_and!; [done|by rewrite Hout|]. by apply older_eq_refl, pos_nonempty.
  - eapply Forall_impl; [exact Hsup|]. intros r (k & c & Hk & Hg & Hold & _).
    destruct (Hin k c Hg) as (final & Hf & Hg'). exists k, final. split_and!; [done|done|].
    eapply older_eq_trans; [by apply Hold|].
    exact (proj1 (outcome_not_older _ _ _ _ _ Hoc Hf (Hpos _ _ Hg))).
Qed.

End current_state_properties.

(** ** Reruns *)

Section reruns.
Context `{PyRuntime}.

(** A step on a row that the incoming row already describes changes nothing. *)
Lemma rerun_step oc policy s k c cur :
  dget (as_rows_by_key s) k = Some cur ->
  payload_eqb c cur = true \/
  (oc <> [] /\ payload_eqb c cur = false /\
   compare_source_order (pos oc c) (pos oc cur) = Ok SO_STALE /\
   has_position oc c /\ has_position oc cur /\ cs_stale_record_action policy <> STALE_ERROR) ->
  exists s', apply_step oc policy s (k, c) = Ok s' /\
    as_rows_by_key s' = as_rows_by_key s /\ as_inserted s' = as_inserted s /\
    as_updated s' = as_updated s.
Proof.
  intros Hg Hcase. unfold apply_step. rewrite Hg. destruct Hcase as [->|(Hoc & -> & Hst & Hp1 & Hp2 & Ha)].
  { eexists. split; [done|]. done. }
  unfold compare_rows, _position. rewrite !(bool_decide_false (oc = [])) by done. destruct Hp1 as [?|Hp1], Hp2 as [?|Hp2]; try done.
  unfold pos in *. rewrite Hp1, Hp2. simpl. unfold _compare_positions. rewrite Hst. simpl.
  rewrite bool_decide_false by done. eexists. split; [done|]. done.
Qed.

Lemma rerun_loop oc policy sel s0 :
  (forall k c, (k, c) ∈ sel -> exists cur, dget (as_rows_by_key s0) k = Some cur /\
    (payload_eqb c cur = true \/
     (oc <> [] /\ payload_eqb c cur = false /\
      compare_source_order (pos oc c) (pos oc cur) = Ok SO_STALE /\
      has_position oc c /\ has_position oc cur /\ cs_stale_record_action policy <> STALE_ERROR))) ->
  exists s, foldM (apply_step oc policy) s0 sel = Ok s /\
    as_rows_by_key s = as_rows_by_key s0 /\ as_inserted s = as_inserted s0 /\
    as_updated s = as_updated s0.
Proof.
  revert s0. induction sel as [|[k c] sel IH]; intros s0 Hall; simpl; [by exists s0|].
  destruct (Hall k c ltac:(left)) as (cur & Hg & Hcase).
  destruct (rerun_step oc policy s0 k c cur Hg Hcase) as (s1 & -> & Hd & Hi & Hu).
  destruct (IH s1) as (s & Hs & Hd' & Hi' & Hu').
  { intros k' c' Hin. rewrite Hd. apply Hall. by right. }
  exists s. split_and!; [done|congruence..].
Qed.

Lemma row_update_same_columns (cur c : row) : dom cur ⊆ dom c -> row_update cur c = c.
Proof.
  intros Hd. unfold row_update. apply map_eq. intros i. rewrite lookup_union.
  destruct (c !! i) as [v|] eqn:E; [by destruct (cur !! i)|].
  apply not_elem_of_dom in E. assert (i ∉ dom cur) as ->%not_elem_of_dom by set_solver. done.
Qed.

End reruns.

Section rerun_properties.
Context `{PyRuntime}.

(** Exact reruns: when the rows of the target carry no column that the incoming rows lack,
    applying the same batch to its result inserts and updates nothing and keeps the rows. *)
Theorem current_state_rerun E I mk oc pol res :
  apply_ordered_current_state E I mk oc pol = Ok res ->
  Forall (fun e => Forall (fun c => dom e ⊆ dom c) I) E ->
  exists res', apply_ordered_current_state (csr_rows res) I mk oc pol = Ok res' /\
    mc_inserted (csr_mutations res') = 0 /\ mc_updated (csr_mutations res') = 0 /\
    csr_rows res' ≡ₚ csr_rows res.
Proof.
  intros Happ Hdom. destruct (apply_Ok _ _ _ _ _ _ Happ) as (_ & _ & _ & Hmk & Hnd & Hnd' & _).
  destruct (apply_final _ _ _ _ _ _ Happ) as (d & sel & d' & Hd & Hsel & Hwf & Hwf' & Hrows & Hin & Hout & _).
  pose proof (apply_final_keyed _ _ _ _ _ _ _ _ Hd Hsel Hwf' Hin Hout) as Hkeyed.
  destruct (index_existing_Ok _ _ _ _ Hd) as (_ & Hsnd & _).
  destruct (select_spec _ _ _ _ Hsel) as (Hswf & Hsok & _ & _).
  destruct (index_by_reindex (fun r => _key r mk)
    (Exn "ValueError" "existing target contains duplicate key")
    (fun _ r => _ ← _position r oc; Ok tt) d' (csr_rows res)) as (d2 & Hd2 & Hwf2 & Hdeq); [done|done| |].
  { eapply Forall_impl; [exact Hkeyed|]. intros [k r] (Hp & k' & Hk' & Hkk). exists k'.
    split_and!; [done|done|]. apply position_Ok in Hp as [p ->]. done. }
  destruct (rerun_loop oc (default default_CurrentStateApplyPolicy pol)
    (sort_on (fun kv => repr_key kv.1) (sel_selected sel))
    {| as_rows_by_key := d2; as_inserted := 0; as_updated := 0; as_stale_ignored := 0;
       as_duplicate_ignored := sel_duplicate_ignored sel |}) as (s & Hs & Hrk & Hi & Hu).
  { intros k c Hkc. simpl. rewrite elem_of_sort_on in Hkc.
    destruct (Hin k c (dwf_elem _ _ _ Hswf Hkc)) as (r & Hr & Hg). exists r.
    split; [by rewrite Hdeq|].
    rewrite Forall_forall in Hsok. destruct (Hsok _ Hkc) as (HcI & Hpc & _). simpl in HcI, Hpc.
    assert (forall e, dget d k = Some e -> dom e ⊆ dom c /\ has_position oc e) as He.
    { intros e (k' & _ & He)%dget_Some_elem. split.
      - rewrite Forall_forall in Hdom. assert (e ∈ E) as HeE.
        { rewrite <-Hsnd. apply list_elem_of_fmap. by exists (k', e). }
        specialize (Hdom _ HeE). rewrite Forall_forall in Hdom. by apply Hdom.
      - destruct (index_existing_Ok _ _ _ _ Hd) as (_ & _ & Hkd).
        unfold keyed in Hkd. rewrite Forall_forall in Hkd. exact (proj1 (Hkd _ He)). }
    remember (dget d k) as cur eqn:Ecur.
    destruct Hr as [c|cur c Heq|cur c _ _|cur c ? ? ? ?|cur c _ _].
    - left. apply payload_eqb_refl.
    - by left.
    - left. rewrite row_update_same_columns by (by apply He). apply payload_eqb_refl.
    - right. split_and!; try done. by apply He.
    - left. rewrite row_update_same_columns by (by apply He). apply payload_eqb_refl. }
  unfold apply_ordered_current_state, index_existing.
  rewrite bool_decide_false, !bool_decide_true by done. simpl. rewrite Hd2. simpl.
  rewrite Hsel. simpl. rewrite Hs. simpl. eexists. split; [done|]. simpl in *.
  split_and!; [done|done|]. rewrite Hrk, sorted_values_perm.
  destruct (index_by_spec _ _ _ _ _ Hd2) as (_ & -> & _). done.
Qed.

End rerun_properties.

(** Witnesses: one stale, one newer and one new row. *)
Definition demo_existing : list row :=
  [{[ "id" := VInt 1; "v" := VInt 10; "seq" := VInt 5 ]};
   {[ "id" := VInt 2; "v" := VInt 20; "seq" := VInt 5 ]}].
Definition demo_incoming : list row :=
  [{[ "id" := VInt 1; "v" := VInt 11; "seq" := VInt 7 ]};
   {[ "id" := VInt 2; "v" := VInt 19; "seq" := VInt 4 ]};
   {[ "id" := VInt 3; "v" := VInt 30; "seq" := VInt 1 ]}].
Definition demo_apply : CurrentStateApplyResult :=
  match @apply_ordered_current_state demo_runtime demo_existing demo_incoming ["id"] ["seq"] None with
  | Ok r => r
  | Raise _ => {| csr_rows := []; csr_mutations := {| mc_inserted := 0; mc_updated := 0; mc_deleted := 0 |};
      csr_stale_ignored := 0; csr_duplicate_ignored := 0; csr_incoming_superseded := 0 |}
  end.

Lemma current_state_accounting_witness :
  csr_stale_ignored demo_apply = 1 /\
  mc_inserted (csr_mutations demo_apply) + mc_updated (csr_mutations demo_apply)
    + csr_stale_ignored demo_apply + csr_duplicate_ignored demo_apply
    + csr_incoming_superseded demo_apply = length demo_incoming.
Proof.
  split; [vm_compute; reflexivity|].
  apply (@current_state_accounting demo_runtime demo_existing demo_incoming ["id"] ["seq"] None).
  vm_compute; reflexivity.
Defined.

Lemma current_state_latest_wins_witness :
  exists d', dwf d' /\ csr_rows demo_apply ≡ₚ map snd d' /\
    Forall (fun r => exists k final, _key r ["id"] = Ok k /\ dget d' k = Some final /\
      older_eq (pos ["seq"] r) (pos ["seq"] final)) (demo_existing ++ demo_incoming).
Proof.
  apply (@current_state_latest_wins demo_runtime demo_existing demo_incoming ["id"] ["seq"] None).
  - vm_compute; reflexivity.
  - discriminate.
Defined.

Lemma current_state_rerun_witness :
  exists res', @apply_ordered_current_state demo_runtime (csr_rows demo_apply) demo_incoming
      ["id"] ["seq"] None = Ok res' /\
    mc_inserted (csr_mutations res') = 0 /\ mc_updated (csr_mutations res') = 0 /\
    csr_rows res' ≡ₚ csr_rows demo_apply.
Proof.
  apply (@current_state_rerun demo_runtime demo_existing demo_incoming ["id"] ["seq"] None).
  - vm_compute; reflexivity.
  - apply (bool_decide_unpack _). vm_compute. exact I.
Defined.

(** A target row with an enrichment column of its own. *)
Definition enriched_existing : list row :=
  [{[ "id" := VInt 1; "v" := VInt 10; "seq" := VInt 5; "segment" := VStr "A" ]}].
Definition enriched_incoming : list row :=
  [{[ "id" := VInt 1; "v" := VInt 11; "seq" := VInt 7 ]}].
Definition enriched_rows : list row :=
  match @apply_upsert demo_runtime enriched_existing enriched_incoming ["id"] ["seq"] None with
  | Ok r => csr_rows r
  | Raise _ => []
  end.

(** C12. The hypothesis of [current_state_rerun] is needed: the merge keeps target-only columns, so
    the exact rerun of a successful batch over an enriched target compares a row that differs at an
    equal source position and raises a conflict. *)
Theorem enriched_rerun_conflicts :
  (csr_rows <$> @apply_upsert demo_runtime enriched_existing enriched_incoming ["id"] ["seq"] None)
    = Ok enriched_rows /\
  enriched_rows =
    [{[ "id" := VInt 1; "v" := VInt 11; "seq" := VInt 7; "segment" := VStr "A" ]}] /\
  @apply_upsert demo_runtime enriched_rows enriched_incoming ["id"] ["seq"] None =
    raise "CurrentStateConflictError" "conflicting row at equal position".
Proof. split_and!; vm_compute; reflexivity. Qed.
