(* ===== verification/ConfigTypes.v ===== *)
(** * Dataset metadata: enumerations, records and their validators
    ([metadata/config.py], [contracts/current_projection.py], [contracts/schema.py])

    A Pydantic model is a record together with a [validate_*] function: the bounds of its
    fields, then the body of its [model_validator].  String fields hold the value after
    [str_strip_whitespace]. *)

From stdpp Require Import base gmap strings list.
From Stdlib Require Import QArith.
From S2P Require Import Prelude PyValue.
#[local] Close Scope Q_scope.
#[local] Open Scope Z_scope.

Inductive CaptureStrategy := CS_FULL | CS_WATERMARK | CS_CDC | CS_MIRROR | CS_STREAM | CS_SNAPSHOT | CS_PROJECTION.
Inductive ApplyStrategy := AS_APPEND | AS_REPLACE | AS_UPSERT | AS_SCD1 | AS_SCD2 | AS_SNAPSHOT_DIFF | AS_CURRENT_PROJECTION.
Inductive RunMode := RM_NORMAL | RM_RETRY | RM_BACKFILL | RM_REPLAY | RM_FULL_REBUILD.
Inductive DatasetStatus := DS_PENDING | DS_RUNNING | DS_SUCCEEDED | DS_FAILED | DS_QUARANTINED | DS_SKIPPED | DS_BLOCKED | DS_CANCELLED.
Inductive PipelineStatus := PS_RUNNING | PS_SUCCESS | PS_PARTIAL_SUCCESS | PS_FAILED.
Inductive Criticality := CR_LOW | CR_MEDIUM | CR_HIGH | CR_CRITICAL.
Inductive ExecutionEngine := EE_AUTO | EE_FABRIC_COPY_JOB | EE_FABRIC_COPY_ACTIVITY | EE_DATAFLOW_GEN2 | EE_SPARK | EE_FABRIC_MIRRORING | EE_EXTERNAL_CDC | EE_SQL | EE_CUSTOM.
Inductive ProgressOwner := PO_FRAMEWORK | PO_FABRIC_NATIVE | PO_EXTERNAL.
Inductive QuarantineDetailMode := QD_FULL | QD_REFERENCE_ONLY.
Inductive ReconciliationSeverity := SEV_ERROR | SEV_WARNING.
Inductive ReconciliationCheckKind := RK_ROW_COUNT_MATCH | RK_UNIQUE_KEY | RK_NULL_RATE | RK_AGGREGATE_MATCH | RK_CHECKSUM_MATCH | RK_CUSTOM.
Inductive ReconciliationAggregate := RA_SUM | RA_MIN | RA_MAX.
Inductive CurrentProjectionMode := CPM_VIEW | CPM_MATERIALIZED | CPM_DELTA_PROJECTION.
Inductive MaterializedCurrentImplementation := MCI_AUTO | MCI_FABRIC_MATERIALIZED_LAKE_VIEW | MCI_DELTA_TABLE_REFRESH.

#[export] Instance CaptureStrategy_eq_dec : EqDecision CaptureStrategy. Proof. solve_decision. Defined.
#[export] Instance ApplyStrategy_eq_dec : EqDecision ApplyStrategy. Proof. solve_decision. Defined.
#[export] Instance RunMode_eq_dec : EqDecision RunMode. Proof. solve_decision. Defined.
#[export] Instance DatasetStatus_eq_dec : EqDecision DatasetStatus. Proof. solve_decision. Defined.
#[export] Instance PipelineStatus_eq_dec : EqDecision PipelineStatus. Proof. solve_decision. Defined.
#[export] Instance Criticality_eq_dec : EqDecision Criticality. Proof. solve_decision. Defined.
#[export] Instance ExecutionEngine_eq_dec : EqDecision ExecutionEngine. Proof. solve_decision. Defined.
#[export] Instance ProgressOwner_eq_dec : EqDecision ProgressOwner. Proof. solve_decision. Defined.
#[export] Instance QuarantineDetailMode_eq_dec : EqDecision QuarantineDetailMode. Proof. solve_decision. Defined.
#[export] Instance ReconciliationSeverity_eq_dec : EqDecision ReconciliationSeverity. Proof. solve_decision. Defined.
#[export] Instance ReconciliationCheckKind_eq_dec : EqDecision ReconciliationCheckKind. Proof. solve_decision. Defined.
#[export] Instance ReconciliationAggregate_eq_dec : EqDecision ReconciliationAggregate. Proof. solve_decision. Defined.
#[export] Instance CurrentProjectionMode_eq_dec : EqDecision CurrentProjectionMode. Proof. solve_decision. Defined.
#[export] Instance MaterializedCurrentImplementation_eq_dec : EqDecision MaterializedCurrentImplementation. Proof. solve_decision. Defined.

Definition nonempty (s : string) : bool := negb (String.eqb s "").
Definition unique {A} `{EqDecision A} (l : list A) : bool := bool_decide (NoDup l).
Definition is_some {A} (o : option A) : bool := match o with Some _ => true | None => false end.
Definition bad_field {A} : res A := raise "ValidationError" "field constraint".

Definition in_range (c : Ascii.ascii) (lo hi : nat) : bool :=
  let n := Ascii.nat_of_ascii c in (lo <=? n)%nat && (n <=? hi)%nat.
Definition is_lower_hex (c : Ascii.ascii) : bool := in_range c 48 57 || in_range c 97 102.
Definition is_hex (c : Ascii.ascii) : bool := is_lower_hex c || in_range c 65 70.

(** The pattern [^[class]{lo,hi}$] *)
Definition matches_class (class : Ascii.ascii -> bool) (lo hi : nat) (s : string) : bool :=
  forallb class (String.list_ascii_of_string s) && (lo <=? String.length s)%nat && (String.length s <=? hi)%nat.

Definition within (limit : nat) (o : option string) : bool :=
  match o with Some s => (String.length s <=? limit)%nat | None => true end.

(** ** [contracts/schema.py] *)

Inductive SchemaCompatibilityPolicy := SC_EXACT | SC_ADDITIVE_ONLY | SC_SAFE_EVOLUTION.
Inductive LogicalType := LT_BOOLEAN | LT_INT32 | LT_INT64 | LT_FLOAT32 | LT_FLOAT64 | LT_DECIMAL | LT_STRING | LT_DATE | LT_TIMESTAMP | LT_BINARY | LT_JSON.
#[export] Instance SchemaCompatibilityPolicy_eq_dec : EqDecision SchemaCompatibilityPolicy. Proof. solve_decision. Defined.
#[export] Instance LogicalType_eq_dec : EqDecision LogicalType. Proof. solve_decision. Defined.

Record SchemaField := {
  sf_name : string;
  sf_logical_type : LogicalType;
  sf_nullable : bool;
  sf_precision : option Z;
  sf_scale : option Z;
  sf_max_length : option Z
}.
#[export] Instance SchemaField_eq_dec : EqDecision SchemaField. Proof. solve_decision. Defined.

Definition validate_type_parameters (f : SchemaField) : res unit :=
  if negb (nonempty (sf_name f)) || (default 1 (sf_precision f) <=? 0)
     || (default 0 (sf_scale f) <? 0) || (default 1 (sf_max_length f) <=? 0) then bad_field
  else
    _ ← (if bool_decide (sf_logical_type f = LT_DECIMAL) then
           match sf_precision f, sf_scale f with
           | Some precision, Some scale =>
             if scale >? precision then raise "ValueError" "DECIMAL scale cannot exceed precision"
             else Ok tt
           | _, _ => raise "ValueError" "DECIMAL requires precision and scale"
           end
         else if is_some (sf_precision f) || is_some (sf_scale f) then
           raise "ValueError" "precision/scale are only valid for DECIMAL"
         else Ok tt);
    if negb (bool_decide (sf_logical_type f = LT_STRING)) && is_some (sf_max_length f) then
      raise "ValueError" "max_length is only valid for STRING"
    else Ok tt.

Record SchemaContract := {
  sch_fields : list SchemaField;
  sch_contract_version : Z;
  sch_compatibility_policy : SchemaCompatibilityPolicy
}.

Definition validate_fields (s : SchemaContract) : res unit :=
  if bool_decide (sch_fields s = []) || (sch_contract_version s <? 1) then bad_field
  else if negb (unique (map sf_name (sch_fields s))) then
    raise "ValueError" "schema field names must be unique"
  else Ok tt.

(** ** [contracts/current_projection.py] *)

Record CurrentProjectionConfig := {
  cpc_authoritative_history_dataset_id : string;
  cpc_mode : CurrentProjectionMode;
  cpc_history_current_flag_column : string;
  cpc_materialized_implementation : MaterializedCurrentImplementation;
  cpc_lag_warning_versions : Z;
  cpc_lag_error_versions : option Z
}.

Definition validate_projection (c : CurrentProjectionConfig) : res unit :=
  if negb (nonempty (cpc_authoritative_history_dataset_id c))
     || negb (nonempty (cpc_history_current_flag_column c))
     || (cpc_lag_warning_versions c <? 0) || (default 0 (cpc_lag_error_versions c) <? 0) then bad_field
  else if negb (String.eqb (cpc_history_current_flag_column c) "_framework_is_current") then
    raise "ValueError" "current projections must use '_framework_is_current'"
  else if negb (bool_decide (cpc_mode c = CPM_MATERIALIZED))
          && negb (bool_decide (cpc_materialized_implementation c = MCI_AUTO)) then
    raise "ValueError" "materialized_implementation is only valid for MATERIALIZED"
  else match cpc_lag_error_versions c with
       | Some err => if err <? cpc_lag_warning_versions c then
                       raise "ValueError" "lag_error_versions cannot be less than lag_warning_versions"
                     else Ok tt
       | None => Ok tt
       end.

(** ** [metadata/config.py] *)

Record SourceConfig := { src_system : string; src_object : string; src_connection_ref : option string }.
Record TargetConfig := { tgt_layer : string; tgt_object : string }.

Record WatermarkConfig := {
  wm_column : string;
  wm_tie_breaker : list string;
  wm_overlap_window_seconds : Z
}.

Definition validate_tie_breaker (w : WatermarkConfig) : res unit :=
  if negb (nonempty (wm_column w)) || (wm_overlap_window_seconds w <? 0) then bad_field
  else if negb (unique (wm_tie_breaker w)) then
    raise "ValueError" "watermark tie_breaker columns must be unique"
  else if bool_decide (wm_column w ∈ wm_tie_breaker w) then
    raise "ValueError" "watermark column must not also be a tie_breaker column"
  else Ok tt.

Definition _STATEFUL_APPLY : list ApplyStrategy :=
  [AS_UPSERT; AS_SCD1; AS_SCD2; AS_SNAPSHOT_DIFF; AS_CURRENT_PROJECTION].

Record LoadPolicy := {
  lp_capture_strategy : CaptureStrategy;
  lp_apply_strategy : ApplyStrategy;
  lp_business_key : list string;
  lp_merge_key : list string;
  lp_append_identity : list string;
  lp_watermark : option WatermarkConfig;
  lp_event_time_column : option string;
  lp_version_column : option string;
  lp_sequence_column : option string;
  lp_tracked_columns : list string;
  lp_delete_policy : string
}.

Definition ordering_columns (lp : LoadPolicy) : list string :=
  omap id [lp_event_time_column lp; lp_version_column lp; lp_sequence_column lp].

(** The watermark part of [validate_load_policy]. *)
Definition validate_watermark (lp : LoadPolicy) : res unit :=
  match lp_capture_strategy lp, lp_watermark lp with
  | CS_WATERMARK, None => raise "ValueError" "WATERMARK capture requires watermark configuration"
  | CS_WATERMARK, Some w =>
    if bool_decide (wm_tie_breaker w = []) && (wm_overlap_window_seconds w =? 0) then
      raise "ValueError" "WATERMARK capture requires a tie_breaker or a positive overlap window"
    else Ok tt
  | _, Some _ => raise "ValueError" "watermark configuration is only valid for WATERMARK capture"
  | _, None => Ok tt
  end.

(** The CURRENT_PROJECTION part of [validate_load_policy]. *)
Definition validate_projection_load (lp : LoadPolicy) : res unit :=
  if bool_decide (lp_apply_strategy lp = AS_CURRENT_PROJECTION) then
    if negb (bool_decide (lp_capture_strategy lp = CS_PROJECTION)) then
      raise "ValueError" "CURRENT_PROJECTION requires PROJECTION capture"
    else if bool_decide (lp_business_key lp = []) then
      raise "ValueError" "CURRENT_PROJECTION requires business_key"
    else if negb (bool_decide (lp_merge_key lp = lp_business_key lp)) then
      raise "ValueError" "CURRENT_PROJECTION merge_key must equal business_key"
    else if negb (bool_decide (lp_tracked_columns lp = [])) then
      raise "ValueError" "CURRENT_PROJECTION does not accept tracked_columns"
    else if negb (bool_decide (ordering_columns lp = [])) then
      raise "ValueError" "CURRENT_PROJECTION does not accept source ordering columns"
    else if negb (String.eqb (lp_delete_policy lp) "DERIVE_FROM_HISTORY") then
      raise "ValueError" "CURRENT_PROJECTION delete_policy must be DERIVE_FROM_HISTORY"
    else Ok tt
  else if bool_decide (lp_capture_strategy lp = CS_PROJECTION) then
    raise "ValueError" "PROJECTION capture is only valid for CURRENT_PROJECTION apply"
  else Ok tt.

Definition validate_load_policy (lp : LoadPolicy) : res unit :=
  if negb (unique (lp_business_key lp)) then raise "ValueError" "business_key columns must be unique"
  else if negb (unique (lp_merge_key lp)) then raise "ValueError" "merge_key columns must be unique"
  else if negb (unique (lp_append_identity lp)) then
    raise "ValueError" "append_identity columns must be unique"
  else if negb (unique (lp_tracked_columns lp)) then
    raise "ValueError" "tracked_columns columns must be unique"
  else if negb (unique (ordering_columns lp)) then
    raise "ValueError" "event/version/sequence ordering columns must be unique"
  else
    _ ← validate_watermark lp;
    if bool_decide (lp_apply_strategy lp ∈ _STATEFUL_APPLY) && bool_decide (lp_merge_key lp = []) then
      raise "ValueError" "apply requires merge_key"
    else if bool_decide (lp_apply_strategy lp = AS_SCD2) && bool_decide (lp_business_key lp = []) then
      raise "ValueError" "SCD2 apply requires business_key"
    else if bool_decide (lp_apply_strategy lp = AS_SCD2)
            && negb (bool_decide (lp_merge_key lp = lp_business_key lp)) then
      raise "ValueError" "SCD2 merge_key must equal business_key"
    else
      _ ← validate_projection_load lp;
      if bool_decide (lp_apply_strategy lp = AS_APPEND) && bool_decide (lp_append_identity lp = []) then
        raise "ValueError" "APPEND apply requires append_identity"
      else Ok tt.

Record OrchestrationPolicy := {
  op_execution_group : string;
  op_criticality : Criticality;
  op_dependencies : list string;
  op_priority : Z;
  op_retry_count : Z;
  op_timeout_seconds : Z;
  op_batch_size : Z;
  op_max_concurrency : Z
}.

Definition validate_dependencies (o : OrchestrationPolicy) : res unit :=
  if negb (nonempty (op_execution_group o)) || (op_priority o <? 0) || (op_retry_count o <? 0)
     || (op_timeout_seconds o <=? 0) || (op_batch_size o <=? 0) || (op_max_concurrency o <=? 0)
  then bad_field
  else if negb (unique (op_dependencies o)) then raise "ValueError" "dependencies must be unique"
  else Ok tt.

Record DataQualityPolicy := {
  dq_policy_name : string;
  dq_quarantine_policy : string;
  dq_enabled : bool;
  dq_quarantine_enabled : bool;
  dq_quarantine_detail_mode : QuarantineDetailMode;
  dq_max_quarantine_rows : option Z;
  dq_max_quarantine_fraction : option Q
}.

Record ReconciliationCheck := {
  rc_check_id : string;
  rc_kind : ReconciliationCheckKind;
  rc_severity : ReconciliationSeverity;
  rc_partition_by : list string;
  rc_columns : list string;
  rc_column : option string;
  rc_aggregate : option ReconciliationAggregate;
  rc_absolute_tolerance : Q;
  rc_relative_tolerance : Q;
  rc_max_count : option Z;
  rc_max_fraction : option Q;
  rc_extension : option string
}.

(** [if tolerance:] on a float *)
Definition truthy_float (q : Q) : bool := negb (Qeq_bool q 0).

Definition has_tolerance (c : ReconciliationCheck) : bool :=
  truthy_float (rc_absolute_tolerance c) || truthy_float (rc_relative_tolerance c).

Definition validate_check (c : ReconciliationCheck) : res unit :=
  let columns := negb (bool_decide (rc_columns c = [])) in
  let column := is_some (rc_column c) in
  let aggregate := is_some (rc_aggregate c) in
  let max_count := is_some (rc_max_count c) in
  let max_fraction := is_some (rc_max_fraction c) in
  let extension := is_some (rc_extension c) in
  if negb (unique (rc_partition_by c)) then
    raise "ValueError" "reconciliation partition_by columns must be unique"
  else if negb (unique (rc_columns c)) then
    raise "ValueError" "reconciliation check columns must be unique"
  else match rc_kind c with
  | RK_ROW_COUNT_MATCH =>
    if column || aggregate || max_count || max_fraction || extension || columns then
      raise "ValueError" "ROW_COUNT_MATCH accepts only partition/tolerance settings" else Ok tt
  | RK_UNIQUE_KEY =>
    if negb columns || negb max_count then
      raise "ValueError" "UNIQUE_KEY requires columns and max_count"
    else if column || aggregate || max_fraction || extension || has_tolerance c then
      raise "ValueError" "UNIQUE_KEY accepts columns/max_count/partition settings only" else Ok tt
  | RK_NULL_RATE =>
    if negb column || negb max_fraction then
      raise "ValueError" "NULL_RATE requires column and max_fraction"
    else if columns || aggregate || max_count || extension || has_tolerance c then
      raise "ValueError" "NULL_RATE accepts column/max_fraction/partition settings only" else Ok tt
  | RK_AGGREGATE_MATCH =>
    if negb column || negb aggregate then
      raise "ValueError" "AGGREGATE_MATCH requires column and aggregate"
    else if columns || max_count || max_fraction || extension then
      raise "ValueError" "AGGREGATE_MATCH does not accept key/threshold/extension settings" else Ok tt
  | RK_CHECKSUM_MATCH =>
    if negb columns then raise "ValueError" "CHECKSUM_MATCH requires columns"
    else if column || aggregate || max_count || max_fraction || extension || has_tolerance c then
      raise "ValueError" "CHECKSUM_MATCH accepts columns/partition settings only" else Ok tt
  | RK_CUSTOM =>
    if negb extension then raise "ValueError" "CUSTOM reconciliation check requires extension"
    else if columns || column || aggregate || max_count || max_fraction || has_tolerance c then
      raise "ValueError" "CUSTOM reconciliation check delegates typed observation semantics" else Ok tt
  end.

Record ReconciliationPolicy := {
  rpol_policy_name : string;
  rpol_required_for_state_commit : bool;
  rpol_include_row_accounting : bool;
  rpol_checks : list ReconciliationCheck
}.

Definition validate_checks (p : ReconciliationPolicy) : res unit :=
  if negb (unique (map rc_check_id (rpol_checks p))) then
    raise "ValueError" "reconciliation check_id values must be unique"
  else Ok tt.

Record ExecutionPolicy := {
  ep_engine : ExecutionEngine;
  ep_progress_owner : ProgressOwner;
  ep_capability_profile : option string;
  ep_apply_engine : ExecutionEngine;
  ep_apply_capability_profile : option string
}.

Record ExtensionConfig := {
  ext_capture : option string;
  ext_parser : option string;
  ext_transform : option string;
  ext_quality : option string;
  ext_apply : option string
}.

Record DatasetConfig := {
  dc_dataset_id : string;
  dc_source : SourceConfig;
  dc_target : TargetConfig;
  dc_load : LoadPolicy;
  dc_orchestration : OrchestrationPolicy;
  dc_quality : DataQualityPolicy;
  dc_reconciliation : ReconciliationPolicy;
  dc_schema_contract : option SchemaContract;
  dc_current_projection : option CurrentProjectionConfig;
  dc_execution : ExecutionPolicy;
  dc_extensions : ExtensionConfig;
  dc_enabled : bool;
  dc_config_schema_version : Z
}.

(** [not value] on an optional string *)
Definition falsy_string (o : option string) : bool :=
  match o with Some s => negb (nonempty s) | None => true end.

Definition validate_dataset (c : DatasetConfig) : res unit :=
  if bool_decide (dc_dataset_id c ∈ op_dependencies (dc_orchestration c)) then
    raise "ValueError" "dataset must not depend on itself"
  else if bool_decide (ep_engine (dc_execution c) = EE_CUSTOM)
          && falsy_string (ext_capture (dc_extensions c)) then
    raise "ValueError" "CUSTOM execution requires extensions.capture"
  else if bool_decide (ep_apply_engine (dc_execution c) = EE_CUSTOM)
          && falsy_string (ext_apply (dc_extensions c)) then
    raise "ValueError" "CUSTOM apply execution requires extensions.apply"
  else if bool_decide (lp_apply_strategy (dc_load c) = AS_CURRENT_PROJECTION) then
    match dc_current_projection c, dc_schema_contract c with
    | None, _ => raise "ValueError" "CURRENT_PROJECTION requires current_projection configuration"
    | _, None => raise "ValueError" "CURRENT_PROJECTION requires an explicit schema_contract"
    | Some p, Some _ =>
      if negb (bool_decide (cpc_authoritative_history_dataset_id p
                              ∈ op_dependencies (dc_orchestration c))) then
        raise "ValueError" "CURRENT_PROJECTION must depend on authoritative_history_dataset_id"
      else Ok tt
    end
  else if is_some (dc_current_projection c) then
    raise "ValueError" "current_projection configuration is only valid for CURRENT_PROJECTION apply"
  else Ok tt.
