(* ===== verification/SchemaEvolution.v ===== *)
(** * Schema evolution ([quality/schema_evolution.py], [contracts/schema.py])

    An observed schema is compared with the contract, field by field.  The decision is
    characterised per policy, and a compatible schema admits every row that conforms to the
    contract. *)

From stdpp Require Import base gmap strings list sorting pretty.
From Stdlib Require Import QArith.
From S2P Require Import Prelude PyValue ConfigTypes.
Close Scope Q_scope.
#[local] Open Scope Z_scope.

(** ** Definitions *)

(** [SchemaShape.fields], validated as [SchemaShape] and [SchemaField] do. *)
Definition SchemaShape : Type := list SchemaField.

Definition make_SchemaShape (fields : list SchemaField) : res SchemaShape :=
  _ ← mapM_res validate_type_parameters fields;
  if bool_decide (fields = []) then bad_field
  else if negb (unique (map sf_name fields)) then raise "ValueError" "schema field names must be unique"
  else Ok fields.

(** [logical_type.value], [compatibility_policy.value] *)
Definition type_text (t : LogicalType) : string :=
  match t with
  | LT_BOOLEAN => "BOOLEAN" | LT_INT32 => "INT32" | LT_INT64 => "INT64" | LT_FLOAT32 => "FLOAT32"
  | LT_FLOAT64 => "FLOAT64" | LT_DECIMAL => "DECIMAL" | LT_STRING => "STRING" | LT_DATE => "DATE"
  | LT_TIMESTAMP => "TIMESTAMP" | LT_BINARY => "BINARY" | LT_JSON => "JSON"
  end.
Definition policy_text (p : SchemaCompatibilityPolicy) : string :=
  match p with SC_EXACT => "EXACT" | SC_ADDITIVE_ONLY => "ADDITIVE_ONLY" | SC_SAFE_EVOLUTION => "SAFE_EVOLUTION" end.

(** [SchemaField.canonical_definition], [SchemaShape.canonical_definition] *)
Definition int_or_none (o : option Z) : value := match o with Some z => VInt z | None => VNone end.
Definition field_definition (f : SchemaField) : value :=
  VDict [("name", VStr (sf_name f)); ("logical_type", VStr (type_text (sf_logical_type f)));
         ("nullable", VBool (sf_nullable f)); ("precision", int_or_none (sf_precision f));
         ("scale", int_or_none (sf_scale f)); ("max_length", int_or_none (sf_max_length f))].
Definition canonical_definition (fields : SchemaShape) : value :=
  VList (map field_definition (sort_on sf_name fields)).
Definition persisted_definition (c : SchemaContract) : value :=
  VDict [("contract_version", VInt (sch_contract_version c));
         ("compatibility_policy", VStr (policy_text (sch_compatibility_policy c)));
         ("fields", canonical_definition (sch_fields c))].

Inductive SchemaEvolutionClassification := SE_NO_CHANGE | SE_COMPATIBLE | SE_BREAKING.
#[export] Instance SchemaEvolutionClassification_eq_dec : EqDecision SchemaEvolutionClassification.
Proof. solve_decision. Defined.

Inductive SchemaChangeKind :=
| FIELD_ADDED | FIELD_REMOVED | TYPE_WIDENED | TYPE_CHANGED | NULLABILITY_RELAXED | NULLABILITY_TIGHTENED.
#[export] Instance SchemaChangeKind_eq_dec : EqDecision SchemaChangeKind.
Proof. solve_decision. Defined.

Record SchemaFieldChange := {
  sc_field_name : string;
  sc_kind : SchemaChangeKind;
  sc_intrinsically_safe : bool;
  sc_detail : string
}.

Record SchemaEvolutionDecision := {
  sd_classification : SchemaEvolutionClassification;
  sd_policy : SchemaCompatibilityPolicy;
  sd_expected_fingerprint : string;
  sd_observed_fingerprint : string;
  sd_changes : list SchemaFieldChange
}.

Definition compatible (d : SchemaEvolutionDecision) : bool :=
  negb (bool_decide (sd_classification d = SE_BREAKING)).

Definition optional_text (o : option Z) : string := match o with Some z => pretty z | None => "None" end.
Definition decimal_text (precision scale : Z) : string :=
  "DECIMAL(" +:+ pretty precision +:+ "," +:+ pretty scale +:+ ")".

(** Whether the type may change, and the text of the change.  The [assert]s of the [DECIMAL] case
    hold for validated fields. *)
Definition _safe_type_transition (expected observed : SchemaField) : res (bool * string) :=
  if negb (bool_decide (sf_logical_type expected = sf_logical_type observed)) then
    Ok (bool_decide ((sf_logical_type expected, sf_logical_type observed) ∈
                     [(LT_INT32, LT_INT64); (LT_FLOAT32, LT_FLOAT64)]),
        type_text (sf_logical_type expected) +:+ "->" +:+ type_text (sf_logical_type observed))
  else
    match sf_logical_type expected with
    | LT_STRING =>
      let before := sf_max_length expected in
      let after := sf_max_length observed in
      if bool_decide (before = after) then Ok (true, "unchanged")
      else if match before, after with
              | Some _, None => true
              | Some b, Some a => a >=? b
              | None, _ => false
              end then
        Ok (true, "max_length " +:+ optional_text before +:+ "->" +:+
                  match after with Some a => pretty a | None => "unbounded" end)
      else Ok (false, "max_length " +:+ optional_text before +:+ "->" +:+ optional_text after)
    | LT_DECIMAL =>
      match sf_precision expected, sf_scale expected, sf_precision observed, sf_scale observed with
      | Some p, Some s, Some p', Some s' =>
        if (p =? p') && (s =? s') then Ok (true, "unchanged")
        else
          Ok ((s' =? s) && (p' >=? p), decimal_text p s +:+ "->" +:+ decimal_text p' s')
      | _, _, _, _ => raise "AssertionError" ""
      end
    | _ => Ok (true, "unchanged")
    end.

(** [{field.name: field for field in fields}] *)
Definition by_name (fields : SchemaShape) : gmap string SchemaField :=
  foldl (fun m f => <[sf_name f := f]> m) ∅ fields.

Definition names_in_order (names : gset string) : list string := sort_on id (elements names).

Definition removed_change (name : string) : SchemaFieldChange :=
  {| sc_field_name := name; sc_kind := FIELD_REMOVED; sc_intrinsically_safe := false;
     sc_detail := "expected field is missing from observed schema" |}.

Definition added_change (field : SchemaField) : SchemaFieldChange :=
  {| sc_field_name := sf_name field; sc_kind := FIELD_ADDED; sc_intrinsically_safe := sf_nullable field;
     sc_detail := if sf_nullable field then "new nullable field" else "new required field cannot be backfilled safely" |}.

Definition type_changed (before after : SchemaField) : bool :=
  negb (bool_decide (sf_logical_type before = sf_logical_type after))
  || negb (bool_decide (sf_precision before = sf_precision after))
  || negb (bool_decide (sf_scale before = sf_scale after))
  || negb (bool_decide (sf_max_length before = sf_max_length after)).

(** The changes of a field that both schemas have. *)
Definition field_changes (before after : SchemaField) : res (list SchemaFieldChange) :=
  transition ← _safe_type_transition before after;
  let type_safe : bool := transition.1 in
  let type_detail : string := transition.2 in
  let relaxed := negb (sf_nullable before) && sf_nullable after in
  Ok ((if type_changed before after then
         [{| sc_field_name := sf_name before; sc_kind := if type_safe then TYPE_WIDENED else TYPE_CHANGED;
             sc_intrinsically_safe := type_safe; sc_detail := type_detail |}]
       else []) ++
      (if negb (bool_decide (sf_nullable before = sf_nullable after)) then
         [{| sc_field_name := sf_name before;
             sc_kind := if relaxed then NULLABILITY_RELAXED else NULLABILITY_TIGHTENED;
             sc_intrinsically_safe := relaxed;
             sc_detail := if relaxed then "required->nullable" else "nullable->required" |}]
       else [])).

(** The changes of a name of both schemas. *)
Definition common_changes (expected_by_name observed_by_name : gmap string SchemaField) (name : string) :
    res (list SchemaFieldChange) :=
  match expected_by_name !! name, observed_by_name !! name with
  | Some before, Some after => field_changes before after
  | _, _ => raise "KeyError" "name"
  end.

Definition _raw_changes (expected observed : SchemaShape) : res (list SchemaFieldChange) :=
  let expected_by_name := by_name expected in
  let observed_by_name := by_name observed in
  common ← mapM_res (common_changes expected_by_name observed_by_name)
    (names_in_order (dom expected_by_name ∩ dom observed_by_name));
  Ok (map removed_change (names_in_order (dom expected_by_name ∖ dom observed_by_name)) ++
      omap (fun name => added_change <$> observed_by_name !! name)
        (names_in_order (dom observed_by_name ∖ dom expected_by_name)) ++
      concat common).

Definition _policy_allows (policy : SchemaCompatibilityPolicy) (change : SchemaFieldChange) : bool :=
  match policy with
  | SC_EXACT => false
  | SC_ADDITIVE_ONLY => bool_decide (sc_kind change = FIELD_ADDED) && sc_intrinsically_safe change
  | SC_SAFE_EVOLUTION =>
    sc_intrinsically_safe change && bool_decide (sc_kind change ∈ [FIELD_ADDED; TYPE_WIDENED; NULLABILITY_RELAXED])
  end.

Section decisions.
Context `{PyRuntime}.

Definition fingerprint (fields : SchemaShape) : string := canonical_hash (canonical_definition fields).

Definition classify_schema_evolution (expected : SchemaContract) (observed : SchemaShape) :
    res SchemaEvolutionDecision :=
  changes ← _raw_changes (sch_fields expected) observed;
  let policy := sch_compatibility_policy expected in
  Ok {| sd_classification :=
          if bool_decide (length changes = 0%nat) then SE_NO_CHANGE
          else if forallb (_policy_allows policy) changes then SE_COMPATIBLE
          else SE_BREAKING;
        sd_policy := policy;
        sd_expected_fingerprint := fingerprint (sch_fields expected);
        sd_observed_fingerprint := fingerprint observed;
        sd_changes := changes |}.

Definition require_compatible_schema (expected : SchemaContract) (observed : SchemaShape) :
    res SchemaEvolutionDecision :=
  decision ← classify_schema_evolution expected observed;
  if negb (compatible decision) then raise "ValueError" "observed schema is incompatible"
  else Ok decision.
End decisions.

(** ** Specification *)

(** The values of the observed type include those of the expected one. *)
Definition type_widens (e o : SchemaField) : Prop :=
  match sf_logical_type e, sf_logical_type o with
  | LT_INT32, LT_INT64 | LT_FLOAT32, LT_FLOAT64 => True
  | LT_STRING, LT_STRING =>
    match sf_max_length o with
    | None => True
    | Some after => exists before, sf_max_length e = Some before /\ before <= after
    end
  | LT_DECIMAL, LT_DECIMAL =>
    sf_scale e = sf_scale o /\ exists p p', sf_precision e = Some p /\ sf_precision o = Some p' /\ p <= p'
  | t, t' => t = t'
  end.

Definition widens (e o : SchemaField) : Prop :=
  sf_name e = sf_name o /\ type_widens e o /\ (sf_nullable e = true -> sf_nullable o = true).

(** What a policy admits: the fields of the contract, unchanged or widened, and new nullable fields. *)
Definition admits (policy : SchemaCompatibilityPolicy) (expected observed : SchemaShape) : Prop :=
  exists common added, observed ≡ₚ common ++ added /\ Forall (fun f => sf_nullable f = true) added /\
    match policy with
    | SC_EXACT => common = expected /\ added = []
    | SC_ADDITIVE_ONLY => common = expected
    | SC_SAFE_EVOLUTION => Forall2 widens expected common
    end.

Definition valid_shape (fields : SchemaShape) : Prop :=
  Forall (fun f => validate_type_parameters f = Ok tt) fields /\ NoDup (map sf_name fields).

Section conformance.
(** The values of the types without parameters. *)
Context (plain : LogicalType -> value -> Prop).

(** A binary float: an integer of [digits] bits times a power of two. *)
Definition binary_float (digits lo hi : Z) (q : Q) : Prop :=
  exists m e, (q == inject_Z m * Qpower 2 e)%Q /\ Z.abs m < 2 ^ digits /\ lo <= e <= hi.

Definition has_type (f : SchemaField) (v : value) : Prop :=
  match sf_logical_type f with
  | LT_INT32 => exists z, v = VInt z /\ -2 ^ 31 <= z < 2 ^ 31
  | LT_INT64 => exists z, v = VInt z /\ -2 ^ 63 <= z < 2 ^ 63
  | LT_FLOAT32 => exists q, v = VFloat q /\ binary_float 24 (-149) 104 q
  | LT_FLOAT64 => exists q, v = VFloat q /\ binary_float 53 (-1074) 971 q
  | LT_DECIMAL => exists c e precision scale c', v = VDecimal c e /\ sf_precision f = Some precision /\ sf_scale f = Some scale /\
      (decimal_Q c e == decimal_Q c' (- scale))%Q /\ Z.abs c' < 10 ^ precision
  | LT_STRING => exists s, v = VStr s /\
      match sf_max_length f with Some n => Z.of_nat (String.length s) <= n | None => True end
  | t => plain t v
  end.

Definition value_conforms (f : SchemaField) (v : value) : Prop :=
  (v = VNone /\ sf_nullable f = true) \/ has_type f v.

(** The row has columns of the schema only, and every field admits its value; a missing column is null. *)
Definition row_conforms (fields : SchemaShape) (r : row) : Prop :=
  (forall c, is_Some (r !! c) -> c ∈ map sf_name fields) /\
  Forall (fun f => value_conforms f (get r (sf_name f))) fields.

Lemma widens_conforms f g v : widens f g -> value_conforms f v -> value_conforms g v.
Proof.
  intros (_ & Hw & Hn) [[-> Hf]|Hf]; [left; auto|right]. unfold type_widens in Hw. unfold has_type in *.
  destruct (sf_logical_type f), (sf_logical_type g); try done.
  - destruct Hf as (z & -> & Hz). exists z. split; [done|]. lia.
  - destruct Hf as (q & -> & m & e & Hq & Hm & He). exists q. split; [done|]. exists m, e. split; [done|]. lia.
  - destruct Hw as (Hs & p & p' & Hp & Hp' & Hle). destruct Hf as (c & e & p0 & s & c' & -> & Hp0 & Hs0 & Hq & Hc).
    rewrite Hp in Hp0. injection Hp0 as <-. exists c, e, p', s, c'. split_and!; try done; [congruence|].
    eapply Z.lt_le_trans; [exact Hc|]. by apply Z.pow_le_mono_r.
  - destruct Hf as (s & -> & Hs). exists s. split; [done|]. destruct (sf_max_length g) as [after|]; [|done].
    destruct Hw as (before & Hb & Hle). rewrite Hb in Hs. lia.
Qed.
End conformance.

(** ** Fields *)

Lemma make_shape_valid fields shape : make_SchemaShape fields = Ok shape -> shape = fields /\ valid_shape fields.
Proof.
  unfold make_SchemaShape. intros (us & Hus & H)%bind_Ok. case_bool_decide; [done|].
  destruct (unique _) eqn:Eu; [|done]. injection H as <-. split; [done|]. split.
  - clear -Hus. apply mapM_res_Forall2 in Hus. induction Hus as [|f [] l ? Hf _ IH]; by constructor.
  - by apply bool_decide_eq_true in Eu.
Qed.

Lemma valid_field f :
  validate_type_parameters f = Ok tt ->
  (sf_logical_type f = LT_DECIMAL /\ is_Some (sf_precision f) /\ is_Some (sf_scale f) /\ sf_max_length f = None) \/
  (sf_logical_type f <> LT_DECIMAL /\ sf_precision f = None /\ sf_scale f = None /\
   (sf_logical_type f <> LT_STRING -> sf_max_length f = None)).
Proof.
  unfold validate_type_parameters. intros H. case_match; [done|]. apply bind_Ok in H as ([] & H1 & H2).
  destruct (decide (sf_logical_type f = LT_DECIMAL)) as [Ed|Ed].
  - left. rewrite bool_decide_true in H1 by done. destruct (sf_precision f), (sf_scale f); try done.
    split_and!; [done|by eexists..|]. rewrite bool_decide_false in H2 by (by rewrite Ed). by destruct (sf_max_length f).
  - right. rewrite bool_decide_false in H1 by done. destruct (sf_precision f), (sf_scale f); try done.
    split_and!; try done. intros Hs. rewrite bool_decide_false in H2 by done. by destruct (sf_max_length f).
Qed.

Lemma type_changed_false f g :
  type_changed f g = false <->
  sf_logical_type f = sf_logical_type g /\ sf_precision f = sf_precision g /\ sf_scale f = sf_scale g /\
  sf_max_length f = sf_max_length g.
Proof. unfold type_changed. rewrite !orb_false_iff, !negb_false_iff, !bool_decide_eq_true. tauto. Qed.

Lemma transition_spec f g :
  validate_type_parameters f = Ok tt -> validate_type_parameters g = Ok tt ->
  exists safe detail, _safe_type_transition f g = Ok (safe, detail) /\ (safe = true <-> type_widens f g).
Proof.
  intros Hf%valid_field Hg%valid_field. unfold _safe_type_transition, type_widens.
  case_bool_decide as Et; cbn [negb].
  - rewrite <-Et. destruct (sf_logical_type f) eqn:Ef; try (by do 2 eexists); rewrite <-Et in Hg.
    + destruct Hf as [(_ & [p Ep] & [s Es] & _)|(? & _)]; [|done]. destruct Hg as [(_ & [p' Ep'] & [s' Es'] & _)|(? & _)]; [|done].
      rewrite Ep, Es, Ep', Es'. destruct ((p =? p') && (s =? s')) eqn:E.
      * apply andb_true_iff in E as [->%Z.eqb_eq ->%Z.eqb_eq]. do 2 eexists. split; [done|]. split; [|done]. intros _.
        split; [done|]. do 2 eexists. split_and!; done.
      * do 2 eexists. split; [done|]. rewrite andb_true_iff, Z.eqb_eq, Z.geb_le. split.
        -- intros [-> Hle]. split; [done|]. by do 2 eexists.
        -- intros [[= ->] (? & ? & [= ->] & [= ->] & Hle)]. done.
    + case_bool_decide as Em.
      * do 2 eexists. split; [done|]. split; [|done]. intros _. rewrite <-Em. destruct (sf_max_length f); [by eexists|done].
      * destruct (sf_max_length f) as [b|], (sf_max_length g) as [a|]; try done.
        -- destruct (a >=? b) eqn:E; do 2 eexists; (split; [done|]).
           ++ split; [|done]. intros _. exists b. split; [done|]. by apply Z.geb_le in E.
           ++ split; [done|]. intros (b' & [= <-] & Hle). apply Z.geb_le in Hle. congruence.
        -- by do 2 eexists.
        -- do 2 eexists. split; [done|]. split; [done|]. by intros (b' & ? & _).
  - do 2 eexists. split; [done|]. rewrite bool_decide_eq_true, !elem_of_cons, elem_of_nil.
    destruct (sf_logical_type f) eqn:Ef, (sf_logical_type g) eqn:Eg; clear -Et; try done; intuition congruence.
Qed.

Lemma type_widens_same f g :
  validate_type_parameters f = Ok tt -> type_changed f g = false -> type_widens f g.
Proof.
  intros Hf (Et & Ep & Es & Em)%type_changed_false. unfold type_widens. rewrite <-Et, <-Em, <-Es.
  destruct (sf_logical_type f) eqn:Ef; try done.
  - split; [done|]. apply valid_field in Hf as [(_ & [p E] & _)|(? & _)]; [|done]. exists p, p. rewrite <-Ep, E. split_and!; done.
  - destruct (sf_max_length f); [by eexists|done].
Qed.

Lemma widens_refl f : validate_type_parameters f = Ok tt -> widens f f.
Proof. intros Hf. split_and!; [done| |done]. apply type_widens_same; [done|]. by apply type_changed_false. Qed.

Lemma field_changes_spec f g :
  validate_type_parameters f = Ok tt -> validate_type_parameters g = Ok tt -> sf_name f = sf_name g ->
  exists cs, field_changes f g = Ok cs /\ (cs = [] <-> f = g) /\
    (Forall (fun c => _policy_allows SC_SAFE_EVOLUTION c = true) cs <-> widens f g) /\
    Forall (fun c => sc_kind c <> FIELD_ADDED) cs.
Proof.
  intros Hf Hg Hn. destruct (transition_spec f g Hf Hg) as (safe & detail & Ht & Hs).
  unfold field_changes. rewrite Ht. cbn [mbind res_bind fst snd]. eexists. split; [done|].
  assert (Hw : type_changed f g = false -> safe = true) by (intros Hc; by apply Hs, type_widens_same).
  unfold widens. rewrite <-Hs. destruct (type_changed f g) eqn:Ec.
  - assert (f <> g) as Hne by (intros ->; unfold type_changed in Ec; rewrite !bool_decide_true in Ec by done; done).
    case_bool_decide as En; cbn [negb app].
    + split_and!; [by split|..].
      * rewrite Forall_singleton. destruct safe; simpl; [|by intuition]. rewrite En. tauto.
      * destruct safe; by constructor.
    + split_and!; [by split|..].
      * rewrite Forall_cons, Forall_singleton. destruct safe, (sf_nullable f) eqn:E1, (sf_nullable g) eqn:E2; simpl; intuition (try done).
      * destruct safe, (sf_nullable f), (sf_nullable g); repeat constructor; done.
  - rewrite Hw by done. apply type_changed_false in Ec as (Et & Ep & Es & Em). case_bool_decide as En; cbn [negb app].
    + split_and!; [|rewrite En; by intuition|constructor]. split; [|done]. intros _. destruct f, g; simpl in *; congruence.
    + split_and!; [split; [done|by intros ->]|..].
      * rewrite Forall_singleton. destruct (sf_nullable f) eqn:E1, (sf_nullable g) eqn:E2; simpl; intuition (try done).
      * destruct (sf_nullable f), (sf_nullable g); repeat constructor; done.
Qed.

(** ** Schemas *)

Lemma by_name_lookup fields n f :
  NoDup (map sf_name fields) -> by_name fields !! n = Some f <-> f ∈ fields /\ sf_name f = n.
Proof.
  unfold by_name. induction fields as [|g fields IH] using rev_ind; intros Hnd.
  { simpl. rewrite lookup_empty, elem_of_nil. by split; [|intros []]. }
  rewrite map_app in Hnd. apply NoDup_app in Hnd as (Hnd & Hd & _). rewrite foldl_snoc, elem_of_app, list_elem_of_singleton.
  destruct (decide (sf_name g = n)) as [<-|Hne].
  - rewrite lookup_insert_eq. split; [intros [= <-]; auto|]. intros [[Hf| ->] Hn]; [|done]. exfalso.
    apply (Hd (sf_name g)); [rewrite <-Hn; by apply list_elem_of_fmap_2|by apply list_elem_of_singleton].
  - rewrite lookup_insert_ne, IH by done. split; [tauto|]. intros [[?| ->] ?]; [done|congruence].
Qed.

Lemma by_name_dom fields n :
  n ∈ dom (by_name fields) <-> n ∈ map sf_name fields.
Proof.
  unfold by_name. induction fields as [|g fields IH] using rev_ind; [simpl; set_solver|].
  rewrite foldl_snoc, dom_insert, map_app, elem_of_union, elem_of_singleton, elem_of_app, IH. simpl.
  rewrite list_elem_of_singleton. tauto.
Qed.

Lemma elem_of_sorted_names n names : n ∈ names_in_order names <-> n ∈ names.
Proof. unfold names_in_order. by rewrite elem_of_sort_on, elem_of_elements. Qed.

Lemma mapM_res_exists {A B} (f : A -> res B) l :
  (forall a, a ∈ l -> exists b, f a = Ok b) -> exists bs, mapM_res f l = Ok bs.
Proof.
  induction l as [|a l IH]; intros Hf; [by eexists|]. destruct (Hf a) as [b Hb]; [by left|].
  destruct IH as [bs Hbs]; [intros; apply Hf; by right|]. simpl. rewrite Hb, Hbs. by eexists.
Qed.

Lemma raw_changes_spec expected observed :
  valid_shape expected -> valid_shape observed ->
  exists cs, _raw_changes expected observed = Ok cs /\ forall c, c ∈ cs <->
    (exists f, f ∈ expected /\ sf_name f ∉ map sf_name observed /\ c = removed_change (sf_name f)) \/
    (exists g, g ∈ observed /\ sf_name g ∉ map sf_name expected /\ c = added_change g) \/
    (exists f g l, f ∈ expected /\ g ∈ observed /\ sf_name f = sf_name g /\ field_changes f g = Ok l /\ c ∈ l).
Proof.
  intros [Hve Hne] [Hvo Hno]. unfold _raw_changes. set (common := common_changes _ _).
  rewrite Forall_forall in Hve, Hvo.
  assert (Hc : forall f g, f ∈ expected -> g ∈ observed -> sf_name f = sf_name g -> common (sf_name f) = field_changes f g).
  { intros f g Hf Hg Hn. unfold common, common_changes. rewrite (proj2 (by_name_lookup expected (sf_name f) f Hne)) by done.
    by rewrite (proj2 (by_name_lookup observed (sf_name f) g Hno)). }
  assert (Hin : forall n, n ∈ names_in_order (dom (by_name expected) ∩ dom (by_name observed)) <->
    exists f g, f ∈ expected /\ g ∈ observed /\ sf_name f = n /\ sf_name g = n).
  { intros n. rewrite elem_of_sorted_names, elem_of_intersection, !by_name_dom, !list_elem_of_fmap. naive_solver. }
  destruct (mapM_res_exists common (names_in_order (dom (by_name expected) ∩ dom (by_name observed)))) as [ls Hls].
  { intros n (f & g & Hf & Hg & <- & Hn)%Hin. rewrite (Hc f g) by done.
    destruct (field_changes_spec f g) as (l & Hl & _); [by apply Hve|by apply Hvo|done|by exists l]. }
  rewrite Hls. eexists. split; [done|]. apply mapM_res_Forall2 in Hls. intros c. rewrite !elem_of_app.
  apply Morphisms_Prop.or_iff_morphism; [|apply Morphisms_Prop.or_iff_morphism].
  - rewrite list_elem_of_fmap. setoid_rewrite elem_of_sorted_names. setoid_rewrite elem_of_difference.
    setoid_rewrite by_name_dom. setoid_rewrite list_elem_of_fmap at 1. naive_solver.
  - rewrite list_elem_of_omap. setoid_rewrite elem_of_sorted_names. setoid_rewrite elem_of_difference.
    setoid_rewrite by_name_dom. split.
    + intros (n & [_ Hn] & (g & [Hg <-]%by_name_lookup & ->)%fmap_Some); [|done]. by exists g.
    + intros (g & Hg & Hn & ->). exists (sf_name g). split_and!; [by apply list_elem_of_fmap_2|done|].
      by rewrite (proj2 (by_name_lookup observed (sf_name g) g Hno)).
  - rewrite list_elem_of_In, in_concat. setoid_rewrite <-list_elem_of_In. split.
    + intros (l & Hl & Hcl). apply list_elem_of_lookup in Hl as [i Hi].
      destruct (Forall2_lookup_r _ _ _ _ _ Hls Hi) as (n & Hn & Hl).
      apply list_elem_of_lookup_2, Hin in Hn as (f & g & Hf & Hg & <- & Hn). rewrite (Hc f g) in Hl by done.
      by exists f, g, l.
    + intros (f & g & l & Hf & Hg & Hn & Hl & Hcl).
      assert (sf_name f ∈ names_in_order (dom (by_name expected) ∩ dom (by_name observed))) as [i Hi]%list_elem_of_lookup
        by (apply Hin; by exists f, g).
      destruct (Forall2_lookup_l _ _ _ _ _ Hls Hi) as (l' & Hl' & E). rewrite (Hc f g), Hl in E by done.
      injection E as <-. exists l. split; [by eapply list_elem_of_lookup_2|done].
Qed.

Lemma name_unique (fields : SchemaShape) f g :
  NoDup (map sf_name fields) -> f ∈ fields -> g ∈ fields -> sf_name f = sf_name g -> f = g.
Proof.
  intros Hnd [i Hi]%list_elem_of_lookup [j Hj]%list_elem_of_lookup Hn. assert (i = j) as ->; [|congruence].
  eapply (NoDup_lookup _ _ _ (sf_name f) Hnd); rewrite list_lookup_fmap; [by rewrite Hi|by rewrite Hj, Hn].
Qed.

Definition kept (policy : SchemaCompatibilityPolicy) (f g : SchemaField) : Prop :=
  match policy with SC_SAFE_EVOLUTION => widens f g | _ => f = g end.

Definition may_add (policy : SchemaCompatibilityPolicy) (g : SchemaField) : Prop :=
  match policy with SC_EXACT => False | _ => sf_nullable g = true end.

Lemma kept_name policy f g : kept policy f g -> sf_name f = sf_name g.
Proof. destruct policy; [by intros ->|by intros ->|by intros (? & _)]. Qed.

Lemma common_exists policy expected observed :
  (forall f, f ∈ expected -> exists g, g ∈ observed /\ kept policy f g) ->
  exists common, Forall2 (kept policy) expected common /\ common ⊆ observed.
Proof.
  induction expected as [|f expected IH]; intros Hf; [exists []; split; [constructor|set_solver]|].
  destruct (Hf f) as (g & Hg & Hk); [by left|]. destruct IH as (common & Hc & Hs); [intros; apply Hf; by right|].
  exists (g :: common). split; [by constructor|]. set_solver.
Qed.

(** The condition of a policy, field by field. *)
Lemma admits_iff policy expected observed :
  valid_shape expected -> valid_shape observed ->
  admits policy expected observed <->
    (forall f, f ∈ expected -> exists g, g ∈ observed /\ kept policy f g) /\
    (forall g, g ∈ observed -> sf_name g ∉ map sf_name expected -> may_add policy g).
Proof.
  intros [_ Hne] [_ Hno]. unfold admits. split.
  - intros (common & added & Hp & Ha & Hm). assert (Hk : Forall2 (kept policy) expected common).
    { destruct policy; [destruct Hm as [-> _]|subst common|exact Hm]; apply Forall_Forall2_diag, Forall_true; done. }
    split.
    + intros f [i Hi]%list_elem_of_lookup. destruct (Forall2_lookup_l _ _ _ _ _ Hk Hi) as (g & Hg & Hfg). exists g.
      split; [|done]. rewrite Hp. apply elem_of_app. left. by eapply list_elem_of_lookup_2.
    + intros g Hg Hn. rewrite Hp, elem_of_app in Hg. rewrite Forall_forall in Ha. destruct Hg as [Hg|Hg].
      * exfalso. apply list_elem_of_lookup in Hg as [i Hi]. destruct (Forall2_lookup_r _ _ _ _ _ Hk Hi) as (f & Hf & Hfg).
        apply Hn. rewrite <-(kept_name _ _ _ Hfg). apply list_elem_of_fmap_2. by eapply list_elem_of_lookup_2.
      * destruct policy; [destruct Hm as [_ ->]; by apply elem_of_nil in Hg|by apply Ha..].
  - intros [Hk Ha]. destruct (common_exists _ _ _ Hk) as (common & Hc & Hs).
    assert (Hnames : map sf_name common = map sf_name expected).
    { clear -Hc. induction Hc as [|f g l l' Hfg _ IH]; simpl; [done|]. by rewrite IH, (kept_name _ _ _ Hfg). }
    exists common, (filter (fun g => sf_name g ∉ map sf_name expected) observed). split_and!.
    + apply NoDup_Permutation.
      * by eapply NoDup_fmap_1.
      * apply NoDup_app. split_and!; [apply (NoDup_fmap_1 sf_name); change (NoDup (map sf_name common)); by rewrite Hnames| |].
        -- intros g Hg [Hn _]%list_elem_of_filter. apply Hn. rewrite <-Hnames. by apply list_elem_of_fmap_2.
        -- apply NoDup_filter. by eapply NoDup_fmap_1.
      * intros g. rewrite elem_of_app, list_elem_of_filter. split; [|intros [?|[]]; [by apply Hs|done]].
        intros Hg. destruct (decide (sf_name g ∈ map sf_name expected)) as [Hn|Hn]; [left|by right].
        rewrite <-Hnames in Hn. apply list_elem_of_fmap in Hn as (g' & Hn & Hg').
        by rewrite (name_unique observed g g' Hno Hg (Hs _ Hg') Hn).
    + apply Forall_forall. intros g [Hn Hg]%list_elem_of_filter. pose proof (Ha g Hg Hn). by destruct policy.
    + assert (policy <> SC_SAFE_EVOLUTION -> common = expected).
      { intros Hp. clear -Hc Hp. induction Hc as [|f g l l' Hfg _ IH]; [done|]. f_equal; [|done]. by destruct policy. }
      destruct policy; [split; auto|auto|exact Hc]. apply filter_none, Forall_forall. intros g Hg Hn. exact (Ha g Hg Hn).
Qed.

Lemma allowed_iff policy expected observed cs :
  valid_shape expected -> valid_shape observed -> _raw_changes expected observed = Ok cs ->
  (cs = [] <-> admits SC_EXACT expected observed) /\
  (policy <> SC_EXACT -> Forall (fun c => _policy_allows policy c = true) cs <-> admits policy expected observed).
Proof.
  intros He Ho Hcs. destruct (raw_changes_spec expected observed He Ho) as (cs' & E & Hin). rewrite Hcs in E. injection E as <-.
  destruct He as [Hve Hne], Ho as [Hvo Hno]. pose proof Hve as Hve'. pose proof Hvo as Hvo'. rewrite Forall_forall in Hve', Hvo'.
  assert (Hcommon : forall f g, f ∈ expected -> g ∈ observed -> sf_name f = sf_name g -> exists l, field_changes f g = Ok l /\
    l ⊆ cs /\ (l = [] <-> f = g) /\ (Forall (fun c => _policy_allows SC_SAFE_EVOLUTION c = true) l <-> widens f g) /\
    Forall (fun c => sc_kind c <> FIELD_ADDED) l).
  { intros f g Hf Hg Hn. destruct (field_changes_spec f g) as (l & Hl & H1 & H2 & H3); [by apply Hve'|by apply Hvo'|done|].
    exists l. split_and!; try done. intros c Hc. apply Hin. right. right. by exists f, g, l. }
  assert (Hpartner : forall f, f ∈ expected -> (forall c, c ∈ cs -> c <> removed_change (sf_name f)) ->
    exists g, g ∈ observed /\ sf_name f = sf_name g).
  { intros f Hf Hc. destruct (decide (sf_name f ∈ map sf_name observed)) as [Hn|Hn].
    - apply list_elem_of_fmap in Hn as (g & Hn & Hg). by exists g.
    - exfalso. eapply Hc; [|done]. apply Hin. left. by exists f. }
  rewrite !admits_iff by done. split.
  - split.
    + intros ->. split.
      * intros f Hf. destruct (Hpartner f Hf) as (g & Hg & Hn); [by intros c ?%elem_of_nil|]. exists g. split; [done|].
        destruct (Hcommon f g Hf Hg Hn) as (l & _ & Hl & Heq & _). apply Heq. destruct l as [|c l]; [done|].
        exfalso. apply (not_elem_of_nil c), Hl. by left.
      * intros g Hg Hn. apply (not_elem_of_nil (added_change g)), Hin. right. left. by exists g.
    + intros [Hk Ha]. destruct cs as [|c cs]; [done|]. exfalso. assert (c ∈ c :: cs) as Hc by left. apply Hin in Hc.
      destruct Hc as [(f & Hf & Hn & _)|[(g & Hg & Hn & _)|(f & g & l & Hf & Hg & Hn & Hl & Hc)]].
      * destruct (Hk f Hf) as (g & Hg & <-). apply Hn. by apply list_elem_of_fmap_2.
      * exact (Ha g Hg Hn).
      * destruct (Hk f Hf) as (g' & Hg' & <-). pose proof (name_unique observed f g Hno Hg' Hg Hn) as <-.
        destruct (Hcommon f f Hf Hg eq_refl) as (l' & Hl' & _ & Heq & _). rewrite Hl in Hl'. injection Hl' as <-.
        rewrite (proj2 Heq eq_refl) in Hc. by apply elem_of_nil in Hc.
  - intros Hpol. rewrite Forall_forall. split.
    + intros Hall. split.
      * intros f Hf. destruct (Hpartner f Hf) as (g & Hg & Hn).
        { intros c Hc ->. pose proof (Hall _ Hc) as Ha. destruct policy; done. }
        exists g. split; [done|]. destruct (Hcommon f g Hf Hg Hn) as (l & _ & Hl & Heq & Hw & Hadd). destruct policy; [done|..]; simpl.
        -- apply Heq. destruct l as [|c l]; [done|]. inversion_clear Hadd as [|? ? Hc _].
           pose proof (Hall c) as Ha. simpl in Ha. rewrite bool_decide_false in Ha by done. discriminate Ha. apply Hl. by left.
        -- apply Hw, Forall_forall. intros c Hc. by apply Hall, Hl.
      * intros g Hg Hn. assert (_policy_allows policy (added_change g) = true) as Ha
          by (apply Hall, Hin; right; left; by exists g).
        destruct policy; [done|..]; simpl in *; by rewrite ?andb_true_r in Ha.
    + intros [Hk Hadd] c [(f & Hf & Hn & _)|[(g & Hg & Hn & ->)|(f & g & l & Hf & Hg & Hn & Hl & Hc)]]%Hin.
      * exfalso. destruct (Hk f Hf) as (g & Hg & Hkept). apply Hn. rewrite (kept_name _ _ _ Hkept). by apply list_elem_of_fmap_2.
      * pose proof (Hadd g Hg Hn) as Ha. destruct policy; [done|..]; simpl in *; by rewrite Ha.
      * destruct (Hk f Hf) as (g' & Hg' & Hkept). pose proof (kept_name _ _ _ Hkept) as Hn'.
        pose proof (name_unique observed g' g Hno Hg' Hg (eq_trans (eq_sym Hn') Hn)) as ->.
        destruct (Hcommon f g Hf Hg Hn) as (l' & Hl' & _ & Heq & Hw & _). rewrite Hl in Hl'. injection Hl' as <-.
        destruct policy; [done|..]; simpl in Hkept.
        -- rewrite (proj2 Heq Hkept) in Hc. by apply elem_of_nil in Hc.
        -- apply Hw in Hkept. rewrite Forall_forall in Hkept. by apply Hkept.
Qed.

(** ** Theorems *)

Section theorems.
Context `{PyRuntime}.

Lemma fingerprint_perm fields fields' : NoDup (map sf_name fields) -> fields' ≡ₚ fields -> fingerprint fields' = fingerprint fields.
Proof.
  intros Hnd Hp. unfold fingerprint, canonical_definition. do 3 f_equal. apply sort_on_perm_eq; [by rewrite Hp|done].
Qed.

Lemma admits_exact expected observed : admits SC_EXACT expected observed <-> observed ≡ₚ expected.
Proof.
  unfold admits. split; [|intros Hp; exists expected, []; by rewrite app_nil_r].
  intros (common & added & Hp & _ & -> & ->). by rewrite app_nil_r in Hp.
Qed.

Lemma decided expected observed :
  valid_shape (sch_fields expected) -> valid_shape observed ->
  exists d, classify_schema_evolution expected observed = Ok d /\
    (sd_classification d = SE_NO_CHANGE <-> observed ≡ₚ sch_fields expected) /\
    (observed ≡ₚ sch_fields expected -> sd_observed_fingerprint d = sd_expected_fingerprint d) /\
    (compatible d = true <-> admits (sch_compatibility_policy expected) (sch_fields expected) observed) /\
    require_compatible_schema expected observed =
      if compatible d then Ok d else raise "ValueError" "observed schema is incompatible".
Proof.
  intros He Ho. destruct (raw_changes_spec _ _ He Ho) as (cs & Hcs & _).
  unfold require_compatible_schema, classify_schema_evolution. rewrite Hcs. cbn [mbind res_bind].
  set (policy := sch_compatibility_policy expected). destruct (allowed_iff policy _ _ _ He Ho Hcs) as [Hnil Hall].
  rewrite admits_exact in Hnil. eexists. split; [done|]. cbn [sd_classification sd_observed_fingerprint sd_expected_fingerprint].
  split_and!.
  - rewrite <-Hnil. destruct cs as [|c cs]; [by split|]. simpl. by case_match.
  - intros Hp. apply fingerprint_perm; [apply He|done].
  - unfold compatible. cbn [sd_classification]. destruct cs as [|c cs].
    + simpl. split; [intros _|done]. assert (observed ≡ₚ sch_fields expected) as Hp by by apply Hnil.
      exists (sch_fields expected), []. rewrite app_nil_r. split_and!; [done|constructor|].
      destruct policy; try done. apply Forall_Forall2_diag. eapply Forall_impl; [apply He|]. apply widens_refl.
    + rewrite (bool_decide_false (length (c :: cs) = 0%nat)) by done. destruct (forallb (_policy_allows policy) (c :: cs)) eqn:E.
      * split; [intros _|done]. apply Hall; [intros Ep; rewrite Ep in E; discriminate E|].
        apply Forall_forall. intros c' Hc'%list_elem_of_In. rewrite forallb_forall in E. by apply E.
      * split; [done|]. intros Ha. destruct (decide (policy = SC_EXACT)) as [Ep|Ep].
        -- rewrite Ep, admits_exact in Ha. apply Hnil in Ha. discriminate Ha.
        -- apply Hall in Ha; [|done]. apply not_true_iff_false in E. exfalso. apply E, forallb_forall.
           intros c' Hc'%list_elem_of_In. rewrite Forall_forall in Ha. by apply Ha.
  - by destruct (compatible _).
Qed.

(** C38. Two valid schemas are always compared: nothing changed exactly when the fields are the same,
    in whatever order, and then the fingerprints are equal; the observed schema is compatible exactly
    when the policy of the contract admits it (the same fields; the same fields and new nullable ones;
    widened fields and new nullable ones), and [require_compatible_schema] raises otherwise. *)
Theorem schema_decision_exact expected observed :
  valid_shape (sch_fields expected) -> valid_shape observed ->
  exists d, classify_schema_evolution expected observed = Ok d /\
    (sd_classification d = SE_NO_CHANGE <-> observed ≡ₚ sch_fields expected) /\
    (observed ≡ₚ sch_fields expected -> sd_observed_fingerprint d = sd_expected_fingerprint d) /\
    (compatible d = true <-> admits (sch_compatibility_policy expected) (sch_fields expected) observed) /\
    require_compatible_schema expected observed =
      if compatible d then Ok d else raise "ValueError" "observed schema is incompatible".
Proof. apply decided. Qed.

(** C37. A schema accepted against the contract, under any policy, admits every row that conforms to the
    contract: no stored value leaves the range of its type, and a column the row does not have may be
    null.  This holds for any reading of the types that have no parameters. *)
Theorem compatible_schema_sound plain expected observed d r :
  valid_shape (sch_fields expected) -> valid_shape observed ->
  require_compatible_schema expected observed = Ok d ->
  row_conforms plain (sch_fields expected) r -> row_conforms plain observed r.
Proof.
  intros He Ho Hr [Hdom Hrow]. destruct (decided expected observed He Ho) as (d' & _ & _ & _ & Hc & Hreq).
  assert (compatible d' = true) as E by (rewrite Hreq in Hr; by destruct (compatible d')).
  apply (proj1 Hc), admits_iff in E as [Hk Ha]; [|done..].
  rewrite Forall_forall in Hrow. pose proof He as [Hve Hne]. rewrite Forall_forall in Hve.
  assert (Hwid : forall f, f ∈ sch_fields expected -> exists g, g ∈ observed /\ widens f g).
  { intros f Hf. destruct (Hk f Hf) as (g & Hg & Hfg). exists g. split; [done|].
    destruct (sch_compatibility_policy expected); [simpl in Hfg; subst g; by apply widens_refl, Hve..|done]. }
  split.
  - intros c Hcol. apply Hdom, list_elem_of_fmap in Hcol as (f & -> & Hf). destruct (Hwid f Hf) as (g & Hg & Hn & _).
    rewrite Hn. by apply list_elem_of_fmap_2.
  - apply Forall_forall. intros g Hg. destruct (decide (sf_name g ∈ map sf_name (sch_fields expected))) as [Hn|Hn].
    + apply list_elem_of_fmap in Hn as (f & Hn & Hf). destruct (Hwid f Hf) as (g' & Hg' & Hw). pose proof Hw as (Hn' & _).
      rewrite (name_unique observed g g' (proj2 Ho) Hg Hg') in * by congruence. rewrite <-Hn'. eapply widens_conforms; [exact Hw|]. by apply Hrow.
    + left. split.
      * unfold get. destruct (r !! sf_name g) eqn:Eg; [|done]. destruct Hn. apply Hdom. by eexists.
      * pose proof (Ha g Hg Hn) as Hadd. by destruct (sch_compatibility_policy expected).
Qed.
End theorems.

(** ** Witnesses *)

Module Demo.

Definition schema_field (name : string) (t : LogicalType) (nullable : bool) (precision scale max_length : option Z) : SchemaField :=
  {| sf_name := name; sf_logical_type := t; sf_nullable := nullable; sf_precision := precision; sf_scale := scale;
     sf_max_length := max_length |}.

Definition contract : SchemaContract :=
  {| sch_fields := [schema_field "id" LT_INT32 false None None None; schema_field "name" LT_STRING true None None (Some 4);
                    schema_field "amount" LT_DECIMAL true (Some 6) (Some 2) None];
     sch_contract_version := 1; sch_compatibility_policy := SC_SAFE_EVOLUTION |}.

Definition observed : SchemaShape :=
  [schema_field "note" LT_JSON true None None None; schema_field "amount" LT_DECIMAL true (Some 8) (Some 2) None;
   schema_field "id" LT_INT64 true None None None; schema_field "name" LT_STRING true None None None].

Lemma contract_valid : valid_shape (sch_fields contract).
Proof. by apply (make_shape_valid _ (sch_fields contract)); vm_compute. Qed.
Lemma observed_valid : valid_shape observed.
Proof. by apply (make_shape_valid _ observed); vm_compute. Qed.

Lemma schema_decision_exact_witness :
  exists d, @classify_schema_evolution demo_runtime contract observed = Ok d /\
    map sc_kind (sd_changes d) = [FIELD_ADDED; TYPE_WIDENED; TYPE_WIDENED; NULLABILITY_RELAXED; TYPE_WIDENED] /\
    admits SC_SAFE_EVOLUTION (sch_fields contract) observed.
Proof.
  destruct (@schema_decision_exact demo_runtime contract observed contract_valid observed_valid) as (d & Hd & _ & _ & Hc & _).
  exists d. split; [exact Hd|]. assert (E : (fun r : res SchemaEvolutionDecision => match r with Ok d => (map sc_kind (sd_changes d), compatible d) | _ => ([], false) end)
    (@classify_schema_evolution demo_runtime contract observed) =
    ([FIELD_ADDED; TYPE_WIDENED; TYPE_WIDENED; NULLABILITY_RELAXED; TYPE_WIDENED], true)) by (vm_compute; reflexivity).
  rewrite Hd in E. injection E as E1 E2. split; [exact E1|]. exact (proj1 Hc E2).
Defined.

Definition stored : row := {[ "id" := VInt 5; "name" := VStr "abcd"; "amount" := VDecimal 1234 (-2) ]}.

Lemma compatible_schema_sound_witness : row_conforms (fun _ _ => True) observed stored.
Proof.
  assert (is_ok (@require_compatible_schema demo_runtime contract observed) = true) as E by (vm_compute; reflexivity).
  destruct (@require_compatible_schema demo_runtime contract observed) as [d|] eqn:Ed; [|discriminate E].
  apply (@compatible_schema_sound demo_runtime (fun _ _ => True) contract observed d stored contract_valid observed_valid Ed).
  split.
  - intros c [v Hv]. unfold stored in Hv. rewrite !lookup_insert_Some, lookup_singleton_Some in Hv.
    destruct Hv as [[<- _]|[_ [[<- _]|[_ [<- _]]]]]; vm_compute; repeat first [left; reflexivity|right].
  - apply Forall_cons; split; [right|apply Forall_cons; split; [right|apply Forall_cons; split; [right|constructor]]].
    + exists 5. split; [reflexivity|lia].
    + exists "abcd". split; [reflexivity|vm_compute; discriminate].
    + exists 1234, (-2), 6, 2, 1234. split_and!; [reflexivity..|vm_compute; reflexivity].
Defined.
End Demo.
