(* ===== verification/Config.v ===== *)
(** * Operational overrides and the effective configuration ([metadata/config.py])

    [resolve_effective_config] selects one active override per field and applies it with
    [model_copy(update=...)], which does not run the validators again.  An override value
    is tagged with its Python type; [config_hash] is a parameter, since it is computed
    from Pydantic's [model_dump]. *)

From stdpp Require Import base gmap strings list sorting.
From S2P Require Import Prelude PyValue PyDict Temporal ConfigTypes.
#[local] Open Scope Z_scope.

Inductive OverrideField :=
| OF_ENABLED | OF_PRIORITY | OF_RETRY_COUNT | OF_TIMEOUT_SECONDS | OF_BATCH_SIZE
| OF_MAX_CONCURRENCY | OF_WATERMARK_OVERLAP_SECONDS | OF_DATA_QUALITY_ENABLED
| OF_QUARANTINE_ENABLED.

#[export] Instance OverrideField_eq_dec : EqDecision OverrideField.
Proof. solve_decision. Defined.
#[export] Instance OverrideField_key : PyKey OverrideField := fun a b => bool_decide (a = b).
#[export] Instance OverrideField_key_laws : PyKeyLaws OverrideField.
Proof. split; unfold keq, OverrideField_key; [by intros []|by intros [] []|by intros [] [] []]. Qed.

(** [field.value] *)
Definition field_value (f : OverrideField) : string :=
  match f with
  | OF_ENABLED => "enabled"
  | OF_PRIORITY => "orchestration.priority"
  | OF_RETRY_COUNT => "orchestration.retry_count"
  | OF_TIMEOUT_SECONDS => "orchestration.timeout_seconds"
  | OF_BATCH_SIZE => "orchestration.batch_size"
  | OF_MAX_CONCURRENCY => "orchestration.max_concurrency"
  | OF_WATERMARK_OVERLAP_SECONDS => "load.watermark.overlap_window_seconds"
  | OF_DATA_QUALITY_ENABLED => "quality.enabled"
  | OF_QUARANTINE_ENABLED => "quality.quarantine_enabled"
  end.

Definition _BOOL_OVERRIDE_FIELDS : list OverrideField :=
  [OF_ENABLED; OF_DATA_QUALITY_ENABLED; OF_QUARANTINE_ENABLED].
Definition _NONNEGATIVE_INT_OVERRIDE_FIELDS : list OverrideField :=
  [OF_PRIORITY; OF_RETRY_COUNT; OF_WATERMARK_OVERLAP_SECONDS].
Definition _POSITIVE_INT_OVERRIDE_FIELDS : list OverrideField :=
  [OF_TIMEOUT_SECONDS; OF_BATCH_SIZE; OF_MAX_CONCURRENCY].

(** [bool | int] *)
Inductive override_value := OV_bool (b : bool) | OV_int (z : Z).
#[export] Instance override_value_eq_dec : EqDecision override_value.
Proof. solve_decision. Defined.

Record RuntimeOverride := {
  ro_override_id : string;
  ro_dataset_id : string;
  ro_field : OverrideField;
  ro_value : override_value;
  ro_reason : string;
  ro_requested_by : string;
  ro_created_at : datetime;
  ro_valid_from : datetime;
  ro_valid_to : option datetime;
  ro_precedence : Z;
  ro_enabled : bool
}.
#[export] Instance RuntimeOverride_eq_dec : EqDecision RuntimeOverride.
Proof. solve_decision. Defined.

Definition validate_override (o : RuntimeOverride) : res unit :=
  if negb (nonempty (ro_dataset_id o)) || negb (nonempty (ro_reason o))
     || negb (nonempty (ro_requested_by o)) || (ro_precedence o <? 0) then bad_field
  else
    _ ← require_aware_datetime (ro_created_at o) "created_at";
    _ ← require_aware_datetime (ro_valid_from o) "valid_from";
    _ ← match ro_valid_to o with
        | Some valid_to =>
          _ ← require_aware_datetime valid_to "valid_to";
          if dt_utc valid_to <=? dt_utc (ro_valid_from o) then
            raise "ValueError" "valid_to must be after valid_from"
          else Ok tt
        | None => Ok tt
        end;
    if bool_decide (ro_field o ∈ _BOOL_OVERRIDE_FIELDS) then
      match ro_value o with
      | OV_bool _ => Ok tt
      | OV_int _ => raise "ValueError" "override requires bool value"
      end
    else if bool_decide (ro_field o ∈ _NONNEGATIVE_INT_OVERRIDE_FIELDS) then
      match ro_value o with
      | OV_int z => if z <? 0 then raise "ValueError" "override requires non-negative int" else Ok tt
      | OV_bool _ => raise "ValueError" "override requires non-negative int"
      end
    else if bool_decide (ro_field o ∈ _POSITIVE_INT_OVERRIDE_FIELDS) then
      match ro_value o with
      | OV_int z => if z <=? 0 then raise "ValueError" "override requires positive int" else Ok tt
      | OV_bool _ => raise "ValueError" "override requires positive int"
      end
    else Ok tt.

(** The bounds of the validity window are aware, as [validate_override] checks. *)
Definition is_active (o : RuntimeOverride) (at_time : datetime) : res bool :=
  _ ← require_aware_datetime at_time "at";
  Ok (ro_enabled o && (dt_utc (ro_valid_from o) <=? dt_utc at_time)
      && match ro_valid_to o with
         | None => true
         | Some valid_to => dt_utc at_time <? dt_utc valid_to
         end).

Record EffectiveDatasetConfig := {
  eff_config : DatasetConfig;
  eff_base_config_hash : string;
  eff_effective_config_hash : string;
  eff_applied_override_ids : list string
}.

(** The grouping loop of [_select_overrides]. *)
Definition group_step (config : DatasetConfig) (as_of : datetime)
    (grouped : list (OverrideField * list RuntimeOverride)) (override : RuntimeOverride) :
    res (list (OverrideField * list RuntimeOverride)) :=
  if negb (String.eqb (ro_dataset_id override) (dc_dataset_id config)) then
    raise "ValueError" "override targets another dataset"
  else
    active ← is_active override as_of;
    Ok (if active : bool then
          dset grouped (ro_field override)
            (default [] (dget grouped (ro_field override)) ++ [override])
        else grouped).

(** [lambda item: (item.created_at, str(item.override_id))], compared with [<]. *)
Definition newer_override (best item : RuntimeOverride) : bool :=
  (dt_utc (ro_created_at best) <? dt_utc (ro_created_at item))
  || ((dt_utc (ro_created_at best) =? dt_utc (ro_created_at item))
      && negb (str_leb (ro_override_id item) (ro_override_id best))).

(** The body of the selection loop. *)
Definition select_candidate (candidates : list RuntimeOverride) : res RuntimeOverride :=
  highest_precedence ← py_max Z.ltb (map ro_precedence candidates);
  let winners := filter (fun item => ro_precedence item = highest_precedence) candidates in
  let distinct_values := remove_dups (map ro_value winners) in
  if (1 <? Z.of_nat (length distinct_values)) then
    raise "OverrideConflictError" "conflicting active overrides"
  else py_max newer_override winners.

Definition _select_overrides (config : DatasetConfig) (overrides : list RuntimeOverride)
    (as_of : datetime) : res (list RuntimeOverride) :=
  grouped ← foldM (group_step config as_of) [] overrides;
  selected ← mapM_res (fun item => select_candidate item.2) grouped;
  Ok (sort_on (fun item => field_value (ro_field item)) selected).

(** The number and the truth value of an override value; a validated override has the
    type its field asks for. *)
Definition ov_int (v : override_value) : Z := match v with OV_int z => z | OV_bool b => Z.b2z b end.
Definition ov_bool (v : override_value) : bool :=
  match v with OV_bool b => b | OV_int z => negb (z =? 0) end.

(** [model_copy(update={...})] of the records an override reaches. *)
Definition with_enabled (c : DatasetConfig) (b : bool) : DatasetConfig :=
  {| dc_dataset_id := dc_dataset_id c; dc_source := dc_source c; dc_target := dc_target c;
     dc_load := dc_load c; dc_orchestration := dc_orchestration c; dc_quality := dc_quality c;
     dc_reconciliation := dc_reconciliation c; dc_schema_contract := dc_schema_contract c;
     dc_current_projection := dc_current_projection c; dc_execution := dc_execution c;
     dc_extensions := dc_extensions c; dc_enabled := b;
     dc_config_schema_version := dc_config_schema_version c |}.

Definition with_orchestration (c : DatasetConfig) (o : OrchestrationPolicy) : DatasetConfig :=
  {| dc_dataset_id := dc_dataset_id c; dc_source := dc_source c; dc_target := dc_target c;
     dc_load := dc_load c; dc_orchestration := o; dc_quality := dc_quality c;
     dc_reconciliation := dc_reconciliation c; dc_schema_contract := dc_schema_contract c;
     dc_current_projection := dc_current_projection c; dc_execution := dc_execution c;
     dc_extensions := dc_extensions c; dc_enabled := dc_enabled c;
     dc_config_schema_version := dc_config_schema_version c |}.

Definition with_load (c : DatasetConfig) (l : LoadPolicy) : DatasetConfig :=
  {| dc_dataset_id := dc_dataset_id c; dc_source := dc_source c; dc_target := dc_target c;
     dc_load := l; dc_orchestration := dc_orchestration c; dc_quality := dc_quality c;
     dc_reconciliation := dc_reconciliation c; dc_schema_contract := dc_schema_contract c;
     dc_current_projection := dc_current_projection c; dc_execution := dc_execution c;
     dc_extensions := dc_extensions c; dc_enabled := dc_enabled c;
     dc_config_schema_version := dc_config_schema_version c |}.

Definition with_quality (c : DatasetConfig) (q : DataQualityPolicy) : DatasetConfig :=
  {| dc_dataset_id := dc_dataset_id c; dc_source := dc_source c; dc_target := dc_target c;
     dc_load := dc_load c; dc_orchestration := dc_orchestration c; dc_quality := q;
     dc_reconciliation := dc_reconciliation c; dc_schema_contract := dc_schema_contract c;
     dc_current_projection := dc_current_projection c; dc_execution := dc_execution c;
     dc_extensions := dc_extensions c; dc_enabled := dc_enabled c;
     dc_config_schema_version := dc_config_schema_version c |}.

Definition with_watermark (l : LoadPolicy) (w : option WatermarkConfig) : LoadPolicy :=
  {| lp_capture_strategy := lp_capture_strategy l; lp_apply_strategy := lp_apply_strategy l;
     lp_business_key := lp_business_key l; lp_merge_key := lp_merge_key l;
     lp_append_identity := lp_append_identity l; lp_watermark := w;
     lp_event_time_column := lp_event_time_column l; lp_version_column := lp_version_column l;
     lp_sequence_column := lp_sequence_column l; lp_tracked_columns := lp_tracked_columns l;
     lp_delete_policy := lp_delete_policy l |}.

Definition with_overlap (w : WatermarkConfig) (z : Z) : WatermarkConfig :=
  {| wm_column := wm_column w; wm_tie_breaker := wm_tie_breaker w; wm_overlap_window_seconds := z |}.

Definition with_orchestration_attribute (o : OrchestrationPolicy) (field : OverrideField) (z : Z) :
    OrchestrationPolicy :=
  let put f old := if bool_decide (field = f) then z else old in
  {| op_execution_group := op_execution_group o; op_criticality := op_criticality o;
     op_dependencies := op_dependencies o;
     op_priority := put OF_PRIORITY (op_priority o);
     op_retry_count := put OF_RETRY_COUNT (op_retry_count o);
     op_timeout_seconds := put OF_TIMEOUT_SECONDS (op_timeout_seconds o);
     op_batch_size := put OF_BATCH_SIZE (op_batch_size o);
     op_max_concurrency := put OF_MAX_CONCURRENCY (op_max_concurrency o) |}.

Definition with_quality_attribute (q : DataQualityPolicy) (field : OverrideField) (b : bool) :
    DataQualityPolicy :=
  let put f old := if bool_decide (field = f) then b else old in
  {| dq_policy_name := dq_policy_name q; dq_quarantine_policy := dq_quarantine_policy q;
     dq_enabled := put OF_DATA_QUALITY_ENABLED (dq_enabled q);
     dq_quarantine_enabled := put OF_QUARANTINE_ENABLED (dq_quarantine_enabled q);
     dq_quarantine_detail_mode := dq_quarantine_detail_mode q;
     dq_max_quarantine_rows := dq_max_quarantine_rows q;
     dq_max_quarantine_fraction := dq_max_quarantine_fraction q |}.

Definition _apply_override (config : DatasetConfig) (override : RuntimeOverride) : res DatasetConfig :=
  let field := ro_field override in
  let value := ro_value override in
  match field with
  | OF_ENABLED => Ok (with_enabled config (ov_bool value))
  | OF_PRIORITY | OF_RETRY_COUNT | OF_TIMEOUT_SECONDS | OF_BATCH_SIZE | OF_MAX_CONCURRENCY =>
    Ok (with_orchestration config
          (with_orchestration_attribute (dc_orchestration config) field (ov_int value)))
  | OF_WATERMARK_OVERLAP_SECONDS =>
    match lp_watermark (dc_load config) with
    | None => raise "ValueError" "watermark overlap override requires WATERMARK configuration"
    | Some w =>
      Ok (with_load config (with_watermark (dc_load config) (Some (with_overlap w (ov_int value)))))
    end
  | OF_DATA_QUALITY_ENABLED | OF_QUARANTINE_ENABLED =>
    Ok (with_quality config (with_quality_attribute (dc_quality config) field (ov_bool value)))
  end.

Section resolve.
Context (config_hash : DatasetConfig -> string).

(** [evaluation_time] is [as_of or utc_now()]. *)
Definition resolve_effective_config (config : DatasetConfig) (overrides : list RuntimeOverride)
    (evaluation_time : datetime) : res EffectiveDatasetConfig :=
  _ ← require_aware_datetime evaluation_time "as_of";
  selected ← _select_overrides config overrides evaluation_time;
  effective ← foldM _apply_override config selected;
  Ok {| eff_config := effective;
        eff_base_config_hash := config_hash config;
        eff_effective_config_hash := config_hash effective;
        eff_applied_override_ids := map ro_override_id selected |}.
End resolve.

(** ** Lemmas *)

(** The active overrides of a field. *)
Definition activeb (as_of : datetime) (o : RuntimeOverride) : bool :=
  match is_active o as_of with Ok b => b | Raise _ => false end.

Definition active_for (as_of : datetime) (f : OverrideField) (os : list RuntimeOverride) :
    list RuntimeOverride :=
  filter (fun o => activeb as_of o = true /\ ro_field o = f) os.

Lemma active_for_perm t f os1 os2 : os1 ≡ₚ os2 -> active_for t f os1 ≡ₚ active_for t f os2.
Proof. unfold active_for. by intros ->. Qed.

Lemma group_spec c t os g :
  foldM (group_step c t) [] os = Ok g ->
  dwf g /\ (forall f, dget g f = match active_for t f os with [] => None | l => Some l end) /\
  Forall (fun o => ro_dataset_id o = dc_dataset_id c) os.
Proof.
  intros Hf.
  apply (foldM_ind _ (fun done g => dwf g /\
    (forall f, dget g f = match active_for t f done with [] => None | l => Some l end) /\
    Forall (fun o => ro_dataset_id o = dc_dataset_id c) done)) in Hf; [done|done|].
  intros done o g1 g2 _ (Hwf & Hget & Hds) Hstep. unfold group_step in Hstep.
  destruct (String.eqb _ _) eqn:Eds; [|done]. apply String.eqb_eq in Eds. cbn [negb] in Hstep.
  apply bind_Ok in Hstep as (act & Hact & [= <-]).
  assert (Forall (fun o => ro_dataset_id o = dc_dataset_id c) (done ++ [o]))
    by (apply Forall_app; split; [done|by repeat constructor]).
  assert (activeb t o = act) as Ha by (unfold activeb; by rewrite Hact).
  destruct act.
  - split; [by apply dwf_dset|]. split; [|done]. intros f. rewrite dget_dset.
    unfold active_for in *. rewrite filter_app, filter_cons, filter_nil.
    unfold keq, OverrideField_key. case_bool_decide as Ef.
    + rewrite decide_True by done. rewrite Hget, Ef.
      destruct (filter _ done); [done|]. done.
    + rewrite decide_False by (intros [_ ?]; done). by rewrite app_nil_r, Hget.
  - split; [done|]. split; [|done]. intros f. unfold active_for in *.
    rewrite filter_app, filter_cons, filter_nil.
    rewrite decide_False by (intros [? _]; congruence). by rewrite app_nil_r, Hget.
Qed.

Lemma newer_override_false a b :
  newer_override a b = false <->
  dt_utc (ro_created_at b) < dt_utc (ro_created_at a) \/
  (dt_utc (ro_created_at b) = dt_utc (ro_created_at a) /\
   str_leb (ro_override_id b) (ro_override_id a) = true).
Proof.
  unfold newer_override. rewrite orb_false_iff, andb_false_iff, negb_false_iff.
  rewrite Z.ltb_ge, Z.eqb_neq.
  destruct (str_leb (ro_override_id b) (ro_override_id a)); split; intros; try lia;
    destruct_or?; destruct_and?; lia.
Qed.

Lemma newer_override_max l m :
  py_max newer_override l = Ok m -> m ∈ l /\ Forall (fun x => newer_override m x = false) l.
Proof.
  apply py_max_spec.
  - intros a. apply newer_override_false. right. split; [done|].
    by destruct (str_leb_total (ro_override_id a) (ro_override_id a)).
  - intros a b c. rewrite !newer_override_false. intros [?|[? H1]] [?|[? H2]]; [lia..|].
    right. split; [lia|]. by apply (str_leb_trans _ _ _ H1 H2).
  - intros a b H. destruct (newer_override b a) eqn:E; [|done].
    destruct (newer_override_false b a) as [_ Hb]. rewrite Hb in E; [done|].
    unfold newer_override in H. apply orb_true_iff in H as [H|H].
    + left. by apply Z.ltb_lt.
    + apply andb_true_iff in H as [He Hs]. right. split; [by apply Z.eqb_eq|].
      apply negb_true_iff in Hs.
      by destruct (str_leb_total (ro_override_id a) (ro_override_id b)); [|congruence].
Qed.

Lemma Zmax_spec l m : py_max Z.ltb l = Ok m -> m ∈ l /\ Forall (fun x => x <= m) l.
Proof.
  intros [Hin Hall]%py_max_spec; [|lia..]. split; [done|].
  eapply Forall_impl; [done|]. intros x. simpl. lia.
Qed.

(** The selected override: active with the highest precedence, and no active override of
    that precedence asks for another value. *)
Lemma select_candidate_spec l o :
  select_candidate l = Ok o ->
  o ∈ l /\ Forall (fun x => ro_precedence x <= ro_precedence o) l /\
  Forall (fun x => ro_precedence x = ro_precedence o -> ro_value x = ro_value o) l /\
  Forall (fun x => ro_precedence x = ro_precedence o -> newer_override o x = false) l.
Proof.
  unfold select_candidate. intros (hp & [_ Hmax]%Zmax_spec & H)%bind_Ok.
  set (w := filter _ l) in H. destruct (1 <? _) eqn:Ed; [done|].
  apply newer_override_max in H as [Hin Hnew].
  unfold w in Hin. apply list_elem_of_filter in Hin as [Hp Hin]. rewrite Hp. split; [done|].
  split; [|split].
  - apply Forall_forall. intros x Hx. rewrite Forall_forall in Hmax.
    apply Hmax, list_elem_of_fmap. eauto.
  - apply Forall_forall. intros x Hx Hpx.
    assert (ro_value x ∈ remove_dups (map ro_value w) /\ ro_value o ∈ remove_dups (map ro_value w))
      as [H1 H2].
    { rewrite !elem_of_remove_dups. split; apply list_elem_of_fmap; eexists; (split; [done|]);
        by apply list_elem_of_filter. }
    destruct (remove_dups _) as [|v1 [|v2 l']] eqn:E.
    + by apply elem_of_nil in H1.
    + apply list_elem_of_singleton in H1, H2. congruence.
    + exfalso. apply Z.ltb_ge in Ed. cbn [length] in Ed. lia.
  - apply Forall_forall. intros x Hx Hpx. rewrite Forall_forall in Hnew. apply Hnew.
    by apply list_elem_of_filter.
Qed.

Lemma py_max_cons {A} (ltb : A -> A -> bool) l : l <> [] -> exists m, py_max ltb l = Ok m.
Proof. destruct l; [done|]. eauto. Qed.

(** Selection does not depend on the order of overrides with distinct ids. *)
Lemma select_candidate_perm l1 l2 o :
  NoDup (map ro_override_id l1) -> l1 ≡ₚ l2 ->
  select_candidate l1 = Ok o -> select_candidate l2 = Ok o.
Proof.
  intros Hnd Hp (Hin & Hmax & Hval & Hnew)%select_candidate_spec.
  rewrite Hp in Hin, Hmax, Hval, Hnew.
  assert (NoDup (map ro_override_id l2)) as Hnd2 by by rewrite <-Hp.
  rewrite Forall_forall in Hmax, Hval, Hnew.
  unfold select_candidate.
  destruct (py_max_cons Z.ltb (map ro_precedence l2)) as [hp Hhp]; [by destruct l2; [apply elem_of_nil in Hin|]|].
  rewrite Hhp. cbn [mbind res_bind]. apply Zmax_spec in Hhp as [Hh Hhall].
  assert (hp = ro_precedence o) as ->.
  { apply list_elem_of_fmap in Hh as (x & -> & Hx). apply Z.le_antisymm; [by apply Hmax|].
    rewrite Forall_forall in Hhall. apply Hhall, list_elem_of_fmap. eauto. }
  set (w := filter _ l2).
  assert (o ∈ w) as Hw by by apply list_elem_of_filter.
  destruct (1 <? _) eqn:Ed.
  { exfalso. pose proof (NoDup_remove_dups (map ro_value w)) as Hrd.
    assert (forall v, v ∈ remove_dups (map ro_value w) -> v = ro_value o) as Hall.
    { intros v. rewrite elem_of_remove_dups. intros (x & -> & Hx)%list_elem_of_fmap.
      apply list_elem_of_filter in Hx as [Hpx Hx]. by apply Hval. }
    destruct (remove_dups _) as [|v1 [|v2 l']]; [done..|].
    apply NoDup_cons in Hrd as [Hn _]. apply Hn.
    rewrite (Hall v1), (Hall v2); [left|right; left|left]. }
  destruct (py_max_cons newer_override w) as [m Hm]; [by destruct w; [apply elem_of_nil in Hw|]|].
  rewrite Hm. apply newer_override_max in Hm as [Hmin Hmall].
  rewrite Forall_forall in Hmall. specialize (Hmall _ Hw).
  apply list_elem_of_filter in Hmin as [Hpm Hmin]. specialize (Hnew _ Hmin Hpm).
  apply newer_override_false in Hmall, Hnew. f_equal.
  assert (ro_override_id m = ro_override_id o) as Hid
    by (apply String.leb_antisym; destruct Hmall, Hnew; destruct_and?; unfold str_leb in *; lia || done).
  apply list_elem_of_lookup in Hmin as [i Hi], Hin as [j Hj].
  assert (i = j) as ->; [|congruence].
  apply (NoDup_lookup (ro_override_id <$> l2) i j (ro_override_id o)); [done|..];
    by rewrite list_lookup_fmap, ?Hi, ?Hj; simpl; rewrite ?Hid.
Qed.

(** What [_select_overrides] returns: the selected candidate of every field that has an
    active override, in the order of the field names. *)
Lemma field_value_inj f g : field_value f = field_value g -> f = g.
Proof. by destruct f, g. Qed.

Lemma active_for_field t f os o : o ∈ active_for t f os -> ro_field o = f /\ activeb t o = true /\ o ∈ os.
Proof. intros [[? ?] ?]%list_elem_of_filter. done. Qed.

Lemma select_overrides_spec c os t sel :
  _select_overrides c os t = Ok sel ->
  NoDup (map ro_field sel) /\
  Forall (fun o => ro_dataset_id o = dc_dataset_id c) os /\
  (forall f, active_for t f os <> [] ->
     exists o, o ∈ sel /\ ro_field o = f) /\
  (forall o, o ∈ sel <-> active_for t (ro_field o) os <> [] /\
     select_candidate (active_for t (ro_field o) os) = Ok o).
Proof.
  unfold _select_overrides. intros (g & Hg & H)%bind_Ok.
  apply bind_Ok in H as (sel0 & Hsel & [= <-]).
  apply group_spec in Hg as (Hwf & Hget & Hds).
  apply mapM_res_Forall2 in Hsel.
  assert (Forall2 (fun fc o => ro_field o = fc.1) g sel0) as Hfields.
  { assert (forall fc, fc ∈ g -> fc.2 = active_for t fc.1 os) as Hin.
    { intros [f l] Hin%dwf_elem; [|done]. rewrite Hget in Hin. simpl.
      by destruct (active_for t f os); simplify_eq. }
    clear Hwf Hget. revert Hin. induction Hsel as [|fc o g' sel' Ho _ IH]; intros Hin; constructor.
    - apply select_candidate_spec in Ho as [Ho _].
      rewrite (Hin fc) in Ho by left. by apply active_for_field in Ho as [? _].
    - apply IH. intros. apply Hin. by right. }
  assert (map ro_field sel0 = map fst g) as Hmap
    by (clear -Hfields; induction Hfields; simpl; congruence).
  split; [|split; [done|]].
  - rewrite (sort_on_perm _ sel0), Hmap. clear -Hwf.
    induction g as [|[f l] g IH]; simpl; [constructor|]. destruct Hwf as [Hf Hwf].
    constructor; [|by apply IH]. intros ([f' l'] & -> & Hin)%list_elem_of_fmap.
    apply dwf_elem in Hin; [|done]. by simpl in *; congruence.
  - assert (forall o, o ∈ sel0 <-> active_for t (ro_field o) os <> [] /\
     select_candidate (active_for t (ro_field o) os) = Ok o) as Hiff.
    { intros o. split.
      - intros Ho. apply list_elem_of_lookup in Ho as [i Hi].
        destruct (Forall2_lookup_r _ _ _ _ _ Hsel Hi) as ([f l] & Hgi & Ho).
        destruct (Forall2_lookup_r _ _ _ _ _ Hfields Hi) as (fl & Hgi' & Hf). simplify_eq/=.
        apply list_elem_of_lookup_2, dwf_elem in Hgi; [|done]. rewrite Hget in Hgi.
        destruct (active_for t (ro_field o) os); simplify_eq. by split.
      - intros [Hne Ho]. pose proof (Hget (ro_field o)) as Hgo.
        destruct (active_for t (ro_field o) os) as [|a l]; [done|].
        apply dget_Some_elem in Hgo as (k & Hk & Hin).
        apply list_elem_of_lookup in Hin as [i Hi].
        destruct (Forall2_lookup_l _ _ _ _ _ Hsel Hi) as (o' & Ho' & Heq). simpl in Heq.
        rewrite Heq in Ho. injection Ho as ->. by eapply list_elem_of_lookup_2. }
    split.
    + intros f Hne. destruct (active_for t f os) as [|a l] eqn:E; [done|].
      pose proof (Hget f) as Hgf. rewrite E in Hgf.
      apply dget_Some_elem in Hgf as (k & Hk & Hin). apply list_elem_of_lookup in Hin as [i Hi].
      destruct (Forall2_lookup_l _ _ _ _ _ Hsel Hi) as (o & Ho & Heq). simpl in Heq.
      exists o. rewrite elem_of_sort_on. split; [by eapply list_elem_of_lookup_2|].
      apply select_candidate_spec in Heq as [Heq _]. rewrite <-E in Heq.
      by apply active_for_field in Heq as [? _].
    + intros o. rewrite elem_of_sort_on. apply Hiff.
Qed.

Lemma select_overrides_intro c os t :
  is_naive t = false ->
  Forall (fun o => ro_dataset_id o = dc_dataset_id c) os ->
  (forall f, active_for t f os <> [] -> exists o, select_candidate (active_for t f os) = Ok o) ->
  exists sel, _select_overrides c os t = Ok sel.
Proof.
  intros Ht Hds Hsel. unfold _select_overrides.
  assert (forall g, exists g', foldM (group_step c t) g os = Ok g') as Hg.
  { clear Hsel. induction Hds as [|o os Ho _ IH]; intros g; [by eexists|]. simpl.
    unfold group_step at 1. rewrite Ho, String.eqb_refl. unfold is_active, require_aware_datetime.
    rewrite Ht. apply IH. }
  destruct (Hg []) as [g Hfold]. rewrite Hfold. cbn [mbind res_bind].
  apply group_spec in Hfold as (Hwf & Hget & _).
  assert (exists sel0, mapM_res (fun item : OverrideField * list RuntimeOverride =>
            select_candidate item.2) g = Ok sel0) as [sel0 ->]; [|by eexists].
  assert (forall fc, fc ∈ g -> exists o, select_candidate fc.2 = Ok o) as Hin.
  { intros [f l] Hin%dwf_elem; [|done]. rewrite Hget in Hin.
    destruct (active_for t f os) as [|a l'] eqn:E; [done|]. simplify_eq.
    destruct (Hsel f) as [o Ho]; rewrite E in *; [done|]. eauto. }
  clear -Hin. induction g as [|fc g IH]; simpl; [by eexists|].
  destruct (Hin fc) as [o ->]; [left|]. destruct IH as [sel0 ->]; [|by eexists].
  intros. apply Hin. by right.
Qed.

Lemma select_overrides_sorted c os t sel :
  _select_overrides c os t = Ok sel -> sort_on (fun o => field_value (ro_field o)) sel = sel.
Proof.
  unfold _select_overrides. intros (g & _ & (sel0 & _ & [= <-])%bind_Ok)%bind_Ok.
  apply sort_by_id, sort_on_sorted.
Qed.

Lemma active_for_NoDup t f os :
  NoDup (map ro_override_id os) -> NoDup (map ro_override_id (active_for t f os)).
Proof.
  intros H. eapply sublist_NoDup; [exact H|]. unfold active_for.
  clear H. induction os as [|o os IH]; [constructor|]. rewrite filter_cons.
  destruct (decide _); simpl; by constructor.
Qed.

Lemma select_overrides_perm c os1 os2 t sel :
  is_naive t = false -> NoDup (map ro_override_id os1) -> os1 ≡ₚ os2 ->
  _select_overrides c os1 t = Ok sel -> _select_overrides c os2 t = Ok sel.
Proof.
  intros Ht Hids Hp H1. pose proof (select_overrides_spec _ _ _ _ H1) as (Hnd1 & Hds & Hall1 & Hin1).
  destruct (select_overrides_intro c os2 t) as [sel2 H2]; [done|by rewrite <-Hp| |].
  { intros f Hne. destruct (Hall1 f) as (o & [_ Ho]%Hin1 & <-).
    - intros E. apply Hne, Permutation_nil_r. rewrite <-E. by apply active_for_perm.
    - exists o. eapply select_candidate_perm; [|by apply active_for_perm|done].
      by apply active_for_NoDup. }
  rewrite H2. f_equal.
  pose proof (select_overrides_spec _ _ _ _ H2) as (Hnd2 & _ & _ & Hin2).
  rewrite <-(select_overrides_sorted _ _ _ _ H1), <-(select_overrides_sorted _ _ _ _ H2).
  assert (forall sel, NoDup (map ro_field sel) ->
            NoDup (map (fun o => field_value (ro_field o)) sel)) as Hkeys.
  { intros l Hl. rewrite <-(map_map ro_field field_value).
    apply NoDup_fmap_2; [|done]. intros f g. apply field_value_inj. }
  apply sort_on_perm_eq; [by apply Hkeys|].
  apply NoDup_Permutation; [by eapply NoDup_fmap_1|by eapply NoDup_fmap_1|].
  intros o. rewrite Hin1, Hin2.
  pose proof (active_for_perm t (ro_field o) _ _ Hp) as Hpo.
  split; intros [Hne Ho]; split.
  - intros E. rewrite E in Hpo. by apply Permutation_nil_l in Hpo; rewrite Hpo in Hne.
  - symmetry in Hpo. eapply select_candidate_perm; [|exact Hpo|done].
    apply active_for_NoDup. by rewrite <-Hp.
  - intros E. rewrite E in Hpo. by apply Permutation_nil_r in Hpo; rewrite Hpo in Hne.
  - eapply select_candidate_perm; [|exact Hpo|done]. by apply active_for_NoDup.
Qed.

(** ** Applying an override *)

(** The value of the configuration an override field addresses. *)
Definition read_field (c : DatasetConfig) (f : OverrideField) : option override_value :=
  let o := dc_orchestration c in
  match f with
  | OF_ENABLED => Some (OV_bool (dc_enabled c))
  | OF_PRIORITY => Some (OV_int (op_priority o))
  | OF_RETRY_COUNT => Some (OV_int (op_retry_count o))
  | OF_TIMEOUT_SECONDS => Some (OV_int (op_timeout_seconds o))
  | OF_BATCH_SIZE => Some (OV_int (op_batch_size o))
  | OF_MAX_CONCURRENCY => Some (OV_int (op_max_concurrency o))
  | OF_WATERMARK_OVERLAP_SECONDS =>
    OV_int ∘ wm_overlap_window_seconds <$> lp_watermark (dc_load c)
  | OF_DATA_QUALITY_ENABLED => Some (OV_bool (dq_enabled (dc_quality c)))
  | OF_QUARANTINE_ENABLED => Some (OV_bool (dq_quarantine_enabled (dc_quality c)))
  end.

(** The value an override stores. *)
Definition stored_value (o : RuntimeOverride) : override_value :=
  if bool_decide (ro_field o ∈ _BOOL_OVERRIDE_FIELDS) then OV_bool (ov_bool (ro_value o))
  else OV_int (ov_int (ro_value o)).

(** The configuration without the values overrides address. *)
Definition erase_operational (c : DatasetConfig) : DatasetConfig :=
  let o := fold_right (fun f o => with_orchestration_attribute o f 0) (dc_orchestration c)
             [OF_PRIORITY; OF_RETRY_COUNT; OF_TIMEOUT_SECONDS; OF_BATCH_SIZE; OF_MAX_CONCURRENCY] in
  let q := fold_right (fun f q => with_quality_attribute q f false) (dc_quality c)
             [OF_DATA_QUALITY_ENABLED; OF_QUARANTINE_ENABLED] in
  let l := with_watermark (dc_load c) ((fun w => with_overlap w 0) <$> lp_watermark (dc_load c)) in
  with_enabled (with_load (with_quality (with_orchestration c o) q) l) false.

Lemma stored_value_validated o : validate_override o = Ok tt -> stored_value o = ro_value o.
Proof.
  unfold validate_override, stored_value. destruct o as [? ? f v ? ? ? ? ? ? ?]. simpl.
  destruct f, v; try done; intros H; by inv_ok H.
Qed.

Lemma apply_override_spec c o c' :
  _apply_override c o = Ok c' ->
  erase_operational c' = erase_operational c /\
  (forall f, read_field c' f = if decide (f = ro_field o) then Some (stored_value o) else read_field c f).
Proof.
  unfold _apply_override, stored_value. destruct o as [? ? f v ? ? ? ? ? ? ?]. simpl.
  destruct f; intros H; try injection H as <-;
    try (split; [done|by intros []]).
  destruct (lp_watermark (dc_load c)) as [w|] eqn:E; [|done]. injection H as <-. split.
  - unfold erase_operational. simpl. by rewrite E.
  - intros []; done.
Qed.

Lemma apply_overrides_spec c sel c' :
  NoDup (map ro_field sel) -> foldM _apply_override c sel = Ok c' ->
  erase_operational c' = erase_operational c /\
  (forall o, o ∈ sel -> read_field c' (ro_field o) = Some (stored_value o)) /\
  (forall f, f ∉ map ro_field sel -> read_field c' f = read_field c f).
Proof.
  intros Hnd Hf. revert Hnd.
  refine (foldM_ind _ (fun done c' => NoDup (map ro_field done) ->
    erase_operational c' = erase_operational c /\
    (forall o, o ∈ done -> read_field c' (ro_field o) = Some (stored_value o)) /\
    (forall f, f ∉ map ro_field done -> read_field c' f = read_field c f)) _ _ _ Hf _ _).
  - intros _. split; [done|]. split; [by intros ? ?%elem_of_nil|done].
  - intros done o c1 c2 _ IH Happ Hnd. rewrite map_app in Hnd.
    apply NoDup_app in Hnd as (Hnd & Hnin & _). destruct (IH Hnd) as (He & Hin & Hout).
    apply apply_override_spec in Happ as [He2 Hread]. split; [congruence|]. split.
    + intros o' Ho'. rewrite Hread. apply elem_of_app in Ho' as [Ho'|Ho'].
      * rewrite decide_False; [by apply Hin|]. intros Heq. apply (Hnin (ro_field o)); [|by left].
        rewrite <-Heq. by apply list_elem_of_fmap_2.
      * apply list_elem_of_singleton in Ho' as ->. by rewrite decide_True.
    + intros f Hfn. rewrite map_app, not_elem_of_app in Hfn. destruct Hfn as [Hf1 Hf2].
      rewrite Hread, decide_False; [by apply Hout|]. intros ->. apply Hf2. by left.
Qed.

(** ** Properties *)

Section properties.
Context (config_hash : DatasetConfig -> string).

(** Operational overrides change nothing but the value they name: the effective
    configuration equals the base outside the nine overridable values; a field without an
    active override keeps its value; a field with one gets the value of an active override of
    the highest precedence, on which all active overrides of that precedence agree, and the
    override is recorded in [applied_override_ids]. *)
Theorem resolve_effective_values c os t r :
  resolve_effective_config config_hash c os t = Ok r ->
  erase_operational (eff_config r) = erase_operational c /\
  (forall f, match active_for t f os with
             | [] => read_field (eff_config r) f = read_field c f
             | l => exists o, o ∈ l /\ ro_override_id o ∈ eff_applied_override_ids r /\
                    Forall (fun x => ro_precedence x <= ro_precedence o) l /\
                    Forall (fun x => ro_precedence x = ro_precedence o -> ro_value x = ro_value o) l /\
                    read_field (eff_config r) f = Some (stored_value o)
             end).
Proof.
  unfold resolve_effective_config.
  intros (_ & _ & (sel & Hsel & (eff & Heff & [= <-])%bind_Ok)%bind_Ok)%bind_Ok. simpl.
  apply select_overrides_spec in Hsel as (Hnd & _ & Hall & Hin).
  destruct (apply_overrides_spec _ _ _ Hnd Heff) as (He & Hset & Hkeep). split; [done|].
  intros f. destruct (active_for t f os) as [|a l] eqn:E.
  - apply Hkeep. intros (o & -> & [Hne _]%Hin)%list_elem_of_fmap. done.
  - destruct (Hall f) as (o & Ho & <-); [by rewrite E|]. exists o.
    pose proof Ho as [_ Hc]%Hin. rewrite E in Hc.
    destruct (select_candidate_spec _ _ Hc) as (? & ? & ? & _).
    repeat split; [done| |done|done|by apply Hset]. by apply list_elem_of_fmap_2.
Qed.

(** The effective configuration does not depend on the order in which the overrides are
    listed, their ids being pairwise different. *)
Theorem resolve_order_independent c os1 os2 t r :
  NoDup (map ro_override_id os1) -> os1 ≡ₚ os2 ->
  resolve_effective_config config_hash c os1 t = Ok r ->
  resolve_effective_config config_hash c os2 t = Ok r.
Proof.
  intros Hids Hp. unfold resolve_effective_config.
  intros (u & Hu & (sel & Hsel & Hk)%bind_Ok)%bind_Ok. rewrite Hu. cbn [mbind res_bind].
  assert (is_naive t = false) as Ht by (unfold require_aware_datetime in Hu; by destruct (is_naive t)).
  by rewrite (select_overrides_perm _ _ _ _ _ Ht Hids Hp Hsel).
Qed.
End properties.

(** ** A concrete configuration *)

Definition demo_load : LoadPolicy :=
  {| lp_capture_strategy := CS_WATERMARK; lp_apply_strategy := AS_UPSERT;
     lp_business_key := ["id"]; lp_merge_key := ["id"]; lp_append_identity := [];
     lp_watermark := Some {| wm_column := "updated_at"; wm_tie_breaker := [];
                             wm_overlap_window_seconds := 300 |};
     lp_event_time_column := None; lp_version_column := Some "version"; lp_sequence_column := None;
     lp_tracked_columns := []; lp_delete_policy := "IGNORE" |}.

Definition demo_config : DatasetConfig :=
  {| dc_dataset_id := "orders";
     dc_source := {| src_system := "erp"; src_object := "orders"; src_connection_ref := None |};
     dc_target := {| tgt_layer := "silver"; tgt_object := "orders" |};
     dc_load := demo_load;
     dc_orchestration := {| op_execution_group := "core"; op_criticality := CR_MEDIUM;
       op_dependencies := []; op_priority := 100; op_retry_count := 3; op_timeout_seconds := 3600;
       op_batch_size := 1000; op_max_concurrency := 4 |};
     dc_quality := {| dq_policy_name := "default"; dq_quarantine_policy := "default";
       dq_enabled := true; dq_quarantine_enabled := true; dq_quarantine_detail_mode := QD_FULL;
       dq_max_quarantine_rows := None; dq_max_quarantine_fraction := None |};
     dc_reconciliation := {| rpol_policy_name := "default"; rpol_required_for_state_commit := true;
       rpol_include_row_accounting := true; rpol_checks := [] |};
     dc_schema_contract := None; dc_current_projection := None;
     dc_execution := {| ep_engine := EE_AUTO; ep_progress_owner := PO_FRAMEWORK;
       ep_capability_profile := None; ep_apply_engine := EE_AUTO;
       ep_apply_capability_profile := None |};
     dc_extensions := {| ext_capture := None; ext_parser := None; ext_transform := None;
       ext_quality := None; ext_apply := None |};
     dc_enabled := true; dc_config_schema_version := 1 |}.

Definition demo_override (id : string) (f : OverrideField) (v : override_value) (p : Z) : RuntimeOverride :=
  {| ro_override_id := id; ro_dataset_id := "orders"; ro_field := f; ro_value := v;
     ro_reason := "incident"; ro_requested_by := "ops"; ro_created_at := utc 10;
     ro_valid_from := utc 10; ro_valid_to := Some (utc 100); ro_precedence := p;
     ro_enabled := true |}.

Definition demo_overrides : list RuntimeOverride :=
  [demo_override "b" OF_PRIORITY (OV_int 5) 0; demo_override "a" OF_PRIORITY (OV_int 9) 1;
   demo_override "c" OF_ENABLED (OV_bool false) 0].

Definition demo_hash (c : DatasetConfig) : string := dc_dataset_id c.

Lemma resolve_effective_values_witness :
  exists r, resolve_effective_config demo_hash demo_config demo_overrides (utc 50) = Ok r /\
    erase_operational (eff_config r) = erase_operational demo_config /\
    read_field (eff_config r) OF_PRIORITY = Some (OV_int 9).
Proof.
  eexists. split; [vm_compute; reflexivity|]. split; [|vm_compute; reflexivity].
  eapply (proj1 (resolve_effective_values demo_hash demo_config demo_overrides (utc 50) _ eq_refl)).
Defined.

Lemma resolve_order_independent_witness :
  resolve_effective_config demo_hash demo_config demo_overrides (utc 50) =
  resolve_effective_config demo_hash demo_config (rev demo_overrides) (utc 50) /\
  is_ok (resolve_effective_config demo_hash demo_config demo_overrides (utc 50)) = true.
Proof.
  split; [|vm_compute; reflexivity]. symmetry.
  eapply resolve_order_independent; [|apply Permutation_rev|vm_compute; reflexivity].
  apply (bool_decide_unpack _). vm_compute. exact I.
Defined.

(** The overlap override is applied without validation: a validated configuration and a
    validated override give an effective configuration whose load policy is invalid. *)
Lemma overlap_override_unvalidated :
  validate_load_policy demo_load = Ok tt /\ validate_dataset demo_config = Ok tt /\
  let o := demo_override "a" OF_WATERMARK_OVERLAP_SECONDS (OV_int 0) 0 in
  validate_override o = Ok tt /\
  (r ← resolve_effective_config demo_hash demo_config [o] (utc 50);
   validate_load_policy (dc_load (eff_config r))) =
  raise "ValueError" "WATERMARK capture requires a tie_breaker or a positive overlap window".
Proof. vm_compute. repeat split. Qed.
