(* ===== verification/Capabilities.v ===== *)
(** * Engine capability registry ([metadata/capabilities.py])

    A registry maps an engine and a profile name to the capture strategies, apply
    strategies and progress owners the engine is certified for. *)

From stdpp Require Import base gmap strings list.
From S2P Require Import Prelude PyValue ConfigTypes Config.

Record EngineCapability := {
  cap_profile_name : string;
  cap_engine : ExecutionEngine;
  cap_capture_strategies : list CaptureStrategy;
  cap_apply_strategies : list ApplyStrategy;
  cap_progress_owners : list ProgressOwner;
  cap_supports_composite_watermark : bool;
  cap_supports_native_cdc : bool;
  cap_supports_complete_snapshot_evidence : bool
}.

Definition DEFAULT_CAPABILITY_PROFILE : string := "default".
Definition DATAFLOW_GEN2_INCREMENTAL_BUCKET_PROFILE : string := "dataflow_gen2_incremental_bucket_v1".
Definition DEBEZIUM_KAFKA_PROFILE : string := "debezium_kafka_v1".
Definition DELTA_CDF_PROFILE : string := "delta_cdf_v1".

Definition _FRAMEWORK_APPLY_STRATEGIES : list ApplyStrategy :=
  [AS_APPEND; AS_REPLACE; AS_UPSERT; AS_SCD1; AS_SCD2; AS_SNAPSHOT_DIFF; AS_CURRENT_PROJECTION].

Definition all_captures : list CaptureStrategy :=
  [CS_FULL; CS_WATERMARK; CS_CDC; CS_MIRROR; CS_STREAM; CS_SNAPSHOT; CS_PROJECTION].

Definition all_applies : list ApplyStrategy :=
  [AS_APPEND; AS_REPLACE; AS_UPSERT; AS_SCD1; AS_SCD2; AS_SNAPSHOT_DIFF; AS_CURRENT_PROJECTION].

(** The free-text [notes] are left out. *)
Definition _DEFAULT_CAPABILITIES : list EngineCapability :=
  [ {| cap_profile_name := DEFAULT_CAPABILITY_PROFILE; cap_engine := EE_FABRIC_COPY_JOB;
       cap_capture_strategies := [CS_FULL; CS_WATERMARK; CS_CDC]; cap_apply_strategies := [];
       cap_progress_owners := [PO_FABRIC_NATIVE]; cap_supports_composite_watermark := false;
       cap_supports_native_cdc := true; cap_supports_complete_snapshot_evidence := true |};
    {| cap_profile_name := DEFAULT_CAPABILITY_PROFILE; cap_engine := EE_FABRIC_COPY_ACTIVITY;
       cap_capture_strategies := [CS_FULL; CS_WATERMARK; CS_SNAPSHOT]; cap_apply_strategies := [];
       cap_progress_owners := [PO_FRAMEWORK]; cap_supports_composite_watermark := true;
       cap_supports_native_cdc := false; cap_supports_complete_snapshot_evidence := true |};
    {| cap_profile_name := DEFAULT_CAPABILITY_PROFILE; cap_engine := EE_DATAFLOW_GEN2;
       cap_capture_strategies := [CS_FULL; CS_SNAPSHOT]; cap_apply_strategies := [];
       cap_progress_owners := [PO_FRAMEWORK; PO_FABRIC_NATIVE];
       cap_supports_composite_watermark := false;
       cap_supports_native_cdc := false; cap_supports_complete_snapshot_evidence := true |};
    {| cap_profile_name := DATAFLOW_GEN2_INCREMENTAL_BUCKET_PROFILE; cap_engine := EE_DATAFLOW_GEN2;
       cap_capture_strategies := [CS_WATERMARK]; cap_apply_strategies := [];
       cap_progress_owners := [PO_FABRIC_NATIVE]; cap_supports_composite_watermark := false;
       cap_supports_native_cdc := false; cap_supports_complete_snapshot_evidence := false |};
    {| cap_profile_name := DEFAULT_CAPABILITY_PROFILE; cap_engine := EE_SPARK;
       cap_capture_strategies := [CS_FULL; CS_WATERMARK; CS_CDC; CS_SNAPSHOT; CS_STREAM; CS_PROJECTION];
       cap_apply_strategies := _FRAMEWORK_APPLY_STRATEGIES;
       cap_progress_owners := [PO_FRAMEWORK; PO_EXTERNAL]; cap_supports_composite_watermark := true;
       cap_supports_native_cdc := false; cap_supports_complete_snapshot_evidence := true |};
    {| cap_profile_name := DELTA_CDF_PROFILE; cap_engine := EE_SPARK;
       cap_capture_strategies := [CS_CDC]; cap_apply_strategies := [];
       cap_progress_owners := [PO_FRAMEWORK]; cap_supports_composite_watermark := false;
       cap_supports_native_cdc := false; cap_supports_complete_snapshot_evidence := false |};
    {| cap_profile_name := DEFAULT_CAPABILITY_PROFILE; cap_engine := EE_FABRIC_MIRRORING;
       cap_capture_strategies := [CS_MIRROR; CS_CDC]; cap_apply_strategies := [];
       cap_progress_owners := [PO_FABRIC_NATIVE]; cap_supports_composite_watermark := false;
       cap_supports_native_cdc := true; cap_supports_complete_snapshot_evidence := true |};
    {| cap_profile_name := DEFAULT_CAPABILITY_PROFILE; cap_engine := EE_EXTERNAL_CDC;
       cap_capture_strategies := [CS_CDC; CS_STREAM]; cap_apply_strategies := [];
       cap_progress_owners := [PO_EXTERNAL]; cap_supports_composite_watermark := false;
       cap_supports_native_cdc := true; cap_supports_complete_snapshot_evidence := true |};
    {| cap_profile_name := DEBEZIUM_KAFKA_PROFILE; cap_engine := EE_EXTERNAL_CDC;
       cap_capture_strategies := [CS_CDC]; cap_apply_strategies := [];
       cap_progress_owners := [PO_EXTERNAL]; cap_supports_composite_watermark := false;
       cap_supports_native_cdc := true; cap_supports_complete_snapshot_evidence := false |};
    {| cap_profile_name := DEFAULT_CAPABILITY_PROFILE; cap_engine := EE_SQL;
       cap_capture_strategies := [CS_FULL; CS_WATERMARK; CS_SNAPSHOT]; cap_apply_strategies := [];
       cap_progress_owners := [PO_FRAMEWORK]; cap_supports_composite_watermark := true;
       cap_supports_native_cdc := false; cap_supports_complete_snapshot_evidence := true |};
    {| cap_profile_name := DEFAULT_CAPABILITY_PROFILE; cap_engine := EE_CUSTOM;
       cap_capture_strategies := all_captures; cap_apply_strategies := all_applies;
       cap_progress_owners := [PO_FRAMEWORK; PO_FABRIC_NATIVE; PO_EXTERNAL];
       cap_supports_composite_watermark := true;
       cap_supports_native_cdc := true; cap_supports_complete_snapshot_evidence := true |} ].

Definition capability_key (c : EngineCapability) : ExecutionEngine * string :=
  (cap_engine c, cap_profile_name c).

(** A registry holds its capabilities; [CapabilityRegistry] refuses two with the same key. *)
Definition CapabilityRegistry : Type := list EngineCapability.

Definition make_CapabilityRegistry (capabilities : list EngineCapability) : res CapabilityRegistry :=
  if negb (unique (map capability_key capabilities)) then
    raise "ValueError" "duplicate execution engine capability profile"
  else Ok capabilities.

(** [profile_name or DEFAULT_CAPABILITY_PROFILE] *)
Definition profile_or_default (profile_name : option string) : string :=
  if falsy_string profile_name then DEFAULT_CAPABILITY_PROFILE
  else default DEFAULT_CAPABILITY_PROFILE profile_name.

Definition capability_for (registry : CapabilityRegistry) (engine : ExecutionEngine)
    (profile_name : option string) : res EngineCapability :=
  match list_find (fun c => capability_key c = (engine, profile_or_default profile_name)) registry with
  | Some (_, c) => Ok c
  | None => raise "UnsupportedExecutionCombination" "no capability profile registered"
  end.

Definition resolve_capture_engine (config : DatasetConfig) : res ExecutionEngine :=
  if negb (bool_decide (ep_engine (dc_execution config) = EE_AUTO)) then
    Ok (ep_engine (dc_execution config))
  else if is_some (ep_capability_profile (dc_execution config)) then
    raise "UnsupportedExecutionCombination"
      "capture capability_profile requires an explicit execution engine"
  else if bool_decide (lp_capture_strategy (dc_load config) = CS_MIRROR) then Ok EE_FABRIC_MIRRORING
  else Ok EE_SPARK.

Definition resolve_apply_engine (config : DatasetConfig) : res ExecutionEngine :=
  if negb (bool_decide (ep_apply_engine (dc_execution config) = EE_AUTO)) then
    Ok (ep_apply_engine (dc_execution config))
  else if is_some (ep_apply_capability_profile (dc_execution config)) then
    raise "UnsupportedExecutionCombination" "apply_capability_profile requires an explicit apply_engine"
  else Ok EE_SPARK.

(** A WATERMARK dataset whose watermark has tie-breaker columns. *)
Definition composite_watermark (config : DatasetConfig) : bool :=
  bool_decide (lp_capture_strategy (dc_load config) = CS_WATERMARK)
  && match lp_watermark (dc_load config) with
     | Some w => negb (bool_decide (wm_tie_breaker w = []))
     | None => false
     end.

Definition native_authorities : list ExecutionEngine :=
  [EE_FABRIC_COPY_JOB; EE_DATAFLOW_GEN2; EE_FABRIC_MIRRORING; EE_CUSTOM].

Definition validate_capture (registry : CapabilityRegistry) (config : DatasetConfig) :
    res ExecutionEngine :=
  engine ← resolve_capture_engine config;
  capability ← capability_for registry engine (ep_capability_profile (dc_execution config));
  let capture := lp_capture_strategy (dc_load config) in
  let owner := ep_progress_owner (dc_execution config) in
  if negb (bool_decide (capture ∈ cap_capture_strategies capability)) then
    raise "UnsupportedExecutionCombination" "does not support capture strategy"
  else if negb (bool_decide (owner ∈ cap_progress_owners capability)) then
    raise "UnsupportedExecutionCombination" "does not allow progress owner"
  else if composite_watermark config && negb (cap_supports_composite_watermark capability) then
    raise "UnsupportedExecutionCombination" "cannot prove composite WATERMARK ordering"
  else if bool_decide (owner = PO_FABRIC_NATIVE) && negb (bool_decide (engine ∈ native_authorities)) then
    raise "UnsupportedExecutionCombination"
      "FABRIC_NATIVE progress owner requires a native Fabric capture authority"
  else Ok engine.

Definition validate_apply (registry : CapabilityRegistry) (config : DatasetConfig) :
    res ExecutionEngine :=
  engine ← resolve_apply_engine config;
  capability ← capability_for registry engine (ep_apply_capability_profile (dc_execution config));
  if negb (bool_decide (lp_apply_strategy (dc_load config) ∈ cap_apply_strategies capability)) then
    raise "UnsupportedExecutionCombination" "does not certify apply strategy"
  else Ok engine.

Definition validate (registry : CapabilityRegistry) (config : DatasetConfig) : res ExecutionEngine :=
  capture_engine ← validate_capture registry config;
  _ ← validate_apply registry config;
  Ok capture_engine.

(** ** Lemmas *)

Lemma capability_for_Ok registry e p c :
  capability_for registry e p = Ok c ->
  c ∈ registry /\ cap_engine c = e /\ cap_profile_name c = profile_or_default p.
Proof.
  unfold capability_for. destruct (list_find _ _) as [[i c']|] eqn:E; [|done]. intros [= ->].
  apply list_find_Some in E as (Hi & Hk & _). unfold capability_key in Hk. simplify_eq.
  split; [by eapply list_elem_of_lookup_2|done].
Qed.

(** A capability in the default list, case by case. *)
Lemma default_capability_cases (P : EngineCapability -> Prop) :
  Forall P _DEFAULT_CAPABILITIES -> forall c, c ∈ _DEFAULT_CAPABILITIES -> P c.
Proof. rewrite Forall_forall. auto. Qed.

Lemma validate_capture_Ok registry config e :
  validate_capture registry config = Ok e ->
  exists c, c ∈ registry /\ cap_engine c = e /\
    lp_capture_strategy (dc_load config) ∈ cap_capture_strategies c /\
    ep_progress_owner (dc_execution config) ∈ cap_progress_owners c /\
    (composite_watermark config = true -> cap_supports_composite_watermark c = true) /\
    (ep_progress_owner (dc_execution config) = PO_FABRIC_NATIVE -> e ∈ native_authorities).
Proof.
  unfold validate_capture. intros (e' & _ & (c & Hc & H)%bind_Ok)%bind_Ok.
  apply capability_for_Ok in Hc as (Hin & He & _). exists c.
  case_bool_decide; [|done]. case_bool_decide; [|done]. cbn [negb] in H.
  destruct (composite_watermark config && _) eqn:E1; [done|].
  destruct (bool_decide _ && _) eqn:E2; [done|]. injection H as ->.
  apply andb_false_iff in E1, E2. rewrite negb_false_iff in E1, E2.
  repeat split; [done..| |].
  - intros Hw. destruct E1; congruence.
  - intros Ho. destruct E2 as [E2|E2]; [by apply bool_decide_eq_false in E2|].
    by apply bool_decide_eq_true in E2.
Qed.

Lemma validate_apply_Ok registry config e :
  validate_apply registry config = Ok e ->
  exists c, c ∈ registry /\ cap_engine c = e /\
    lp_apply_strategy (dc_load config) ∈ cap_apply_strategies c.
Proof.
  unfold validate_apply. intros (e' & _ & (c & Hc & H)%bind_Ok)%bind_Ok.
  apply capability_for_Ok in Hc as (Hin & He & _). exists c.
  case_bool_decide; [|done]. injection H as ->. done.
Qed.

(** What the default registry lets through is safe: the target is written by SPARK or a
    CUSTOM engine only; progress owned by Fabric comes from a native authority and, with a
    composite watermark, from a CUSTOM engine only; CDC captured by SPARK is never owned by
    Fabric; and the default settings (AUTO engines, FRAMEWORK progress) are accepted for
    every capture strategy but MIRROR and every apply strategy. *)
Theorem default_registry_guarantees config :
  (forall e, validate_apply _DEFAULT_CAPABILITIES config = Ok e -> e = EE_SPARK \/ e = EE_CUSTOM) /\
  (forall e, validate_capture _DEFAULT_CAPABILITIES config = Ok e ->
     ep_progress_owner (dc_execution config) = PO_FABRIC_NATIVE ->
     e ∈ native_authorities /\ (composite_watermark config = true -> e = EE_CUSTOM)) /\
  (ep_engine (dc_execution config) = EE_AUTO -> ep_apply_engine (dc_execution config) = EE_AUTO ->
   ep_capability_profile (dc_execution config) = None ->
   ep_apply_capability_profile (dc_execution config) = None ->
   ep_progress_owner (dc_execution config) = PO_FRAMEWORK ->
   if bool_decide (lp_capture_strategy (dc_load config) = CS_MIRROR) then
     validate _DEFAULT_CAPABILITIES config =
       raise "UnsupportedExecutionCombination" "does not allow progress owner"
   else validate _DEFAULT_CAPABILITIES config = Ok EE_SPARK).
Proof.
  split; [|split].
  - intros e (c & Hin & <- & Happly)%validate_apply_Ok. revert c Hin Happly.
    apply (default_capability_cases (fun c => _ ∈ cap_apply_strategies c -> _)).
    unfold _DEFAULT_CAPABILITIES; rewrite !Forall_cons, Forall_nil; repeat split; simpl; auto; try by intros ?%elem_of_nil.
  - intros e (c & Hin & <- & _ & Hown & Hcomp & Hnat)%validate_capture_Ok Ho.
    split; [by apply Hnat|]. intros Hw. specialize (Hcomp Hw). rewrite Ho in Hown. clear Hnat.
    revert c Hin Hown Hcomp.
    apply (default_capability_cases (fun c => _ ∈ cap_progress_owners c -> _ -> _)).
    unfold _DEFAULT_CAPABILITIES; rewrite !Forall_cons, Forall_nil; repeat split; simpl; try done; intros Hown _; exfalso; revert Hown; set_solver.
  - unfold validate, validate_capture, validate_apply, resolve_capture_engine, resolve_apply_engine,
      composite_watermark.
    intros -> -> -> -> ->.
    destruct (lp_capture_strategy (dc_load config)), (lp_apply_strategy (dc_load config));
      try (vm_compute; reflexivity); destruct (lp_watermark (dc_load config)) as [[? [] ?]|]; reflexivity.
Qed.

(** The default registry is well formed. *)
Lemma default_registry_wf : make_CapabilityRegistry _DEFAULT_CAPABILITIES = Ok _DEFAULT_CAPABILITIES.
Proof. vm_compute. reflexivity. Qed.

Lemma default_registry_guarantees_witness :
  validate _DEFAULT_CAPABILITIES demo_config = Ok EE_SPARK.
Proof. apply (proj2 (proj2 (default_registry_guarantees demo_config))); reflexivity. Defined.
