(* ===== verification/DispatchContracts.v ===== *)
(** * Dispatch and execution-group contracts

    [contracts/dispatch.py], [contracts/group_policy.py], the run audits of
    [contracts/audit.py] and the bounded text of [contracts/audit_safety.py].  [redact] stands
    for the three [re.sub] calls of [sanitize_audit_text]. *)

From stdpp Require Import base gmap strings list.
From Stdlib Require Import QArith.
From S2P Require Import Prelude PyText PyValue PyDict Temporal ConfigTypes Config RunAudit.
#[local] Close Scope Q_scope.
#[local] Open Scope Z_scope.

(** ** [contracts/dispatch.py] *)

Record DatasetDispatchOutcome := {
  ddo_dataset_run_id : N;
  ddo_status : DatasetStatus;
  ddo_retryable : option bool;
  ddo_error_code : option string;
  ddo_error_message : option string
}.
#[export] Instance DatasetDispatchOutcome_eq_dec : EqDecision DatasetDispatchOutcome.
Proof. solve_decision. Defined.

Record PipelineDispatchResult := {
  pdr_pipeline_run_id : N;
  pdr_status : PipelineStatus;
  pdr_selected_dataset_ids : list string;
  pdr_outcomes : list (string * DatasetDispatchOutcome);
  pdr_max_concurrency : Z
}.

(** The loop of [PipelineDispatchResult.outcome_for]. *)
Definition outcome_for (r : PipelineDispatchResult) (dataset_id : string) : res DatasetDispatchOutcome :=
  match dget (pdr_outcomes r) dataset_id with
  | Some outcome => Ok outcome
  | None => raise "KeyError" "dataset not part of dispatch result"
  end.

(** ** [contracts/group_policy.py] *)

Inductive PipelineFailurePolicy := FP_FAIL_AT_END | FP_CRITICALITY_AWARE.
#[export] Instance PipelineFailurePolicy_eq_dec : EqDecision PipelineFailurePolicy.
Proof. solve_decision. Defined.

Record DataQualityPolicyPatch := {
  pat_enabled : option bool;
  pat_quarantine_enabled : option bool;
  pat_quarantine_detail_mode : option QuarantineDetailMode;
  pat_max_quarantine_rows : option Z;
  pat_max_quarantine_fraction : option Q
}.

Definition empty_patch : DataQualityPolicyPatch :=
  {| pat_enabled := None; pat_quarantine_enabled := None; pat_quarantine_detail_mode := None;
     pat_max_quarantine_rows := None; pat_max_quarantine_fraction := None |}.

(** [DataQualityPolicyPatch.apply]: the values of the patch that are not [None] replace those
    of the policy. *)
Definition patch_apply (p : DataQualityPolicyPatch) (policy : DataQualityPolicy) : DataQualityPolicy :=
  {| dq_policy_name := dq_policy_name policy;
     dq_quarantine_policy := dq_quarantine_policy policy;
     dq_enabled := default (dq_enabled policy) (pat_enabled p);
     dq_quarantine_enabled := default (dq_quarantine_enabled policy) (pat_quarantine_enabled p);
     dq_quarantine_detail_mode :=
       default (dq_quarantine_detail_mode policy) (pat_quarantine_detail_mode p);
     dq_max_quarantine_rows := match pat_max_quarantine_rows p with
                               | Some z => Some z | None => dq_max_quarantine_rows policy end;
     dq_max_quarantine_fraction := match pat_max_quarantine_fraction p with
                               | Some q => Some q | None => dq_max_quarantine_fraction policy end |}.

Record ExecutionGroupPolicy := {
  egp_execution_group : string;
  egp_failure_policy : PipelineFailurePolicy;
  egp_max_concurrency : option Z;
  egp_quality_defaults : DataQualityPolicyPatch;
  egp_dataset_quality_overrides : list (string * DataQualityPolicyPatch)
}.

(** The bounds of the fields of a patch. *)
Definition validate_patch (p : DataQualityPolicyPatch) : res unit :=
  if (default 0 (pat_max_quarantine_rows p) <? 0)
     || negb (match pat_max_quarantine_fraction p with
              | Some q => Qle_bool 0 q && Qle_bool q 1 | None => true end) then bad_field
  else Ok tt.

Definition validate_dataset_override_keys (p : ExecutionGroupPolicy) : res unit :=
  if negb (nonempty (egp_execution_group p)) || (default 1 (egp_max_concurrency p) <=? 0) then bad_field
  else
    _ ← validate_patch (egp_quality_defaults p);
    _ ← mapM_res (fun kp => validate_patch kp.2) (egp_dataset_quality_overrides p);
    if existsb (fun kp => blank kp.1) (egp_dataset_quality_overrides p) then
      raise "ValueError" "dataset_quality_overrides keys cannot be empty"
    else Ok tt.

Definition apply_to (p : ExecutionGroupPolicy) (config : DatasetConfig) : res DatasetConfig :=
  if negb (String.eqb (op_execution_group (dc_orchestration config)) (egp_execution_group p)) then
    raise "ValueError" "execution-group policy cannot apply to dataset in group"
  else
    let quality := patch_apply (egp_quality_defaults p) (dc_quality config) in
    let quality :=
      match dget (egp_dataset_quality_overrides p) (dc_dataset_id config) with
      | Some dataset_patch => patch_apply dataset_patch quality
      | None => quality
      end in
    Ok (with_quality config quality).

(** ** [contracts/audit_safety.py] *)

Definition AUDIT_MAX_STRING : nat := 2048.
Definition _TRUNCATED : string := "... [truncated]".

(** [value[:n]] for [n >= 0] *)
Definition prefix_of (n : nat) (s : string) : string := String.substring 0 n s.

Definition _truncate_text (value : string) (limit : nat) : string :=
  if (String.length value <=? limit)%nat then value
  else prefix_of (limit - String.length _TRUNCATED) value +:+ _TRUNCATED.

Section sanitize.
Context (redact : string -> string).

Definition sanitize_audit_text (text : string) (max_length : nat) : string :=
  _truncate_text (redact text) max_length.
End sanitize.

(** ** The run audits of [contracts/audit.py] *)

Record PipelineRunAudit := {
  pra_pipeline_run_id : N;
  pra_environment : string;
  pra_domain : string;
  pra_status : PipelineStatus;
  pra_run_mode : RunMode;
  pra_started_at : datetime;
  pra_completed_at : option datetime;
  pra_domain_git_sha : string;
  pra_framework_version : string;
  pra_config_bundle_hash : string;
  pra_error_code : option string;
  pra_error_message : option string
}.

(** [validate_times] of the audits with a start and an optional completion. *)
Definition validate_span (started_at : datetime) (completed_at : option datetime) : res unit :=
  _ ← require_aware_datetime started_at "started_at";
  match completed_at with
  | Some completed =>
    _ ← require_aware_datetime completed "completed_at";
    if dt_utc completed <? dt_utc started_at then
      raise "ValueError" "completed_at cannot be before started_at"
    else Ok tt
  | None => Ok tt
  end.

Definition validate_PipelineRunAudit (a : PipelineRunAudit) : res unit :=
  if negb (nonempty (pra_environment a)) || negb (nonempty (pra_domain a))
     || negb (matches_class is_hex 7 64 (pra_domain_git_sha a))
     || negb (nonempty (pra_framework_version a))
     || negb (matches_class is_lower_hex 64 64 (pra_config_bundle_hash a))
     || negb (within 128 (pra_error_code a)) || negb (within 4096 (pra_error_message a)) then bad_field
  else
    _ ← validate_span (pra_started_at a) (pra_completed_at a);
    if bool_decide (pra_status a ∈ [PS_RUNNING; PS_SUCCESS])
       && (is_some (pra_error_code a) || is_some (pra_error_message a)) then
      raise "ValueError" "RUNNING/SUCCESS pipeline audit cannot carry failure details"
    else if negb (eqb (is_some (pra_error_code a)) (is_some (pra_error_message a))) then
      raise "ValueError" "pipeline error_code and error_message must be set together"
    else Ok tt.

Record DatasetRunAudit := {
  dra_dataset_run_id : N;
  dra_pipeline_run_id : N;
  dra_dataset_id : string;
  dra_attempt : Z;
  dra_run_mode : RunMode;
  dra_status : DatasetStatus;
  dra_effective_config_hash : string;
  dra_row_accounting : option RowAccounting;
  dra_mutations : MutationCounts;
  dra_error_code : option string;
  dra_error_message : option string;
  dra_retryable : option bool;
  dra_started_at : datetime;
  dra_completed_at : option datetime
}.

Definition validate_DatasetRunAudit (a : DatasetRunAudit) : res unit :=
  if negb (nonempty (dra_dataset_id a)) || (dra_attempt a <? 1)
     || negb (matches_class is_lower_hex 64 64 (dra_effective_config_hash a)) then bad_field
  else validate_span (dra_started_at a) (dra_completed_at a).

(** ** Lemmas *)

Lemma length_append s1 s2 : String.length (s1 +:+ s2) = (String.length s1 + String.length s2)%nat.
Proof. induction s1 as [|c s1 IH]; [done|]. change (S (String.length (s1 +:+ s2)) = S (String.length s1 + String.length s2)). by rewrite IH. Qed.

Lemma length_prefix_of n s : (String.length (prefix_of n s) <= n)%nat.
Proof.
  unfold prefix_of. revert n. induction s as [|c s IH]; intros [|n]; simpl; [lia..|].
  specialize (IH n). lia.
Qed.

(** Truncated text fits its limit when the limit has room for the marker. *)
Lemma truncate_text_bound value limit :
  (String.length _TRUNCATED <= limit)%nat -> (String.length (_truncate_text value limit) <= limit)%nat.
Proof.
  intros Hl. unfold _truncate_text. destruct (String.length value <=? limit)%nat eqn:E.
  - by apply Nat.leb_le.
  - rewrite length_append. pose proof (length_prefix_of (limit - String.length _TRUNCATED) value). lia.
Qed.

(** What a group policy gives: the dataset patch, else the group default, else the base. *)
Definition group_quality (p : ExecutionGroupPolicy) (config : DatasetConfig) : DataQualityPolicy :=
  patch_apply (default empty_patch (dget (egp_dataset_quality_overrides p) (dc_dataset_id config)))
    (patch_apply (egp_quality_defaults p) (dc_quality config)).

Lemma patch_apply_empty q : patch_apply empty_patch q = q.
Proof. by destruct q. Qed.

Lemma apply_to_Ok p c c' :
  apply_to p c = Ok c' ->
  op_execution_group (dc_orchestration c) = egp_execution_group p /\ c' = with_quality c (group_quality p c).
Proof.
  unfold apply_to, group_quality. destruct (String.eqb _ _) eqn:E; [|done]. apply String.eqb_eq in E.
  intros [= <-]. split; [done|]. by destruct (dget _ _); simpl; rewrite ?patch_apply_empty.
Qed.
