(* ===== verification/Planner.v ===== *)
(** * Dispatch planning ([orchestration/planner.py])

    The dictionaries of deployed and of selected datasets are association lists in insertion
    order; the sets of the depth-first search are [gset]s.  [list_datasets] is the answer of
    the repository, [config_hash] and [policy_hash] are parameters, since they are computed
    from Pydantic's [model_dump]. *)

From stdpp Require Import base gmap strings list relations sorting.
From S2P Require Import Prelude PyValue PyDict Temporal ConfigTypes Config Capabilities DispatchContracts.
#[local] Open Scope Z_scope.

Notation selection := (list (string * EffectiveDatasetConfig)).

Record DispatchPlan := {
  dp_evaluation_time : datetime;
  dp_selected_dataset_ids : list string;
  dp_effective_configs : selection;
  dp_deployed_dataset_ids : gset string;
  dp_max_concurrency : Z;
  dp_failure_policy : PipelineFailurePolicy;
  dp_execution_group_policy_hash : option string
}.

(** The loop of [DispatchPlan.effective_for]. *)
Definition effective_for (plan : DispatchPlan) (dataset_id : string) : res EffectiveDatasetConfig :=
  match dget (dp_effective_configs plan) dataset_id with
  | Some effective => Ok effective
  | None => raise "KeyError" "dataset not selected in dispatch plan"
  end.

Definition orchestration_of (e : EffectiveDatasetConfig) : OrchestrationPolicy :=
  dc_orchestration (eff_config e).
Definition dependencies_of (e : EffectiveDatasetConfig) : list string :=
  op_dependencies (orchestration_of e).

Definition _overrides_by_dataset (overrides : list RuntimeOverride) :
    list (string * list RuntimeOverride) :=
  foldl (fun grouped o =>
    dset grouped (ro_dataset_id o) (default [] (dget grouped (ro_dataset_id o)) ++ [o])) [] overrides.

(** ** The dependency graph *)

(** The check of the undeployed dependencies. *)
Definition check_deployed (selected : selection) (deployed_ids : gset string) : res unit :=
  if existsb (fun e => existsb (fun d => negb (bool_decide (d ∈ deployed_ids))) (dependencies_of e.2))
       selected then
    raise "OrchestrationIntegrityError" "dataset depends on undeployed dataset"
  else Ok tt.

(** [visiting] and [visited] *)
Record search := { visiting : gset string; visited : gset string }.

(** [visit], with fuel for the depth of the recursion. *)
Fixpoint visit (fuel : nat) (selected : selection) (s : search) (dataset_id : string) : res search :=
  match fuel with
  | O => raise "OutOfFuel" "visit"
  | S fuel =>
    if bool_decide (dataset_id ∈ visited s) then Ok s
    else if bool_decide (dataset_id ∈ visiting s) then
      raise "OrchestrationIntegrityError" "dependency cycle detected"
    else
      let s := {| visiting := {[dataset_id]} ∪ visiting s; visited := visited s |} in
      match dget selected dataset_id with
      | None => raise "KeyError" "selected"
      | Some effective =>
        s ← foldM (fun s dependency =>
              if dmem selected dependency then visit fuel selected s dependency else Ok s)
              s (dependencies_of effective);
        Ok {| visiting := visiting s ∖ {[dataset_id]}; visited := {[dataset_id]} ∪ visited s |}
      end
  end.

(** The recursion is as deep as the longest path: at most one call for every selected dataset
    and one that meets a dataset of the path again. *)
Definition visit_fuel (selected : selection) : nat := S (length selected).

Definition _validate_dependency_graph (selected : selection) (deployed_ids : gset string) : res unit :=
  _ ← check_deployed selected deployed_ids;
  _ ← foldM (visit (visit_fuel selected) selected) {| visiting := ∅; visited := ∅ |}
        (sort_on id (map fst selected));
  Ok tt.

(** ** Building the plan *)

Section build.
Context (config_hash : DatasetConfig -> string) (policy_hash : ExecutionGroupPolicy -> string).

(** [{config.dataset_id: config for config in repository.list_datasets()}] *)
Definition deployed_of (list_datasets : list DatasetConfig) : list (string * DatasetConfig) :=
  foldl (fun d c => dset d (dc_dataset_id c) c) [] list_datasets.

(** The checks of the group policy: the execution group that governs the plan. *)
Definition governed_group (deployed : list (string * DatasetConfig)) (execution_group : option string)
    (policy : option ExecutionGroupPolicy) : res (option string) :=
  match policy with
  | None => Ok execution_group
  | Some p =>
    if match execution_group with
       | Some g => negb (String.eqb g (egp_execution_group p)) | None => false end then
      raise "OrchestrationIntegrityError"
        "execution_group does not match execution_group_policy.execution_group"
    else
      let group_dataset_ids := map fst (filter (fun e =>
        op_execution_group (dc_orchestration e.2) = egp_execution_group p) deployed) in
      let unknown_policy_ids :=
        filter (fun i => i ∉ group_dataset_ids) (map fst (egp_dataset_quality_overrides p)) in
      if negb (bool_decide (unknown_policy_ids = [])) then
        raise "OrchestrationIntegrityError"
          "execution-group policy overrides datasets outside its group"
      else Ok (Some (egp_execution_group p))
  end.

(** [policy_applied], and whether the policy was applied. *)
Definition apply_policy (policy : option ExecutionGroupPolicy) (base : DatasetConfig) :
    res (DatasetConfig * bool) :=
  match policy with
  | Some p =>
    if String.eqb (op_execution_group (dc_orchestration base)) (egp_execution_group p) then
      c ← apply_to p base; Ok (c, true)
    else Ok (base, false)
  | None => Ok (base, false)
  end.

(** [effective.model_copy(update={"base_config_hash": base.config_hash})] *)
Definition with_base_hash (e : EffectiveDatasetConfig) (h : string) : EffectiveDatasetConfig :=
  {| eff_config := eff_config e; eff_base_config_hash := h;
     eff_effective_config_hash := eff_effective_config_hash e;
     eff_applied_override_ids := eff_applied_override_ids e |}.

(** The effective configuration of a deployed dataset. *)
Definition effective_of (policy : option ExecutionGroupPolicy)
    (overrides_by_dataset : list (string * list RuntimeOverride)) (evaluation_time : datetime)
    (dataset_id : string) (base : DatasetConfig) : res EffectiveDatasetConfig :=
  applied ← apply_policy policy base;
  effective ← resolve_effective_config config_hash applied.1
                (default [] (dget overrides_by_dataset dataset_id)) evaluation_time;
  Ok (if applied.2 : bool then with_base_hash effective (config_hash base) else effective).

(** The three [continue] conditions. *)
Definition is_wanted (execution_group : option string) (requested : option (list string))
    (dataset_id : string) (config : DatasetConfig) : bool :=
  dc_enabled config
  && match execution_group with
     | Some g => String.eqb (op_execution_group (dc_orchestration config)) g | None => true end
  && match requested with Some ids => bool_decide (dataset_id ∈ ids) | None => true end.

(** The body of the loop over the deployed datasets. *)
Definition plan_step (policy : option ExecutionGroupPolicy)
    (overrides_by_dataset : list (string * list RuntimeOverride)) (evaluation_time : datetime)
    (execution_group : option string) (requested : option (list string))
    (registry : CapabilityRegistry) (effective_by_id : selection) (entry : string * DatasetConfig) :
    res selection :=
  effective ← effective_of policy overrides_by_dataset evaluation_time entry.1 entry.2;
  if is_wanted execution_group requested entry.1 (eff_config effective) then
    _ ← validate registry (eff_config effective);
    Ok (dset effective_by_id entry.1 effective)
  else Ok effective_by_id.

(** [sorted] by [(priority, dataset_id)] *)
Definition priority_leb (a b : string * EffectiveDatasetConfig) : bool :=
  (op_priority (orchestration_of a.2) <? op_priority (orchestration_of b.2))
  || ((op_priority (orchestration_of a.2) =? op_priority (orchestration_of b.2))
      && str_leb a.1 b.1).

(** [min(limits)] *)
Definition list_min (z : Z) (l : list Z) : Z := foldl Z.min z l.

Definition effective_concurrency (max_concurrency : Z) (policy : option ExecutionGroupPolicy)
    (effective_by_id : selection) : Z :=
  match map (fun e => op_max_concurrency (orchestration_of e.2)) effective_by_id with
  | [] => 1
  | z :: l =>
    let config_limit := list_min z l in
    let limits := [config_limit; Z.of_nat (length effective_by_id)] in
    let limits := match policy ≫= egp_max_concurrency with
                  | Some z => if z =? 0 then limits else limits ++ [z]
                  | None => limits
                  end in
    list_min max_concurrency limits
  end.

(** [evaluation_time] is [as_of or utc_now()]. *)
Definition build_dispatch_plan (list_datasets : list DatasetConfig) (execution_group : option string)
    (policy : option ExecutionGroupPolicy) (requested : option (list string))
    (overrides : list RuntimeOverride) (max_concurrency : Z) (evaluation_time : datetime)
    (registry : CapabilityRegistry) : res DispatchPlan :=
  if max_concurrency <=? 0 then raise "ValueError" "max_concurrency must be positive"
  else
    let deployed := deployed_of list_datasets in
    let deployed_ids : gset string := list_to_set (map fst deployed) in
    execution_group ← governed_group deployed execution_group policy;
    if negb (bool_decide (filter (fun i => i ∉ deployed_ids) (default [] requested) = [])) then
      raise "OrchestrationIntegrityError" "requested datasets are not deployed"
    else
      let overrides_by_dataset := _overrides_by_dataset overrides in
      if negb (bool_decide (filter (fun i => i ∉ deployed_ids) (map fst overrides_by_dataset) = [])) then
        raise "OrchestrationIntegrityError" "runtime overrides target undeployed datasets"
      else
        effective_by_id ← foldM (plan_step policy overrides_by_dataset evaluation_time
                                   execution_group requested registry) [] deployed;
        _ ← _validate_dependency_graph effective_by_id deployed_ids;
        let ordered := sort_by priority_leb effective_by_id in
        Ok {| dp_evaluation_time := evaluation_time;
              dp_selected_dataset_ids := map fst ordered;
              dp_effective_configs := ordered;
              dp_deployed_dataset_ids := deployed_ids;
              dp_max_concurrency := effective_concurrency max_concurrency policy effective_by_id;
              dp_failure_policy := match policy with
                                   | Some p => egp_failure_policy p | None => FP_FAIL_AT_END end;
              dp_execution_group_policy_hash := policy_hash <$> policy |}.
End build.

(** ** Decisions of the dispatcher *)

Definition succeeded (outcomes : gmap string DatasetDispatchOutcome) (dataset_id : string) : bool :=
  match outcomes !! dataset_id with
  | Some outcome => bool_decide (ddo_status outcome = DS_SUCCEEDED)
  | None => false
  end.

Definition blocking_dependencies (plan : DispatchPlan) (dataset_id : string)
    (outcomes : gmap string DatasetDispatchOutcome) : res (list string) :=
  effective ← effective_for plan dataset_id;
  let unavailable :=
    filter (fun d => d ∉ dp_selected_dataset_ids plan) (dependencies_of effective) in
  let failed :=
    filter (fun d => is_Some (outcomes !! d) /\ succeeded outcomes d = false) (dependencies_of effective) in
  Ok (sort_on id (remove_dups (unavailable ++ failed))).

(** Whether [ready_dataset_ids] keeps a dataset. *)
Definition is_ready (plan : DispatchPlan) (remaining : gset string)
    (outcomes : gmap string DatasetDispatchOutcome) (dataset_id : string) : res bool :=
  if bool_decide (dataset_id ∈ remaining) then
    effective ← effective_for plan dataset_id;
    Ok (forallb (succeeded outcomes) (dependencies_of effective))
  else Ok false.

Definition ready_dataset_ids (plan : DispatchPlan) (remaining : gset string)
    (outcomes : gmap string DatasetDispatchOutcome) : res (list string) :=
  filterM_res (is_ready plan remaining outcomes) (dp_selected_dataset_ids plan).

Definition _DEFAULT_REQUIRED_CRITICALITIES : list Criticality := [CR_HIGH; CR_CRITICAL].

(** Whether an outcome fails the pipeline under [CRITICALITY_AWARE]. *)
Definition is_fatal (plan : DispatchPlan) (required_criticalities : list Criticality)
    (entry : string * DatasetDispatchOutcome) : res bool :=
  if bool_decide (ddo_status entry.2 = DS_SUCCEEDED) then Ok false
  else
    effective ← effective_for plan entry.1;
    Ok (bool_decide (op_criticality (orchestration_of effective) ∈ required_criticalities)).

(** The loop over the outcomes, which stops at the first fatal one. *)
Fixpoint any_fatal (plan : DispatchPlan) (required_criticalities : list Criticality)
    (entries : list (string * DatasetDispatchOutcome)) : res bool :=
  match entries with
  | [] => Ok false
  | entry :: entries =>
    fatal ← is_fatal plan required_criticalities entry;
    if fatal : bool then Ok true else any_fatal plan required_criticalities entries
  end.

Definition aggregate_pipeline_status (plan : DispatchPlan)
    (outcomes : gmap string DatasetDispatchOutcome) (failure_policy : option PipelineFailurePolicy)
    (required_criticalities : list Criticality) : res PipelineStatus :=
  if bool_decide (dp_selected_dataset_ids plan = []) then Ok PS_SUCCESS
  else if forallb (fun e => bool_decide (ddo_status e.2 = DS_SUCCEEDED)) (map_to_list outcomes) then
    Ok PS_SUCCESS
  else if bool_decide (default (dp_failure_policy plan) failure_policy = FP_FAIL_AT_END) then
    Ok PS_FAILED
  else
    fatal ← any_fatal plan required_criticalities (map_to_list outcomes);
    Ok (if fatal : bool then PS_FAILED else PS_PARTIAL_SUCCESS).

(** ** The depth-first search decides acyclicity *)

Lemma keq_string (a b : string) : keq a b = true <-> a = b.
Proof. apply String.eqb_eq. Qed.

Lemma size_list_to_set_le (l : list string) : (size (list_to_set l : gset string) <= length l)%nat.
Proof.
  induction l as [|x l IH]; [by rewrite list_to_set_nil, size_empty|].
  rewrite list_to_set_cons, size_union_alt, size_singleton. cbn [length].
  assert (size (list_to_set l ∖ {[x]} : gset string) <= size (list_to_set l : gset string))%nat
    by (apply subseteq_size; set_solver). lia.
Qed.

Section graph.
Context (selected : selection).

(** [x] depends on the selected dataset [y]. *)
Definition edge (x y : string) : Prop :=
  exists e, dget selected x = Some e /\ y ∈ dependencies_of e /\ dmem selected y = true.

Definition acyclic : Prop := forall x, ~ tc edge x x.

Definition selected_ids : gset string := list_to_set (map fst selected).

Lemma dmem_selected x : dmem selected x = true <-> x ∈ selected_ids.
Proof.
  unfold selected_ids. rewrite elem_of_list_to_set, dmem_true. split.
  - intros [e (k & <-%keq_string & Hin)%dget_Some_elem]. apply list_elem_of_fmap. by exists (k, e).
  - intros ([k e] & -> & Hin)%list_elem_of_fmap. simpl. destruct (dget selected k) eqn:E; [done|].
    apply dget_None in E. rewrite Forall_forall in E. specialize (E _ Hin). simpl in E.
    by rewrite keq_refl in E.
Qed.

(** A successful call leaves [visiting] as it was, and marks the dataset. *)
Lemma visit_visiting fuel s x s' :
  visit fuel selected s x = Ok s' ->
  visiting s' = visiting s /\ visited s ⊆ visited s' /\ x ∈ visited s'.
Proof.
  revert s x s'. induction fuel as [|fuel IH]; intros s x s'; simpl; [done|].
  case_bool_decide as Hx; [by intros [= <-]|]. case_bool_decide as Hv; [done|].
  destruct (dget selected x) as [e|]; [|done]. intros (s1 & Hf & [= <-])%bind_Ok.
  assert (visiting s1 = {[x]} ∪ visiting s /\ visited s ⊆ visited s1) as [Hi Hd].
  { refine (foldM_ind _ (fun _ s1 => visiting s1 = {[x]} ∪ visiting s /\ visited s ⊆ visited s1)
      _ _ _ Hf _ _); [done|].
    intros done d sa sb _ [Ha Hb] Hstep. destruct (dmem selected d); [|by injection Hstep as <-].
    apply IH in Hstep as (Hc & Hd & _). rewrite Hc. split; [done|]. set_solver. }
  simpl. rewrite Hi. split; [|set_solver]. set_solver.
Qed.

(** Every dataset it marks starts no infinite chain of dependencies. *)
Lemma visit_Acc fuel s x s' :
  visit fuel selected s x = Ok s' ->
  (forall y, y ∈ visited s -> Acc (flip edge) y) -> forall y, y ∈ visited s' -> Acc (flip edge) y.
Proof.
  revert s x s'. induction fuel as [|fuel IH]; intros s x s'; simpl; [done|].
  case_bool_decide as Hx; [by intros [= <-]|]. case_bool_decide as Hv; [done|].
  destruct (dget selected x) as [e|] eqn:Ee; [|done]. intros (s1 & Hf & [= <-])%bind_Ok Hacc.
  assert ((forall y, y ∈ visited s1 -> Acc (flip edge) y) /\
          forall d, d ∈ dependencies_of e -> dmem selected d = true -> d ∈ visited s1) as [Ha Hd].
  { refine (foldM_ind _ (fun done s1 => (forall y, y ∈ visited s1 -> Acc (flip edge) y) /\
      forall d, d ∈ done -> dmem selected d = true -> d ∈ visited s1) _ _ _ Hf _ _).
    - split; [done|]. by intros d ?%elem_of_nil.
    - intros done d sa sb _ [Ha Hb] Hstep. destruct (dmem selected d) eqn:Ed.
      + split; [by eapply IH|]. apply visit_visiting in Hstep as (_ & Hsub & Hin).
        intros d' [?|?%list_elem_of_singleton]%elem_of_app ?; [|by subst].
        apply Hsub. by apply Hb.
      + injection Hstep as <-. split; [done|].
        intros d' [?|?%list_elem_of_singleton]%elem_of_app ?; [by apply Hb|congruence]. }
  simpl. intros y [->%elem_of_singleton|Hy]%elem_of_union; [|by apply Ha].
  constructor. intros z (e' & He' & Hz & Hm). simplify_eq. by apply Ha, Hd.
Qed.

(** With enough fuel a call succeeds, or reports a cycle that exists. *)
Definition cycle_error (e : exn) : Prop :=
  exn_type e = "OrchestrationIntegrityError" /\ exists x, tc edge x x.

Lemma visit_total fuel s x :
  dmem selected x = true -> visiting s ⊆ selected_ids ->
  (forall y, y ∈ visiting s -> tc edge y x) ->
  (size selected_ids < fuel + size (visiting s))%nat ->
  (exists s', visit fuel selected s x = Ok s') \/
  (exists e, visit fuel selected s x = Raise e /\ cycle_error e).
Proof.
  revert s x. induction fuel as [|fuel IH]; intros s x Hx Hsub Hpath Hfuel.
  { exfalso. apply subseteq_size in Hsub. lia. }
  simpl. case_bool_decide as Hd; [by eauto|]. case_bool_decide as Hv.
  { right. eexists. split; [done|]. split; [done|]. exists x. by apply Hpath. }
  destruct (dget selected x) as [e|] eqn:Ee; [|by apply dmem_true in Hx as [? ?]; congruence].
  assert ({[x]} ∪ visiting s ⊆ selected_ids) as Hsub' by (apply dmem_selected in Hx; set_solver).
  destruct (foldM_total (fun s dependency =>
      if dmem selected dependency then visit fuel selected s dependency else Ok s)
    (fun s1 => visiting s1 = {[x]} ∪ visiting s) cycle_error (dependencies_of e)
    {| visiting := {[x]} ∪ visiting s; visited := visited s |}) as [(s1 & -> & _)|(er & -> & He)];
    [done| |by eauto|right; by exists er].
  intros s1 d Hin Hvis. destruct (dmem selected d) eqn:Ed; [|by eauto].
  destruct (IH s1 d) as [[s2 Hs2]|?]; [done|by rewrite Hvis| | |left|by right].
  - rewrite Hvis. assert (edge x d) as Hedge by (by exists e).
    intros y [->%elem_of_singleton|Hy]%elem_of_union; [by apply tc_once|].
    eapply tc_r; [by apply Hpath|done].
  - rewrite Hvis, size_union by set_solver. rewrite size_singleton. lia.
  - exists s2. split; [done|]. apply visit_visiting in Hs2 as [-> _]. done.
Qed.

Lemma Acc_no_cycle x : Acc (flip edge) x -> ~ tc edge x x.
Proof.
  induction 1 as [x _ IH]. intros Hc. inversion Hc as [? ? Hxx|? y ? Hxy Hyx]; subst.
  - by apply (IH x).
  - apply (IH y); [done|]. by eapply tc_r.
Qed.

(** The search from every selected dataset. *)
Lemma search_decides keys :
  Forall (fun x => dmem selected x = true) keys ->
  (exists s, foldM (visit (visit_fuel selected) selected) {| visiting := ∅; visited := ∅ |} keys = Ok s /\
     (forall y, y ∈ visited s -> Acc (flip edge) y) /\ forall x, x ∈ keys -> x ∈ visited s) \/
  (exists e, foldM (visit (visit_fuel selected) selected) {| visiting := ∅; visited := ∅ |} keys = Raise e /\
     cycle_error e).
Proof.
  intros Hkeys. set (f := visit _ _).
  destruct (foldM_total f (fun s => visiting s = ∅) cycle_error keys {| visiting := ∅; visited := ∅ |})
    as [(s & Hs & _)|(e & He & Hc)]; [done| | |right; by exists e].
  { intros s x Hin Hvis. rewrite Forall_forall in Hkeys.
    destruct (visit_total (visit_fuel selected) s x) as [[s' Hs']|?].
    - by apply Hkeys.
    - rewrite Hvis. set_solver.
    - rewrite Hvis. set_solver.
    - unfold visit_fuel, selected_ids. rewrite Hvis, size_empty.
      pose proof (size_list_to_set_le (map fst selected)) as Hle. rewrite length_map in Hle. lia.
    - left. exists s'. split; [done|]. by apply visit_visiting in Hs' as [-> _].
    - by right. }
  left. exists s. split; [done|].
  refine (foldM_ind _ (fun done s => (forall y, y ∈ visited s -> Acc (flip edge) y) /\
    forall x, x ∈ done -> x ∈ visited s) _ _ _ Hs _ _).
  - split; [set_solver|]. by intros x ?%elem_of_nil.
  - intros done x sa sb _ [Ha Hb] Hstep. split; [by eapply visit_Acc|].
    apply visit_visiting in Hstep as (_ & Hsub & Hin).
    intros y [?| ->%list_elem_of_singleton]%elem_of_app; [by apply Hsub, Hb|done].
Qed.
End graph.

Lemma check_deployed_Ok selected deployed_ids :
  check_deployed selected deployed_ids = Ok tt <->
  forall x e d, (x, e) ∈ selected -> d ∈ dependencies_of e -> d ∈ deployed_ids.
Proof.
  unfold check_deployed. destruct (existsb _ selected) eqn:E.
  - split; [done|]. intros Hall. apply existsb_elem in E as ([x e] & Hin & (d & Hd & Hn)%existsb_elem).
    apply negb_true_iff, bool_decide_eq_false in Hn. exfalso. by eapply Hn, Hall.
  - split; [|done]. intros _ x e d Hin Hd. destruct (decide (d ∈ deployed_ids)) as [|Hn]; [done|].
    apply not_true_iff_false in E. exfalso. apply E, existsb_elem. exists (x, e). split; [done|].
    apply existsb_elem. exists d. split; [done|]. by apply negb_true_iff, bool_decide_eq_false.
Qed.

Lemma sorted_ids_selected (selected : selection) :
  Forall (fun x => dmem selected x = true) (sort_on id (map fst selected)).
Proof.
  apply Forall_forall. intros x Hx%elem_of_sort_on. apply dmem_selected. unfold selected_ids.
  by apply elem_of_list_to_set.
Qed.

(** A validated graph is well founded. *)
Lemma validated_Acc selected deployed_ids :
  _validate_dependency_graph selected deployed_ids = Ok tt -> forall x, Acc (flip (edge selected)) x.
Proof.
  unfold _validate_dependency_graph. intros (_ & _ & (s & Hs & _)%bind_Ok)%bind_Ok x.
  destruct (search_decides selected _ (sorted_ids_selected selected)) as [(s' & Hs' & Hacc & Hall)|(e & He & _)];
    [|congruence].
  simplify_eq. constructor. intros y (e & _ & _ & Hm). apply Hacc, Hall, elem_of_sort_on.
  apply dmem_selected in Hm. by apply elem_of_list_to_set in Hm.
Qed.

(** C23. The validation of the dependency graph is a decision procedure: it succeeds exactly when
    every dependency of a selected dataset is deployed and no selected dataset depends on
    itself through selected datasets; otherwise it raises [OrchestrationIntegrityError]. *)
Theorem dependency_graph_decided selected deployed_ids :
  (_validate_dependency_graph selected deployed_ids = Ok tt <->
     (forall x e d, (x, e) ∈ selected -> d ∈ dependencies_of e -> d ∈ deployed_ids) /\
     acyclic selected) /\
  (forall e, _validate_dependency_graph selected deployed_ids = Raise e ->
     exn_type e = "OrchestrationIntegrityError").
Proof.
  pose proof (search_decides selected _ (sorted_ids_selected selected)) as Hs.
  split; [split|].
  - intros Hv. split.
    + unfold _validate_dependency_graph in Hv. apply bind_Ok in Hv as ([] & Hv & _).
      by apply check_deployed_Ok.
    + intros x. apply Acc_no_cycle. by eapply validated_Acc.
  - intros [Hd%check_deployed_Ok Hac]. unfold _validate_dependency_graph. rewrite Hd.
    destruct Hs as [(s & Hs & _)|(e & _ & _ & x & Hx)]; [|by apply Hac in Hx].
    cbn [mbind res_bind]. by rewrite Hs.
  - intros e. unfold _validate_dependency_graph, check_deployed. destruct (existsb _ selected).
    + by intros [= <-].
    + cbn [mbind res_bind]. destruct Hs as [(s & -> & _)|(e' & -> & Ht & _)]; [done|].
      by intros [= <-].
Qed.

(** ** The selected datasets *)

Lemma dwf_NoDup {V} (d : list (string * V)) : dwf d <-> NoDup (map fst d).
Proof.
  induction d as [|[k v] d IH]; simpl; [split; [constructor|done]|].
  rewrite NoDup_cons, IH. split; intros [Hk Hd]; split; try done.
  - intros ([k' v'] & Hkk & Hin)%list_elem_of_fmap. simpl in Hkk. subst k'.
    apply dget_None in Hk. rewrite Forall_forall in Hk. specialize (Hk _ Hin). simpl in Hk.
    by rewrite keq_refl in Hk.
  - apply dget_None, Forall_forall. intros [k' v'] Hin. simpl.
    destruct (keq k' k) eqn:E; [|done]. apply keq_string in E as ->. exfalso. apply Hk.
    apply list_elem_of_fmap. by exists (k, v').
Qed.

Lemma deployed_of_NoDup configs : NoDup (map fst (deployed_of configs)).
Proof.
  apply dwf_NoDup. unfold deployed_of. assert (dwf (@nil (string * DatasetConfig))) as Hd by done.
  revert Hd. generalize (@nil (string * DatasetConfig)).
  induction configs as [|c configs IH]; intros d Hd; simpl; [done|]. by apply IH, dwf_dset.
Qed.

Lemma priority_leb_total a b : priority_leb a b = true \/ priority_leb b a = true.
Proof.
  unfold priority_leb. destruct (str_leb_total a.1 b.1) as [H|H]; rewrite H, ?andb_true_r;
    rewrite !orb_true_iff, ?andb_true_iff; lia.
Qed.

Lemma priority_leb_trans a b c :
  priority_leb a b = true -> priority_leb b c = true -> priority_leb a c = true.
Proof.
  unfold priority_leb. rewrite !orb_true_iff, !andb_true_iff. intros [?|[? H1]] [?|[? H2]]; try (left; lia).
  right. split; [lia|]. by eapply str_leb_trans.
Qed.

Section plan.
Context (config_hash : DatasetConfig -> string) (policy_hash : ExecutionGroupPolicy -> string).
Context (policy : option ExecutionGroupPolicy) (obd : list (string * list RuntimeOverride))
  (t : datetime) (group : option string) (requested : option (list string)) (registry : CapabilityRegistry).

(** The entry of the plan a deployed dataset gives. *)
Definition chosen (entry : string * DatasetConfig) : option (string * EffectiveDatasetConfig) :=
  match effective_of config_hash policy obd t entry.1 entry.2 with
  | Ok e => if is_wanted group requested entry.1 (eff_config e) then Some (entry.1, e) else None
  | Raise _ => None
  end.

Lemma chosen_ids l : forall x e, (x, e) ∈ omap chosen l -> x ∈ map fst l.
Proof.
  intros x e ([y c] & Hin & Hc)%list_elem_of_omap. unfold chosen in Hc. simpl in Hc.
  destruct (effective_of _ _ _ _ _ _); [|done]. destruct (is_wanted _ _ _ _); [|done].
  simplify_eq. apply list_elem_of_fmap. by exists (x, c).
Qed.

Lemma chosen_NoDup l : NoDup (map fst l) -> NoDup (map fst (omap chosen l)).
Proof.
  induction l as [|[x c] l IH]; [by constructor|]. cbn [map fst]. rewrite NoDup_cons. intros [Hx Hnd].
  cbn [omap list_omap]. destruct (chosen (x, c)) as [[x' e]|] eqn:E; [|by apply IH].
  assert (x' = x) as ->.
  { unfold chosen in E. simpl in E. destruct (effective_of _ _ _ _ _ _); [|done].
    by destruct (is_wanted _ _ _ _); simplify_eq. }
  cbn [map fst]. apply NoDup_cons. split; [|by apply IH].
  intros ([y e'] & -> & Hin)%list_elem_of_fmap. by apply Hx, (chosen_ids _ y e').
Qed.

Lemma plan_loop_spec deployed sel :
  NoDup (map fst deployed) ->
  foldM (plan_step config_hash policy obd t group requested registry) [] deployed = Ok sel ->
  sel = omap chosen deployed /\ Forall (fun e => is_ok (validate registry (eff_config e.2)) = true) sel.
Proof.
  intros Hnd Hf.
  refine (foldM_ind _ (fun done sel => sel = omap chosen done /\
    Forall (fun e => is_ok (validate registry (eff_config e.2)) = true) sel) _ _ _ Hf _ _); [done|].
  intros done [x c] s1 s2 [rest ->] [-> Hall] Hstep. unfold plan_step in Hstep. simpl in Hstep.
  apply bind_Ok in Hstep as (e & He & Hstep). 
  assert (chosen (x, c) = if is_wanted group requested x (eff_config e) then Some (x, e) else None)
    as Hch by (unfold chosen; simpl; by rewrite He).
  rewrite omap_app. cbn [omap list_omap]. rewrite Hch.
  destruct (is_wanted _ _ _ _); [|injection Hstep as <-; by rewrite app_nil_r].
  apply bind_Ok in Hstep as (eng & Heng & [= <-]). rewrite dset_fresh; [split; [done|]|].
  - apply Forall_app. split; [done|]. repeat constructor. simpl. by rewrite Heng.
  - destruct (dget _ x) as [e'|] eqn:E; [|done]. exfalso.
    apply dget_Some_elem in E as (k & ->%keq_string & Hin%chosen_ids).
    rewrite map_app in Hnd. apply NoDup_app in Hnd as (_ & Hnot & _). apply (Hnot x Hin). left.
Qed.
End plan.

(** The overrides of a dataset, in their order. *)
Lemma overrides_by_dataset_spec overrides x :
  default [] (dget (_overrides_by_dataset overrides) x) = filter (fun o => ro_dataset_id o = x) overrides.
Proof.
  unfold _overrides_by_dataset.
  enough (forall d, default [] (dget (foldl (fun grouped o =>
      dset grouped (ro_dataset_id o) (default [] (dget grouped (ro_dataset_id o)) ++ [o])) d overrides) x) =
    default [] (dget d x) ++ filter (fun o => ro_dataset_id o = x) overrides) as H by (by rewrite H).
  induction overrides as [|o os IH]; intros d; [by rewrite app_nil_r|]. cbn [foldl].
  rewrite IH, dget_dset, filter_cons. destruct (keq (ro_dataset_id o) x) eqn:E.
  - apply keq_string in E as <-. rewrite decide_True by done. simpl. by rewrite <-app_assoc.
  - rewrite decide_False; [done|]. intros Heq. by rewrite Heq, keq_refl in E.
Qed.

(** ** Concurrency *)

Lemma list_min_le z l : list_min z l <= z /\ Forall (fun x => list_min z l <= x) l.
Proof.
  unfold list_min. revert z. induction l as [|x l IH]; intros z; simpl; [split; [lia|done]|].
  destruct (IH (Z.min z x)) as [H1 H2]. split; [lia|]. constructor; [lia|done].
Qed.

Lemma list_min_pos z l : 0 < z -> Forall (fun x => 0 < x) l -> 0 < list_min z l.
Proof.
  unfold list_min. intros Hz Hall. revert z Hz. induction Hall; intros z Hz; simpl; [done|].
  apply IHHall. lia.
Qed.

(** The group cap that applies. *)
Definition group_cap (policy : option ExecutionGroupPolicy) : option Z :=
  match policy ≫= egp_max_concurrency with
  | Some z => if z =? 0 then None else Some z
  | None => None
  end.

Lemma effective_concurrency_spec mc policy (sel : selection) :
  0 < mc -> (forall z, group_cap policy = Some z -> 0 < z) ->
  Forall (fun e => 0 < op_max_concurrency (orchestration_of e.2)) sel ->
  let n := effective_concurrency mc policy sel in
  0 < n <= mc /\ n <= Z.max 1 (Z.of_nat (length sel)) /\
  Forall (fun e => n <= op_max_concurrency (orchestration_of e.2)) sel /\
  (forall z, group_cap policy = Some z -> n <= z).
Proof.
  intros Hmc Hcap Hall n. subst n. unfold effective_concurrency.
  destruct sel as [|e sel]; [simpl; split_and!; [lia|lia|lia|done|]; intros z Hz%Hcap; lia|].
  cbn [map]. set (l := map _ sel).
  assert (0 < op_max_concurrency (orchestration_of e.2) /\ Forall (fun x => 0 < x) l) as [H1 Hl].
  { apply Forall_cons in Hall as [? Hall]. split; [done|]. apply Forall_map. exact Hall. }
  pose proof (list_min_pos _ l H1 Hl) as Hpos. pose proof (list_min_le (op_max_concurrency (orchestration_of e.2)) l) as [Hle Hles].
  set (m := list_min (op_max_concurrency (orchestration_of e.2)) l) in *.
  unfold group_cap in *.
  assert (Forall (fun e' => m <= op_max_concurrency (orchestration_of e'.2)) (e :: sel)) as Hm.
  { constructor; [done|]. exact (proj1 (Forall_map _ _ _) Hles). }
  assert (forall n, n <= m -> Forall (fun e' => n <= op_max_concurrency (orchestration_of e'.2)) (e :: sel)) as Hn.
  { intros n Hn. eapply Forall_impl; [exact Hm|]. intros e'. simpl. lia. }
  cbn [length]. destruct (policy ≫= egp_max_concurrency) as [z|]; [destruct (z =? 0)|];
    unfold list_min; cbn [foldl app]; [split_and!; [lia|lia|lia|apply Hn; lia|done]| |
      split_and!; [lia|lia|lia|apply Hn; lia|done]].
  specialize (Hcap z eq_refl). split_and!; [lia|lia|lia|apply Hn; lia|]. intros ? [= <-]. lia.
Qed.

Section effective.
Context (config_hash : DatasetConfig -> string).

(** The quality policy the plan starts from: the group policy where it governs the dataset. *)
Definition planned_quality (policy : option ExecutionGroupPolicy) (base : DatasetConfig) : DataQualityPolicy :=
  match policy with
  | Some p => if String.eqb (op_execution_group (dc_orchestration base)) (egp_execution_group p)
              then group_quality p base else dc_quality base
  | None => dc_quality base
  end.

Lemma with_quality_id c : with_quality c (dc_quality c) = c.
Proof. by destruct c. Qed.

Lemma apply_policy_Ok policy base r :
  apply_policy policy base = Ok r -> r.1 = with_quality base (planned_quality policy base).
Proof.
  unfold apply_policy, planned_quality. destruct policy as [p|].
  - destruct (String.eqb _ _).
    + intros (c & [_ ->]%apply_to_Ok & [= <-])%bind_Ok. done.
    + intros [= <-]. by rewrite with_quality_id.
  - intros [= <-]. by rewrite with_quality_id.
Qed.

(** The effective configuration is the governed base with the selected overrides. *)
Lemma effective_of_Ok policy obd t x base e :
  effective_of config_hash policy obd t x base = Ok e ->
  exists sel, _select_overrides (with_quality base (planned_quality policy base))
                (default [] (dget obd x)) t = Ok sel /\
    foldM _apply_override (with_quality base (planned_quality policy base)) sel = Ok (eff_config e) /\
    eff_applied_override_ids e = map ro_override_id sel /\
    eff_effective_config_hash e = config_hash (eff_config e) /\
    eff_base_config_hash e = config_hash base.
Proof.
  unfold effective_of. intros ([c b] & Hp & H)%bind_Ok. simpl in H.
  pose proof (apply_policy_Ok _ _ _ Hp) as Hc. simpl in Hc. subst c.
  apply bind_Ok in H as (eff & Heff & [= <-]). unfold resolve_effective_config in Heff.
  apply bind_Ok in Heff as (_ & _ & (sel & Hsel & (c' & Hc' & [= <-])%bind_Ok)%bind_Ok).
  exists sel. destruct b; simpl; split_and!; try done.
  f_equal. unfold apply_policy in Hp. destruct policy as [p|]; [|by injection Hp].
  destruct (String.eqb _ _) eqn:E; [by apply bind_Ok in Hp as (? & _ & [=])|].
  by injection Hp.
Qed.

(** The values of the overridable fields in an effective configuration. *)
Lemma effective_fields policy obd t x base e :
  effective_of config_hash policy obd t x base = Ok e ->
  let governed := with_quality base (planned_quality policy base) in
  let os := default [] (dget obd x) in
  erase_operational (eff_config e) = erase_operational governed /\
  (forall f, match active_for t f os with
             | [] => read_field (eff_config e) f = read_field governed f
             | l => exists o, select_candidate l = Ok o /\ o ∈ l /\
                    ro_override_id o ∈ eff_applied_override_ids e /\
                    read_field (eff_config e) f = Some (stored_value o)
             end).
Proof.
  intros (sel & Hsel & Happ & Hids & _)%effective_of_Ok. simpl.
  apply select_overrides_spec in Hsel as (Hnd & _ & Hall & Hin).
  destruct (apply_overrides_spec _ _ _ Hnd Happ) as (He & Hset & Hkeep). split; [done|].
  intros f. destruct (active_for t f _) as [|a l] eqn:E.
  - apply Hkeep. intros (o & -> & [Hne _]%Hin)%list_elem_of_fmap. done.
  - destruct (Hall f) as (o & Ho & <-); [by rewrite E|]. exists o.
    pose proof Ho as [_ Hc]%Hin. rewrite E in Hc. split_and!; [done| | |by apply Hset].
    + by apply select_candidate_spec in Hc as [? _].
    + rewrite Hids. by apply list_elem_of_fmap_2.
Qed.

(** An effective configuration admits at least one concurrent run. *)
Lemma effective_concurrency_pos policy obd t x base e :
  effective_of config_hash policy obd t x base = Ok e ->
  validate_dependencies (dc_orchestration base) = Ok tt ->
  Forall (fun o => validate_override o = Ok tt) (default [] (dget obd x)) ->
  0 < op_max_concurrency (orchestration_of e).
Proof.
  intros [_ He]%effective_fields Hb Hos. specialize (He OF_MAX_CONCURRENCY).
  destruct (active_for t OF_MAX_CONCURRENCY _) as [|a l] eqn:E.
  - injection He as He. unfold orchestration_of. rewrite He. simpl.
    unfold validate_dependencies in Hb. destruct (op_max_concurrency _ <=? 0) eqn:Em; [|lia].
    by rewrite orb_true_r in Hb.
  - destruct He as (o & _ & Ho & _ & Hr). rewrite <-E in Ho. apply active_for_field in Ho as (Hf & _ & Ho).
    rewrite Forall_forall in Hos. specialize (Hos _ Ho). rewrite (stored_value_validated _ Hos) in Hr.
    injection Hr as Hr. unfold orchestration_of. unfold validate_override in Hos.
    rewrite Hf, <-Hr in Hos. inv_ok Hos. lia.
Qed.
End effective.

(** Inversion of a successful plan. *)
Lemma build_dispatch_plan_Ok config_hash policy_hash configs group policy requested overrides mc t registry plan :
  build_dispatch_plan config_hash policy_hash configs group policy requested overrides mc t registry = Ok plan ->
  let group' := match policy with Some p => Some (egp_execution_group p) | None => group end in
  let sel := omap (chosen config_hash policy (_overrides_by_dataset overrides) t group' requested)
               (deployed_of configs) in
  0 < mc /\
  Forall (fun e => is_ok (validate registry (eff_config e.2)) = true) sel /\
  _validate_dependency_graph sel (dp_deployed_dataset_ids plan) = Ok tt /\
  dp_deployed_dataset_ids plan = list_to_set (map fst (deployed_of configs)) /\
  dp_effective_configs plan = sort_by priority_leb sel /\
  dp_selected_dataset_ids plan = map fst (dp_effective_configs plan) /\
  dp_max_concurrency plan = effective_concurrency mc policy sel.
Proof.
  unfold build_dispatch_plan. destruct (mc <=? 0) eqn:Emc; [done|].
  intros (group' & Hg & H)%bind_Ok.
  assert (group' = match policy with Some p => Some (egp_execution_group p) | None => group end) as ->.
  { clear H. unfold governed_group in Hg. destruct policy as [p|]; [|by injection Hg].
    destruct (match group with Some _ => _ | None => _ end); [done|].
    case_bool_decide; cbn [negb] in Hg; [by injection Hg|done]. }
  case_bool_decide; [|done]. case_bool_decide; [|done]. cbn [negb] in H.
  apply bind_Ok in H as (sel & Hsel & H). apply bind_Ok in H as ([] & Hgraph & [= <-]). simpl.
  apply plan_loop_spec in Hsel as [-> Hval]; [|apply deployed_of_NoDup].
  split_and!; [lia|done..].
Qed.

(** Reordering the selection changes neither the edges nor the lookups. *)
Lemma edge_perm (s1 s2 : selection) x y :
  s1 ≡ₚ s2 -> NoDup (map fst s1) -> edge s1 x y -> edge s2 x y.
Proof.
  intros Hp Hnd%dwf_NoDup (e & He & Hin & Hm). exists e.
  rewrite <-(dget_perm _ _ x Hp Hnd). split_and!; [done|done|].
  unfold dmem in *. by rewrite <-(dget_perm _ _ y Hp Hnd).
Qed.

Lemma chosen_elem config_hash policy obd t group requested (l : list (string * DatasetConfig)) x e :
  NoDup (map fst l) ->
  (x, e) ∈ omap (chosen config_hash policy obd t group requested) l <->
  exists base, dget l x = Some base /\ effective_of config_hash policy obd t x base = Ok e /\
    is_wanted group requested x (eff_config e) = true.
Proof.
  intros Hnd%dwf_NoDup. rewrite list_elem_of_omap. unfold chosen. split.
  - intros ([y base] & Hin & Hc). simpl in Hc. destruct (effective_of _ _ _ _ _ _) eqn:E; [|done].
    destruct (is_wanted _ _ _ _) eqn:Ew; simplify_eq. exists base.
    by rewrite (dwf_elem _ _ _ Hnd Hin).
  - intros (base & Hb & He & Hw). apply dget_Some_elem in Hb as (k & ->%keq_string & Hin).
    exists (x, base). simpl. by rewrite He, Hw.
Qed.

(** The deployed configurations are among those the repository lists. *)
Lemma deployed_of_elem configs x c : dget (deployed_of configs) x = Some c -> c ∈ configs.
Proof.
  unfold deployed_of.
  enough (forall d, dget (foldl (fun d c => dset d (dc_dataset_id c) c) d configs) x = Some c ->
            c ∈ configs \/ dget d x = Some c) as H by (by intros [?|?]%H).
  induction configs as [|c' configs IH]; intros d; simpl; [by right|].
  intros [?|Hd]%IH; [left; by right|]. rewrite dget_dset in Hd.
  destruct (keq _ _); [|by right]. injection Hd as ->. left. left.
Qed.

Lemma validated_deployed selected deployed_ids :
  _validate_dependency_graph selected deployed_ids = Ok tt ->
  Forall (fun e => forall d, d ∈ dependencies_of e.2 -> d ∈ deployed_ids) selected.
Proof.
  unfold _validate_dependency_graph. intros ([] & Hc & _)%bind_Ok. apply Forall_forall.
  intros [x e] Hin d Hd. rewrite check_deployed_Ok in Hc. by eapply Hc.
Qed.

(** The graph of a plan is well founded, and its ids are those of its configurations. *)
Lemma build_dispatch_plan_graph config_hash policy_hash configs group policy requested overrides mc t registry plan :
  build_dispatch_plan config_hash policy_hash configs group policy requested overrides mc t registry = Ok plan ->
  NoDup (dp_selected_dataset_ids plan) /\
  dp_selected_dataset_ids plan = map fst (dp_effective_configs plan) /\
  forall x, Acc (flip (edge (dp_effective_configs plan))) x.
Proof.
  intros (_ & _ & Hgraph & _ & Heff & Hids & _)%build_dispatch_plan_Ok. set (sel := omap _ _) in *.
  assert (NoDup (map fst sel)) as Hnd by apply chosen_NoDup, deployed_of_NoDup.
  assert (sort_by priority_leb sel ≡ₚ sel) as Hp by apply sort_by_perm.
  rewrite Hids, Heff. split; [by rewrite Hp|]. split; [done|]. intros x.
  pose proof (validated_Acc _ _ Hgraph x) as Ha. induction Ha as [x _ IH]. constructor. intros y Hy. apply IH.
  eapply edge_perm; [exact Hp| |exact Hy]. by rewrite Hp.
Qed.

Section plan_properties.
Context (config_hash : DatasetConfig -> string) (policy_hash : ExecutionGroupPolicy -> string).

(** C24. A dispatch plan selects exactly the deployed datasets whose effective configuration is
    enabled, in the governed execution group and requested, each once, ordered by priority and
    dataset id, all certified by the capability registry; their dependencies are deployed and
    acyclic; and the concurrency is at least one and within the limits of the caller, the group
    policy and every selected dataset. *)
Theorem dispatch_plan_sound configs group policy requested overrides mc t registry plan :
  Forall (fun c => validate_dependencies (dc_orchestration c) = Ok tt) configs ->
  Forall (fun o => validate_override o = Ok tt) overrides ->
  (forall z, group_cap policy = Some z -> 0 < z) ->
  build_dispatch_plan config_hash policy_hash configs group policy requested overrides mc t registry = Ok plan ->
  let group' := match policy with Some p => Some (egp_execution_group p) | None => group end in
  NoDup (dp_selected_dataset_ids plan) /\
  dp_selected_dataset_ids plan = map fst (dp_effective_configs plan) /\
  (forall x e, (x, e) ∈ dp_effective_configs plan <->
     exists base, dget (deployed_of configs) x = Some base /\
       effective_of config_hash policy (_overrides_by_dataset overrides) t x base = Ok e /\
       is_wanted group' requested x (eff_config e) = true) /\
  StronglySorted (fun a b => priority_leb a b = true) (dp_effective_configs plan) /\
  Forall (fun e => is_ok (validate registry (eff_config e.2)) = true /\
                   dp_max_concurrency plan <= op_max_concurrency (orchestration_of e.2) /\
                   forall d, d ∈ dependencies_of e.2 -> d ∈ dp_deployed_dataset_ids plan)
    (dp_effective_configs plan) /\
  acyclic (dp_effective_configs plan) /\
  0 < dp_max_concurrency plan <= mc /\
  (forall z, group_cap policy = Some z -> dp_max_concurrency plan <= z).
Proof.
  intros Hdeps Hos Hcap (Hmc & Hval & Hgraph & Hdeployed & Heff & Hids & Hconc)%build_dispatch_plan_Ok. simpl.
  set (group' := match policy with Some p => _ | None => _ end) in *.
  set (sel := omap _ _) in *.
  assert (NoDup (map fst sel)) as Hnds by apply chosen_NoDup, deployed_of_NoDup.
  assert (sort_by priority_leb sel ≡ₚ sel) as Hp by apply sort_by_perm.
  assert (Forall (fun e => 0 < op_max_concurrency (orchestration_of e.2)) sel) as Hpos.
  { apply Forall_forall. intros [x e] (base & Hb & He & _)%chosen_elem; [|apply deployed_of_NoDup].
    eapply effective_concurrency_pos; [exact He| |].
    - rewrite Forall_forall in Hdeps. by eapply Hdeps, deployed_of_elem.
    - rewrite overrides_by_dataset_spec. apply Forall_forall. intros o [_ Ho]%list_elem_of_filter.
      rewrite Forall_forall in Hos. by apply Hos. }
  destruct (effective_concurrency_spec mc policy sel Hmc Hcap Hpos) as (Hn & _ & Hall & Hz).
  rewrite Hids, Heff, Hconc. split; [by rewrite Hp|]. split; [done|].
  split; [|split; [|split; [|split; [|done]]]].
  - intros x e. rewrite Hp. apply chosen_elem, deployed_of_NoDup.
  - apply sort_by_sorted; [apply priority_leb_total|apply priority_leb_trans].
  - rewrite Hp. apply validated_deployed in Hgraph as Hd. rewrite Forall_forall in Hval, Hd, Hall.
    apply Forall_forall. intros e He. split; [by apply Hval|]. split; [by apply Hall|by apply Hd].
  - intros x Hx. apply (Acc_no_cycle sel x); [by eapply validated_Acc|].
    eapply tc_congruence with (f := id); [|exact Hx]. intros y z. apply edge_perm; [done|]. by rewrite Hp.
Qed.

(** The value of a quality setting under a group policy: the dataset patch first, then the
    group default, then the base. *)
Definition layered {A} (p : ExecutionGroupPolicy) (dataset_id : string)
    (setting : DataQualityPolicyPatch -> option A) (base : A) : A :=
  default (default base (setting (egp_quality_defaults p)))
    (dget (egp_dataset_quality_overrides p) dataset_id ≫= setting).

(** The override that wins a field, if any is active, decides a boolean setting. *)
Definition overridden (t : datetime) (field : OverrideField) (os : list RuntimeOverride) (base b : bool) : Prop :=
  match active_for t field os with
  | [] => b = base
  | l => exists o, select_candidate l = Ok o /\ b = ov_bool (ro_value o)
  end.

(** The precedence of the settings of a governed dataset: base configuration, group defaults,
    dataset patch, then audited runtime overrides of that dataset; everything else is the base
    configuration, whose hash the effective configuration keeps. *)
Theorem effective_precedence p overrides t x base e :
  op_execution_group (dc_orchestration base) = egp_execution_group p ->
  effective_of config_hash (Some p) (_overrides_by_dataset overrides) t x base = Ok e ->
  let os := filter (fun o => ro_dataset_id o = x) overrides in
  let b := dc_quality base in
  let q := dc_quality (eff_config e) in
  overridden t OF_DATA_QUALITY_ENABLED os
    (layered p (dc_dataset_id base) pat_enabled (dq_enabled b)) (dq_enabled q) /\
  overridden t OF_QUARANTINE_ENABLED os
    (layered p (dc_dataset_id base) pat_quarantine_enabled (dq_quarantine_enabled b)) (dq_quarantine_enabled q) /\
  dq_quarantine_detail_mode q =
    layered p (dc_dataset_id base) pat_quarantine_detail_mode (dq_quarantine_detail_mode b) /\
  dq_max_quarantine_rows q =
    layered p (dc_dataset_id base) (fun p => Some <$> pat_max_quarantine_rows p) (dq_max_quarantine_rows b) /\
  dq_max_quarantine_fraction q =
    layered p (dc_dataset_id base) (fun p => Some <$> pat_max_quarantine_fraction p) (dq_max_quarantine_fraction b) /\
  erase_operational (with_quality (eff_config e) b) = erase_operational base /\
  eff_base_config_hash e = config_hash base.
Proof.
  intros Hgroup He. pose proof (effective_of_Ok _ _ _ _ _ _ _ He) as (_ & _ & _ & _ & _ & Hh).
  apply effective_fields in He as [Her Hf]. rewrite overrides_by_dataset_spec in Hf.
  unfold planned_quality in *. rewrite Hgroup, String.eqb_refl in *. simpl.
  assert (forall f base' b' proj, (forall c, read_field c f = Some (OV_bool (proj (dc_quality c)))) ->
    proj (group_quality p base) = base' -> proj (dc_quality (eff_config e)) = b' ->
    bool_decide (f ∈ _BOOL_OVERRIDE_FIELDS) = true ->
    overridden t f (filter (fun o => ro_dataset_id o = x) overrides) base' b') as Hover.
  { intros f base' b' proj Hread Hb Hb' Hbool. unfold overridden. specialize (Hf f).
    destruct (active_for t f _) as [|a l] eqn:E.
    - rewrite !Hread in Hf. injection Hf as Hf. simpl in Hf. congruence.
    - destruct Hf as (o & Ho & Hin & _ & Hr). exists o. split; [done|]. rewrite Hread in Hr.
      unfold stored_value in Hr. rewrite <-E in Hin. apply active_for_field in Hin as (Hfo & _).
      rewrite Hfo, Hbool in Hr. injection Hr as Hr. congruence. }
  pose proof (f_equal dc_quality Her) as Hq. simpl in Hq. injection Hq as _ _ Hmode Hrows Hfrac.
  unfold layered. split_and!; [| | | | | |done].
  - eapply (Hover _ _ _ dq_enabled); [done| |done|done]. unfold group_quality. by destruct (dget _ _).
  - eapply (Hover _ _ _ dq_quarantine_enabled); [done| |done|done]. unfold group_quality. by destruct (dget _ _).
  - rewrite Hmode. by destruct (dget _ _).
  - rewrite Hrows. destruct (dget _ _) as [d|]; simpl; [destruct (pat_max_quarantine_rows d)|]; simpl;
      by destruct (pat_max_quarantine_rows (egp_quality_defaults p)).
  - rewrite Hfrac. destruct (dget _ _) as [d|]; simpl; [destruct (pat_max_quarantine_fraction d)|]; simpl;
      by destruct (pat_max_quarantine_fraction (egp_quality_defaults p)).
  - transitivity (with_quality (erase_operational (eff_config e)) (dc_quality (erase_operational base)));
      [reflexivity|]. rewrite Her. reflexivity.
Qed.
End plan_properties.

(** ** The pipeline status *)

(** Every outcome is one of a selected dataset. *)
Definition outcomes_selected (plan : DispatchPlan) (outcomes : gmap string DatasetDispatchOutcome) : Prop :=
  dp_selected_dataset_ids plan = map fst (dp_effective_configs plan) /\
  forall x, is_Some (outcomes !! x) -> is_Some (dget (dp_effective_configs plan) x).

Lemma any_fatal_spec plan req entries :
  Forall (fun e => is_Some (dget (dp_effective_configs plan) e.1)) entries ->
  exists b, any_fatal plan req entries = Ok b /\
    (b = true <-> exists x o e, (x, o) ∈ entries /\ ddo_status o <> DS_SUCCEEDED /\
       dget (dp_effective_configs plan) x = Some e /\ op_criticality (orchestration_of e) ∈ req).
Proof.
  induction 1 as [|[x o] entries [e He] _ (b & Hb & IH)]; simpl.
  { exists false. split; [done|]. split; [done|]. by intros (? & ? & ? & ?%elem_of_nil & _). }
  unfold is_fatal, effective_for. simpl in *. rewrite He. cbn [mbind res_bind].
  assert (forall b', (b' = true <-> ddo_status o <> DS_SUCCEEDED /\ op_criticality (orchestration_of e) ∈ req) ->
    exists b0, (if b' : bool then Ok true else any_fatal plan req entries) = Ok b0 /\
      (b0 = true <-> exists x' o' e', (x', o') ∈ (x, o) :: entries /\ ddo_status o' <> DS_SUCCEEDED /\
       dget (dp_effective_configs plan) x' = Some e' /\ op_criticality (orchestration_of e') ∈ req)) as Hc.
  { intros [] Hb'.
    - exists true. split; [done|]. split; [|done]. intros _. exists x, o, e.
      destruct Hb' as [Hb' _]. destruct (Hb' eq_refl). split_and!; [left|done..].
    - exists b. split; [done|]. rewrite IH. split; intros (x' & o' & e' & Hin & Hs & He' & Hr); exists x', o', e'.
      + split_and!; [by right|done..].
      + apply elem_of_cons in Hin as [[= -> ->]|Hin]; [|done]. exfalso. simplify_eq.
        by apply diff_false_true, Hb'. }
  case_bool_decide as Hs; cbn [mbind res_bind].
  - apply (Hc false). naive_solver.
  - apply Hc. rewrite bool_decide_eq_true. naive_solver.
Qed.

(** The parent status: with every outcome of a selected dataset, aggregation never raises;
    it is SUCCESS exactly when every outcome SUCCEEDED, FAILED exactly when some did not and
    either the policy is FAIL_AT_END or one of those has a required criticality, and
    PARTIAL_SUCCESS in the remaining case. *)
Theorem dispatch_status_characterised plan outcomes failure_policy req :
  outcomes_selected plan outcomes ->
  let all_succeeded := forall x o, outcomes !! x = Some o -> ddo_status o = DS_SUCCEEDED in
  let fatal := default (dp_failure_policy plan) failure_policy = FP_FAIL_AT_END \/
    exists x o e, outcomes !! x = Some o /\ ddo_status o <> DS_SUCCEEDED /\
      dget (dp_effective_configs plan) x = Some e /\ op_criticality (orchestration_of e) ∈ req in
  exists st, aggregate_pipeline_status plan outcomes failure_policy req = Ok st /\
    (st = PS_SUCCESS <-> all_succeeded) /\
    (st = PS_FAILED <-> ~ all_succeeded /\ fatal) /\
    (st = PS_PARTIAL_SUCCESS <-> ~ all_succeeded /\ ~ fatal).
Proof.
  intros [Hids Hsel] all_succeeded fatal. unfold aggregate_pipeline_status.
  assert (forallb (fun e => bool_decide (ddo_status e.2 = DS_SUCCEEDED)) (map_to_list outcomes) = true
          <-> all_succeeded) as Hall.
  { rewrite forallb_forall. split.
    - intros H x o Ho. specialize (H (x, o)). rewrite bool_decide_eq_true in H. apply H.
      by apply list_elem_of_In, elem_of_map_to_list.
    - intros H [x o] Hin%list_elem_of_In%elem_of_map_to_list. apply bool_decide_eq_true. by apply (H x). }
  case_bool_decide as Hempty.
  { assert all_succeeded. { intros x o Ho. exfalso. destruct (Hsel x) as [e He]; [by eexists|].
      rewrite Hids in Hempty. by destruct (dp_effective_configs plan). }
    exists PS_SUCCESS. naive_solver. }
  destruct (forallb _ _); [exists PS_SUCCESS; naive_solver|].
  assert (~ all_succeeded) as Hnot by naive_solver.
  case_bool_decide as Hpol; [exists PS_FAILED; unfold fatal; naive_solver|].
  destruct (any_fatal_spec plan req (map_to_list outcomes)) as (b & -> & Hb).
  { apply Forall_forall. intros [x o] Hin%elem_of_map_to_list. apply Hsel. by eexists. }
  setoid_rewrite elem_of_map_to_list in Hb. cbn [mbind res_bind].
  assert (b = true <-> fatal) as Hfatal by (unfold fatal; naive_solver).
  destruct b; eexists; (split; [done|]); naive_solver.
Qed.

(** ** Witnesses *)

(** [demo_config] under another id, with a group, a priority and dependencies. *)
Definition demo_dataset (dataset_id : string) (priority : Z) (dependencies : list string) : DatasetConfig :=
  {| dc_dataset_id := dataset_id; dc_source := dc_source demo_config; dc_target := dc_target demo_config;
     dc_load := dc_load demo_config;
     dc_orchestration := {| op_execution_group := "core"; op_criticality := CR_HIGH;
       op_dependencies := dependencies; op_priority := priority; op_retry_count := 3;
       op_timeout_seconds := 3600; op_batch_size := 1000; op_max_concurrency := 4 |};
     dc_quality := dc_quality demo_config; dc_reconciliation := dc_reconciliation demo_config;
     dc_schema_contract := None; dc_current_projection := None;
     dc_execution := dc_execution demo_config; dc_extensions := dc_extensions demo_config;
     dc_enabled := true; dc_config_schema_version := 1 |}.

Definition demo_deployment : list DatasetConfig :=
  [demo_dataset "orders" 10 ["customers"]; demo_dataset "customers" 20 [];
   demo_dataset "revenue" 10 ["orders"; "customers"]].

Definition demo_group_policy : ExecutionGroupPolicy :=
  {| egp_execution_group := "core"; egp_failure_policy := FP_CRITICALITY_AWARE;
     egp_max_concurrency := Some 2;
     egp_quality_defaults := {| pat_enabled := Some false; pat_quarantine_enabled := None;
       pat_quarantine_detail_mode := None; pat_max_quarantine_rows := Some 5; pat_max_quarantine_fraction := None |};
     egp_dataset_quality_overrides := [("orders", {| pat_enabled := Some true; pat_quarantine_enabled := None;
       pat_quarantine_detail_mode := Some QD_REFERENCE_ONLY; pat_max_quarantine_rows := None;
       pat_max_quarantine_fraction := None |})] |}.

Definition demo_policy_hash (p : ExecutionGroupPolicy) : string := egp_execution_group p.

Definition demo_quarantine_override : RuntimeOverride :=
  demo_override "q" OF_QUARANTINE_ENABLED (OV_bool false) 0.

Definition demo_build : res DispatchPlan :=
  build_dispatch_plan demo_hash demo_policy_hash demo_deployment None (Some demo_group_policy) None
    [demo_quarantine_override] 8 (utc 50) _DEFAULT_CAPABILITIES.

Definition demo_plan : DispatchPlan :=
  match demo_build with Ok p => p | Raise _ => {| dp_evaluation_time := utc 0; dp_selected_dataset_ids := [];
    dp_effective_configs := []; dp_deployed_dataset_ids := ∅; dp_max_concurrency := 0;
    dp_failure_policy := FP_FAIL_AT_END; dp_execution_group_policy_hash := None |} end.

Example demo_plan_order : dp_selected_dataset_ids demo_plan = ["orders"; "revenue"; "customers"].
Proof. vm_compute. reflexivity. Qed.

(** A cycle is refused. *)
Example demo_cycle :
  build_dispatch_plan demo_hash demo_policy_hash
    [demo_dataset "a" 1 ["b"]; demo_dataset "b" 1 ["a"]] None None None [] 8 (utc 50) _DEFAULT_CAPABILITIES =
  raise "OrchestrationIntegrityError" "dependency cycle detected".
Proof. vm_compute. reflexivity. Qed.

Lemma dependency_graph_decided_witness :
  _validate_dependency_graph (dp_effective_configs demo_plan) {["orders"; "customers"; "revenue"]} = Ok tt /\
  acyclic (dp_effective_configs demo_plan).
Proof.
  assert (_validate_dependency_graph (dp_effective_configs demo_plan) {["orders"; "customers"; "revenue"]} = Ok tt)
    as H by (vm_compute; reflexivity).
  split; [exact H|]. exact (proj2 (proj1 (proj1 (dependency_graph_decided _ _)) H)).
Defined.

Lemma dispatch_plan_sound_witness :
  0 < dp_max_concurrency demo_plan <= 2 /\ acyclic (dp_effective_configs demo_plan).
Proof.
  destruct (dispatch_plan_sound demo_hash demo_policy_hash demo_deployment None (Some demo_group_policy) None
    [demo_quarantine_override] 8 (utc 50) _DEFAULT_CAPABILITIES demo_plan)
    as (_ & _ & _ & _ & _ & Hac & Hn & Hz).
  - repeat constructor.
  - repeat constructor.
  - intros z Hz. vm_compute in Hz. injection Hz as <-. reflexivity.
  - vm_compute. reflexivity.
  - split; [|exact Hac]. split; [exact (proj1 Hn)|]. apply Hz. reflexivity.
Defined.

Lemma effective_precedence_witness :
  exists e, effective_of demo_hash (Some demo_group_policy) (_overrides_by_dataset [demo_quarantine_override])
              (utc 50) "orders" (demo_dataset "orders" 10 []) = Ok e /\
    eff_base_config_hash e = "orders" /\
    dq_quarantine_detail_mode (dc_quality (eff_config e)) = QD_REFERENCE_ONLY.
Proof.
  eexists. split; [vm_compute; reflexivity|].
  match goal with |- eff_base_config_hash ?e = _ /\ _ =>
    destruct (effective_precedence demo_hash demo_group_policy [demo_quarantine_override] (utc 50) "orders"
      (demo_dataset "orders" 10 []) e) as (_ & _ & Hmode & _ & _ & _ & Hh) end.
  - reflexivity.
  - vm_compute. reflexivity.
  - split; [exact Hh|]. rewrite Hmode. reflexivity.
Defined.

Definition demo_outcome (status : DatasetStatus) : DatasetDispatchOutcome :=
  {| ddo_dataset_run_id := 1; ddo_status := status; ddo_retryable := None; ddo_error_code := None;
     ddo_error_message := None |}.

Lemma dispatch_status_characterised_witness :
  aggregate_pipeline_status demo_plan {["orders" := demo_outcome DS_FAILED]} None [CR_HIGH] = Ok PS_FAILED.
Proof.
  destruct (dispatch_status_characterised demo_plan {["orders" := demo_outcome DS_FAILED]} None [CR_HIGH])
    as (st & Hst & Hs & Hf & Hp).
  - split; [vm_compute; reflexivity|]. intros x [o [<- _]%lookup_singleton_Some]. eexists. vm_compute. reflexivity.
  - rewrite Hst. vm_compute in Hst. injection Hst as <-. reflexivity.
Defined.
