(* ===== verification/Dispatcher.v ===== *)
(** * The dispatch loop ([orchestration/dispatcher.py])

    The dispatcher talks to a clock, a source of ids, the control-plane repository and a
    ready-wave backend ([ReadyWaveBackend]).  A computation reads and extends the log of the
    calls made so far, newest first; the answers of the outside world are functions of that
    log, so a world may remember everything it was asked.  An exception leaves the log as it
    is.  The arguments that are the same in every audit of a run are the record [run_context]. *)

From stdpp Require Import base gmap strings list relations sorting pretty.
From S2P Require Import Prelude PyValue PyDict Temporal ConfigTypes Config Capabilities.
From S2P Require Import RunAudit DispatchContracts Planner Effects.
#[local] Open Scope Z_scope.

Abbreviation outcomes := (gmap string DatasetDispatchOutcome).

(** The keyword arguments of [execute_ready_wave]. *)
Record wave_request := {
  wr_pipeline_run_id : N;
  wr_effective_by_id : selection;
  wr_dataset_ids : list string;
  wr_run_mode : RunMode;
  wr_max_concurrency : Z
}.

(** A call and its answer. *)
Inductive event :=
| EvClock (t : datetime)
| EvUuid (n : N)
| EvPipelineRun (a : PipelineRunAudit) (answer : res unit)
| EvDatasetRun (a : DatasetRunAudit) (answer : res unit)
| EvWave (request : wave_request) (answer : res outcomes).

(** The outside world: [datetime.now], [uuid4], [ControlPlaneRepository] and
    [ReadyWaveBackend]; [foreign_error_code] is the [error_code] attribute of the exceptions
    they raise, [redact] the regular expressions of [sanitize_audit_text]. *)
Class World := {
  utc_now : list event -> datetime;
  uuid4 : list event -> N;
  list_datasets : list event -> res (list DatasetConfig);
  record_pipeline_run : list event -> PipelineRunAudit -> res unit;
  record_dataset_run : list event -> DatasetRunAudit -> res unit;
  execute_ready_wave : list event -> wave_request -> res outcomes;
  foreign_error_code : exn -> option string;
  redact : string -> string
}.

(** ** Computations *)

Abbreviation io := (eff (list event)).

Record run_context := {
  rc_pipeline_run_id : N;
  rc_environment : string;
  rc_domain : string;
  rc_run_mode : RunMode;
  rc_started_at : datetime;
  rc_domain_git_sha : string;
  rc_framework_version : string;
  rc_config_bundle_hash : string
}.

Definition _PIPELINE_ERROR_MESSAGE_LIMIT : nat := 4096.

(** [status.value] *)
Definition status_value (s : DatasetStatus) : string :=
  match s with
  | DS_PENDING => "PENDING" | DS_RUNNING => "RUNNING" | DS_SUCCEEDED => "SUCCEEDED"
  | DS_FAILED => "FAILED" | DS_QUARANTINED => "QUARANTINED" | DS_SKIPPED => "SKIPPED"
  | DS_BLOCKED => "BLOCKED" | DS_CANCELLED => "CANCELLED"
  end.

(** [value or other] on an optional string *)
Definition or_else (value : option string) (other : string) : string :=
  match value with
  | Some s => if nonempty s then s else other
  | None => other
  end.

(** [separator.join(items)] *)
Definition join (separator : string) (items : list string) : string := String.concat separator items.

Section dispatcher.
Context `{World}.

Definition now : io datetime := fun l => (Ok (utc_now l), EvClock (utc_now l) :: l).
Definition fresh_uuid : io N := fun l => (Ok (uuid4 l), EvUuid (uuid4 l) :: l).

(** [repository.record_pipeline_run(PipelineRunAudit(...))]: the audit is validated first. *)
Definition call_pipeline (a : PipelineRunAudit) : io unit := fun l =>
  (record_pipeline_run l a, EvPipelineRun a (record_pipeline_run l a) :: l).
Definition record_pipeline (a : PipelineRunAudit) : io unit :=
  _ ← lift (validate_PipelineRunAudit a); call_pipeline a.

Definition call_dataset (a : DatasetRunAudit) : io unit := fun l =>
  (record_dataset_run l a, EvDatasetRun a (record_dataset_run l a) :: l).
Definition record_dataset (a : DatasetRunAudit) : io unit :=
  _ ← lift (validate_DatasetRunAudit a); call_dataset a.

(** [backend.execute_ready_wave(...)], whose exceptions become [BackendReadyWaveError]. *)
Definition execute_wave (request : wave_request) : io outcomes := fun l =>
  (match execute_ready_wave l request with
   | Ok wave => Ok wave
   | Raise _ => raise "BackendReadyWaveError" "BACKEND_READY_WAVE_FAILED"
   end, EvWave request (execute_ready_wave l request) :: l).

Definition _pipeline_audit (ctx : run_context) (status : PipelineStatus) (completed_at : option datetime)
    (error_code error_message : option string) : PipelineRunAudit :=
  {| pra_pipeline_run_id := rc_pipeline_run_id ctx; pra_environment := rc_environment ctx;
     pra_domain := rc_domain ctx; pra_status := status; pra_run_mode := rc_run_mode ctx;
     pra_started_at := rc_started_at ctx; pra_completed_at := completed_at;
     pra_domain_git_sha := rc_domain_git_sha ctx; pra_framework_version := rc_framework_version ctx;
     pra_config_bundle_hash := rc_config_bundle_hash ctx; pra_error_code := error_code;
     pra_error_message := error_message |}.

Definition _bounded_message (value : string) : string :=
  let sanitized := sanitize_audit_text redact value _PIPELINE_ERROR_MESSAGE_LIMIT in
  if (String.length sanitized <=? _PIPELINE_ERROR_MESSAGE_LIMIT)%nat then sanitized
  else
    let suffix : string := "... [truncated]" in
    prefix_of (_PIPELINE_ERROR_MESSAGE_LIMIT - String.length suffix) sanitized +:+ suffix.

(** One entry of [failures], for a dataset whose outcome is not SUCCEEDED. *)
Definition failure_text (outs : outcomes) (dataset_id : string) : option string :=
  match outs !! dataset_id with
  | None => None
  | Some outcome =>
    if bool_decide (ddo_status outcome = DS_SUCCEEDED) then None
    else
      let error_code := or_else (ddo_error_code outcome) (status_value (ddo_status outcome)) in
      let error_message :=
        sanitize_audit_text redact (or_else (ddo_error_message outcome) "no dataset error detail")
          AUDIT_MAX_STRING in
      Some (dataset_id +:+ "[" +:+ status_value (ddo_status outcome) +:+ "/" +:+ error_code +:+ "]: "
            +:+ error_message)
  end.

Definition _aggregate_outcome_error (selected_dataset_ids : list string) (outs : outcomes) : string :=
  _bounded_message
    (or_else (Some (join "; " (omap (failure_text outs) selected_dataset_ids)))
       "pipeline contained non-success dataset outcomes").

(** [f"{type(exc).__name__}: {exc}"], with the constant part of the message. *)
Definition exn_text (e : exn) : string := exn_type e +:+ ": " +:+ exn_site e.

Definition _record_failed_pipeline (ctx : run_context) (error_code error_message : string) : io unit :=
  completed_at ← now;
  record_pipeline (_pipeline_audit ctx PS_FAILED (Some completed_at) (Some error_code)
                     (Some (_bounded_message error_message))).

(** The exceptions the dispatcher defines carry their [error_code] as the site of the model's
    exception. *)
Definition error_code_of (e : exn) : option string :=
  if bool_decide (exn_type e ∈ ["PipelineDispatchIntegrityError"; "BackendReadyWaveError"])
  then Some (exn_site e) else foreign_error_code e.

Definition _terminal_error_code (e : exn) : string :=
  match error_code_of e with
  | Some code =>
    if nonempty code then code
    else if bool_decide (exn_type e ∈ ["OrchestrationIntegrityError"; "PipelineDispatchIntegrityError"])
    then "ORCHESTRATION_INTEGRITY_ERROR" else "PIPELINE_EXECUTION_EXCEPTION"
  | None =>
    if bool_decide (exn_type e ∈ ["OrchestrationIntegrityError"; "PipelineDispatchIntegrityError"])
    then "ORCHESTRATION_INTEGRITY_ERROR" else "PIPELINE_EXECUTION_EXCEPTION"
  end.

Definition _record_blocked_dataset (ctx : run_context) (effective : EffectiveDatasetConfig)
    (blocking : list string) : io DatasetDispatchOutcome :=
  dataset_run_id ← fresh_uuid;
  let message :=
    sanitize_audit_text redact ("blocked by dependencies: " +:+ join "," blocking) AUDIT_MAX_STRING in
  started_at ← now;
  _ ← record_dataset
        {| dra_dataset_run_id := dataset_run_id; dra_pipeline_run_id := rc_pipeline_run_id ctx;
           dra_dataset_id := dc_dataset_id (eff_config effective); dra_attempt := 1;
           dra_run_mode := rc_run_mode ctx; dra_status := DS_BLOCKED;
           dra_effective_config_hash := eff_effective_config_hash effective;
           dra_row_accounting := None;
           dra_mutations := {| mc_inserted := 0; mc_updated := 0; mc_deleted := 0 |};
           dra_error_code := Some "BLOCKED_DEPENDENCY"; dra_error_message := Some message;
           dra_retryable := Some false; dra_started_at := started_at; dra_completed_at := None |};
  mret {| ddo_dataset_run_id := dataset_run_id; ddo_status := DS_BLOCKED; ddo_retryable := Some false;
          ddo_error_code := Some "BLOCKED_DEPENDENCY"; ddo_error_message := Some message |}.

(** ** The loop *)

Record dispatch_state := { ds_remaining : gset string; ds_outcomes : outcomes }.

(** [newly_blocked] *)
Definition newly_blocked (plan : DispatchPlan) (s : dispatch_state) : res (list (string * list string)) :=
  blockers ← mapM_res (fun dataset_id =>
      b ← blocking_dependencies plan dataset_id (ds_outcomes s); Ok (dataset_id, b))
    (sort_on id (elements (ds_remaining s)));
  Ok (filter (fun e => e.2 <> []) blockers).

(** The body of the loop over [newly_blocked]. *)
Definition block_step (ctx : run_context) (plan : DispatchPlan) (s : dispatch_state)
    (entry : string * list string) : io dispatch_state :=
  effective ← lift (effective_for plan entry.1);
  outcome ← _record_blocked_dataset ctx effective entry.2;
  mret {| ds_remaining := ds_remaining s ∖ {[entry.1]};
          ds_outcomes := <[entry.1 := outcome]> (ds_outcomes s) |}.

(** One wave: the check of the answer and the update of the state. *)
Definition wave_step (ctx : run_context) (plan : DispatchPlan) (s : dispatch_state)
    (ready : list string) : io dispatch_state :=
  wave ← execute_wave {| wr_pipeline_run_id := rc_pipeline_run_id ctx;
                         wr_effective_by_id := dp_effective_configs plan; wr_dataset_ids := ready;
                         wr_run_mode := rc_run_mode ctx; wr_max_concurrency := dp_max_concurrency plan |};
  if bool_decide (dom wave = (list_to_set ready : gset string)) then
    mret {| ds_remaining := ds_remaining s ∖ dom wave; ds_outcomes := wave ∪ ds_outcomes s |}
  else throw "PipelineDispatchIntegrityError" "INVALID_READY_WAVE_RESULT".

(** The body of [while remaining]; [None] is the [break]. *)
Definition loop_body (ctx : run_context) (plan : DispatchPlan) (s : dispatch_state) :
    io (dispatch_state * bool) :=
  blocked ← lift (newly_blocked plan s);
  s ← forM (block_step ctx plan) s blocked;
  ready ← lift (ready_dataset_ids plan (ds_remaining s) (ds_outcomes s));
  if bool_decide (ready = []) then
    if bool_decide (ds_remaining s = ∅) then mret (s, false)
    else throw "PipelineDispatchIntegrityError" "ORCHESTRATION_NO_PROGRESS"
  else
    s ← wave_step ctx plan s ready;
    mret (s, true).

Fixpoint dispatch_loop (fuel : nat) (ctx : run_context) (plan : DispatchPlan) (s : dispatch_state) :
    io outcomes :=
  if bool_decide (ds_remaining s = ∅) then mret (ds_outcomes s)
  else match fuel with
       | O => throw "OutOfFuel" "dispatch_loop"
       | S fuel =>
         next ← loop_body ctx plan s;
         if next.2 : bool then dispatch_loop fuel ctx plan next.1 else mret (ds_outcomes next.1)
       end.

Definition initial_state (plan : DispatchPlan) : dispatch_state :=
  {| ds_remaining := list_to_set (dp_selected_dataset_ids plan); ds_outcomes := ∅ |}.

(** Every iteration that does not leave the loop completes at least one dataset. *)
Definition loop_fuel (plan : DispatchPlan) : nat := length (dp_selected_dataset_ids plan).

(** ** The run *)

(** [final_error_code] and [final_error_message] *)
Definition final_error (plan : DispatchPlan) (outs : outcomes) (status : PipelineStatus) :
    option string * option string :=
  match status with
  | PS_FAILED => (Some "DATASET_FAILURES_AT_END",
                  Some (_aggregate_outcome_error (dp_selected_dataset_ids plan) outs))
  | PS_PARTIAL_SUCCESS => (Some "DATASET_WARNINGS_AT_END",
                  Some (_aggregate_outcome_error (dp_selected_dataset_ids plan) outs))
  | _ => (None, None)
  end.

(** The body of the second [try]. *)
Definition run_plan (ctx : run_context) (plan : DispatchPlan)
    (failure_policy : option PipelineFailurePolicy) (required_criticalities : list Criticality) :
    io PipelineDispatchResult :=
  outs ← dispatch_loop (loop_fuel plan) ctx plan (initial_state plan);
  final_status ← lift (aggregate_pipeline_status plan outs failure_policy required_criticalities);
  let error := final_error plan outs final_status in
  completed_at ← now;
  _ ← record_pipeline (_pipeline_audit ctx final_status (Some completed_at) error.1 error.2);
  ordered ← lift (mapM_res (fun dataset_id =>
               match outs !! dataset_id with
               | Some outcome => Ok (dataset_id, outcome)
               | None => raise "KeyError" "outcomes"
               end) (dp_selected_dataset_ids plan));
  mret {| pdr_pipeline_run_id := rc_pipeline_run_id ctx; pdr_status := final_status;
          pdr_selected_dataset_ids := dp_selected_dataset_ids plan; pdr_outcomes := ordered;
          pdr_max_concurrency := dp_max_concurrency plan |}.

(** [except Exception as exc] of the run. *)
Definition finalize_failed {A} (ctx : run_context) (e : exn) : io A :=
  _ ← try (_record_failed_pipeline ctx (_terminal_error_code e) (exn_text e))
        (fun _ => throw "PipelineFinalizationError"
           "pipeline execution failed and terminal audit finalization also failed");
  lift (Raise e).

Record dispatch_arguments := {
  da_environment : string;
  da_domain : string;
  da_domain_git_sha : string;
  da_framework_version : string;
  da_config_bundle_hash : string;
  da_run_mode : RunMode;
  da_execution_group : option string;
  da_execution_group_policy : option ExecutionGroupPolicy;
  da_requested_dataset_ids : option (list string);
  da_overrides : list RuntimeOverride;
  da_max_concurrency : Z;
  da_failure_policy : option PipelineFailurePolicy;
  da_required_criticalities : list Criticality;
  da_pipeline_run_id : option N;
  da_as_of : option datetime
}.

Context (config_hash : DatasetConfig -> string) (policy_hash : ExecutionGroupPolicy -> string).

(** [build_dispatch_plan(repository=..., as_of=as_of or started_at)] with the default registry. *)
Definition plan_of (a : dispatch_arguments) (started_at : datetime) : io DispatchPlan := fun l =>
  (configs ← (if da_max_concurrency a <=? 0 then Ok [] else list_datasets l);
   build_dispatch_plan config_hash policy_hash configs (da_execution_group a)
     (da_execution_group_policy a) (da_requested_dataset_ids a) (da_overrides a)
     (da_max_concurrency a) (default started_at (da_as_of a)) _DEFAULT_CAPABILITIES, l).

Definition context_of (a : dispatch_arguments) (run_id : N) (started_at : datetime) : run_context :=
  {| rc_pipeline_run_id := run_id; rc_environment := da_environment a; rc_domain := da_domain a;
     rc_run_mode := da_run_mode a; rc_started_at := started_at;
     rc_domain_git_sha := da_domain_git_sha a; rc_framework_version := da_framework_version a;
     rc_config_bundle_hash := da_config_bundle_hash a |}.

(** [except OrchestrationIntegrityError as exc] of the planning. *)
Definition planning_failed {A} (ctx : run_context) (e : exn) : io A :=
  if bool_decide (exn_type e = "OrchestrationIntegrityError") then
    _ ← _record_failed_pipeline ctx "ORCHESTRATION_INTEGRITY_ERROR" (exn_text e);
    lift (Raise e)
  else lift (Raise e).

Definition dispatch_datasets_with_backend (a : dispatch_arguments) : io PipelineDispatchResult :=
  started_at ← now;
  run_id ← match da_pipeline_run_id a with Some n => mret n | None => fresh_uuid end;
  let ctx := context_of a run_id started_at in
  plan ← try (plan_of a started_at) (planning_failed ctx);
  _ ← record_pipeline (_pipeline_audit ctx PS_RUNNING None None None);
  try (run_plan ctx plan (da_failure_policy a) (da_required_criticalities a)) (finalize_failed ctx).
End dispatcher.

(** ** A concrete world *)

Definition demo_digest (c : DatasetConfig) : string :=
  "00000000000000000000000000000000000000000000000000000000000000aa".

(** The clock ticks with every call, every audit is accepted, and the backend reports FAILED
    for the datasets of [failing]. *)
Definition demo_world (deployment : list DatasetConfig) (failing : list string) : World := {|
  utc_now l := utc (Z.of_nat (length l));
  uuid4 l := N.of_nat (length l);
  list_datasets _ := Ok deployment;
  record_pipeline_run _ _ := Ok tt;
  record_dataset_run _ _ := Ok tt;
  execute_ready_wave _ request := Ok (list_to_map (map (fun i =>
    (i, demo_outcome (if bool_decide (i ∈ failing) then DS_FAILED else DS_SUCCEEDED)))
    (wr_dataset_ids request)));
  foreign_error_code _ := None;
  redact s := s
|}.

Definition demo_arguments : dispatch_arguments :=
  {| da_environment := "dev"; da_domain := "sales"; da_domain_git_sha := "abcdef0"; da_framework_version := "1";
     da_config_bundle_hash := "00000000000000000000000000000000000000000000000000000000000000bb";
     da_run_mode := RM_NORMAL; da_execution_group := None; da_execution_group_policy := None;
     da_requested_dataset_ids := None; da_overrides := []; da_max_concurrency := 4;
     da_failure_policy := None; da_required_criticalities := _DEFAULT_REQUIRED_CRITICALITIES;
     da_pipeline_run_id := Some 7%N; da_as_of := None |}.

Definition demo_run (deployment : list DatasetConfig) (failing : list string) :
    res PipelineDispatchResult * list event :=
  @dispatch_datasets_with_backend (demo_world deployment failing) demo_digest demo_policy_hash demo_arguments [].

(** A chain of three datasets. *)
Definition demo_chain : list DatasetConfig :=
  [demo_dataset "a" 1 []; demo_dataset "b" 1 ["a"]; demo_dataset "c" 1 ["b"]].

Example demo_chain_succeeds :
  pdr_status <$> (demo_run demo_chain []).1 = Ok PS_SUCCESS.
Proof. vm_compute. reflexivity. Qed.

(** When the first dataset of a chain of three fails, the second is BLOCKED and the third has
    neither a blocker when the blocked datasets are collected nor its dependencies when the
    ready ones are: the run ends with ORCHESTRATION_NO_PROGRESS instead of blocking it. *)
Theorem blocked_chain_aborts :
  (demo_run demo_chain ["a"]).1 = raise "PipelineDispatchIntegrityError" "ORCHESTRATION_NO_PROGRESS" /\
  (exists a, EvDatasetRun a (Ok tt) ∈ (demo_run demo_chain ["a"]).2 /\
     dra_dataset_id a = "b" /\ dra_status a = DS_BLOCKED) /\
  (forall a ans, EvDatasetRun a ans ∈ (demo_run demo_chain ["a"]).2 -> dra_dataset_id a <> "c").
Proof.
  vm_compute (demo_run demo_chain ["a"]). split; [reflexivity|]. split.
  - eexists. split; [do 2 right; left|split; reflexivity].
  - intros a ans Hin. repeat (apply elem_of_cons in Hin as [Hin|Hin]; [try discriminate Hin; injection Hin as -> _; discriminate|]).
    by apply elem_of_nil in Hin.
Qed.

(** ** Calls a computation makes *)

(** The calls that neither run a wave nor record the pipeline. *)
Definition bookkeeping (ev : event) : Prop :=
  match ev with EvWave _ _ | EvPipelineRun _ _ => False | _ => True end.
(** The calls that do not record the pipeline. *)
Definition not_pipeline (ev : event) : Prop :=
  match ev with EvPipelineRun _ _ => False | _ => True end.
(** The calls that do not run a wave. *)
Definition not_wave (ev : event) : Prop := match ev with EvWave _ _ => False | _ => True end.

(** The waves of a log, newest first: the datasets and the answer. *)
Definition waves (l : list event) : list (list string * res outcomes) :=
  omap (fun ev => match ev with EvWave r a => Some (wr_dataset_ids r, a) | _ => None end) l.

(** The recorded pipeline audits, newest first, with the answer of the repository. *)
Definition pipeline_audits (l : list event) : list (PipelineRunAudit * res unit) :=
  omap (fun ev => match ev with EvPipelineRun a ans => Some (a, ans) | _ => None end) l.

Lemma waves_quiet new l : Forall not_wave new -> waves (new ++ l) = waves l.
Proof. unfold waves. induction 1 as [|[] new Hev _ IH]; simpl; done. Qed.

Lemma audits_quiet new l : Forall not_pipeline new -> pipeline_audits (new ++ l) = pipeline_audits l.
Proof. unfold pipeline_audits. induction 1 as [|[] new Hev _ IH]; simpl; done. Qed.

Section calls.
Context `{World}.

Lemma emits_now (P : event -> Prop) : (forall t, P (EvClock t)) -> emits P now.
Proof. intros HP l r l' [= <- <-]. exists [EvClock (utc_now l)]. by repeat constructor. Qed.

Lemma emits_uuid (P : event -> Prop) : (forall n, P (EvUuid n)) -> emits P fresh_uuid.
Proof. intros HP l r l' [= <- <-]. exists [EvUuid (uuid4 l)]. by repeat constructor. Qed.

Lemma emits_pipeline (P : event -> Prop) a : (forall ans, P (EvPipelineRun a ans)) -> emits P (record_pipeline a).
Proof.
  intros HP. apply emits_bind; [apply emits_lift|]. intros _ l r l' [= <- <-].
  exists [EvPipelineRun a (record_pipeline_run l a)]. by repeat constructor.
Qed.

Lemma emits_dataset (P : event -> Prop) a : (forall ans, P (EvDatasetRun a ans)) -> emits P (record_dataset a).
Proof.
  intros HP. apply emits_bind; [apply emits_lift|]. intros _ l r l' [= <- <-].
  exists [EvDatasetRun a (record_dataset_run l a)]. by repeat constructor.
Qed.

Lemma emits_wave (P : event -> Prop) req : (forall ans, P (EvWave req ans)) -> emits P (execute_wave req).
Proof. intros HP l r l' [= <- <-]. exists [EvWave req (execute_ready_wave l req)]. by repeat constructor. Qed.

End calls.

(** Decides what calls a computation makes. *)
Ltac emits :=
  repeat (intros; first
    [ apply emits_now; done | apply emits_uuid; done | apply emits_pipeline; done
    | apply emits_dataset; done | apply emits_wave; done | apply emits_lift | apply emits_ret
    | apply emits_bind | apply emits_try | apply emits_forM
    | match goal with |- context [match ?b with _ => _ end] => destruct b end ]).

Section more_calls.
Context `{World}.

Lemma emits_block_step ctx plan s entry : emits bookkeeping (block_step ctx plan s entry).
Proof.
  unfold block_step, _record_blocked_dataset. emits.
Qed.

Lemma emits_failed ctx code text : emits not_wave (_record_failed_pipeline ctx code text).
Proof. unfold _record_failed_pipeline. emits. Qed.
End more_calls.

(** ** What the dispatcher decides *)

Section decisions.
Context (plan : DispatchPlan).

(** The dependencies of a selected dataset. *)
Definition deps (x : string) : list string :=
  match dget (dp_effective_configs plan) x with Some e => dependencies_of e | None => [] end.

(** A dependency that is not selected, or that has an outcome other than SUCCEEDED. *)
Definition blocked_by (outs : outcomes) (x : string) : Prop :=
  exists d, d ∈ deps x /\
    (d ∉ dp_selected_dataset_ids plan \/ (is_Some (outs !! d) /\ succeeded outs d = false)).

(** The shape of a plan. *)
Definition plan_wf : Prop :=
  NoDup (dp_selected_dataset_ids plan) /\ dp_selected_dataset_ids plan = map fst (dp_effective_configs plan).

Context (Hwf : plan_wf).

Lemma effective_for_selected x :
  x ∈ dp_selected_dataset_ids plan ->
  exists e, effective_for plan x = Ok e /\ dget (dp_effective_configs plan) x = Some e /\ deps x = dependencies_of e.
Proof using Hwf.
  destruct Hwf as [Hnd Hids]. rewrite Hids. intros ([k e] & -> & Hin)%list_elem_of_fmap. simpl.
  rewrite Hids in Hnd. apply dwf_NoDup in Hnd. pose proof (dwf_elem _ _ _ Hnd Hin) as He.
  exists e. unfold effective_for, deps. by rewrite He.
Qed.

Lemma blocking_spec outs x :
  x ∈ dp_selected_dataset_ids plan ->
  exists b, blocking_dependencies plan x outs = Ok b /\ (b <> [] <-> blocked_by outs x).
Proof using Hwf.
  intros (e & He & _ & Hd)%effective_for_selected. unfold blocking_dependencies. rewrite He. cbn [mbind res_bind].
  eexists. split; [done|]. set (l := remove_dups _).
  assert (forall y, y ∈ sort_on id l <-> y ∈ deps x /\ (y ∉ dp_selected_dataset_ids plan \/
            (is_Some (outs !! y) /\ succeeded outs y = false))) as Hl.
  { intros y. unfold l. rewrite elem_of_sort_on, elem_of_remove_dups, elem_of_app, !list_elem_of_filter, Hd. tauto. }
  split.
  - intros Hne. destruct (sort_on id l) as [|y l'] eqn:E; [done|]. exists y. apply Hl. left.
  - intros (y & Hy) E. pose proof (proj2 (Hl y) Hy) as Hin. rewrite E in Hin. by apply elem_of_nil in Hin.
Qed.

Lemma mapM_res_ok {A B} (f : A -> res B) l :
  Forall (fun a => exists b, f a = Ok b) l -> exists bs, mapM_res f l = Ok bs.
Proof using Type.
  induction 1 as [|a l [b Hb] _ [bs IH]]; simpl; [by eexists|]. rewrite Hb, IH. by eexists.
Qed.

Lemma newly_blocked_spec s :
  (forall x, x ∈ ds_remaining s -> x ∈ dp_selected_dataset_ids plan) ->
  exists bl, newly_blocked plan s = Ok bl /\ NoDup (map fst bl) /\
    (forall x, x ∈ map fst bl <-> x ∈ ds_remaining s /\ blocked_by (ds_outcomes s) x).
Proof using Hwf.
  intros Hsel. unfold newly_blocked. set (ids := sort_on id _).
  assert (forall x, x ∈ ids <-> x ∈ ds_remaining s) as Hids
    by (intros x; unfold ids; by rewrite elem_of_sort_on, elem_of_elements).
  assert (NoDup ids) as Hnd by (unfold ids; rewrite sort_on_perm; apply NoDup_elements).
  set (f := fun x => b ← blocking_dependencies plan x (ds_outcomes s); Ok (x, b)).
  destruct (mapM_res_ok f ids) as [bs Hbs].
  { apply Forall_forall. intros x Hx%Hids%Hsel. destruct (blocking_spec (ds_outcomes s) x Hx) as (b & Hb & _).
    unfold f. rewrite Hb. by eexists. }
  rewrite Hbs. cbn [mbind res_bind]. eexists. split; [done|]. apply mapM_res_Forall2 in Hbs.
  assert (Forall (fun xb => xb.1 ∈ ids /\ blocking_dependencies plan xb.1 (ds_outcomes s) = Ok xb.2) bs /\
          map fst bs = ids) as [Hall Hfst].
  { clear Hnd. revert Hids. generalize (ds_remaining s). intros rem _. clear -Hbs.
    enough (Forall (fun xb => blocking_dependencies plan xb.1 (ds_outcomes s) = Ok xb.2) bs /\ map fst bs = ids) as [H1 H2].
    { split; [|done]. rewrite Forall_forall in *. intros xb Hin. split; [|by apply H1].
      rewrite <-H2. by apply list_elem_of_fmap_2. }
    induction Hbs as [|x [y b] ids bs Hf _ [IH1 IH2]]; [done|].
    unfold f in Hf. apply bind_Ok in Hf as (b' & Hb & [= -> ->]). split; [by constructor|]. simpl. by f_equal. }
  rewrite Forall_forall in Hall. split.
  - rewrite <-Hfst in Hnd. eapply sublist_NoDup; [exact Hnd|]. clear.
    induction bs as [|e bs IH]; [constructor|]. rewrite filter_cons. destruct (decide _); simpl; by constructor.
  - intros x. rewrite <-Hids. split.
    + intros ([y b] & -> & [Hb Hin]%list_elem_of_filter)%list_elem_of_fmap. simpl in *.
      destruct (Hall _ Hin) as [Hy Hby]. split; [done|]. simpl in *.
      destruct (blocking_spec (ds_outcomes s) y) as (b' & Hb' & Hiff); [by apply Hsel, Hids|].
      rewrite Hby in Hb'. injection Hb' as <-. by apply Hiff.
    + intros [Hx Hb]. rewrite <-Hfst in Hx. apply list_elem_of_fmap in Hx as ([y b] & -> & Hin).
      destruct (Hall _ Hin) as [Hy Hby]. simpl in *. apply list_elem_of_fmap. exists (y, b). split; [done|].
      apply list_elem_of_filter. split; [|done]. simpl.
      destruct (blocking_spec (ds_outcomes s) y) as (b' & Hb' & Hiff); [by apply Hsel, Hids|].
      rewrite Hby in Hb'. injection Hb' as <-. by apply Hiff.
Qed.

Lemma ready_spec remaining outs :
  exists ready, ready_dataset_ids plan remaining outs = Ok ready /\ NoDup ready /\
    (forall x, x ∈ ready <-> x ∈ dp_selected_dataset_ids plan /\ x ∈ remaining /\
       forall d, d ∈ deps x -> succeeded outs d = true).
Proof using Hwf.
  assert (forall x, x ∈ dp_selected_dataset_ids plan -> exists b, is_ready plan remaining outs x = Ok b /\
     (b = true <-> x ∈ remaining /\ forall d, d ∈ deps x -> succeeded outs d = true)) as Hr.
  { intros x (e & He & _ & Hd)%effective_for_selected. unfold is_ready. rewrite He, Hd.
    case_bool_decide; cbn [mbind res_bind]; eexists; (split; [done|]); [|naive_solver].
    rewrite forallb_forall. setoid_rewrite <-list_elem_of_In. tauto. }
  exists (filter (fun x => is_ready plan remaining outs x = Ok true) (dp_selected_dataset_ids plan)).
  split_and!.
  - apply filterM_res_Ok. split; [|done]. apply Forall_forall. intros x Hx.
    by destruct (Hr x Hx) as (b & -> & _).
  - apply NoDup_filter. apply Hwf.
  - intros x. rewrite list_elem_of_filter. split.
    + intros [Ht Hx]. destruct (Hr x Hx) as (b & Hb & Hiff). rewrite Hb in Ht. injection Ht as ->.
      split; [done|]. by apply Hiff.
    + intros (Hx & Hrem). destruct (Hr x Hx) as (b & Hb & Hiff). split; [|done].
      rewrite Hb. f_equal. by apply Hiff.
Qed.
End decisions.

(** ** The invariant of the loop *)

(** [x] is in none of the waves. *)
Definition unrun (ws : list (list string * res outcomes)) (x : string) : Prop :=
  Forall (fun w => x ∉ w.1) ws.

(** The backend answered [o] for [x]. *)
Definition reported (ws : list (list string * res outcomes)) (x : string) (o : DatasetDispatchOutcome) : Prop :=
  exists ids m, (ids, Ok m) ∈ ws /\ x ∈ ids /\ m !! x = Some o.

(** Waves, newest first, that respect the dependencies: the datasets of a wave are selected,
    are in no earlier wave, and all their dependencies were reported SUCCEEDED by earlier
    waves. *)
Inductive ordered_waves (plan : DispatchPlan) : list (list string * res outcomes) -> Prop :=
| ordered_none : ordered_waves plan []
| ordered_wave ids answer earlier :
    NoDup ids ->
    (forall x, x ∈ ids -> x ∈ dp_selected_dataset_ids plan /\ unrun earlier x /\
       forall d, d ∈ deps plan x -> exists o, reported earlier d o /\ ddo_status o = DS_SUCCEEDED) ->
    ordered_waves plan earlier -> ordered_waves plan ((ids, answer) :: earlier).

(** An outcome the dispatcher gave: the dataset ran after all its dependencies succeeded, or it
    did not run and is BLOCKED by a dependency. *)
Definition justified (plan : DispatchPlan) (ws : list (list string * res outcomes)) (outs : outcomes)
    (x : string) (o : DatasetDispatchOutcome) : Prop :=
  (reported ws x o /\ forall d, d ∈ deps plan x -> succeeded outs d = true) \/
  (ddo_status o = DS_BLOCKED /\ unrun ws x /\ blocked_by plan outs x).

Record invariant (plan : DispatchPlan) (s : dispatch_state) (ws : list (list string * res outcomes)) : Prop := {
  inv_ordered : ordered_waves plan ws;
  inv_remaining x : x ∈ ds_remaining s ->
    x ∈ dp_selected_dataset_ids plan /\ ds_outcomes s !! x = None /\ unrun ws x;
  inv_outcome x o : ds_outcomes s !! x = Some o ->
    x ∈ dp_selected_dataset_ids plan /\ justified plan ws (ds_outcomes s) x o;
  inv_cover x : x ∈ dp_selected_dataset_ids plan -> x ∈ ds_remaining s \/ is_Some (ds_outcomes s !! x)
}.

Lemma succeeded_mono (outs outs' : outcomes) x :
  outs ⊆ outs' -> succeeded outs x = true -> succeeded outs' x = true.
Proof.
  unfold succeeded. intros Hsub. destruct (outs !! x) as [o|] eqn:E; [|done].
  by rewrite (lookup_weaken _ _ _ _ E Hsub).
Qed.

Lemma blocked_mono plan (outs outs' : outcomes) x :
  outs ⊆ outs' -> blocked_by plan outs x -> blocked_by plan outs' x.
Proof.
  unfold succeeded. intros Hsub (d & Hd & Hb). exists d. split; [done|].
  destruct Hb as [?|[[o Ho] Hs]]; [by left|right]. unfold succeeded in *.
  rewrite Ho in Hs. rewrite (lookup_weaken _ _ _ _ Ho Hsub). eauto.
Qed.

Lemma succeeded_outcome (outs : outcomes) d :
  succeeded outs d = true -> exists o, outs !! d = Some o /\ ddo_status o = DS_SUCCEEDED.
Proof.
  unfold succeeded. destruct (outs !! d) as [o|]; [|done]. intros Hb%bool_decide_eq_true. eauto.
Qed.

Section steps.
Context `{World} (ctx : run_context) (plan : DispatchPlan).

Lemma initial_invariant : invariant plan (initial_state plan) [].
Proof using Type.
  unfold initial_state. split; simpl.
  - constructor.
  - intros x Hx%elem_of_list_to_set. split_and!; [done|apply lookup_empty|constructor].
  - intros x o. by rewrite lookup_empty.
  - intros x Hx. left. by apply elem_of_list_to_set.
Qed.

(** Recording one blocked dataset. *)
Lemma block_step_ok s entry l s' l' :
  block_step ctx plan s entry l = (Ok s', l') ->
  exists o, ddo_status o = DS_BLOCKED /\ ds_remaining s' = ds_remaining s ∖ {[entry.1]} /\
    ds_outcomes s' = <[entry.1 := o]> (ds_outcomes s).
Proof using Type.
  unfold block_step.
  intros [(e & _ & [=])|(eff & l1 & Heff & Hrest)]%eff_bind_inv.
  apply eff_bind_inv in Hrest as [(e & _ & [=])|(o & l2 & Ho & Hrest)]. injection Hrest as <- <-.
  exists o. split; [|done]. unfold _record_blocked_dataset in Ho.
  repeat (apply eff_bind_inv in Ho as [(? & _ & [=])|(? & ? & _ & Ho)]). by injection Ho as <- _.
Qed.

Lemma block_step_invariant s ws x o :
  invariant plan s ws -> x ∈ ds_remaining s -> blocked_by plan (ds_outcomes s) x -> ddo_status o = DS_BLOCKED ->
  invariant plan {| ds_remaining := ds_remaining s ∖ {[x]}; ds_outcomes := <[x := o]> (ds_outcomes s) |} ws.
Proof using Type.
  intros [Ho Hr Hout Hc] Hx Hb Hs. destruct (Hr x Hx) as (Hsel & Hnone & Hun).
  assert (ds_outcomes s ⊆ <[x := o]> (ds_outcomes s)) as Hsub by by apply insert_subseteq.
  split; simpl; [done| | |].
  - intros y [Hy Hne]%elem_of_difference. destruct (Hr y Hy) as (? & ? & ?). split_and!; [done| |done].
    rewrite lookup_insert_ne; [done|]. set_solver.
  - intros y o' [[<- <-]|[Hne Hy]]%lookup_insert_Some.
    + split; [done|]. right. split_and!; [done..|]. by eapply blocked_mono.
    + destruct (Hout y o' Hy) as [Hysel Hj]. split; [done|]. destruct Hj as [[Hrep Hd]|(? & ? & ?)].
      * left. split; [done|]. intros d Hin. by eapply succeeded_mono; [|apply Hd].
      * right. split_and!; [done..|]. by eapply blocked_mono.
  - intros y Hy. destruct (decide (y = x)) as [->|Hne].
    + right. rewrite lookup_insert_eq. by eexists.
    + rewrite lookup_insert_ne by done. destruct (Hc y Hy); [left; set_solver|by right].
Qed.

(** The loop over the newly blocked datasets. *)
Lemma block_loop bl s l s' l' ws :
  invariant plan s ws -> NoDup (map fst bl) ->
  (forall x, x ∈ map fst bl -> x ∈ ds_remaining s /\ blocked_by plan (ds_outcomes s) x) ->
  forM (block_step ctx plan) s bl l = (Ok s', l') ->
  invariant plan s' ws /\ ds_remaining s' = ds_remaining s ∖ list_to_set (map fst bl) /\
  ds_outcomes s ⊆ ds_outcomes s' /\
  (forall x, is_Some (ds_outcomes s' !! x) -> is_Some (ds_outcomes s !! x) \/ x ∈ map fst bl).
Proof using Type.
  revert s l. induction bl as [|[x b] bl IH]; intros s l Hinv Hnd Hbl; cbn [map fst forM].
  - intros [= <- <-]. split_and!; [done|set_solver|done|by left].
  - cbn [map fst] in Hnd, Hbl. apply NoDup_cons in Hnd as [Hx Hnd].
    intros [(e & _ & [=])|(s1 & l1 & H1 & H2)]%eff_bind_inv.
    apply block_step_ok in H1 as (o & Hs & Hrem & Hout). simpl in *.
    destruct (Hbl x) as [Hxr Hxb]; [left|].
    pose proof (block_step_invariant s ws x o Hinv Hxr Hxb Hs) as Hinv1.
    assert (s1 = {| ds_remaining := ds_remaining s ∖ {[x]}; ds_outcomes := <[x := o]> (ds_outcomes s) |})
      as -> by (destruct s1; simpl in *; congruence). clear Hrem Hout.
    destruct (inv_remaining _ _ _ Hinv x Hxr) as (_ & Hnone & _).
    assert (ds_outcomes s ⊆ <[x := o]> (ds_outcomes s)) as Hsub by by apply insert_subseteq.
    apply IH in H2 as (Hinv2 & Hrem2 & Hsub2 & Hnew); [|done|done|].
    + simpl in *. split_and!; [done|rewrite Hrem2; set_solver|by etrans|].
      intros y [Hy|Hy]%Hnew; [|right; by right]. apply lookup_insert_is_Some in Hy as [->|[_ Hy]]; [right; left|by left].
    + simpl. intros y Hy. destruct (Hbl y) as [Hyr Hyb]; [by right|]. split.
      * apply elem_of_difference. split; [done|]. intros ->%elem_of_singleton. done.
      * by eapply blocked_mono.
Qed.

Context (Hwf : plan_wf plan).

Lemma reported_mono ws w x o : reported ws x o -> reported (w :: ws) x o.
Proof using Type. intros (ids & m & Hin & ?). exists ids, m. split; [by right|done]. Qed.

Lemma bookkeeping_waves {A} (m : io A) l r l' :
  emits bookkeeping m -> m l = (r, l') -> waves l' = waves l.
Proof using Type.
  intros Hm (new & -> & Hn)%Hm. apply waves_quiet. eapply Forall_impl; [done|]. by intros [].
Qed.

(** A ready wave respects the dependencies. *)
Lemma ready_ordered s ws ready answer :
  invariant plan s ws -> ready_dataset_ids plan (ds_remaining s) (ds_outcomes s) = Ok ready ->
  ordered_waves plan ((ready, answer) :: ws).
Proof using Hwf.
  intros Hinv Hready. destruct (ready_spec plan Hwf (ds_remaining s) (ds_outcomes s)) as (ready' & Hr & Hnd & Hin).
  rewrite Hready in Hr. injection Hr as <-. constructor; [done| |by eapply inv_ordered].
  intros x (Hsel & Hrem & Hd)%Hin. destruct (inv_remaining _ _ _ Hinv x Hrem) as (_ & _ & Hun).
  split_and!; [done..|]. intros d Hdx. destruct (succeeded_outcome _ _ (Hd d Hdx)) as (o & Ho & Hs).
  destruct (inv_outcome _ _ _ Hinv d o Ho) as [_ [[Hrep _]|(Hb & _)]]; [by exists o|congruence].
Qed.

Lemma wave_invariant s ws ready wave :
  invariant plan s ws -> ready_dataset_ids plan (ds_remaining s) (ds_outcomes s) = Ok ready ->
  dom wave = (list_to_set ready : gset string) ->
  invariant plan {| ds_remaining := ds_remaining s ∖ dom wave; ds_outcomes := wave ∪ ds_outcomes s |}
    ((ready, Ok wave) :: ws).
Proof using Hwf.
  intros Hinv Hready Hdom. pose proof (ready_ordered s ws ready (Ok wave) Hinv Hready) as Hord.
  destruct (ready_spec plan Hwf (ds_remaining s) (ds_outcomes s)) as (ready' & Hr & _ & Hin).
  rewrite Hready in Hr. injection Hr as <-. destruct Hinv as [_ Hrem Hout Hcov].
  assert (forall x, x ∈ ready <-> is_Some (wave !! x)) as Hw
    by (intros x; by rewrite <-elem_of_dom, Hdom, elem_of_list_to_set).
  assert (wave ##ₘ ds_outcomes s) as Hdisj.
  { apply map_disjoint_spec. intros x o o' Hx Ho.
    destruct (proj1 (Hin x) (proj2 (Hw x) (mk_is_Some _ _ Hx))) as (_ & Hxr & _).
    destruct (Hrem x Hxr) as (_ & Hn & _). congruence. }
  assert (ds_outcomes s ⊆ wave ∪ ds_outcomes s) as Hsub by by apply map_union_subseteq_r.
  split; simpl; [done| | |].
  - intros x [Hx Hnx]%elem_of_difference. destruct (Hrem x Hx) as (? & Hn & Hun).
    apply not_elem_of_dom in Hnx. split_and!; [done|by apply lookup_union_None|].
    constructor; [|done]. simpl. rewrite Hw, Hnx. by intros [? [=]].
  - intros x o [Hx|[Hx Ho]]%lookup_union_Some_raw.
    + destruct (proj1 (Hin x) (proj2 (Hw x) (mk_is_Some _ _ Hx))) as (Hsel & _ & Hd). split; [done|]. left. split.
      * exists ready, wave. split_and!; [left| |done]. apply Hw. by eexists.
      * intros d Hdx. by eapply succeeded_mono; [|apply Hd].
    + destruct (Hout x o Ho) as [Hsel [[Hrep Hd]|(Hs & Hun & Hb)]]; (split; [done|]).
      * left. split; [by apply reported_mono|]. intros d Hdx. by eapply succeeded_mono; [|apply Hd].
      * right. split_and!; [done| |by eapply blocked_mono]. constructor; [|done]. simpl.
        rewrite Hw, Hx. by intros [? [=]].
  - intros x Hsel. destruct (wave !! x) as [o|] eqn:Hx.
    + right. exists o. by apply lookup_union_Some_l.
    + destruct (Hcov x Hsel) as [?|[o Ho]]; [left|right].
      * apply elem_of_difference. split; [done|]. by apply not_elem_of_dom.
      * exists o. by apply lookup_union_Some_r.
Qed.

Lemma loop_body_ok s l r l' :
  invariant plan s (waves l) -> loop_body ctx plan s l = (r, l') ->
  ordered_waves plan (waves l') /\
  forall s' b, r = Ok (s', b) ->
    invariant plan s' (waves l') /\ (b = false -> ds_remaining s' = ∅) /\
    (b = true -> (size (ds_remaining s') < size (ds_remaining s))%nat).
Proof using Hwf.
  intros Hinv. unfold loop_body.
  destruct (newly_blocked_spec plan Hwf s) as (bl & Hbl & Hnd & Hin).
  { intros x Hx. by apply (inv_remaining _ _ _ Hinv). }
  rewrite Hbl. intros [(e & [=] & _)|(bl' & l0 & [= <- <-] & H1)]%eff_bind_inv.
  apply eff_bind_inv in H1 as [(e & H1 & ->)|(s1 & l1 & H1 & H2)].
  { apply bookkeeping_waves in H1 as ->; [|apply emits_forM; intros; apply emits_block_step].
    split; [by eapply inv_ordered|done]. }
  pose proof H1 as Hw1. apply bookkeeping_waves in Hw1; [|apply emits_forM; intros; apply emits_block_step].
  apply block_loop with (ws := waves l) in H1 as (Hinv1 & Hrem1 & _ & _); [|done|done|by intros x Hx%Hin].
  rewrite <-Hw1 in Hinv1.
  destruct (ready_spec plan Hwf (ds_remaining s1) (ds_outcomes s1)) as (ready & Hready & _ & Hrin).
  rewrite Hready in H2. apply eff_bind_inv in H2 as [(e & [=] & _)|(ready' & l2 & [= <- <-] & H2)].
  case_bool_decide as Hempty.
  - case_bool_decide as Hr.
    + injection H2 as <- <-. split; [by eapply inv_ordered|]. by intros s' b [= <- <-].
    + injection H2 as <- <-. split; [by eapply inv_ordered|done].
  - unfold wave_step in H2. apply eff_bind_inv in H2 as [(e & H2 & ->)|(s2 & l2 & H2 & H3)].
    + apply eff_bind_inv in H2 as [(e' & H2 & [= ->])|(wave & l2 & H2 & H3)].
      * injection H2 as _ <-. simpl. split; [by eapply ready_ordered|done].
      * injection H2 as _ <-. case_bool_decide; [done|]. injection H3 as _ <-.
        split; [by eapply ready_ordered|done].
    + injection H3 as <- <-. apply eff_bind_inv in H2 as [(e' & _ & [=])|(wave & l3 & H2 & H3)].
      unfold execute_wave in H2. destruct (execute_ready_wave l1 _) as [w|] eqn:Ew; [|done].
      injection H2 as <- <-. case_bool_decide as Hdom; [|done]. injection H3 as <- <-. simpl.
      split; [by eapply ready_ordered|]. intros s' b [= <- <-]. split; [by apply wave_invariant|]. split; [done|].
      intros _. simpl. rewrite Hdom. apply subset_size.
      destruct ready as [|x ready]; [done|]. destruct (proj1 (Hrin x)) as (_ & Hx & _); [left|].
      split; [set_solver|]. intros Hsub. specialize (Hsub x).
      assert (x ∈ ds_remaining s) by set_solver. set_solver.
Qed.

Lemma dispatch_loop_ok fuel s l r l' :
  invariant plan s (waves l) -> dispatch_loop fuel ctx plan s l = (r, l') ->
  ordered_waves plan (waves l') /\
  forall outs, r = Ok outs -> invariant plan {| ds_remaining := ∅; ds_outcomes := outs |} (waves l').
Proof using Hwf.
  revert s l. induction fuel as [|fuel IH]; intros s l Hinv; cbn [dispatch_loop].
  - case_bool_decide as Hr; intros [= <- <-]; (split; [by eapply inv_ordered|]); [|done].
    intros outs [= <-]. rewrite <-Hr. by destruct s.
  - case_bool_decide as Hr.
    { intros [= <- <-]. split; [by eapply inv_ordered|]. intros outs [= <-]. rewrite <-Hr. by destruct s. }
    intros [(e & H1 & ->)|([s1 b] & l1 & H1 & H2)]%eff_bind_inv.
    + apply loop_body_ok in H1 as [Hord _]; [|done]. by split.
    + apply loop_body_ok in H1 as [Hord H1]; [|done]. destruct (H1 s1 b eq_refl) as (Hinv1 & Hend & _).
      destruct b; [by eapply IH|]. injection H2 as <- <-. split; [done|].
      intros outs [= <-]. rewrite <-(Hend eq_refl). by destruct s1.
Qed.
End steps.

Lemma reported_ran ws x o : reported ws x o -> ~ unrun ws x.
Proof.
  intros (ids & m & Hin & Hx & _) Hun. unfold unrun in Hun. rewrite Forall_forall in Hun. by apply (Hun _ Hin).
Qed.

Lemma reported_selected plan ws x o :
  ordered_waves plan ws -> reported ws x o -> x ∈ dp_selected_dataset_ids plan.
Proof.
  intros Hord (ids & m & Hin & Hx & _). induction Hord as [|ids' ans ws _ Hall _ IH]; [by apply elem_of_nil in Hin|].
  apply elem_of_cons in Hin as [Heq|Hin]; [simplify_eq; by apply Hall|by apply IH].
Qed.

(** A dataset has one answer. *)
Lemma reported_unique plan ws x o o' :
  ordered_waves plan ws -> reported ws x o -> reported ws x o' -> o = o'.
Proof.
  induction 1 as [|ids ans ws _ Hall _ IH].
  - by intros (? & ? & ?%elem_of_nil & _).
  - intros (i1 & m1 & H1 & Hx1 & Ho1) (i2 & m2 & H2 & Hx2 & Ho2).
    apply elem_of_cons in H1 as [E1|H1], H2 as [E2|H2]; simplify_eq.
    + congruence.
    + destruct (Hall x Hx1) as (_ & Hun & _). destruct (reported_ran ws x o'); [|done]. by exists i2, m2.
    + destruct (Hall x Hx2) as (_ & Hun & _). destruct (reported_ran ws x o); [|done]. by exists i1, m1.
    + apply IH; [by exists i1, m1|by exists i2, m2].
Qed.

(** ** Progress *)

(** A dataset the log reports as SUCCEEDED. *)
Definition reported_success (ws : list (list string * res outcomes)) (x : string) : Prop :=
  exists o, reported ws x o /\ ddo_status o = DS_SUCCEEDED.

(** A world that accepts the audits of the datasets, whose clock is aware, and whose backend
    answers for exactly the datasets it was given ([ReadyWaveBackend]). *)
Class LawfulWorld `{World} : Prop := {
  clock_aware l : is_naive (utc_now l) = false;
  dataset_runs_accepted l a : record_dataset_run l a = Ok tt;
  backend_answers l request :
    exists wave, execute_ready_wave l request = Ok wave /\
      dom wave = (list_to_set (wr_dataset_ids request) : gset string)
}.

(** The selected datasets have the identity and the hash their audits ask for. *)
Definition auditable (plan : DispatchPlan) : Prop :=
  Forall (fun e => nonempty (dc_dataset_id (eff_config e.2)) = true /\
    matches_class is_lower_hex 64 64 (eff_effective_config_hash e.2) = true) (dp_effective_configs plan).

(** Why the loop can stop without progress: [x] depends on [d], [d] on [d'], which has not
    succeeded, and [x] does not depend on [d'] itself. *)
Definition hidden_blocker (plan : DispatchPlan) (ws : list (list string * res outcomes)) : Prop :=
  exists x d d', d ∈ deps plan x /\ d' ∈ deps plan d /\ d' ∉ deps plan x /\ ~ reported_success ws d'.

Section progress.
Context `{LawfulWorld} (ctx : run_context) (plan : DispatchPlan) (Hwf : plan_wf plan)
  (Haudit : auditable plan) (Hacc : forall x, Acc (flip (edge (dp_effective_configs plan))) x).

Lemma block_step_runs s x b l :
  x ∈ dp_selected_dataset_ids plan -> exists s' l', block_step ctx plan s (x, b) l = (Ok s', l').
Proof using Hwf Haudit H0.
  intros (e & He & Hget & _)%(effective_for_selected plan Hwf).
  apply dget_Some_elem in Hget as (k & _ & Hin). unfold auditable in Haudit. rewrite Forall_forall in Haudit.
  destruct (Haudit _ Hin) as [Hid Hhash]. simpl in *.
  unfold block_step, _record_blocked_dataset, record_dataset, lift, mbind, eff_bind, now, fresh_uuid. simpl.
  rewrite He. simpl. unfold validate_DatasetRunAudit, validate_span, require_aware_datetime. simpl.
  rewrite Hid, Hhash, clock_aware. simpl. unfold call_dataset. rewrite dataset_runs_accepted. simpl. eauto.
Qed.

Lemma block_loop_runs bl s l :
  (forall x, x ∈ map fst bl -> x ∈ dp_selected_dataset_ids plan) ->
  exists s' l', forM (block_step ctx plan) s bl l = (Ok s', l').
Proof using Hwf Haudit H0.
  revert s l. induction bl as [|[x b] bl IH]; intros s l Hsel; cbn [forM]; [by eexists _, _|].
  destruct (block_step_runs s x b l) as (s1 & l1 & H1); [apply Hsel; left|].
  destruct (IH s1 l1) as (s2 & l2 & H2); [intros; apply Hsel; by right|].
  exists s2, l2. unfold mbind, eff_bind. by rewrite H1.
Qed.

(** A dataset with all its dependencies out of the loop, if any dataset is in it. *)
Lemma minimal_remaining (remaining : gset string) x :
  x ∈ remaining ->
  exists y, y ∈ remaining /\ forall d, d ∈ deps plan y -> d ∈ dp_selected_dataset_ids plan -> d ∉ remaining.
Proof using Hwf Hacc.
  intros Hx. pose proof (Hacc x) as Ha. induction Ha as [x _ IH].
  destruct (decide (Exists (fun d => d ∈ dp_selected_dataset_ids plan /\ d ∈ remaining) (deps plan x))) as [He|Hn].
  - apply Exists_exists in He as (d & Hd & Hsel & Hrem). apply (IH d); [|done].
    unfold deps in Hd. destruct (dget (dp_effective_configs plan) x) as [e|] eqn:E; [|by apply elem_of_nil in Hd].
    exists e. split_and!; [done|done|]. destruct Hwf as [_ Hids]. apply dmem_selected. unfold selected_ids.
    by rewrite elem_of_list_to_set, <-Hids.
  - exists x. split; [done|]. intros d Hd Hsel Hrem. apply Hn, Exists_exists. eauto.
Qed.

(** When nothing is ready although something remains, a blocker is hidden. *)
Lemma stuck_hidden s s1 ws bl :
  invariant plan s ws -> invariant plan s1 ws ->
  (forall x, x ∈ bl <-> x ∈ ds_remaining s /\ blocked_by plan (ds_outcomes s) x) ->
  ds_remaining s1 = ds_remaining s ∖ list_to_set bl ->
  (forall x, is_Some (ds_outcomes s1 !! x) -> is_Some (ds_outcomes s !! x) \/ x ∈ bl) ->
  ds_outcomes s ⊆ ds_outcomes s1 ->
  ready_dataset_ids plan (ds_remaining s1) (ds_outcomes s1) = Ok [] -> ds_remaining s1 <> ∅ ->
  hidden_blocker plan ws.
Proof using All.
  intros Hinv Hinv1 Hbl Hrem Hnew Hsub Hready Hne.
  apply set_choose_L in Hne as [x0 Hx0]. apply minimal_remaining in Hx0 as (x & Hx & Hmin).
  destruct (ready_spec plan Hwf (ds_remaining s1) (ds_outcomes s1)) as (ready & Hr & _ & Hin).
  rewrite Hready in Hr. injection Hr as <-.
  destruct (inv_remaining _ _ _ Hinv1 x Hx) as (Hsel & _ & _).
  assert (x ∈ ds_remaining s /\ x ∉ bl) as [Hxs Hxbl] by (rewrite Hrem in Hx; set_solver).
  assert (~ blocked_by plan (ds_outcomes s) x) as Hnb by (intros Hb; by apply Hxbl, Hbl).
  destruct (decide (Forall (fun d => succeeded (ds_outcomes s1) d = true) (deps plan x))) as [Hall|Hnall].
  { exfalso. rewrite Forall_forall in Hall. apply (not_elem_of_nil x), Hin. auto. }
  apply not_Forall_Exists, Exists_exists in Hnall as (d & Hd & Hds); [|apply _]. simpl in Hds.
  destruct (decide (d ∈ dp_selected_dataset_ids plan)) as [Hdsel|Hdn]; [|destruct Hnb; exists d; auto].
  destruct (inv_cover _ _ _ Hinv1 d Hdsel) as [Hdr|Hdo]; [by destruct (Hmin d Hd Hdsel)|].
  apply Hnew in Hdo as [Hdo|Hdbl].
  - destruct Hnb. exists d. split; [done|]. right. split; [done|].
    destruct (succeeded (ds_outcomes s) d) eqn:E; [|done]. destruct Hds. by eapply succeeded_mono.
  - apply Hbl in Hdbl as [_ (d' & Hd' & Hd'b)]. exists x, d, d'. split_and!; [done|done| |].
    + intros Hd'x. apply Hnb. by exists d'.
    + intros (o & Hrep & Hos). destruct Hd'b as [Hns|[[o' Ho'] Hf]].
      * apply Hns. eapply reported_selected; [by eapply inv_ordered|done].
      * unfold succeeded in Hf. rewrite Ho' in Hf. apply bool_decide_eq_false in Hf.
        destruct (inv_outcome _ _ _ Hinv d' o' Ho') as [_ [[Hrep' _]|(_ & Hun & _)]].
        -- apply Hf. by rewrite (reported_unique plan ws d' o' o (inv_ordered _ _ _ Hinv) Hrep' Hrep).
        -- by apply (reported_ran ws d' o).
Qed.

(** One iteration of a lawful world goes on, leaves the loop, or is stuck on a hidden blocker. *)
Lemma loop_body_progress s l :
  invariant plan s (waves l) -> ds_remaining s <> ∅ ->
  exists r l', loop_body ctx plan s l = (r, l') /\
    ((exists sb, r = Ok sb) \/
     (r = raise "PipelineDispatchIntegrityError" "ORCHESTRATION_NO_PROGRESS" /\ hidden_blocker plan (waves l'))).
Proof using All.
  intros Hinv Hne. unfold loop_body.
  assert (forall x, x ∈ ds_remaining s -> x ∈ dp_selected_dataset_ids plan) as Hsel
    by (intros x Hx; by apply (inv_remaining _ _ _ Hinv)).
  destruct (newly_blocked_spec plan Hwf s Hsel) as (bl & Hbl & Hnd & Hin). rewrite Hbl.
  destruct (block_loop_runs bl s l) as (s1 & l1 & H1); [intros x [Hx _]%Hin; by apply Hsel|].
  pose proof H1 as Hw1. apply bookkeeping_waves in Hw1; [|apply emits_forM; intros; apply emits_block_step].
  pose proof H1 as Hb. apply block_loop with (ws := waves l) in Hb as (Hinv1 & Hrem1 & Hsub1 & Hnew1);
    [|done|done|by intros x Hx%Hin].
  destruct (ready_spec plan Hwf (ds_remaining s1) (ds_outcomes s1)) as (ready & Hready & _ & Hrin).
  unfold mbind, eff_bind, lift. rewrite H1, Hready. case_bool_decide as Hempty.
  - case_bool_decide as Hr; [by eexists _, _; split; [done|left; eexists]|].
    eexists _, _. split; [done|]. right. split; [done|]. rewrite Hw1.
    eapply (stuck_hidden s s1 (waves l) (map fst bl)); try done. by rewrite Hready, Hempty.
  - unfold wave_step, execute_wave, mbind, eff_bind.
    match goal with |- context [execute_ready_wave ?l ?req] =>
      destruct (backend_answers l req) as (wave & -> & Hdom) end.
    simpl in Hdom. rewrite bool_decide_eq_true_2 by done. eexists _, _. split; [done|]. left. by eexists.
Qed.

Lemma dispatch_loop_progress fuel s l :
  invariant plan s (waves l) -> (size (ds_remaining s) <= fuel)%nat ->
  exists r l', dispatch_loop fuel ctx plan s l = (r, l') /\
    ((exists outs, r = Ok outs) \/
     (r = raise "PipelineDispatchIntegrityError" "ORCHESTRATION_NO_PROGRESS" /\ hidden_blocker plan (waves l'))).
Proof using All.
  revert s l. induction fuel as [|fuel IH]; intros s l Hinv Hsize; cbn [dispatch_loop].
  - rewrite bool_decide_eq_true_2 by (apply leibniz_equiv, size_empty_iff; lia). eexists _, _. split; [done|]. left. by eexists.
  - case_bool_decide as Hne; [eexists _, _; split; [done|]; left; by eexists|].
    destruct (loop_body_progress s l Hinv Hne) as (r & l1 & H1 & Hr).
    unfold mbind, eff_bind. rewrite H1. destruct Hr as [[[s1 b] ->]|[-> Hh]]; [|by eexists _, _; split; [done|right]].
    destruct (loop_body_ok ctx plan Hwf s l _ _ Hinv H1) as [_ Hok]. destruct (Hok s1 b eq_refl) as (Hinv1 & _ & Hlt).
    destruct b; [|eexists _, _; split; [done|]; left; by eexists]. apply IH; [done|]. specialize (Hlt eq_refl). simpl. lia.
Qed.
End progress.

(** ** Properties of a run *)

Section run.
Context `{World} (config_hash : DatasetConfig -> string) (policy_hash : ExecutionGroupPolicy -> string).

Lemma build_plan_wf configs group policy requested overrides mc t registry plan :
  build_dispatch_plan config_hash policy_hash configs group policy requested overrides mc t registry = Ok plan ->
  plan_wf plan /\ forall x, Acc (flip (edge (dp_effective_configs plan))) x.
Proof using Type. intros (? & ? & ?)%build_dispatch_plan_graph. done. Qed.

Lemma quiet_waves {A} (m : io A) l r l' : emits not_wave m -> m l = (r, l') -> waves l' = waves l.
Proof using Type. intros Hm (new & -> & Hn)%Hm. by apply waves_quiet. Qed.

Lemma emits_planning {A} ctx e : emits not_wave (@planning_failed _ A ctx e).
Proof using Type. unfold planning_failed, _record_failed_pipeline. emits. Qed.

Lemma emits_finalize {A} ctx e : emits not_wave (@finalize_failed _ A ctx e).
Proof using Type. unfold finalize_failed, _record_failed_pipeline. emits. Qed.

Lemma plan_of_Ok a t l plan l' :
  plan_of config_hash policy_hash a t l = (Ok plan, l') ->
  l' = l /\ exists configs, list_datasets l = Ok configs /\ build_dispatch_plan config_hash policy_hash configs (da_execution_group a)
     (da_execution_group_policy a) (da_requested_dataset_ids a) (da_overrides a)
     (da_max_concurrency a) (default t (da_as_of a)) _DEFAULT_CAPABILITIES = Ok plan.
Proof using Type.
  unfold plan_of. intros [= (configs & Hc & Hb)%bind_Ok <-]. split; [done|]. exists configs. split; [|done].
  destruct (da_max_concurrency a <=? 0) eqn:E; [|done]. apply build_dispatch_plan_Ok in Hb as (Hmc & _). lia.
Qed.

Lemma planned_Ok a ctx t l plan l' :
  try (plan_of config_hash policy_hash a t) (planning_failed ctx) l = (Ok plan, l') ->
  l' = l /\ exists configs, list_datasets l = Ok configs /\
     build_dispatch_plan config_hash policy_hash configs (da_execution_group a)
     (da_execution_group_policy a) (da_requested_dataset_ids a) (da_overrides a)
     (da_max_concurrency a) (default t (da_as_of a)) _DEFAULT_CAPABILITIES = Ok plan.
Proof using Type.
  unfold try. destruct (plan_of _ _ a t l) as [[p|e] l1] eqn:E.
  - intros [= <- <-]. by apply plan_of_Ok in E.
  - unfold planning_failed. case_bool_decide; [|by intros [= _ _]].
    by intros [(? & _ & [=])|(? & ? & _ & [=])]%eff_bind_inv.
Qed.

Lemma emits_loop fuel ctx plan s : emits not_pipeline (dispatch_loop fuel ctx plan s).
Proof using Type.
  revert s. induction fuel as [|fuel IH]; intros s; cbn [dispatch_loop]; [emits|].
  destruct (bool_decide _); [emits|]. apply emits_bind.
  - unfold loop_body, wave_step, block_step, _record_blocked_dataset. emits.
  - intros [s' []]; [apply IH|emits].
Qed.

Lemma deployed_of_key configs x c : dget (deployed_of configs) x = Some c -> dc_dataset_id c = x.
Proof using Type.
  unfold deployed_of.
  enough (forall d, dget (foldl (fun d c => dset d (dc_dataset_id c) c) d configs) x = Some c ->
            (forall k v, dget d k = Some v -> dc_dataset_id v = k) -> dc_dataset_id c = x) as H0 by (intros Hc; by apply (H0 [])).
  induction configs as [|c' configs IH]; intros d; simpl; [auto|]. intros Hc Hd. apply (IH _ Hc). intros k v.
  rewrite dget_dset. destruct (keq (dc_dataset_id c') k) eqn:E; [|apply Hd]. intros [= <-]. by apply keq_string.
Qed.

(** A selected dataset has the dependencies of its deployed configuration. *)
Lemma plan_dependencies configs group policy requested overrides mc t registry plan x :
  build_dispatch_plan config_hash policy_hash configs group policy requested overrides mc t registry = Ok plan ->
  x ∈ dp_selected_dataset_ids plan ->
  exists c, c ∈ configs /\ dc_dataset_id c = x /\ deps plan x = op_dependencies (dc_orchestration c).
Proof using Type.
  intros Hb Hx. destruct (build_plan_wf _ _ _ _ _ _ _ _ _ Hb) as [Hwf _].
  destruct (effective_for_selected plan Hwf x Hx) as (e & _ & He & ->).
  apply dget_Some_elem in He as (k & ->%keq_string & Hin).
  apply build_dispatch_plan_Ok in Hb as (_ & _ & _ & _ & Heff & _). rewrite Heff in Hin. apply elem_of_sort_by in Hin.
  apply chosen_elem in Hin as (base & Hbase & Hof & _); [|apply deployed_of_NoDup].
  exists base. split; [by eapply deployed_of_elem|]. split; [by eapply deployed_of_key|].
  destruct (effective_fields _ _ _ _ _ _ _ Hof) as [Her _].
  exact (f_equal (fun c => op_dependencies (dc_orchestration c)) Her).
Qed.

(** The phases of a run: it ends without a wave, or executes a plan it built. *)
Lemma dispatch_phases a r l :
  dispatch_datasets_with_backend config_hash policy_hash a [] = (r, l) ->
  (waves l = [] /\ exists e, r = Raise e) \/
  exists ctx configs plan l1 l0, waves l0 = [] /\ (exists later, l0 = later ++ l1) /\ list_datasets l1 = Ok configs /\
    build_dispatch_plan config_hash policy_hash configs (da_execution_group a)
      (da_execution_group_policy a) (da_requested_dataset_ids a) (da_overrides a)
      (da_max_concurrency a) (default (utc_now []) (da_as_of a)) _DEFAULT_CAPABILITIES = Ok plan /\
    try (run_plan ctx plan (da_failure_policy a) (da_required_criticalities a)) (finalize_failed ctx) l0 = (r, l).
Proof using Type.
  unfold dispatch_datasets_with_backend. intros [(? & [=] & _)|(t & l1 & Hnow & Hrun)]%eff_bind_inv.
  assert (t = utc_now []) as -> by (by injection Hnow).
  apply quiet_waves in Hnow; [|emits]. change (waves []) with (@nil (list string * res outcomes)) in Hnow.
  assert (emits not_wave (match da_pipeline_run_id a with Some n => mret n | None => fresh_uuid end)) as Hid by emits.
  apply eff_bind_inv in Hrun as [(e & H1 & ->)|(n & l2 & H1 & Hrun)]; (apply quiet_waves in H1; [|exact Hid]).
  { left. split; [congruence|eauto]. }
  set (ctx := context_of a n (utc_now [])) in *.
  apply eff_bind_inv in Hrun as [(e & H2 & ->)|(plan & l3 & H2 & Hrun)].
  { left. split; [|eauto]. apply quiet_waves in H2; [congruence|].
    apply emits_try; [|intros; apply emits_planning]. intros ? ? ? [= _ <-]. by exists []. }
  apply planned_Ok in H2 as (-> & configs & Hconfigs & Hplan).
  assert (emits not_wave (record_pipeline (_pipeline_audit ctx PS_RUNNING None None None))) as Hem by emits.
  apply eff_bind_inv in Hrun as [(e & H3 & ->)|([] & l4 & H3 & Hrun)].
  - left. split; [|eauto]. apply quiet_waves in H3; [congruence|done].
  - right. exists ctx, configs, plan, l2, l4. split; [apply quiet_waves in H3; [congruence|done]|]. split; [|done].
    destruct (Hem _ _ _ H3) as (new & -> & _). by exists new.
Qed.

Lemma run_plan_waves ctx plan fp req l r l' :
  plan_wf plan -> waves l = [] -> run_plan ctx plan fp req l = (r, l') ->
  ordered_waves plan (waves l') /\
  forall result, r = Ok result ->
    pdr_selected_dataset_ids result = dp_selected_dataset_ids plan /\
    exists outs, invariant plan {| ds_remaining := ∅; ds_outcomes := outs |} (waves l') /\
      Forall2 (fun x e => e.1 = x /\ outs !! x = Some e.2) (dp_selected_dataset_ids plan) (pdr_outcomes result) /\
      aggregate_pipeline_status plan outs fp req = Ok (pdr_status result).
Proof using Type.
  intros Hwf Hl. unfold run_plan.
  pose proof (initial_invariant plan) as Hinv. rewrite <-Hl in Hinv.
  intros [(e & H1 & ->)|(outs & l1 & H1 & Hrest)]%eff_bind_inv.
  { apply dispatch_loop_ok in H1 as [Hord _]; [by split|done|done]. }
  apply dispatch_loop_ok in H1 as [Hord Hend]; [|done|done]. specialize (Hend outs eq_refl).
  assert (waves l' = waves l1) as Hw by (eapply quiet_waves; [|exact Hrest]; emits). rewrite Hw.
  split; [done|]. intros result ->.
  apply eff_bind_inv in Hrest as [(? & _ & [=])|(st & l2 & [= Hst <-] & Hrest)].
  apply eff_bind_inv in Hrest as [(? & _ & [=])|(t & l3 & _ & Hrest)].
  apply eff_bind_inv in Hrest as [(? & _ & [=])|([] & l4 & _ & Hrest)].
  apply eff_bind_inv in Hrest as [(? & _ & [=])|(ordered & l5 & [= Hm <-] & [= <- _])].
  simpl. split; [done|]. exists outs. split; [done|]. split; [|done]. apply mapM_res_Forall2 in Hm.
  eapply Forall2_impl; [exact Hm|]. intros x e. simpl. destruct (outs !! x); [|done]. by intros [= <-].
Qed.

(** C4. Whatever the outside world answers, the waves a run sends to the backend respect the
    plan: a dataset is executed at most once, and only after earlier waves reported SUCCEEDED
    for every dataset that its deployed configuration names as a dependency.  The deployed
    configurations are the answer of the repository in this very run, and the plan is built from
    them at the time the run started (or the time asked for). *)
Theorem dispatch_waves_ordered a r l :
  dispatch_datasets_with_backend config_hash policy_hash a [] = (r, l) ->
  waves l = [] \/
  exists configs plan earlier later, l = later ++ earlier /\ waves earlier = [] /\ list_datasets earlier = Ok configs /\
    build_dispatch_plan config_hash policy_hash configs (da_execution_group a)
      (da_execution_group_policy a) (da_requested_dataset_ids a) (da_overrides a)
      (da_max_concurrency a) (default (utc_now []) (da_as_of a)) _DEFAULT_CAPABILITIES = Ok plan /\
    ordered_waves plan (waves l) /\
    forall x, x ∈ dp_selected_dataset_ids plan ->
      exists c, c ∈ configs /\ dc_dataset_id c = x /\ deps plan x = op_dependencies (dc_orchestration c).
Proof using Type.
  intros [[? _]|(ctx & configs & plan & l1 & l0 & Hl0 & [later ->] & Hconfigs & Hb & Hrun)]%dispatch_phases; [by left|right].
  assert (Hl1 : waves l1 = []) by (unfold waves in Hl0 |- *; rewrite omap_app in Hl0; by apply app_eq_nil in Hl0 as [_ ?]).
  assert (exists new, l = new ++ later ++ l1) as [new Hnew].
  { assert (emits (fun _ => True) (try (run_plan ctx plan (da_failure_policy a) (da_required_criticalities a)) (finalize_failed ctx))) as Hem.
    { apply emits_try; [|intros e; unfold finalize_failed, _record_failed_pipeline; emits].
      apply emits_bind; [eapply emits_weaken; [|apply emits_loop]; done|]. emits. }
    destruct (Hem _ _ _ Hrun) as (new & -> & _). by exists new. }
  exists configs, plan, l1, (new ++ later). rewrite <-app_assoc. do 4 (split; [done|]).
  pose proof (fun x => plan_dependencies _ _ _ _ _ _ _ _ _ x Hb) as Hdeps. apply build_plan_wf in Hb as [Hwf _].
  split; [|exact Hdeps]. clear Hdeps. set (l0 := later ++ l1) in *.
  unfold try in Hrun. destruct (run_plan ctx plan _ _ l0) as [[res|e] l2] eqn:E.
  - injection Hrun as <- <-. apply run_plan_waves in E as [Hord _]; done.
  - apply run_plan_waves in E as [Hord _]; [|done|done]. apply quiet_waves in Hrun as ->; [done|].
    apply emits_finalize.
Qed.

(** A run that returns accounts for every selected dataset, in the order of the plan: each
    outcome is the answer of the backend for a dataset whose dependencies all SUCCEEDED, or
    BLOCKED for a dataset that was not executed and has a dependency that is not selected or
    has another outcome; and the status is the aggregate of these outcomes. *)
Theorem dispatch_outcomes_justified a result l :
  dispatch_datasets_with_backend config_hash policy_hash a [] = (Ok result, l) ->
  exists plan outs,
    pdr_selected_dataset_ids result = dp_selected_dataset_ids plan /\
    map fst (pdr_outcomes result) = dp_selected_dataset_ids plan /\
    Forall (fun e => outs !! e.1 = Some e.2 /\ justified plan (waves l) outs e.1 e.2) (pdr_outcomes result) /\
    aggregate_pipeline_status plan outs (da_failure_policy a) (da_required_criticalities a) =
      Ok (pdr_status result).
Proof using Type.
  intros [[_ [e [=]]]|(ctx & configs & plan & l1' & l0 & Hl0 & _ & _ & Hb & Hrun)]%dispatch_phases.
  exists plan. apply build_plan_wf in Hb as [Hwf _].
  unfold try in Hrun. destruct (run_plan ctx plan _ _ l0) as [[res|e] l1] eqn:E.
  - injection Hrun as -> ->. apply run_plan_waves in E as [_ Hok]; [|done|done].
    destruct (Hok result eq_refl) as (Hsel & outs & Hinv & Hf2 & Hst). exists outs. split_and!; [done| | |done].
    + clear -Hf2. induction Hf2 as [|x e ids outcomes [He _] _ IH]; simpl; congruence.
    + clear -Hf2 Hinv. induction Hf2 as [|x [y o] ids outcomes [He Ho] _ IH]; constructor; [|done].
      simpl in *. subst y. split; [done|]. by apply (inv_outcome _ _ _ Hinv).
  - exfalso. unfold finalize_failed in Hrun. by apply eff_bind_inv in Hrun as [(? & _ & [=])|(? & ? & _ & [=])].
Qed.

(** C31. In a lawful world the loop of a plan always ends within its fuel, and with an outcome for
    every selected dataset, unless a dataset waits for one that is itself blocked: it then
    raises ORCHESTRATION_NO_PROGRESS, and some dataset has a dependency with a dependency that
    did not succeed and that it does not list itself. *)
Theorem dispatch_loop_progresses `{!LawfulWorld} ctx configs group policy requested overrides mc t registry plan l :
  build_dispatch_plan config_hash policy_hash configs group policy requested overrides mc t registry = Ok plan ->
  auditable plan -> waves l = [] ->
  exists r l', dispatch_loop (loop_fuel plan) ctx plan (initial_state plan) l = (r, l') /\
    ((exists outs, r = Ok outs /\ dom outs = (list_to_set (dp_selected_dataset_ids plan) : gset string)) \/
     (r = raise "PipelineDispatchIntegrityError" "ORCHESTRATION_NO_PROGRESS" /\ hidden_blocker plan (waves l'))).
Proof using Type.
  intros [Hwf Hacc]%build_plan_wf Haudit Hl.
  pose proof (initial_invariant plan) as Hinv. rewrite <-Hl in Hinv.
  assert (size (ds_remaining (initial_state plan)) <= loop_fuel plan)%nat as Hsize by apply size_list_to_set_le.
  destruct (dispatch_loop_progress ctx plan Hwf Haudit Hacc _ _ _ Hinv Hsize) as (r & l' & Hrun & Hr).
  exists r, l'. split; [done|]. destruct Hr as [[outs ->]|Hr]; [left|by right]. exists outs. split; [done|].
  apply dispatch_loop_ok in Hrun as [_ Hend]; [|done|done]. specialize (Hend outs eq_refl).
  apply set_eq. intros x. rewrite elem_of_dom, elem_of_list_to_set. split.
  - intros [o Ho]. by apply (inv_outcome _ _ _ Hend x o).
  - intros [?%elem_of_empty|]%(inv_cover _ _ _ Hend); done.
Qed.

(** Where no dependency is hidden, the loop always succeeds. *)
Lemma hidden_blocker_transitive plan ws :
  (forall x d d', d ∈ deps plan x -> d' ∈ deps plan d -> d' ∈ deps plan x) -> ~ hidden_blocker plan ws.
Proof using Type. intros Htrans (x & d & d' & Hd & Hd' & Hn & _). by eapply Hn, Htrans. Qed.

(** ** The audit trail *)

Lemma record_pipeline_inv audit l r l' :
  record_pipeline audit l = (r, l') ->
  (l' = l /\ exists e, r = Raise e) \/
  (validate_PipelineRunAudit audit = Ok tt /\ r = record_pipeline_run l audit /\ l' = EvPipelineRun audit r :: l).
Proof using Type.
  intros [(e & [= Hv <-] & ->)|([] & l1 & [= Hv <-] & [= <- <-])]%eff_bind_inv; [left; by eauto|by right].
Qed.

Lemma quiet_audits {A} (m : io A) l r l' : emits not_pipeline m -> m l = (r, l') -> pipeline_audits l' = pipeline_audits l.
Proof using Type. intros Hm (new & -> & Hn)%Hm. by apply audits_quiet. Qed.

(** The audit of a failed run: recorded last, unless it was refused. *)
Lemma failed_audit ctx code text l r l' :
  _record_failed_pipeline ctx code text l = (r, l') ->
  (exists e, r = Raise e) \/
  exists audit, r = Ok tt /\ pipeline_audits l' = (audit, Ok tt) :: pipeline_audits l /\
    validate_PipelineRunAudit audit = Ok tt /\ pra_status audit = PS_FAILED /\
    pra_error_code audit = Some code /\ pra_pipeline_run_id audit = rc_pipeline_run_id ctx.
Proof using Type.
  intros [(e & [=] & _)|(t & l1 & Hnow & Hrec)]%eff_bind_inv. apply quiet_audits in Hnow; [|emits].
  apply record_pipeline_inv in Hrec as [[_ ?]|(Hv & Hr & ->)]; [by left|].
  destruct r as [[]|e]; [right|left; eauto]. eexists. split; [done|]. simpl. rewrite Hnow.
  split_and!; [done|exact Hv|done..].
Qed.

(** No audit says RUNNING and was accepted. *)
Definition never_started (l : list event) : Prop :=
  Forall (fun a => pra_status a.1 = PS_RUNNING -> a.2 <> Ok tt) (pipeline_audits l).

Lemma dispatch_audit_phases a r l :
  dispatch_datasets_with_backend config_hash policy_hash a [] = (r, l) ->
  (never_started l /\ exists e, r = Raise e) \/
  exists ctx plan l0, pipeline_audits l0 = [(_pipeline_audit ctx PS_RUNNING None None None, Ok tt)] /\
    validate_PipelineRunAudit (_pipeline_audit ctx PS_RUNNING None None None) = Ok tt /\ rc_started_at ctx = utc_now [] /\
    try (run_plan ctx plan (da_failure_policy a) (da_required_criticalities a)) (finalize_failed ctx) l0 = (r, l).
Proof using Type.
  unfold dispatch_datasets_with_backend. intros [(? & [=] & _)|(t & l1 & Hnow & Hrun)]%eff_bind_inv.
  assert (t = utc_now []) as Ht by (by injection Hnow).
  apply quiet_audits in Hnow; [|emits].
  change (pipeline_audits []) with (@nil (PipelineRunAudit * res unit)) in Hnow.
  assert (emits not_pipeline (match da_pipeline_run_id a with Some n => mret n | None => fresh_uuid end)) as Hid by emits.
  apply eff_bind_inv in Hrun as [(e & H1 & ->)|(n & l2 & H1 & Hrun)]; (apply quiet_audits in H1; [|exact Hid]).
  { left. split; [|eauto]. unfold never_started. by rewrite H1, Hnow. }
  set (ctx := context_of a n t) in *. rewrite Hnow in H1.
  apply eff_bind_inv in Hrun as [(e & H2 & ->)|(plan & l3 & H2 & Hrun)].
  - left. split; [|eauto]. unfold try in H2. destruct (plan_of _ _ a t l2) as [[p|e'] l4] eqn:E; [done|].
    assert (l4 = l2) as -> by (unfold plan_of in E; by injection E).
    unfold never_started, planning_failed in *. case_bool_decide; [|injection H2 as _ <-; by rewrite H1].
    apply eff_bind_inv in H2 as [(e2 & H2 & _)|([] & l5 & H2 & [= _ <-])].
    + apply eff_bind_inv in H2 as [(? & [=] & _)|(t2 & l5 & Hn2 & H2)]. apply quiet_audits in Hn2; [|emits].
      apply record_pipeline_inv in H2 as [[-> _]|(_ & Hr & ->)]; simpl; rewrite Hn2, H1; [done|by repeat constructor].
    + apply failed_audit in H2 as [[? [=]]|(audit & _ & -> & _ & Hs & _)]. rewrite H1.
      repeat constructor. simpl. by rewrite Hs.
  - apply planned_Ok in H2 as (-> & _).
    apply eff_bind_inv in Hrun as [(e & H3 & ->)|([] & l4 & H3 & Hrun)].
    + left. split; [|eauto]. unfold never_started. apply record_pipeline_inv in H3 as [[-> _]|(_ & Hr & ->)].
      * by rewrite H1.
      * simpl. rewrite H1. by repeat constructor.
    + apply record_pipeline_inv in H3 as [[_ [? [=]]]|(Hv & Hr & ->)]. right.
      exists ctx, plan, (EvPipelineRun (_pipeline_audit ctx PS_RUNNING None None None) (Ok tt) :: l2).
      simpl. by rewrite H1.
Qed.

(** The outside world of an audit trail: the clock is aware and not behind the start of the run,
    the error codes that foreign exceptions carry fit an audit, and the repository does not raise
    the dispatcher's own exceptions. *)
Class AuditableWorld : Prop := {
  clock_ordered l : is_naive (utc_now l) = false /\ dt_utc (utc_now []) <= dt_utc (utc_now l);
  codes_bounded e c : foreign_error_code e = Some c -> (String.length c <= 128)%nat;
  pipeline_errors l audit e : record_pipeline_run l audit = Raise e ->
    exn_type e ∉ ["PipelineDispatchIntegrityError"; "BackendReadyWaveError"];
  dataset_errors l audit e : record_dataset_run l audit = Raise e ->
    exn_type e ∉ ["PipelineDispatchIntegrityError"; "BackendReadyWaveError"]
}.

(** The exception has an error code that fits an audit. *)
Definition short_code (e : exn) : Prop := (String.length (_terminal_error_code e) <= 128)%nat.

Lemma bounded_message_fits text : (String.length (_bounded_message text) <= 4096)%nat.
Proof using Type.
  unfold _bounded_message. destruct (_ <=? _)%nat eqn:E; [by apply Nat.leb_le in E|]. rewrite length_append.
  pose proof (length_prefix_of (_PIPELINE_ERROR_MESSAGE_LIMIT - 15) (sanitize_audit_text redact text _PIPELINE_ERROR_MESSAGE_LIMIT)).
  unfold _PIPELINE_ERROR_MESSAGE_LIMIT in *. change (String.length "... [truncated]") with 15%nat. lia.
Qed.

(** The audit of the failed run passes its validation when the audit of the running one did. *)
Lemma failed_audit_valid ctx t code text :
  validate_PipelineRunAudit (_pipeline_audit ctx PS_RUNNING None None None) = Ok tt ->
  is_naive t = false -> dt_utc (rc_started_at ctx) <= dt_utc t -> (String.length code <= 128)%nat ->
  validate_PipelineRunAudit (_pipeline_audit ctx PS_FAILED (Some t) (Some code) (Some (_bounded_message text))) = Ok tt.
Proof using Type.
  unfold validate_PipelineRunAudit. cbn -[within Z.ltb]. intros Hv Hn Hle Hc%Nat.leb_le.
  assert (within 128 (Some code) = true) as -> by exact Hc.
  assert (within 4096 (Some (_bounded_message text)) = true) as -> by apply Nat.leb_le, bounded_message_fits.
  change (within 128 None) with true in Hv. change (within 4096 None) with true in Hv.
  destruct (_ || _); [done|]. apply bind_Ok in Hv as ([] & Hs & _). unfold validate_span in *.
  apply bind_Ok in Hs as ([] & -> & _). cbn -[Z.ltb]. unfold require_aware_datetime. rewrite Hn. cbn -[Z.ltb].
  by replace (_ <? _) with false by lia.
Qed.

Section codes.
Context {Hworld : AuditableWorld}.

Lemma short_foreign e : exn_type e ∉ ["PipelineDispatchIntegrityError"; "BackendReadyWaveError"] -> short_code e.
Proof using Hworld.
  intros He. unfold short_code, _terminal_error_code, error_code_of. rewrite bool_decide_eq_false_2 by done.
  destruct (foreign_error_code e) as [c|] eqn:E; [apply codes_bounded in E; destruct (nonempty c); [done|]|];
    by case_bool_decide; vm_compute; lia.
Qed.

Lemma short_own cls site :
  (if bool_decide (cls ∈ ["PipelineDispatchIntegrityError"; "BackendReadyWaveError"]) then String.length site <=? 128 else true)%nat = true ->
  short_code (Exn cls site).
Proof using Hworld.
  intros Hs. case_bool_decide as Hin; [|by apply short_foreign]. apply Nat.leb_le in Hs.
  unfold short_code, _terminal_error_code, error_code_of. rewrite bool_decide_eq_true_2 by done.
  cbn [exn_site exn_type]. destruct (nonempty site); [done|]. by case_bool_decide; vm_compute; lia.
Qed.

Lemma short_raise {A} cls site :
  (if bool_decide (cls ∈ ["PipelineDispatchIntegrityError"; "BackendReadyWaveError"]) then String.length site <=? 128 else true)%nat = true ->
  res_raises short_code (raise (A := A) cls site).
Proof using Hworld. intros Hs. by apply res_raises_raise, short_own. Qed.

Lemma short_span t completed : res_raises short_code (validate_span t completed).
Proof using Hworld.
  unfold validate_span, require_aware_datetime. apply res_raises_bind; [destruct (is_naive t); [by apply short_raise|apply res_raises_ok]|].
  intros _. destruct completed as [c|]; [|apply res_raises_ok].
  apply res_raises_bind; [destruct (is_naive c); [by apply short_raise|apply res_raises_ok]|].
  intros _. destruct (_ <? _); [by apply short_raise|apply res_raises_ok].
Qed.

Lemma short_effective plan x : res_raises short_code (effective_for plan x).
Proof using Hworld. unfold effective_for. destruct (dget _ _); [apply res_raises_ok|by apply short_raise]. Qed.

Lemma short_status plan outs fp crit : res_raises short_code (aggregate_pipeline_status plan outs fp crit).
Proof using Hworld.
  unfold aggregate_pipeline_status. destruct (bool_decide _); [apply res_raises_ok|]. destruct (forallb _ _); [apply res_raises_ok|].
  destruct (bool_decide _); [apply res_raises_ok|]. apply res_raises_bind; [|intros; apply res_raises_ok].
  induction (map_to_list outs) as [|entry l' IH]; simpl; [apply res_raises_ok|]. apply res_raises_bind; [|intros []; [apply res_raises_ok|done]].
  unfold is_fatal. destruct (bool_decide _); [apply res_raises_ok|]. apply res_raises_bind; [apply short_effective|intros; apply res_raises_ok].
Qed.

Lemma short_record_pipeline audit : raises short_code (record_pipeline audit).
Proof using Hworld.
  apply raises_bind; [apply raises_lift|intros _ l e l' [= He _]; by eapply short_foreign, pipeline_errors].
  unfold validate_PipelineRunAudit. destruct (_ || _); [by apply short_raise|]. apply res_raises_bind; [apply short_span|].
  intros _. destruct (_ && _); [by apply short_raise|]. destruct (negb _); [by apply short_raise|apply res_raises_ok].
Qed.

Lemma short_record_dataset audit : raises short_code (record_dataset audit).
Proof using Hworld.
  apply raises_bind; [apply raises_lift|intros _ l e l' [= He _]; by eapply short_foreign, dataset_errors].
  unfold validate_DatasetRunAudit. destruct (_ || _); [by apply short_raise|apply short_span].
Qed.

Lemma short_now : raises short_code now.
Proof using Type. by intros l e l' [=]. Qed.

Lemma short_block ctx plan s entry : raises short_code (block_step ctx plan s entry).
Proof using Hworld.
  apply raises_bind; [apply raises_lift, short_effective|]. intros effective. apply raises_bind; [|intros; apply raises_ret].
  apply raises_bind; [by intros l e l' [=]|]. intros n. apply raises_bind; [apply short_now|]. intros t.
  apply raises_bind; [apply short_record_dataset|intros; apply raises_ret].
Qed.

Lemma short_loop fuel ctx plan s : raises short_code (dispatch_loop fuel ctx plan s).
Proof using Hworld.
  revert s. induction fuel as [|fuel IH]; intros s; cbn [dispatch_loop]; (destruct (bool_decide _); [apply raises_ret|]).
  { apply raises_throw, short_own; done. }
  apply raises_bind; [|intros [s' []]; [apply IH|apply raises_ret]]. unfold loop_body.
  apply raises_bind; [apply raises_lift|intros blocked].
  { apply res_raises_bind; [|intros; apply res_raises_ok]. apply res_raises_mapM. intros x.
    apply res_raises_bind; [|intros; apply res_raises_ok]. apply res_raises_bind; [apply short_effective|intros; apply res_raises_ok]. }
  apply raises_bind; [apply raises_forM; intros; apply short_block|intros s1].
  apply raises_bind; [apply raises_lift, res_raises_filterM; intros x|intros ready].
  { unfold is_ready. destruct (bool_decide _); [|apply res_raises_ok]. apply res_raises_bind; [apply short_effective|intros; apply res_raises_ok]. }
  destruct (bool_decide _).
  { destruct (bool_decide _); [apply raises_ret|]. apply raises_throw, short_own; done. }
  apply raises_bind; [|intros; apply raises_ret]. apply raises_bind.
  { intros l e l' [= He _]. destruct (execute_ready_wave _ _); [done|]. injection He as <-. apply short_own; done. }
  intros wave. destruct (bool_decide _); [apply raises_ret|]. apply raises_throw, short_own. done.
Qed.

Lemma short_run_plan ctx plan fp crit : raises short_code (run_plan ctx plan fp crit).
Proof using Hworld.
  apply raises_bind; [apply short_loop|]. intros outs. apply raises_bind; [apply raises_lift, short_status|]. intros st.
  apply raises_bind; [apply short_now|]. intros t. apply raises_bind; [apply short_record_pipeline|]. intros _.
  apply raises_bind; [|intros; apply raises_ret]. apply raises_lift, res_raises_mapM. intros x.
  destruct (outs !! x); [apply res_raises_ok|]. by apply short_raise.
Qed.

(** A run that raises calls the repository with the audit of its failure. *)
Lemma failure_recorded ctx e l r l' :
  validate_PipelineRunAudit (_pipeline_audit ctx PS_RUNNING None None None) = Ok tt ->
  rc_started_at ctx = utc_now [] -> short_code e -> finalize_failed (A := PipelineDispatchResult) ctx e l = (r, l') ->
  exists audit answer e', r = Raise e' /\ pipeline_audits l' = (audit, answer) :: pipeline_audits l /\
    pra_pipeline_run_id audit = rc_pipeline_run_id ctx /\ pra_status audit = PS_FAILED /\
    ((answer = Ok tt /\ e' = e /\ pra_error_code audit = Some (_terminal_error_code e)) \/
     (is_ok answer = false /\ exn_type e' = "PipelineFinalizationError")).
Proof using Hworld.
  intros Hv Hstart Hcode. destruct (clock_ordered l) as [Hn Hle]. rewrite <-Hstart in Hle.
  unfold finalize_failed, try, mbind, eff_bind. unfold _record_failed_pipeline at 1, mbind at 1, eff_bind at 1. cbn [now].
  unfold record_pipeline, mbind, eff_bind, lift at 1. unfold now.
  rewrite (failed_audit_valid ctx (utc_now l) (_terminal_error_code e) (exn_text e) Hv Hn Hle Hcode).
  unfold call_pipeline. destruct (record_pipeline_run _ _) as [[]|e1] eqn:E; intros [= <- <-]; eexists _, _, _;
    (split; [done|]); (split; [done|]); (split; [done|]); (split; [done|]); [by left|by right].
Qed.
End codes.

Lemma run_plan_keeps ctx plan fp crit l r l' x :
  run_plan ctx plan fp crit l = (r, l') -> x ∈ pipeline_audits l -> x ∈ pipeline_audits l'.
Proof using Type.
  assert (emits (fun _ => True) (run_plan ctx plan fp crit)) as Hem.
  { apply emits_bind; [eapply emits_weaken; [|apply emits_loop]; done|]. emits. }
  intros (new & -> & _)%Hem Hx. unfold pipeline_audits. rewrite omap_app. apply elem_of_app. by right.
Qed.

(** C5. In a world whose clock is aware and does not go back before the start of the run, whose
    error codes fit an audit, every run that starts is closed in the audit trail: a run that
    returns has exactly two accepted audits, RUNNING and then the returned status, with failure
    details exactly when the status is not SUCCESS; a run that raises was never accepted as
    RUNNING, or the newest call that records the pipeline says FAILED for the run that was
    RUNNING.  That audit was accepted, with the error code of the exception, or the repository
    refused it, and then the run raises [PipelineFinalizationError]. *)
Theorem dispatch_run_audited `{!AuditableWorld} a r l :
  dispatch_datasets_with_backend config_hash policy_hash a [] = (r, l) ->
  match r with
  | Ok result => exists running final,
      pipeline_audits l = [(final, Ok tt); (running, Ok tt)] /\
      pra_status running = PS_RUNNING /\ pra_status final = pdr_status result /\
      pra_pipeline_run_id running = pdr_pipeline_run_id result /\
      pra_pipeline_run_id final = pdr_pipeline_run_id result /\
      validate_PipelineRunAudit final = Ok tt /\
      (is_Some (pra_error_code final) <-> pdr_status result = PS_FAILED \/ pdr_status result = PS_PARTIAL_SUCCESS)
  | Raise e => never_started l \/
      exists audit answer rest running, pipeline_audits l = (audit, answer) :: rest /\
        (running, Ok tt) ∈ rest /\ pra_status running = PS_RUNNING /\
        pra_pipeline_run_id running = pra_pipeline_run_id audit /\ pra_status audit = PS_FAILED /\
        ((answer = Ok tt /\ pra_error_code audit = Some (_terminal_error_code e)) \/
         (is_ok answer = false /\ exn_type e = "PipelineFinalizationError"))
  end.
Proof using Type.
  intros [[Hn [e ->]]|(ctx & plan & l0 & Hl0 & Hrunning & Hstart & Hrun)]%dispatch_audit_phases; [by left|].
  unfold try in Hrun. destruct (run_plan ctx plan _ _ l0) as [[res|e] l1] eqn:E.
  - injection Hrun as <- <-. unfold run_plan in E.
    apply eff_bind_inv in E as [(? & _ & [=])|(outs & l2 & H1 & E)]. apply quiet_audits in H1; [|apply emits_loop].
    apply eff_bind_inv in E as [(? & _ & [=])|(st & l3 & [= Hst <-] & E)].
    apply eff_bind_inv in E as [(? & _ & [=])|(t & l4 & Hnow & E)]. apply quiet_audits in Hnow; [|emits].
    apply eff_bind_inv in E as [(? & _ & [=])|([] & l5 & Hrec & E)].
    apply record_pipeline_inv in Hrec as [[_ [? [=]]]|(Hv & Hr & ->)].
    apply eff_bind_inv in E as [(? & _ & [=])|(ordered & l6 & [= Hm <-] & [= <- <-])].
    simpl. rewrite Hnow, H1, Hl0. eexists _, _. split; [done|]. split; [done|]. split; [done|]. split; [done|].
    split; [done|]. split; [exact Hv|].
    destruct st; simpl; split; intros Hx; first [by left|by right|by eexists|by destruct Hx|by destruct Hx as [?|?]].
  - pose proof (short_run_plan _ _ _ _ _ _ _ E) as Hcode.
    destruct (failure_recorded ctx e l1 r l Hrunning Hstart Hcode Hrun) as (audit & answer & e' & -> & Ha & Hid & Hst & Hanswer).
    right. eexists audit, answer, _, _. split; [exact Ha|]. split_and!.
    + apply (run_plan_keeps ctx plan (da_failure_policy a) (da_required_criticalities a) l0 (Raise e) l1 _ E).
      rewrite Hl0. by left.
    + done.
    + by rewrite Hid.
    + done.
    + destruct Hanswer as [(-> & -> & ?)|[? ?]]; [by left|by right].
Qed.
End run.

(** ** Witnesses *)

#[export] Instance demo_world_lawful deployment failing : @LawfulWorld (demo_world deployment failing).
Proof.
  split; [done|done|]. intros l request. eexists. split; [reflexivity|].
  rewrite dom_list_to_map_L. f_equal. rewrite <-list_fmap_compose.
  induction (wr_dataset_ids request) as [|x ids IH]; [done|]. simpl. by f_equal.
Qed.

Lemma dispatch_waves_ordered_witness :
  exists plan, ordered_waves plan (waves (demo_run demo_chain []).2) /\
    forall x, x ∈ dp_selected_dataset_ids plan ->
      exists c, c ∈ demo_chain /\ dc_dataset_id c = x /\ deps plan x = op_dependencies (dc_orchestration c).
Proof.
  destruct (@dispatch_waves_ordered (demo_world demo_chain []) demo_digest demo_policy_hash demo_arguments
    (demo_run demo_chain []).1 (demo_run demo_chain []).2)
    as [H|(configs & plan & earlier & later & _ & _ & Hc & _ & Hord & Hdeps)].
  - apply surjective_pairing.
  - vm_compute in H. discriminate H.
  - injection Hc as <-. exists plan. split; [exact Hord|exact Hdeps].
Defined.

(** The result of a run that returns. *)
Definition demo_result (run : res PipelineDispatchResult * list event) : PipelineDispatchResult :=
  match run.1 with
  | Ok result => result
  | Raise _ => {| pdr_pipeline_run_id := 0; pdr_status := PS_RUNNING; pdr_selected_dataset_ids := [];
                  pdr_outcomes := []; pdr_max_concurrency := 0 |}
  end.

(** [b] fails, so [c], which lists both of its ancestors, is blocked. *)
Definition demo_closed : list DatasetConfig :=
  [demo_dataset "a" 1 []; demo_dataset "b" 1 ["a"]; demo_dataset "c" 1 ["a"; "b"]].

Lemma dispatch_outcomes_justified_witness :
  exists plan outs,
    Forall (fun e => outs !! e.1 = Some e.2 /\ justified plan (waves (demo_run demo_closed ["b"]).2) outs e.1 e.2)
      (pdr_outcomes (demo_result (demo_run demo_closed ["b"]))) /\
    map (fun e => ddo_status e.2) (pdr_outcomes (demo_result (demo_run demo_closed ["b"]))) =
      [DS_SUCCEEDED; DS_FAILED; DS_BLOCKED].
Proof.
  destruct (@dispatch_outcomes_justified (demo_world demo_closed ["b"]) demo_digest demo_policy_hash demo_arguments
    (demo_result (demo_run demo_closed ["b"])) (demo_run demo_closed ["b"]).2) as (plan & outs & _ & _ & Hall & _).
  - vm_compute. reflexivity.
  - exists plan, outs. split; [exact Hall|]. vm_compute. reflexivity.
Defined.

#[export] Instance demo_world_auditable deployment failing : @AuditableWorld (demo_world deployment failing).
Proof. split; [|done..]. intros l. split; [done|]. unfold utc_now, demo_world, utc, dt_utc. cbn -[Z.sub Z.of_nat]. lia. Qed.

(** The run that stops at a hidden blocker is closed as FAILED. *)
Lemma dispatch_run_audited_witness :
  exists audit rest running, pipeline_audits (demo_run demo_chain ["a"]).2 = (audit, Ok tt) :: rest /\
    (running, Ok tt) ∈ rest /\ pra_status running = PS_RUNNING /\ pra_status audit = PS_FAILED /\
    pra_error_code audit = Some "ORCHESTRATION_NO_PROGRESS".
Proof.
  destruct (@dispatch_run_audited (demo_world demo_chain ["a"]) demo_digest demo_policy_hash _ demo_arguments
    (raise "PipelineDispatchIntegrityError" "ORCHESTRATION_NO_PROGRESS") (demo_run demo_chain ["a"]).2)
    as [H|(audit & answer & rest & running & Ha & Hin & Hr & _ & Hf & [[-> Hc]|[_ Hc]])].
  - vm_compute. reflexivity.
  - exfalso. vm_compute in H. apply Forall_cons in H as [_ [H _]%Forall_cons]. by apply H.
  - exists audit, rest, running. split; [exact Ha|]. split; [exact Hin|]. split; [exact Hr|]. split; [exact Hf|]. exact Hc.
  - discriminate Hc.
Defined.

Definition demo_chain_plan : DispatchPlan :=
  match build_dispatch_plan demo_digest demo_policy_hash demo_chain None None None [] 4 (utc 50)
          _DEFAULT_CAPABILITIES with Ok p => p | Raise _ => demo_plan end.

Lemma dispatch_loop_progresses_witness :
  exists r l', @dispatch_loop (demo_world demo_chain ["a"]) (loop_fuel demo_chain_plan)
      (context_of demo_arguments 7 (utc 0)) demo_chain_plan (initial_state demo_chain_plan) [] = (r, l') /\
    r = raise "PipelineDispatchIntegrityError" "ORCHESTRATION_NO_PROGRESS" /\
    hidden_blocker demo_chain_plan (waves l').
Proof.
  destruct (@dispatch_loop_progresses (demo_world demo_chain ["a"]) demo_digest demo_policy_hash _
    (context_of demo_arguments 7 (utc 0)) demo_chain None None None [] 4 (utc 50) _DEFAULT_CAPABILITIES
    demo_chain_plan []) as (r & l' & Hrun & Hr).
  - vm_compute. reflexivity.
  - apply (bool_decide_unpack _). vm_compute. exact I.
  - reflexivity.
  - exists r, l'. split; [exact Hrun|]. destruct Hr as [[outs [-> _]]|Hr]; [|exact Hr].
    exfalso. apply (f_equal fst) in Hrun. vm_compute in Hrun. discriminate Hrun.
Defined.
