(* ===== verification/RuntimeState.v ===== *)
(** * Run status, state-commit gate and watermark positions ([contracts/runtime.py]) *)

From stdpp Require Import base gmap strings list.
From S2P Require Import Prelude PyValue Ordering Temporal ConfigTypes.
#[local] Open Scope Z_scope.

(** ** Pipeline status *)

Record DatasetOutcome := {
  do_dataset_id : string;
  do_status : DatasetStatus;
  do_criticality : Criticality
}.
#[export] Instance DatasetOutcome_eq_dec : EqDecision DatasetOutcome.
Proof. solve_decision. Defined.

Definition _FINAL_DATASET_STATUSES : list DatasetStatus :=
  [DS_SUCCEEDED; DS_FAILED; DS_QUARANTINED; DS_SKIPPED; DS_BLOCKED; DS_CANCELLED].
Definition _PROBLEM_STATUSES : list DatasetStatus :=
  [DS_FAILED; DS_QUARANTINED; DS_BLOCKED; DS_CANCELLED].

Definition is_problem (item : DatasetOutcome) : bool :=
  bool_decide (do_status item ∈ _PROBLEM_STATUSES).

Definition aggregate_pipeline_status (outcomes : list DatasetOutcome)
    (fatal_criticalities : list Criticality) : res PipelineStatus :=
  let non_final :=
    filter (fun item => do_status item ∉ _FINAL_DATASET_STATUSES) outcomes in
  if negb (bool_decide (non_final = [])) then
    raise "ValueError" "cannot aggregate pipeline status while dataset work is non-final"
  else if existsb (fun item => is_problem item
                     && bool_decide (do_criticality item ∈ fatal_criticalities)) outcomes then
    Ok PS_FAILED
  else if existsb (fun item => is_problem item
                     || bool_decide (do_status item = DS_SKIPPED)) outcomes then
    Ok PS_PARTIAL_SUCCESS
  else Ok PS_SUCCESS.

(** ** State-commit gate *)

Record StateCommitGate := {
  target_committed : bool;
  reconciliation_required : bool;
  reconciliation_passed : bool;
  batch_quarantined : bool
}.

Definition can_advance_state (g : StateCommitGate) : bool :=
  target_committed g && negb (batch_quarantined g)
  && (negb (reconciliation_required g) || reconciliation_passed g).

(** ** Watermark positions

    A float is finite: the model has no other floats. *)

Definition _validate_watermark_scalar (v : value) (allow_none : bool) (field_name : string) : res unit :=
  match v with
  | VNone => if allow_none then Ok tt else raise "ValueError" (field_name +:+ " cannot be null")
  | VBool _ => raise "TypeError" (field_name +:+ " cannot be bool")
  | VDatetime off us => require_aware_datetime (Datetime off us) field_name
  | VStr _ | VInt _ | VFloat _ => Ok tt
  | _ => raise "TypeError" ("unsupported " +:+ field_name +:+ " type")
  end.

Record WatermarkPosition := { wp_value : value; wp_tie_breaker : list value }.
#[export] Instance WatermarkPosition_eq_dec : EqDecision WatermarkPosition.
Proof. solve_decision. Defined.

Definition validate_tie_breaker_item (item : value) : res unit :=
  _ ← _validate_watermark_scalar item false "watermark tie_breaker";
  if is_datetime item then
    raise "TypeError" "watermark tie_breaker values do not support datetime"
  else Ok tt.

Definition make_WatermarkPosition (v : value) (tie_breaker : list value) : res WatermarkPosition :=
  _ ← _validate_watermark_scalar v true "watermark value";
  _ ← mapM_res validate_tie_breaker_item tie_breaker;
  Ok {| wp_value := v; wp_tie_breaker := tie_breaker |}.

(** [-1] for [<], [1] for [>], [0] otherwise. *)
Definition three_way (left right : value) (field_name : string) : res Z :=
  match py_cmp left right with
  | Some c => Ok (z_of c)
  | None => raise "TypeError" (field_name +:+ " types are not safely comparable")
  end.

(** [value.astimezone(timezone.utc)] *)
Definition astimezone_utc (v : value) : value :=
  match v with VDatetime off us => VDatetime (Some 0) (us - default 0 off) | _ => v end.

Definition is_number (v : value) : bool := match v with VInt _ | VFloat _ => true | _ => false end.
Definition is_str (v : value) : bool := match v with VStr _ => true | _ => false end.

Definition _compare_scalar (field_name : string) (left right : value) : res Z :=
  _ ← _validate_watermark_scalar left false field_name;
  _ ← _validate_watermark_scalar right false field_name;
  if is_datetime left || is_datetime right then
    if negb (is_datetime left) || negb (is_datetime right) then
      raise "TypeError" (field_name +:+ " types are not safely comparable")
    else three_way (astimezone_utc left) (astimezone_utc right) field_name
  else if is_number left && is_number right then three_way left right field_name
  else if is_str left && is_str right then three_way left right field_name
  else raise "TypeError" (field_name +:+ " types are not safely comparable").

Definition compare_watermark_positions (left right : WatermarkPosition) : res Z :=
  value_order ← _compare_scalar "watermark value" (wp_value left) (wp_value right);
  if negb (value_order =? 0) then Ok value_order
  else if negb (bool_decide (length (wp_tie_breaker left) = length (wp_tie_breaker right))) then
    raise "ValueError" "watermark positions have different tie-breaker arity"
  else lexM (_compare_scalar "watermark tie_breaker") (wp_tie_breaker left) (wp_tie_breaker right).

Record WatermarkState := { ws_position : option WatermarkPosition; ws_version : Z }.

Definition validate_state (s : WatermarkState) : res unit :=
  if ws_version s <? 0 then bad_field
  else if negb (eqb (negb (is_some (ws_position s))) (ws_version s =? 0)) then
    raise "ValueError" "empty watermark state must have version 0 and committed state version >= 1"
  else Ok tt.

Record WatermarkTransition := {
  wt_before : option WatermarkPosition;
  wt_after : WatermarkPosition;
  wt_gate : StateCommitGate
}.

Definition validate_advance (t : WatermarkTransition) : res unit :=
  changed ← match wt_before t with
            | None => Ok true
            | Some before =>
              ordering ← compare_watermark_positions (wt_after t) before;
              if ordering <? 0 then raise "ValueError" "watermark/state cannot move backwards"
              else Ok (ordering >? 0)
            end;
  if changed && negb (can_advance_state (wt_gate t)) then
    raise "ValueError" "watermark/state cannot advance before target commit and required reconciliation"
  else Ok tt.

(** ** Lemmas *)

(** Scalars that may be compared: present, of a supported type, aware. *)
Definition scalar_ok (v : value) : Prop := forall f, _validate_watermark_scalar v false f = Ok tt.

Lemma scalar_ok_iff v f : _validate_watermark_scalar v false f = Ok tt <-> scalar_ok v.
Proof.
  split; [|by intros H]. intros H f'. destruct v; try done.
  simpl in *. unfold require_aware_datetime in *. by destruct (is_naive _).
Qed.

Lemma compare_scalar_iff f a b z :
  _compare_scalar f a b = Ok z <->
  scalar_ok a /\ scalar_ok b /\ exists c, py_cmp a b = Some c /\ z = z_of c.
Proof.
  unfold _compare_scalar. split.
  - intros (u1 & Ha & (u2 & Hb & H)%bind_Ok)%bind_Ok.
    destruct u1, u2. apply scalar_ok_iff in Ha, Hb. repeat split; [done..|].
    unfold three_way in H. specialize (Ha ""); specialize (Hb "").
    destruct a as [| | | | |[oa|] ua| | | | | |], b as [| | | | |[ob|] ub| | | | | |]; try done;
      simpl in H.
    all: rewrite ?Z.sub_0_r in H; injection H as <-; eexists; split; reflexivity.
  - intros (Ha & Hb & c & Hc & ->). rewrite (Ha f), (Hb f). cbn [mbind res_bind].
    specialize (Ha ""); specialize (Hb ""). unfold three_way.
    destruct a as [| | | | |[oa|] ua| | | | | |], b as [| | | | |[ob|] ub| | | | | |]; try done;
      simpl in *.
    all: rewrite ?Z.sub_0_r; unfold py_cmp in Hc; by injection Hc as <-.
Qed.

#[export] Instance compare_scalar_ResCmp f : ResCmp (_compare_scalar f).
Proof. apply (ResCmp_of_py_cmp _ scalar_ok), compare_scalar_iff. Qed.

(** Positions are ordered by their value, then by their tie breakers. *)
Lemma compare_positions_iff a b z :
  compare_watermark_positions a b = Ok z <->
  exists v, _compare_scalar "watermark value" (wp_value a) (wp_value b) = Ok v /\
    if v =? 0 then
      length (wp_tie_breaker a) = length (wp_tie_breaker b) /\
      lexM (_compare_scalar "watermark tie_breaker") (wp_tie_breaker a) (wp_tie_breaker b) = Ok z
    else z = v.
Proof.
  unfold compare_watermark_positions. rewrite bind_Ok. split.
  - intros (v & Hv & H). exists v. split; [done|]. destruct (v =? 0); simpl in H; [|congruence].
    by case_bool_decide.
  - intros (v & Hv & H). exists v. split; [done|]. destruct (v =? 0); cbn [negb]; [|congruence].
    destruct H as [Hl H]. by rewrite bool_decide_true.
Qed.

#[export] Instance compare_positions_ResCmp : ResCmp compare_watermark_positions.
Proof.
  split.
  - intros a b z (v & Hv & H)%compare_positions_iff. apply rcmp_range in Hv.
    destruct (v =? 0); [|lia]. destruct H as [_ H]. apply lexM_range in H; [done|apply _].
  - intros a b z (v & Hv & H)%compare_positions_iff. apply compare_positions_iff.
    exists (- v). rewrite (rcmp_swap _ _ _ Hv). split; [done|].
    destruct (v =? 0) eqn:E.
    + assert (- v =? 0 = true) as -> by lia. destruct H as [Hl H]. split; [done|]. by apply rcmp_swap.
    + assert (- v =? 0 = false) as -> by lia. lia.
  - intros a b d z1 z2 (v1 & Hv1 & H1)%compare_positions_iff (v2 & Hv2 & H2)%compare_positions_iff N1 N2.
    pose proof (rcmp_range _ _ _ Hv1). pose proof (rcmp_range _ _ _ Hv2).
    assert (v1 <= 0) by (destruct (v1 =? 0) eqn:E; lia).
    assert (v2 <= 0) by (destruct (v2 =? 0) eqn:E; lia).
    apply compare_positions_iff. exists (Z.min v1 v2). rewrite (rcmp_trans _ _ _ _ _ Hv1 Hv2) by lia.
    split; [done|]. destruct (v1 =? 0) eqn:E1, (v2 =? 0) eqn:E2; subst.
    + assert (Z.min v1 v2 =? 0 = true) as -> by lia. destruct H1 as [L1 H1], H2 as [L2 H2].
      split; [lia|]. by eapply rcmp_trans.
    + destruct H1 as [_ H1]. apply lexM_range in H1; [|apply _].
      assert (Z.min v1 v2 =? 0 = false) as -> by lia. lia.
    + destruct H2 as [_ H2]. apply lexM_range in H2; [|apply _].
      assert (Z.min v1 v2 =? 0 = false) as -> by lia. lia.
    + assert (Z.min v1 v2 =? 0 = false) as -> by lia. done.
Qed.

Lemma validate_advance_Ok t :
  validate_advance t = Ok tt ->
  match wt_before t with
  | None => can_advance_state (wt_gate t) = true
  | Some before =>
    exists z, compare_watermark_positions before (wt_after t) = Ok z /\ z <= 0 /\
      (z < 0 -> can_advance_state (wt_gate t) = true)
  end.
Proof.
  unfold validate_advance. intros (changed & Hc & H)%bind_Ok.
  destruct (wt_before t) as [before|].
  - apply bind_Ok in Hc as (o & Ho & Hc). destruct (o <? 0) eqn:E; [done|]. injection Hc as <-.
    exists (- o). split; [by apply rcmp_swap|]. split; [lia|]. intros Hlt.
    assert (o >? 0 = true) as Hg by lia. rewrite Hg in H. by destruct (can_advance_state _).
  - injection Hc as <-. by destruct (can_advance_state _).
Qed.

Lemma status_final_dec s : (s ∉ _FINAL_DATASET_STATUSES) <-> (s = DS_PENDING \/ s = DS_RUNNING).
Proof. unfold _FINAL_DATASET_STATUSES. destruct s; set_solver. Qed.

Lemma aggregate_perm outcomes outcomes' fatal :
  outcomes ≡ₚ outcomes' -> aggregate_pipeline_status outcomes' fatal = aggregate_pipeline_status outcomes fatal.
Proof.
  intros Hp. unfold aggregate_pipeline_status.
  assert (forall f : DatasetOutcome -> bool, existsb f outcomes' = existsb f outcomes) as Hex.
  { intros f. apply eq_bool_prop_intro. rewrite !Is_true_true, !existsb_elem. by setoid_rewrite Hp. }
  rewrite !Hex. erewrite bool_decide_ext; [reflexivity|]. rewrite !filter_nil_iff. by rewrite Hp.
Qed.

(** The branch [aggregate_pipeline_status] takes. *)
Lemma aggregate_cases outcomes fatal :
  (exists o, o ∈ outcomes /\ (do_status o = DS_PENDING \/ do_status o = DS_RUNNING)) /\
    aggregate_pipeline_status outcomes fatal =
      raise "ValueError" "cannot aggregate pipeline status while dataset work is non-final"
  \/ Forall (fun o => do_status o <> DS_PENDING /\ do_status o <> DS_RUNNING) outcomes /\
    ((exists o, o ∈ outcomes /\ is_problem o = true /\ do_criticality o ∈ fatal) /\
       aggregate_pipeline_status outcomes fatal = Ok PS_FAILED
     \/ ~ (exists o, o ∈ outcomes /\ is_problem o = true /\ do_criticality o ∈ fatal) /\
        ((exists o, o ∈ outcomes /\ do_status o <> DS_SUCCEEDED) /\
           aggregate_pipeline_status outcomes fatal = Ok PS_PARTIAL_SUCCESS
         \/ Forall (fun o => do_status o = DS_SUCCEEDED) outcomes /\
           aggregate_pipeline_status outcomes fatal = Ok PS_SUCCESS)).
Proof.
  unfold aggregate_pipeline_status. case_bool_decide as Hf; cbn [negb].
  - right. apply filter_nil_iff in Hf.
    assert (Forall (fun o => do_status o <> DS_PENDING /\ do_status o <> DS_RUNNING) outcomes) as Hfin.
    { eapply Forall_impl; [exact Hf|]. intros o Ho. simpl in Ho. rewrite status_final_dec in Ho. tauto. }
    split; [done|]. destruct (existsb _ outcomes) eqn:E1.
    + left. split; [|done]. apply existsb_elem in E1 as (o & Ho & [Hp Hc]%andb_true_iff).
      exists o. by rewrite bool_decide_eq_true in Hc.
    + right. split.
      { intros (o & Ho & Hp & Hc). apply not_true_iff_false in E1. apply E1, existsb_elem.
        exists o. split; [done|]. rewrite Hp. by apply bool_decide_eq_true. }
      destruct (existsb (fun item => is_problem item || _) outcomes) eqn:E2.
      * left. split; [|done]. apply existsb_elem in E2 as (o & Ho & Hp). exists o. split; [done|].
        unfold is_problem in Hp. intros Hs. rewrite Hs in Hp. by vm_compute in Hp.
      * right. split; [|done]. apply Forall_forall. intros o Ho.
        rewrite Forall_forall in Hfin. destruct (Hfin o Ho) as [H1 H2].
        apply not_true_iff_false in E2.
        destruct (is_problem o || bool_decide (do_status o = DS_SKIPPED)) eqn:E3.
        { exfalso. apply E2, existsb_elem. eauto. }
        unfold is_problem in E3. by destruct (do_status o).
  - left. split; [|done].
    destruct (filter _ outcomes) as [|o l] eqn:E; [done|]. exists o.
    assert (o ∈ filter (fun item => do_status item ∉ _FINAL_DATASET_STATUSES) outcomes) as Hin
      by (rewrite E; left).
    apply list_elem_of_filter in Hin as [Hs Hin]. by rewrite status_final_dec in Hs.
Qed.

(** ** Properties *)

(** The pipeline status is a function of the multiset of final outcomes: an error exactly when
    some dataset is PENDING or RUNNING, SUCCESS exactly when every dataset succeeded, FAILED
    exactly when all are final and a dataset of a fatal criticality has a problem status, and
    PARTIAL_SUCCESS in the remaining cases. *)
Theorem pipeline_status_characterised outcomes fatal :
  let status := aggregate_pipeline_status outcomes fatal in
  (is_ok status = false <->
     exists o, o ∈ outcomes /\ (do_status o = DS_PENDING \/ do_status o = DS_RUNNING)) /\
  (status = Ok PS_SUCCESS <-> Forall (fun o => do_status o = DS_SUCCEEDED) outcomes) /\
  (status = Ok PS_FAILED <->
     Forall (fun o => do_status o <> DS_PENDING /\ do_status o <> DS_RUNNING) outcomes /\
     exists o, o ∈ outcomes /\ is_problem o = true /\ do_criticality o ∈ fatal) /\
  (status <> Ok PS_RUNNING) /\
  (forall outcomes', outcomes ≡ₚ outcomes' -> aggregate_pipeline_status outcomes' fatal = status).
Proof.
  intros status.
  assert (forall o, do_status o = DS_SUCCEEDED -> is_problem o = false) as Hprob
    by (intros o Ho; unfold is_problem; by rewrite Ho).
  destruct (aggregate_cases outcomes fatal) as [[He Hr]|[Hf Hcases]].
  - unfold status. rewrite Hr. destruct He as (o & Ho & Hs).
    split; [split; [by exists o|done]|]. split; [|split; [|split; [done|]]].
    + split; [done|]. intros Hall. rewrite Forall_forall in Hall. apply Hall in Ho. destruct Hs; congruence.
    + split; [done|]. intros [Hall _]. rewrite Forall_forall in Hall. apply Hall in Ho.
      destruct Ho, Hs; congruence.
    + intros outcomes' Hp. rewrite <-Hr. by apply aggregate_perm.
  - assert (~ exists o, o ∈ outcomes /\ (do_status o = DS_PENDING \/ do_status o = DS_RUNNING)) as Hno.
    { intros (o & Ho & Hs). rewrite Forall_forall in Hf. apply Hf in Ho. destruct Ho, Hs; congruence. }
    split; [|split; [|split; [|split]]]; unfold status.
    + destruct Hcases as [[_ ->]|[_ [[_ ->]|[_ ->]]]]; by split.
    + destruct Hcases as [[(o & Ho & Hp & _) ->]|[_ [[(o & Ho & Hp) ->]|[Ha ->]]]]; split; try done.
      * intros Hall. rewrite Forall_forall in Hall. apply Hall, Hprob in Ho. congruence.
      * intros Hall. rewrite Forall_forall in Hall. apply Hall in Ho. done.
    + destruct Hcases as [[Hx ->]|[Hn [[_ ->]|[_ ->]]]]; split; try done; by intros [_ ?].
    + by destruct Hcases as [[_ ->]|[_ [[_ ->]|[_ ->]]]].
    + intros outcomes' Hp. by apply aggregate_perm.
Qed.

(** A chain of transitions: each starts where the previous one ended. *)
Fixpoint transition_chain (p : option WatermarkPosition) (ts : list WatermarkTransition) : Prop :=
  match ts with
  | [] => True
  | t :: ts' => wt_before t = p /\ validate_advance t = Ok tt /\ transition_chain (Some (wt_after t)) ts'
  end.

Definition chain_end (p : WatermarkPosition) (ts : list WatermarkTransition) : WatermarkPosition :=
  default p (wt_after <$> last ts).

(** Along any chain of accepted watermark transitions the position never moves backwards,
    and when it has moved forward, some transition of the chain was made behind an open
    state-commit gate: target committed, not quarantined, reconciliation passed if required. *)
Theorem watermark_chain_monotone p ts :
  ts <> [] -> transition_chain (Some p) ts ->
  exists z, compare_watermark_positions p (chain_end p ts) = Ok z /\ z <= 0 /\
    (z < 0 -> exists t, t ∈ ts /\ target_committed (wt_gate t) = true /\
       batch_quarantined (wt_gate t) = false /\
       (reconciliation_required (wt_gate t) = true -> reconciliation_passed (wt_gate t) = true)).
Proof.
  assert (forall g, can_advance_state g = true -> target_committed g = true /\
    batch_quarantined g = false /\ (reconciliation_required g = true -> reconciliation_passed g = true))
    as Hgate by by intros [[] [] [] []].
  revert p. induction ts as [|t ts IH]; intros p; [done|].
  intros _ (Hb & Hv & Hc). apply validate_advance_Ok in Hv. rewrite Hb in Hv.
  destruct Hv as (z1 & H1 & Hle1 & Hg).
  destruct (decide (ts = [])) as [->|Hne].
  { exists z1. split; [done|]. split; [done|]. intros Hlt. exists t. split; [left|]. auto. }
  destruct (IH _ Hne Hc) as (z2 & H2 & Hle2 & Hg2).
  exists (Z.min z1 z2). replace (chain_end p (t :: ts)) with (chain_end (wt_after t) ts)
    by (unfold chain_end; rewrite last_cons; by destruct (last ts)).
  split; [by eapply rcmp_trans|]. split; [lia|]. intros Hlt.
  destruct (decide (z1 < 0)) as [Hz1|Hz1].
  - exists t. split; [left|]. auto.
  - destruct Hg2 as (t' & Ht' & Hgt'); [lia|]. exists t'. split; [by right|done].
Qed.

(** ** Witnesses *)

Definition demo_position (v : Z) (k : string) : WatermarkPosition :=
  {| wp_value := VDatetime (Some 0) v; wp_tie_breaker := [VStr k] |}.

Definition open_gate : StateCommitGate :=
  {| target_committed := true; reconciliation_required := true; reconciliation_passed := true;
     batch_quarantined := false |}.

Definition demo_chain : list WatermarkTransition :=
  [ {| wt_before := Some (demo_position 10 "a"); wt_after := demo_position 10 "b"; wt_gate := open_gate |};
    {| wt_before := Some (demo_position 10 "b"); wt_after := demo_position 40 "a"; wt_gate := open_gate |} ].

Lemma watermark_chain_monotone_witness :
  exists z, compare_watermark_positions (demo_position 10 "a") (demo_position 40 "a") = Ok z /\ z <= 0.
Proof.
  destruct (watermark_chain_monotone (demo_position 10 "a") demo_chain) as (z & Hz & Hle & _);
    [done|by vm_compute|by exists z].
Defined.
