(* ===== verification/Watermark.v ===== *)
(** * WATERMARK capture ([capture/watermark.py])

    [plan_watermark_batch] sorts the source rows by their composite position and selects the
    rows to read.  Instants are microseconds. *)

From stdpp Require Import base gmap strings list sorting.
From S2P Require Import Prelude PyValue Ordering Temporal ConfigTypes RuntimeState.
#[local] Open Scope Z_scope.

Record WatermarkBatch := {
  wb_rows : list row;
  wb_before : option WatermarkPosition;
  wb_after : option WatermarkPosition
}.

(** [row[column]] *)
Definition subscript (r : row) (column : string) (site : string) : res value :=
  match r !! column with Some v => Ok v | None => raise "KeyError" site end.

Definition _position_for_row (r : row) (config : WatermarkConfig) : res WatermarkPosition :=
  v ← subscript r (wm_column config) "watermark column missing from source row";
  if is_none v then raise "ValueError" "watermark column cannot be null"
  else
    tie_breaker ← mapM_res (fun column => subscript r column
                              "watermark tie-breaker column missing from source row")
                    (wm_tie_breaker config);
    if existsb is_none tie_breaker then raise "ValueError" "watermark tie-breaker values cannot be null"
    else make_WatermarkPosition v tie_breaker.

Definition _compare_positioned (left right : row * WatermarkPosition) : res Z :=
  compare_watermark_positions left.2 right.2.

(** The UTC instant of [value.astimezone(timezone.utc)], or the [TypeError] of the guard. *)
Definition datetime_instant (v : value) : res Z :=
  match v with
  | VDatetime off us => Ok (us - default 0 off)
  | _ => raise "TypeError" "positive watermark overlap window requires datetime watermark values"
  end.

Definition _overlap_lower_bound (before : WatermarkPosition) (config : WatermarkConfig) : res Z :=
  instant ← datetime_instant (wp_value before);
  Ok (instant - 1000000 * wm_overlap_window_seconds config).

Definition _validate_before (before : WatermarkPosition) (config : WatermarkConfig) : res unit :=
  if negb (bool_decide (length (wp_tie_breaker before) = length (wm_tie_breaker config))) then
    raise "ValueError"
      "committed watermark tie-breaker arity does not match current watermark configuration"
  else Ok tt.

Definition position_rows (rows : list row) (config : WatermarkConfig) :
    res (list (row * WatermarkPosition)) :=
  mapM_res (fun r => p ← _position_for_row r config; Ok (r, p)) rows.

Definition in_overlap (lower_bound : Z) (item : row * WatermarkPosition) : res bool :=
  instant ← datetime_instant (wp_value item.2);
  Ok (lower_bound <=? instant).

Definition after_before (before : WatermarkPosition) (item : row * WatermarkPosition) : res bool :=
  comparison ← compare_watermark_positions item.2 before;
  Ok (comparison >? 0).

Definition select_positioned (config : WatermarkConfig) (before : option WatermarkPosition)
    (positioned : list (row * WatermarkPosition)) : res (list (row * WatermarkPosition)) :=
  match before with
  | None => Ok positioned
  | Some before =>
    if wm_overlap_window_seconds config >? 0 then
      lower_bound ← _overlap_lower_bound before config;
      filterM_res (in_overlap lower_bound) positioned
    else filterM_res (after_before before) positioned
  end.

Definition plan_watermark_batch (rows : list row) (config : WatermarkConfig)
    (before : option WatermarkPosition) : res WatermarkBatch :=
  _ ← match before with Some b => _validate_before b config | None => Ok tt end;
  positioned0 ← position_rows rows config;
  positioned ← sortM _compare_positioned positioned0;
  selected ← select_positioned config before positioned;
  match last selected with
  | None => Ok {| wb_rows := []; wb_before := before; wb_after := before |}
  | Some (_, candidate_after) =>
    after ← match before with
            | Some b =>
              comparison ← compare_watermark_positions candidate_after b;
              Ok (if comparison <=? 0 then b else candidate_after)
            | None => Ok candidate_after
            end;
    Ok {| wb_rows := map fst selected; wb_before := before; wb_after := Some after |}
  end.

(** ** Lemmas *)

#[export] Instance compare_positioned_ResCmp : ResCmp _compare_positioned.
Proof.
  unfold _compare_positioned. split.
  - intros a b c. apply rcmp_range.
  - intros a b c. apply rcmp_swap.
  - intros a b d c1 c2. apply rcmp_trans.
Qed.

Lemma scalar_cmp_refl v f : scalar_ok v -> _compare_scalar f v v = Ok 0.
Proof.
  intros Hok. apply compare_scalar_iff. repeat split; [done..|]. exists Eq. split; [|done].
  specialize (Hok ""). destruct v as [| | | | |[o|] u| | | | | |]; try done; unfold py_cmp.
  - f_equal. unfold num. apply QArith_base.Qeq_alt. reflexivity.
  - f_equal. unfold num. apply QArith_base.Qeq_alt. reflexivity.
  - f_equal. by apply str_compare_Eq.
  - f_equal. apply Z.compare_refl.
Qed.

(** Positions built from rows can be compared with themselves. *)
Lemma position_for_row_refl r config p :
  _position_for_row r config = Ok p ->
  compare_watermark_positions p p = Ok 0 /\ length (wp_tie_breaker p) = length (wm_tie_breaker config).
Proof.
  unfold _position_for_row. intros (v & Hv & H)%bind_Ok.
  destruct (is_none v) eqn:Hn; [done|]. apply bind_Ok in H as (tb & Htb & H).
  destruct (existsb is_none tb) eqn:Hnt; [done|].
  unfold make_WatermarkPosition in H. apply bind_Ok in H as (u & Hu & (us & Hus & [= <-])%bind_Ok).
  simpl. split.
  - apply compare_positions_iff. exists 0. simpl. split.
    + apply scalar_cmp_refl. apply (scalar_ok_iff _ "watermark value").
      destruct u. by destruct v.
    + split; [done|]. clear -Hus. revert us Hus.
      induction tb as [|x tb IH]; intros us; simpl; [done|].
      unfold validate_tie_breaker_item at 1.
      destruct (_validate_watermark_scalar x false _) as [[]|] eqn:E; [|done].
      cbn [mbind res_bind]. destruct (is_datetime x); [done|].
      destruct (mapM_res _ tb) as [us'|]; [|done]. intros _.
      rewrite scalar_cmp_refl by by eapply scalar_ok_iff. by apply (IH us').
  - apply mapM_res_Forall2, Forall2_length in Htb. by rewrite Htb.
Qed.

Lemma position_rows_refl rows config ps it :
  position_rows rows config = Ok ps -> it ∈ ps ->
  compare_watermark_positions it.2 it.2 = Ok 0 /\
  length (wp_tie_breaker it.2) = length (wm_tie_breaker config).
Proof.
  intros Hps%mapM_res_Forall2 Hin.
  apply list_elem_of_lookup in Hin as [i Hi].
  destruct (Forall2_lookup_r _ _ _ _ _ Hps Hi) as (r & _ & Hr).
  apply bind_Ok in Hr as (p & Hp & [= <-]). by eapply position_for_row_refl.
Qed.

Lemma select_positioned_filter config before ps sel :
  select_positioned config before ps = Ok sel ->
  sublist sel ps /\
  match before with
  | None => sel = ps
  | Some b =>
    if wm_overlap_window_seconds config >? 0 then
      exists lower, _overlap_lower_bound b config = Ok lower /\
        sel = filter (fun it => in_overlap lower it = Ok true) ps
    else Forall (fun it => is_ok (after_before b it) = true) ps /\
         sel = filter (fun it => after_before b it = Ok true) ps
  end.
Proof.
  assert (forall (P : row * WatermarkPosition -> Prop) `{!forall x, Decision (P x)} l,
            sublist (filter P l) l) as Hsub.
  { intros P ? l. induction l as [|x l IH]; [constructor|]. rewrite filter_cons.
    destruct (decide _); by constructor. }
  unfold select_positioned. destruct before as [b|]; [|by intros [= <-]].
  destruct (_ >? 0).
  - intros (lower & Hl & H)%bind_Ok. apply filterM_res_Ok in H as [_ ->]. split; [apply Hsub|eauto].
  - intros [? ->]%filterM_res_Ok. split; [apply Hsub|done].
Qed.

(** What a successful plan computes. *)
Lemma plan_watermark_batch_Ok rows config before b :
  plan_watermark_batch rows config before = Ok b ->
  exists ps srt sel,
    position_rows rows config = Ok ps /\ sortM _compare_positioned ps = Ok srt /\
    select_positioned config before srt = Ok sel /\
    wb_rows b = map fst sel /\ wb_before b = before /\
    (forall p, before = Some p -> length (wp_tie_breaker p) = length (wm_tie_breaker config)) /\
    match last sel with
    | None => wb_after b = before
    | Some it => exists after, wb_after b = Some after /\
        match before with
        | None => after = it.2
        | Some p => exists z, compare_watermark_positions it.2 p = Ok z /\
                      after = if z <=? 0 then p else it.2
        end
    end.
Proof.
  unfold plan_watermark_batch. intros (u & Hu & (ps & Hps & (srt & Hsrt & (sel & Hsel & H)%bind_Ok)%bind_Ok)%bind_Ok)%bind_Ok.
  exists ps, srt, sel. do 3 (split; [done|]).
  assert (forall p, before = Some p -> length (wp_tie_breaker p) = length (wm_tie_breaker config)) as Hlen.
  { intros p ->. unfold _validate_before in Hu. by case_bool_decide. }
  destruct (last sel) as [[r c]|] eqn:El.
  - apply bind_Ok in H as (after & Ha & [= <-]). simpl. do 3 (split; [done|]). exists after.
    split; [done|]. destruct before as [p|]; [|by injection Ha as ->].
    apply bind_Ok in Ha as (z & Hz & [= <-]). eauto.
  - injection H as <-. simpl. apply last_None in El as ->. done.
Qed.

(** Every selected row is at or before the last selected one. *)
Lemma sorted_last sel it l :
  StronglySorted (cmp_le _compare_positioned) sel -> last sel = Some l -> it ∈ sel ->
  it = l \/ cmp_le _compare_positioned it l.
Proof.
  intros Hs Hl Hin. apply last_Some in Hl as [init ->].
  apply elem_of_app in Hin as [Hin|Hin%list_elem_of_singleton]; [right|by left].
  apply (StronglySorted_app_1_elem_of (cmp_le _compare_positioned) init [l]); [done|done|left].
Qed.

(** ** Properties *)

(** A batch holds exactly the rows it must: sorted by position, and a permutation of all the
    rows (first run), of the rows after the checkpoint (no overlap), or of the rows no older than
    the checkpoint minus the overlap window. *)
Theorem watermark_batch_complete rows config before b :
  plan_watermark_batch rows config before = Ok b ->
  exists ps sel, position_rows rows config = Ok ps /\
    wb_rows b = map fst sel /\ StronglySorted (cmp_le _compare_positioned) sel /\
    match before with
    | None => sel ≡ₚ ps
    | Some p =>
      if wm_overlap_window_seconds config >? 0 then
        exists lower, _overlap_lower_bound p config = Ok lower /\
          sel ≡ₚ filter (fun it => in_overlap lower it = Ok true) ps
      else sel ≡ₚ filter (fun it => after_before p it = Ok true) ps /\
           Forall (fun it => is_ok (after_before p it) = true) ps
    end.
Proof.
  intros (ps & srt & sel & Hps & Hsrt & Hsel & Hrows & _)%plan_watermark_batch_Ok.
  exists ps, sel. split; [done|]. split; [done|].
  pose proof (sortM_perm _ _ _ Hsrt) as Hp. apply sortM_sorted in Hsrt; [|apply _].
  apply select_positioned_filter in Hsel as [Hsub Hsel]. split; [by eapply sublist_sorted|].
  destruct before as [p|]; [|by subst]. destruct (_ >? 0).
  - destruct Hsel as (lower & Hl & ->). exists lower. by rewrite Hp.
  - destruct Hsel as [Hok ->]. by rewrite <-Hp.
Qed.

(** The new checkpoint is the maximum of the old one and the selected positions: it is one of
    them, no selected row lies after it, and it is never before the old checkpoint, even when the
    overlap window re-reads old rows. *)
Theorem watermark_after_is_max rows config before b :
  plan_watermark_batch rows config before = Ok b ->
  exists ps sel, position_rows rows config = Ok ps /\ wb_rows b = map fst sel /\
    (forall it, it ∈ sel -> it ∈ ps) /\
    match wb_after b with
    | None => before = None /\ sel = []
    | Some after =>
      (before = Some after \/ exists it, it ∈ sel /\ after = it.2) /\
      (forall it, it ∈ sel -> exists z, compare_watermark_positions it.2 after = Ok z /\ z <= 0) /\
      match before with
      | Some p => sel <> [] -> after = p \/
          exists z, compare_watermark_positions p after = Ok z /\ z < 0
      | None => True
      end
    end.
Proof.
  intros (ps & srt & sel & Hps & Hsrt & Hsel & Hrows & _ & _ & Hlast)%plan_watermark_batch_Ok.
  exists ps, sel. split; [done|]. split; [done|].
  pose proof (sortM_perm _ _ _ Hsrt) as Hp. apply sortM_sorted in Hsrt; [|apply _].
  apply select_positioned_filter in Hsel as [Hsub _].
  assert (forall it, it ∈ sel -> it ∈ ps) as Hin by (intros it Hit; rewrite <-Hp; by eapply elem_of_sublist).
  split; [done|]. destruct (last sel) as [l|] eqn:El.
  - destruct Hlast as (after & -> & Hafter).
    pose proof El as Hl. apply last_Some_elem_of in Hl.
    assert (forall it, it ∈ sel -> exists z, compare_watermark_positions it.2 l.2 = Ok z /\ z <= 0) as Hle.
    { intros it Hit. destruct (sorted_last sel it l) as [->|[z Hz]]; [by eapply sublist_sorted|done|done| |eauto].
      destruct (position_rows_refl _ _ _ l Hps) as [Hr _]; [by apply Hin|]. by exists 0. }
    destruct before as [p|].
    + destruct Hafter as (z & Hz & ->). destruct (z <=? 0) eqn:E.
      * split; [by left|]. split; [|by left]. intros it Hit.
        destruct (Hle it Hit) as (z' & Hz' & ?). exists (Z.min z' z).
        split; [|lia]. eapply rcmp_trans; [done|done|lia|lia].
      * split; [right; eauto|]. split; [done|]. right. exists (- z). split; [by apply rcmp_swap|lia].
    + subst. split; [right; eauto|]. by split.
  - apply last_None in El as ->. rewrite Hlast. destruct before as [p|]; [|done].
    split; [by left|]. split; [|done]. by intros it ?%elem_of_nil.
Qed.

(** Without overlap, a position at or before the checkpoint is not selected again. *)
Lemma not_after p it z : compare_watermark_positions it.2 p = Ok z -> z <= 0 -> after_before p it = Ok false.
Proof.
  intros Hz Hle. unfold after_before. rewrite Hz. cbn [mbind res_bind]. f_equal. lia.
Qed.

Lemma filterM_none {A} (f : A -> res bool) l :
  Forall (fun a => f a = Ok false) l -> filterM_res f l = Ok [].
Proof. induction 1 as [|a l Ha _ IH]; simpl; [done|]. by rewrite Ha, IH. Qed.

(** Capture drains: without an overlap window, planning again over the same rows from the
    checkpoint just produced selects nothing and leaves the checkpoint where it is. *)
Theorem watermark_drained rows config before b after :
  wm_overlap_window_seconds config = 0 ->
  plan_watermark_batch rows config before = Ok b -> wb_after b = Some after ->
  plan_watermark_batch rows config (Some after) =
    Ok {| wb_rows := []; wb_before := Some after; wb_after := Some after |}.
Proof.
  intros Hov (ps & srt & sel & Hps & Hsrt & Hsel & _ & _ & Hlen & Hlast)%plan_watermark_batch_Ok Hafter.
  pose proof (sortM_perm _ _ _ Hsrt) as Hp.
  pose proof (sortM_sorted _ _ _ Hsrt) as Hsorted.
  assert (forall it, it ∈ srt -> it ∈ ps) as Hin by (intros it; by rewrite Hp).
  pose proof (select_positioned_filter _ _ _ _ Hsel) as [Hsub Hfil]. rewrite Hov in Hfil. simpl in Hfil.
  assert (length (wp_tie_breaker after) = length (wm_tie_breaker config) /\
          Forall (fun it => after_before after it = Ok false) srt) as [Hla Hnone].
  { destruct (last sel) as [l|] eqn:El.
    - destruct Hlast as (after' & Ha & Hl). rewrite Hafter in Ha. injection Ha as <-.
      assert (l ∈ srt) as Hlsrt
        by (eapply elem_of_sublist; [by apply last_Some_elem_of|exact Hsub]).
      destruct (position_rows_refl _ _ _ l Hps (Hin _ Hlsrt)) as [Hrefl Htie].
      assert (forall it, it ∈ sel -> exists z, compare_watermark_positions it.2 l.2 = Ok z /\ z <= 0) as Hle.
      { intros it Hit. destruct (sorted_last sel it l) as [->|[z Hz]];
          [by eapply sublist_sorted|done|done|by exists 0|by exists z]. }
      destruct before as [p|].
      + destruct Hl as (z & Hz & ->), Hfil as [Hok ->].
        assert (0 < z) as Hpos.
        { apply last_Some_elem_of, list_elem_of_filter in El as [El _]. unfold after_before in El.
          rewrite Hz in El. cbn [mbind res_bind] in El. injection El. lia. }
        replace (z <=? 0) with false by lia. split; [done|].
        apply Forall_forall. intros it Hit. rewrite Forall_forall in Hok. specialize (Hok it Hit).
        destruct (after_before p it) as [[]|] eqn:E; [| |done].
        * destruct (Hle it) as (z' & Hz' & ?); [by apply list_elem_of_filter|]. by eapply not_after.
        * unfold after_before in E. apply bind_Ok in E as (z' & Hz' & [= E]).
          assert (compare_watermark_positions it.2 l.2 = Ok (Z.min z' (- z))) as Hc
            by (eapply rcmp_trans; [done|by apply rcmp_swap|lia|lia]).
          eapply not_after; [exact Hc|lia].
      + subst. split; [done|]. apply Forall_forall. intros it Hit.
        destruct (Hle it Hit) as (z' & Hz' & ?). by eapply not_after.
    - apply last_None in El as ->. rewrite Hlast in Hafter. rewrite Hafter in Hfil, Hlen.
      split; [by apply Hlen|]. destruct Hfil as [Hok Hnil]. symmetry in Hnil. apply filter_nil_iff in Hnil.
      apply Forall_forall. intros it Hit. rewrite Forall_forall in Hok, Hnil.
      specialize (Hok it Hit); specialize (Hnil it Hit). simpl in Hnil.
      by destruct (after_before after it) as [[]|]. }
  unfold plan_watermark_batch, _validate_before. rewrite bool_decide_true by done. simpl.
  rewrite Hps. cbn [mbind res_bind]. rewrite Hsrt. cbn [mbind res_bind].
  unfold select_positioned. rewrite Hov. simpl.
  by rewrite filterM_none.
Qed.

(** ** Witnesses *)

Definition demo_wm_config (overlap : Z) : WatermarkConfig :=
  {| wm_column := "ts"; wm_tie_breaker := ["id"]; wm_overlap_window_seconds := overlap |}.

Definition demo_wm_row (seconds : Z) (id : string) : row :=
  {[ "ts" := VDatetime (Some 0) (1000000 * seconds); "id" := VStr id ]}.

Definition demo_wm_rows : list row := [demo_wm_row 30 "a"; demo_wm_row 10 "b"; demo_wm_row 30 "c"; demo_wm_row 20 "d"].

Definition demo_checkpoint : WatermarkPosition :=
  {| wp_value := VDatetime (Some 0) 20000000; wp_tie_breaker := [VStr "d"] |}.

Definition demo_batch (overlap : Z) : WatermarkBatch :=
  match plan_watermark_batch demo_wm_rows (demo_wm_config overlap) (Some demo_checkpoint) with
  | Ok b => b
  | Raise _ => {| wb_rows := []; wb_before := None; wb_after := None |}
  end.

Lemma watermark_batch_complete_witness :
  exists sel, wb_rows (demo_batch 10) = map fst sel /\
    StronglySorted (cmp_le _compare_positioned) sel /\ length sel = 4%nat.
Proof.
  destruct (watermark_batch_complete demo_wm_rows (demo_wm_config 10) (Some demo_checkpoint) (demo_batch 10))
    as (ps & sel & _ & Hsel & Hs & _); [vm_compute; reflexivity|].
  exists sel. split; [done|]. split; [done|].
  apply (f_equal length) in Hsel. rewrite length_map in Hsel. rewrite <-Hsel. vm_compute. reflexivity.
Defined.

Lemma watermark_after_is_max_witness :
  exists after z, wb_after (demo_batch 0) = Some after /\
    compare_watermark_positions demo_checkpoint after = Ok z /\ z < 0.
Proof.
  destruct (watermark_after_is_max demo_wm_rows (demo_wm_config 0) (Some demo_checkpoint) (demo_batch 0))
    as (ps & sel & _ & Hrows & _ & Hafter); [vm_compute; reflexivity|].
  destruct (wb_after (demo_batch 0)) as [after|] eqn:E; [|by destruct Hafter].
  destruct Hafter as (_ & _ & [->|(z & Hz & Hlt)]).
  - intros ->. apply (f_equal length) in Hrows. vm_compute in Hrows. discriminate Hrows.
  - vm_compute in E. discriminate E.
  - exists after, z. done.
Defined.

Lemma watermark_drained_witness :
  length (wb_rows (demo_batch 0)) = 2%nat /\
  exists after, wb_after (demo_batch 0) = Some after /\
    plan_watermark_batch demo_wm_rows (demo_wm_config 0) (Some after) =
      Ok {| wb_rows := []; wb_before := Some after; wb_after := Some after |}.
Proof.
  split; [vm_compute; reflexivity|].
  destruct (wb_after (demo_batch 0)) as [after|] eqn:E; [|vm_compute in E; discriminate E].
  exists after. split; [done|].
  eapply (watermark_drained _ _ (Some demo_checkpoint) (demo_batch 0)); [reflexivity| |exact E].
  vm_compute. reflexivity.
Defined.
