(* ===== verification/CdcCapture.v ===== *)
(** * CDC events, ordering and checkpoints ([capture/cdc.py])

    [normalize_cdc_batch] validates, deduplicates and orders one bounded window.  The
    [content_hash] of an event is a parameter, since it is computed from Pydantic's
    [model_dump]; [key_hash] is the canonical hash of the key. *)

From stdpp Require Import base gmap strings list sorting.
From S2P Require Import Prelude PyValue Temporal ConfigTypes RuntimeState.
#[local] Open Scope Z_scope.

Inductive CDCOperation := CDC_INSERT | CDC_UPDATE | CDC_DELETE.
#[export] Instance CDCOperation_eq_dec : EqDecision CDCOperation.
Proof. solve_decision. Defined.

Record CDCSourcePosition := { sp_partition : string; sp_values : list Z }.
#[export] Instance CDCSourcePosition_eq_dec : EqDecision CDCSourcePosition.
Proof. solve_decision. Defined.

Definition validate_values (p : CDCSourcePosition) : res unit :=
  if negb (nonempty (sp_partition p)) then bad_field
  else if bool_decide (sp_values p = []) then
    raise "ValueError" "CDC source position requires at least one integer component"
  else if existsb (fun v => v <? 0) (sp_values p) then
    raise "ValueError" "CDC source position components must be non-negative integers"
  else Ok tt.

(** Comparison of tuples of integers. *)
Fixpoint zs_cmp (l m : list Z) : comparison :=
  match l, m with
  | [], [] => Eq
  | [], _ :: _ => Lt
  | _ :: _, [] => Gt
  | x :: l', y :: m' => match x ?= y with Eq => zs_cmp l' m' | c => c end
  end.

Definition zs_ltb (l m : list Z) : bool := match zs_cmp l m with Lt => true | _ => false end.
Definition zs_leb (l m : list Z) : bool := negb (zs_ltb m l).

Definition CDCCheckpoint : Type := list CDCSourcePosition.

Definition validate_positions (c : CDCCheckpoint) : res unit :=
  let partitions := map sp_partition c in
  if negb (unique partitions) then raise "ValueError" "CDC checkpoint partitions must be unique"
  else if negb (bool_decide (partitions = sort_on id partitions)) then
    raise "ValueError" "CDC checkpoint positions must be sorted by partition"
  else Ok tt.

Definition position_for (c : CDCCheckpoint) (partition : string) : option (list Z) :=
  match list_find (fun item => sp_partition item = partition) c with
  | Some (_, item) => Some (sp_values item)
  | None => None
  end.

Record CDCEvent := {
  ev_event_id : string;
  ev_operation : CDCOperation;
  ev_key : row;
  ev_position : CDCSourcePosition;
  ev_before : option row;
  ev_after : option row;
  ev_event_time : option datetime;
  ev_transaction_id : option string;
  ev_metadata : row
}.
#[export] Instance CDCEvent_eq_dec : EqDecision CDCEvent.
Proof. solve_decision. Defined.

(** The payload loop of [validate_event]. *)
Definition check_payload (key payload : row) : res unit :=
  if existsb (fun kv => startswith kv.1 "_framework_cdc_") (map_to_list payload) then
    raise "ValueError" "payload uses reserved framework CDC fields"
  else if existsb (fun kv => match payload !! kv.1 with
                             | Some v => negb (py_eqb v kv.2)
                             | None => false
                             end) (map_to_list key) then
    raise "ValueError" "payload key conflicts with event key"
  else Ok tt.

Definition validate_event (e : CDCEvent) : res unit :=
  if negb (nonempty (ev_event_id e)) then bad_field
  else if bool_decide (ev_key e = ∅) || existsb (fun kv => is_none kv.2) (map_to_list (ev_key e)) then
    raise "ValueError" "CDC event key must be non-empty and cannot contain null values"
  else if match ev_event_time e with Some t => is_naive t | None => false end then
    raise "ValueError" "CDC event_time must be timezone-aware"
  else if negb (bool_decide (ev_operation e = CDC_DELETE)) && negb (is_some (ev_after e)) then
    raise "ValueError" "CDC event requires after payload"
  else if bool_decide (ev_operation e = CDC_DELETE) && is_some (ev_after e) then
    raise "ValueError" "CDC DELETE event cannot contain after payload"
  else
    _ ← match ev_before e with Some p => check_payload (ev_key e) p | None => Ok tt end;
    match ev_after e with Some p => check_payload (ev_key e) p | None => Ok tt end.

(** [CDCEvent(...)] *)
Definition make_CDCEvent (e : CDCEvent) : res CDCEvent := _ ← validate_event e; Ok e.

Definition make_CDCSourcePosition (p : CDCSourcePosition) : res CDCSourcePosition := _ ← validate_values p; Ok p.

Record CDCNormalizedBatch := {
  nb_events : list CDCEvent;
  nb_lower_checkpoint : option CDCCheckpoint;
  nb_upper_checkpoint : CDCCheckpoint;
  nb_duplicate_events_ignored : nat;
  nb_already_committed_events_ignored : nat
}.

Record CDCCheckpointTransition := {
  ct_before : option CDCCheckpoint;
  ct_after : CDCCheckpoint;
  ct_gate : StateCommitGate
}.

(** The partition loop of [validate_transition] and of [_validate_window]. *)
Fixpoint check_no_regress (before after : CDCCheckpoint) (drop regress : exn) : res unit :=
  match before with
  | [] => Ok tt
  | previous :: before' =>
    match position_for after (sp_partition previous) with
    | None => Raise drop
    | Some next_position =>
      if zs_ltb next_position (sp_values previous) then Raise regress
      else check_no_regress before' after drop regress
    end
  end.

Definition validate_transition (t : CDCCheckpointTransition) : res unit :=
  _ ← match ct_before t with
      | Some before =>
        check_no_regress before (ct_after t)
          (Exn "ValueError" "CDC checkpoint cannot drop partition")
          (Exn "ValueError" "CDC checkpoint cannot regress partition")
      | None => Ok tt
      end;
  let changed := match ct_before t with
                 | None => true
                 | Some before => negb (bool_decide (ct_after t = before))
                 end in
  if changed && negb (can_advance_state (ct_gate t)) then
    raise "ValueError" "CDC checkpoint cannot advance before target commit and required reconciliation"
  else Ok tt.

(** [positions] is a mapping: its partitions are pairwise different. *)
Definition build_cdc_checkpoint (positions : gmap string (list Z)) : res CDCCheckpoint :=
  let items := sort_on fst (map_to_list positions) in
  checkpoint ← mapM_res (fun kv =>
    let p := {| sp_partition := kv.1; sp_values := kv.2 |} in
    _ ← validate_values p; Ok p) items;
  _ ← validate_positions checkpoint;
  Ok checkpoint.

Definition _validate_window (lower_checkpoint : option CDCCheckpoint) (upper_checkpoint : CDCCheckpoint) :
    res unit :=
  match lower_checkpoint with
  | None => Ok tt
  | Some lower =>
    check_no_regress lower upper_checkpoint
      (Exn "CDCEvidenceError" "CDC upper checkpoint dropped partition")
      (Exn "CDCEvidenceError" "CDC upper checkpoint regressed partition")
  end.

(** State of the loop of [normalize_cdc_batch]. *)
Record normalize_state := {
  ns_seen_ids : gmap string string;
  ns_seen_positions : gmap (string * list Z) (string * string);
  ns_key_partitions : gmap string string;
  ns_accepted : list CDCEvent;
  ns_duplicates : nat;
  ns_committed : nat
}.

(** [(event.position.partition, event.position.values)] *)
Definition position_key (e : CDCEvent) : string * list Z :=
  (sp_partition (ev_position e), sp_values (ev_position e)).

(** At or below the committed lower checkpoint. *)
Definition at_or_below (lower_checkpoint : option CDCCheckpoint) (e : CDCEvent) : bool :=
  match lower_checkpoint with
  | None => false
  | Some lower =>
    match position_for lower (sp_partition (ev_position e)) with
    | None => false
    | Some l => zs_leb (sp_values (ev_position e)) l
    end
  end.

(** [sort(key=lambda event: (partition, values, event_id))] *)
Definition event_leb (a b : CDCEvent) : bool :=
  match String.compare (sp_partition (ev_position a)) (sp_partition (ev_position b)) with
  | Lt => true
  | Gt => false
  | Eq => match zs_cmp (sp_values (ev_position a)) (sp_values (ev_position b)) with
          | Lt => true
          | Gt => false
          | Eq => str_leb (ev_event_id a) (ev_event_id b)
          end
  end.

Section normalize.
Context `{PyRuntime} (content_hash : CDCEvent -> string).

Definition key_hash (e : CDCEvent) : string := canonical_hash (row_value (ev_key e)).

Definition normalize_step (lower_checkpoint : option CDCCheckpoint) (upper_checkpoint : CDCCheckpoint)
    (s : normalize_state) (event : CDCEvent) : res normalize_state :=
  let event_hash := content_hash event in
  match ns_seen_ids s !! ev_event_id event with
  | Some prior_hash =>
    if negb (String.eqb prior_hash event_hash) then
      raise "CDCConflictError" "CDC event_id carries conflicting payload/evidence"
    else
      Ok {| ns_seen_ids := ns_seen_ids s; ns_seen_positions := ns_seen_positions s;
            ns_key_partitions := ns_key_partitions s; ns_accepted := ns_accepted s;
            ns_duplicates := S (ns_duplicates s); ns_committed := ns_committed s |}
  | None =>
    let seen_ids := <[ev_event_id event := event_hash]> (ns_seen_ids s) in
    seen_positions ←
      match ns_seen_positions s !! position_key event with
      | Some (prior_event_id, prior_position_hash) =>
        if negb (String.eqb prior_event_id (ev_event_id event))
           || negb (String.eqb prior_position_hash event_hash) then
          raise "CDCOrderingError" "multiple CDC events share one canonical source position"
        else Ok (ns_seen_positions s)
      | None => Ok (<[position_key event := (ev_event_id event, event_hash)]> (ns_seen_positions s))
      end;
    match position_for upper_checkpoint (sp_partition (ev_position event)) with
    | None => raise "CDCEvidenceError" "CDC event partition is absent from upper checkpoint"
    | Some upper =>
      if zs_ltb upper (sp_values (ev_position event)) then
        raise "CDCEvidenceError" "CDC event is beyond the frozen upper checkpoint"
      else if at_or_below lower_checkpoint event then
        Ok {| ns_seen_ids := seen_ids; ns_seen_positions := seen_positions;
              ns_key_partitions := ns_key_partitions s; ns_accepted := ns_accepted s;
              ns_duplicates := ns_duplicates s; ns_committed := S (ns_committed s) |}
      else if match ns_key_partitions s !! key_hash event with
              | Some previous_partition =>
                negb (String.eqb previous_partition (sp_partition (ev_position event)))
              | None => false
              end then
        raise "CDCOrderingError" "one CDC key appears in multiple partitions inside the bounded batch"
      else
        Ok {| ns_seen_ids := seen_ids; ns_seen_positions := seen_positions;
              ns_key_partitions :=
                <[key_hash event := sp_partition (ev_position event)]> (ns_key_partitions s);
              ns_accepted := ns_accepted s ++ [event];
              ns_duplicates := ns_duplicates s; ns_committed := ns_committed s |}
    end
  end.

Definition normalize_init : normalize_state :=
  {| ns_seen_ids := ∅; ns_seen_positions := ∅; ns_key_partitions := ∅; ns_accepted := [];
     ns_duplicates := 0; ns_committed := 0 |}.

Definition normalize_cdc_batch (events : list CDCEvent) (upper_checkpoint : CDCCheckpoint)
    (lower_checkpoint : option CDCCheckpoint) (complete_through_upper : bool) : res CDCNormalizedBatch :=
  if negb complete_through_upper then
    raise "CDCEvidenceError"
      "CDC batch cannot be accepted without completeness evidence through upper checkpoint"
  else
    _ ← _validate_window lower_checkpoint upper_checkpoint;
    s ← foldM (normalize_step lower_checkpoint upper_checkpoint) normalize_init events;
    Ok {| nb_events := sort_by event_leb (ns_accepted s);
          nb_lower_checkpoint := lower_checkpoint;
          nb_upper_checkpoint := upper_checkpoint;
          nb_duplicate_events_ignored := ns_duplicates s;
          nb_already_committed_events_ignored := ns_committed s |}.

End normalize.

#[local] Arguments normalize_step : simpl never.

(** ** Lemmas on positions *)

Lemma zs_cmp_Eq l m : zs_cmp l m = Eq <-> l = m.
Proof.
  revert m. induction l as [|x l IH]; intros [|y m]; simpl; try done.
  destruct (x ?= y) eqn:E.
  - apply Z.compare_eq_iff in E as ->. rewrite IH. split; [by intros ->|by intros [= ->]].
  - split; [done|]. intros [= -> ->]. by rewrite Z.compare_refl in E.
  - split; [done|]. intros [= -> ->]. by rewrite Z.compare_refl in E.
Qed.

Lemma zs_cmp_antisym l m : zs_cmp m l = CompOpp (zs_cmp l m).
Proof.
  revert m. induction l as [|x l IH]; intros [|y m]; simpl; try done.
  rewrite Z.compare_antisym. destruct (x ?= y); simpl; auto.
Qed.

Lemma zs_cmp_Lt_trans l m k : zs_cmp l m = Lt -> zs_cmp m k = Lt -> zs_cmp l k = Lt.
Proof.
  revert m k. induction l as [|x l IH]; intros [|y m] [|z k]; simpl; try done.
  destruct (x ?= y) eqn:E1, (y ?= z) eqn:E2; try done; intros H1 H2;
    rewrite ?Z.compare_eq_iff in *; rewrite ?Z.compare_lt_iff in *; subst.
  - rewrite Z.compare_refl. by eapply IH.
  - by rewrite (proj2 (Z.compare_lt_iff _ _) E2).
  - by rewrite (proj2 (Z.compare_lt_iff _ _) E1).
  - assert (x < z) as Hlt by lia. by rewrite (proj2 (Z.compare_lt_iff _ _) Hlt).
Qed.

Lemma zs_leb_cases l m : zs_leb l m = true <-> zs_cmp l m = Lt \/ l = m.
Proof.
  unfold zs_leb, zs_ltb. rewrite (zs_cmp_antisym l m). pose proof (zs_cmp_Eq l m).
  destruct (zs_cmp l m) eqn:E; simpl; split; try done; try tauto.
  intros [?| ->]; [done|]. pose proof (proj2 (zs_cmp_Eq m m) eq_refl). congruence.
Qed.

Lemma zs_ltb_cases l m : zs_ltb l m = true <-> zs_cmp l m = Lt.
Proof. unfold zs_ltb. by destruct (zs_cmp l m). Qed.

Lemma zs_leb_trans l m k : zs_leb l m = true -> zs_leb m k = true -> zs_leb l k = true.
Proof.
  rewrite !zs_leb_cases. intros [H1|<-] [H2|<-]; auto. left. by eapply zs_cmp_Lt_trans.
Qed.

Lemma zs_leb_total l m : zs_leb l m = true \/ zs_ltb m l = true.
Proof. unfold zs_leb. destruct (zs_ltb m l); auto. Qed.

Lemma zs_leb_refl l : zs_leb l l = true.
Proof. apply zs_leb_cases. by right. Qed.

(** Python compares a tuple of integers as [zs_cmp] does. *)
Lemma tuple_cmp_ints l m : tuple_cmp (map VInt l) (map VInt m) = Some (zs_cmp l m).
Proof.
  unfold tuple_cmp, py_cmp. revert m. induction l as [|x l IH]; intros [|y m]; try done. simpl.
  destruct (py_eqb (VInt x) (VInt y)) eqn:E.
  - pose proof (py_cmp_eqb (VInt x) (VInt y) _ E eq_refl) as He.
    unfold py_cmp in He. simpl in He.
    assert (x = y) as ->.
    { change (QArith_base.Qcompare (QArith_base.inject_Z x) (QArith_base.inject_Z y) = Eq) in He.
      unfold QArith_base.Qcompare in He. simpl in He. rewrite !Z.mul_1_r in He.
      by apply Z.compare_eq_iff in He. }
    rewrite Z.compare_refl. apply IH.
  - assert (x ?= y <> Eq) as Hne.
    { intros ->%Z.compare_eq_iff. by rewrite py_eqb_refl in E. }
    unfold QArith_base.Qcompare. simpl. rewrite !Z.mul_1_r. by destruct (x ?= y).
Qed.

(** ** The loop of [normalize_cdc_batch] *)

Section normalize_lemmas.
Context `{PyRuntime} (content_hash : CDCEvent -> string).
Implicit Types (lower : option CDCCheckpoint) (upper : CDCCheckpoint) (e f : CDCEvent).

(** At or below the frozen upper checkpoint. *)
Definition within_upper upper e : Prop :=
  exists u, position_for upper (sp_partition (ev_position e)) = Some u /\
            zs_leb (sp_values (ev_position e)) u = true.

Definition same_content e f : Prop :=
  ev_event_id e = ev_event_id f /\ content_hash e = content_hash f.

(** [firsts] are the processed events that are not duplicates, [committed] those among them
    at or below the lower checkpoint. *)
Record normalize_inv lower upper (done : list CDCEvent) (s : normalize_state)
    (firsts committed : list CDCEvent) : Prop := {
  ni_cover : Forall (fun e => exists f, f ∈ firsts /\ same_content e f) done;
  ni_firsts : firsts ⊆ done;
  ni_ids i h : ns_seen_ids s !! i = Some h <->
    exists f, f ∈ firsts /\ ev_event_id f = i /\ content_hash f = h;
  ni_positions k i h : ns_seen_positions s !! k = Some (i, h) <->
    exists f, f ∈ firsts /\ position_key f = k /\ ev_event_id f = i /\ content_hash f = h;
  ni_distinct : NoDup (map position_key firsts);
  ni_keys k p : ns_key_partitions s !! k = Some p <->
    exists a, a ∈ ns_accepted s /\ key_hash a = k /\ sp_partition (ev_position a) = p;
  ni_split : firsts ≡ₚ ns_accepted s ++ committed;
  ni_accepted : Forall (fun e => at_or_below lower e = false) (ns_accepted s);
  ni_committed : Forall (fun e => at_or_below lower e = true) committed;
  ni_upper : Forall (within_upper upper) firsts;
  ni_count : length done = (length (ns_accepted s) + ns_duplicates s + ns_committed s)%nat;
  ni_count_committed : length committed = ns_committed s
}.

Lemma normalize_inv_init lower upper : normalize_inv lower upper [] normalize_init [] [].
Proof.
  split; try done; try constructor; try constructor; simpl; rewrite ?lookup_empty; try done;
    by intros (? & ?%elem_of_nil & _).
Qed.

Lemma within_upper_iff upper e :
  within_upper upper e <->
  match position_for upper (sp_partition (ev_position e)) with
  | Some u => zs_ltb u (sp_values (ev_position e)) = false
  | None => False
  end.
Proof.
  unfold within_upper, zs_leb. destruct (position_for _ _) as [u|]; split.
  - intros (? & [= <-] & Hu). by apply negb_true_iff.
  - intros Hu. exists u. split; [done|]. by apply negb_true_iff.
  - by intros (? & ? & _).
  - done.
Qed.

(** A new event joins the events seen so far. *)
Lemma seen_insert_ids (firsts : list CDCEvent) (m : gmap string string) event :
  m !! ev_event_id event = None ->
  (forall i h, m !! i = Some h <-> exists f, f ∈ firsts /\ ev_event_id f = i /\ content_hash f = h) ->
  forall i h, <[ev_event_id event := content_hash event]> m !! i = Some h <->
    exists f, f ∈ firsts ++ [event] /\ ev_event_id f = i /\ content_hash f = h.
Proof.
  intros Hfresh Hm i h. setoid_rewrite elem_of_app. setoid_rewrite list_elem_of_singleton.
  destruct (decide (i = ev_event_id event)) as [->|Hne].
  - rewrite lookup_insert_eq. split.
    + intros [= <-]. eauto.
    + intros (f & [Hf| ->] & Hi & <-); [|done]. exfalso.
      assert (m !! ev_event_id event = Some (content_hash f)) by (apply Hm; eauto). congruence.
  - rewrite lookup_insert_ne by done. rewrite Hm. split.
    + intros (f & ? & ? & ?). eauto.
    + intros (f & [Hf| ->] & ? & ?); [eauto|congruence].
Qed.

Lemma seen_insert_positions (firsts : list CDCEvent) (m : gmap (string * list Z) (string * string)) event :
  m !! position_key event = None ->
  (forall k i h, m !! k = Some (i, h) <->
     exists f, f ∈ firsts /\ position_key f = k /\ ev_event_id f = i /\ content_hash f = h) ->
  forall k i h, <[position_key event := (ev_event_id event, content_hash event)]> m !! k = Some (i, h) <->
    exists f, f ∈ firsts ++ [event] /\ position_key f = k /\ ev_event_id f = i /\ content_hash f = h.
Proof.
  intros Hfresh Hm k i h. setoid_rewrite elem_of_app. setoid_rewrite list_elem_of_singleton.
  destruct (decide (k = position_key event)) as [->|Hne].
  - rewrite lookup_insert_eq. split.
    + intros [= <- <-]. eauto 7.
    + intros (f & [Hf| ->] & Hk & <- & <-); [|done]. exfalso.
      assert (m !! position_key event = Some (ev_event_id f, content_hash f))
        by (apply Hm; eauto). congruence.
  - rewrite lookup_insert_ne by done. rewrite Hm. split.
    + intros (f & ? & ? & ? & ?). eauto 7.
    + intros (f & [Hf| ->] & ? & ? & ?); [eauto 6|congruence].
Qed.

Lemma keys_insert (accepted : list CDCEvent) (m : gmap string string) event :
  (forall p, m !! key_hash event = Some p -> p = sp_partition (ev_position event)) ->
  (forall k p, m !! k = Some p <->
     exists a, a ∈ accepted /\ key_hash a = k /\ sp_partition (ev_position a) = p) ->
  forall k p, <[key_hash event := sp_partition (ev_position event)]> m !! k = Some p <->
    exists a, a ∈ accepted ++ [event] /\ key_hash a = k /\ sp_partition (ev_position a) = p.
Proof.
  intros Hcons Hm k p. setoid_rewrite elem_of_app. setoid_rewrite list_elem_of_singleton.
  destruct (decide (k = key_hash event)) as [->|Hne].
  - rewrite lookup_insert_eq. split.
    + intros [= <-]. eauto.
    + intros (f & [Hf| ->] & Hk & <-); [|done].
      f_equal. symmetry. apply Hcons, Hm. eauto.
  - rewrite lookup_insert_ne by done. rewrite Hm. split.
    + intros (f & ? & ? & ?). eauto.
    + intros (f & [Hf| ->] & ? & ?); [eauto|congruence].
Qed.

(** One iteration: a duplicate, or a new event that is within the window and either already
    committed or accepted. *)
Lemma normalize_step_cases lower upper done s1 firsts committed event s2 :
  normalize_inv lower upper done s1 firsts committed ->
  normalize_step content_hash lower upper s1 event = Ok s2 ->
  exists firsts' committed', normalize_inv lower upper (done ++ [event]) s2 firsts' committed'.
Proof.
  intros [Hcov Hsub Hids Hpos Hdis Hkeys Hsplit Hacc Hcom Hup Hcnt Hcc] Hstep.
  unfold normalize_step in Hstep.
  destruct (ns_seen_ids s1 !! ev_event_id event) as [h|] eqn:Eid.
  { destruct (String.eqb h (content_hash event)) eqn:Eh; [|done]. apply String.eqb_eq in Eh as ->.
    injection Hstep as <-. exists firsts, committed. apply Hids in Eid as (f & Hf & Hi & Hh).
    split; simpl; try done.
    - apply Forall_app. split; [done|]. repeat constructor. exists f. by repeat split.
    - intros f' Hf'. apply elem_of_app. left. by apply Hsub.
    - rewrite length_app. simpl. lia. }
  apply bind_Ok in Hstep as (seen & Hseen & Hstep).
  assert (ns_seen_positions s1 !! position_key event = None /\
    seen = <[position_key event := (ev_event_id event, content_hash event)]> (ns_seen_positions s1))
    as [Hfresh ->].
  { destruct (ns_seen_positions s1 !! position_key event) as [[i h]|] eqn:Ep; [|by injection Hseen as <-].
    destruct (String.eqb i (ev_event_id event)) eqn:Ei; [|done]. apply String.eqb_eq in Ei as ->.
    exfalso. apply Hpos in Ep as (f & Hf & _ & Hi & Hh).
    assert (ns_seen_ids s1 !! ev_event_id event = Some (content_hash f)) by (apply Hids; eauto).
    congruence. }
  pose proof (seen_insert_ids firsts _ event Eid Hids) as Hids'.
  pose proof (seen_insert_positions firsts _ event Hfresh Hpos) as Hpos'.
  assert (position_key event ∉ map position_key firsts) as Hnew.
  { intros (f & Hk & Hf)%list_elem_of_fmap.
    assert (ns_seen_positions s1 !! position_key event = Some (ev_event_id f, content_hash f))
      by (apply Hpos; eauto). congruence. }
  assert (NoDup (map position_key (firsts ++ [event]))) as Hdis'.
  { rewrite map_app. apply NoDup_app. split; [done|]. split; [|apply NoDup_singleton].
    simpl. intros k Hk ->%list_elem_of_singleton. done. }
  assert (Forall (fun e => exists f, f ∈ firsts ++ [event] /\ same_content e f) (done ++ [event])) as Hcov'.
  { apply Forall_app. split.
    - eapply Forall_impl; [exact Hcov|]. intros e (f & Hf & Hs). exists f. split; [|done].
      apply elem_of_app. by left.
    - repeat constructor. exists event. split; [|by split]. apply elem_of_app. right. left. }
  assert (firsts ++ [event] ⊆ done ++ [event]) as Hsub'.
  { intros f [Hf|Hf]%elem_of_app; apply elem_of_app; [left; by apply Hsub|by right]. }
  destruct (position_for upper _) as [u|] eqn:Eu; [|done].
  destruct (zs_ltb u _) eqn:Elt; [done|].
  assert (Forall (within_upper upper) (firsts ++ [event])) as Hup'.
  { apply Forall_app. split; [done|]. repeat constructor. apply within_upper_iff. by rewrite Eu. }
  destruct (at_or_below lower event) eqn:Elow.
  - injection Hstep as <-. exists (firsts ++ [event]), (committed ++ [event]).
    split; simpl; try done.
    + by rewrite Hsplit, app_assoc.
    + apply Forall_app. split; [done|]. by repeat constructor.
    + rewrite length_app. simpl. lia.
    + rewrite length_app. simpl. lia.
  - destruct (match ns_key_partitions s1 !! key_hash event with Some _ => _ | None => _ end) eqn:Ek; [done|].
    injection Hstep as <-. exists (firsts ++ [event]), committed.
    split; simpl; try done.
    + apply keys_insert; [|done]. intros p Hp. rewrite Hp in Ek.
      by apply negb_false_iff, String.eqb_eq in Ek.
    + rewrite Hsplit. rewrite <-!app_assoc. apply Permutation_app_head, Permutation_app_comm.
    + apply Forall_app. split; [done|]. by repeat constructor.
    + rewrite !length_app. simpl. lia.
Qed.

Lemma normalize_loop lower upper events s :
  foldM (normalize_step content_hash lower upper) normalize_init events = Ok s ->
  exists firsts committed, normalize_inv lower upper events s firsts committed.
Proof.
  intros Hf. refine (foldM_ind _ (fun done s => exists firsts committed,
    normalize_inv lower upper done s firsts committed) _ _ _ Hf _ _).
  - exists [], []. apply normalize_inv_init.
  - intros done e s1 s2 _ (firsts & committed & Hinv) Hstep. by eapply normalize_step_cases.
Qed.
End normalize_lemmas.

(** ** The order of the batch *)

(** Source order: partitions by name, positions inside a partition. *)
Definition source_lt (a b : CDCEvent) : Prop :=
  String.compare (sp_partition (ev_position a)) (sp_partition (ev_position b)) = Lt \/
  (sp_partition (ev_position a) = sp_partition (ev_position b) /\
   zs_cmp (sp_values (ev_position a)) (sp_values (ev_position b)) = Lt).

Lemma event_leb_iff a b :
  event_leb a b = true <->
  source_lt a b \/ (position_key a = position_key b /\ str_leb (ev_event_id a) (ev_event_id b) = true).
Proof.
  unfold event_leb, source_lt, position_key.
  destruct (String.compare (sp_partition (ev_position a)) _) eqn:E1.
  - apply str_compare_Eq in E1 as E1'. rewrite E1'.
    destruct (zs_cmp _ _) eqn:E2.
    + apply zs_cmp_Eq in E2 as ->. split; [auto|]. intros [[?|[_ ?]]|[_ ?]]; done.
    + split; auto.
    + split; [done|]. intros [[?|[_ ?]]|[[= Hv] _]]; [done..|].
      rewrite Hv in E2. by rewrite (proj2 (zs_cmp_Eq _ _) eq_refl) in E2.
  - split; auto.
  - split; [done|]. intros [[?|[Hp _]]|[[= Hp _] _]]; [done|..];
      rewrite Hp in E1; by rewrite (proj2 (str_compare_Eq _ _) eq_refl) in E1.
Qed.

Lemma source_lt_trans a b c : source_lt a b -> source_lt b c -> source_lt a c.
Proof.
  unfold source_lt. intros [H1|[E1 H1]] [H2|[E2 H2]].
  - left. by eapply str_compare_Lt_trans.
  - left. by rewrite <-E2.
  - left. by rewrite E1.
  - right. split; [congruence|]. by eapply zs_cmp_Lt_trans.
Qed.

Lemma source_lt_key a b c : position_key a = position_key b -> source_lt a c <-> source_lt b c.
Proof. unfold position_key, source_lt. intros [= -> ->]. done. Qed.

Lemma source_lt_key_r a b c : position_key a = position_key b -> source_lt c a <-> source_lt c b.
Proof. unfold position_key, source_lt. intros [= -> ->]. done. Qed.

Lemma source_lt_irrefl a b : position_key a = position_key b -> ~ source_lt a b.
Proof.
  unfold position_key, source_lt. intros [= -> ->] [Hl|[_ Hl]].
  - by rewrite (proj2 (str_compare_Eq _ _) eq_refl) in Hl.
  - by rewrite (proj2 (zs_cmp_Eq _ _) eq_refl) in Hl.
Qed.

Lemma source_total a b : source_lt a b \/ position_key a = position_key b \/ source_lt b a.
Proof.
  unfold source_lt, position_key.
  destruct (String.compare (sp_partition (ev_position a)) (sp_partition (ev_position b))) eqn:E1.
  - apply str_compare_Eq in E1 as E1'. rewrite E1'.
    pose proof (zs_cmp_antisym (sp_values (ev_position a)) (sp_values (ev_position b))) as Ha.
    destruct (zs_cmp (sp_values (ev_position a)) _) eqn:E2.
    + apply zs_cmp_Eq in E2 as ->. auto.
    + auto.
    + right. right. by right.
  - auto.
  - right. right. left. rewrite String.compare_antisym, E1. done.
Qed.

Lemma event_leb_total a b : event_leb a b = true \/ event_leb b a = true.
Proof.
  rewrite !event_leb_iff. destruct (source_total a b) as [?|[Hk|?]]; auto.
  destruct (str_leb_total (ev_event_id a) (ev_event_id b)); auto.
Qed.

Lemma event_leb_trans a b c : event_leb a b = true -> event_leb b c = true -> event_leb a c = true.
Proof.
  rewrite !event_leb_iff. intros [H1|[K1 S1]] [H2|[K2 S2]].
  - left. by eapply source_lt_trans.
  - left. by rewrite <-(source_lt_key_r b c).
  - left. by rewrite (source_lt_key a b).
  - right. split; [congruence|]. by eapply str_leb_trans.
Qed.

Lemma event_leb_distinct a b : event_leb a b = true -> position_key a <> position_key b -> source_lt a b.
Proof. rewrite event_leb_iff. intros [?|[? _]]; done. Qed.

(** Sorting events whose positions are pairwise different. *)
Lemma sort_events_strict l :
  NoDup (map position_key l) -> StronglySorted source_lt (sort_by event_leb l).
Proof.
  intros Hnd. rewrite <-(sort_by_perm event_leb l) in Hnd.
  pose proof (sort_by_sorted event_leb event_leb_total event_leb_trans l) as Hs.
  induction Hs as [|x s Hs IH Hall]; [constructor|]. simpl in Hnd.
  apply NoDup_cons in Hnd as [Hx Hnd]. constructor; [by apply IH|].
  rewrite Forall_forall in *. intros y Hy. apply event_leb_distinct; [by apply Hall|].
  intros Hk. apply Hx. rewrite Hk. by apply list_elem_of_fmap_2.
Qed.

Lemma sort_events_perm l1 l2 :
  NoDup (map position_key l1) -> l1 ≡ₚ l2 -> sort_by event_leb l1 = sort_by event_leb l2.
Proof.
  intros Hnd Hp.
  apply (StronglySorted_unique_strong source_lt).
  - intros x y _ _ H1 H2. exfalso. eapply (source_lt_irrefl x x); [done|by eapply source_lt_trans].
  - by apply sort_events_strict.
  - apply sort_events_strict. by rewrite <-Hp.
  - by rewrite !sort_by_perm.
Qed.

(** ** Properties *)

Section normalize_properties.
Context `{PyRuntime} (content_hash : CDCEvent -> string).

Lemma normalize_Ok events upper lower complete b :
  normalize_cdc_batch content_hash events upper lower complete = Ok b ->
  complete = true /\ _validate_window lower upper = Ok tt /\
  exists s firsts committed,
    foldM (normalize_step content_hash lower upper) normalize_init events = Ok s /\
    normalize_inv content_hash lower upper events s firsts committed /\
    b = {| nb_events := sort_by event_leb (ns_accepted s); nb_lower_checkpoint := lower;
           nb_upper_checkpoint := upper; nb_duplicate_events_ignored := ns_duplicates s;
           nb_already_committed_events_ignored := ns_committed s |}.
Proof.
  unfold normalize_cdc_batch. destruct complete; [|done]. cbn [negb].
  intros ([] & Hw & (s & Hs & [= <-])%bind_Ok)%bind_Ok. split; [done|]. split; [done|].
  destruct (normalize_loop _ _ _ _ _ Hs) as (firsts & committed & Hinv). by exists s, firsts, committed.
Qed.

Lemma normalize_exact events upper lower complete b :
  normalize_cdc_batch content_hash events upper lower complete = Ok b ->
  complete = true /\
  StronglySorted source_lt (nb_events b) /\
  Forall (fun e => e ∈ events /\ at_or_below lower e = false /\ within_upper upper e) (nb_events b) /\
  (forall e1 e2, e1 ∈ nb_events b -> e2 ∈ nb_events b -> key_hash e1 = key_hash e2 ->
     sp_partition (ev_position e1) = sp_partition (ev_position e2)) /\
  Forall (fun e => exists f, same_content content_hash e f /\
            (f ∈ nb_events b \/ f ∈ events /\ at_or_below lower f = true)) events /\
  length events = (length (nb_events b) + nb_duplicate_events_ignored b
                   + nb_already_committed_events_ignored b)%nat.
Proof.
  intros (-> & _ & s & firsts & committed & _ & Hinv & ->)%normalize_Ok. simpl.
  destruct Hinv as [Hcov Hsub _ _ Hdis Hkeys Hsplit Hacc Hcom Hup Hcnt Hcc].
  split; [done|]. rewrite length_sort_by. split; [|split; [|split; [|split]]]; [| | | |done].
  - apply sort_events_strict. rewrite Hsplit, map_app in Hdis. by apply NoDup_app in Hdis as [? _].
  - apply Forall_forall. intros e He%elem_of_sort_by. rewrite Forall_forall in Hacc, Hup.
    assert (e ∈ firsts) as Hf by (rewrite Hsplit; apply elem_of_app; by left). auto.
  - intros e1 e2 H1%elem_of_sort_by H2%elem_of_sort_by Hk.
    assert (forall e, e ∈ ns_accepted s ->
      ns_key_partitions s !! key_hash e = Some (sp_partition (ev_position e))) as Hlook
      by (intros e He; apply Hkeys; eauto).
    pose proof (Hlook _ H1). pose proof (Hlook _ H2). congruence.
  - eapply Forall_impl; [exact Hcov|]. intros e (f & Hf & Hs). exists f. split; [done|].
    pose proof (Hsub _ Hf) as Hfe. rewrite Hsplit in Hf. apply elem_of_app in Hf as [Hf|Hf].
    + left. by apply elem_of_sort_by.
    + right. rewrite Forall_forall in Hcom. auto.
Qed.

(** C26. An accepted CDC batch is strictly ordered by source position, lies above the committed
    lower checkpoint and within the frozen upper one, keeps every key in one partition, and
    loses nothing: each event of the window has its content in the batch or at or below the
    lower checkpoint, and the counters add up to the window. *)
Theorem normalized_batch_exact events upper lower complete b :
  normalize_cdc_batch content_hash events upper lower complete = Ok b ->
  complete = true /\
  StronglySorted source_lt (nb_events b) /\
  Forall (fun e => e ∈ events /\ at_or_below lower e = false /\ within_upper upper e) (nb_events b) /\
  (forall e1 e2, e1 ∈ nb_events b -> e2 ∈ nb_events b -> key_hash e1 = key_hash e2 ->
     sp_partition (ev_position e1) = sp_partition (ev_position e2)) /\
  Forall (fun e => exists f, same_content content_hash e f /\
            (f ∈ nb_events b \/ f ∈ events /\ at_or_below lower f = true)) events /\
  length events = (length (nb_events b) + nb_duplicate_events_ignored b
                   + nb_already_committed_events_ignored b)%nat.
Proof. apply normalize_exact. Qed.

(** The conditions under which a window is accepted, when equal ids and hashes identify equal
    events. *)
Definition window_ok lower upper (events : list CDCEvent) : Prop :=
  forall e f, e ∈ events -> f ∈ events ->
    (ev_event_id e = ev_event_id f -> content_hash e = content_hash f) /\
    (position_key e = position_key f -> ev_event_id e = ev_event_id f) /\
    within_upper upper e /\
    (at_or_below lower e = false -> at_or_below lower f = false -> key_hash e = key_hash f ->
     sp_partition (ev_position e) = sp_partition (ev_position f)).

Lemma window_ok_perm lower upper l1 l2 : l1 ≡ₚ l2 -> window_ok lower upper l1 -> window_ok lower upper l2.
Proof. intros Hp Hw e f. rewrite <-Hp. apply Hw. Qed.

Lemma normalize_sufficient lower upper events :
  window_ok lower upper events ->
  exists s, foldM (normalize_step content_hash lower upper) normalize_init events = Ok s.
Proof.
  intros Hw.
  assert (forall done todo s firsts committed, events = done ++ todo ->
    normalize_inv content_hash lower upper done s firsts committed ->
    exists s', foldM (normalize_step content_hash lower upper) s todo = Ok s') as Hgen.
  { intros done todo. revert done. induction todo as [|e todo IH]; intros done s firsts committed Heq Hinv;
      simpl; [by eexists|].
    assert (exists s1, normalize_step content_hash lower upper s e = Ok s1) as [s1 Hs1].
    2:{ rewrite Hs1. destruct (normalize_step_cases _ _ _ _ _ _ _ _ _ Hinv Hs1) as (f' & c' & Hinv').
        eapply (IH (done ++ [e])); [|exact Hinv']. by rewrite <-app_assoc. }
    assert (e ∈ events) as He by (rewrite Heq; apply elem_of_app; right; left).
    assert (forall f, f ∈ firsts -> f ∈ events) as Hfirsts.
    { intros f Hf. rewrite Heq. apply elem_of_app. left. by apply (ni_firsts _ _ _ _ _ _ _ Hinv). }
    unfold normalize_step.
    destruct (ns_seen_ids s !! ev_event_id e) as [h|] eqn:Eid.
    { apply (ni_ids _ _ _ _ _ _ _ Hinv) in Eid as (f & Hf & Hi & <-).
      rewrite (proj1 (Hw f e (Hfirsts f Hf) He) Hi), String.eqb_refl. by eexists. }
    destruct (ns_seen_positions s !! position_key e) as [[i h]|] eqn:Ep.
    { exfalso. apply (ni_positions _ _ _ _ _ _ _ Hinv) in Ep as (f & Hf & Hk & Hi & Hh).
      pose proof (proj1 (proj2 (Hw f e (Hfirsts f Hf) He)) Hk) as Hid.
      assert (ns_seen_ids s !! ev_event_id e = Some (content_hash f)).
      { apply (ni_ids _ _ _ _ _ _ _ Hinv). eauto. } congruence. }
    destruct (Hw e e He He) as (_ & _ & Hu & _). apply within_upper_iff in Hu. cbn [mbind res_bind].
    destruct (position_for upper _) as [u|]; [|done]. rewrite Hu.
    destruct (at_or_below lower e) eqn:El; [by eexists|].
    destruct (ns_key_partitions s !! key_hash e) as [p|] eqn:Ek; [|by eexists].
    apply (ni_keys _ _ _ _ _ _ _ Hinv) in Ek as (a & Ha & Hk & <-).
    assert (a ∈ firsts) as Haf.
    { rewrite (ni_split _ _ _ _ _ _ _ Hinv). apply elem_of_app. by left. }
    pose proof (ni_accepted _ _ _ _ _ _ _ Hinv) as Hacc. rewrite Forall_forall in Hacc.
    destruct (Hw a e (Hfirsts a Haf) He) as (_ & _ & _ & Hpart).
    rewrite (Hpart (Hacc a Ha) El Hk), String.eqb_refl. by eexists. }
  eapply (Hgen [] events); [done|apply normalize_inv_init].
Qed.

(** The content hashes identify the events of a window. *)
Definition faithful (events : list CDCEvent) : Prop :=
  forall e f, e ∈ events -> f ∈ events -> same_content content_hash e f -> e = f.

(** Then the non-duplicate events are exactly the events of the window. *)
Lemma firsts_events lower upper events s firsts committed :
  faithful events -> normalize_inv content_hash lower upper events s firsts committed ->
  NoDup firsts /\ forall e, e ∈ firsts <-> e ∈ events.
Proof.
  intros Hfaith Hi. split; [eapply NoDup_fmap_1, (ni_distinct _ _ _ _ _ _ _ Hi)|].
  intros e. split; [apply (ni_firsts _ _ _ _ _ _ _ Hi)|].
  intros He. pose proof (ni_cover _ _ _ _ _ _ _ Hi) as Hc. rewrite Forall_forall in Hc.
  destruct (Hc e He) as (f & Hf & Hsame).
  rewrite (Hfaith e f); [done|done| |done]. by apply (ni_firsts _ _ _ _ _ _ _ Hi).
Qed.

Lemma normalize_window_ok lower upper events s firsts committed :
  faithful events -> normalize_inv content_hash lower upper events s firsts committed ->
  window_ok lower upper events.
Proof.
  intros Hfaith Hinv. destruct (firsts_events _ _ _ _ _ _ Hfaith Hinv) as [_ Hin].
  destruct Hinv as [_ _ Hids Hpos _ Hkeys Hsplit _ Hcom Hup _ _].
  intros e f He%Hin Hf%Hin. split; [|split; [|split]].
  - intros Hi.
    assert (ns_seen_ids s !! ev_event_id e = Some (content_hash e)) by (apply Hids; eauto).
    assert (ns_seen_ids s !! ev_event_id f = Some (content_hash f)) by (apply Hids; eauto). congruence.
  - intros Hk.
    assert (ns_seen_positions s !! position_key e = Some (ev_event_id e, content_hash e)) by (apply Hpos; eauto).
    assert (ns_seen_positions s !! position_key f = Some (ev_event_id f, content_hash f)) by (apply Hpos; eauto).
    congruence.
  - rewrite Forall_forall in Hup. auto.
  - intros He' Hf' Hk.
    assert (forall a, a ∈ firsts -> at_or_below lower a = false -> a ∈ ns_accepted s) as Hacc.
    { intros a Ha Hal. rewrite Hsplit, elem_of_app in Ha. destruct Ha as [|Ha]; [done|].
      rewrite Forall_forall in Hcom. by rewrite Hcom in Hal. }
    assert (ns_key_partitions s !! key_hash e = Some (sp_partition (ev_position e))) by (apply Hkeys; eauto).
    assert (ns_key_partitions s !! key_hash f = Some (sp_partition (ev_position f))) by (apply Hkeys; eauto).
    congruence.
Qed.

Lemma inv_filters lower upper events s firsts committed :
  normalize_inv content_hash lower upper events s firsts committed ->
  ns_accepted s ≡ₚ filter (fun e => at_or_below lower e = false) firsts /\
  committed ≡ₚ filter (fun e => at_or_below lower e = true) firsts.
Proof.
  intros [_ _ _ _ _ _ Hsp Ha Hc _ _ _]. rewrite Hsp, !filter_app. split.
  - rewrite (filter_all _ (ns_accepted s)), (filter_none _ committed); [by rewrite app_nil_r| |done].
    eapply Forall_impl; [exact Hc|]. simpl. intros x ->. done.
  - rewrite (filter_none _ (ns_accepted s)), (filter_all _ committed); [done|done|].
    eapply Forall_impl; [exact Ha|]. simpl. intros x ->. done.
Qed.

(** The normalised batch does not depend on the order in which the provider delivers the
    window, its content hashes being faithful on the window. *)
Theorem normalize_order_independent events events' upper lower complete b :
  faithful events -> events ≡ₚ events' ->
  normalize_cdc_batch content_hash events upper lower complete = Ok b ->
  normalize_cdc_batch content_hash events' upper lower complete = Ok b.
Proof.
  intros Hfaith Hp (-> & Hval & s & firsts & committed & Hs & Hinv & ->)%normalize_Ok.
  assert (faithful events') as Hfaith' by (intros e f; rewrite <-Hp; apply Hfaith).
  destruct (normalize_sufficient lower upper events') as [s' Hs'].
  { eapply window_ok_perm; [done|]. by eapply normalize_window_ok. }
  destruct (normalize_loop _ _ _ _ _ Hs') as (firsts' & committed' & Hinv').
  destruct (firsts_events _ _ _ _ _ _ Hfaith Hinv) as [Hnd Hin].
  destruct (firsts_events _ _ _ _ _ _ Hfaith' Hinv') as [Hnd' Hin'].
  assert (firsts ≡ₚ firsts') as Hff
    by (apply NoDup_Permutation; [done..|]; intros e; by rewrite Hin, Hin', Hp).
  destruct (inv_filters _ _ _ _ _ _ Hinv) as [Ha Hc].
  destruct (inv_filters _ _ _ _ _ _ Hinv') as [Ha' Hc'].
  assert (ns_accepted s ≡ₚ ns_accepted s') as Hacc by (by rewrite Ha, Ha', Hff).
  assert (committed ≡ₚ committed') as Hcc by (by rewrite Hc, Hc', Hff).
  pose proof (ni_count _ _ _ _ _ _ _ Hinv) as C1. pose proof (ni_count _ _ _ _ _ _ _ Hinv') as C2.
  pose proof (ni_count_committed _ _ _ _ _ _ _ Hinv) as D1.
  pose proof (ni_count_committed _ _ _ _ _ _ _ Hinv') as D2.
  rewrite Hp, Hacc in C1. rewrite Hcc in D1.
  unfold normalize_cdc_batch. simpl. rewrite Hval. cbn [mbind res_bind]. rewrite Hs'. cbn [mbind res_bind].
  f_equal. f_equal; [|lia|lia].
  symmetry. apply sort_events_perm; [|done]. pose proof (ni_distinct _ _ _ _ _ _ _ Hinv) as Hd.
  rewrite (ni_split _ _ _ _ _ _ _ Hinv), map_app in Hd. by apply NoDup_app in Hd as [? _].
Qed.
End normalize_properties.

(** ** Checkpoints *)

Lemma position_for_Some c p v :
  position_for c p = Some v -> {| sp_partition := p; sp_values := v |} ∈ c.
Proof.
  unfold position_for. destruct (list_find _ c) as [[i item]|] eqn:E; [|done]. intros [= <-].
  apply list_find_Some in E as (Hi & <- & _). destruct item. by eapply list_elem_of_lookup_2.
Qed.

Lemma position_for_elem c p v :
  NoDup (map sp_partition c) -> {| sp_partition := p; sp_values := v |} ∈ c -> position_for c p = Some v.
Proof.
  intros Hnd Hin. unfold position_for.
  destruct (list_find (fun item => sp_partition item = p) c) as [[i item]|] eqn:E.
  - apply list_find_Some in E as (Hi & Hp & _). apply list_elem_of_lookup in Hin as [j Hj].
    assert (i = j) as ->; [|rewrite Hi in Hj; by injection Hj as ->].
    apply (NoDup_lookup (sp_partition <$> c) i j p); [done|..];
      rewrite list_lookup_fmap, ?Hi, ?Hj; simpl; congruence.
  - apply list_find_None in E. rewrite Forall_forall in E. by apply E in Hin.
Qed.

Lemma check_no_regress_Ok before after d r :
  check_no_regress before after d r = Ok tt ->
  forall p v, position_for before p = Some v ->
    exists v', position_for after p = Some v' /\ zs_leb v v' = true.
Proof.
  intros H p v Hp%position_for_Some. induction before as [|q before IH]; simpl in H.
  { by apply elem_of_nil in Hp. }
  destruct (position_for after (sp_partition q)) as [n|] eqn:E; [|done].
  destruct (zs_ltb n (sp_values q)) eqn:El; [done|].
  apply elem_of_cons in Hp as [<-|Hp]; [|by apply IH]. simpl in *.
  exists n. split; [done|]. unfold zs_leb. by rewrite El.
Qed.

(** A chain of checkpoint transitions: each starts where the previous one ended. *)
Fixpoint checkpoint_chain (c : CDCCheckpoint) (ts : list CDCCheckpointTransition) : Prop :=
  match ts with
  | [] => True
  | t :: ts' => ct_before t = Some c /\ validate_transition t = Ok tt /\ checkpoint_chain (ct_after t) ts'
  end.

Definition checkpoint_end (c : CDCCheckpoint) (ts : list CDCCheckpointTransition) : CDCCheckpoint :=
  default c (ct_after <$> last ts).

(** Along any chain of accepted checkpoint transitions no partition is dropped and none moves
    backwards, and the checkpoint changes only if some transition had an open commit gate. *)
Theorem checkpoint_chain_monotone c ts :
  checkpoint_chain c ts ->
  (forall p v, position_for c p = Some v ->
     exists v', position_for (checkpoint_end c ts) p = Some v' /\ zs_leb v v' = true) /\
  (checkpoint_end c ts <> c -> exists t, t ∈ ts /\ can_advance_state (ct_gate t) = true).
Proof.
  revert c. induction ts as [|t ts IH]; intros c; simpl.
  - intros _. split; [|done]. intros p v Hp. exists v. split; [done|apply zs_leb_refl].
  - intros (Hb & Hv & Hc). destruct (IH _ Hc) as [IH1 IH2].
    replace (checkpoint_end c (t :: ts)) with (checkpoint_end (ct_after t) ts)
      by (unfold checkpoint_end; rewrite last_cons; by destruct (last ts)).
    unfold validate_transition in Hv. rewrite Hb in Hv. apply bind_Ok in Hv as ([] & Hn & Hg).
    split.
    + intros p v Hp. destruct (check_no_regress_Ok _ _ _ _ Hn p v Hp) as (v1 & H1 & L1).
      destruct (IH1 p v1 H1) as (v2 & H2 & L2). exists v2. split; [done|]. by eapply zs_leb_trans.
    + intros Hne. destruct (can_advance_state (ct_gate t)) eqn:Eg.
      { exists t. split; [left|exact Eg]. }
      rewrite andb_true_r in Hg. case_bool_decide as Heq; [|done].
      rewrite Heq in Hne, IH2. destruct IH2 as (t' & Ht' & Hg'); [done|]. exists t'. split; [by right|done].
Qed.

Lemma mapM_res_total {A B} (f : A -> res B) (g : A -> B) l :
  (forall a, a ∈ l -> f a = Ok (g a)) -> mapM_res f l = Ok (map g l).
Proof.
  induction l as [|a l IH]; intros Hf; simpl; [done|].
  rewrite (Hf a) by left. rewrite IH; [done|]. intros. apply Hf. by right.
Qed.

(** A checkpoint built from valid positions is accepted, and looking a partition up in it gives
    back the position it was built from. *)
Theorem build_checkpoint_roundtrip (positions : gmap string (list Z)) :
  (forall p v, positions !! p = Some v ->
     validate_values {| sp_partition := p; sp_values := v |} = Ok tt) ->
  exists c, build_cdc_checkpoint positions = Ok c /\ validate_positions c = Ok tt /\
    forall p, position_for c p = positions !! p.
Proof.
  intros Hvalid.
  set (mk := fun kv : string * list Z => {| sp_partition := kv.1; sp_values := kv.2 |}).
  set (items := sort_on fst (map_to_list positions)).
  assert (forall kv, kv ∈ items <-> positions !! kv.1 = Some kv.2) as Hitems.
  { intros [p v]. unfold items. rewrite elem_of_sort_on. apply elem_of_map_to_list. }
  exists (map mk items).
  assert (map sp_partition (map mk items) = map fst items) as Hparts by by rewrite map_map.
  assert (NoDup (map fst items)) as Hnd.
  { unfold items. rewrite (sort_on_perm fst). apply NoDup_fst_map_to_list. }
  assert (validate_positions (map mk items) = Ok tt) as Hv.
  { unfold validate_positions, unique. rewrite Hparts, bool_decide_true by done. cbn [negb].
    rewrite bool_decide_true; [done|]. symmetry. apply sort_by_id.
    assert (StronglySorted (fun a b : string * list Z => str_leb a.1 b.1 = true) items) as Hs
      by apply sort_on_sorted.
    clear -Hs. induction Hs as [|x l Hs IH Hall]; simpl; constructor; [done|].
    apply Forall_forall. intros y (z & -> & Hz)%list_elem_of_fmap.
    rewrite Forall_forall in Hall. by apply Hall. }
  split; [|split; [done|]].
  - unfold build_cdc_checkpoint. fold items. rewrite (mapM_res_total _ mk).
    + cbn [mbind res_bind]. by rewrite Hv.
    + intros kv Hkv. simpl. rewrite Hvalid; [done|]. by apply Hitems.
  - intros p. destruct (positions !! p) as [v|] eqn:E.
    + apply position_for_elem; [by rewrite Hparts|]. apply list_elem_of_fmap. exists (p, v).
      split; [done|]. by apply Hitems.
    + destruct (position_for (map mk items) p) as [v|] eqn:E2; [|done]. exfalso.
      apply position_for_Some, list_elem_of_fmap in E2 as ([p' v'] & Heq & Hin).
      unfold mk in Heq. simplify_eq/=. apply Hitems in Hin. simpl in Hin. congruence.
Qed.

(** ** Witnesses *)

Definition demo_event (id : string) (op : CDCOperation) (k : Z) (pos : list Z) (v : Z) : CDCEvent :=
  {| ev_event_id := id; ev_operation := op; ev_key := {[ "id" := VInt k ]};
     ev_position := {| sp_partition := "p0"; sp_values := pos |}; ev_before := None;
     ev_after := if decide (op = CDC_DELETE) then None else Some {[ "id" := VInt k; "v" := VInt v ]};
     ev_event_time := Some (utc v); ev_transaction_id := None; ev_metadata := ∅ |}.

Definition demo_content (e : CDCEvent) : string :=
  ev_event_id e +:+ pretty.pretty (dt_us (default (utc 0) (ev_event_time e))).

Definition demo_lower : CDCCheckpoint := [{| sp_partition := "p0"; sp_values := [5; 0] |}].
Definition demo_upper : CDCCheckpoint := [{| sp_partition := "p0"; sp_values := [9; 9] |}].

Definition demo_window : list CDCEvent :=
  [demo_event "e3" CDC_DELETE 2 [7; 1] 30; demo_event "e1" CDC_INSERT 1 [6; 0] 10;
   demo_event "e0" CDC_UPDATE 1 [5; 0] 5; demo_event "e1" CDC_INSERT 1 [6; 0] 10;
   demo_event "e2" CDC_UPDATE 1 [6; 1] 20].

Definition demo_cdc_batch : CDCNormalizedBatch :=
  match @normalize_cdc_batch demo_runtime demo_content demo_window demo_upper (Some demo_lower) true with
  | Ok b => b
  | Raise _ => {| nb_events := []; nb_lower_checkpoint := None; nb_upper_checkpoint := [];
                  nb_duplicate_events_ignored := 0; nb_already_committed_events_ignored := 0 |}
  end.

Lemma normalized_batch_exact_witness :
  map ev_event_id (nb_events demo_cdc_batch) = ["e1"; "e2"; "e3"] /\
  StronglySorted source_lt (nb_events demo_cdc_batch) /\
  length demo_window =
    (length (nb_events demo_cdc_batch) + nb_duplicate_events_ignored demo_cdc_batch
     + nb_already_committed_events_ignored demo_cdc_batch)%nat.
Proof.
  split; [vm_compute; reflexivity|].
  destruct (@normalized_batch_exact demo_runtime demo_content demo_window demo_upper (Some demo_lower)
              true demo_cdc_batch) as (_ & Hs & _ & _ & _ & Hc); [vm_compute; reflexivity|exact (conj Hs Hc)].
Defined.

Lemma normalize_order_independent_witness :
  @normalize_cdc_batch demo_runtime demo_content (rev demo_window) demo_upper (Some demo_lower) true =
    Ok demo_cdc_batch.
Proof.
  apply (normalize_order_independent (H := demo_runtime) demo_content demo_window).
  - assert (Forall (fun e => Forall (fun f => (ev_event_id e = ev_event_id f /\
      demo_content e = demo_content f) -> e = f) demo_window) demo_window) as Hall
      by (apply (bool_decide_unpack _); vm_compute; exact I).
    intros e f He Hf. rewrite Forall_forall in Hall. specialize (Hall e He).
    rewrite Forall_forall in Hall. exact (Hall f Hf).
  - apply Permutation_rev.
  - vm_compute. reflexivity.
Defined.

Definition demo_transition (a b : list Z) : CDCCheckpointTransition :=
  {| ct_before := Some [{| sp_partition := "p0"; sp_values := a |}];
     ct_after := [{| sp_partition := "p0"; sp_values := b |}]; ct_gate := open_gate |}.

Lemma checkpoint_chain_monotone_witness :
  exists v', position_for (checkpoint_end demo_lower
    [demo_transition [5; 0] [6]; demo_transition [6] [9; 9]]) "p0" = Some v' /\ zs_leb [5; 0] v' = true.
Proof.
  eapply (proj1 (checkpoint_chain_monotone demo_lower
    [demo_transition [5; 0] [6]; demo_transition [6] [9; 9]] _)). reflexivity.
  Unshelve. vm_compute. repeat split.
Defined.

Lemma build_checkpoint_roundtrip_witness :
  exists c, build_cdc_checkpoint {[ "p1" := [3]; "p0" := [2; 1] ]} = Ok c /\
    position_for c "p0" = Some [2; 1].
Proof.
  destruct (build_checkpoint_roundtrip {[ "p1" := [3]; "p0" := [2; 1] ]}) as (c & Hc & _ & Hl).
  - intros p v [[<- <-]|[_ [<- <-]%lookup_singleton_Some]]%lookup_insert_Some; vm_compute; reflexivity.
  - exists c. split; [done|]. rewrite Hl. vm_compute. reflexivity.
Defined.
