(* ===== verification/KafkaCdc.v ===== *)
(** * Debezium on Kafka ([adapters/cdc/debezium_kafka.py], [adapters/cdc/resume.py])

    Kafka records become CDC events of a bounded window, and the offsets to read next are derived from
    the committed CDC checkpoint.  A mapping of offsets is a finite map of integers; topics carry no
    surrounding whitespace, so that the position of a record keeps its name. *)

From stdpp Require Import base gmap strings list sorting pretty.
From Stdlib Require Import QArith.
From S2P Require Import Prelude PyText PyValue PyDict PyFloat Temporal ConfigTypes RuntimeState CdcCapture.
Close Scope Q_scope.
#[local] Open Scope Z_scope.

(** ** Records and windows *)

Inductive DebeziumSnapshotReadPolicy := SRP_ERROR | SRP_AS_INSERT.
#[export] Instance DebeziumSnapshotReadPolicy_eq_dec : EqDecision DebeziumSnapshotReadPolicy.
Proof. solve_decision. Defined.

Record DebeziumKafkaRecord := {
  dk_topic : string;
  dk_partition : Z;
  dk_offset : Z;
  dk_key : option row;
  dk_value : option row;
  dk_timestamp_ms : option Z
}.

Record DebeziumKafkaBatchResult := {
  db_normalized_batch : CDCNormalizedBatch;
  db_provider_records_seen : nat;
  db_tombstones_ignored : nat;
  db_snapshot_reads_mapped : nat
}.

Definition adapter_error {A} (site : string) : res A := raise "DebeziumKafkaAdapterError" site.

(** A dictionary as a row. *)
Definition mapping_of (items : list (string * value)) : row := list_to_map items.

Definition _unwrap_connect_payload (v : row) : row :=
  match get v "payload" with VDict payload => mapping_of payload | _ => v end.

Definition _record_partition (topic : string) (partition : Z) : string := topic +:+ ":" +:+ pretty partition.

Definition check_offset (topic : string) (entry : Z * Z) : res (string * list Z) :=
  if entry.1 <? 0 then adapter_error "Kafka partition values must be non-negative integers"
  else if entry.2 <? 0 then adapter_error "Kafka offset values must be non-negative integers"
  else Ok (_record_partition topic entry.1, [entry.2]).

Definition _checkpoint_from_offsets (topic : string) (offsets : gmap Z Z) : res CDCCheckpoint :=
  if bool_decide (offsets = ∅) then adapter_error "Debezium Kafka checkpoint requires partitions"
  else
    normalized ← mapM_res (check_offset topic) (map_to_list offsets);
    build_cdc_checkpoint (list_to_map normalized).

Definition _mapping_or_none (v : value) : res (option row) :=
  match v with
  | VNone => Ok None
  | VDict items => Ok (Some (mapping_of items))
  | _ => adapter_error "Debezium payload must be an object or null"
  end.

(** [datetime.fromtimestamp(ms / 1000, tz=timezone.utc)] for [0 <= ms]: the quotient is a float, whose
    fraction is multiplied by a million as a float and rounded half to even. *)
Definition UNIX_EPOCH_US : Z := 719162 * 86400 * 10 ^ 6.
Definition from_timestamp_ms (ms : Z) : res datetime :=
  let seconds := py_truediv ms 1000 in
  let whole := Qnum seconds / QDen seconds in
  let fraction := fmul (seconds - inject_Z whole)%Q (inject_Z (10 ^ 6)) in
  let us := whole * 10 ^ 6 + round_half_even (Qnum fraction) (QDen fraction) in
  if us <? 253402300800 * 10 ^ 6 then Ok (utc (UNIX_EPOCH_US + us))
  else raise "ValueError" "year is out of range".

Definition _event_time (envelope : row) (record : DebeziumKafkaRecord) : res (option datetime) :=
  let v := match get envelope "ts_ms" with
           | VNone => match dk_timestamp_ms record with Some ms => VInt ms | None => VNone end
           | v => v
           end in
  match v with
  | VNone => Ok None
  | VInt ms =>
    if ms <? 0 then adapter_error "Debezium ts_ms must be a non-negative integer"
    else t ← from_timestamp_ms ms; Ok (Some t)
  | _ => adapter_error "Debezium ts_ms must be a non-negative integer"
  end.

Definition _normalize_key (record : DebeziumKafkaRecord) : res row :=
  match dk_key record with
  | None => adapter_error "Debezium Kafka record requires an explicit key"
  | Some raw =>
    let key := _unwrap_connect_payload raw in
    if bool_decide (key = ∅) then adapter_error "Debezium Kafka record key cannot be empty" else Ok key
  end.

Definition _validate_record_window (record : DebeziumKafkaRecord) (topic : string) (upper_offsets : gmap Z Z) : res unit :=
  if negb (String.eqb (dk_topic record) topic) then adapter_error "mixed Debezium topics are not allowed for one dataset batch"
  else
    match upper_offsets !! dk_partition record with
    | None => adapter_error "Kafka partition is absent from upper checkpoint"
    | Some upper => raise_if (upper <? dk_offset record) "DebeziumKafkaAdapterError" "Kafka record offset exceeds frozen upper offset"
    end.

Definition operation_of (op : value) : res CDCOperation :=
  if negb (hashable op) then raise "TypeError" "unhashable type"
  else
    match op with
    | VStr "c" | VStr "r" => Ok CDC_INSERT
    | VStr "u" => Ok CDC_UPDATE
    | VStr "d" => Ok CDC_DELETE
    | _ => adapter_error "unsupported Debezium operation"
    end.

Section records.
Context `{PyRuntime}.

Definition _transaction_id (envelope : row) : res (option string) :=
  match get envelope "transaction" with
  | VNone => Ok None
  | VDict transaction =>
    match get (mapping_of transaction) "id" with VNone => Ok None | v => Ok (Some (py_str v)) end
  | VStr s => Ok (Some s)
  | _ => adapter_error "Debezium transaction metadata must be an object/string"
  end.

Definition provider_metadata (op : value) (record : DebeziumKafkaRecord) (source : value) : row :=
  let metadata : row :=
    <["provider" := VStr "debezium_kafka"]> (<["debezium_op" := op]> (<["topic" := VStr (dk_topic record)]>
    (<["kafka_partition" := VInt (dk_partition record)]> {[ "kafka_offset" := VInt (dk_offset record) ]}))) in
  match source with VNone => metadata | _ => <["source" := source]> metadata end.

(** The event of a record that is not a tombstone, and whether it is a snapshot read. *)
Definition event_of_envelope (record : DebeziumKafkaRecord) (envelope : row)
    (snapshot_read_policy : DebeziumSnapshotReadPolicy) : res (CDCEvent * bool) :=
  let op := get envelope "op" in
  operation ← operation_of op;
  let snapshot_read := bool_decide (op = VStr "r") in
  if snapshot_read && bool_decide (snapshot_read_policy = SRP_ERROR) then
    adapter_error "Debezium snapshot-read event is not accepted in CDC mode by default"
  else
    before ← _mapping_or_none (get envelope "before");
    after ← _mapping_or_none (get envelope "after");
    key ← _normalize_key record;
    let source := get envelope "source" in
    _ ← raise_if (match source with VNone | VDict _ => false | _ => true end)
      "DebeziumKafkaAdapterError" "Debezium source metadata must be an object";
    position ← make_CDCSourcePosition
      {| sp_partition := _record_partition (dk_topic record) (dk_partition record); sp_values := [dk_offset record] |};
    event_time ← _event_time envelope record;
    transaction_id ← _transaction_id envelope;
    event ← make_CDCEvent
      {| ev_event_id := _record_partition (dk_topic record) (dk_partition record) +:+ ":" +:+ pretty (dk_offset record);
         ev_operation := operation; ev_key := key; ev_position := position; ev_before := before; ev_after := after;
         ev_event_time := event_time; ev_transaction_id := transaction_id;
         ev_metadata := provider_metadata op record source |};
    Ok (event, snapshot_read).

(** A tombstone has no event. *)
Definition _normalize_record (snapshot_read_policy : DebeziumSnapshotReadPolicy) (record : DebeziumKafkaRecord) :
    res (option (CDCEvent * bool)) :=
  match dk_value record with
  | None => Ok None
  | Some v =>
    event ← event_of_envelope record (_unwrap_connect_payload v) snapshot_read_policy;
    Ok (Some event)
  end.

Record record_state := { rs_events : list CDCEvent; rs_tombstones : nat; rs_snapshot_reads : nat }.

Definition kafka_step (topic : string) (upper_offsets : gmap Z Z) (policy : DebeziumSnapshotReadPolicy)
    (s : record_state) (record : DebeziumKafkaRecord) : res record_state :=
  _ ← _validate_record_window record topic upper_offsets;
  normalized ← _normalize_record policy record;
  match normalized with
  | None => Ok {| rs_events := rs_events s; rs_tombstones := S (rs_tombstones s); rs_snapshot_reads := rs_snapshot_reads s |}
  | Some (event, snapshot_read) =>
    Ok {| rs_events := rs_events s ++ [event]; rs_tombstones := rs_tombstones s;
          rs_snapshot_reads := if snapshot_read : bool then S (rs_snapshot_reads s) else rs_snapshot_reads s |}
  end.

Context (content_hash : CDCEvent -> string).

Definition normalize_debezium_kafka_batch (records : list DebeziumKafkaRecord) (topic : string) (upper_offsets : gmap Z Z)
    (complete_through_upper : bool) (lower_offsets : option (gmap Z Z)) (policy : DebeziumSnapshotReadPolicy) :
    res DebeziumKafkaBatchResult :=
  if negb (nonempty topic) then adapter_error "topic must be non-empty"
  else
    upper_checkpoint ← _checkpoint_from_offsets topic upper_offsets;
    lower_checkpoint ← match lower_offsets with
                       | Some offsets => lower ← _checkpoint_from_offsets topic offsets; Ok (Some lower)
                       | None => Ok None
                       end;
    s ← foldM (kafka_step topic upper_offsets policy) {| rs_events := []; rs_tombstones := 0; rs_snapshot_reads := 0 |} records;
    normalized ← normalize_cdc_batch content_hash (rs_events s) upper_checkpoint lower_checkpoint complete_through_upper;
    Ok {| db_normalized_batch := normalized; db_provider_records_seen := length records;
          db_tombstones_ignored := rs_tombstones s; db_snapshot_reads_mapped := rs_snapshot_reads s |}.
End records.

(** ** Resuming *)

Inductive KafkaCursorRelation := KC_MISSING | KC_BEHIND | KC_ALIGNED | KC_AHEAD.
#[export] Instance KafkaCursorRelation_eq_dec : EqDecision KafkaCursorRelation.
Proof. solve_decision. Defined.

Record DebeziumKafkaPartitionResume := { pr_partition : Z; pr_start_offset : Z; pr_upper_offset : Z }.

Definition validate_range (r : DebeziumKafkaPartitionResume) : res DebeziumKafkaPartitionResume :=
  if (pr_partition r <? 0) || (pr_start_offset r <? 0) || (pr_upper_offset r <? 0) then bad_field
  else if pr_upper_offset r + 1 <? pr_start_offset r then raise "ValueError" "Kafka resume start cannot skip beyond upper + 1"
  else Ok r.

Definition has_work (r : DebeziumKafkaPartitionResume) : bool := pr_start_offset r <=? pr_upper_offset r.
Definition provider_commit_next_offset (r : DebeziumKafkaPartitionResume) : Z := pr_upper_offset r + 1.

Record DebeziumKafkaResumePlan := {
  rp_topic : string;
  rp_lower_checkpoint : option CDCCheckpoint;
  rp_upper_checkpoint : CDCCheckpoint;
  rp_partitions : list DebeziumKafkaPartitionResume
}.

Definition plan_has_work (plan : DebeziumKafkaResumePlan) : bool := existsb has_work (rp_partitions plan).

Definition offsets_by (f : DebeziumKafkaPartitionResume -> Z) (plan : DebeziumKafkaResumePlan) : gmap Z Z :=
  foldl (fun m r => <[pr_partition r := f r]> m) ∅ (rp_partitions plan).
Definition provider_commit_next_offsets : DebeziumKafkaResumePlan -> gmap Z Z := offsets_by provider_commit_next_offset.

Record DebeziumKafkaPartitionCursorAlignment := {
  ca_partition : Z;
  ca_framework_next_offset : Z;
  ca_consumer_group_next_offset : option Z;
  ca_relation : KafkaCursorRelation;
  ca_seek_required : bool
}.

Definition relation_of (current : option Z) (desired : Z) : KafkaCursorRelation :=
  match current with
  | None => KC_MISSING
  | Some c => if c <? desired then KC_BEHIND else if desired <? c then KC_AHEAD else KC_ALIGNED
  end.

Definition validate_relation (a : DebeziumKafkaPartitionCursorAlignment) : res DebeziumKafkaPartitionCursorAlignment :=
  if (ca_partition a <? 0) || (ca_framework_next_offset a <? 0) || (default 0 (ca_consumer_group_next_offset a) <? 0) then bad_field
  else
    let expected := relation_of (ca_consumer_group_next_offset a) (ca_framework_next_offset a) in
    if negb (bool_decide (ca_relation a = expected)) then
      raise "ValueError" "Kafka cursor relation does not match supplied offsets"
    else if negb (Bool.eqb (ca_seek_required a) (negb (bool_decide (expected = KC_ALIGNED)))) then
      raise "ValueError" "seek_required must be true unless provider cursor is aligned"
    else Ok a.

Record DebeziumKafkaCursorCoordinationPlan := {
  cc_resume : DebeziumKafkaResumePlan;
  cc_alignments : list DebeziumKafkaPartitionCursorAlignment
}.

Definition seek_offsets (plan : DebeziumKafkaCursorCoordinationPlan) : gmap Z Z :=
  foldl (fun m a => if ca_seek_required a then <[ca_partition a := ca_framework_next_offset a]> m else m) ∅ (cc_alignments plan).

Definition commit_next_offsets_after_downstream_success (plan : DebeziumKafkaCursorCoordinationPlan) : gmap Z Z :=
  provider_commit_next_offsets (cc_resume plan).

Definition committed_offset (topic : string) (result : gmap Z Z) (position : CDCSourcePosition) : res (gmap Z Z) :=
  let prefix := topic +:+ ":" in
  if negb (startswith (sp_partition position) prefix) then
    adapter_error "committed CDC checkpoint contains a different provider topic"
  else
    match parse_int (str_drop (String.length prefix) (sp_partition position)) with
    | None => adapter_error "invalid Kafka partition in CDC checkpoint"
    | Some partition =>
      match sp_values position with
      | [offset] =>
        if partition <? 0 then adapter_error "Debezium Kafka checkpoint requires one non-negative offset per partition"
        else Ok (<[partition := offset]> result)
      | _ => adapter_error "Debezium Kafka checkpoint requires one non-negative offset per partition"
      end
    end.

Definition _parse_committed_offsets (topic : string) (checkpoint : option CDCCheckpoint) : res (gmap Z Z) :=
  match checkpoint with
  | None => Ok ∅
  | Some positions => foldM (committed_offset topic) ∅ positions
  end.

(** [mapping[key]] *)
Definition offset_at (offsets : gmap Z Z) (partition : Z) : res Z :=
  match offsets !! partition with Some o => Ok o | None => raise "KeyError" "partition" end.

Definition check_evidence (earliest_offsets latest_offsets : gmap Z Z) (partition : Z) : res unit :=
  earliest ← offset_at earliest_offsets partition;
  latest ← offset_at latest_offsets partition;
  if (partition <? 0) || (earliest <? 0) || (latest <? 0) then adapter_error "Kafka values must be non-negative integers"
  else raise_if (latest + 1 <? earliest) "DebeziumKafkaAdapterError" "Kafka earliest offset cannot be beyond latest available offset + 1".

Definition _validate_provider_offsets (earliest_offsets latest_offsets : gmap Z Z) : res (gset Z) :=
  let partitions := dom earliest_offsets in
  if bool_decide (partitions = ∅) || negb (bool_decide (partitions = dom latest_offsets)) then
    adapter_error "Kafka earliest/latest offset evidence must cover the same non-empty partitions"
  else
    _ ← mapM_res (check_evidence earliest_offsets latest_offsets) (elements partitions);
    Ok partitions.

Definition check_upper (latest_offsets : gmap Z Z) (entry : Z * Z) : res unit :=
  if entry.2 <? 0 then adapter_error "requested upper offsets must be non-negative integers"
  else
    latest ← offset_at latest_offsets entry.1;
    raise_if (latest <? entry.2) "DebeziumKafkaAdapterError" "requested upper offset exceeds provider latest".

Definition plan_partition (earliest_offsets upper_offsets committed : gmap Z Z) (partition : Z) : res DebeziumKafkaPartitionResume :=
  earliest ← offset_at earliest_offsets partition;
  upper ← offset_at upper_offsets partition;
  start ← match committed !! partition with
          | Some previous =>
            let next_required := previous + 1 in
            if next_required <? earliest then raise "DebeziumKafkaResumeGapError" "Kafka retention gap"
            else if upper <? previous then adapter_error "requested upper offset regresses committed partition"
            else Ok (Z.max earliest next_required)
          | None => Ok earliest
          end;
  validate_range {| pr_partition := partition; pr_start_offset := start; pr_upper_offset := upper |}.

Definition plan_debezium_kafka_resume (topic : string) (committed_checkpoint : option CDCCheckpoint)
    (earliest_offsets latest_offsets : gmap Z Z) (requested_upper_offsets : option (gmap Z Z)) (allow_new_partitions : bool) :
    res DebeziumKafkaResumePlan :=
  if negb (nonempty topic) then adapter_error "topic must be non-empty"
  else
    provider_partitions ← _validate_provider_offsets earliest_offsets latest_offsets;
    let upper_offsets := default latest_offsets requested_upper_offsets in
    if negb (bool_decide (dom upper_offsets = provider_partitions)) then
      adapter_error "requested upper offsets must cover exactly the provider partition set"
    else
      _ ← mapM_res (check_upper latest_offsets) (map_to_list upper_offsets);
      committed ← _parse_committed_offsets topic committed_checkpoint;
      if negb (bool_decide (dom committed ⊆ provider_partitions)) then
        raise "DebeziumKafkaResumeGapError" "provider no longer exposes every partition in committed CDC state"
      else if is_some committed_checkpoint && negb (bool_decide (provider_partitions ∖ dom committed = ∅)) && negb allow_new_partitions then
        adapter_error "Kafka partition set changed after CDC state was committed"
      else
        partitions ← mapM_res (plan_partition earliest_offsets upper_offsets committed) (sort_by Z.leb (elements provider_partitions));
        upper_checkpoint ← build_cdc_checkpoint
          (list_to_map ((fun r => (_record_partition topic (pr_partition r), [pr_upper_offset r])) <$> partitions));
        Ok {| rp_topic := topic; rp_lower_checkpoint := committed_checkpoint; rp_upper_checkpoint := upper_checkpoint;
              rp_partitions := partitions |}.

Definition align (consumer_group_next_offsets : gmap Z Z) (item : DebeziumKafkaPartitionResume) :
    res DebeziumKafkaPartitionCursorAlignment :=
  let current := consumer_group_next_offsets !! pr_partition item in
  if match current with Some c => c <? 0 | None => false end then
    adapter_error "consumer-group next offsets must be non-negative integers"
  else
    let relation := relation_of current (pr_start_offset item) in
    validate_relation
      {| ca_partition := pr_partition item; ca_framework_next_offset := pr_start_offset item;
         ca_consumer_group_next_offset := current; ca_relation := relation;
         ca_seek_required := negb (bool_decide (relation = KC_ALIGNED)) |}.

Definition plan_debezium_kafka_cursor_coordination (topic : string) (committed_checkpoint : option CDCCheckpoint)
    (earliest_offsets latest_offsets consumer_group_next_offsets : gmap Z Z) (requested_upper_offsets : option (gmap Z Z))
    (allow_new_partitions : bool) : res DebeziumKafkaCursorCoordinationPlan :=
  resume ← plan_debezium_kafka_resume topic committed_checkpoint earliest_offsets latest_offsets requested_upper_offsets allow_new_partitions;
  if negb (bool_decide (dom consumer_group_next_offsets ⊆ (list_to_set (pr_partition <$> rp_partitions resume) : gset Z))) then
    adapter_error "consumer-group cursor contains partitions not present in provider evidence"
  else
    alignments ← mapM_res (align consumer_group_next_offsets) (rp_partitions resume);
    Ok {| cc_resume := resume; cc_alignments := alignments |}.

(** ** Names of partitions, checkpoints of offsets *)

Lemma app_assoc_str (a b c : string) : (a +:+ b) +:+ c = a +:+ b +:+ c.
Proof. induction a as [|x a IH]; [done|]. change (String.String x ((a +:+ b) +:+ c) = String.String x (a +:+ b +:+ c)). by rewrite IH. Qed.

#[export] Instance record_partition_inj topic : Inj (=) (=) (_record_partition topic).
Proof.
  intros p q E. apply (f_equal (str_drop (String.length topic))) in E. unfold _record_partition in E.
  rewrite !str_drop_app in E. apply (f_equal (str_drop (String.length ":"))) in E.
  rewrite !str_drop_app in E. apply (f_equal parse_int) in E.
  rewrite !parse_int_pretty in E. by injection E.
Qed.

(** The positions of the offsets. *)
Definition positions_of (topic : string) (offsets : gmap Z Z) : gmap string (list Z) :=
  kmap (_record_partition topic) ((fun o => [o]) <$> offsets).

Lemma lookup_positions topic offsets p :
  positions_of topic offsets !! _record_partition topic p = (fun o => [o]) <$> offsets !! p.
Proof. unfold positions_of. by rewrite lookup_kmap, lookup_fmap by apply _. Qed.

Lemma positions_Some topic offsets n v :
  positions_of topic offsets !! n = Some v -> exists p o, n = _record_partition topic p /\ v = [o] /\ offsets !! p = Some o.
Proof.
  intros (p & -> & (o & <- & Ho)%lookup_fmap_Some)%lookup_kmap_Some; [|apply _]. exists p, o. split_and!; done.
Qed.

Lemma positions_list topic (offsets : gmap Z Z) (l : list (string * list Z)) :
  NoDup l.*1 -> (forall n v, (n, v) ∈ l <-> exists p o, n = _record_partition topic p /\ v = [o] /\ offsets !! p = Some o) ->
  list_to_map l = positions_of topic offsets.
Proof.
  intros Hnd Hin. apply map_eq. intros n. apply option_eq. intros v. rewrite <-elem_of_list_to_map, Hin by done. split.
  - intros (p & o & -> & -> & Ho). by rewrite lookup_positions, Ho.
  - apply positions_Some.
Qed.

Lemma position_for_cons it (c : CDCCheckpoint) n :
  position_for (it :: c) n = if decide (sp_partition it = n) then Some (sp_values it) else position_for c n.
Proof.
  unfold position_for. simpl. destruct (decide (sp_partition it = n)); [done|]. by destruct (list_find _ c) as [[]|].
Qed.

(** A checkpoint of a topic: one offset per partition. *)
Definition offset_item (topic : string) (it : CDCSourcePosition) : Prop :=
  exists p o, it = {| sp_partition := _record_partition topic p; sp_values := [o] |} /\ 0 <= p.

Lemma parse_items topic c m :
  Forall (offset_item topic) c -> NoDup (map sp_partition c) ->
  exists m', foldM (committed_offset topic) m c = Ok m' /\
    forall p, m' !! p = match position_for c (_record_partition topic p) with Some [o] => Some o | _ => m !! p end.
Proof.
  revert m. induction c as [|it c IH]; intros m Hc Hnd; [by exists m|].
  apply Forall_cons in Hc as [(p0 & o0 & -> & Hp0) Hc']. cbn [map sp_partition] in Hnd. apply NoDup_cons in Hnd as [Hn Hnd].
  destruct (IH (<[p0 := o0]> m) Hc' Hnd) as (m' & Hm & Hl). exists m'. split.
  - cbn [foldM]. unfold committed_offset at 1. cbn [sp_partition sp_values].
    assert (E : _record_partition topic p0 = (topic +:+ ":") +:+ pretty p0) by (by rewrite app_assoc_str).
    rewrite E, startswith_app, str_drop_app, parse_int_pretty. cbn [negb]. rewrite (proj2 (Z.ltb_ge p0 0)) by done. exact Hm.
  - intros p. rewrite Hl, position_for_cons. cbn [sp_partition sp_values]. destruct (decide (_record_partition topic p0 = _)) as [->%(inj _)|Hne].
    + destruct (position_for c (_record_partition topic p)) as [v|] eqn:E; [|by rewrite lookup_insert_eq].
      apply position_for_Some in E. destruct Hn. apply list_elem_of_fmap. by exists {| sp_partition := _record_partition topic p; sp_values := v |}.
    + rewrite lookup_insert_ne; [done|]. intros ->. by apply Hne.
Qed.

Lemma build_of_positions topic (offsets : gmap Z Z) :
  (forall p o, offsets !! p = Some o -> 0 <= p /\ 0 <= o) ->
  exists c, build_cdc_checkpoint (positions_of topic offsets) = Ok c /\
    (forall p, position_for c (_record_partition topic p) = (fun o => [o]) <$> offsets !! p) /\
    _parse_committed_offsets topic (Some c) = Ok offsets.
Proof.
  intros Hpos. destruct (build_checkpoint_roundtrip (positions_of topic offsets)) as (c & Hc & Hv & Hl).
  { intros n v (p & o & -> & -> & Ho)%positions_Some. destruct (Hpos p o Ho) as [_ H0]. unfold validate_values. cbn [sp_partition sp_values].
    assert (nonempty (_record_partition topic p) = true) as -> by (unfold nonempty, _record_partition; by destruct topic). cbn. by rewrite (proj2 (Z.ltb_ge o 0)). }
  exists c. split; [done|]. split; [intros p; by rewrite Hl, lookup_positions|].
  assert (Hnd : NoDup (map sp_partition c)).
  { unfold validate_positions, unique in Hv. destruct (bool_decide (NoDup _)) eqn:E; [|done]. by apply bool_decide_eq_true in E. }
  destruct (parse_items topic c ∅) as (m & Hm & Hlm); [|done|].
  - apply Forall_forall. intros it Hit. pose proof (position_for_elem c (sp_partition it) (sp_values it) Hnd) as Hf.
    destruct it as [n v]. specialize (Hf Hit). rewrite Hl in Hf. apply positions_Some in Hf as (p & o & Hn & Hv' & Ho).
    cbn in Hn, Hv'. subst n v. exists p, o. split; [done|]. by apply (Hpos p o).
  - simpl. rewrite Hm. f_equal. apply map_eq. intros p. rewrite Hlm, Hl, lookup_positions. by destruct (offsets !! p).
Qed.

Lemma list_positions topic (offsets : gmap Z Z) (l : list (string * list Z)) (items : list (Z * Z)) :
  l = (fun po => (_record_partition topic po.1, [po.2])) <$> items -> NoDup items.*1 ->
  (forall p o, (p, o) ∈ items <-> offsets !! p = Some o) -> list_to_map l = positions_of topic offsets.
Proof.
  intros -> Hnd Hin. apply positions_list.
  - rewrite <-list_fmap_compose. change (NoDup ((_record_partition topic ∘ fst) <$> items)). rewrite list_fmap_compose.
    apply NoDup_fmap_2; [apply _|done].
  - intros n v. rewrite list_elem_of_fmap. split.
    + intros ([p o] & [= -> ->] & Hpo). exists p, o. split_and!; [done..|]. by apply Hin.
    + intros (p & o & -> & -> & Ho). exists (p, o). split; [done|]. by apply Hin.
Qed.

Lemma checkpoint_from_offsets_Ok topic offsets c :
  _checkpoint_from_offsets topic offsets = Ok c ->
  (forall p o, offsets !! p = Some o -> 0 <= p /\ 0 <= o) /\
  (forall p, position_for c (_record_partition topic p) = (fun o => [o]) <$> offsets !! p) /\
  _parse_committed_offsets topic (Some c) = Ok offsets.
Proof.
  unfold _checkpoint_from_offsets. case_bool_decide; [done|]. intros (l & Hl & Hb)%bind_Ok.
  assert (Hl' : l = (fun po => (_record_partition topic po.1, [po.2])) <$> map_to_list offsets /\
    Forall (fun po => 0 <= po.1 /\ 0 <= po.2) (map_to_list offsets)).
  { apply mapM_res_Forall2 in Hl. clear -Hl. induction Hl as [|[p o] e items l Hc _ [IH1 IH2]]; [by split|].
    unfold check_offset in Hc. cbn [fst snd] in Hc. destruct (p <? 0) eqn:E1; [done|]. destruct (o <? 0) eqn:E2; [done|]. injection Hc as <-.
    split; [by rewrite IH1|]. constructor; [simpl; lia|done]. }
  destruct Hl' as [El Hpos]. assert (Hp : forall p o, offsets !! p = Some o -> 0 <= p /\ 0 <= o).
  { intros p o Ho%elem_of_map_to_list. rewrite Forall_forall in Hpos. exact (Hpos _ Ho). }
  rewrite (list_positions topic offsets l _ El) in Hb; [|apply NoDup_fst_map_to_list|intros; apply elem_of_map_to_list].
  destruct (build_of_positions topic offsets Hp) as (c' & Hc & H1 & H2). rewrite Hc in Hb. injection Hb as <-. done.
Qed.

(** ** The plan *)

Lemma raise_if_Ok b cls site u : raise_if b cls site = Ok u -> b = false.
Proof. by destruct b. Qed.

Lemma offset_at_Ok m p o : offset_at m p = Ok o -> m !! p = Some o.
Proof. unfold offset_at. destruct (m !! p); [by intros [= ->]|done]. Qed.

Lemma evidence_Ok earliest latest partitions :
  _validate_provider_offsets earliest latest = Ok partitions ->
  partitions = dom earliest /\ dom latest = dom earliest /\ partitions <> ∅ /\
  forall p e l, earliest !! p = Some e -> latest !! p = Some l -> 0 <= p /\ 0 <= e /\ 0 <= l /\ e <= l + 1.
Proof.
  unfold _validate_provider_offsets. case_bool_decide as H1; [done|]. case_bool_decide as H2; [|done]. cbn [negb orb].
  intros (us & Hus & [= <-])%bind_Ok. split_and!; try done. intros p e l He Hl.
  apply mapM_res_Forall2 in Hus. assert (p ∈ elements (dom earliest)) as [i Hi]%list_elem_of_lookup
    by (apply elem_of_elements, elem_of_dom; by eexists).
  destruct (Forall2_lookup_l _ _ _ _ _ Hus Hi) as (u & _ & Hu). unfold check_evidence, offset_at in Hu.
  rewrite He, Hl in Hu. cbn [mbind res_bind] in Hu. destruct (_ || _) eqn:E in Hu; [done|]. apply raise_if_Ok in Hu. lia.
Qed.

(** What a planned range is. *)
Definition planned_range (earliest latest upper committed : gmap Z Z) (r : DebeziumKafkaPartitionResume) : Prop :=
  exists e l u, earliest !! pr_partition r = Some e /\ latest !! pr_partition r = Some l /\ upper !! pr_partition r = Some u /\
    pr_upper_offset r = u /\ 0 <= u <= l /\ 0 <= e <= pr_start_offset r /\ pr_start_offset r <= u + 1 /\
    match committed !! pr_partition r with
    | Some c => pr_start_offset r = c + 1 /\ c <= u
    | None => pr_start_offset r = e
    end.

Lemma plan_partition_Ok earliest upper committed p r :
  plan_partition earliest upper committed p = Ok r ->
  pr_partition r = p /\ exists e u, earliest !! p = Some e /\ upper !! p = Some u /\ pr_upper_offset r = u /\
    0 <= p /\ 0 <= u /\ e <= pr_start_offset r <= u + 1 /\
    match committed !! p with Some c => pr_start_offset r = c + 1 /\ c <= u | None => pr_start_offset r = e end.
Proof.
  unfold plan_partition. intros (e & He%offset_at_Ok & (u & Hu%offset_at_Ok & (start & Hs & Hr)%bind_Ok)%bind_Ok)%bind_Ok.
  unfold validate_range in Hr. cbn [pr_partition pr_start_offset pr_upper_offset] in Hr.
  destruct (_ || _) eqn:E1 in Hr; [done|]. destruct (u + 1 <? start) eqn:E2; [done|]. injection Hr as <-.
  cbn [pr_partition pr_start_offset pr_upper_offset]. split; [done|]. exists e, u. split_and!; try done; try lia.
  - destruct (committed !! p) as [c|]; [|by injection Hs as <-].
    destruct (c + 1 <? e) eqn:E3; [done|]. destruct (u <? c) eqn:E4; [done|]. injection Hs as <-. lia.
  - destruct (committed !! p) as [c|]; [|by injection Hs as <-].
    destruct (c + 1 <? e) eqn:E3; [done|]. destruct (u <? c) eqn:E4; [done|]. injection Hs as <-. lia.
Qed.

Lemma resume_plan_Ok topic checkpoint earliest latest requested allow plan :
  plan_debezium_kafka_resume topic checkpoint earliest latest requested allow = Ok plan ->
  exists committed, _parse_committed_offsets topic checkpoint = Ok committed /\
    let upper := default latest requested in
    dom upper = dom earliest /\ dom committed ⊆ dom earliest /\
    (is_Some checkpoint -> allow = false -> dom committed = dom earliest) /\
    rp_topic plan = topic /\ rp_lower_checkpoint plan = checkpoint /\
    pr_partition <$> rp_partitions plan = sort_by Z.leb (elements (dom earliest)) /\
    Forall (planned_range earliest latest upper committed) (rp_partitions plan) /\
    (forall p, position_for (rp_upper_checkpoint plan) (_record_partition topic p) = (fun u => [u]) <$> upper !! p) /\
    _parse_committed_offsets topic (Some (rp_upper_checkpoint plan)) = Ok upper.
Proof.
  unfold plan_debezium_kafka_resume. case_match; [done|]. intros (ps & (-> & Hdl & _ & Hev)%evidence_Ok & H1)%bind_Ok.
  set (upper := default latest requested) in *. case_bool_decide as Hdu; [|done]. cbn [negb] in H1.
  apply bind_Ok in H1 as (us & Hus & (committed & Hc & H1)%bind_Ok). exists committed. split; [done|]. cbv zeta.
  case_bool_decide as Hsub; [|done]. cbn [negb] in H1. destruct (_ && negb allow) eqn:Enew in H1; [done|].
  apply bind_Ok in H1 as (items & Hitems & (c & Hb & [= <-])%bind_Ok). cbn [rp_topic rp_lower_checkpoint rp_upper_checkpoint rp_partitions].
  apply mapM_res_Forall2 in Hitems.
  assert (Hnames : pr_partition <$> items = sort_by Z.leb (elements (dom earliest))).
  { clear -Hitems. induction Hitems as [|p r ps rs Hp _ IH]; [done|]. rewrite fmap_cons, IH. f_equal. by apply plan_partition_Ok in Hp as [? _]. }
  assert (Hu : forall p u, upper !! p = Some u -> 0 <= u /\ exists l, latest !! p = Some l /\ u <= l).
  { intros p u Hpu%elem_of_map_to_list. apply mapM_res_Forall2 in Hus. apply list_elem_of_lookup in Hpu as [i Hi].
    destruct (Forall2_lookup_l _ _ _ _ _ Hus Hi) as (v & _ & Hv). unfold check_upper in Hv. cbn [fst snd] in Hv.
    destruct (u <? 0) eqn:E; [done|]. apply bind_Ok in Hv as (l & Hl%offset_at_Ok & Hle%raise_if_Ok). split; [lia|]. exists l. split; [done|lia]. }
  assert (Hranges : Forall (planned_range earliest latest upper committed) items).
  { apply Forall_forall. intros r [i Hi]%list_elem_of_lookup. destruct (Forall2_lookup_r _ _ _ _ _ Hitems Hi) as (p & Hp & Hr).
    apply plan_partition_Ok in Hr as (<- & e & u & He & Hpu & Hup & H0 & Hu0 & Hs & Hm).
    destruct (Hu _ _ Hpu) as (_ & l & Hl & Hle). destruct (Hev _ _ _ He Hl) as (_ & He0 & _).
    exists e, l, u. split_and!; try done; lia. }
  assert (Hlist : forall p u, (p, u) ∈ (fun r => (pr_partition r, pr_upper_offset r)) <$> items <-> upper !! p = Some u).
  { intros p u. rewrite list_elem_of_fmap. rewrite Forall_forall in Hranges. split.
    - intros (r & [= -> ->] & Hr). destruct (Hranges r Hr) as (e & l & u' & _ & _ & Hpu & -> & _). done.
    - intros Hpu. assert (p ∈ pr_partition <$> items) as (r & -> & Hr)%list_elem_of_fmap.
      { rewrite Hnames, elem_of_sort_by, elem_of_elements, <-Hdu. by apply elem_of_dom_2 in Hpu. }
      exists r. split; [|done]. destruct (Hranges r Hr) as (e & l & u' & _ & _ & Hpu' & -> & _). congruence. }
  rewrite (list_positions topic upper _ ((fun r => (pr_partition r, pr_upper_offset r)) <$> items)) in Hb.
  2:{ by rewrite <-list_fmap_compose. }
  2:{ rewrite <-list_fmap_compose. change (NoDup (pr_partition <$> items)). rewrite Hnames, sort_by_perm. apply NoDup_elements. }
  2:{ exact Hlist. }
  destruct (build_of_positions topic upper) as (c' & Hc' & Hpos & Hparse).
  { intros p u Hpu. destruct (Hu p u Hpu) as (H0 & l & Hl & _). split; [|done].
    assert (p ∈ dom earliest) as [e He]%elem_of_dom by (rewrite <-Hdu; by apply elem_of_dom_2 in Hpu).
    by destruct (Hev p e l He Hl). }
  rewrite Hc' in Hb. injection Hb as <-. split_and!; try done.
  intros [c Hcs] ->. rewrite Hcs in Enew. cbn in Enew. rewrite andb_true_r in Enew. apply negb_false_iff, bool_decide_eq_true in Enew.
  apply set_eq. intros p. split; [apply Hsub|]. intros Hp. destruct (decide (p ∈ dom committed)); [done|]. set_solver.
Qed.

Lemma offsets_by_lookup f plan p :
  NoDup (pr_partition <$> rp_partitions plan) ->
  offsets_by f plan !! p = f <$> (snd <$> list_find (fun r => pr_partition r = p) (rp_partitions plan)).
Proof.
  unfold offsets_by. induction (rp_partitions plan) as [|r rs IH] using rev_ind; [done|]. rewrite fmap_app, foldl_snoc.
  intros (Hnd & Hn & _)%NoDup_app. destruct (decide (pr_partition r = p)) as [<-|Hne].
  - rewrite lookup_insert_eq, list_find_app_r.
    + simpl. by rewrite decide_True.
    + apply list_find_None, Forall_forall. intros r' Hr' E. apply (Hn (pr_partition r)); [rewrite <-E; by apply list_elem_of_fmap_2|].
      by apply list_elem_of_singleton.
  - rewrite lookup_insert_ne, IH by done. destruct (list_find _ rs) as [[i r']|] eqn:E.
    + by rewrite (list_find_app_l _ _ _ _ _ E).
    + rewrite list_find_app_r by done. simpl. by rewrite decide_False.
Qed.

(** ** The events of a window *)

Lemma pretty_nonneg (z : Z) : 0 <= z -> pretty z = pretty (Z.to_N z).
Proof. by destruct z. Qed.

(** An event id names its partition and offset. *)
Lemma event_id_inj topic p q o o' :
  0 <= p -> 0 <= q -> 0 <= o -> 0 <= o' ->
  _record_partition topic p +:+ ":" +:+ pretty o = _record_partition topic q +:+ ":" +:+ pretty o' -> p = q /\ o = o'.
Proof.
  intros Hp Hq Ho Ho' E. unfold _record_partition in E. rewrite !app_assoc_str in E.
  apply (f_equal (str_drop (String.length topic))) in E. rewrite !str_drop_app in E.
  apply (f_equal (str_drop (String.length ":"))) in E. rewrite !str_drop_app, (pretty_nonneg p), (pretty_nonneg q) in E by done.
  apply pretty_colon_inj in E as [E1 E2]. apply (inj pretty) in E2. lia.
Qed.

Section batches.
Context `{PyRuntime} (content_hash : CDCEvent -> string).

(** The event of the record. *)
Definition event_for (policy : DebeziumSnapshotReadPolicy) (record : DebeziumKafkaRecord) (e : CDCEvent) : Prop :=
  exists snapshot_read, _normalize_record policy record = Ok (Some (e, snapshot_read)).

Lemma event_for_position policy record e :
  event_for policy record e ->
  position_key e = (_record_partition (dk_topic record) (dk_partition record), [dk_offset record]) /\
  ev_event_id e = _record_partition (dk_topic record) (dk_partition record) +:+ ":" +:+ pretty (dk_offset record) /\
  0 <= dk_offset record /\ is_Some (dk_value record).
Proof.
  intros [sr Hn]. unfold _normalize_record in Hn. destruct (dk_value record) as [v|]; [|done].
  apply bind_Ok in Hn as ([e' sr'] & He & [= -> ->]). unfold event_of_envelope in He.
  apply bind_Ok in He as (op & _ & He). destruct (_ && _) in He; [discriminate He|].
  do 3 (apply bind_Ok in He as (? & _ & He)). apply bind_Ok in He as ([] & _ & He).
  apply bind_Ok in He as (pos & Hpos & He). do 2 (apply bind_Ok in He as (? & _ & He)).
  apply bind_Ok in He as (e' & Hev & [= <- _]).
  unfold make_CDCEvent in Hev. apply bind_Ok in Hev as (? & _ & [= <-]).
  unfold make_CDCSourcePosition in Hpos. apply bind_Ok in Hpos as (u' & Hval & [= <-]).
  split_and!; [done..| |by eexists]. unfold validate_values in Hval. cbn [sp_partition sp_values] in Hval.
  case_match; [done|]. case_bool_decide; [done|]. cbn [existsb] in Hval. destruct (dk_offset record <? 0) eqn:E; [done|]. lia.
Qed.

Record window_inv (topic : string) (upper : gmap Z Z) (policy : DebeziumSnapshotReadPolicy) (done : list DebeziumKafkaRecord) (s : record_state) : Prop := {
  wi_window : Forall (fun r => dk_topic r = topic /\ exists u, upper !! dk_partition r = Some u /\ dk_offset r <= u) done;
  wi_sound e : e ∈ rs_events s -> exists r, r ∈ done /\ event_for policy r e;
  wi_complete r : r ∈ done -> is_Some (dk_value r) -> exists e, e ∈ rs_events s /\ event_for policy r e;
  wi_count : length done = (rs_tombstones s + length (rs_events s))%nat
}.

Lemma window_loop topic upper policy records s :
  foldM (kafka_step topic upper policy) {| rs_events := []; rs_tombstones := 0; rs_snapshot_reads := 0 |} records = Ok s ->
  window_inv topic upper policy records s.
Proof.
  intros Hf. refine (foldM_ind _ (window_inv topic upper policy) _ _ _ Hf _ _).
  { split; [constructor|by intros e ?%elem_of_nil|by intros r ?%elem_of_nil|done]. }
  intros done r s1 s2 _ [H1 H2 H3 H4] Hstep. unfold kafka_step in Hstep.
  apply bind_Ok in Hstep as (u & Hw & (normalized & Hn & Hs)%bind_Ok).
  assert (Hwin : Forall (fun r => dk_topic r = topic /\ exists u, upper !! dk_partition r = Some u /\ dk_offset r <= u) (done ++ [r])).
  { apply Forall_app. split; [exact H1|]. constructor; [|constructor]. unfold _validate_record_window in Hw.
    destruct (String.eqb_spec (dk_topic r) topic); [|discriminate Hw]. cbn [negb] in Hw. split; [assumption|].
    destruct (upper !! dk_partition r) as [u0|]; [|discriminate Hw]. apply raise_if_Ok in Hw. exists u0. split; [reflexivity|lia]. }
  destruct normalized as [[e sr]|].
  - injection Hs as <-. assert (Hr : event_for policy r e) by (by exists sr). split; cbn [rs_events rs_tombstones].
    + exact Hwin.
    + intros e' [He|E%list_elem_of_singleton]%elem_of_app.
      * destruct (H2 e' He) as (r' & Hr' & ?). exists r'. split; [|assumption]. apply elem_of_app. by left.
      * exists r. rewrite E. split; [|exact Hr]. apply elem_of_app. right. by apply list_elem_of_singleton.
    + intros r' [Hr'|E%list_elem_of_singleton]%elem_of_app Hv.
      * destruct (H3 r' Hr' Hv) as (e' & He' & ?). exists e'. split; [|assumption]. apply elem_of_app. by left.
      * exists e. rewrite E. split; [|exact Hr]. apply elem_of_app. right. by apply list_elem_of_singleton.
    + rewrite !length_app, H4. simpl. lia.
  - injection Hs as <-. assert (Hnone : dk_value r = None).
    { unfold _normalize_record in Hn. destruct (dk_value r); [|reflexivity]. apply bind_Ok in Hn as (? & _ & Hn). discriminate Hn. }
    split; cbn [rs_events rs_tombstones].
    + exact Hwin.
    + intros e' He. destruct (H2 e' He) as (r' & Hr' & ?). exists r'. split; [|assumption]. apply elem_of_app. by left.
    + intros r' [Hr'|E%list_elem_of_singleton]%elem_of_app Hv.
      * exact (H3 r' Hr' Hv).
      * rewrite E, Hnone in Hv. by destruct Hv.
    + rewrite length_app, H4. simpl. lia.
Qed.

(** The offset of the partition is committed. *)
Definition committed_at (lower : option (gmap Z Z)) (p o : Z) : Prop :=
  exists offsets c, lower = Some offsets /\ offsets !! p = Some c /\ o <= c.

Lemma debezium_batch_Ok records topic upper complete lower policy b :
  normalize_debezium_kafka_batch content_hash records topic upper complete lower policy = Ok b ->
  complete = true /\
  Forall (fun r => dk_topic r = topic /\ exists u, upper !! dk_partition r = Some u /\ dk_offset r <= u) records /\
  StronglySorted source_lt (nb_events (db_normalized_batch b)) /\
  Forall (fun e => exists r, r ∈ records /\ event_for policy r e /\ ~ committed_at lower (dk_partition r) (dk_offset r))
    (nb_events (db_normalized_batch b)) /\
  (forall r, r ∈ records -> is_Some (dk_value r) -> ~ committed_at lower (dk_partition r) (dk_offset r) ->
     exists e, e ∈ nb_events (db_normalized_batch b) /\
       position_key e = (_record_partition topic (dk_partition r), [dk_offset r])) /\
  length records = (db_tombstones_ignored b + length (nb_events (db_normalized_batch b)) +
    nb_duplicate_events_ignored (db_normalized_batch b) + nb_already_committed_events_ignored (db_normalized_batch b))%nat.
Proof.
  unfold normalize_debezium_kafka_batch. case_match; [done|].
  intros (uc & Huc & (lc & Hlc & (s & Hs & (nb & Hnb & [= <-])%bind_Ok)%bind_Ok)%bind_Ok)%bind_Ok. cbn [db_normalized_batch db_tombstones_ignored].
  apply window_loop in Hs as [Hwin Hsound Hcomp Hcount].
  destruct (normalize_exact content_hash _ _ _ _ _ Hnb) as (-> & Hsort & Hin & _ & Hcov & Hlen).
  destruct (checkpoint_from_offsets_Ok _ _ _ Huc) as (Hupos & _ & _).
  rewrite Forall_forall in Hwin. rewrite Forall_forall in Hin, Hcov.
  assert (Hlow : forall r e, r ∈ records -> event_for policy r e ->
    at_or_below lc e = true <-> committed_at lower (dk_partition r) (dk_offset r)).
  { intros r e Hr He. destruct (Hwin r Hr) as [Ht _]. destruct (event_for_position _ _ _ He) as ([= Hp Hv] & _). rewrite Ht in Hp.
    unfold at_or_below, committed_at. destruct lower as [offsets|].
    - apply bind_Ok in Hlc as (c & Hc & [= <-]). destruct (checkpoint_from_offsets_Ok _ _ _ Hc) as (_ & Hpos & _).
      rewrite Hp, Hpos. destruct (offsets !! dk_partition r) as [c0|] eqn:Ec; simpl.
      + rewrite Hv. unfold zs_leb, zs_ltb. cbn [zs_cmp]. split.
        * intros Hle. exists offsets, c0. split_and!; try done. destruct (Z.compare_spec c0 (dk_offset r)); [lia|done|lia].
        * intros (? & c1 & [= <-] & E & Hle). rewrite Ec in E. injection E as <-. destruct (Z.compare_spec c0 (dk_offset r)); [done|lia|done].
      + split; [done|]. intros (? & c1 & [= <-] & E & _). congruence.
    - injection Hlc as <-. split; [done|]. by intros (? & ? & ? & _). }
  assert (Hid : forall r r' e e', r ∈ records -> r' ∈ records -> event_for policy r e -> event_for policy r' e' ->
    ev_event_id e = ev_event_id e' -> dk_partition r = dk_partition r' /\ dk_offset r = dk_offset r').
  { intros r r' e e' Hr Hr' He He' Hi.
    destruct (event_for_position _ _ _ He) as (_ & H1 & Ho & _). destruct (event_for_position _ _ _ He') as (_ & H2 & Ho' & _).
    rewrite H1, H2 in Hi. destruct (Hwin r Hr) as (Ht & u & Hu & _). destruct (Hwin r' Hr') as (Ht' & u' & Hu' & _). rewrite Ht, Ht' in Hi.
    destruct (Hupos _ _ Hu) as [Hp _]. destruct (Hupos _ _ Hu') as [Hp' _]. by eapply event_id_inj. }
  split_and!; [done|by apply Forall_forall|done| | |].
  - apply Forall_forall. intros e He. destruct (Hin e He) as (Hes & Hal & _). destruct (Hsound e Hes) as (r & Hr & Hre).
    exists r. split_and!; try done. rewrite <-(Hlow r e Hr Hre), Hal. done.
  - intros r Hr Hv Hnc. destruct (Hcomp r Hr Hv) as (e & He & Hre). destruct (Hcov e He) as (f & [Hfid _] & Hf).
    assert (f ∈ rs_events s) as Hfs by (destruct Hf as [Hf|[Hf _]]; [by destruct (Hin f Hf)|done]).
    destruct (Hsound f Hfs) as (r' & Hr' & Hrf). destruct (Hid r r' e f Hr Hr' Hre Hrf Hfid) as [Ep Eo].
    destruct Hf as [Hf|[_ Hf]].
    + exists f. split; [done|]. destruct (event_for_position _ _ _ Hrf) as (-> & _). destruct (Hwin r' Hr') as [-> _]. by rewrite Ep, Eo.
    + exfalso. apply Hnc. rewrite Ep, Eo. by apply (Hlow r' f Hr' Hrf).
  - rewrite Hcount, Hlen. lia.
Qed.
End batches.

(** ** Ranges *)

(** The planned range of a partition, both ends inclusive. *)
Definition window_of (p : Z) (plan : DebeziumKafkaResumePlan) : option (Z * Z) :=
  (fun r => (pr_start_offset r, pr_upper_offset r)) <$> (snd <$> list_find (fun r => pr_partition r = p) (rp_partitions plan)).

Lemma plan_NoDup topic checkpoint earliest latest requested allow plan :
  plan_debezium_kafka_resume topic checkpoint earliest latest requested allow = Ok plan ->
  NoDup (pr_partition <$> rp_partitions plan).
Proof.
  intros (committed & _ & _ & _ & _ & _ & _ & -> & _)%resume_plan_Ok. rewrite sort_by_perm. apply NoDup_elements.
Qed.

Lemma window_of_Some p plan s u :
  NoDup (pr_partition <$> rp_partitions plan) ->
  window_of p plan = Some (s, u) <->
    exists r, r ∈ rp_partitions plan /\ pr_partition r = p /\ pr_start_offset r = s /\ pr_upper_offset r = u.
Proof.
  intros Hnd. unfold window_of. destruct (list_find _ _) as [[i r]|] eqn:E; simpl.
  - apply list_find_Some in E as (Hi & Hp & _). split.
    + intros [= <- <-]. exists r. split_and!; try done. by eapply list_elem_of_lookup_2.
    + intros (r' & [j Hj]%list_elem_of_lookup & Hp' & <- & <-). assert (i = j) as ->; [|congruence].
      eapply (NoDup_lookup _ _ _ p Hnd); rewrite list_lookup_fmap; [by rewrite Hi, <-Hp|by rewrite Hj, <-Hp'].
  - apply list_find_None in E. rewrite Forall_forall in E. split; [done|]. intros (r & Hr & Hp & _). by apply E in Hr.
Qed.

(** The range of a partition in a plan, from the evidence. *)
Lemma plan_range topic checkpoint earliest latest requested allow plan committed p :
  plan_debezium_kafka_resume topic checkpoint earliest latest requested allow = Ok plan ->
  _parse_committed_offsets topic checkpoint = Ok committed ->
  offsets_by pr_upper_offset plan !! p = snd <$> window_of p plan /\
  _parse_committed_offsets topic (Some (rp_upper_checkpoint plan)) = Ok (offsets_by pr_upper_offset plan) /\
  match window_of p plan with
  | None => p ∉ dom earliest /\ committed !! p = None
  | Some (s, u) => s <= u + 1 /\ exists e, earliest !! p = Some e /\ e <= s /\
      match committed !! p with Some c => s = c + 1 /\ c <= u | None => s = e end
  end.
Proof.
  intros Hplan Hc. pose proof (plan_NoDup _ _ _ _ _ _ _ Hplan) as Hnd.
  apply resume_plan_Ok in Hplan as (committed' & Hc' & Hdu & Hsub & _ & _ & _ & Hnames & Hranges & _ & Hparse).
  rewrite Hc in Hc'. injection Hc' as <-. rewrite Forall_forall in Hranges.
  assert (Hup : forall q, offsets_by pr_upper_offset plan !! q = snd <$> window_of q plan).
  { intros q. rewrite offsets_by_lookup by done. unfold window_of. by destruct (list_find _ _) as [[]|]. }
  split; [apply Hup|]. split.
  - rewrite Hparse. f_equal. apply map_eq. intros q. rewrite Hup. destruct (window_of q plan) as [[s u]|] eqn:E.
    + apply window_of_Some in E as (r & Hr & <- & <- & <-); [|done]. by destruct (Hranges r Hr) as (e & l & u' & _ & _ & -> & -> & _).
    + apply not_elem_of_dom. rewrite Hdu, <-elem_of_elements, <-(elem_of_sort_by Z.leb), <-Hnames. intros (r & -> & Hr)%list_elem_of_fmap.
      assert (window_of (pr_partition r) plan = Some (pr_start_offset r, pr_upper_offset r)) by (apply window_of_Some; [done|by exists r]).
      congruence.
  - destruct (window_of p plan) as [[s u]|] eqn:E.
    + apply window_of_Some in E as (r & Hr & <- & <- & <-); [|done].
      destruct (Hranges r Hr) as (e & l & u & He & _ & _ & -> & _ & [_ Hes] & Hs & Hm). split; [done|]. by exists e.
    + assert (Hp : p ∉ dom earliest).
      { rewrite <-elem_of_elements, <-(elem_of_sort_by Z.leb), <-Hnames. intros (r & -> & Hr)%list_elem_of_fmap.
        assert (window_of (pr_partition r) plan = Some (pr_start_offset r, pr_upper_offset r)) by (apply window_of_Some; [done|by exists r]).
        congruence. }
      split; [done|]. apply not_elem_of_dom. set_solver.
Qed.

(** C36. A resume plan reads, for every partition the provider exposes, from the offset after the committed one
    (from the earliest one when nothing is committed) to the upper one: nothing in between is skipped,
    nothing committed is read again, everything planned is retained, and the upper checkpoint and the
    consumer offsets to commit later are those of the ranges.  A committed partition is never left out. *)
Theorem resume_plan_bounds topic checkpoint earliest latest requested allow plan :
  plan_debezium_kafka_resume topic checkpoint earliest latest requested allow = Ok plan ->
  exists committed, _parse_committed_offsets topic checkpoint = Ok committed /\
    let upper := default latest requested in
    (forall p, window_of p plan = None <-> earliest !! p = None) /\
    (forall p c, committed !! p = Some c -> is_Some (window_of p plan)) /\
    (forall p, position_for (rp_upper_checkpoint plan) (_record_partition topic p) = (fun su => [su.2]) <$> window_of p plan) /\
    (forall p, provider_commit_next_offsets plan !! p = (fun su => su.2 + 1) <$> window_of p plan) /\
    forall p s u, window_of p plan = Some (s, u) ->
      exists e l, earliest !! p = Some e /\ latest !! p = Some l /\ upper !! p = Some u /\
        0 <= e <= s /\ s <= u + 1 /\ 0 <= u <= l /\
        (forall o, s <= o <= u <-> e <= o <= u /\ forall c, committed !! p = Some c -> c < o).
Proof.
  intros Hplan. pose proof (plan_NoDup _ _ _ _ _ _ _ Hplan) as Hnd. pose proof Hplan as Hplan'.
  apply resume_plan_Ok in Hplan as (committed & Hc & Hdu & Hsub & _ & _ & _ & Hnames & Hranges & Hpos & Hparse).
  exists committed. split; [done|]. cbv zeta. rewrite Forall_forall in Hranges.
  assert (Hr : forall p, match window_of p plan with
    | None => p ∉ dom earliest /\ committed !! p = None | Some (s, u) => is_Some (earliest !! p) end).
  { intros p. destruct (plan_range _ _ _ _ _ _ _ committed p Hplan' Hc) as (_ & _ & Hm).
    destruct (window_of p plan) as [[s u]|]; [|done]. destruct Hm as (_ & e & -> & _). by eexists. }
  split_and!.
  - intros p. specialize (Hr p). destruct (window_of p plan) as [[s u]|]; [destruct Hr as [e ->]; done|].
    rewrite <-not_elem_of_dom. tauto.
  - intros p c Hpc. specialize (Hr p). destruct (window_of p plan); [by eexists|]. destruct Hr. congruence.
  - intros p. rewrite Hpos. destruct (plan_range _ _ _ _ _ _ _ committed p Hplan' Hc) as (Hup & Hparse' & _).
    rewrite Hparse in Hparse'. injection Hparse' as ->. rewrite Hup. by destruct (window_of p plan).
  - intros p. unfold provider_commit_next_offsets. rewrite offsets_by_lookup by done. unfold window_of. by destruct (list_find _ _) as [[]|].
  - intros p s u (r & Hin & <- & <- & <-)%window_of_Some; [|done].
    destruct (Hranges r Hin) as (e & l & u & He & Hl & Hu & -> & Hul & Hes & Hs & Hm). exists e, l. split_and!; try done; try lia.
    intros o. destruct (committed !! pr_partition r) as [c|].
    + destruct Hm as [Hm Hcu]. rewrite Hm in *. split; [|intros [? Hco]; specialize (Hco c eq_refl); lia].
      intros Ho. split; [lia|]. intros c' [= <-]. lia.
    + rewrite Hm. split; [by intros|by intros []].
Qed.

(** The alignment of a planned range. *)
Definition alignment_of (cursor : gmap Z Z) (r : DebeziumKafkaPartitionResume) : DebeziumKafkaPartitionCursorAlignment :=
  let relation := relation_of (cursor !! pr_partition r) (pr_start_offset r) in
  {| ca_partition := pr_partition r; ca_framework_next_offset := pr_start_offset r;
     ca_consumer_group_next_offset := cursor !! pr_partition r; ca_relation := relation;
     ca_seek_required := negb (bool_decide (relation = KC_ALIGNED)) |}.

Lemma align_Ok cursor r a : align cursor r = Ok a -> a = alignment_of cursor r.
Proof.
  unfold align, validate_relation, alignment_of. cbv zeta. intros Ha.
  repeat match type of Ha with (if ?b then _ else _) = _ => destruct b; [discriminate Ha|] end. by injection Ha as <-.
Qed.

Lemma aligned_iff current desired : relation_of current desired = KC_ALIGNED <-> current = Some desired.
Proof.
  unfold relation_of. destruct current as [c|]; [|done]. destruct (c <? desired) eqn:E1; [|destruct (desired <? c) eqn:E2].
  - split; [done|]. intros [= ->]. lia.
  - split; [done|]. intros [= ->]. lia.
  - split; [intros _; f_equal; lia|done].
Qed.

Lemma seeks_lookup cursor (rs : list DebeziumKafkaPartitionResume) p :
  NoDup (pr_partition <$> rs) ->
  foldl (fun m a => if ca_seek_required a then <[ca_partition a := ca_framework_next_offset a]> m else m) (∅ : gmap Z Z)
    (alignment_of cursor <$> rs) !! p =
  match snd <$> list_find (fun r => pr_partition r = p) rs with
  | Some r => if bool_decide (cursor !! p = Some (pr_start_offset r)) then None else Some (pr_start_offset r)
  | None => None
  end.
Proof.
  induction rs as [|r rs IH] using rev_ind; [done|]. rewrite !fmap_app, foldl_app. intros (Hnd & Hn & _)%NoDup_app.
  specialize (IH Hnd). cbn [fmap list_fmap foldl]. destruct (decide (pr_partition r = p)) as [<-|Hne].
  - assert (Hnone : list_find (fun r' => pr_partition r' = pr_partition r) rs = None).
    { apply list_find_None, Forall_forall. intros r' Hr' E. apply (Hn (pr_partition r)); [rewrite <-E; by apply list_elem_of_fmap_2|].
      by apply list_elem_of_singleton. }
    rewrite Hnone in IH. rewrite list_find_app_r by done. simpl. rewrite decide_True by done. cbn.
    rewrite (bool_decide_ext _ _ (aligned_iff (cursor !! pr_partition r) (pr_start_offset r))).
    case_bool_decide; cbn [negb]; [exact IH|apply lookup_insert_eq].
  - assert (Hl : list_find (fun r' => pr_partition r' = p) (rs ++ [r]) = list_find (fun r' => pr_partition r' = p) rs).
    { destruct (list_find _ rs) as [[i r']|] eqn:E; [by rewrite (list_find_app_l _ _ _ _ _ E)|].
      rewrite list_find_app_r by done. simpl. by rewrite decide_False. }
    rewrite Hl, <-IH. destruct (ca_seek_required (alignment_of cursor r)); [|done]. by apply lookup_insert_ne.
Qed.

(** Whatever the consumer-group cursor is, after the planned seeks the consumer reads each partition from
    the start of its range; only planned partitions are sought, and a cursor at the start needs no seek. *)
Theorem seeks_align_cursor topic checkpoint earliest latest cursor requested allow plan :
  plan_debezium_kafka_cursor_coordination topic checkpoint earliest latest cursor requested allow = Ok plan ->
  plan_debezium_kafka_resume topic checkpoint earliest latest requested allow = Ok (cc_resume plan) /\
  (forall p s u, window_of p (cc_resume plan) = Some (s, u) ->
     match seek_offsets plan !! p with Some o => Some o | None => cursor !! p end = Some s) /\
  (forall p, is_Some (cursor !! p) \/ is_Some (seek_offsets plan !! p) -> is_Some (window_of p (cc_resume plan))) /\
  (forall p s u, window_of p (cc_resume plan) = Some (s, u) -> cursor !! p = Some s -> seek_offsets plan !! p = None).
Proof.
  unfold plan_debezium_kafka_cursor_coordination. intros (resume & Hr & H)%bind_Ok. rewrite Hr.
  pose proof (plan_NoDup _ _ _ _ _ _ _ Hr) as Hnd. case_bool_decide as Hsub; [|done]. cbn [negb] in H.
  apply bind_Ok in H as (items & Hitems & [= <-]). cbn [cc_resume]. split; [done|].
  assert (items = alignment_of cursor <$> rp_partitions resume) as ->.
  { apply mapM_res_Forall2 in Hitems. clear -Hitems. induction Hitems as [|r a rs l Ha%align_Ok _ IH]; [done|]. by rewrite fmap_cons, IH, Ha. }
  assert (Hseek : forall p, seek_offsets {| cc_resume := resume; cc_alignments := alignment_of cursor <$> rp_partitions resume |} !! p =
    match window_of p resume with
    | Some (s, _) => if bool_decide (cursor !! p = Some s) then None else Some s
    | None => None
    end).
  { intros p. unfold seek_offsets. cbn [cc_alignments]. rewrite seeks_lookup by done. unfold window_of. by destruct (list_find _ _) as [[]|]. }
  split_and!.
  - intros p s u E. rewrite Hseek, E. by case_bool_decide.
  - intros p Hp. destruct (window_of p resume) as [[s u]|] eqn:E; [by eexists|]. exfalso. destruct Hp as [Hp|Hp].
    + apply elem_of_dom in Hp. apply Hsub, elem_of_list_to_set, list_elem_of_fmap in Hp as (r & -> & Hin).
      assert (window_of (pr_partition r) resume = Some (pr_start_offset r, pr_upper_offset r)) by (apply window_of_Some; [done|by exists r]).
      congruence.
    + rewrite Hseek, E in Hp. by destruct Hp.
  - intros p s u E Hc. rewrite Hseek, E, bool_decide_true by done. done.
Qed.

(** ** Rounds of capture *)

Section rounds.
Context `{PyRuntime} (content_hash : CDCEvent -> string) (policy : DebeziumSnapshotReadPolicy) (topic : string).

(** One run: what the provider and the consumer group report, the records the consumer returns after
    the seeks, and whether the run reaches the commit of its checkpoint. *)
Record round := {
  rd_earliest : gmap Z Z;
  rd_latest : gmap Z Z;
  rd_cursor : gmap Z Z;
  rd_requested : option (gmap Z Z);
  rd_allow_new : bool;
  rd_records : list DebeziumKafkaRecord;
  rd_commits : bool
}.

Definition run_round (checkpoint : option CDCCheckpoint) (r : round) : res (DebeziumKafkaResumePlan * DebeziumKafkaBatchResult) :=
  plan ← plan_debezium_kafka_cursor_coordination topic checkpoint (rd_earliest r) (rd_latest r) (rd_cursor r) (rd_requested r) (rd_allow_new r);
  committed ← _parse_committed_offsets topic checkpoint;
  batch ← normalize_debezium_kafka_batch content_hash (rd_records r) topic (offsets_by pr_upper_offset (cc_resume plan)) true
    ((fun _ => committed) <$> checkpoint) policy;
  Ok (cc_resume plan, batch).

(** The committed runs; a run that raises or crashes leaves the checkpoint as it was. *)
Fixpoint run_rounds (checkpoint : option CDCCheckpoint) (rounds : list round) :
    list (DebeziumKafkaResumePlan * DebeziumKafkaBatchResult) :=
  match rounds with
  | [] => []
  | r :: rounds' =>
    match run_round checkpoint r with
    | Ok (plan, batch) =>
      if rd_commits r then (plan, batch) :: run_rounds (Some (rp_upper_checkpoint plan)) rounds'
      else run_rounds checkpoint rounds'
    | Raise _ => run_rounds checkpoint rounds'
    end
  end.

(** The consumer returns retained records of the log, and all those of the planned ranges. *)
Definition complete_read (log : list DebeziumKafkaRecord) (r : round) : Prop :=
  (forall record, record ∈ rd_records r -> record ∈ log /\
     exists e, rd_earliest r !! dk_partition record = Some e /\ e <= dk_offset record) /\
  forall checkpoint plan batch record s u, run_round checkpoint r = Ok (plan, batch) -> record ∈ log ->
    window_of (dk_partition record) plan = Some (s, u) -> s <= dk_offset record <= u -> record ∈ rd_records r.

(** Ranges that follow each other, the first from [next] when it is known. *)
Fixpoint tiles (next : option Z) (ranges : list (Z * Z)) : Prop :=
  match ranges with
  | [] => True
  | (s, u) :: ranges' => s <= u + 1 /\ match next with Some n => s = n | None => True end /\ tiles (Some (u + 1)) ranges'
  end.

(** The offsets of a partition in a batch, in its order. *)
Definition offsets_in (p : Z) (events : list CDCEvent) : list Z :=
  omap (fun e => if decide (sp_partition (ev_position e) = _record_partition topic p) then head (sp_values (ev_position e)) else None) events.

Definition applied (p : Z) (results : list (DebeziumKafkaResumePlan * DebeziumKafkaBatchResult)) : list Z :=
  concat (map (fun pb => offsets_in p (nb_events (db_normalized_batch pb.2))) results).

(** The log has a record with a value at the offset of the partition. *)
Definition logged (log : list DebeziumKafkaRecord) (p o : Z) : Prop :=
  exists record, record ∈ log /\ is_Some (dk_value record) /\ dk_partition record = p /\ dk_offset record = o.

Lemma offsets_in_sorted p events :
  StronglySorted source_lt events -> (forall e, e ∈ events -> length (sp_values (ev_position e)) = 1%nat) ->
  StronglySorted Z.lt (offsets_in p events).
Proof.
  unfold offsets_in. induction 1 as [|e events Hs IH Hall]; intros Hlen; [constructor|]. cbn [omap list_omap].
  assert (IH' := IH (fun e He => Hlen e (list_elem_of_further _ _ _ He))).
  destruct (decide (sp_partition (ev_position e) = _record_partition topic p)) as [Ep|]; [|exact IH'].
  pose proof (Hlen e (list_elem_of_here _ _)) as Hl. destruct (sp_values (ev_position e)) as [|o [|? ?]] eqn:Ev; try discriminate Hl.
  cbn [head]. constructor; [exact IH'|]. apply Forall_forall. intros o' (e' & He' & Ho')%list_elem_of_omap.
  case_decide as Ep'; [|discriminate Ho']. rewrite Forall_forall in Hall. pose proof (Hall e' He') as Hlt.
  pose proof (Hlen e' (list_elem_of_further _ _ _ He')) as Hl'. destruct (sp_values (ev_position e')) as [|o'' [|? ?]] eqn:Ev'; try discriminate Hl'.
  injection Ho' as ->. destruct Hlt as [Hlt|[_ Hlt]].
  - rewrite Ep, Ep' in Hlt. by rewrite (proj2 (str_compare_Eq _ _) eq_refl) in Hlt.
  - rewrite Ev, Ev' in Hlt. cbn [zs_cmp] in Hlt. destruct (o ?= o') eqn:E; try discriminate Hlt. by apply Z.compare_lt_iff.
Qed.

Lemma round_batch log checkpoint committed r plan batch p :
  complete_read log r -> _parse_committed_offsets topic checkpoint = Ok committed ->
  run_round checkpoint r = Ok (plan, batch) ->
  StronglySorted Z.lt (offsets_in p (nb_events (db_normalized_batch batch))) /\
  (forall o, o ∈ offsets_in p (nb_events (db_normalized_batch batch)) <->
     logged log p o /\ exists s u, window_of p plan = Some (s, u) /\ s <= o <= u) /\
  _parse_committed_offsets topic (Some (rp_upper_checkpoint plan)) = Ok (offsets_by pr_upper_offset plan) /\
  offsets_by pr_upper_offset plan !! p = snd <$> window_of p plan /\
  match window_of p plan with
  | None => committed !! p = None
  | Some (s, u) => s <= u + 1 /\ forall c, committed !! p = Some c -> s = c + 1
  end.
Proof.
  intros [Hread Hfull] Hc Hrun. pose proof (Hfull checkpoint plan batch) as Hfull'. unfold run_round in Hrun.
  apply bind_Ok in Hrun as (cplan & Hplan & (committed' & Hc' & (b & Hb & [= <- <-])%bind_Ok)%bind_Ok).
  rewrite Hc in Hc'. injection Hc' as <-. unfold plan_debezium_kafka_cursor_coordination in Hplan.
  apply bind_Ok in Hplan as (resume & Hres & Hplan). assert (cc_resume cplan = resume) as Ecc.
  { destruct (negb _) in Hplan; [discriminate Hplan|]. by apply bind_Ok in Hplan as (? & _ & [= <-]). }
  rewrite Ecc in *. destruct (plan_range _ _ _ _ _ _ _ committed p Hres Hc) as (Hup & Hparse & Hrange).
  destruct (debezium_batch_Ok _ _ _ _ _ _ _ _ Hb) as (_ & Hwin & Hsort & Hsound & Hcomp & _).
  rewrite Forall_forall in Hwin. rewrite Forall_forall in Hsound.
  assert (Hpos : forall e, e ∈ nb_events (db_normalized_batch b) -> exists r0, r0 ∈ rd_records r /\ is_Some (dk_value r0) /\
    position_key e = (_record_partition topic (dk_partition r0), [dk_offset r0]) /\
    ~ committed_at ((fun _ => committed) <$> checkpoint) (dk_partition r0) (dk_offset r0)).
  { intros e He. destruct (Hsound e He) as (r0 & Hr0 & Hev & Hn). destruct (event_for_position _ _ _ Hev) as (Hp & _ & _ & Hv).
    destruct (Hwin r0 Hr0) as [<- _]. by exists r0. }
  split; [|split; [|split; [exact Hparse|split; [exact Hup|]]]].
  - apply offsets_in_sorted; [exact Hsort|]. intros e He. destruct (Hpos e He) as (r0 & _ & _ & [= _ ->] & _). done.
  - intros o. unfold offsets_in. rewrite list_elem_of_omap. split.
    + intros (e & He & Ho). destruct (Hpos e He) as (r0 & Hr0 & Hv & [= Hp Hvs] & Hn). rewrite Hp, Hvs in Ho.
      case_decide as E; [|discriminate Ho]. apply (inj _) in E. cbn in Ho. injection Ho as <-.
      destruct (Hread r0 Hr0) as (Hlog & e0 & He0 & Hle). destruct (Hwin r0 Hr0) as (_ & u & Hu & Hou). rewrite E in *. split.
      * exists r0. done.
      * rewrite Hup in Hu. apply fmap_Some in Hu as ([s u'] & Hsu & ->). rewrite Hsu in Hrange. exists s, u'. split; [done|]. split; [|exact Hou].
        destruct Hrange as (_ & e1 & He1 & _ & Hm). rewrite He0 in He1. injection He1 as <-.
        destruct (committed !! p) as [c|] eqn:Ec; [|by rewrite Hm]. destruct Hm as [-> _].
        destruct (decide (dk_offset r0 <= c)) as [Hlec|]; [|lia]. exfalso. apply Hn. destruct checkpoint; [|by injection Hc as <-].
        exists committed, c. done.
    + intros ((r0 & Hlog & Hv & Hp & Ho) & s & u & Hsu & Hin). rewrite <-Hp, <-Ho in *.
      assert (Hr0 : r0 ∈ rd_records r).
      { eapply (Hfull checkpoint resume b r0 s u); [|done..]. unfold run_round, plan_debezium_kafka_cursor_coordination.
        rewrite Hres. cbn [mbind res_bind]. rewrite Hplan. cbn [mbind res_bind]. rewrite Hc. cbn [mbind res_bind]. rewrite Ecc, Hb. done. }
      destruct (Hcomp r0 Hr0 Hv) as (e & He & [= Hep Hev]).
      * intros (offsets & c & Hl & Hpc & Hle). apply fmap_Some in Hl as (ck & Hck & ->). rewrite Hsu in Hrange.
        destruct Hrange as (_ & e1 & _ & _ & Hm). rewrite Hpc in Hm. lia.
      * exists e. split; [done|]. by rewrite Hep, decide_True, Hev by done.
  - destruct (window_of p resume) as [[s u]|]; [|apply Hrange]. destruct Hrange as (Hle & e1 & _ & _ & Hm). split; [done|].
    intros c Hpc. rewrite Hpc in Hm. apply Hm.
Qed.

Lemma tiles_lower next ranges n :
  tiles next ranges -> next = Some n -> forall s u, (s, u) ∈ ranges -> n <= s.
Proof.
  revert next n. induction ranges as [|[s u] ranges IH]; intros next n Ht ->; [by intros s u ?%elem_of_nil|].
  destruct Ht as (Hle & Hn & Ht). intros s' u' [[= -> ->]|Hin]%elem_of_cons; [lia|]. pose proof (IH _ _ Ht eq_refl _ _ Hin). lia.
Qed.

Lemma rounds_spec log rounds checkpoint committed p :
  Forall (complete_read log) rounds -> _parse_committed_offsets topic checkpoint = Ok committed ->
  let results := run_rounds checkpoint rounds in
  let ranges := omap (window_of p) (map fst results) in
  tiles ((fun c => c + 1) <$> committed !! p) ranges /\
  StronglySorted Z.lt (applied p results) /\
  forall o, o ∈ applied p results <-> logged log p o /\ exists s u, (s, u) ∈ ranges /\ s <= o <= u.
Proof.
  intros Hrounds. revert checkpoint committed. induction Hrounds as [|r rounds Hr _ IH]; intros checkpoint committed Hc; cbv zeta.
  { simpl. split_and!; [done|constructor|]. intros o. rewrite elem_of_nil. split; [done|]. by intros (_ & s & u & ?%elem_of_nil & _). }
  cbn [run_rounds]. destruct (run_round checkpoint r) as [[plan b]|] eqn:Erun; [|by apply IH]. destruct (rd_commits r); [|by apply IH].
  destruct (round_batch log checkpoint committed r plan b p Hr Hc Erun) as (Hs & Hin & Hparse & Hup & Hrange).
  destruct (IH _ _ Hparse) as (Ht & Hs' & Hin'). cbv zeta in *. unfold applied in *. cbn [map concat fst snd omap list_omap].
  set (rest := omap (window_of p) (map fst (run_rounds (Some (rp_upper_checkpoint plan)) rounds))) in *. rewrite Hup in Ht.
  set (later := concat _) in *. set (mine := offsets_in p _) in *.
  destruct (window_of p plan) as [[s u]|] eqn:Ep; cbn [fmap option_fmap snd] in Ht.
  - destruct Hrange as [Hle Hnext]. split_and!.
    + cbn [tiles]. split_and!; [done| |exact Ht]. destruct (committed !! p) as [c|]; [|done]. by apply Hnext.
    + apply StronglySorted_app_2; [|exact Hs|exact Hs']. intros x y Hx Hy. apply Hin in Hx as (_ & ? & ? & [= <- <-] & Hx).
      apply Hin' in Hy as (_ & s' & u' & Hsu & Hy). pose proof (tiles_lower _ _ _ Ht eq_refl _ _ Hsu) as Hlow. cbn in Hlow. lia.
    + intros o. rewrite elem_of_app, Hin, Hin'. setoid_rewrite elem_of_cons. naive_solver.
  - split_and!.
    + rewrite Hrange. exact Ht.
    + apply StronglySorted_app_2; [|exact Hs|exact Hs']. intros x y Hx. apply Hin in Hx as (_ & ? & ? & ? & _). done.
    + intros o. rewrite elem_of_app, Hin, Hin'. naive_solver.
Qed.

(** C35. Over any sequence of runs, some of which raise or crash before their checkpoint is committed, whatever
    the consumer-group cursor and the order of the records: the ranges committed for a partition follow each
    other without gap or overlap, and the batches committed for it hold every record of the log in them that is
    not a tombstone exactly once, in offset order. *)
Theorem kafka_capture_exactly_once log rounds p :
  Forall (complete_read log) rounds ->
  let results := run_rounds None rounds in
  let ranges := omap (window_of p) (map fst results) in
  tiles None ranges /\ StronglySorted Z.lt (applied p results) /\
  forall o, o ∈ applied p results <-> logged log p o /\ exists s u, (s, u) ∈ ranges /\ s <= o <= u.
Proof. intros Hr. exact (rounds_spec log rounds None ∅ p Hr eq_refl). Qed.
End rounds.

(** ** Witnesses *)

Lemma round_upper `{PyRuntime} content_hash policy topic checkpoint r plan b p s u :
  run_round content_hash policy topic checkpoint r = Ok (plan, b) -> window_of p plan = Some (s, u) ->
  default (rd_latest r) (rd_requested r) !! p = Some u.
Proof.
  unfold run_round, plan_debezium_kafka_cursor_coordination. intros (cplan & (resume & Hres & Hplan)%bind_Ok & Hrun)%bind_Ok.
  assert (cc_resume cplan = resume) as Ecc.
  { destruct (negb _) in Hplan; [discriminate Hplan|]. by apply bind_Ok in Hplan as (? & _ & [= <-]). }
  rewrite Ecc in Hrun. apply bind_Ok in Hrun as (c & _ & (b' & _ & [= -> _])%bind_Ok). pose proof (plan_NoDup _ _ _ _ _ _ _ Hres) as Hnd.
  apply resume_plan_Ok in Hres as (committed & _ & _ & _ & _ & _ & _ & _ & Hranges & _).
  intros (q & Hq & <- & _ & <-)%window_of_Some; [|done]. rewrite Forall_forall in Hranges.
  by destruct (Hranges q Hq) as (e & l & u' & _ & _ & -> & -> & _).
Qed.

Module Demo.

#[local] Ltac each t := repeat first [apply List.Forall_nil|apply List.Forall_cons; [t|]].

Definition record (p o : Z) (v : option row) : DebeziumKafkaRecord :=
  {| dk_topic := "orders"; dk_partition := p; dk_offset := o; dk_key := Some {[ "id" := VInt (p + 10) ]}; dk_value := v;
     dk_timestamp_ms := Some 1700000000123 |}.
Definition change (op : string) (p : Z) : option row :=
  Some (<["op" := VStr op]> {[ "after" := if String.eqb op "d" then VNone else VDict [("id", VInt (p + 10)); ("v", VInt 1)] ]}).

Definition log : list DebeziumKafkaRecord :=
  [record 0 0 (change "c" 0); record 0 1 (change "u" 0); record 1 0 (change "c" 1); record 0 2 (change "d" 0); record 0 3 None;
   record 1 1 (change "u" 1); record 0 4 (change "c" 0)].

Definition evidence (upper0 upper1 : Z) : gmap Z Z := {[ 0 := upper0; 1 := upper1 ]}.

(** A run up to an early offset, a run that crashes before its checkpoint with the cursor already moved,
    and a run that starts again with the cursor ahead. *)
Definition early : round :=
  {| rd_earliest := evidence 0 0; rd_latest := evidence 4 1; rd_cursor := ∅; rd_requested := Some (evidence 1 0);
     rd_allow_new := false; rd_records := [record 1 0 (change "c" 1); record 0 0 (change "c" 0); record 0 1 (change "u" 0)];
     rd_commits := true |}.
Definition late (commits : bool) : round :=
  {| rd_earliest := evidence 0 0; rd_latest := evidence 4 1; rd_cursor := evidence 5 2; rd_requested := None;
     rd_allow_new := false; rd_records := rev log; rd_commits := commits |}.
Definition rounds : list round := [early; late false; late true].

Definition results : list (DebeziumKafkaResumePlan * DebeziumKafkaBatchResult) :=
  @run_rounds demo_runtime ev_event_id SRP_ERROR "orders" None rounds.

Lemma log_read r : rd_earliest r = evidence 0 0 -> Forall (fun x => x ∈ log) (rd_records r) ->
  forall x, x ∈ rd_records r -> x ∈ log /\ exists e, rd_earliest r !! dk_partition x = Some e /\ e <= dk_offset x.
Proof.
  intros He Hl x Hx. rewrite Forall_forall in Hl. split; [by apply Hl|]. rewrite He.
  assert (Forall (fun x => exists e, evidence 0 0 !! dk_partition x = Some e /\ e <= dk_offset x) log) as Hall
    by (unfold log; each ltac:(exists 0; split; [reflexivity|simpl; lia])).
  rewrite Forall_forall in Hall. by apply Hall, Hl.
Qed.

Lemma rounds_complete : Forall (@complete_read demo_runtime ev_event_id SRP_ERROR "orders" log) rounds.
Proof.
  assert (Hlate : forall c, @complete_read demo_runtime ev_event_id SRP_ERROR "orders" log (late c)).
  { intros c. split; [apply log_read; [done|]; unfold late, log; cbn [rd_records rev app]; each ltac:(set_solver)|].
    intros ck plan b x s u _ Hx _ _. change (x ∈ rev log). by rewrite list_elem_of_In, <-in_rev, <-list_elem_of_In. }
  unfold rounds. each ltac:(first [apply Hlate|split]).
  - apply log_read; [done|]. unfold early, log. cbn [rd_records]. each ltac:(set_solver).
  - intros ck plan b x s u Hrun Hx Hr Ho. pose proof (round_upper _ _ _ _ _ _ _ _ _ _ Hrun Hr) as Hu. cbn in Hu.
    assert (Hall : Forall (fun x => forall u, evidence 1 0 !! dk_partition x = Some u -> dk_offset x <= u -> x ∈ rd_records early) log).
    { unfold log. each ltac:(intros v [= <-]; cbn; intros Hv; first [lia|set_solver]). }
    rewrite Forall_forall in Hall. apply (Hall x Hx u Hu). lia.
Qed.

Lemma kafka_capture_exactly_once_witness :
  applied "orders" 0 results = [0; 1; 2; 4] /\ omap (window_of 0) (map fst results) = [(0, 1); (2, 4)] /\
  tiles None (omap (window_of 0) (map fst results)) /\ StronglySorted Z.lt (applied "orders" 0 results).
Proof.
  split; [vm_compute; reflexivity|]. split; [vm_compute; reflexivity|].
  destruct (@kafka_capture_exactly_once demo_runtime ev_event_id SRP_ERROR "orders" log rounds 0 rounds_complete) as (Ht & Hs & _).
  exact (conj Ht Hs).
Defined.

Definition plan : res DebeziumKafkaResumePlan :=
  plan_debezium_kafka_resume "orders" (Some [{| sp_partition := "orders:0"; sp_values := [7] |}]) (evidence 5 0) (evidence 9 3) None true.

Lemma plan_facts : match plan with
  | Ok p => window_of 0 p = Some (8, 9) /\ window_of 1 p = Some (0, 3)
  | Raise _ => False
  end.
Proof. vm_compute. split; reflexivity. Qed.

Lemma resume_plan_bounds_witness :
  exists p, plan = Ok p /\ window_of 0 p = Some (8, 9) /\ window_of 1 p = Some (0, 3) /\
    position_for (rp_upper_checkpoint p) (_record_partition "orders" 0) = Some [9].
Proof.
  pose proof plan_facts as F. destruct plan as [p|] eqn:E; [|destruct F]. exists p.
  destruct (resume_plan_bounds _ _ _ _ _ _ _ E) as (committed & _ & _ & _ & Hpos & _ & _).
  split; [reflexivity|]. split; [apply F|]. split; [apply F|]. rewrite Hpos, (proj1 F). reflexivity.
Defined.

Definition coordination : res DebeziumKafkaCursorCoordinationPlan :=
  plan_debezium_kafka_cursor_coordination "orders" None (evidence 5 0) (evidence 9 3) {[ 0 := 8 ]} None true.

Lemma coordination_facts : match coordination with
  | Ok p => window_of 0 (cc_resume p) = Some (5, 9) /\ is_Some (seek_offsets p !! 0)
  | Raise _ => False
  end.
Proof. vm_compute. split; [reflexivity|by eexists]. Qed.

Lemma seeks_align_cursor_witness : exists p, coordination = Ok p /\ seek_offsets p !! 0 = Some 5.
Proof.
  pose proof coordination_facts as F. destruct coordination as [p|] eqn:E; [|destruct F]. exists p. split; [reflexivity|].
  destruct (seeks_align_cursor _ _ _ _ _ _ _ _ E) as (_ & Hs & _). pose proof (Hs 0 5 9 (proj1 F)) as H.
  destruct (proj2 F) as [o Ho]. rewrite Ho in H. rewrite Ho. exact H.
Defined.
End Demo.
