(* ===== verification/CdcApply.v ===== *)
(** * CDC applied to current state: UPSERT and SCD1 targets ([apply/cdc.py])

    The events of a normalised batch are applied one after the other to a dictionary of
    rows.  A row touched by CDC carries the partition and the position of its last event. *)

From stdpp Require Import base gmap strings list sorting.
From S2P Require Import Prelude PyValue PyDict Temporal ConfigTypes RunAudit CdcCapture.
#[local] Open Scope Z_scope.

Definition CDC_PARTITION : string := "_framework_cdc_partition".
Definition CDC_POSITION : string := "_framework_cdc_position".

Inductive CDCDeleteAction := DEL_APPLY | DEL_IGNORE | DEL_ERROR.
#[export] Instance CDCDeleteAction_eq_dec : EqDecision CDCDeleteAction.
Proof. solve_decision. Defined.

Record CDCCurrentStateApplyResult := {
  ccr_rows : list row;
  ccr_mutations : MutationCounts;
  ccr_events_applied : nat;
  ccr_stale_events_ignored : nat;
  ccr_no_change_events : nat;
  ccr_missing_delete_events_ignored : nat;
  ccr_delete_policy_events_ignored : nat
}.

Definition _row_key (r : row) (merge_key : list string) : res (list value) :=
  let values := map (get r) merge_key in
  if existsb is_none values then raise "CDCApplyError" "CDC target merge key columns cannot be null"
  else Ok values.

Definition _event_key (event_key : row) (merge_key : list string) : res (list value) :=
  if existsb (fun column => negb (is_some (event_key !! column))) merge_key then
    raise "CDCApplyError" "CDC event key is missing merge key columns"
  else
    let values := map (get event_key) merge_key in
    if existsb is_none values then raise "CDCApplyError" "CDC event merge key cannot contain null values"
    else Ok values.

Definition _payload_without_cdc_metadata (r : row) : row := delete CDC_POSITION (delete CDC_PARTITION r).

(** The items of a tuple or a list. *)
Definition sequence_items (v : value) : option (list value) :=
  match v with VTuple l | VList l => Some l | _ => None end.

Definition ordering_of (relation : SourceOrderRelation) : Z :=
  match relation with SO_STALE => -1 | SO_NEWER => 1 | SO_EQUAL => 0 end.

(** The event position as a tuple of values. *)
Definition event_position (p : CDCSourcePosition) : list value := map VInt (sp_values p).

Definition _assert_event_newer_than_target (current : row) (position : CDCSourcePosition)
    (lower_checkpoint : option CDCCheckpoint) : res Z :=
  let current_partition := get current CDC_PARTITION in
  let current_position := get current CDC_POSITION in
  if is_none current_partition && is_none current_position then
    match lower_checkpoint ≫= fun lower => position_for lower (sp_partition position) with
    | None => raise "CDCOrderingError" "no source-position metadata and no committed lower checkpoint"
    | Some lower_position =>
      relation ← except ["TemporalOrderingError"]
        (fun _ => raise "CDCOrderingError" "cannot be compared with committed lower checkpoint")
        (compare_source_order (event_position position) (map VInt lower_position));
      if bool_decide (relation = SO_NEWER) then Ok 1
      else raise "CDCOrderingError" "event is not above the committed lower checkpoint"
    end
  else if is_none current_partition || is_none current_position then
    raise "CDCOrderingError" "incomplete framework source-position metadata"
  else if negb (py_eqb current_partition (VStr (sp_partition position))) then
    raise "CDCOrderingError" "row moved across source partitions"
  else
    match sequence_items current_position with
    | None => raise "CDCOrderingError" "invalid source-position metadata"
    | Some target_position =>
      if negb (forallb is_int_instance target_position) then
        raise "CDCOrderingError" "invalid source-position metadata"
      else
        relation ← except ["TemporalOrderingError"]
          (fun _ => raise "CDCOrderingError" "non-comparable source-position metadata")
          (compare_source_order (event_position position) target_position);
        Ok (ordering_of relation)
    end.

(** [candidate[column] = value for column, value in zip(merge_key, key)] *)
Definition set_key (columns : list string) (key : list value) (r : row) : row :=
  foldl (fun r kv => <[kv.1 := kv.2]> r) r (zip columns key).

(** The row after an INSERT or UPDATE event. *)
Definition build_candidate (merge_key : list string) (key : list value) (current : option row)
    (event : CDCEvent) (after : row) : row :=
  <[CDC_POSITION := VTuple (event_position (ev_position event))]>
    (<[CDC_PARTITION := VStr (sp_partition (ev_position event))]>
      (set_key merge_key key (row_update (default ∅ current) after))).

(** What an event does to the row of its key, and the counter it increments. *)
Inductive cdc_effect :=
| CE_stale | CE_policy_ignored | CE_missing_delete | CE_deleted
| CE_inserted (candidate : row) | CE_unchanged | CE_repositioned (candidate : row)
| CE_updated (candidate : row).

Definition event_effect (merge_key : list string) (delete_action : CDCDeleteAction)
    (lower_checkpoint : option CDCCheckpoint) (key : list value) (current : option row)
    (event : CDCEvent) : res cdc_effect :=
  ordering ← match current with
             | None => Ok None
             | Some r => o ← _assert_event_newer_than_target r (ev_position event) lower_checkpoint;
                         Ok (Some o)
             end;
  if match ordering with Some o => o <? 0 | None => false end then Ok CE_stale
  else if bool_decide (ev_operation event = CDC_DELETE) then
    match delete_action with
    | DEL_IGNORE => Ok CE_policy_ignored
    | DEL_ERROR => raise "CDCDeleteRejectedError" "CDC DELETE rejected by policy"
    | DEL_APPLY =>
      match current with
      | None => Ok CE_missing_delete
      | Some _ =>
        if bool_decide (ordering = Some 0) then
          raise "CDCOrderingError" "CDC DELETE conflicts with existing row at equal source position"
        else Ok CE_deleted
      end
    end
  else
    match ev_after event with
    | None => raise "AssertionError" "event.after"
    | Some after =>
      let candidate := build_candidate merge_key key current event after in
      match current with
      | None => Ok (CE_inserted candidate)
      | Some r =>
        if bool_decide (ordering = Some 0) then
          if row_eqb candidate r then Ok CE_unchanged
          else raise "CDCOrderingError" "CDC event conflicts with existing row at equal source position"
        else if row_eqb (_payload_without_cdc_metadata candidate) (_payload_without_cdc_metadata r) then
          Ok (CE_repositioned candidate)
        else Ok (CE_updated candidate)
      end
    end.

(** State of the event loop. *)
Record cdc_state := {
  cst_rows_by_key : list (list value * row);
  cst_inserted : nat;
  cst_updated : nat;
  cst_deleted : nat;
  cst_stale : nat;
  cst_no_change : nat;
  cst_missing : nat;
  cst_policy : nat
}.

Definition apply_effect (s : cdc_state) (key : list value) (effect : cdc_effect) : cdc_state :=
  let d := cst_rows_by_key s in
  let put rows i u del st nc mi po :=
    {| cst_rows_by_key := rows; cst_inserted := cst_inserted s + i; cst_updated := cst_updated s + u;
       cst_deleted := cst_deleted s + del; cst_stale := cst_stale s + st;
       cst_no_change := cst_no_change s + nc; cst_missing := cst_missing s + mi;
       cst_policy := cst_policy s + po |}%nat in
  match effect with
  | CE_stale => put d 0 0 0 1 0 0 0
  | CE_policy_ignored => put d 0 0 0 0 0 0 1
  | CE_missing_delete => put d 0 0 0 0 0 1 0
  | CE_deleted => put (dpop d key) 0 0 1 0 0 0 0
  | CE_inserted c => put (dset d key c) 1 0 0 0 0 0 0
  | CE_unchanged => put d 0 0 0 0 1 0 0
  | CE_repositioned c => put (dset d key c) 0 0 0 0 1 0 0
  | CE_updated c => put (dset d key c) 0 1 0 0 0 0 0
  end%nat.

Definition cdc_step (merge_key : list string) (delete_action : CDCDeleteAction)
    (lower_checkpoint : option CDCCheckpoint) (s : cdc_state) (event : CDCEvent) : res cdc_state :=
  key ← _event_key (ev_key event) merge_key;
  effect ← event_effect merge_key delete_action lower_checkpoint key (dget (cst_rows_by_key s) key) event;
  Ok (apply_effect s key effect).

Definition index_target (existing_rows : list row) (merge_key : list string) :
    res (list (list value * row)) :=
  index_by (fun r => _row_key r merge_key) (Exn "CDCApplyError" "existing target contains duplicate key")
    (fun _ _ => Ok tt) existing_rows.

Definition cdc_init (rows_by_key : list (list value * row)) : cdc_state :=
  {| cst_rows_by_key := rows_by_key; cst_inserted := 0; cst_updated := 0; cst_deleted := 0;
     cst_stale := 0; cst_no_change := 0; cst_missing := 0; cst_policy := 0 |}.

Section apply_cdc.
Context `{PyRuntime}.

(** [events_applied] is incremented with each of the three mutation counters. *)
Definition apply_cdc_current_state (existing_rows : list row) (batch : CDCNormalizedBatch)
    (merge_key : list string) (strategy : ApplyStrategy) (delete_action : CDCDeleteAction) :
    res CDCCurrentStateApplyResult :=
  if negb (bool_decide (strategy ∈ [AS_UPSERT; AS_SCD1])) then
    raise "ValueError" "CDC current-state apply supports only UPSERT or SCD1"
  else if bool_decide (merge_key = []) || negb (unique merge_key) then
    raise "ValueError" "CDC current-state apply requires unique merge_key columns"
  else
    rows_by_key ← index_target existing_rows merge_key;
    s ← foldM (cdc_step merge_key delete_action (nb_lower_checkpoint batch)) (cdc_init rows_by_key)
          (nb_events batch);
    Ok {| ccr_rows := sorted_values repr_key (cst_rows_by_key s);
          ccr_mutations := {| mc_inserted := cst_inserted s; mc_updated := cst_updated s;
                              mc_deleted := cst_deleted s |};
          ccr_events_applied := cst_inserted s + cst_updated s + cst_deleted s;
          ccr_stale_events_ignored := cst_stale s;
          ccr_no_change_events := cst_no_change s;
          ccr_missing_delete_events_ignored := cst_missing s;
          ccr_delete_policy_events_ignored := cst_policy s |}.
End apply_cdc.

#[local] Arguments cdc_step : simpl never.
#[local] Arguments event_effect : simpl never.

(** ** The run of one key

    An event reads and writes the row of its key only, so the run of a batch is, for each
    key, the run of the events of that key on an optional row. *)

(** The row of the key after an effect. *)
Definition next_row (current : option row) (effect : cdc_effect) : option row :=
  match effect with
  | CE_stale | CE_policy_ignored | CE_missing_delete | CE_unchanged => current
  | CE_deleted => None
  | CE_inserted c | CE_repositioned c | CE_updated c => Some c
  end.

Definition key_step (mk : list string) (da : CDCDeleteAction) (lower : option CDCCheckpoint)
    (current : option row) (event : CDCEvent) : res (option row) :=
  key ← _event_key (ev_key event) mk;
  effect ← event_effect mk da lower key current event;
  Ok (next_row current effect).

#[local] Arguments key_step : simpl never.

(** The event carries the merge key [k]. *)
Definition matches (mk : list string) (k : list value) (e : CDCEvent) : bool :=
  match _event_key (ev_key e) mk with Ok k' => keq k' k | Raise _ => false end.

Definition events_of mk k (events : list CDCEvent) : list CDCEvent :=
  filter (fun e => matches mk k e = true) events.

Lemma apply_effect_rows s key eff k :
  dwf (cst_rows_by_key s) ->
  dwf (cst_rows_by_key (apply_effect s key eff)) /\
  dget (cst_rows_by_key (apply_effect s key eff)) k =
    if keq key k then (match eff with
                       | CE_stale | CE_policy_ignored | CE_missing_delete | CE_unchanged =>
                         dget (cst_rows_by_key s) k
                       | CE_deleted => None
                       | CE_inserted c | CE_repositioned c | CE_updated c => Some c
                       end)
    else dget (cst_rows_by_key s) k.
Proof.
  intros Hwf. destruct eff; simpl; (split; [first [done|by apply dwf_dset|by apply dwf_dpop]|]);
    try (by destruct (keq key k)); first [by rewrite dget_dset | by rewrite dget_dpop].
Qed.

Lemma cdc_step_rows mk da lower s e s' :
  dwf (cst_rows_by_key s) -> cdc_step mk da lower s e = Ok s' ->
  dwf (cst_rows_by_key s') /\
  forall k, if matches mk k e
            then key_step mk da lower (dget (cst_rows_by_key s) k) e = Ok (dget (cst_rows_by_key s') k)
            else dget (cst_rows_by_key s') k = dget (cst_rows_by_key s) k.
Proof.
  unfold cdc_step. intros Hwf (key & Hkey & (eff & Heff & [= <-])%bind_Ok)%bind_Ok.
  split; [by apply (apply_effect_rows s key eff [])|].
  intros k. destruct (apply_effect_rows s key eff k Hwf) as [_ ->].
  unfold matches, key_step. rewrite Hkey. destruct (keq key k) eqn:Ek; [|done].
  cbn [mbind res_bind]. rewrite <-(dget_compat _ key k) by done. rewrite Heff. simpl. by destruct eff.
Qed.

Lemma cdc_run_project mk da lower s events s' k :
  dwf (cst_rows_by_key s) -> foldM (cdc_step mk da lower) s events = Ok s' ->
  dwf (cst_rows_by_key s') /\
  foldM (key_step mk da lower) (dget (cst_rows_by_key s) k) (events_of mk k events) =
    Ok (dget (cst_rows_by_key s') k).
Proof.
  revert s. induction events as [|e events IH]; intros s Hwf; simpl; [by intros [= <-]|].
  destruct (cdc_step mk da lower s e) as [s1|] eqn:E; [|done]. intros Hrun.
  destruct (cdc_step_rows _ _ _ _ _ _ Hwf E) as [Hwf1 Hk]. specialize (Hk k).
  destruct (IH s1 Hwf1 Hrun) as [Hwf' IHk]. split; [done|].
  unfold events_of in *. rewrite filter_cons. destruct (matches mk k e).
  - rewrite decide_True by done. simpl. by rewrite Hk.
  - rewrite decide_False by done. by rewrite <-Hk.
Qed.

(** Conversely, a batch runs when every key does. *)
Lemma cdc_run_intro mk da lower s events :
  dwf (cst_rows_by_key s) ->
  Forall (fun e => is_ok (_event_key (ev_key e) mk) = true) events ->
  (forall k, is_ok (foldM (key_step mk da lower) (dget (cst_rows_by_key s) k) (events_of mk k events)) = true) ->
  exists s', foldM (cdc_step mk da lower) s events = Ok s'.
Proof.
  revert s. induction events as [|e events IH]; intros s Hwf Hkeys Hall; simpl; [by eexists|].
  apply Forall_cons in Hkeys as [He Hkeys].
  destruct (_event_key (ev_key e) mk) as [key|] eqn:Ek; [|done].
  assert (exists s1, cdc_step mk da lower s e = Ok s1) as [s1 Hs1].
  { specialize (Hall key). unfold events_of in Hall. rewrite filter_cons in Hall.
    rewrite decide_True in Hall by (unfold matches; by rewrite Ek, keq_refl). simpl in Hall.
    unfold key_step in Hall. rewrite Ek in Hall. unfold cdc_step. rewrite Ek. cbn [mbind res_bind] in *.
    destruct (event_effect _ _ _ _ _ _); [by eexists|done]. }
  rewrite Hs1. destruct (cdc_step_rows _ _ _ _ _ _ Hwf Hs1) as [Hwf1 Hrows].
  apply IH; [done|done|]. intros k. specialize (Hall k). specialize (Hrows k).
  unfold events_of in *. rewrite filter_cons in Hall. destruct (matches mk k e).
  - rewrite decide_True in Hall by done. simpl in Hall. by rewrite Hrows in Hall.
  - rewrite decide_False in Hall by done. by rewrite Hrows.
Qed.

(** ** Positions *)

Definition same_arity (e f : CDCEvent) : Prop :=
  length (sp_values (ev_position e)) = length (sp_values (ev_position f)).

(** [e] precedes [f] in the same partition. *)
Definition precedes (e f : CDCEvent) : Prop :=
  sp_partition (ev_position e) = sp_partition (ev_position f) /\ same_arity e f /\
  zs_cmp (sp_values (ev_position e)) (sp_values (ev_position f)) = Lt.

Definition positioned (e : CDCEvent) : Prop := sp_values (ev_position e) <> [].

(** The row carries the position of the event. *)
Definition row_at (r : row) (e : CDCEvent) : Prop :=
  get r CDC_PARTITION = VStr (sp_partition (ev_position e)) /\
  get r CDC_POSITION = VTuple (event_position (ev_position e)).

(** The columns [pc] and [vc] of the row hold a source position. *)
Definition carries (r : row) (pc vc partition : string) (values : list Z) : Prop :=
  get r pc = VStr partition /\ sequence_items (get r vc) = Some (map VInt values).

Lemma ordering_carried r pos part p lower :
  carries r CDC_PARTITION CDC_POSITION part p -> p <> [] -> sp_partition pos = part ->
  length (sp_values pos) = length p ->
  _assert_event_newer_than_target r pos lower =
    Ok (match zs_cmp (sp_values pos) p with Lt => -1 | Eq => 0 | Gt => 1 end).
Proof.
  intros [Hp Hv] Hne <- Har. unfold _assert_event_newer_than_target. rewrite Hp, Hv. cbn [is_none andb].
  destruct (is_none (get r CDC_POSITION)) eqn:En; [by destruct (get r CDC_POSITION)|].
  cbn [orb]. rewrite py_eqb_refl. cbn [negb].
  assert (forallb is_int_instance (map VInt p) = true) as -> by (clear; by induction p).
  cbn [negb].
  assert (event_position pos <> []) as Hnf.
  { unfold event_position. intros Hnil%map_eq_nil. rewrite Hnil in Har. by destruct p. }
  rewrite (compare_source_order_intro _ _ _ Hnf) by
    (unfold event_position; rewrite ?length_map; first [done|apply tuple_cmp_ints]).
  simpl. by destruct (zs_cmp _ _).
Qed.

Lemma ordering_at r e f lower :
  row_at r e -> positioned e -> sp_partition (ev_position f) = sp_partition (ev_position e) ->
  same_arity f e ->
  _assert_event_newer_than_target r (ev_position f) lower =
    Ok (match zs_cmp (sp_values (ev_position f)) (sp_values (ev_position e)) with
        | Lt => -1 | Eq => 0 | Gt => 1 end).
Proof.
  intros [Hp Hv] Hne Hpart Har. apply (ordering_carried _ _ (sp_partition (ev_position e))); [|done..].
  split; [done|]. by rewrite Hv.
Qed.

(** ** The candidate row *)

Lemma set_key_lookup columns (f : string -> value) r x :
  set_key columns (map f columns) r !! x = if decide (x ∈ columns) then Some (f x) else r !! x.
Proof.
  unfold set_key. revert r. induction columns as [|c columns IH]; intros r; simpl.
  - done.
  - rewrite IH. destruct (decide (x ∈ columns)) as [Hin|Hin].
    + rewrite decide_True; [done|by right].
    + destruct (decide (x = c)) as [->|Hne].
      * rewrite lookup_insert_eq, decide_True; [done|left].
      * rewrite lookup_insert_ne by done. rewrite decide_False; [done|].
        by intros [?|?]%elem_of_cons.
Qed.

Lemma set_key_union columns key (r1 r2 : row) : set_key columns key (r1 ∪ r2) = set_key columns key r1 ∪ r2.
Proof.
  unfold set_key. revert r1. induction (zip columns key) as [|[c v] l IH]; intros r1; simpl; [done|].
  by rewrite insert_union_l, IH.
Qed.

(** What an event writes, independently of the row it finds. *)
Definition overlay mk key (e : CDCEvent) (after : row) : row :=
  <[CDC_POSITION := VTuple (event_position (ev_position e))]>
    (<[CDC_PARTITION := VStr (sp_partition (ev_position e))]> (set_key mk key after)).

Lemma build_candidate_overlay mk key current e after :
  build_candidate mk key current e after = overlay mk key e after ∪ default ∅ current.
Proof.
  unfold build_candidate, overlay, row_update. by rewrite set_key_union, <-!insert_union_l.
Qed.

(** Applying the same event to its own candidate changes nothing. *)
Lemma build_candidate_idemp mk key current e after :
  build_candidate mk key (Some (build_candidate mk key current e after)) e after =
  build_candidate mk key current e after.
Proof.
  rewrite !build_candidate_overlay. simpl. by rewrite (assoc_L (∪)), (idemp_L (∪)).
Qed.

Lemma build_candidate_at mk key current e after : row_at (build_candidate mk key current e after) e.
Proof.
  unfold row_at, build_candidate. split.
  - rewrite get_insert_ne by done. apply get_insert_eq.
  - apply get_insert_eq.
Qed.

Lemma event_key_Ok ek mk key :
  _event_key ek mk = Ok key -> key = map (get ek) mk /\ existsb is_none key = false.
Proof.
  unfold _event_key. destruct (existsb _ mk); [done|].
  destruct (existsb is_none (map (get ek) mk)) eqn:E; [done|]. by intros [= <-].
Qed.

Lemma build_candidate_key mk key current e after :
  CDC_PARTITION ∉ mk -> CDC_POSITION ∉ mk -> _event_key (ev_key e) mk = Ok key ->
  _row_key (build_candidate mk key current e after) mk = Ok key.
Proof.
  intros Hp Hv [-> Hn]%event_key_Ok. unfold _row_key.
  assert (map (get (build_candidate mk (map (get (ev_key e)) mk) current e after)) mk = map (get (ev_key e)) mk)
    as ->; [|by rewrite Hn].
  apply map_ext_Forall, Forall_forall. intros c Hc. unfold build_candidate.
  rewrite get_insert_ne by (intros <-; done). rewrite get_insert_ne by (intros <-; done).
  unfold get at 1. rewrite set_key_lookup, decide_True by done. done.
Qed.

(** ** Replay of one key *)

Section replay.
Context (mk : list string) (da : CDCDeleteAction) (lower : option CDCCheckpoint).
Implicit Types (e f : CDCEvent) (es : list CDCEvent) (cur fin : option row) (c : row).

(** An INSERT or UPDATE event has its payload, and positions are not empty. *)
Definition well_formed e : Prop :=
  positioned e /\ (ev_operation e <> CDC_DELETE -> is_Some (ev_after e)).

Lemma key_step_Ok cur e fin :
  key_step mk da lower cur e = Ok fin ->
  exists key eff, _event_key (ev_key e) mk = Ok key /\
    event_effect mk da lower key cur e = Ok eff /\ fin = next_row cur eff.
Proof.
  unfold key_step. intros (key & Hk & (eff & He & [= <-])%bind_Ok)%bind_Ok. eauto.
Qed.

(** A candidate comes from a payload, at the position of the event. *)
Lemma event_effect_candidate key cur e eff c :
  event_effect mk da lower key cur e = Ok eff ->
  eff = CE_inserted c \/ eff = CE_repositioned c \/ eff = CE_updated c ->
  ev_operation e <> CDC_DELETE /\ exists after, ev_after e = Some after /\
    c = build_candidate mk key cur e after.
Proof.
  unfold event_effect. intros (o & _ & He)%bind_Ok Hc.
  destruct (match o with Some o => o <? 0 | None => false end); [by destruct Hc as [?|[?|?]]; simplify_eq|].
  case_bool_decide as Hop.
  { destruct da; [destruct cur; [case_bool_decide|]| |]; destruct Hc as [?|[?|?]]; simplify_eq. }
  split; [done|]. destruct (ev_after e) as [after|]; [|done]. exists after. split; [done|].
  destruct cur as [r|]; [|by destruct Hc as [?|[?|?]]; simplify_eq].
  case_bool_decide; [destruct (row_eqb _ _)|destruct (row_eqb _ _)];
    by destruct Hc as [?|[?|?]]; simplify_eq.
Qed.

(** A row at the position of a later event ignores the event as stale. *)
Lemma key_step_stale c e f key :
  row_at c f -> positioned f -> precedes e f -> _event_key (ev_key e) mk = Ok key ->
  key_step mk da lower (Some c) e = Ok (Some c).
Proof.
  intros Hat Hne (Hpart & Har & Hlt) Hk. unfold key_step, event_effect. rewrite Hk.
  cbn [mbind res_bind]. rewrite (ordering_at _ _ _ _ Hat Hne Hpart Har), Hlt. done.
Qed.

(** A candidate absorbs its own event. *)
Lemma key_step_absorb key cur e after :
  positioned e -> _event_key (ev_key e) mk = Ok key -> ev_operation e <> CDC_DELETE ->
  ev_after e = Some after ->
  key_step mk da lower (Some (build_candidate mk key cur e after)) e =
    Ok (Some (build_candidate mk key cur e after)).
Proof.
  intros Hne Hk Hop Hafter. unfold key_step, event_effect. rewrite Hk. cbn [mbind res_bind].
  rewrite (ordering_at _ e e _ (build_candidate_at _ _ _ _ _) Hne) by done.
  rewrite (proj2 (zs_cmp_Eq _ _) eq_refl). cbn [mbind res_bind].
  change (0 <? 0) with false. cbn match. rewrite bool_decide_false by done. rewrite Hafter.
  rewrite bool_decide_true by done. rewrite build_candidate_idemp, row_eqb_refl. done.
Qed.

(** What the run of a key leaves behind: the row it found, untouched; the candidate of its last
    writing event; or nothing, after its last deleting event. *)
Inductive trace cur : list CDCEvent -> option row -> Prop :=
| trace_untouched es :
    Forall (fun e => key_step mk da lower cur e = Ok cur) es -> trace cur es cur
| trace_written pre e post key (old : option row) after c :
    _event_key (ev_key e) mk = Ok key -> ev_operation e <> CDC_DELETE -> ev_after e = Some after ->
    c = build_candidate mk key old e after ->
    Forall (fun e' => key_step mk da lower (Some c) e' = Ok (Some c)) post ->
    trace cur (pre ++ e :: post) (Some c)
| trace_deleted pre e post :
    ev_operation e = CDC_DELETE -> da = DEL_APPLY ->
    Forall (fun e' => key_step mk da lower None e' = Ok None) post ->
    trace cur (pre ++ e :: post) None.

Lemma event_effect_deleted key cur e :
  event_effect mk da lower key cur e = Ok CE_deleted -> ev_operation e = CDC_DELETE /\ da = DEL_APPLY.
Proof.
  unfold event_effect. intros (o & _ & He)%bind_Ok.
  destruct (match o with Some o => o <? 0 | None => false end); [done|].
  case_bool_decide as Hop; [split; [done|]; by destruct da|].
  destruct (ev_after e); [|done]. destruct cur; [|done].
  case_bool_decide; [destruct (row_eqb _ _)|destruct (row_eqb _ _)]; done.
Qed.

Lemma run_trace cur es fin : foldM (key_step mk da lower) cur es = Ok fin -> trace cur es fin.
Proof.
  intros Hf. refine (foldM_ind _ (fun done fin => trace cur done fin) _ _ _ Hf _ _).
  { by apply trace_untouched. }
  intros done e s1 s2 _ Htr Hstep. pose proof Hstep as Hs.
  apply key_step_Ok in Hs as (key & eff & Hk & He & ->).
  assert (next_row s1 eff = s1 -> trace cur (done ++ [e]) s1) as Hkeep.
  { intros Heq. rewrite Heq in Hstep. destruct Htr as [es0 Hall|pre e0 post k0 c0 after c ? ? ? ? Hall|pre e0 post ? ? Hall].
    - apply trace_untouched. apply Forall_app. split; [done|by repeat constructor].
    - rewrite <-app_assoc. simpl. eapply trace_written; [done..|].
      apply Forall_app. split; [done|by repeat constructor].
    - rewrite <-app_assoc. simpl. apply trace_deleted; [done..|].
      apply Forall_app. split; [done|by repeat constructor]. }
  assert (forall c, eff = CE_inserted c \/ eff = CE_repositioned c \/ eff = CE_updated c ->
            trace cur (done ++ [e]) (Some c)) as Hwrite.
  { intros c Hc. destruct (event_effect_candidate _ _ _ _ _ He Hc) as (Hop & after & Ha & Hb).
    by eapply trace_written. }
  destruct eff; try (by apply Hkeep); try (apply Hwrite; by auto).
  apply event_effect_deleted in He as [Hop Hda]. by apply trace_deleted.
Qed.

(** A run that starts from no row, or from a row of an earlier event, does not fail. *)
Lemma fresh_run es cur :
  da = DEL_APPLY -> StronglySorted precedes es -> Forall well_formed es ->
  Forall (fun e => is_ok (_event_key (ev_key e) mk) = true) es ->
  match cur with
  | None => True
  | Some r => exists f, row_at r f /\ positioned f /\ Forall (precedes f) es
  end ->
  exists fin, foldM (key_step mk da lower) cur es = Ok fin /\
    (forall e, last es = Some e -> ev_operation e = CDC_DELETE -> fin = None).
Proof.
  intros Hda Hs. revert cur. induction Hs as [|e es Hs IH Hall]; intros cur Hwf Hk Hcur; simpl.
  { by eexists. }
  apply Forall_cons in Hwf as [[Hne Hafter] Hwf]. apply Forall_cons in Hk as [Hke Hk].
  destruct (_event_key (ev_key e) mk) as [key|] eqn:Ek; [|done].
  assert (exists n, key_step mk da lower cur e = Ok n /\
            (ev_operation e = CDC_DELETE -> n = None) /\
            match n with None => True | Some r => row_at r e end) as (n & Hn & Hdel & Hat).
  { unfold key_step, event_effect. rewrite Ek, Hda. cbn [mbind res_bind].
    assert (match cur with
            | None => True
            | Some r => _assert_event_newer_than_target r (ev_position e) lower = Ok 1
            end) as Hord.
    { destruct cur as [r|]; [|done]. destruct Hcur as (f & Hf & Hfne & Hfall).
      apply Forall_cons in Hfall as [(Hp & Ha & Hlt) _].
      rewrite (ordering_at _ _ _ _ Hf Hfne) by done.
      by rewrite zs_cmp_antisym, Hlt. }
    destruct (decide (ev_operation e = CDC_DELETE)) as [Hop|Hop].
    - rewrite !bool_decide_true by done. exists None.
      destruct cur as [r|]; [rewrite Hord|]; done.
    - rewrite !bool_decide_false by done. destruct (Hafter Hop) as [after ->].
      destruct cur as [r|]; [rewrite Hord|]; cbn [mbind res_bind].
      + change (1 <? 0) with false. cbn match. rewrite bool_decide_false by done.
        destruct (row_eqb _ _); (eexists; split; [done|]; split; [done|]; apply build_candidate_at).
      + eexists. split; [done|]. split; [done|]. apply build_candidate_at. }
  rewrite Hn. destruct (IH n) as (fin & Hfin & Hlast); [done|done| |].
  { destruct n as [r|]; [|done]. by exists e. }
  exists fin. split; [done|]. intros f Hf Hop. destruct es as [|e' es']; [|by apply (Hlast f)].
  injection Hf as <-. simpl in Hfin. rewrite Hdel in Hfin by done. by injection Hfin as <-.
Qed.

Lemma foldM_fixed {S A} (f : S -> A -> res S) s l : Forall (fun a => f s a = Ok s) l -> foldM f s l = Ok s.
Proof. induction 1 as [|a l Ha _ IH]; simpl; [done|]. by rewrite Ha. Qed.

(** Running the events of a key again from the row they left changes nothing. *)
Lemma key_replay cur es fin :
  StronglySorted precedes es -> Forall well_formed es ->
  foldM (key_step mk da lower) cur es = Ok fin -> foldM (key_step mk da lower) fin es = Ok fin.
Proof.
  intros Hs Hwf Hrun.
  assert (Forall (fun e => is_ok (_event_key (ev_key e) mk) = true) es) as Hkeys.
  { refine (foldM_ind _ (fun done _ => Forall (fun e => is_ok (_event_key (ev_key e) mk) = true) done)
      _ _ _ Hrun _ _); [done|]. intros done e s1 s2 _ Hd (key & eff & Hk & _)%key_step_Ok.
    apply Forall_app. split; [done|]. repeat constructor. by rewrite Hk. }
  destruct (run_trace _ _ _ Hrun) as [es Hall|pre e post key c0 after c Hk Hop Ha -> Hall|pre e post Hop Hda Hall].
  - by apply foldM_fixed.
  - apply foldM_fixed. apply Forall_app in Hwf as [_ [[Hne _] _]%Forall_cons].
    apply Forall_app. split; [|constructor; [by apply key_step_absorb|done]].
    apply Forall_app in Hkeys as [Hkpre _]. rewrite Forall_forall in *. intros e' He'.
    specialize (Hkpre e' He'). destruct (_event_key (ev_key e') mk) as [k'|] eqn:Ek'; [|done].
    eapply (key_step_stale _ _ e); [apply build_candidate_at|done| |done].
    apply (StronglySorted_app_1_elem_of precedes pre (e :: post)); [done|done|left].
  - replace (pre ++ e :: post) with ((pre ++ [e]) ++ post) in * by (by rewrite <-app_assoc).
    apply StronglySorted_app in Hs as (_ & Hs & _). apply Forall_app in Hwf as [Hwf _].
    apply Forall_app in Hkeys as [Hkeys _].
    destruct (fresh_run (pre ++ [e]) None Hda Hs Hwf Hkeys I) as (fin & Hfin & Hlast).
    rewrite (Hlast e) in Hfin by (done || by rewrite last_snoc).
    rewrite foldM_app, Hfin. cbn [mbind res_bind]. by apply foldM_fixed.
Qed.
End replay.

(** ** The keys of the target *)

Definition rows_keyed (mk : list string) (d : list (list value * row)) : Prop :=
  forall k r, dget d k = Some r -> exists k', _row_key r mk = Ok k' /\ keq k' k = true.

Lemma cdc_step_keyed mk da lower s e s' :
  CDC_PARTITION ∉ mk -> CDC_POSITION ∉ mk ->
  dwf (cst_rows_by_key s) -> rows_keyed mk (cst_rows_by_key s) -> cdc_step mk da lower s e = Ok s' ->
  rows_keyed mk (cst_rows_by_key s').
Proof.
  intros Hp Hv Hwf Hkd Hstep k r Hr. destruct (cdc_step_rows _ _ _ _ _ _ Hwf Hstep) as [_ Hk].
  specialize (Hk k). destruct (matches mk k e) eqn:Em; [|rewrite Hk in Hr; by apply Hkd].
  rewrite Hr in Hk. apply key_step_Ok in Hk as (key & eff & Hkey & He & Hn).
  unfold matches in Em. rewrite Hkey in Em.
  assert (forall c, eff = CE_inserted c \/ eff = CE_repositioned c \/ eff = CE_updated c -> c = r ->
            exists k', _row_key r mk = Ok k' /\ keq k' k = true) as Hcand.
  { intros c Hc <-. destruct (event_effect_candidate _ _ _ _ _ _ _ _ He Hc) as (_ & after & _ & ->).
    exists key. split; [by apply build_candidate_key|done]. }
  destruct eff; simpl in Hn; try (by apply Hkd); try (apply (Hcand candidate); [by auto|by injection Hn as ->]);
    discriminate Hn.
Qed.

Lemma cdc_run_keyed mk da lower s events s' :
  CDC_PARTITION ∉ mk -> CDC_POSITION ∉ mk ->
  dwf (cst_rows_by_key s) -> rows_keyed mk (cst_rows_by_key s) ->
  foldM (cdc_step mk da lower) s events = Ok s' -> rows_keyed mk (cst_rows_by_key s').
Proof.
  intros Hp Hv Hwf Hkd Hrun.
  refine (proj2 (foldM_ind _ (fun _ s => dwf (cst_rows_by_key s) /\ rows_keyed mk (cst_rows_by_key s))
    _ _ _ Hrun _ _)); [done|].
  intros done e s1 s2 _ [Hw Hk] Hstep. split; [by eapply cdc_step_rows|by eapply cdc_step_keyed].
Qed.

Lemma index_target_Ok rows mk d :
  index_target rows mk = Ok d -> dwf d /\ map snd d = rows /\ rows_keyed mk d.
Proof.
  intros (Hwf & Hsnd & Hall)%index_by_spec. split; [done|]. split; [done|].
  intros k r (k' & Hk & Hin)%dget_Some_elem. rewrite Forall_forall in Hall.
  destruct (Hall _ Hin) as [Hkr _]. by exists k'.
Qed.

Section cdc_results.
Context `{PyRuntime}.

Lemma apply_cdc_Ok E batch mk strategy da res :
  apply_cdc_current_state E batch mk strategy da = Ok res ->
  strategy ∈ [AS_UPSERT; AS_SCD1] /\ mk <> [] /\ unique mk = true /\
  exists d s, index_target E mk = Ok d /\
    foldM (cdc_step mk da (nb_lower_checkpoint batch)) (cdc_init d) (nb_events batch) = Ok s /\
    ccr_rows res = sorted_values repr_key (cst_rows_by_key s) /\
    ccr_mutations res = {| mc_inserted := cst_inserted s; mc_updated := cst_updated s;
                           mc_deleted := cst_deleted s |} /\
    ccr_events_applied res = (cst_inserted s + cst_updated s + cst_deleted s)%nat /\
    ccr_stale_events_ignored res = cst_stale s /\ ccr_no_change_events res = cst_no_change s /\
    ccr_missing_delete_events_ignored res = cst_missing s /\
    ccr_delete_policy_events_ignored res = cst_policy s.
Proof.
  unfold apply_cdc_current_state. case_bool_decide; [|done]. cbn [negb].
  case_bool_decide; [done|]. cbn [orb]. destruct (unique mk); [|done]. cbn [negb].
  intros (d & Hd & (s & Hs & [= <-])%bind_Ok)%bind_Ok. repeat split; try done. by exists d, s.
Qed.

(** A normalised batch orders the events of each merge key in one partition. *)
Definition ordered_batch (mk : list string) (events : list CDCEvent) : Prop :=
  StronglySorted source_lt events /\
  Forall (fun e => validate_event e = Ok tt /\ validate_values (ev_position e) = Ok tt) events /\
  forall k e f, e ∈ events_of mk k events -> f ∈ events_of mk k events ->
    sp_partition (ev_position e) = sp_partition (ev_position f) /\ same_arity e f.

Lemma validated_well_formed e :
  validate_event e = Ok tt -> validate_values (ev_position e) = Ok tt -> well_formed e.
Proof.
  unfold validate_event, validate_values, well_formed, positioned. intros He Hv. split.
  - intros Hn. rewrite Hn in Hv.
    by destruct (negb (nonempty (sp_partition (ev_position e)))).
  - intros Hop. rewrite (bool_decide_false _ Hop) in He.
    destruct (ev_after e); [by eexists|]. exfalso. cbn in He. by inv_ok He.
Qed.

Lemma events_of_ordered mk k events :
  ordered_batch mk events ->
  StronglySorted precedes (events_of mk k events) /\ Forall well_formed (events_of mk k events).
Proof.
  intros (Hs & Hval & Hpart).
  assert (sublist (events_of mk k events) events) as Hsub.
  { unfold events_of. clear. induction events as [|e events IH]; [constructor|]. rewrite filter_cons.
    destruct (decide _); by constructor. }
  split.
  - specialize (Hpart k).
    assert (StronglySorted source_lt (events_of mk k events)) as Hss by by eapply sublist_sorted.
    clear -Hss Hpart. induction Hss as [|e es Hs IH Hall]; [constructor|]. constructor.
    + apply IH. intros e' f He Hf. apply Hpart; by right.
    + rewrite Forall_forall in *. intros f Hf. destruct (Hpart e f) as [Hp Ha]; [left|by right|].
      destruct (Hall f Hf) as [Hlt|[_ Hlt]]; [|done].
      rewrite Hp in Hlt. by rewrite (proj2 (str_compare_Eq _ _) eq_refl) in Hlt.
  - apply Forall_forall. intros e He. rewrite Forall_forall in Hval.
    destruct (Hval e) as [H1 H2]; [by eapply elem_of_sublist|]. by apply validated_well_formed.
Qed.

(** C25. Replaying a CDC batch: applying an ordered batch to the rows its first application
    produced succeeds and leaves the same rows, deletes, updates and reinserts included. *)
Theorem cdc_replay E batch mk strategy da res :
  apply_cdc_current_state E batch mk strategy da = Ok res ->
  ordered_batch mk (nb_events batch) -> CDC_PARTITION ∉ mk -> CDC_POSITION ∉ mk ->
  exists res', apply_cdc_current_state (ccr_rows res) batch mk strategy da = Ok res' /\
    ccr_rows res' ≡ₚ ccr_rows res.
Proof.
  intros Happ Hord Hp Hv. destruct (apply_cdc_Ok _ _ _ _ _ _ Happ) as
    (Hst & Hmk & Hun & d & s & Hd & Hrun & Hrows & _).
  destruct (index_target_Ok _ _ _ Hd) as (Hwf & _ & Hkd).
  assert (dwf (cst_rows_by_key s)) as Hwf' by exact (proj1 (cdc_run_project _ _ _ (cdc_init d) _ _ [] Hwf Hrun)).
  pose proof (cdc_run_keyed _ _ _ (cdc_init d) _ _ Hp Hv Hwf Hkd Hrun) as Hkd'.
  destruct (index_by_reindex (fun r => _row_key r mk)
    (Exn "CDCApplyError" "existing target contains duplicate key") (fun _ _ => Ok tt)
    (cst_rows_by_key s) (ccr_rows res)) as (d2 & Hd2 & Hwf2 & Hdeq);
    [done|by rewrite Hrows, sorted_values_perm| |].
  { apply Forall_forall. intros [k r] Hin. destruct (Hkd' k r) as (k' & Hk' & Hkk); [by apply dwf_elem|].
    by exists k'. }
  assert (forall k, foldM (key_step mk da (nb_lower_checkpoint batch)) (dget d2 k)
            (events_of mk k (nb_events batch)) = Ok (dget (cst_rows_by_key s) k)) as Hreplay.
  { intros k. rewrite (Hdeq k). destruct (events_of_ordered mk k _ Hord) as [Hs Hwfe].
    eapply key_replay; [done|done|]. exact (proj2 (cdc_run_project _ _ _ (cdc_init d) _ _ k Hwf Hrun)). }
  destruct (cdc_run_intro mk da (nb_lower_checkpoint batch) (cdc_init d2) (nb_events batch)) as [s2 Hs2];
    [done| |by intros k; simpl; rewrite Hreplay|].
  { refine (foldM_ind _ (fun done _ => Forall (fun e => is_ok (_event_key (ev_key e) mk) = true) done)
      _ _ _ Hrun _ _); [done|]. intros done e s1 s3 _ Hall Hstep. apply Forall_app. split; [done|].
    repeat constructor. unfold cdc_step in Hstep. by destruct (_event_key _ _). }
  unfold apply_cdc_current_state, index_target. rewrite bool_decide_true by done. cbn [negb].
  rewrite (bool_decide_false (mk = [])) by done. rewrite Hun. cbn [negb orb]. rewrite Hd2. cbn [mbind res_bind].
  rewrite Hs2. cbn [mbind res_bind]. eexists. split; [done|]. simpl. rewrite Hrows, !sorted_values_perm.
  destruct (cdc_run_project _ _ _ (cdc_init d2) _ _ [] Hwf2 Hs2) as [Hwf3 _].
  apply deq_values_perm; [done|done|]. intros k.
  destruct (cdc_run_project _ _ _ (cdc_init d2) _ _ k Hwf2 Hs2) as [_ Hk]. simpl in Hk.
  rewrite Hreplay in Hk. by injection Hk.
Qed.
End cdc_results.

(** ** Accounting *)

#[local] Open Scope nat_scope.

Definition counted (s : cdc_state) : nat :=
  cst_inserted s + cst_updated s + cst_deleted s + cst_stale s + cst_no_change s + cst_missing s
  + cst_policy s.

Lemma length_dset {V} (d : list (list value * V)) k v :
  length (dset d k v) = match dget d k with Some _ => length d | None => S (length d) end.
Proof.
  induction d as [|[k1 v1] d IH]; simpl; [done|]. destruct (keq k1 k); [done|]. simpl. rewrite IH.
  by destruct (dget d k).
Qed.

Lemma length_dpop {V} (d : list (list value * V)) k v : dget d k = Some v -> length d = S (length (dpop d k)).
Proof.
  induction d as [|[k1 v1] d IH]; simpl; [done|]. destruct (keq k1 k); [done|]. simpl. auto.
Qed.

(** INSERT effects happen on an absent row, the other writes and the deletes on a present one. *)
Lemma event_effect_presence mk da lower key cur e eff :
  event_effect mk da lower key cur e = Ok eff ->
  match eff with
  | CE_inserted _ => cur = None
  | CE_deleted | CE_repositioned _ | CE_updated _ => is_Some cur
  | _ => True
  end.
Proof.
  unfold event_effect. intros (o & _ & He)%bind_Ok.
  destruct (match o with Some o => (o <? 0)%Z | None => false end); [by injection He as <-|].
  case_bool_decide.
  { destruct da; [destruct cur; [case_bool_decide|]| |]; simplify_eq; done. }
  destruct (ev_after e); [|done]. destruct cur; [|by injection He as <-].
  case_bool_decide; [destruct (row_eqb _ _)|destruct (row_eqb _ _)]; simplify_eq; done.
Qed.

Lemma cdc_step_counts mk da lower s e s' :
  cdc_step mk da lower s e = Ok s' ->
  counted s' = S (counted s) /\
  length (cst_rows_by_key s') + cst_deleted s' + cst_inserted s =
    length (cst_rows_by_key s) + cst_deleted s + cst_inserted s' /\
  cst_deleted s <= cst_deleted s' /\ cst_inserted s <= cst_inserted s'.
Proof.
  unfold cdc_step. intros (key & _ & (eff & He & [= <-])%bind_Ok)%bind_Ok.
  apply event_effect_presence in He. unfold counted.
  destruct eff; simpl; rewrite ?length_dset; try lia.
  - destruct He as [r Hr]. rewrite (length_dpop _ _ _ Hr). lia.
  - rewrite He. lia.
  - destruct He as [r ->]. lia.
  - destruct He as [r ->]. lia.
Qed.

Section cdc_counts.
Context `{PyRuntime}.

(** CDC accounting: every event of the batch is counted exactly once, and the number of rows
    changes by the inserts minus the deletes. *)
Theorem cdc_accounting E batch mk strategy da res :
  apply_cdc_current_state E batch mk strategy da = Ok res ->
  ccr_events_applied res + ccr_stale_events_ignored res + ccr_no_change_events res
    + ccr_missing_delete_events_ignored res + ccr_delete_policy_events_ignored res
    = length (nb_events batch) /\
  length (ccr_rows res) + mc_deleted (ccr_mutations res) =
    length E + mc_inserted (ccr_mutations res).
Proof.
  intros (_ & _ & _ & d & s & Hd & Hrun & -> & -> & -> & -> & -> & -> & ->)%apply_cdc_Ok.
  destruct (index_target_Ok _ _ _ Hd) as (_ & <- & _). rewrite sorted_values_perm, !length_map. simpl.
  enough (counted s = length (nb_events batch) /\
    length (cst_rows_by_key s) + cst_deleted s = length d + cst_inserted s)
    by (unfold counted in *; lia).
  refine (foldM_ind _ (fun done s => counted s = length done /\
    length (cst_rows_by_key s) + cst_deleted s = length d + cst_inserted s) _ _ _ Hrun _ _).
  - unfold counted. simpl. lia.
  - intros done e s1 s2 _ [H1 H2] (H3 & H4 & ? & ?)%cdc_step_counts. rewrite length_app. simpl. lia.
Qed.
End cdc_counts.

(** ** Witnesses *)

Definition demo_cdc_target : list row :=
  [{[ "id" := VInt 2; "v" := VInt 7; "note" := VStr "kept" ]};
   {[ "id" := VInt 9; "v" := VInt 9 ]}].

Definition demo_cdc_result : CDCCurrentStateApplyResult :=
  match @apply_cdc_current_state demo_runtime demo_cdc_target demo_cdc_batch ["id"] AS_UPSERT DEL_APPLY with
  | Ok r => r
  | Raise _ => {| ccr_rows := []; ccr_mutations := {| mc_inserted := 0; mc_updated := 0; mc_deleted := 0 |};
      ccr_events_applied := 0; ccr_stale_events_ignored := 0; ccr_no_change_events := 0;
      ccr_missing_delete_events_ignored := 0; ccr_delete_policy_events_ignored := 0 |}
  end.

Lemma cdc_accounting_witness :
  ccr_events_applied demo_cdc_result = 3 /\
  length (ccr_rows demo_cdc_result) + mc_deleted (ccr_mutations demo_cdc_result) =
    length demo_cdc_target + mc_inserted (ccr_mutations demo_cdc_result).
Proof.
  split; [vm_compute; reflexivity|].
  apply (@cdc_accounting demo_runtime demo_cdc_target demo_cdc_batch ["id"] AS_UPSERT DEL_APPLY).
  vm_compute. reflexivity.
Defined.

Lemma demo_cdc_ordered : ordered_batch ["id"] (nb_events demo_cdc_batch).
Proof.
  assert (nb_events demo_cdc_batch = [demo_event "e1" CDC_INSERT 1 [6; 0]%Z 10;
    demo_event "e2" CDC_UPDATE 1 [6; 1]%Z 20; demo_event "e3" CDC_DELETE 2 [7; 1]%Z 30]) as ->
    by (vm_compute; reflexivity).
  split; [|split].
  - repeat constructor; unfold source_lt; right; (split; [reflexivity|vm_compute; reflexivity]).
  - repeat constructor; vm_compute; reflexivity.
  - intros k e f He%list_elem_of_filter Hf%list_elem_of_filter.
    destruct He as [_ He], Hf as [_ Hf].
    repeat (apply elem_of_cons in He as [->|He]); try (by apply elem_of_nil in He);
      repeat (apply elem_of_cons in Hf as [->|Hf]); try (by apply elem_of_nil in Hf); by split.
Qed.

Lemma cdc_replay_witness :
  exists res', @apply_cdc_current_state demo_runtime (ccr_rows demo_cdc_result) demo_cdc_batch ["id"]
                 AS_UPSERT DEL_APPLY = Ok res' /\ ccr_rows res' ≡ₚ ccr_rows demo_cdc_result.
Proof.
  apply (@cdc_replay demo_runtime demo_cdc_target).
  - vm_compute. reflexivity.
  - apply demo_cdc_ordered.
  - apply (bool_decide_unpack _). vm_compute. exact I.
  - apply (bool_decide_unpack _). vm_compute. exact I.
Defined.
