(* ===== verification/CdcSource.v ===== *)
(** * What a CDC stream does to the source table

    The specification of applying a CDC batch: the row of a key is what the source made of it.
    [apply_source] shows that [apply_cdc_current_state] implements it for every batch of events
    above the rows of the target; the bootstrap and the provider adapters are its clients. *)

From stdpp Require Import base gmap strings list sorting.
From S2P Require Import Prelude PyValue PyDict Temporal ConfigTypes RunAudit CdcCapture CdcApply.
#[local] Open Scope Z_scope.

(** The source's own table: an INSERT or UPDATE writes its payload over the row of the key, a
    DELETE removes it. *)
Definition source_step (mk : list string) (current : option row) (e : CDCEvent) : option row :=
  match ev_operation e, ev_after e with
  | CDC_DELETE, _ => None
  | _, Some after => Some (set_key mk (map (get (ev_key e)) mk) (row_update (default ∅ current) after))
  | _, None => current
  end.

(** The row of the key [k] after [events], in source order. *)
Definition source_row (mk : list string) (start : option row) (k : list value) (events : list CDCEvent) : option row :=
  foldl (source_step mk) start (events_of mk k events).

(** The row was not written by CDC. *)
Definition unmarked (r : row) : Prop := r !! CDC_PARTITION = None /\ r !! CDC_POSITION = None.

(** The event lies above the position of its partition in the checkpoint. *)
Definition newer_than (lower : option CDCCheckpoint) (e : CDCEvent) : Prop :=
  exists l, lower ≫= (fun c => position_for c (sp_partition (ev_position e))) = Some l /\
    length l = length (sp_values (ev_position e)) /\ zs_cmp l (sp_values (ev_position e)) = Lt.

(** The row of a key lies below all the events to apply to it. *)
Definition below (lower : option CDCCheckpoint) (current : option row) (es : list CDCEvent) : Prop :=
  match current with
  | None => True
  | Some r =>
    (unmarked r /\ Forall (newer_than lower) es) \/
    exists part p, carries r CDC_PARTITION CDC_POSITION part p /\ p <> [] /\
      Forall (fun e => sp_partition (ev_position e) = part /\ length (sp_values (ev_position e)) = length p /\
                       zs_cmp p (sp_values (ev_position e)) = Lt) es
  end.

(** The event of a list can be applied on the merge key. *)
Definition keyed (mk : list string) (e : CDCEvent) : Prop := is_ok (_event_key (ev_key e) mk) = true.

(** ** One key *)

Section key.
Context (mk : list string) (Hmp : CDC_PARTITION ∉ mk) (Hmv : CDC_POSITION ∉ mk).

Lemma framework_column_absent e after :
  validate_event e = Ok tt -> ev_after e = Some after -> after !! CDC_PARTITION = None /\ after !! CDC_POSITION = None.
Proof.
  unfold validate_event. intros Hv Ha. rewrite Ha in Hv.
  assert (check_payload (ev_key e) after = Ok tt) as Hc.
  { repeat match type of Hv with (if ?b then _ else _) = _ => destruct b; [discriminate Hv|] end.
    by apply bind_Ok in Hv as ([] & _ & Hv). }
  unfold check_payload in Hc. destruct (existsb _ (map_to_list after)) eqn:E; [done|]. clear Hc.
  assert (forall c, startswith c "_framework_cdc_" = true -> after !! c = None) as Hno.
  { intros c Hc. destruct (after !! c) as [v|] eqn:Ec; [|done]. exfalso. apply not_true_iff_false in E. apply E.
    apply existsb_exists. exists (c, v). split; [|done]. by apply list_elem_of_In, elem_of_map_to_list. }
  split; by apply Hno.
Qed.

Lemma payload_candidate key current e after :
  after !! CDC_PARTITION = None -> after !! CDC_POSITION = None ->
  _payload_without_cdc_metadata (build_candidate mk (map key mk) current e after) =
    set_key mk (map key mk) (row_update (default ∅ (_payload_without_cdc_metadata <$> current)) after).
Proof.
  intros Hp Hv. apply map_eq. intros c. unfold _payload_without_cdc_metadata, build_candidate.
  destruct (decide (c = CDC_POSITION)) as [->|Hc1]; [|destruct (decide (c = CDC_PARTITION)) as [->|Hc2]].
  - rewrite lookup_delete_eq, set_key_lookup, decide_False by done. unfold row_update. rewrite lookup_union, Hv.
    destruct current as [r|]; simpl; [unfold _payload_without_cdc_metadata; by rewrite lookup_delete_eq|by rewrite lookup_empty].
  - rewrite lookup_delete_ne, lookup_delete_eq, set_key_lookup, decide_False by done. unfold row_update. rewrite lookup_union, Hp.
    destruct current as [r|]; simpl; [|by rewrite lookup_empty].
    unfold _payload_without_cdc_metadata. by rewrite lookup_delete_ne, lookup_delete_eq.
  - rewrite !lookup_delete_ne, !lookup_insert_ne, !set_key_lookup by done. unfold row_update. rewrite !lookup_union.
    destruct current as [r|]; simpl; [|done]. unfold _payload_without_cdc_metadata. by rewrite !lookup_delete_ne.
Qed.

(** The position of the row is compared with an event above it. *)
Lemma below_ordering lower r e es :
  below lower (Some r) (e :: es) -> positioned e -> _assert_event_newer_than_target r (ev_position e) lower = Ok 1.
Proof.
  intros [[[Hp Hv] Hall]|(part & p & Hc & Hne & Hall)] Hpos.
  - apply Forall_cons in Hall as [(l & Hl & Hlen & Hlt) _]. unfold _assert_event_newer_than_target.
    unfold get. rewrite Hp, Hv. cbn [default is_none andb]. rewrite Hl.
    assert (event_position (ev_position e) <> []) as Hne by (unfold event_position; by intros ?%map_eq_nil).
    rewrite (compare_source_order_intro _ _ (zs_cmp (sp_values (ev_position e)) l) Hne)
      by (unfold event_position; rewrite ?length_map; first [done|apply tuple_cmp_ints]).
    rewrite zs_cmp_antisym, Hlt. done.
  - apply Forall_cons in Hall as [(Hpart & Hlen & Hlt) _].
    rewrite (ordering_carried r (ev_position e) part p lower Hc Hne Hpart Hlen).
    by rewrite zs_cmp_antisym, Hlt.
Qed.

Lemma key_step_source lower current e es :
  below lower current (e :: es) -> validate_event e = Ok tt -> well_formed e -> keyed mk e ->
  exists next, key_step mk DEL_APPLY lower current e = Ok next /\
    _payload_without_cdc_metadata <$> next = source_step mk (_payload_without_cdc_metadata <$> current) e /\
    match next with None => True | Some r => row_at r e end.
Proof.
  intros Hb Hval [Hpos Hafter] Hk. unfold keyed in Hk.
  destruct (_event_key (ev_key e) mk) as [key|] eqn:Ek; [|done].
  pose proof (event_key_Ok _ _ _ Ek) as [Hkey _].
  assert (match current with None => True
          | Some r => _assert_event_newer_than_target r (ev_position e) lower = Ok 1 end) as Hord
    by (destruct current; [by eapply below_ordering|done]).
  unfold key_step, event_effect, source_step. rewrite Ek. cbn [mbind res_bind].
  destruct (decide (ev_operation e = CDC_DELETE)) as [Hop|Hop].
  - rewrite !bool_decide_true by done. exists None. rewrite Hop. destruct current as [r|]; [rewrite Hord|]; done.
  - rewrite !bool_decide_false by done. destruct (Hafter Hop) as [after Ha]. rewrite Ha.
    destruct (framework_column_absent e after Hval Ha) as [Hcp Hcv].
    assert (_payload_without_cdc_metadata (build_candidate mk key current e after) =
      set_key mk (map (get (ev_key e)) mk) (row_update (default ∅ (_payload_without_cdc_metadata <$> current)) after)) as Hpay
      by (rewrite Hkey; by apply payload_candidate).
    assert (match ev_operation e with CDC_DELETE => None | _ =>
      Some (set_key mk (map (get (ev_key e)) mk) (row_update (default ∅ (_payload_without_cdc_metadata <$> current)) after)) end =
      Some (_payload_without_cdc_metadata (build_candidate mk key current e after))) as ->
      by (rewrite Hpay; by destruct (ev_operation e)).
    exists (Some (build_candidate mk key current e after)).
    split; [|split; [done|apply build_candidate_at]].
    destruct current as [r|]; [rewrite Hord|]; cbn [mbind res_bind]; [|done].
    change (1 <? 0) with false. cbn match. rewrite bool_decide_false by done. by destruct (row_eqb _ _).
Qed.

Lemma row_at_below lower r e es :
  row_at r e -> positioned e -> Forall (precedes e) es -> below lower (Some r) es.
Proof.
  intros [Hp Hv] Hne Hall. right. exists (sp_partition (ev_position e)), (sp_values (ev_position e)).
  split; [split; [done|by rewrite Hv]|]. split; [done|]. eapply Forall_impl; [exact Hall|].
  intros f (H1 & H2 & H3). unfold same_arity in H2. auto.
Qed.

Lemma key_run_source lower current es :
  below lower current es -> StronglySorted precedes es ->
  Forall (fun e => validate_event e = Ok tt /\ well_formed e /\ keyed mk e) es ->
  exists fin, foldM (key_step mk DEL_APPLY lower) current es = Ok fin /\
    _payload_without_cdc_metadata <$> fin = foldl (source_step mk) (_payload_without_cdc_metadata <$> current) es /\
    forall r, fin = Some r -> current = Some r \/ exists e, e ∈ es /\ row_at r e.
Proof.
  intros Hb Hs. revert current Hb. induction Hs as [|e es Hs IH Hall]; intros current Hb Hwf; simpl; [eexists; by eauto|].
  apply Forall_cons in Hwf as [(Hval & Hw & Hk) Hwf].
  destruct (key_step_source _ _ _ _ Hb Hval Hw Hk) as (next & Hn & Hp & Hat). rewrite Hn. cbn [mbind res_bind].
  rewrite <-Hp. destruct (IH next) as (fin & Hfin & Hpay & Hrow); [|done|].
  { destruct next as [r|]; [|done]. eapply row_at_below; [done|apply Hw|done]. }
  exists fin. split; [done|]. split; [done|]. intros r Hr. right. destruct (Hrow r Hr) as [->|(f & Hf & Hrf)].
  - exists e. split; [left|done].
  - exists f. split; [by right|done].
Qed.
End key.

(** ** A batch *)

Lemma filter_sublist {A} (P : A -> Prop) `{!forall x, Decision (P x)} (l : list A) : sublist (filter P l) l.
Proof.
  induction l as [|x l IH]; [constructor|]. rewrite filter_cons. destruct (decide _); by constructor.
Qed.

Lemma filter_comm {A} (P Q : A -> Prop) `{!forall x, Decision (P x)} `{!forall x, Decision (Q x)} (l : list A) :
  filter P (filter Q l) = filter Q (filter P l).
Proof.
  induction l as [|x l IH]; [done|]. rewrite !filter_cons.
  destruct (decide (P x)) eqn:EP, (decide (Q x)) eqn:EQ; rewrite ?filter_cons, ?EP, ?EQ; congruence.
Qed.

Lemma sublist_events_of mk k events : sublist (events_of mk k events) events.
Proof. apply filter_sublist. Qed.

Section apply.
Context `{PyRuntime} (mk : list string).
Context (Hmk : mk <> []) (Hun : unique mk = true) (Hmp : CDC_PARTITION ∉ mk) (Hmv : CDC_POSITION ∉ mk).

(** Applying a batch makes of every key what the source made of it; a row is left as it was or carries the
    position of an event of the batch. *)
Lemma apply_source E d batch strategy :
  strategy ∈ [AS_UPSERT; AS_SCD1] -> index_target E mk = Ok d ->
  ordered_batch mk (nb_events batch) -> Forall (keyed mk) (nb_events batch) ->
  (forall k, below (nb_lower_checkpoint batch) (dget d k) (events_of mk k (nb_events batch))) ->
  exists res d', apply_cdc_current_state E batch mk strategy DEL_APPLY = Ok res /\
    index_target (ccr_rows res) mk = Ok d' /\
    (forall k, _payload_without_cdc_metadata <$> dget d' k =
      source_row mk (_payload_without_cdc_metadata <$> dget d k) k (nb_events batch)) /\
    forall k r, dget d' k = Some r -> dget d k = Some r \/ exists e, e ∈ nb_events batch /\ row_at r e.
Proof.
  intros Hst Hd Hord Hkeyed Hbelow. destruct (index_target_Ok _ _ _ Hd) as (Hwf & _ & Hkd).
  assert (forall k, exists fin, foldM (key_step mk DEL_APPLY (nb_lower_checkpoint batch)) (dget d k)
      (events_of mk k (nb_events batch)) = Ok fin /\
      _payload_without_cdc_metadata <$> fin = source_row mk (_payload_without_cdc_metadata <$> dget d k) k (nb_events batch) /\
      (forall r, fin = Some r -> dget d k = Some r \/ exists e, e ∈ events_of mk k (nb_events batch) /\ row_at r e)) as Hrun.
  { intros k. destruct (events_of_ordered mk k _ Hord) as [Hs Hw]. apply key_run_source; [done..|].
    destruct Hord as (_ & Hval & _). rewrite Forall_forall in Hval, Hw, Hkeyed. apply Forall_forall.
    intros e He. pose proof (elem_of_sublist _ _ _ He (sublist_events_of mk k _)) as He'.
    split; [by apply Hval|]. split; [by apply Hw|by apply Hkeyed]. }
  destruct (cdc_run_intro mk DEL_APPLY (nb_lower_checkpoint batch) (cdc_init d) (nb_events batch)) as [s Hs]; [done|done| |].
  { intros k. destruct (Hrun k) as (fin & Hf & _). simpl. by rewrite Hf. }
  destruct (cdc_run_project _ _ _ (cdc_init d) _ _ [] Hwf Hs) as [Hwf' _].
  pose proof (cdc_run_keyed _ _ _ (cdc_init d) _ _ Hmp Hmv Hwf Hkd Hs) as Hkd'.
  destruct (index_by_reindex (fun r => _row_key r mk)
    (Exn "CDCApplyError" "existing target contains duplicate key") (fun _ _ => Ok tt)
    (cst_rows_by_key s) (sorted_values repr_key (cst_rows_by_key s))) as (d2 & Hd2 & _ & Hdeq); [done|by rewrite sorted_values_perm| |].
  { apply Forall_forall. intros [k r] Hin. destruct (Hkd' k r) as (k' & Hk' & Hkk); [by apply dwf_elem|].
    by exists k'. }
  assert (forall k, exists fin, dget d2 k = fin /\
      _payload_without_cdc_metadata <$> fin = source_row mk (_payload_without_cdc_metadata <$> dget d k) k (nb_events batch) /\
      (forall r, fin = Some r -> dget d k = Some r \/ exists e, e ∈ events_of mk k (nb_events batch) /\ row_at r e)) as Hfinal.
  { intros k. destruct (Hrun k) as (fin & Hf & Hk). exists fin. split; [|done]. rewrite (Hdeq k).
    pose proof (proj2 (cdc_run_project _ _ _ (cdc_init d) _ _ k Hwf Hs)) as Hr. simpl in Hr. rewrite Hf in Hr. by injection Hr. }
  eexists _, d2. split; [|split; [|split]].
  - unfold apply_cdc_current_state. rewrite bool_decide_true by done. cbn [negb].
    rewrite (bool_decide_false (mk = [])) by done. rewrite Hun. cbn [negb orb]. rewrite Hd. cbn [mbind res_bind].
    rewrite Hs. cbn [mbind res_bind]. reflexivity.
  - exact Hd2.
  - intros k. by destruct (Hfinal k) as (fin & -> & ? & _).
  - intros k r Hr. destruct (Hfinal k) as (fin & Hf & _ & Hrow). destruct (Hrow r) as [|(e & He & Hat)]; [congruence|by left|right].
    exists e. split; [|done]. by eapply elem_of_sublist, sublist_events_of.
Qed.
End apply.

(** ** Source order *)

Lemma source_sorted_unique (l m : list CDCEvent) :
  StronglySorted source_lt l -> StronglySorted source_lt m -> (forall e, e ∈ l <-> e ∈ m) -> l = m.
Proof.
  assert (forall l, StronglySorted source_lt l -> NoDup l) as Hnd.
  { induction 1 as [|e es Hs IH Hall]; [constructor|]. constructor; [|done]. intros He.
    rewrite Forall_forall in Hall. by apply (source_lt_irrefl e e eq_refl), Hall. }
  intros Hl Hm Heq. apply (StronglySorted_unique_strong source_lt); [|done|done|by apply NoDup_Permutation; auto].
  intros x y _ _ H1 H2. exfalso. eapply (source_lt_irrefl x x); [done|by eapply source_lt_trans].
Qed.

(** A prefix-closed part of a sorted list comes first. *)
Lemma filter_split_sorted {A} (R : A -> A -> Prop) (P Q : A -> Prop) `{!forall x, Decision (P x)} `{!forall x, Decision (Q x)} l :
  StronglySorted R l -> (forall x y, x ∈ l -> y ∈ l -> R x y -> P y -> P x) -> (forall x, P x -> Q x) ->
  filter Q l = filter P l ++ filter (fun x => Q x /\ ~ P x) l.
Proof.
  intros Hs Hdown HPQ. induction Hs as [|x l Hs IH Hall]; [done|]. rewrite !filter_cons.
  destruct (decide (P x)) as [HP|HP].
  - rewrite (decide_True (P:=Q x)) by auto. rewrite (decide_False (P:=Q x /\ ~ P x)) by tauto. simpl.
    f_equal. apply IH. intros a b Ha Hb. apply Hdown; by right.
  - assert (filter P l = []) as Hnil.
    { apply filter_nil_iff, Forall_forall. intros y Hy HPy. apply HP. rewrite Forall_forall in Hall.
      apply (Hdown x y); [left|by right|by apply Hall|done]. }
    rewrite Hnil in *. rewrite IH by (intros a b Ha Hb; apply Hdown; by right). simpl.
    destruct (decide (Q x)) as [HQ|HQ].
    + by rewrite (decide_True (P:=Q x /\ ~ P x)).
    + by rewrite (decide_False (P:=Q x /\ ~ P x)) by tauto.
Qed.
