(* ===== verification/Bootstrap.v ===== *)
(** * From a full baseline into steady-state capture
    ([capture/bootstrap_watermark.py], [capture/bootstrap_cdc.py])

    A baseline is fenced by a position of the source: [plan_first_watermark_batch] and
    [normalize_bootstrap_cdc_batch] read what comes after the fence.  The theorems say that
    nothing falls between the two and nothing is applied twice. *)

From stdpp Require Import base gmap strings list sorting.
From S2P Require Import Prelude PyValue PyDict Ordering Temporal ConfigTypes RunAudit RuntimeState Watermark CdcCapture CdcApply CdcSource.
#[local] Open Scope Z_scope.

(** ** Watermark bootstrap *)

Definition watermark_evidence_error {A} (site : string) : res A := raise "WatermarkBootstrapEvidenceError" site.

Record WatermarkBootstrapEvidence := {
  we_dataset_id : string;
  we_snapshot_id : string;
  we_source_epoch : string;
  we_boundary : WatermarkPosition;
  we_complete_baseline : bool;
  we_baseline_consistent_through_boundary : bool;
  we_watermark_ordering_verified : bool;
  we_post_boundary_changes_guaranteed_visible : bool
}.

Record WatermarkBootstrapPlan := {
  wbp_dataset_id : string;
  wbp_snapshot_id : string;
  wbp_source_epoch : string;
  wbp_baseline_watermark : WatermarkPosition;
  wbp_overlap_window_seconds : Z;
  wbp_first_incremental_may_reread_baseline : bool;
  wbp_requires_idempotent_downstream : bool
}.

Definition _validate_boundary_shape (boundary : WatermarkPosition) (config : WatermarkConfig) : res unit :=
  if is_none (wp_value boundary) then watermark_evidence_error "watermark bootstrap boundary cannot be null"
  else if negb (bool_decide (length (wp_tie_breaker boundary) = length (wm_tie_breaker config))) then
    watermark_evidence_error "watermark bootstrap boundary tie-breaker arity does not match WatermarkConfig"
  else if (wm_overlap_window_seconds config =? 0) && bool_decide (wm_tie_breaker config = []) then
    watermark_evidence_error "strict watermark bootstrap requires a deterministic tie-breaker"
  else if (wm_overlap_window_seconds config >? 0) && negb (is_datetime (wp_value boundary)) then
    watermark_evidence_error "positive watermark overlap bootstrap requires a datetime boundary"
  else Ok tt.

Definition plan_watermark_bootstrap (evidence : WatermarkBootstrapEvidence) (config : WatermarkConfig) :
    res WatermarkBootstrapPlan :=
  _ ← _validate_boundary_shape (we_boundary evidence) config;
  if negb (we_complete_baseline evidence) then
    watermark_evidence_error "watermark bootstrap requires a complete authoritative baseline"
  else if negb (we_baseline_consistent_through_boundary evidence) then
    watermark_evidence_error "watermark bootstrap requires proof that baseline is consistent through the boundary"
  else if negb (we_watermark_ordering_verified evidence) then
    watermark_evidence_error "watermark bootstrap requires a verified deterministic source ordering contract"
  else if negb (we_post_boundary_changes_guaranteed_visible evidence) then
    watermark_evidence_error "watermark bootstrap cannot prove that future source changes remain visible"
  else
    let overlap := wm_overlap_window_seconds config in
    Ok {| wbp_dataset_id := we_dataset_id evidence;
          wbp_snapshot_id := we_snapshot_id evidence;
          wbp_source_epoch := we_source_epoch evidence;
          wbp_baseline_watermark := we_boundary evidence;
          wbp_overlap_window_seconds := overlap;
          wbp_first_incremental_may_reread_baseline := overlap >? 0;
          wbp_requires_idempotent_downstream := overlap >? 0 |}.

Definition plan_first_watermark_batch (rows : list row) (evidence : WatermarkBootstrapEvidence) (config : WatermarkConfig) :
    res WatermarkBatch :=
  plan ← plan_watermark_bootstrap evidence config;
  plan_watermark_batch rows config (Some (wbp_baseline_watermark plan)).

(** Python's [==] of two positions. *)
Definition position_eqb (p q : WatermarkPosition) : bool :=
  py_eqb (wp_value p) (wp_value q) && py_eqb (VTuple (wp_tie_breaker p)) (VTuple (wp_tie_breaker q)).

(** Python's [==] of two evidence models. *)
Definition evidence_eqb (a b : WatermarkBootstrapEvidence) : bool :=
  String.eqb (we_dataset_id a) (we_dataset_id b) && String.eqb (we_snapshot_id a) (we_snapshot_id b)
  && String.eqb (we_source_epoch a) (we_source_epoch b) && position_eqb (we_boundary a) (we_boundary b)
  && eqb (we_complete_baseline a) (we_complete_baseline b)
  && eqb (we_baseline_consistent_through_boundary a) (we_baseline_consistent_through_boundary b)
  && eqb (we_watermark_ordering_verified a) (we_watermark_ordering_verified b)
  && eqb (we_post_boundary_changes_guaranteed_visible a) (we_post_boundary_changes_guaranteed_visible b).

Definition assert_same_watermark_bootstrap (expected observed : WatermarkBootstrapEvidence) : res unit :=
  raise_if (negb (evidence_eqb expected observed)) "WatermarkBootstrapEvidenceError"
    "watermark bootstrap evidence changed between attempts; reuse the original baseline fence".

(** ** CDC bootstrap *)

Definition cdc_evidence_error {A} (site : string) : res A := raise "CDCBootstrapEvidenceError" site.

Record CDCBootstrapEvidence := {
  ce_dataset_id : string;
  ce_snapshot_id : string;
  ce_source_epoch : string;
  ce_stream_start_checkpoint : CDCCheckpoint;
  ce_snapshot_checkpoint : CDCCheckpoint;
  ce_complete_snapshot : bool;
  ce_snapshot_consistent_through_checkpoint : bool;
  ce_stream_retained_from_start : bool
}.

Record CDCBootstrapPlan := {
  cbp_dataset_id : string;
  cbp_snapshot_id : string;
  cbp_source_epoch : string;
  cbp_stream_start_checkpoint : CDCCheckpoint;
  cbp_lower_checkpoint : CDCCheckpoint
}.

(** A dictionary comprehension: a later position of a partition replaces an earlier one. *)
Definition _partition_map (checkpoint : CDCCheckpoint) : gmap string (list Z) :=
  foldl (fun m item => <[sp_partition item := sp_values item]> m) ∅ checkpoint.

Definition _require_same_partitions (left right : CDCCheckpoint) : res unit :=
  raise_if (negb (bool_decide (dom (_partition_map left) = dom (_partition_map right)))) "CDCBootstrapEvidenceError"
    "CDC bootstrap partition set changed; repartitioning during bootstrap is not certified".

(** One iteration of the loop over the positions of the snapshot. *)
Definition check_stream_start (start : gmap string (list Z)) (entry : string * list Z) : res unit :=
  match start !! entry.1 with
  | None => raise "KeyError" "partition"
  | Some position =>
    raise_if (zs_ltb entry.2 position) "CDCBootstrapEvidenceError"
      "CDC stream starts after snapshot checkpoint; changes may be missing"
  end.

Definition plan_cdc_bootstrap (evidence : CDCBootstrapEvidence) : res CDCBootstrapPlan :=
  if negb (ce_complete_snapshot evidence) then cdc_evidence_error "CDC bootstrap requires a complete snapshot"
  else if negb (ce_snapshot_consistent_through_checkpoint evidence) then
    cdc_evidence_error "CDC bootstrap requires proof that snapshot is consistent through its checkpoint"
  else if negb (ce_stream_retained_from_start evidence) then
    cdc_evidence_error "CDC bootstrap requires retained/buffered CDC from stream start"
  else if bool_decide (ce_snapshot_checkpoint evidence = []) then
    cdc_evidence_error "CDC bootstrap snapshot checkpoint cannot be empty"
  else
    _ ← _require_same_partitions (ce_stream_start_checkpoint evidence) (ce_snapshot_checkpoint evidence);
    let start := _partition_map (ce_stream_start_checkpoint evidence) in
    let snapshot := _partition_map (ce_snapshot_checkpoint evidence) in
    _ ← mapM_res (check_stream_start start) (map_to_list snapshot);
    Ok {| cbp_dataset_id := ce_dataset_id evidence;
          cbp_snapshot_id := ce_snapshot_id evidence;
          cbp_source_epoch := ce_source_epoch evidence;
          cbp_stream_start_checkpoint := ce_stream_start_checkpoint evidence;
          cbp_lower_checkpoint := ce_snapshot_checkpoint evidence |}.

Definition normalize_bootstrap_cdc_batch `{PyRuntime} (content_hash : CDCEvent -> string) (events : list CDCEvent)
    (evidence : CDCBootstrapEvidence) (upper_checkpoint : CDCCheckpoint) (complete_through_upper : bool) :
    res CDCNormalizedBatch :=
  plan ← plan_cdc_bootstrap evidence;
  _ ← _require_same_partitions (cbp_lower_checkpoint plan) upper_checkpoint;
  normalize_cdc_batch content_hash events upper_checkpoint (Some (cbp_lower_checkpoint plan)) complete_through_upper.

(** ** Lemmas *)

Lemma plan_bootstrap_Ok evidence config p :
  plan_watermark_bootstrap evidence config = Ok p ->
  _validate_boundary_shape (we_boundary evidence) config = Ok tt /\ wbp_baseline_watermark p = we_boundary evidence /\
  wbp_overlap_window_seconds p = wm_overlap_window_seconds config /\
  we_complete_baseline evidence = true /\ we_baseline_consistent_through_boundary evidence = true /\
  we_watermark_ordering_verified evidence = true /\ we_post_boundary_changes_guaranteed_visible evidence = true.
Proof.
  unfold plan_watermark_bootstrap. intros ([] & -> & H)%bind_Ok.
  destruct (we_complete_baseline evidence), (we_baseline_consistent_through_boundary evidence),
    (we_watermark_ordering_verified evidence), (we_post_boundary_changes_guaranteed_visible evidence); try discriminate H.
  injection H as <-. done.
Qed.

(** A position after a datetime boundary is inside every overlap window before it. *)
Lemma after_in_overlap config boundary lower it z :
  0 <= wm_overlap_window_seconds config -> _overlap_lower_bound boundary config = Ok lower ->
  compare_watermark_positions it.2 boundary = Ok z -> 0 < z -> is_ok (in_overlap lower it) = true ->
  in_overlap lower it = Ok true.
Proof.
  intros Hw Hl (v & Hv & Hz)%compare_positions_iff Hpos Hok. unfold _overlap_lower_bound in Hl.
  apply bind_Ok in Hl as (b & Hb & [= <-]). unfold in_overlap in *.
  destruct (datetime_instant (wp_value it.2)) as [i|] eqn:Hi; [|done]. cbn [mbind res_bind]. f_equal. apply Z.leb_le.
  apply compare_scalar_iff in Hv as (Hx & Hy & c & Hc & ->). specialize (Hx ""). specialize (Hy "").
  destruct (wp_value it.2) as [| | | | |[o|] u| | | | | |]; try discriminate Hi; [|discriminate Hx].
  destruct (wp_value boundary) as [| | | | |[o'|] u'| | | | | |]; try discriminate Hb; [|discriminate Hy].
  injection Hi as <-. injection Hb as <-. simpl in *. injection Hc as <-.
  destruct (Z.compare_spec (u - o) (u' - o')); simpl in Hz; lia.
Qed.

Lemma filterM_res_oks {A} (f : A -> res bool) l l' :
  filterM_res f l = Ok l' -> Forall (fun a => is_ok (f a) = true) l.
Proof. intros [H _]%filterM_res_Ok. exact H. Qed.

(** The first incremental batch leaves no gap after the baseline: the batch is made of source rows, and
    every source row whose position lies after the boundary is in it, whatever the overlap.  Without an
    overlap window the batch holds nothing else, so no row of the baseline is read a second time; with one,
    the plan asks for an idempotent target.  The watermark never falls behind the boundary. *)
Theorem watermark_bootstrap_no_gap rows evidence config b :
  validate_tie_breaker config = Ok tt -> plan_first_watermark_batch rows evidence config = Ok b ->
  exists p ps selected, plan_watermark_bootstrap evidence config = Ok p /\ position_rows rows config = Ok ps /\
    wb_rows b = map fst selected /\ (forall it, it ∈ selected -> it ∈ ps) /\
    (forall it z, it ∈ ps -> compare_watermark_positions it.2 (we_boundary evidence) = Ok z -> 0 < z -> it ∈ selected) /\
    (wbp_requires_idempotent_downstream p = false -> forall it, it ∈ selected <->
       it ∈ ps /\ exists z, compare_watermark_positions it.2 (we_boundary evidence) = Ok z /\ 0 < z) /\
    exists after, wb_after b = Some after /\ (after = we_boundary evidence \/
      exists z, compare_watermark_positions after (we_boundary evidence) = Ok z /\ 0 < z).
Proof.
  intros Hconf (p & Hp & Hb)%bind_Ok. destruct (plan_bootstrap_Ok _ _ _ Hp) as (_ & Hbase & _).
  rewrite Hbase in Hb. assert (wbp_requires_idempotent_downstream p = (wm_overlap_window_seconds config >? 0)) as Hidem.
  { unfold plan_watermark_bootstrap in Hp. apply bind_Ok in Hp as ([] & _ & H).
    repeat match type of H with (if ?b then _ else _) = _ => destruct b; [discriminate H|] end. by injection H as <-. }
  assert (0 <= wm_overlap_window_seconds config) as Hov.
  { unfold validate_tie_breaker in Hconf. destruct (negb (nonempty _) || _) eqn:E; [done|].
    apply orb_false_iff in E as [_ E]. lia. }
  destruct (plan_watermark_batch_Ok _ _ _ _ Hb) as (ps & srt & sel & Hps & Hsrt & Hsel & Hrows & _ & _ & Hlast).
  pose proof (sortM_perm _ _ _ Hsrt) as Hperm. pose proof Hsel as Hsel'.
  apply select_positioned_filter in Hsel as [Hsub Hfil].
  assert (forall it, it ∈ sel -> it ∈ ps) as Hin by (intros it Hit; rewrite <-Hperm; by eapply elem_of_sublist).
  exists p, ps, sel. do 4 (split; [done|]). unfold select_positioned in Hsel'. rewrite Hidem.
  split; [|split].
  - intros it z Hit Hz Hpos. rewrite <-Hperm in Hit. destruct (_ >? 0).
    + destruct Hfil as (lower & Hl & ->). apply list_elem_of_filter. split; [|done].
      rewrite Hl in Hsel'. cbn [mbind res_bind] in Hsel'. apply filterM_res_oks in Hsel'. rewrite Forall_forall in Hsel'.
      eapply after_in_overlap; [done|done|done|done|by apply Hsel'].
    + destruct Hfil as [_ ->]. apply list_elem_of_filter. split; [|done]. unfold after_before. rewrite Hz. cbn [mbind res_bind].
      f_equal. lia.
  - intros Hno it. rewrite Hno in Hfil. destruct Hfil as [_ ->]. rewrite list_elem_of_filter, Hperm. unfold after_before.
    split; [intros [(z & Hz & [= E])%bind_Ok Hit]; split; [done|]; exists z; split; [done|lia]|].
    intros (Hit & z & Hz & Hpos). rewrite Hz. cbn [mbind res_bind]. split; [f_equal; lia|done].
  - destruct (last sel) as [l|]; [|rewrite Hlast; eexists; split; [done|by left]].
    destruct Hlast as (after & -> & z & Hz & ->). eexists. split; [done|].
    destruct (z <=? 0) eqn:E; [by left|]. right. exists z. split; [done|lia].
Qed.

(** ** The CDC handoff *)

Lemma position_for_None c p : position_for c p = None <-> p ∉ map sp_partition c.
Proof.
  unfold position_for. destruct (list_find _ c) as [[i item]|] eqn:E.
  - apply list_find_Some in E as (Hi & <- & _). split; [done|]. intros Hno. destruct Hno.
    apply list_elem_of_fmap_2. by eapply list_elem_of_lookup_2.
  - apply list_find_None in E. split; [|done]. intros _ (item & -> & Hin)%list_elem_of_fmap.
    rewrite Forall_forall in E. by apply (E item).
Qed.

Lemma partition_map_dom c p : p ∈ dom (_partition_map c) <-> p ∈ map sp_partition c.
Proof.
  unfold _partition_map. enough (forall m : gmap string (list Z), p ∈ dom (foldl (fun m item => <[sp_partition item := sp_values item]> m) m c) <->
    p ∈ dom m \/ p ∈ map sp_partition c) as -> by set_solver.
  induction c as [|item c IH]; intros m; simpl; [set_solver|]. rewrite IH, dom_insert. set_solver.
Qed.

(** The events of the source through a checkpoint. *)
Definition through (c : CDCCheckpoint) (history : list CDCEvent) : list CDCEvent :=
  filter (fun e => at_or_below (Some c) e = true) history.

Lemma at_or_below_Some c e :
  at_or_below (Some c) e = true <->
  exists l, position_for c (sp_partition (ev_position e)) = Some l /\ zs_leb (sp_values (ev_position e)) l = true.
Proof. unfold at_or_below. destruct (position_for c _) as [l|]; [|naive_solver]. naive_solver. Qed.

Lemma at_or_below_precedes c e f :
  precedes e f -> at_or_below (Some c) f = true -> at_or_below (Some c) e = true.
Proof.
  intros (Hp & _ & Hlt) (l & Hl & Hle)%at_or_below_Some. apply at_or_below_Some. rewrite Hp. exists l. split; [done|].
  eapply zs_leb_trans; [|exact Hle]. apply zs_leb_cases. by left.
Qed.

Lemma plan_cdc_Ok evidence p :
  plan_cdc_bootstrap evidence = Ok p -> cbp_lower_checkpoint p = ce_snapshot_checkpoint evidence.
Proof.
  unfold plan_cdc_bootstrap. intros H.
  repeat match type of H with (if ?b then _ else _) = _ => destruct b; [discriminate H|] end.
  apply bind_Ok in H as (u & _ & H). by apply bind_Ok in H as (us & _ & [= <-]).
Qed.

Lemma same_partitions left right p :
  _require_same_partitions left right = Ok tt -> is_Some (position_for left p) <-> is_Some (position_for right p).
Proof.
  unfold _require_same_partitions, raise_if. case_bool_decide as E; [|done]. intros _.
  pose proof (partition_map_dom left p) as H1. pose proof (partition_map_dom right p) as H2. rewrite E in H1.

  destruct (position_for left p) eqn:E1, (position_for right p) eqn:E2; try (split; by eauto); exfalso.
  - apply position_for_None in E2. apply E2, H2, H1. destruct (decide (p ∈ map sp_partition left)) as [|Hn]; [done|].
    apply position_for_None in Hn. congruence.
  - apply position_for_None in E1. apply E1, H1, H2. destruct (decide (p ∈ map sp_partition right)) as [|Hn]; [done|].
    apply position_for_None in Hn. congruence.
Qed.

Section handoff.
Context `{PyRuntime} (content_hash : CDCEvent -> string) (mk : list string).

(** The stream of the source: one order, one partition per merge key, positions of the shape of the fence. *)
Record history_ok (fence : CDCCheckpoint) (history : list CDCEvent) : Prop := {
  ho_sorted : StronglySorted source_lt history;
  ho_valid : Forall (fun e => validate_event e = Ok tt /\ validate_values (ev_position e) = Ok tt /\ keyed mk e) history;
  ho_keys k e f : e ∈ events_of mk k history -> f ∈ events_of mk k history ->
    sp_partition (ev_position e) = sp_partition (ev_position f) /\ same_arity e f;
  ho_arity e l : e ∈ history -> position_for fence (sp_partition (ev_position e)) = Some l ->
    length l = length (sp_values (ev_position e))
}.

(** The batch after the fence holds the events of the source between the fence and the upper checkpoint. *)
Lemma bootstrap_batch events evidence upper complete b history :
  StronglySorted source_lt history ->
  normalize_bootstrap_cdc_batch content_hash events evidence upper complete = Ok b ->
  (forall e, e ∈ events -> e ∈ history) ->
  (forall e, e ∈ history -> at_or_below (Some upper) e = true ->
     at_or_below (Some (ce_snapshot_checkpoint evidence)) e = false -> e ∈ events) ->
  faithful content_hash events ->
  nb_lower_checkpoint b = Some (ce_snapshot_checkpoint evidence) /\
  (forall e, at_or_below (Some (ce_snapshot_checkpoint evidence)) e = true -> at_or_below (Some upper) e = true) /\
  (forall p, is_Some (position_for (ce_snapshot_checkpoint evidence) p) <-> is_Some (position_for upper p)) /\
  nb_events b = filter (fun e => at_or_below (Some upper) e = true /\
    ~ at_or_below (Some (ce_snapshot_checkpoint evidence)) e = true) history.
Proof.
  intros Hs (p & Hp & ([] & Hsame & Hb)%bind_Ok)%bind_Ok Hsub Hall Hfaith. rewrite (plan_cdc_Ok _ _ Hp) in Hsame, Hb.
  set (fence := ce_snapshot_checkpoint evidence) in *.
  destruct (normalize_Ok _ _ _ _ _ _ Hb) as (_ & Hwin & s & firsts & committed & _ & _ & Heq).
  destruct (normalize_exact _ _ _ _ _ _ Hb) as (_ & Hsorted & Hin & _ & Hcov & _).
  assert (forall e, at_or_below (Some fence) e = true -> at_or_below (Some upper) e = true) as Hmono.
  { intros e (l & Hl & Hle)%at_or_below_Some. unfold _validate_window in Hwin.
    destruct (check_no_regress_Ok _ _ _ _ Hwin _ _ Hl) as (l' & Hl' & Hle'). apply at_or_below_Some.
    exists l'. split; [done|]. by eapply zs_leb_trans. }
  split; [by rewrite Heq|]. split; [done|]. split; [intros q; by apply same_partitions|].
  apply source_sorted_unique; [done|eapply sublist_sorted; [apply filter_sublist|done]|].
  rewrite Forall_forall in Hin, Hcov. intros e. rewrite list_elem_of_filter. split.
  - intros (He & Hbel & u & Hu & Hle)%Hin. split; [|by apply Hsub].
    split; [apply at_or_below_Some; by exists u|by rewrite Hbel].
  - intros [[Hup Hnot] He]. apply not_true_is_false in Hnot. pose proof (Hall e He Hup Hnot) as Hev.
    destruct (Hcov e Hev) as (f & Hef & [Hf|[Hf Hbel]]).
    + rewrite (Hfaith e f); [done|done|by apply Hin|done].
    + rewrite (Hfaith e f) in Hnot by done. by rewrite Hbel in Hnot.
Qed.

Context (Hmk : mk <> []) (Hun : unique mk = true) (Hmp : CDC_PARTITION ∉ mk) (Hmv : CDC_POSITION ∉ mk).

(** C28. From baseline to stream: when the baseline holds what the source had made of every key at the fence,
    then applying the first batch, read from any delivery of the retained stream (repeated, reordered or
    overlapping the baseline), succeeds and leaves what the source made of every key at the upper
    checkpoint.  No event between the two is missing and none is applied twice. *)
Theorem cdc_bootstrap_exact history events evidence upper complete b rows d start strategy :
  history_ok (ce_snapshot_checkpoint evidence) history ->
  (forall e, e ∈ events -> e ∈ history) ->
  (forall e, e ∈ history -> at_or_below (Some upper) e = true ->
     at_or_below (Some (ce_snapshot_checkpoint evidence)) e = false -> e ∈ events) ->
  faithful content_hash events ->
  normalize_bootstrap_cdc_batch content_hash events evidence upper complete = Ok b ->
  strategy ∈ [AS_UPSERT; AS_SCD1] -> index_target rows mk = Ok d ->
  (forall k r, dget d k = Some r -> unmarked r) ->
  (forall k, dget d k = source_row mk (start k) k (through (ce_snapshot_checkpoint evidence) history)) ->
  exists res d', apply_cdc_current_state rows b mk strategy DEL_APPLY = Ok res /\
    index_target (ccr_rows res) mk = Ok d' /\
    forall k, _payload_without_cdc_metadata <$> dget d' k = source_row mk (start k) k (through upper history).
Proof.
  intros Hok Hsub Hall Hfaith Hb Hst Hd Hmark Hsnap. pose proof Hok as [Hs Hval Hkeys Har].
  destruct (bootstrap_batch _ _ _ _ _ _ Hs Hb Hsub Hall Hfaith) as (Hlow & Hmono & Hparts & Hev).
  set (fence := ce_snapshot_checkpoint evidence) in *.
  assert (forall e, e ∈ nb_events b -> e ∈ history /\ newer_than (Some fence) e) as Hnew.
  { intros e He. rewrite Hev in He. apply list_elem_of_filter in He as [[Hup Hnot] He]. split; [done|].
    apply at_or_below_Some in Hup as (u & Hu & _). destruct (proj2 (Hparts _) (ex_intro _ u Hu)) as [l Hl].
    exists l. split; [done|]. split; [by eapply Har|]. apply zs_ltb_cases. apply not_true_iff_false in Hnot.
    unfold at_or_below in Hnot. rewrite Hl in Hnot. unfold zs_leb in Hnot. by apply negb_false_iff. }
  assert (forall k, sublist (events_of mk k (nb_events b)) (events_of mk k history)) as Hsubk.
  { intros k. unfold events_of. rewrite Hev, filter_comm. apply filter_sublist. }
  destruct (apply_source mk Hmk Hun Hmp Hmv rows d b strategy Hst Hd) as (res & d' & Hres & Hd' & Hrows & _).
  - split; [|split].
    + rewrite Hev. eapply sublist_sorted; [apply filter_sublist|done].
    + apply Forall_forall. intros e [He _]%Hnew. rewrite Forall_forall in Hval. destruct (Hval e He) as (? & ? & _). done.
    + intros k e f He Hf. apply (Hkeys k); by eapply elem_of_sublist.
  - apply Forall_forall. intros e [He _]%Hnew. rewrite Forall_forall in Hval. by apply Hval.
  - intros k. rewrite Hlow. destruct (dget d k) as [r|] eqn:E; [|done]. left. split; [by eapply Hmark|].
    apply Forall_forall. intros e He. apply Hnew. by eapply elem_of_sublist, sublist_events_of.
  - exists res, d'. split; [done|]. split; [done|]. intros k. rewrite Hrows.
    assert (_payload_without_cdc_metadata <$> dget d k = dget d k) as ->.
    { destruct (dget d k) as [r|] eqn:E; [|done]. simpl. f_equal. destruct (Hmark k r E) as [H1 H2].
      unfold _payload_without_cdc_metadata. by rewrite !delete_id by (rewrite ?delete_id by done; done). }
    rewrite Hsnap. unfold source_row. rewrite <-foldl_app. f_equal.
    unfold events_of, through. rewrite Hev, !(filter_comm (fun e => matches mk k e = true)).
    symmetry. apply (filter_split_sorted precedes).
    + destruct (events_of_ordered mk k history) as [Hsk _]; [|exact Hsk]. split; [done|]. split; [|done].
      eapply Forall_impl; [exact Hval|]. simpl. tauto.
    + intros e f _ _ Hef. by apply at_or_below_precedes.
    + done.
Qed.
End handoff.

(** ** Witnesses *)

Module Demo.

Definition wm_evidence : WatermarkBootstrapEvidence :=
  {| we_dataset_id := "orders"; we_snapshot_id := "s1"; we_source_epoch := "e1"; we_boundary := demo_checkpoint;
     we_complete_baseline := true; we_baseline_consistent_through_boundary := true;
     we_watermark_ordering_verified := true; we_post_boundary_changes_guaranteed_visible := true |}.

Lemma watermark_bootstrap_no_gap_witness :
  exists b selected, plan_first_watermark_batch demo_wm_rows wm_evidence (demo_wm_config 0) = Ok b /\
    wb_rows b = map fst selected /\ length selected = 2%nat /\
    forall it, it ∈ selected -> exists z, compare_watermark_positions it.2 demo_checkpoint = Ok z /\ 0 < z.
Proof.
  assert (is_ok (plan_first_watermark_batch demo_wm_rows wm_evidence (demo_wm_config 0)) = true) as Hb by (vm_compute; reflexivity).
  destruct (plan_first_watermark_batch demo_wm_rows wm_evidence (demo_wm_config 0)) as [b|] eqn:E; [|discriminate Hb].
  destruct (watermark_bootstrap_no_gap demo_wm_rows wm_evidence (demo_wm_config 0) b) as
    (p & ps & sel & Hp & _ & Hrows & _ & _ & Hexact & _); [reflexivity|exact E|].
  exists b, sel. split; [done|]. split; [exact Hrows|]. split.
  - assert (length (wb_rows b) = 2%nat) as Hlen.
    { assert ((fun r : res WatermarkBatch => match r with Ok b => length (wb_rows b) | _ => 0%nat end)
        (plan_first_watermark_batch demo_wm_rows wm_evidence (demo_wm_config 0)) = 2%nat) as Hc by (vm_compute; reflexivity).
      rewrite E in Hc. exact Hc. }
    rewrite Hrows, length_map in Hlen. exact Hlen.
  - intros it Hit. apply Hexact; [|exact Hit]. injection Hp as <-. reflexivity.
Defined.

Definition fence : CDCCheckpoint := [{| sp_partition := "p0"; sp_values := [6; 0] |}].

Definition evidence : CDCBootstrapEvidence :=
  {| ce_dataset_id := "orders"; ce_snapshot_id := "s1"; ce_source_epoch := "e1";
     ce_stream_start_checkpoint := demo_lower; ce_snapshot_checkpoint := fence; ce_complete_snapshot := true;
     ce_snapshot_consistent_through_checkpoint := true; ce_stream_retained_from_start := true |}.

(** The stream, and a delivery of it that repeats and reorders its events. *)
Definition history : list CDCEvent :=
  [demo_event "e0" CDC_UPDATE 1 [5; 0] 5; demo_event "e1" CDC_INSERT 1 [6; 0] 10;
   demo_event "e2" CDC_UPDATE 1 [6; 1] 20; demo_event "e3" CDC_DELETE 2 [7; 1] 30].

(** The key 2 exists before the stream starts. *)
Definition before : list (list value * row) := [([VInt 2], {[ "id" := VInt 2; "v" := VInt 7 ]})].
Definition baseline : list row := [{[ "id" := VInt 1; "v" := VInt 10 ]}; {[ "id" := VInt 2; "v" := VInt 7 ]}].
Definition indexed : list (list value * row) := match index_target baseline ["id"] with Ok d => d | _ => [] end.

Lemma history_is_ok : history_ok ["id"] fence history.
Proof.
  split.
  - repeat constructor; unfold source_lt; right; (split; [reflexivity|vm_compute; reflexivity]).
  - repeat constructor; vm_compute; reflexivity.
  - intros k e f [_ He]%list_elem_of_filter [_ Hf]%list_elem_of_filter. unfold history in He, Hf.
    repeat (apply elem_of_cons in He as [->|He]); try (by apply elem_of_nil in He);
      repeat (apply elem_of_cons in Hf as [->|Hf]); try (by apply elem_of_nil in Hf); by split.
  - intros e l He Hl. unfold history in He.
    repeat (apply elem_of_cons in He as [->|He]); try (by apply elem_of_nil in He);
      vm_compute in Hl; injection Hl as <-; reflexivity.
Qed.

Lemma baseline_at_fence k : dget indexed k = source_row ["id"] (dget before k) k (through fence history).
Proof.
  assert (through fence history = [demo_event "e0" CDC_UPDATE 1 [5; 0] 5; demo_event "e1" CDC_INSERT 1 [6; 0] 10]) as ->
    by (vm_compute; reflexivity).
  assert (indexed = [([VInt 1], {[ "id" := VInt 1; "v" := VInt 10 ]}); ([VInt 2], {[ "id" := VInt 2; "v" := VInt 7 ]})]) as ->
    by (vm_compute; reflexivity).
  unfold source_row, events_of. rewrite !filter_cons.
  assert (forall id op v pos, matches ["id"] k (demo_event id op 1 pos v) = keq [VInt 1] k) as Hm by reflexivity.
  rewrite !Hm. unfold before. simpl. destruct (keq [VInt 1] k) eqn:E1.
  - rewrite !decide_True by done. simpl.
    destruct (keq [VInt 2] k) eqn:E2; [|vm_compute; reflexivity]. exfalso.
    rewrite (keq_sym [VInt 1] k) in E1. pose proof (keq_trans _ _ _ E2 E1) as H. vm_compute in H. discriminate H.
  - rewrite !decide_False by done. reflexivity.
Qed.

Lemma cdc_bootstrap_exact_witness :
  exists b res d', @normalize_bootstrap_cdc_batch demo_runtime demo_content demo_window evidence demo_upper true = Ok b /\
    @apply_cdc_current_state demo_runtime baseline b ["id"] AS_UPSERT DEL_APPLY = Ok res /\
    index_target (ccr_rows res) ["id"] = Ok d' /\
    forall k, _payload_without_cdc_metadata <$> dget d' k = source_row ["id"] (dget before k) k (through demo_upper history).
Proof.
  assert (is_ok (@normalize_bootstrap_cdc_batch demo_runtime demo_content demo_window evidence demo_upper true) = true) as Hb
    by (vm_compute; reflexivity).
  destruct (@normalize_bootstrap_cdc_batch demo_runtime demo_content demo_window evidence demo_upper true) as [b|] eqn:E;
    [|discriminate Hb].
  destruct (@cdc_bootstrap_exact demo_runtime demo_content ["id"]) with (history := history) (events := demo_window)
    (evidence := evidence) (upper := demo_upper) (complete := true) (b := b) (rows := baseline) (d := indexed)
    (start := dget before) (strategy := AS_UPSERT) as (res & d' & Hres & Hd' & Hk).
  - discriminate.
  - vm_compute. reflexivity.
  - apply (bool_decide_unpack _). vm_compute. exact I.
  - apply (bool_decide_unpack _). vm_compute. exact I.
  - exact history_is_ok.
  - intros e He. assert (Forall (fun e => e ∈ history) demo_window) as Hall by (apply (bool_decide_unpack _); vm_compute; exact I).
    rewrite Forall_forall in Hall. exact (Hall e He).
  - intros e He _ _. assert (Forall (fun e => e ∈ demo_window) history) as Hall by (apply (bool_decide_unpack _); vm_compute; exact I).
    rewrite Forall_forall in Hall. exact (Hall e He).
  - assert (Forall (fun e => Forall (fun f => (ev_event_id e = ev_event_id f /\
      demo_content e = demo_content f) -> e = f) demo_window) demo_window) as Hall
      by (apply (bool_decide_unpack _); vm_compute; exact I).
    intros e f He Hf. rewrite Forall_forall in Hall. specialize (Hall e He).
    rewrite Forall_forall in Hall. exact (Hall f Hf).
  - exact E.
  - apply elem_of_cons. left. reflexivity.
  - vm_compute. reflexivity.
  - intros k r. assert (Forall (fun kr : list value * row => unmarked kr.2) indexed) as Hall
      by (repeat constructor; vm_compute; reflexivity).
    intros (k' & _ & Hin)%dget_Some_elem. rewrite Forall_forall in Hall. exact (Hall _ Hin).
  - exact baseline_at_fence.
  - exists b, res, d'. exact (conj eq_refl (conj Hres (conj Hd' Hk))).
Defined.
End Demo.
