(* ===== verification/DeltaCdf.v ===== *)
(** * Delta Change Data Feed ([adapters/cdc/delta_cdf.py])

    The change records of a range of table versions become one CDC event per key and version.
    [record_hash] is the canonical hash of a record's dump, [content_hash] that of an event. *)

From stdpp Require Import base gmap strings list sorting pretty.
From S2P Require Import Prelude PyText PyValue PyDict Temporal ConfigTypes RunAudit RuntimeState CdcCapture CdcApply CdcSource.
#[local] Open Scope Z_scope.

Definition DELTA_CDF_PROFILE : string := "delta_cdf_v1".
Definition _DELTA_PARTITION_PREFIX : string := "delta-cdf:".
Definition _MAX_COMMIT_ROW_SEQUENCE : Z := 2 ^ 63 - 1.

Definition delta_error {A} (site : string) : res A := raise "DeltaCDFAdapterError" site.

(** ** Resume planning *)

Record DeltaCDFResumePlan := {
  dp_table_reference : string;
  dp_lower_committed_version : option Z;
  dp_earliest_available_version : Z;
  dp_latest_available_version : Z;
  dp_start_version : Z;
  dp_upper_version : Z
}.

(** The field bounds and [validate_range]. *)
Definition make_DeltaCDFResumePlan (p : DeltaCDFResumePlan) : res DeltaCDFResumePlan :=
  if negb (nonempty (dp_table_reference p)) || (default 0 (dp_lower_committed_version p) <? 0)
     || (dp_earliest_available_version p <? 0) || (dp_latest_available_version p <? 0)
     || (dp_start_version p <? 0) || (dp_upper_version p <? 0) then bad_field
  else if dp_latest_available_version p <? dp_earliest_available_version p then
    raise "ValueError" "Delta CDF earliest available version cannot exceed latest"
  else if dp_latest_available_version p <? dp_upper_version p then
    raise "ValueError" "Delta CDF upper version cannot exceed provider latest"
  else if dp_upper_version p + 1 <? dp_start_version p then
    raise "ValueError" "Delta CDF start cannot skip beyond upper + 1"
  else Ok p.

Definition delta_has_work (p : DeltaCDFResumePlan) : bool := dp_start_version p <=? dp_upper_version p.

Definition plan_delta_cdf_resume (table_reference : string) (lower_committed_version : option Z)
    (earliest_available_version latest_available_version : Z) (requested_upper_version : option Z) :
    res DeltaCDFResumePlan :=
  if negb (nonempty table_reference) then delta_error "table_reference is required"
  else if (earliest_available_version <? 0) || (latest_available_version <? 0) then
    delta_error "version must be a non-negative integer"
  else if latest_available_version <? earliest_available_version then
    delta_error "Delta CDF earliest available version cannot exceed latest available version"
  else
    let upper := default latest_available_version requested_upper_version in
    if upper <? 0 then delta_error "requested_upper_version must be a non-negative integer"
    else if latest_available_version <? upper then delta_error "requested Delta CDF upper version exceeds provider latest"
    else
      start ← match lower_committed_version with
              | None => Ok earliest_available_version
              | Some lower =>
                if lower <? 0 then delta_error "lower_committed_version must be a non-negative integer"
                else if upper <? lower then delta_error "requested Delta CDF upper version regresses committed state"
                else
                  let next_required := lower + 1 in
                  if next_required <? earliest_available_version then
                    raise "DeltaCDFRetentionGapError" "Delta CDF retention gap"
                  else Ok (Z.max earliest_available_version next_required)
              end;
      make_DeltaCDFResumePlan
        {| dp_table_reference := table_reference; dp_lower_committed_version := lower_committed_version;
           dp_earliest_available_version := earliest_available_version;
           dp_latest_available_version := latest_available_version;
           dp_start_version := start; dp_upper_version := upper |}.

Definition delta_cdf_checkpoint (table_reference : string) (commit_version : Z) : res CDCCheckpoint :=
  if negb (nonempty table_reference) then raise "ValueError" "table_reference is required"
  else if commit_version <? 0 then raise "ValueError" "commit_version must be non-negative"
  else build_cdc_checkpoint {[ _DELTA_PARTITION_PREFIX +:+ table_reference := [commit_version; _MAX_COMMIT_ROW_SEQUENCE] ]}.

Definition delta_lower_checkpoint (p : DeltaCDFResumePlan) : res (option CDCCheckpoint) :=
  match dp_lower_committed_version p with
  | None => Ok None
  | Some v => c ← delta_cdf_checkpoint (dp_table_reference p) v; Ok (Some c)
  end.
Definition delta_upper_checkpoint (p : DeltaCDFResumePlan) : res CDCCheckpoint :=
  delta_cdf_checkpoint (dp_table_reference p) (dp_upper_version p).

(** ** Records *)

Inductive DeltaCDFChangeType := CT_INSERT | CT_DELETE | CT_UPDATE_PREIMAGE | CT_UPDATE_POSTIMAGE.
#[export] Instance DeltaCDFChangeType_eq_dec : EqDecision DeltaCDFChangeType.
Proof. solve_decision. Defined.

Record DeltaCDFRecord := {
  dr_change_type : DeltaCDFChangeType;
  dr_commit_version : Z;
  dr_commit_timestamp : datetime;
  dr_data : row
}.

Definition validate_timestamp (r : DeltaCDFRecord) : res unit :=
  if dr_commit_version r <? 0 then bad_field
  else if is_naive (dr_commit_timestamp r) then raise "ValueError" "Delta CDF commit_timestamp must be timezone-aware"
  else Ok tt.

Record DeltaCDFBatchResult := {
  db_normalized_batch : CDCNormalizedBatch;
  db_input_records : nat;
  db_duplicate_records_ignored : nat;
  db_logical_events : nat;
  db_update_pairs : nat
}.

Definition _key_for_record (record : DeltaCDFRecord) (key_columns : list string) : res (list value) :=
  let values := map (get (dr_data record)) key_columns in
  if existsb is_none values then delta_error "Delta CDF key columns cannot be null/missing" else Ok values.

(** [dict(zip(key_columns, key, strict=True))] *)
Definition _key_payload (key_columns : list string) (key : list value) : row := set_key key_columns key ∅.

(** [grouped[(commit_version, key)].append(record)] for a default dictionary. *)
Fixpoint group_add (groups : list (Z * list value * list DeltaCDFRecord)) (commit : Z) (key : list value)
    (record : DeltaCDFRecord) : list (Z * list value * list DeltaCDFRecord) :=
  match groups with
  | [] => [(commit, key, [record])]
  | (c, k, items) :: groups' =>
    if (c =? commit) && keq k key then (c, k, items ++ [record]) :: groups'
    else (c, k, items) :: group_add groups' commit key record
  end.

(** One record of the grouping loop. *)
Definition delta_group_step (key_columns : list string) (upper_commit_version : Z)
    (groups : list (Z * list value * list DeltaCDFRecord)) (record : DeltaCDFRecord) :
    res (list (Z * list value * list DeltaCDFRecord)) :=
  if upper_commit_version <? dr_commit_version record then delta_error "Delta CDF record commit exceeds frozen upper version"
  else
    key ← _key_for_record record key_columns;
    if negb (forallb hashable key) then raise "TypeError" "unhashable type"
    else Ok (group_add groups (dr_commit_version record) key record).

(** The distinct versions, in ascending order: [sorted(groups_by_commit)]. *)
Definition commits_of (groups : list (Z * list value * list DeltaCDFRecord)) : list Z :=
  sort_by Z.leb (remove_dups (map (fun g => g.1.1) groups)).

(** Whether the event of the group is an update. *)
Inductive group_shape :=
| GS_update (before after : DeltaCDFRecord) | GS_insert (record : DeltaCDFRecord) | GS_delete (record : DeltaCDFRecord).

(** [by_type[change_type]] *)
Definition of_type (t : DeltaCDFChangeType) (records : list DeltaCDFRecord) : list DeltaCDFRecord :=
  filter (fun r => dr_change_type r = t) records.

Definition shape_of (records : list DeltaCDFRecord) : res group_shape :=
  match of_type CT_INSERT records, of_type CT_DELETE records, of_type CT_UPDATE_PREIMAGE records,
        of_type CT_UPDATE_POSTIMAGE records with
  | _ :: _ :: _, _, _, _ | _, _ :: _ :: _, _, _ | _, _, _ :: _ :: _, _ | _, _, _, _ :: _ :: _ =>
    delta_error "Delta CDF contains more than one non-identical record for key"
  | [], [], [before], [after] => Ok (GS_update before after)
  | [insert], [], [], [] => Ok (GS_insert insert)
  | [], [delete], [], [] => Ok (GS_delete delete)
  | _, _, _, _ => delta_error "Delta CDF key has an ambiguous set of change records within one commit"
  end.

Definition change_types (s : group_shape) : list value :=
  match s with
  | GS_update _ _ => [VStr "update_postimage"; VStr "update_preimage"]
  | GS_insert _ => [VStr "insert"]
  | GS_delete _ => [VStr "delete"]
  end.

Definition shape_operation (s : group_shape) : CDCOperation :=
  match s with GS_update _ _ => CDC_UPDATE | GS_insert _ => CDC_INSERT | GS_delete _ => CDC_DELETE end.
Definition shape_before (s : group_shape) : option row :=
  match s with GS_update before _ => Some (dr_data before) | GS_insert _ => None | GS_delete r => Some (dr_data r) end.
Definition shape_after (s : group_shape) : option row :=
  match s with GS_update _ after => Some (dr_data after) | GS_insert r => Some (dr_data r) | GS_delete _ => None end.
Definition shape_time (s : group_shape) : datetime :=
  match s with GS_update _ r | GS_insert r | GS_delete r => dr_commit_timestamp r end.
Definition is_update (s : group_shape) : bool := match s with GS_update _ _ => true | _ => false end.

Section normalize.
Context `{PyRuntime} (record_hash : DeltaCDFRecord -> string) (content_hash : CDCEvent -> string).

Definition dedupe_step (s : gset string * list DeltaCDFRecord * nat) (record : DeltaCDFRecord) :
    gset string * list DeltaCDFRecord * nat :=
  let fingerprint := record_hash record in
  if decide (fingerprint ∈ s.1.1) then (s.1.1, s.1.2, S s.2)
  else ({[ fingerprint ]} ∪ s.1.1, s.1.2 ++ [record], s.2).

Definition _dedupe_exact_records (records : list DeltaCDFRecord) : list DeltaCDFRecord * nat :=
  let s := foldl dedupe_step (∅, [], 0%nat) records in (s.1.2, s.2).

Definition delta_event_id (table_reference : string) (commit_version row_sequence : Z) (key_payload : row) : string :=
  "delta-cdf:" +:+ String.substring 0 16 (canonical_hash (VDict [("table", VStr table_reference)])) +:+ ":" +:+
  (pretty commit_version +:+ (":" +:+ (pretty row_sequence +:+ (":" +:+ String.substring 0 16 (canonical_hash (row_value key_payload)))))).

Definition delta_metadata (table_reference : string) (commit_version : Z) (shape : group_shape) : row :=
  <["provider" := VStr "delta_cdf"]> (<["table_reference" := VStr table_reference]>
  (<["commit_version" := VInt commit_version]> (<["change_types" := VList (change_types shape)]>
  {[ "within_commit_order" := VStr "deterministic_key_order_not_source_temporal_order" ]}))).

Definition _logical_event_for_group (table_reference : string) (key_columns : list string)
    (entry : Z * Z * (list value * list DeltaCDFRecord)) : res (CDCEvent * bool) :=
  let commit_version := entry.1.1 in
  let row_sequence := entry.1.2 in
  shape ← shape_of entry.2.2;
  let key_payload := _key_payload key_columns entry.2.1 in
  position ← make_CDCSourcePosition
    {| sp_partition := _DELTA_PARTITION_PREFIX +:+ table_reference; sp_values := [commit_version; row_sequence] |};
  event ← make_CDCEvent
    {| ev_event_id := delta_event_id table_reference commit_version row_sequence key_payload;
       ev_operation := shape_operation shape; ev_key := key_payload; ev_position := position;
       ev_before := shape_before shape; ev_after := shape_after shape; ev_event_time := Some (shape_time shape);
       ev_transaction_id := Some ("delta-commit:" +:+ pretty commit_version);
       ev_metadata := delta_metadata table_reference commit_version shape |};
  Ok (event, is_update shape).

(** The groups of a version by the text of their key, numbered from 0. *)
Definition ordered_groups (groups : list (Z * list value * list DeltaCDFRecord)) (commit : Z) :
    list (Z * Z * (list value * list DeltaCDFRecord)) :=
  imap (fun i g => (commit, Z.of_nat i, g))
    (sort_on (fun g => repr_key g.1) (map (fun g => (g.1.2, g.2)) (filter (fun g => g.1.1 = commit) groups))).

Definition entries_of (groups : list (Z * list value * list DeltaCDFRecord)) : list (Z * Z * (list value * list DeltaCDFRecord)) :=
  concat (map (ordered_groups groups) (commits_of groups)).

Definition normalize_delta_cdf_batch (records : list DeltaCDFRecord) (table_reference : string)
    (key_columns : list string) (upper_commit_version : Z) (complete_through_upper : bool)
    (lower_committed_version : option Z) : res DeltaCDFBatchResult :=
  if negb (nonempty table_reference) then delta_error "table_reference is required"
  else if bool_decide (key_columns = []) then delta_error "Delta CDF normalization requires key_columns"
  else if negb (unique key_columns) then delta_error "Delta CDF key_columns must be unique"
  else if upper_commit_version <? 0 then delta_error "upper_commit_version must be non-negative"
  else
    _ ← match lower_committed_version with
        | Some lower =>
          if lower <? 0 then delta_error "lower_committed_version must be non-negative"
          else if upper_commit_version <? lower then delta_error "Delta CDF lower version cannot exceed upper version"
          else Ok tt
        | None => Ok tt
        end;
    let deduped := _dedupe_exact_records records in
    grouped ← foldM (delta_group_step key_columns upper_commit_version) [] deduped.1;
    events ← mapM_res (_logical_event_for_group table_reference key_columns) (entries_of grouped);
    upper ← delta_cdf_checkpoint table_reference upper_commit_version;
    lower ← match lower_committed_version with
            | Some v => c ← delta_cdf_checkpoint table_reference v; Ok (Some c)
            | None => Ok None
            end;
    normalized ← normalize_cdc_batch content_hash (map fst events) upper lower complete_through_upper;
    Ok {| db_normalized_batch := normalized; db_input_records := length records;
          db_duplicate_records_ignored := deduped.2; db_logical_events := length events;
          db_update_pairs := length (filter (fun e => e.2 = true) events) |}.
End normalize.

#[local] Arguments delta_group_step : simpl never.

(** ** Grouping *)

Definition key_of (cols : list string) (r : DeltaCDFRecord) : list value := map (get (dr_data r)) cols.
Definition in_group (cols : list string) (c : Z) (k : list value) (r : DeltaCDFRecord) : Prop :=
  dr_commit_version r = c /\ keq k (key_of cols r) = true.
#[export] Instance in_group_dec cols c k r : Decision (in_group cols c k r).
Proof. unfold in_group. apply _. Defined.

Notation group := (Z * list value * list DeltaCDFRecord)%type.
Definition same_group (g h : group) : Prop := g.1.1 = h.1.1 /\ keq g.1.2 h.1.2 = true.

(** The groups of the records [done]. *)
Record group_inv (cols : list string) (upper : Z) (done : list DeltaCDFRecord) (groups : list group) : Prop := {
  gi_items g : g ∈ groups -> g.2 = filter (in_group cols g.1.1 g.1.2) done /\
    (exists r, r ∈ done /\ dr_commit_version r = g.1.1 /\ key_of cols r = g.1.2);
  gi_distinct : ForallOrdPairs (fun g h => ~ same_group g h) groups;
  gi_cover r : r ∈ done -> exists g, g ∈ groups /\ in_group cols g.1.1 g.1.2 r;
  gi_records r : r ∈ done -> dr_commit_version r <= upper /\ existsb is_none (key_of cols r) = false
}.

Lemma key_for_record_Ok cols r k :
  _key_for_record r cols = Ok k -> k = key_of cols r /\ existsb is_none (key_of cols r) = false.
Proof. unfold _key_for_record, delta_error, key_of. destruct (existsb is_none _); [done|]. by intros [= <-]. Qed.

Lemma FOP_app_single {A} (R : A -> A -> Prop) l x :
  ForallOrdPairs R l -> Forall (fun y => R y x) l -> ForallOrdPairs R (l ++ [x]).
Proof.
  induction 1 as [|y l Hy _ IH]; intros Hall; simpl; [constructor; constructor|].
  apply Forall_cons in Hall as [H1 H2]. constructor; [|by apply IH]. apply Forall_app. split; [done|by repeat constructor].
Qed.

(** A record joins its group, or starts a new one at the end. *)
Lemma group_add_cases groups c k r :
  (exists pre k' items post, groups = pre ++ (c, k', items) :: post /\ keq k' k = true /\
     group_add groups c k r = pre ++ (c, k', items ++ [r]) :: post) \/
  (Forall (fun g : group => ~ (g.1.1 = c /\ keq g.1.2 k = true)) groups /\ group_add groups c k r = groups ++ [(c, k, [r])]).
Proof.
  induction groups as [|[[c' k'] items] groups IH]; simpl; [by right|].
  destruct ((c' =? c) && keq k' k) eqn:E.
  - apply andb_true_iff in E as [->%Z.eqb_eq E]. left. by exists [], k', items, groups.
  - destruct IH as [(pre & k1 & it & post & -> & Hk & ->)|[Hall ->]].
    + left. by exists ((c', k', items) :: pre), k1, it, post.
    + right. split; [|done]. constructor; [|done]. simpl. intros [-> Hk]. by rewrite Z.eqb_refl, Hk in E.
Qed.

Lemma FOP_perm {A} (R : A -> A -> Prop) l m :
  l ≡ₚ m -> (forall x y, R x y -> R y x) -> ForallOrdPairs R l -> ForallOrdPairs R m.
Proof.
  intros Hp Hsym. induction Hp as [|x l m Hp IH|x y l|l m k Hp1 IH1 Hp2 IH2]; intros Hl; [done| | |by apply IH2, IH1].
  - inversion_clear Hl as [|? ? Hx Hl']. constructor; [by rewrite <-Hp|by apply IH].
  - inversion_clear Hl as [|? ? Hx Hl']. inversion_clear Hl' as [|? ? Hy Hl]. apply Forall_cons in Hx as [Hxy Hx].
    constructor; [constructor; [by apply Hsym|done]|by constructor].
Qed.

Lemma in_group_compat cols c k k' r : keq k' k = true -> in_group cols c k r -> in_group cols c k' r.
Proof. intros Hk [Hc Hr]. split; [done|]. by eapply keq_trans. Qed.

Lemma group_step_inv cols upper done groups r groups' :
  group_inv cols upper done groups -> delta_group_step cols upper groups r = Ok groups' -> group_inv cols upper (done ++ [r]) groups'.
Proof.
  intros [Hit Hdis Hcov Hrec]. unfold delta_group_step. destruct (upper <? dr_commit_version r) eqn:Eu; [done|].
  intros (k & [-> Hnn]%key_for_record_Ok & H)%bind_Ok. destruct (negb (forallb hashable (key_of cols r))); [done|]. injection H as <-.
  assert (forall x, x ∈ done ++ [r] -> dr_commit_version x <= upper /\ existsb is_none (key_of cols x) = false) as Hrec'.
  { intros x [Hx| ->%list_elem_of_singleton]%elem_of_app; [by apply Hrec|]. split; [lia|done]. }
  destruct (group_add_cases groups (dr_commit_version r) (key_of cols r) r) as [(pre & k' & items & post & -> & Hk & ->)|[Hno ->]].
  - assert (Hshape : forall g', g' ∈ pre ++ (dr_commit_version r, k', items ++ [r]) :: post ->
      g' = (dr_commit_version r, k', items ++ [r]) \/ (g' ∈ pre ++ (dr_commit_version r, k', items) :: post /\
        ~ same_group (dr_commit_version r, k', items) g')).
    { intros g' Hg'. apply elem_of_app in Hg' as [Hg'|[->|Hg']%elem_of_cons]; [right|by left|right].
      - split; [apply elem_of_app; by left|]. intros [H1 H2]. simpl in *.
        clear -Hdis Hg' H1 H2. induction pre as [|x pre IH]; [by apply elem_of_nil in Hg'|].
        inversion_clear Hdis as [|? ? Hx Hr]. apply elem_of_cons in Hg' as [->|Hg'].
        + rewrite Forall_forall in Hx. apply (Hx (dr_commit_version r, k', items)); [set_solver|].
          split; [done|]. simpl. by rewrite keq_sym.
        + by apply IH.
      - split; [apply elem_of_app; right; by right|]. intros Hs.
        clear -Hdis Hg' Hs. induction pre as [|x pre IH]; [|inversion_clear Hdis; by apply IH].
        inversion_clear Hdis as [|? ? Hx _]. rewrite Forall_forall in Hx. by apply (Hx g'). }
    split; [| | |done].
    + intros g' Hg'%Hshape. destruct Hg' as [->|[Hg' Hns]]; simpl.
      * destruct (Hit (dr_commit_version r, k', items)) as (Hi & x & Hx & Hxc & Hxk); [set_solver|]. simpl in *. split.
        -- rewrite filter_app, <-Hi. f_equal. rewrite filter_cons, decide_True by done. done.
        -- exists x. split; [|done]. apply elem_of_app. by left.
      * destruct (Hit g' Hg') as (Hi & x & Hx & Hxc & Hxk). split.
        -- rewrite filter_app, <-Hi. rewrite filter_cons, decide_False; [by rewrite app_nil_r|].
           intros [Hc Hk']. apply Hns. split; [done|]. simpl. eapply keq_trans; [exact Hk|]. by rewrite keq_sym.
        -- exists x. split; [|done]. apply elem_of_app. by left.
    + clear -Hdis. induction pre as [|x pre IH]; simpl in *.
      * inversion_clear Hdis as [|? ? Hx Hp]. constructor; [|done]. exact Hx.
      * inversion_clear Hdis as [|? ? Hx Hp]. constructor; [|by apply IH].
        rewrite Forall_app, Forall_cons in *. destruct Hx as (H1 & H2 & H3). by split_and!.
    + intros x [Hx| ->%list_elem_of_singleton]%elem_of_app.
      * destruct (Hcov x Hx) as (g & Hg & Hgx). apply elem_of_app in Hg as [Hg|[->|Hg]%elem_of_cons].
        -- exists g. split; [apply elem_of_app; by left|done].
        -- exists (dr_commit_version r, k', items ++ [r]). split; [apply elem_of_app; right; left|done].
        -- exists g. split; [apply elem_of_app; right; by right|done].
      * exists (dr_commit_version r, k', items ++ [r]). split; [apply elem_of_app; right; left|by split].
  - rewrite Forall_forall in Hno. split; [| | |done].
    + intros g [Hg| ->%list_elem_of_singleton]%elem_of_app; simpl.
      * destruct (Hit g Hg) as (Hi & x & Hx & ? & ?). split.
        -- rewrite filter_app, <-Hi. rewrite filter_cons, decide_False; [by rewrite app_nil_r|].
           intros [Hc Hk']. apply (Hno g Hg). by split.
        -- exists x. split; [|done]. apply elem_of_app. by left.
      * split.
        -- rewrite filter_app, filter_cons, decide_True by (split; [done|apply keq_refl]).
           rewrite (filter_none _ done); [done|]. apply Forall_forall. intros x Hx [Hc Hk].
           destruct (Hcov x Hx) as (g & Hg & Hgc & Hgk). apply (Hno g Hg). split; [congruence|].
           eapply keq_trans; [exact Hgk|]. by rewrite keq_sym.
        -- exists r. split; [apply elem_of_app; right; left|done].
    + apply FOP_app_single; [done|]. apply Forall_forall. intros g Hg [H1 H2]. by apply (Hno g Hg).
    + intros x [Hx| ->%list_elem_of_singleton]%elem_of_app.
      * destruct (Hcov x Hx) as (g & Hg & ?). exists g. split; [apply elem_of_app; by left|done].
      * exists (dr_commit_version r, key_of cols r, [r]). split; [apply elem_of_app; right; left|]. split; [done|apply keq_refl].
Qed.

Lemma group_all cols upper records groups :
  foldM (delta_group_step cols upper) [] records = Ok groups -> group_inv cols upper records groups.
Proof.
  intros Hf. refine (foldM_ind _ (fun done gs => group_inv cols upper done gs) _ _ _ Hf _ _).
  - split; [by intros g ?%elem_of_nil|constructor|by intros r ?%elem_of_nil|by intros r ?%elem_of_nil].
  - intros done r g1 g2 _ Hinv Hstep. by eapply group_step_inv.
Qed.

(** ** The order of the groups *)

Notation entry := (Z * Z * (list value * list DeltaCDFRecord))%type.
Definition entry_group (en : entry) : group := (en.1.1, en.2.1, en.2.2).
Definition entry_lt (a b : entry) : Prop := a.1.1 < b.1.1 \/ (a.1.1 = b.1.1 /\ a.1.2 < b.1.2).

Lemma filter_or_perm {A} (P Q R : A -> Prop) `{!forall x, Decision (P x)} `{!forall x, Decision (Q x)}
    `{!forall x, Decision (R x)} (l : list A) :
  (forall x, R x <-> P x \/ Q x) -> (forall x, P x -> Q x -> False) -> filter P l ++ filter Q l ≡ₚ filter R l.
Proof.
  intros HR Hdis. induction l as [|x l IH]; [done|]. rewrite !filter_cons.
  destruct (decide (P x)), (decide (Q x)); rewrite ?(decide_True (P:=R x)) by (apply HR; auto).
  - exfalso. eauto.
  - simpl. by rewrite IH.
  - rewrite <-Permutation_middle. by rewrite IH.
  - rewrite decide_False by (rewrite HR; tauto). done.
Qed.

Lemma concat_filter_perm {A} (f : A -> Z) cs (l : list A) :
  NoDup cs -> concat (map (fun c => filter (fun x => f x = c) l) cs) ≡ₚ filter (fun x => f x ∈ cs) l.
Proof.
  induction 1 as [|c cs Hc Hnd IH]; simpl.
  - symmetry. rewrite (filter_none _ l); [done|]. apply Forall_forall. intros x _ ?%elem_of_nil. done.
  - rewrite IH. apply filter_or_perm; [intros x; apply elem_of_cons|]. by intros x ->.
Qed.

Lemma commits_sorted groups : StronglySorted Z.lt (commits_of groups).
Proof.
  unfold commits_of. set (l := remove_dups _).
  assert (NoDup (sort_by Z.leb l)) as Hnd by (rewrite (sort_by_perm Z.leb l); apply NoDup_remove_dups).
  assert (StronglySorted (fun a b => Z.leb a b = true) (sort_by Z.leb l)) as Hs by (apply sort_by_sorted; intros; lia).
  revert Hnd. induction Hs as [|x s Hs IH Hall]; [constructor|]. intros [Hx Hnd]%NoDup_cons. constructor; [by apply IH|].
  rewrite Forall_forall in *. intros y Hy. specialize (Hall y Hy). assert (x <> y) by (by intros ->). lia.
Qed.

Lemma commits_NoDup groups : NoDup (commits_of groups).
Proof. unfold commits_of. rewrite (sort_by_perm Z.leb). apply NoDup_remove_dups. Qed.

Lemma commits_elem groups g : g ∈ groups -> g.1.1 ∈ commits_of groups.
Proof. intros Hg. unfold commits_of. rewrite elem_of_sort_by, elem_of_remove_dups. by apply (list_elem_of_fmap_2 (fun g : group => g.1.1)). Qed.

Section ordering.
Context `{PyRuntime}.

Lemma map_imap_id {A B} (f : nat -> A -> B) (h : B -> A) l : (forall i x, h (f i x) = x) -> map h (imap f l) = l.
Proof.
  revert f. induction l as [|x l IH]; intros f Hf; simpl; [done|]. rewrite Hf. f_equal. apply IH. intros. apply Hf.
Qed.

Lemma entries_perm groups : map entry_group (entries_of groups) ≡ₚ groups.
Proof.
  unfold entries_of. rewrite concat_map, map_map.
  assert (forall cs, concat (map (fun c => map entry_group (ordered_groups groups c)) cs) ≡ₚ
    concat (map (fun c => filter (fun g : group => g.1.1 = c) groups) cs)) as ->.
  { induction cs as [|c cs IH]; simpl; [done|]. rewrite IH. apply Permutation_app_tail. unfold ordered_groups.
    assert (forall l : list (list value * list DeltaCDFRecord), map entry_group (imap (fun i g => (c, Z.of_nat i, g)) l) = map (fun g => (c, g.1, g.2)) l) as ->.
    { clear. intros l. generalize 0%nat as n. intros _. assert (forall f : nat -> Z, map entry_group (imap (fun i g => (c, f i, g)) l) = map (fun g => (c, g.1, g.2)) l) as Hf; [|apply Hf].
      induction l as [|g l IH]; intros f; simpl; [done|]. f_equal. apply (IH (fun i => f (S i))). }
    rewrite sort_on_perm, map_map. simpl.
    clear. induction groups as [|g groups IHg]; [done|]. rewrite filter_cons. destruct (decide _) as [Hg|]; [|exact IHg].
    simpl. rewrite IHg, <-Hg. by destruct g as [[] ?]. }
  rewrite concat_filter_perm by apply commits_NoDup.
  rewrite filter_all; [done|]. apply Forall_forall. intros g. apply commits_elem.
Qed.

Lemma ordered_sorted groups c : StronglySorted entry_lt (ordered_groups groups c) /\ Forall (fun en : entry => en.1.1 = c) (ordered_groups groups c).
Proof.
  unfold ordered_groups. generalize (sort_on (fun g : list value * list DeltaCDFRecord => repr_key g.1)
    (map (fun g : group => (g.1.2, g.2)) (filter (fun g : group => g.1.1 = c) groups))).
  assert (forall (l : list (list value * list DeltaCDFRecord)) (f : nat -> Z), (forall i j, (i < j)%nat -> f i < f j) ->
    StronglySorted entry_lt (imap (fun i g => (c, f i, g)) l) /\
    Forall (fun en : entry => en.1.1 = c /\ exists i, en.1.2 = f i) (imap (fun i g => (c, f i, g)) l)) as Hgen.
  { intros l. induction l as [|g l IH]; intros f Hf; simpl; [split; constructor|].
    destruct (IH (fun i => f (S i))) as [Hs Hall]; [intros; apply Hf; lia|]. split.
    - constructor; [exact Hs|]. eapply Forall_impl; [exact Hall|]. intros en [Hc [i Hi]]. right. simpl. split; [done|].
      rewrite Hi. apply Hf. lia.
    - constructor; [simpl; eauto|]. eapply Forall_impl; [exact Hall|]. intros en [Hc [i Hi]]. eauto. }
  intros l. destruct (Hgen l Z.of_nat) as [Hs Hall]; [lia|]. split; [done|]. eapply Forall_impl; [exact Hall|]. by intros en [? _].
Qed.

Lemma entries_sorted groups : StronglySorted entry_lt (entries_of groups).
Proof.
  unfold entries_of. induction (commits_sorted groups) as [|c cs Hs IH Hall]; simpl; [constructor|].
  destruct (ordered_sorted groups c) as [Hc Hcc]. apply StronglySorted_app_2; [|done|done].
  intros x y Hx Hy. apply list_elem_of_In, in_concat in Hy as (ys & Hys & Hy). apply in_map_iff in Hys as (c' & <- & Hc').
  rewrite Forall_forall in Hall. rewrite Forall_forall in Hcc. destruct (ordered_sorted groups c') as [_ Hcc']. rewrite Forall_forall in Hcc'.
  left. rewrite (Hcc x Hx), (Hcc' y (proj2 (list_elem_of_In _ _) Hy)). apply Hall. by apply list_elem_of_In.
Qed.

Lemma entries_unique cols upper records groups k c :
  group_inv cols upper records groups ->
  (length (filter (fun en : entry => en.1.1 = c /\ keq en.2.1 k = true) (entries_of groups)) <= 1)%nat.
Proof.
  intros Hinv. pose proof (gi_distinct _ _ _ _ Hinv) as Hd.
  assert (ForallOrdPairs (fun g h => ~ same_group g h) (map entry_group (entries_of groups))) as Hd'.
  { eapply (FOP_perm (fun g h : group => ~ same_group g h) groups); [symmetry; apply entries_perm| |exact Hd].
    intros g h Hn [H1 H2]. apply Hn. split; [done|]. by rewrite keq_sym. }
  set (l := filter _ _). assert (sublist l (entries_of groups)) as Hsub by apply filter_sublist.
  assert (Forall (fun en : entry => en.1.1 = c /\ keq en.2.1 k = true) l) as Hall
    by (apply Forall_forall; intros en Hen; by apply list_elem_of_filter in Hen as [? _]).
  clearbody l. destruct l as [|x [|y l]]; simpl; [lia|lia|]. exfalso.
  apply Forall_cons in Hall as [[Hx Hxk] [[Hy Hyk] _]%Forall_cons].
  assert (~ same_group (entry_group x) (entry_group y)) as Hn.
  { clear -Hsub Hd'. remember (entries_of groups) as es. clear Heqes. remember (x :: y :: l) as m eqn:Em. revert x y l Em.
    induction Hsub as [|z l1 l2 Hsub IH|z l1 l2 Hsub IH]; intros x y l Em; [done| |].
    - injection Em as -> ->. simpl in Hd'. inversion_clear Hd' as [|? ? Hx _]. rewrite Forall_forall in Hx. apply Hx.
      apply list_elem_of_fmap_2. eapply elem_of_sublist; [|exact Hsub]. left.
    - simpl in Hd'. inversion_clear Hd'. by eapply IH. }
  apply Hn. split; [simpl; congruence|]. simpl. eapply keq_trans; [exact Hxk|]. by rewrite keq_sym.
Qed.
End ordering.

(** ** Deduplication *)

Section dedupe.
Context (record_hash : DeltaCDFRecord -> string).

Lemma dedupe_spec records :
  let s := foldl (dedupe_step record_hash) (∅, [], 0%nat) records in
  (forall h, h ∈ s.1.1 <-> exists r, r ∈ s.1.2 /\ record_hash r = h) /\ (forall r, r ∈ s.1.2 -> r ∈ records) /\
  (forall r, r ∈ records -> exists r', r' ∈ s.1.2 /\ record_hash r' = record_hash r) /\
  length records = (length s.1.2 + s.2)%nat.
Proof.
  induction records as [|r records IH] using rev_ind; cbn zeta in *.
  - cbn. split_and!; [|by intros ? ?%elem_of_nil..|done]. intros h. split; [by intros ?%elem_of_empty|by intros (? & ?%elem_of_nil & _)].
  - rewrite foldl_app. cbn [foldl]. set (s := foldl _ _ records) in *. destruct IH as (Hs & Hsub & Hcov & Hlen).
    unfold dedupe_step. destruct (decide _) as [Hin|Hin]; cbn.
    + split_and!; [done|intros x Hx; apply elem_of_app; left; by apply Hsub| |rewrite length_app; simpl; lia].
      intros x [Hx| ->%list_elem_of_singleton]%elem_of_app; [by apply Hcov|by apply Hs].
    + split_and!.
      * intros h. rewrite elem_of_union, elem_of_singleton, Hs. setoid_rewrite elem_of_app. setoid_rewrite list_elem_of_singleton. naive_solver.
      * intros x [Hx| ->%list_elem_of_singleton]%elem_of_app; apply elem_of_app; [left; by apply Hsub|right; left].
      * intros x [Hx| ->%list_elem_of_singleton]%elem_of_app.
        -- destruct (Hcov x Hx) as (r' & Hr' & ?). exists r'. split; [apply elem_of_app; by left|done].
        -- exists r. split; [apply elem_of_app; right; left|done].
      * rewrite !length_app. simpl. lia.
Qed.

(** The hash tells the records apart. *)
Definition records_faithful (records : list DeltaCDFRecord) : Prop :=
  forall r r', r ∈ records -> r' ∈ records -> record_hash r = record_hash r' -> r = r'.

Lemma dedupe_elem records r : records_faithful records -> r ∈ (_dedupe_exact_records record_hash records).1 <-> r ∈ records.
Proof.
  intros Hf. destruct (dedupe_spec records) as (_ & Hsub & Hcov & _). unfold _dedupe_exact_records. simpl. split; [by apply Hsub|].
  intros Hr. destruct (Hcov r Hr) as (r' & Hr' & Hh). by rewrite <-(Hf r' r (Hsub _ Hr') Hr Hh).
Qed.
End dedupe.

(** ** The event of a group *)

Definition commit_of (e : CDCEvent) : Z := match sp_values (ev_position e) with c :: _ => c | [] => 0 end.

Lemma set_key_get cols (f : string -> value) r : unique cols = true ->
  map (get (set_key cols (map f cols) r)) cols = map f cols.
Proof.
  intros _. apply map_ext_Forall, Forall_forall. intros c Hc. unfold get. by rewrite set_key_lookup, decide_True.
Qed.

Lemma key_payload_event_key cols r :
  unique cols = true -> existsb is_none (key_of cols r) = false ->
  _event_key (_key_payload cols (key_of cols r)) cols = Ok (key_of cols r).
Proof.
  intros Hun Hnn. unfold _event_key, _key_payload.
  assert (existsb (fun column => negb (is_some (set_key cols (key_of cols r) ∅ !! column))) cols = false) as ->.
  { apply not_true_iff_false. intros (c & Hc & H)%existsb_elem. unfold key_of in H. rewrite set_key_lookup, decide_True in H by done. done. }
  unfold key_of. rewrite set_key_get by done. fold (key_of cols r). by rewrite Hnn.
Qed.

Section events.
Context `{PyRuntime} (t : string) (cols : list string).

Definition delta_position (c i : Z) : CDCSourcePosition :=
  {| sp_partition := _DELTA_PARTITION_PREFIX +:+ t; sp_values := [c; i] |}.

Lemma logical_Ok en e u :
  _logical_event_for_group t cols en = Ok (e, u) ->
  exists s, shape_of en.2.2 = Ok s /\ ev_position e = delta_position en.1.1 en.1.2 /\
    ev_event_id e = delta_event_id t en.1.1 en.1.2 (ev_key e) /\ ev_operation e = shape_operation s /\
    ev_key e = _key_payload cols en.2.1 /\ ev_after e = shape_after s /\ validate_event e = Ok tt /\
    validate_values (ev_position e) = Ok tt.
Proof.
  unfold _logical_event_for_group. intros (s & Hs & (p & Hp & (e' & He & [= <- <-])%bind_Ok)%bind_Ok)%bind_Ok.
  unfold make_CDCSourcePosition in Hp. apply bind_Ok in Hp as ([] & Hv & [= <-]).
  unfold make_CDCEvent in He. apply bind_Ok in He as ([] & Hve & [= <-]). exists s. split_and!; done.
Qed.

Lemma app_cancel (p a b : string) : p +:+ a = p +:+ b -> a = b.
Proof. induction p as [|x p IH]; [done|]. intros [= H']. by apply IH. Qed.

Lemma pretty_Z_N (z : Z) : 0 <= z -> pretty z = pretty (Z.to_N z).
Proof. by destruct z. Qed.

Lemma delta_event_id_inj c i k c' i' k' :
  0 <= c -> 0 <= i -> 0 <= c' -> 0 <= i' -> delta_event_id t c i k = delta_event_id t c' i' k' -> c = c' /\ i = i'.
Proof.
  intros Hc Hi Hc' Hi'. unfold delta_event_id. rewrite !(pretty_Z_N c), !(pretty_Z_N i), !(pretty_Z_N c'), !(pretty_Z_N i') by done.
  intros Hid. do 3 apply app_cancel in Hid. apply pretty_colon_inj in Hid as [Hid1 Hid].
  apply pretty_colon_inj in Hid as [Hid2 _]. lia.
Qed.
End events.

(** ** The batch *)

Lemma delta_checkpoint_Ok t v c :
  delta_cdf_checkpoint t v = Ok c ->
  0 <= v /\ c = [{| sp_partition := _DELTA_PARTITION_PREFIX +:+ t; sp_values := [v; _MAX_COMMIT_ROW_SEQUENCE] |}].
Proof.
  unfold delta_cdf_checkpoint. destruct (negb (nonempty t)); [done|]. destruct (v <? 0) eqn:Ev; [done|].
  unfold build_cdc_checkpoint. rewrite map_to_list_singleton. unfold sort_on. cbn [sort_by foldr insert_by mapM_res fst snd].
  intros (ps & Hps & (u & _ & [= <-])%bind_Ok)%bind_Ok. destruct (validate_values _); [|done].
  injection Hps as <-. split; [lia|done].
Qed.

Lemma position_for_single p v q : position_for [{| sp_partition := p; sp_values := v |}] q = if decide (p = q) then Some v else None.
Proof. unfold position_for. simpl. by destruct (decide (p = q)). Qed.

(** Version [v] was applied as a whole: the events at or below its checkpoint are those of the versions up to it. *)
Lemma at_or_below_version t v e c i :
  ev_position e = delta_position t c i -> i <= _MAX_COMMIT_ROW_SEQUENCE ->
  at_or_below (Some [{| sp_partition := _DELTA_PARTITION_PREFIX +:+ t; sp_values := [v; _MAX_COMMIT_ROW_SEQUENCE] |}]) e =
    (c <=? v).
Proof.
  generalize _MAX_COMMIT_ROW_SEQUENCE as top. intros top He Hi. unfold at_or_below. rewrite position_for_single, He. simpl. rewrite decide_True by done.
  unfold zs_leb, zs_ltb. simpl. destruct (Z.compare_spec v c) as [->|Hc|Hc]; simpl.
  - destruct (Z.compare_spec top i); simpl; lia.
  - lia.
  - lia.
Qed.

Lemma group_add_length groups c k r : (length (group_add groups c k r) <= S (length groups))%nat.
Proof. induction groups as [|[[c' k'] items] groups IH]; simpl; [lia|]. destruct (_ && _); simpl; lia. Qed.

Lemma group_all_length cols upper records groups :
  foldM (delta_group_step cols upper) [] records = Ok groups -> (length groups <= length records)%nat.
Proof.
  intros Hf. refine (foldM_ind _ (fun done gs => (length gs <= length done)%nat) _ _ _ Hf _ _); [done|].
  intros done r g1 g2 _ Hl. unfold delta_group_step. destruct (_ <? _); [done|]. intros (k & _ & Hg)%bind_Ok.
  destruct (negb _); [done|]. injection Hg as <-. rewrite length_app. simpl.
  pose proof (group_add_length g1 (dr_commit_version r) k r). lia.
Qed.

Lemma filter_length_le {A} (P : A -> Prop) `{!forall x, Decision (P x)} (l : list A) : (length (filter P l) <= length l)%nat.
Proof. induction l as [|x l IH]; [done|]. rewrite filter_cons. destruct (decide _); simpl; lia. Qed.

Section batch.
Context `{PyRuntime} (record_hash : DeltaCDFRecord -> string) (content_hash : CDCEvent -> string).

Lemma entries_sequence groups (en : entry) : en ∈ entries_of groups -> en.1.2 < Z.of_nat (length groups).
Proof.
  intros Hen. apply list_elem_of_In, in_concat in Hen as (ys & Hys & Hen). apply in_map_iff in Hys as (c & <- & _).
  apply list_elem_of_In, list_elem_of_lookup in Hen as [i Hi]. unfold ordered_groups in Hi.
  rewrite list_lookup_imap in Hi. apply fmap_Some in Hi as (g & Hg & ->). simpl. apply lookup_lt_Some in Hg.
  rewrite sort_on_perm, length_map in Hg. pose proof (filter_length_le (fun g : group => g.1.1 = c) groups). lia.
Qed.

(** What a successful normalization has computed. *)
Record delta_run (records : list DeltaCDFRecord) (t : string) (cols : list string) (upper : Z) (lower : option Z)
    (b : DeltaCDFBatchResult) (groups : list group) (evs : list (CDCEvent * bool)) : Prop := {
  dr_cols : cols <> [] /\ unique cols = true;
  dr_lower : match lower with Some v => 0 <= v <= upper | None => True end;
  dr_groups : group_inv cols upper (_dedupe_exact_records record_hash records).1 groups;
  dr_events : Forall2 (fun en ev => _logical_event_for_group t cols en = Ok ev) (entries_of groups) evs;
  dr_lower_checkpoint : nb_lower_checkpoint (db_normalized_batch b) =
    match lower with
    | Some v => Some [{| sp_partition := _DELTA_PARTITION_PREFIX +:+ t; sp_values := [v; _MAX_COMMIT_ROW_SEQUENCE] |}]
    | None => None
    end;
  dr_sorted : StronglySorted source_lt (map fst evs);
  dr_batch : nb_events (db_normalized_batch b) =
    filter (fun e => default (-1) lower < commit_of e) (map fst evs)
}.

Lemma entry_events_sorted t cols es evs :
  StronglySorted entry_lt es -> Forall2 (fun en ev => _logical_event_for_group t cols en = Ok ev) es evs ->
  StronglySorted source_lt (map fst evs).
Proof.
  intros Hs Hf. revert Hs. induction Hf as [|en [e u] es evs He Hf IH]; intros Hs; simpl; [constructor|].
  apply StronglySorted_inv in Hs as [Hs Hall]. constructor; [by apply IH|].
  apply logical_Ok in He as (s & _ & Hp & _). apply Forall_forall. intros f ([f' u'] & -> & Hin)%list_elem_of_fmap. simpl.
  apply list_elem_of_lookup in Hin as [j Hj]. destruct (Forall2_lookup_r _ _ _ _ _ Hf Hj) as (en' & Hen' & He').
  apply logical_Ok in He' as (s' & _ & Hp' & _). right. rewrite Hp, Hp'. split; [done|]. simpl.
  rewrite Forall_forall in Hall. destruct (Hall en') as [Hlt|[-> Hlt]]; [by eapply list_elem_of_lookup_2| |].
  - by rewrite (proj2 (Z.compare_lt_iff _ _) Hlt).
  - by rewrite Z.compare_refl, (proj2 (Z.compare_lt_iff _ _) Hlt).
Qed.

Lemma position_nonneg t c i : validate_values (delta_position t c i) = Ok tt -> 0 <= c /\ 0 <= i.
Proof.
  unfold validate_values. destruct (negb (nonempty _)); [done|]. case_bool_decide; [done|].
  destruct (existsb _ _) eqn:E; [done|]. simpl in E. lia.
Qed.

Lemma normalize_delta_Ok records t cols upper complete lower b :
  Z.of_nat (length records) < 2 ^ 63 ->
  normalize_delta_cdf_batch record_hash content_hash records t cols upper complete lower = Ok b ->
  exists groups evs, delta_run records t cols upper lower b groups evs.
Proof.
  intros Hlen. unfold normalize_delta_cdf_batch.
  destruct (negb (nonempty t)); [done|]. case_bool_decide as Hcols; [done|]. destruct (unique cols) eqn:Hun; [|done].
  cbn [negb]. destruct (upper <? 0) eqn:Eu; [done|]. intros ([] & Hlow & Hb)%bind_Ok.
  apply bind_Ok in Hb as (groups & Hg & Hb). apply bind_Ok in Hb as (evs & Hevs & Hb).
  apply bind_Ok in Hb as (uc & Huc & Hb). apply bind_Ok in Hb as (lc & Hlc & Hb).
  apply bind_Ok in Hb as (nb & Hnb & [= <-]). apply delta_checkpoint_Ok in Huc as [_ ->].
  assert (match lower with Some v => 0 <= v <= upper | None => True end) as Hlower.
  { destruct lower as [v|]; [|done]. destruct (v <? 0) eqn:E1; [done|]. destruct (upper <? v) eqn:E2; [done|]. lia. }
  apply mapM_res_Forall2 in Hevs. pose proof (entry_events_sorted _ _ _ _ (entries_sorted groups) Hevs) as Hsorted.
  assert (Hev : forall e, e ∈ map fst evs -> exists c i, ev_position e = delta_position t c i /\
    ev_event_id e = delta_event_id t c i (ev_key e) /\ 0 <= c /\ 0 <= i <= _MAX_COMMIT_ROW_SEQUENCE).
  { intros e ([e' u] & -> & Hin)%list_elem_of_fmap. apply list_elem_of_lookup in Hin as [j Hj].
    destruct (Forall2_lookup_r _ _ _ _ _ Hevs Hj) as (en & Hen & He). apply logical_Ok in He as (s & _ & Hp & Hid & _ & _ & _ & _ & Hv).
    simpl. exists en.1.1, en.1.2. rewrite Hp in Hv. apply position_nonneg in Hv as [? ?].
    apply list_elem_of_lookup_2, entries_sequence in Hen. pose proof (group_all_length _ _ _ _ Hg) as Hgl.
    destruct (dedupe_spec record_hash records) as (_ & _ & _ & Hdl). unfold _dedupe_exact_records in Hgl. simpl in Hgl.
    split; [done|]. split; [done|]. split; [done|]. unfold _MAX_COMMIT_ROW_SEQUENCE. lia. }
  exists groups, evs. split; [done|done|by apply group_all|done| |done|].
  - destruct (normalize_Ok _ _ _ _ _ _ Hnb) as (_ & _ & s & firsts & committed & _ & _ & ->). simpl.
    destruct lower as [v|]; [|by injection Hlc as <-]. apply bind_Ok in Hlc as (c & [_ ->]%delta_checkpoint_Ok & [= <-]). done.
  - simpl. destruct (normalize_exact _ _ _ _ _ _ Hnb) as (_ & Hns & Hin & _ & Hcov & _).
    assert (Hlc' : forall e, e ∈ map fst evs -> at_or_below lc e = false <-> default (-1) lower < commit_of e).
    { intros e He. destruct (Hev e He) as (c & i & Hp & _ & Hc & Hi). destruct lower as [v|]; simpl.
      - apply bind_Ok in Hlc as (ck & [_ ->]%delta_checkpoint_Ok & [= <-]). rewrite (at_or_below_version _ _ _ _ _ Hp) by lia.
        unfold commit_of. rewrite Hp. simpl. lia.
      - injection Hlc as <-. simpl. unfold commit_of. rewrite Hp. simpl. split; [lia|done]. }
    apply source_sorted_unique; [done|eapply sublist_sorted; [apply filter_sublist|done]|].
    rewrite Forall_forall in Hin, Hcov. intros e. rewrite list_elem_of_filter. split.
    + intros (He & Hbel & _)%Hin. split; [by apply Hlc'|done].
    + intros [Hlt He]. destruct (Hcov e He) as (f & [Hid _] & Hf).
      assert (f ∈ map fst evs) as Hfe by (destruct Hf as [Hf|[Hf _]]; [by apply Hin|done]).
      destruct (Hev e He) as (c & i & Hp & He1 & Hc & Hi). destruct (Hev f Hfe) as (c' & i' & Hp' & He2 & Hc' & Hi').
      rewrite He1, He2 in Hid. apply delta_event_id_inj in Hid as [-> ->]; [|lia..].
      assert (e = f) as ->.
      { apply list_elem_of_lookup in He as [j Hj], Hfe as [j' Hj'].
        destruct (decide (j = j')) as [->|Hne]; [congruence|]. exfalso.
        assert (position_key e = position_key f) as Hk by (unfold position_key; by rewrite Hp, Hp').
        clear -Hsorted Hj Hj' Hne Hk. revert j j' Hj Hj' Hne. induction Hsorted as [|x l Hs IH Hall]; intros j j' Hj Hj' Hne; [done|].
        rewrite Forall_forall in Hall. destruct j as [|j], j' as [|j']; simpl in *; [done| | |].
        - injection Hj as ->. apply (source_lt_irrefl e f Hk), Hall. by eapply list_elem_of_lookup_2.
        - injection Hj' as ->. apply (source_lt_irrefl f e (eq_sym Hk)), Hall. by eapply list_elem_of_lookup_2.
        - eapply IH; [exact Hj|exact Hj'|lia]. }
      destruct Hf as [Hf|[_ Hbel]]; [done|]. apply Hlc' in Hlt; [congruence|done].
Qed.
End batch.

(** ** What a version changes *)

(** [changes] are the change records of a key between two versions of its row. *)
Definition version_diff (before after : option row) (changes : list DeltaCDFRecord) : Prop :=
  match before, after with
  | None, None => changes = []
  | None, Some r' => changes <> [] /\ Forall (fun c => dr_change_type c = CT_INSERT /\ dr_data c = r') changes
  | Some r, None => changes <> [] /\ Forall (fun c => dr_change_type c = CT_DELETE /\ dr_data c = r) changes
  | Some r, Some r' =>
    dom r ⊆ dom r' /\
    (changes = [] /\ r = r' \/
     changes <> [] /\ Forall (fun c => dr_change_type c = CT_UPDATE_PREIMAGE /\ dr_data c = r \/
                                       dr_change_type c = CT_UPDATE_POSTIMAGE /\ dr_data c = r') changes)
  end.

(** The record that gives the row after the change. *)
Definition shape_record (s : group_shape) : DeltaCDFRecord := match s with GS_update _ r | GS_insert r | GS_delete r => r end.
Definition shape_type (s : group_shape) : DeltaCDFChangeType :=
  match s with GS_update _ _ => CT_UPDATE_POSTIMAGE | GS_insert _ => CT_INSERT | GS_delete _ => CT_DELETE end.

Lemma shape_of_elem records s :
  shape_of records = Ok s -> shape_record s ∈ records /\ dr_change_type (shape_record s) = shape_type s.
Proof.
  assert (forall r ty l, of_type ty records = r :: l -> r ∈ records /\ dr_change_type r = ty) as Hof.
  { intros r ty l E. assert (r ∈ of_type ty records) as Hr by (rewrite E; left). by apply list_elem_of_filter in Hr as [? ?]. }
  unfold shape_of, delta_error, raise. intros Hs.
  destruct (of_type CT_INSERT records) as [|x1 [|]] eqn:E1, (of_type CT_DELETE records) as [|x2 [|]] eqn:E2,
    (of_type CT_UPDATE_PREIMAGE records) as [|x3 [|]] eqn:E3, (of_type CT_UPDATE_POSTIMAGE records) as [|x4 [|]] eqn:E4;
    try discriminate Hs; injection Hs as <-; by eapply Hof.
Qed.

Section sync.
Context `{PyRuntime} (record_hash : DeltaCDFRecord -> string) (content_hash : CDCEvent -> string).
Context (t : string) (cols : list string).

(** The columns of the key are typed: keys that are equal are the same. *)
Definition typed_keys (records : list DeltaCDFRecord) : Prop :=
  forall r r', r ∈ records -> r' ∈ records -> keq (key_of cols r) (key_of cols r') = true -> key_of cols r = key_of cols r'.

(** The event of a group makes the row of its key what the version made it. *)
Lemma event_step before changes en e u k v after :
  unique cols = true -> version_diff before after changes -> _logical_event_for_group t cols en = Ok (e, u) ->
  (forall r, r ∈ en.2.2 -> r ∈ changes) ->
  (forall r, r ∈ en.2.2 -> key_of cols r = en.2.1 /\ existsb is_none (key_of cols r) = false) ->
  en.1.1 = v -> keq en.2.1 k = true ->
  matches cols k e = true /\ commit_of e = v /\ source_step cols before e = after.
Proof.
  intros Hun Hdiff He Hin Hkey Hv Hk. apply logical_Ok in He as (s & Hs & Hp & _ & Hop & Hek & Haf & _).
  destruct (shape_of_elem _ _ Hs) as [Hr Hty]. destruct (Hkey _ Hr) as [Hkr Hnn].
  pose proof (key_payload_event_key cols _ Hun Hnn) as Hkp. rewrite Hkr in Hkp.
  split; [|split].
  - unfold matches. rewrite Hek, Hkp. exact Hk.
  - unfold commit_of. by rewrite Hp.
  - apply Hin in Hr. unfold source_step. rewrite Hop, Haf.
    assert (Hset : forall cur : option row, (forall r, cur = Some r -> dom r ⊆ dom (dr_data (shape_record s))) ->
      set_key cols (map (get (ev_key e)) cols) (row_update (default ∅ cur) (dr_data (shape_record s))) = dr_data (shape_record s)).
    { intros cur Hdom. rewrite Hek.
      apply event_key_Ok in Hkp as [Hkp _]. rewrite <-Hkp, <-Hkr. unfold key_of. apply map_eq. intros c.
      rewrite set_key_lookup. destruct (decide (c ∈ cols)) as [Hc|Hc].
      - unfold get. destruct (dr_data (shape_record s) !! c) eqn:Ec; [done|]. exfalso. apply not_true_iff_false in Hnn. apply Hnn.
        apply existsb_elem. exists VNone. split; [|done]. unfold key_of. apply list_elem_of_fmap. exists c. split; [|done].
        unfold get. by rewrite Ec.
      - unfold row_update. rewrite lookup_union. destruct (dr_data (shape_record s) !! c) eqn:Ec; [by destruct (default ∅ cur !! c)|].
        destruct cur as [r|]; simpl; [|by rewrite lookup_empty]. destruct (r !! c) eqn:Erc; [|done]. exfalso.
        apply not_elem_of_dom in Ec. apply Ec, (Hdom r eq_refl). by apply elem_of_dom_2 in Erc. }
    unfold version_diff in Hdiff. destruct before as [r|], after as [r'|].
    + destruct Hdiff as [Hdom [[-> _]|[_ Hall]]]; [by apply elem_of_nil in Hr|]. rewrite Forall_forall in Hall.
      destruct (Hall _ Hr) as [[Ht _]|[_ Hd]]; [destruct s; simpl in *; congruence|].
      specialize (Hset (Some r)). rewrite Hd in Hset.
      destruct (Hall _ Hr) as [[Ht _]|[Ht _]]; destruct s as [b a|a|a]; simpl in *; try congruence.
      rewrite Hd. f_equal. apply Hset. by intros ? [= <-].
    + destruct Hdiff as [_ Hall]. rewrite Forall_forall in Hall. destruct (Hall _ Hr) as [Ht _].
      destruct s as [b a|a|a]; simpl in *; try congruence.
    + destruct Hdiff as [_ Hall]. rewrite Forall_forall in Hall. destruct (Hall _ Hr) as [Ht Hd].
      specialize (Hset None). rewrite Hd in Hset. destruct s as [b a|a|a]; simpl in *; try congruence.
      rewrite Hd. f_equal. by apply Hset.
    + subst changes. by apply elem_of_nil in Hr.
Qed.

Lemma Forall2_filter {A B} (R : A -> B -> Prop) (P : A -> Prop) (Q : B -> Prop) `{!forall x, Decision (P x)}
    `{!forall x, Decision (Q x)} l m :
  Forall2 R l m -> (forall x y, x ∈ l -> R x y -> P x <-> Q y) -> Forall2 R (filter P l) (filter Q m).
Proof.
  induction 1 as [|x y l m Hxy Hf IH]; intros Hiff; [constructor|]. rewrite !filter_cons.
  assert (P x <-> Q y) as He by (apply Hiff; [left|done]).
  assert (Forall2 R (filter P l) (filter Q m)) by (apply IH; intros a b Ha; apply Hiff; by right).
  destruct (decide (P x)), (decide (Q y)); [by constructor|tauto|tauto|done].
Qed.

Lemma filter_map {A B} (f : A -> B) (P : B -> Prop) `{!forall x, Decision (P x)} l :
  filter P (map f l) = map f (filter (fun x => P (f x)) l).
Proof. induction l as [|x l IH]; [done|]. simpl. rewrite !filter_cons, IH. by destruct (decide (P (f x))). Qed.

(** The events of one version for one key: none without change records, otherwise the one of the group. *)
Lemma version_events records upper lower b groups evs v k :
  delta_run record_hash records t cols upper lower b groups evs ->
  records_faithful record_hash records -> typed_keys records ->
  (filter (in_group cols v k) records = [] /\
   filter (fun e => matches cols k e = true /\ commit_of e = v) (map fst evs) = []) \/
  exists en e u, filter (fun e => matches cols k e = true /\ commit_of e = v) (map fst evs) = [e] /\
    _logical_event_for_group t cols en = Ok (e, u) /\ en.1.1 = v /\ keq en.2.1 k = true /\
    (forall r, r ∈ en.2.2 -> r ∈ filter (in_group cols v k) records) /\
    forall r, r ∈ en.2.2 -> key_of cols r = en.2.1 /\ existsb is_none (key_of cols r) = false.
Proof.
  intros [[_ Hun] _ Hg Hevs _ _ _] Hfaith Htyped. pose proof Hg as [Hit _ Hcov Hrec].
  assert (Hentry : forall en, en ∈ entries_of groups -> entry_group en ∈ groups).
  { intros en Hen. rewrite <-(entries_perm groups). by apply list_elem_of_fmap_2. }
  assert (Hkeys : forall en, en ∈ entries_of groups -> exists r, r ∈ records /\ key_of cols r = en.2.1 /\
    dr_commit_version r = en.1.1 /\ existsb is_none (key_of cols r) = false).
  { intros en Hen. destruct (Hit _ (Hentry en Hen)) as (_ & r & Hr & Hc & Hk). exists r.
    split; [by apply (dedupe_elem record_hash)|]. split; [done|]. split; [done|by apply Hrec]. }
  pose proof (entries_unique _ _ _ groups k v Hg) as Hone.
  pose proof (Forall2_filter _ (fun en : entry => en.1.1 = v /\ keq en.2.1 k = true)
    (fun ev : CDCEvent * bool => matches cols k ev.1 = true /\ commit_of ev.1 = v) _ _ Hevs) as Hf.
  rewrite filter_map.
  set (es := filter (fun en : entry => en.1.1 = v /\ keq en.2.1 k = true) (entries_of groups)) in *.
  set (fs := filter (fun ev : CDCEvent * bool => matches cols k ev.1 = true /\ commit_of ev.1 = v) evs) in *.
  assert (Forall2 (fun en ev => _logical_event_for_group t cols en = Ok ev) es fs) as Hef.
  { apply Hf. intros en [e u] Hen He. destruct (Hkeys en Hen) as (r & _ & Hk & _ & Hnn).
    apply logical_Ok in He as (s & _ & Hp & _ & _ & Hek & _). simpl. unfold matches, commit_of. rewrite Hek, Hp, <-Hk.
    rewrite (key_payload_event_key cols _ Hun Hnn). simpl. tauto. }
  assert (Hes : forall en, en ∈ es -> en ∈ entries_of groups /\ en.1.1 = v /\ keq en.2.1 k = true)
    by (intros en [[? ?] ?]%list_elem_of_filter; done).
  destruct es as [|en [|en' es0]] eqn:Ees; [| |simpl in Hone; lia].
  - left. inversion Hef; subst. split; [|done]. apply filter_nil_iff, Forall_forall. intros r Hr [Hc Hk].
    apply (dedupe_elem record_hash) in Hr; [|done]. destruct (Hcov r Hr) as (g & Hgin & Hgc & Hgk).
    assert (exists en, en ∈ entries_of groups /\ entry_group en = g) as (en & Hen & <-).
    { rewrite <-(entries_perm groups) in Hgin. apply list_elem_of_fmap in Hgin as (en & -> & Hen). eauto. }
    assert (en ∈ es) as Hin; [|rewrite Ees in Hin; by apply elem_of_nil in Hin].
    unfold es. apply list_elem_of_filter. split; [|done]. simpl in *. split; [congruence|].
    eapply keq_trans; [exact Hgk|]. by rewrite keq_sym.
  - right. inversion_clear Hef as [|? [e u] ? fs' He Hnil]. inversion_clear Hnil. destruct (Hes en) as (Hen & Hv & Hk); [left|].
    exists en, e, u. split; [done|]. split; [done|]. split; [done|]. split; [done|].
    destruct (Hit _ (Hentry en Hen)) as (Hitems & r0 & Hr0 & Hc0 & Hk0). simpl in *.
    assert (Hall : forall r, r ∈ en.2.2 -> r ∈ records /\ in_group cols v en.2.1 r /\ existsb is_none (key_of cols r) = false).
    { intros r Hr. rewrite Hitems in Hr. apply list_elem_of_filter in Hr as [[Hrc Hrk] Hr].
      split; [by apply (dedupe_elem record_hash)|]. split; [split; [congruence|done]|by apply Hrec]. }
    split.
    + intros r Hr. destruct (Hall r Hr) as (Hrr & [Hrc Hrk] & _). apply list_elem_of_filter. split; [|done]. split; [done|].
      eapply keq_trans; [|exact Hrk]. by rewrite keq_sym.
    + intros r Hr. destruct (Hall r Hr) as (Hrr & [Hrc Hrk] & Hnn). split; [|done]. rewrite <-Hk0 in Hrk |- *.
      symmetry. apply Htyped; [by apply (dedupe_elem record_hash)|done|done].
Qed.

Notation payload := _payload_without_cdc_metadata.

(** The target is at version [v] of the table: the rows are those of [T v], and none is marked beyond it. *)
Definition placed (v : Z) (r : row) : Prop :=
  (unmarked r /\ 0 <= v) \/
  exists c i, carries r CDC_PARTITION CDC_POSITION (_DELTA_PARTITION_PREFIX +:+ t) [c; i] /\ c <= v.
Definition synced (T : Z -> list value -> option row) (v : Z) (d : list (list value * row)) : Prop :=
  forall k, payload <$> dget d k = T v k /\ forall r, dget d k = Some r -> placed v r.

(** The events of the versions up to [v] make of every key the row of [T v]. *)
Lemma versions_replayed records upper lower b groups evs (T : Z -> list value -> option row) k n :
  let base := default (-1) lower in
  delta_run record_hash records t cols upper lower b groups evs ->
  records_faithful record_hash records -> typed_keys records ->
  (forall v, base < v <= base + Z.of_nat n -> version_diff (T (v - 1) k) (T v k) (filter (in_group cols v k) records)) ->
  foldl (source_step cols) (T base k)
    (filter (fun e => commit_of e <= base + Z.of_nat n) (events_of cols k (nb_events (db_normalized_batch b)))) =
    T (base + Z.of_nat n) k.
Proof.
  intros base Hrun Hfaith Htyped. pose proof Hrun as [[_ Hun] _ _ Hevs _ Hs Hnb]. fold base in Hnb.
  assert (Hgt : forall e, e ∈ events_of cols k (nb_events (db_normalized_batch b)) -> base < commit_of e).
  { intros e [_ He]%list_elem_of_filter. rewrite Hnb in He. by apply list_elem_of_filter in He as [? _]. }
  induction n as [|n IH]; intros Hdiff.
  - rewrite Z.add_0_r. rewrite filter_none; [done|]. apply Forall_forall. intros e He%Hgt. lia.
  - rewrite (filter_split_sorted source_lt (fun e => commit_of e <= base + Z.of_nat n)
      (fun e => commit_of e <= base + Z.of_nat (S n))); [| | |intros e; lia].
    + rewrite foldl_app, IH by (intros v Hv; apply Hdiff; lia).
      set (v := base + Z.of_nat (S n)).
      assert (filter (fun e => commit_of e <= v /\ ~ commit_of e <= base + Z.of_nat n) (events_of cols k (nb_events (db_normalized_batch b))) =
        filter (fun e => matches cols k e = true /\ commit_of e = v) (map fst evs)) as ->.
      { unfold events_of. rewrite Hnb, !list_filter_filter. apply list_filter_iff. intros e. unfold v. intuition lia. }
      replace (base + Z.of_nat n) with (v - 1) by (unfold v; lia). specialize (Hdiff v ltac:(unfold v; lia)).
      destruct (version_events records upper lower b groups evs v k Hrun Hfaith Htyped) as [[Hno ->]|(en & e & u & -> & He & Hv & Hk & Hin & Hkey)]; simpl.
      * rewrite Hno in Hdiff. unfold version_diff in Hdiff. destruct (T (v - 1) k) as [r|], (T v k) as [r'|]; [|by destruct Hdiff..|done].
        destruct Hdiff as [_ [[_ ->]|[? _]]]; done.
      * eapply (event_step _ _ en e u k v _ Hun Hdiff); done.
    + eapply sublist_sorted; [apply sublist_events_of|]. rewrite Hnb. eapply sublist_sorted; [apply filter_sublist|done].
    + assert (Hpos : forall e, e ∈ events_of cols k (nb_events (db_normalized_batch b)) -> exists c i, ev_position e = delta_position t c i).
      { intros e [_ He]%list_elem_of_filter. rewrite Hnb in He. apply list_elem_of_filter in He as [_ ([e' u] & -> & He)%list_elem_of_fmap].
        apply list_elem_of_lookup in He as [j Hj]. destruct (Forall2_lookup_r _ _ _ _ _ Hevs Hj) as (en & _ & He).
        apply logical_Ok in He as (s & _ & Hp & _). eauto. }
      intros x y (c & i & Hx)%Hpos (c' & i' & Hy)%Hpos [Hlt|[_ Hlt]]; unfold commit_of; rewrite Hx, Hy in *; simpl in *.
      * by rewrite (proj2 (str_compare_Eq _ _) eq_refl) in Hlt.
      * destruct (Z.compare_spec c c'); [lia|lia|done].
Qed.
End sync.

Section delta_sync.
Context `{PyRuntime} (record_hash : DeltaCDFRecord -> string) (content_hash : CDCEvent -> string).
Context (t : string) (cols : list string).

(** C27. A target that stands at version [base] of a Delta table stands at version [upper] after the batch of the
    change records in between, whatever order the records are delivered in, however often, and with
    whatever overlap: [T v k] is the row of key [k] in version [v], and the change records of a key are the
    difference of two consecutive versions.  The rows written are marked with their version, so the next
    batch starts from the same condition. *)
Theorem delta_cdf_synchronizes records upper complete lower b E d strategy (T : Z -> list value -> option row) :
  Z.of_nat (length records) < 2 ^ 63 -> records_faithful record_hash records -> typed_keys cols records ->
  normalize_delta_cdf_batch record_hash content_hash records t cols upper complete lower = Ok b ->
  let base := default (-1) lower in
  base <= upper ->
  (forall v k, base < v <= upper -> version_diff (T (v - 1) k) (T v k) (filter (in_group cols v k) records)) ->
  strategy ∈ [AS_UPSERT; AS_SCD1] -> CDC_PARTITION ∉ cols -> CDC_POSITION ∉ cols ->
  index_target E cols = Ok d -> synced t T base d ->
  exists res d', apply_cdc_current_state E (db_normalized_batch b) cols strategy DEL_APPLY = Ok res /\
    index_target (ccr_rows res) cols = Ok d' /\ synced t T upper d'.
Proof.
  intros Hlen Hfaith Htyped Hb base Hup Hdiff Hst Hcp Hcv Hd Hsync.
  destruct (normalize_delta_Ok _ _ _ _ _ _ _ _ _ Hlen Hb) as (groups & evs & Hrun).
  pose proof Hrun as [[Hne Hun] Hlow Hg Hevs Hlc Hs Hnb]. fold base in Hnb.
  assert (Hev : forall e, e ∈ nb_events (db_normalized_batch b) -> exists c i, ev_position e = delta_position t c i /\
    base < c <= upper /\ validate_event e = Ok tt /\ validate_values (ev_position e) = Ok tt /\ keyed cols e).
  { intros e He. rewrite Hnb in He. apply list_elem_of_filter in He as [Hc ([e' u] & -> & He)%list_elem_of_fmap].
    apply list_elem_of_lookup in He as [j Hj]. destruct (Forall2_lookup_r _ _ _ _ _ Hevs Hj) as (en & Hen & He).
    apply logical_Ok in He as (s & _ & Hp & _ & _ & Hek & _ & Hve & Hvv). simpl in *. exists en.1.1, en.1.2.
    unfold commit_of in Hc. rewrite Hp in Hc. simpl in Hc.
    assert (entry_group en ∈ groups) as Hgin by (rewrite <-(entries_perm groups); apply list_elem_of_fmap_2; by eapply list_elem_of_lookup_2).
    destruct (gi_items _ _ _ _ Hg _ Hgin) as (_ & r & Hr & Hrc & Hrk). destruct (gi_records _ _ _ _ Hg r Hr) as [Hru Hnn].
    simpl in *. split; [done|]. split; [lia|]. split; [done|]. split; [done|]. unfold keyed.
    by rewrite Hek, <-Hrk, (key_payload_event_key cols _ Hun Hnn). }
  destruct (apply_source cols Hne Hun Hcp Hcv E d (db_normalized_batch b) strategy Hst Hd) as (res & d' & Hres & Hd' & Hrows & Hmark).
  - split; [|split].
    + rewrite Hnb. eapply sublist_sorted; [apply filter_sublist|done].
    + apply Forall_forall. intros e He. destruct (Hev e He) as (c & i & _ & _ & ? & ? & _). done.
    + intros k e f [_ He]%list_elem_of_filter [_ Hf]%list_elem_of_filter. destruct (Hev e He) as (c & i & Hp & _), (Hev f Hf) as (c' & i' & Hp' & _).
      unfold same_arity. by rewrite Hp, Hp'.
  - apply Forall_forall. intros e He. destruct (Hev e He) as (c & i & _ & _ & _ & _ & ?). done.
  - intros k. destruct (dget d k) as [r|] eqn:Er; [|done]. destruct (Hsync k) as [_ Hpl]. rewrite Er in Hpl.
    destruct (Hpl r eq_refl) as [[Hum Hb0]|(c0 & i0 & Hc & Hle)].
    + left. split; [done|]. apply Forall_forall. intros e [_ He]%list_elem_of_filter. destruct (Hev e He) as (c & i & Hp & Hc & _).
      destruct lower as [v|]; [|simpl in Hb0; unfold base in Hb0; simpl in Hb0; lia]. rewrite Hlc. unfold base in Hc. simpl in Hc.
      exists [v; _MAX_COMMIT_ROW_SEQUENCE]. simpl. rewrite position_for_single, Hp. simpl. rewrite decide_True by done.
      split; [done|]. split; [done|]. by rewrite (proj2 (Z.compare_lt_iff v c)) by lia.
    + right. exists (_DELTA_PARTITION_PREFIX +:+ t), [c0; i0]. split; [done|]. split; [done|].
      apply Forall_forall. intros e [_ He]%list_elem_of_filter. destruct (Hev e He) as (c & i & Hp & Hcc & _). rewrite Hp.
      split; [done|]. split; [done|]. simpl. by rewrite (proj2 (Z.compare_lt_iff c0 c)) by lia.
  - exists res, d'. split; [done|]. split; [done|]. intros k. split.
    + rewrite Hrows. unfold source_row. destruct (Hsync k) as [-> _].
      pose proof (fun Hv => versions_replayed record_hash content_hash t cols records upper lower b groups evs T k (Z.to_nat (upper - base)) Hrun Hfaith Htyped Hv) as Hv.
      fold base in Hv. rewrite Z2Nat.id in Hv by lia. replace (base + (upper - base)) with upper in Hv by lia.
      rewrite <-Hv by (intros v ?; apply Hdiff; lia). f_equal. symmetry. apply filter_all. apply Forall_forall.
      intros e [_ He]%list_elem_of_filter. destruct (Hev e He) as (c & i & Hp & Hc & _). unfold commit_of. rewrite Hp. simpl. lia.
    + intros r Hr. destruct (Hmark k r Hr) as [Hold|(e & He & Hat)].
      * destruct (Hsync k) as [_ Hpl]. destruct (Hpl r Hold) as [[Hum Hb0]|(c & i & Hc & Hle)]; [left; split; [done|lia]|right].
        exists c, i. split; [done|lia].
      * right. destruct (Hev e He) as (c & i & Hp & Hc & _). destruct Hat as [Hat1 Hat2]. rewrite Hp in Hat1, Hat2. exists c, i.
        split; [|lia]. split; [done|]. rewrite Hat2. done.
Qed.
End delta_sync.

(** A resume plan exists exactly when the provider still holds the next version to apply; it starts there, or
    at the earliest version when nothing is committed, and ends at the requested version. *)
Theorem delta_resume_exact t lower earliest latest requested p :
  let upper := default latest requested in
  plan_delta_cdf_resume t lower earliest latest requested = Ok p <->
  nonempty t = true /\ 0 <= earliest <= latest /\ 0 <= upper <= latest /\
  dp_start_version p = match lower with Some v => v + 1 | None => earliest end /\
  match lower with Some v => 0 <= v <= upper /\ earliest <= v + 1 | None => earliest <= upper + 1 end /\
  dp_table_reference p = t /\ dp_lower_committed_version p = lower /\ dp_earliest_available_version p = earliest /\
  dp_latest_available_version p = latest /\ dp_upper_version p = upper.
Proof.
  intros upper. unfold plan_delta_cdf_resume, delta_error, raise. fold upper. destruct (nonempty t) eqn:Et; cbn [negb]; [|naive_solver].
  destruct ((earliest <? 0) || (latest <? 0)) eqn:E1; [split; [done|lia]|].
  destruct (latest <? earliest) eqn:E2; [split; [done|lia]|]. destruct (upper <? 0) eqn:E3; [split; [done|lia]|].
  destruct (latest <? upper) eqn:E4; [split; [done|lia]|].
  assert (Hmake : forall q, dp_table_reference q = t -> 0 <= default 0 (dp_lower_committed_version q) ->
    dp_earliest_available_version q = earliest -> dp_latest_available_version q = latest -> dp_upper_version q = upper ->
    0 <= dp_start_version q ->
    make_DeltaCDFResumePlan q = if upper + 1 <? dp_start_version q then raise "ValueError" "Delta CDF start cannot skip beyond upper + 1" else Ok q).
  { intros q H1 H2 H3 H4 H5 H6. unfold make_DeltaCDFResumePlan. rewrite H1, H3, H4, H5, Et. cbn [negb orb].
    replace (default 0 (dp_lower_committed_version q) <? 0) with false by lia. replace (earliest <? 0) with false by lia.
    replace (latest <? 0) with false by lia. replace (dp_start_version q <? 0) with false by lia. rewrite E3. simpl. by rewrite E2, E4. }
  destruct lower as [v|].
  - destruct (v <? 0) eqn:E5; [split; [done|lia]|]. destruct (upper <? v) eqn:E6; [split; [done|lia]|].
    destruct (v + 1 <? earliest) eqn:E7; [split; [done|lia]|]. cbn [mbind res_bind]. rewrite Hmake by (simpl; done || lia). simpl.
    rewrite Z.max_r by lia. destruct (upper + 1 <? v + 1) eqn:E8; [lia|]. split.
    + intros [= <-]. simpl. repeat split; lia || done.
    + intros (_ & _ & _ & Hs & _ & Ht & Hl & He & Hla & Hu). destruct p; simpl in *. by subst.
  - cbn [mbind res_bind]. rewrite Hmake by (simpl; done || lia). simpl. destruct (upper + 1 <? earliest) eqn:E8; [split; [done|lia]|]. split.
    + intros [= <-]. simpl. repeat split; lia || done.
    + intros (_ & _ & _ & Hs & _ & Ht & Hl & He & Hla & Hu). destruct p; simpl in *. by subst.
Qed.

(** ** Witnesses *)

Module Demo.

Definition data (k v : Z) : row := {[ "id" := VInt k; "v" := VInt v ]}.
Definition change (ty : DeltaCDFChangeType) (version k v : Z) : DeltaCDFRecord :=
  {| dr_change_type := ty; dr_commit_version := version; dr_commit_timestamp := utc version; dr_data := data k v |}.

Definition kind_text (ty : DeltaCDFChangeType) : string :=
  match ty with CT_INSERT => "i" | CT_DELETE => "d" | CT_UPDATE_PREIMAGE => "b" | CT_UPDATE_POSTIMAGE => "a" end.
Definition text_of (r : DeltaCDFRecord) : string :=
  kind_text (dr_change_type r) +:+ pretty (dr_commit_version r) +:+ "/" +:+
  match get (dr_data r) "id", get (dr_data r) "v" with VInt k, VInt v => pretty k +:+ "/" +:+ pretty v | _, _ => "" end.

(** Version 1 holds the keys 1 and 2; version 2 updates the first and deletes the second. *)
Definition table (version : Z) : list (list value * row) :=
  if decide (version = 1) then [([VInt 1], data 1 10); ([VInt 2], data 2 7)]
  else if decide (version = 2) then [([VInt 1], data 1 20)] else [].

(** A read that starts one version too early and repeats a record. *)
Definition records : list DeltaCDFRecord :=
  [change CT_UPDATE_POSTIMAGE 2 1 20; change CT_INSERT 1 1 10; change CT_DELETE 2 2 7; change CT_UPDATE_PREIMAGE 2 1 10;
   change CT_DELETE 2 2 7; change CT_INSERT 1 2 7].

Definition target : list row := [data 1 10; data 2 7].
Definition indexed : list (list value * row) := match index_target target ["id"] with Ok d => d | _ => [] end.

Lemma keys_differ k : keq [VInt 1] k = true -> keq [VInt 2] k = false.
Proof.
  intros E1. destruct (keq [VInt 2] k) eqn:E2; [|done]. rewrite (keq_sym [VInt 1] k) in E1.
  pose proof (keq_trans _ _ _ E2 E1) as H. vm_compute in H. discriminate H.
Qed.

Lemma table_difference v k : 1 < v <= 2 ->
  version_diff (dget (table (v - 1)) k) (dget (table v) k) (filter (in_group ["id"] v k) records).
Proof.
  intros Hv. assert (v = 2) as -> by lia. change (2 - 1) with 1.
  assert (forall ty ver key x, in_group ["id"] 2 k (change ty ver key x) <-> ver = 2 /\ keq [VInt key] k = true) as Hin.
  { intros ty ver key x. unfold in_group. rewrite (keq_sym k). done. }
  unfold records. rewrite !filter_cons.
  rewrite !(decide_ext (in_group ["id"] 2 k (change _ _ _ _)) _ _ _ (Hin _ _ _ _)), filter_nil.
  unfold table. simpl. destruct (keq [VInt 1] k) eqn:E1.
  - rewrite (keys_differ k E1). simpl. split; [vm_compute; intros ?; done|]. right. split; [done|].
    apply Forall_cons; split; [right; by split|]. apply Forall_cons; split; [left; by split|constructor].
  - destruct (keq [VInt 2] k) eqn:E2; simpl; [|done]. split; [done|]. repeat constructor.
Qed.

Lemma target_synced : synced "t" (fun v => dget (table v)) 1 indexed.
Proof.
  assert (indexed = table 1) as -> by (vm_compute; reflexivity). intros k. change (table 1) with [([VInt 1], data 1 10); ([VInt 2], data 2 7)]. simpl.
  assert (forall key x, _payload_without_cdc_metadata (data key x) = data key x /\ placed "t" 1 (data key x)) as Hd.
  { intros key x. split; [vm_compute; reflexivity|]. left. split; [|lia]. split; vm_compute; reflexivity. }
  destruct (keq [VInt 1] k); [|destruct (keq [VInt 2] k)]; simpl; (split; [try (f_equal; by apply Hd); done|]); try done; intros r [= <-]; by apply Hd.
Qed.

Lemma delta_cdf_synchronizes_witness :
  exists b res d', @normalize_delta_cdf_batch demo_runtime text_of demo_content records "t" ["id"] 2 true (Some 1) = Ok b /\
    @apply_cdc_current_state demo_runtime target (db_normalized_batch b) ["id"] AS_SCD1 DEL_APPLY = Ok res /\
    index_target (ccr_rows res) ["id"] = Ok d' /\ synced "t" (fun v => dget (table v)) 2 d'.
Proof.
  assert (is_ok (@normalize_delta_cdf_batch demo_runtime text_of demo_content records "t" ["id"] 2 true (Some 1)) = true) as Hb
    by (vm_compute; reflexivity).
  destruct (@normalize_delta_cdf_batch demo_runtime text_of demo_content records "t" ["id"] 2 true (Some 1)) as [b|] eqn:E; [|discriminate Hb].
  destruct (@delta_cdf_synchronizes demo_runtime text_of demo_content "t" ["id"] records 2 true (Some 1) b target indexed AS_SCD1
    (fun v => dget (table v))) as (res & d' & Hres & Hd' & Hs).
  - vm_compute. reflexivity.
  - assert (Forall (fun r => Forall (fun r' => text_of r = text_of r' -> dr_change_type r = dr_change_type r' /\
      dr_commit_version r = dr_commit_version r' /\ dr_commit_timestamp r = dr_commit_timestamp r' /\ dr_data r = dr_data r') records) records) as Hall
      by (apply (bool_decide_unpack _); vm_compute; exact I).
    intros r r' Hr Hr' Ht. rewrite Forall_forall in Hall. specialize (Hall r Hr). rewrite Forall_forall in Hall.
    destruct (Hall r' Hr' Ht) as (H1 & H2 & H3 & H4). destruct r, r'. simpl in *. by subst.
  - assert (Forall (fun r => Forall (fun r' => keq (key_of ["id"] r) (key_of ["id"] r') = true ->
      key_of ["id"] r = key_of ["id"] r') records) records) as Hall by (apply (bool_decide_unpack _); vm_compute; exact I).
    intros r r' Hr Hr'. rewrite Forall_forall in Hall. specialize (Hall r Hr). rewrite Forall_forall in Hall. exact (Hall r' Hr').
  - exact E.
  - simpl. lia.
  - exact table_difference.
  - apply elem_of_cons. right. apply elem_of_cons. left. reflexivity.
  - apply (bool_decide_unpack _). vm_compute. exact I.
  - apply (bool_decide_unpack _). vm_compute. exact I.
  - vm_compute. reflexivity.
  - exact target_synced.
  - exists b, res, d'. exact (conj eq_refl (conj Hres (conj Hd' Hs))).
Defined.
End Demo.
