(* ===== verification/Scd2.v ===== *)
(** * SCD2 history apply ([apply/scd2.py])

    The rows of the target are a list; closing the current version of a key updates it in
    place and a new version is appended.  Timestamps are compared with Python's [<] and
    [==]. *)

From stdpp Require Import base gmap strings sorting list.
From S2P Require Import Prelude PyValue PyDict Ordering TypedValues RunAudit.

Definition VALID_FROM : string := "_framework_valid_from".
Definition VALID_TO : string := "_framework_valid_to".
Definition IS_CURRENT : string := "_framework_is_current".
Definition RECORD_HASH : string := "_framework_record_hash".
Definition SOURCE_DATASET_RUN_ID : string := "_framework_source_dataset_run_id".

Record SCD2ApplyResult := { s2_rows : list row; s2_mutations : MutationCounts }.

Definition _key (r : row) (columns : list string) : res (list value) :=
  let values := map (get r) columns in
  if existsb is_none values then raise "ValueError" "SCD2 key columns cannot be null"
  else Ok values.

(** [row.get(IS_CURRENT) is True] *)
Definition is_current (r : row) : bool := is_true (get r IS_CURRENT).

(** The counting loop of [assert_one_current_row]. *)
Definition count_current (rows : list row) (business_key : list string) :
    res (list (list value * nat)) :=
  foldM (fun current r =>
    if is_current r then
      key ← _key r business_key;
      Ok (dset current key (default 0 (dget current key) + 1))
    else Ok current) [] rows.

Definition assert_one_current_row (rows : list row) (business_key : list string) : res unit :=
  current ← count_current rows business_key;
  if existsb (fun kc => 1 <? kc.2) current then
    raise "ValueError" "SCD2 current-row invariant violated"
  else Ok tt.

(** [next((index for index, row in enumerate(rows) if row.get(IS_CURRENT) is True and
    _key(row, business_key) == key), None)] *)
Fixpoint current_index (rows : list row) (business_key : list string) (key : list value) :
    res (option nat) :=
  match rows with
  | [] => Ok None
  | r :: rows' =>
    found ← (if is_current r then k ← _key r business_key; Ok (keq k key) else Ok false);
    if found : bool then Ok (Some 0)
    else rest ← current_index rows' business_key key; Ok (option_map S rest)
  end.

(** [new_row.update({VALID_FROM: ..., VALID_TO: None, IS_CURRENT: True, RECORD_HASH: ...,
    SOURCE_DATASET_RUN_ID: ...})] *)
Definition new_version (incoming : row) (effective_at : value) (new_hash dataset_run_id : string) : row :=
  <[SOURCE_DATASET_RUN_ID := VStr dataset_run_id]>
  (<[RECORD_HASH := VStr new_hash]>
  (<[IS_CURRENT := VBool true]>
  (<[VALID_TO := VNone]>
  (<[VALID_FROM := effective_at]> incoming)))).

(** [current[VALID_TO] = effective_at; current[IS_CURRENT] = False] *)
Definition closed_version (current : row) (effective_at : value) : row :=
  <[IS_CURRENT := VBool false]> (<[VALID_TO := effective_at]> current).

(** [left < right], or the [TypeError] of values that cannot be compared. *)
Definition py_lt (left right : value) : res bool :=
  match py_cmp left right with
  | Some c => Ok (match c with Lt => true | _ => false end)
  | None => raise "TypeError" "'<' not supported between instances"
  end.

Record scd2_state := { st_rows : list row; st_inserted : nat; st_updated : nat }.

Section scd2.
Context `{PyRuntime} `{ScalarText}.

Definition scd2_step (business_key tracked_columns : list string) (effective_time_column : string)
    (dataset_run_id : string) (s : scd2_state) (incoming : row) : res scd2_state :=
  let effective_at := get incoming effective_time_column in
  if negb (is_datetime effective_at) then raise "TypeError" "must contain datetime values"
  else
    key ← _key incoming business_key;
    new_hash ← hash_tracked_attributes incoming tracked_columns;
    index ← current_index (st_rows s) business_key key;
    match index ≫= fun i => st_rows s !! i with
    | None =>
      Ok {| st_rows := st_rows s ++ [new_version incoming effective_at new_hash dataset_run_id];
            st_inserted := S (st_inserted s); st_updated := st_updated s |}
    | Some current =>
      let current_from := get current VALID_FROM in
      if negb (is_datetime current_from) then
        raise "TypeError" "existing SCD2 current row missing datetime valid_from"
      else
        late ← py_lt effective_at current_from;
        if late : bool then raise "LateArrivingRecordError" "late-arriving row"
        else if py_eqb (get current RECORD_HASH) (VStr new_hash) then Ok s
        else if py_eqb effective_at current_from then
          raise "SCD2ConflictError" "conflicting row at existing effective timestamp"
        else
          Ok {| st_rows := <[default 0 index := closed_version current effective_at]> (st_rows s)
                           ++ [new_version incoming effective_at new_hash dataset_run_id];
                st_inserted := st_inserted s; st_updated := S (st_updated s) |}
    end.

(** [<] on sort keys. *)
Definition tuple_order (a b : list value * row) : res Z :=
  match tuple_cmp a.1 b.1 with
  | Some c => Ok (z_of c)
  | None => raise "TypeError" "'<' not supported between instances"
  end.

(** [sorted(rows, key=...)] for a key function into tuples. *)
Definition sort_rows (key_of : row -> res (list value)) (rows : list row) : res (list row) :=
  keyed ← mapM_res (fun r => k ← key_of r; Ok (k, r)) rows;
  sorted ← sortM tuple_order keyed;
  Ok (map snd sorted).

(** [row[column]] *)
Definition item_of (r : row) (column : string) : res value :=
  match r !! column with Some v => Ok v | None => raise "KeyError" "" end.

Definition apply_scd2 (existing_rows incoming_rows : list row) (business_key tracked_columns : list string)
    (effective_time_column : string) (dataset_run_id : string) : res SCD2ApplyResult :=
  if bool_decide (business_key = []) then raise "ValueError" "business_key is required for SCD2"
  else if bool_decide (tracked_columns = []) then
    raise "ValueError" "tracked_columns is required for SCD2"
  else
    _ ← assert_one_current_row existing_rows business_key;
    ordered ← sort_rows (fun r => t ← item_of r effective_time_column;
                                  k ← _key r business_key; Ok [t; VTuple k]) incoming_rows;
    s ← foldM (scd2_step business_key tracked_columns effective_time_column dataset_run_id)
          {| st_rows := existing_rows; st_inserted := 0; st_updated := 0 |} ordered;
    _ ← assert_one_current_row (st_rows s) business_key;
    rows ← sort_rows (fun r => k ← _key r business_key; f ← item_of r VALID_FROM; Ok [VTuple k; f])
             (st_rows s);
    Ok {| s2_rows := rows;
          s2_mutations := {| mc_inserted := st_inserted s; mc_updated := st_updated s; mc_deleted := 0 |} |}.

End scd2.

(** [InMemorySCD2Target] holds the committed rows. *)
Definition InMemorySCD2Target : Type := list row.
Definition target_read (t : InMemorySCD2Target) : list row := t.
Definition target_replace (t : InMemorySCD2Target) (rows : list row) : InMemorySCD2Target := rows.

(** ** Lemmas on current rows *)

(** The current rows with their keys, in the order of the list. *)
Definition currents (bk : list string) (rows : list row) : list (list value * row) :=
  omap (fun r => if is_current r then
                   match _key r bk with Ok k => Some (k, r) | Raise _ => None end
                 else None) rows.

(** Every current row has a key, and no two current rows have the same. *)
Definition one_current (bk : list string) (rows : list row) : Prop :=
  Forall (fun r => is_current r = true -> is_ok (_key r bk) = true) rows /\ dwf (currents bk rows).

Lemma scd2_key_Ok r cols k : _key r cols = Ok k -> k = map (get r) cols /\ existsb is_none k = false.
Proof. unfold _key. destruct (existsb is_none (map (get r) cols)) eqn:E; [done|]. by intros [= <-]. Qed.

Lemma currents_app bk l1 l2 : currents bk (l1 ++ l2) = currents bk l1 ++ currents bk l2.
Proof. apply omap_app. Qed.

Lemma currents_cons bk r l : currents bk (r :: l) = currents bk [r] ++ currents bk l.
Proof. apply (currents_app bk [r] l). Qed.

Lemma currents_not bk r : is_current r = false -> currents bk [r] = [].
Proof. intros Hc. unfold currents. simpl. by rewrite Hc. Qed.

Lemma currents_one bk r k : is_current r = true -> _key r bk = Ok k -> currents bk [r] = [(k, r)].
Proof. intros Hc Hk. unfold currents. simpl. by rewrite Hc, Hk. Qed.

(** The count of a key is the number of its current rows. *)
Definition occurrences (k : list value) (d : list (list value * row)) : nat :=
  length (filter (fun kr => keq kr.1 k = true) d).

Lemma count_current_Ok rows bk c :
  count_current rows bk = Ok c ->
  Forall (fun r => is_current r = true -> is_ok (_key r bk) = true) rows /\ dwf c /\
  forall k, dget c k = match occurrences k (currents bk rows) with O => None | n => Some n end.
Proof.
  intros Hf. refine (foldM_ind _ (fun done c =>
    Forall (fun r => is_current r = true -> is_ok (_key r bk) = true) done /\ dwf c /\
    forall k, dget c k = match occurrences k (currents bk done) with O => None | n => Some n end)
    _ _ _ Hf _ _); [done|].
  intros done r c1 c2 _ (Hall & Hwf & Hc) Hstep. rewrite Forall_app, Forall_singleton.
  setoid_rewrite currents_app. destruct (is_current r) eqn:Er.
  - apply bind_Ok in Hstep as (key & Hk & [= <-]). split; [by rewrite Hk|].
    split; [by apply dwf_dset|].
    intros k. rewrite (currents_one _ _ _ Er Hk). rewrite dget_dset. unfold occurrences in *.
    rewrite filter_app, length_app, filter_cons, filter_nil. simpl.
    destruct (keq key k) eqn:Ek.
    + rewrite decide_True by done. simpl. rewrite (dget_compat _ _ _ Ek), Hc.
      destruct (length _); simpl; f_equal; lia.
    + rewrite decide_False by done. simpl. by rewrite Nat.add_0_r.
  - injection Hstep as <-. split; [done|]. split; [done|]. intros k. rewrite (currents_not _ _ Er), app_nil_r. apply Hc.
Qed.

Lemma dwf_occurrences (d : list (list value * row)) :
  (forall k, occurrences k d <= 1) -> dwf d.
Proof.
  unfold occurrences. induction d as [|[k r] d IH]; simpl; [done|]. intros Hall. split.
  - apply dget_None. specialize (Hall k). rewrite filter_cons, keq_refl in Hall.
    rewrite decide_True in Hall by done. simpl in Hall.
    assert (filter (fun kr : list value * row => keq kr.1 k = true) d = []) as Hn
      by (destruct (filter _ d); [done|simpl in Hall; lia]).
    apply filter_nil_iff in Hn. eapply Forall_impl; [exact Hn|]. intros kr. simpl.
    by destruct (keq kr.1 k).
  - apply IH. intros k'. specialize (Hall k'). rewrite filter_cons in Hall.
    destruct (decide _); simpl in Hall; lia.
Qed.

Lemma occurrences_dwf (d : list (list value * row)) k : dwf d -> occurrences k d <= 1.
Proof.
  unfold occurrences. induction d as [|[k1 r] d IH]; simpl; [lia|]. intros [Hk Hwf].
  specialize (IH Hwf). rewrite filter_cons. destruct (decide _) as [Hkk|]; [|done]. simpl.
  rewrite filter_none; [simpl; lia|]. apply dget_None in Hk. eapply Forall_impl; [exact Hk|].
  intros [k2 r2] Hf Ht. simpl in *. rewrite (keq_trans k2 k k1) in Hf; [done|done|]. by rewrite keq_sym.
Qed.

Lemma assert_one_current_iff rows bk : assert_one_current_row rows bk = Ok tt <-> one_current bk rows.
Proof.
  unfold assert_one_current_row, one_current. split.
  - intros (c & Hc & He)%bind_Ok. pose proof (count_current_Ok _ _ _ Hc) as (Hall & _ & Hget).
    split; [done|]. apply dwf_occurrences. intros k.
    destruct (existsb _ c) eqn:Ex; [done|]. apply not_true_iff_false in Ex.
    destruct (occurrences k (currents bk rows)) as [|[|n]] eqn:Eo; [lia..|]. exfalso. apply Ex.
    specialize (Hget k). rewrite Eo in Hget. apply dget_Some_elem in Hget as (k' & _ & Hin).
    apply existsb_elem. by exists (k', S (S n)).
  - intros [Hall Hwf].
    assert (exists c, count_current rows bk = Ok c) as [c Hc].
    { clear Hwf. unfold count_current. generalize (@nil (list value * nat)).
      induction Hall as [|r rows Hr _ IH]; intros d; simpl; [by eexists|].
      destruct (is_current r); [|apply IH]. destruct (_key r bk); [apply IH|by specialize (Hr eq_refl)]. }
    rewrite Hc. pose proof (count_current_Ok _ _ _ Hc) as (_ & Hcwf & Hget). cbn [mbind res_bind].
    destruct (existsb _ c) eqn:Ex; [|done]. exfalso.
    apply existsb_elem in Ex as ([k n] & Hin & Hn). simpl in Hn.
    apply dwf_elem in Hin; [|done]. rewrite Hget in Hin.
    pose proof (occurrences_dwf _ k Hwf) as Ho.
    destruct (occurrences k (currents bk rows)) as [|[|m]]; [done| |lia].
    injection Hin as <-. by vm_compute in Hn.
Qed.

(** ** The current version of a key *)

(** Where [current_index] points. *)
Lemma current_index_Some rows bk key i :
  current_index rows bk key = Ok (Some i) ->
  exists pre r post k, rows = pre ++ r :: post /\ length pre = i /\ is_current r = true /\
    _key r bk = Ok k /\ keq k key = true /\ dget (currents bk pre) key = None.
Proof.
  revert i. induction rows as [|r rows IH]; intros i; simpl; [done|].
  intros (found & Hf & H)%bind_Ok. destruct found.
  - injection H as <-. destruct (is_current r) eqn:Er; [|done].
    apply bind_Ok in Hf as (k & Hk & [= Hkk]). exists [], r, rows, k. done.
  - apply bind_Ok in H as ([j|] & Hj & [= <-]).
    destruct (IH _ Hj) as (pre & r' & post & k & -> & Hl & Hr & Hk & Hkk & Hpre).
    exists (r :: pre), r', post, k. repeat split; [simpl; lia|done..|].
    rewrite currents_cons, dget_app, Hpre.
    destruct (is_current r) eqn:Er.
    + apply bind_Ok in Hf as (k' & Hk' & [= Hkk']). rewrite (currents_one _ _ _ Er Hk'). simpl.
      by rewrite Hkk'.
    + by rewrite (currents_not _ _ Er).
Qed.

Lemma current_index_None rows bk key :
  current_index rows bk key = Ok None -> dget (currents bk rows) key = None.
Proof.
  induction rows as [|r rows IH]; cbn [current_index]; [done|].
  intros (found & Hf & H)%bind_Ok. destruct found; [done|].
  apply bind_Ok in H as ([j|] & Hj & H); [done|]. specialize (IH Hj).
  rewrite currents_cons, dget_app, IH.
  destruct (is_current r) eqn:Er.
  - apply bind_Ok in Hf as (k' & Hk' & [= Hkk']). rewrite (currents_one _ _ _ Er Hk'). simpl.
    by rewrite Hkk'.
  - by rewrite (currents_not _ _ Er).
Qed.

(** Reading a written column. *)
Lemma new_version_current i e h id : is_current (new_version i e h id) = true.
Proof.
  unfold is_current, new_version. rewrite !get_insert_ne by done. by rewrite get_insert_eq.
Qed.

Lemma new_version_from i e h id : get (new_version i e h id) VALID_FROM = e.
Proof. unfold new_version. rewrite !get_insert_ne by done. apply get_insert_eq. Qed.

Lemma new_version_hash i e h id : get (new_version i e h id) RECORD_HASH = VStr h.
Proof. unfold new_version. rewrite get_insert_ne by done. apply get_insert_eq. Qed.

Lemma closed_not_current r e : is_current (closed_version r e) = false.
Proof. unfold is_current, closed_version. by rewrite get_insert_eq. Qed.

(** The framework columns are not part of the key. *)
Definition plain_key (bk : list string) : Prop :=
  Forall (fun c => c ∉ [VALID_FROM; VALID_TO; IS_CURRENT; RECORD_HASH; SOURCE_DATASET_RUN_ID]) bk.

Lemma key_ext r r' bk : Forall (fun c => get r c = get r' c) bk -> _key r bk = _key r' bk.
Proof.
  intros Hall. unfold _key. assert (map (get r) bk = map (get r') bk) as ->; [|done].
  by apply map_ext_Forall.
Qed.

Lemma new_version_key i e h id bk : plain_key bk -> _key (new_version i e h id) bk = _key i bk.
Proof.
  intros Hp. apply key_ext. eapply Forall_impl; [exact Hp|]. intros c Hc. unfold new_version.
  rewrite !get_insert_ne; [done|..]; intros <-; apply Hc; set_solver.
Qed.

Lemma closed_version_key r e bk : plain_key bk -> _key (closed_version r e) bk = _key r bk.
Proof.
  intros Hp. apply key_ext. eapply Forall_impl; [exact Hp|]. intros c Hc. unfold closed_version.
  rewrite !get_insert_ne; [done|..]; intros <-; apply Hc; set_solver.
Qed.

(** ** One incoming row *)

Lemma dwf_remove (a b : list (list value * row)) k r key :
  dwf (a ++ (k, r) :: b) -> keq k key = true -> dwf (a ++ b) /\ dget (a ++ b) key = None.
Proof.
  intros Hwf Hk. assert (a ++ (k, r) :: b ≡ₚ (k, r) :: a ++ b) as Hp by (symmetry; apply Permutation_middle).
  apply (dwf_perm _ _ Hp) in Hwf as [Hg Hwf]. split; [done|]. by rewrite <-(dget_compat _ k key).
Qed.

Section steps.
Context `{PyRuntime} `{ScalarText}.
Context (bk tc : list string) (etc id : string) (Hplain : plain_key bk).
Implicit Types (s : scd2_state) (x r cur : row) (rows : list row).

(** What one incoming row does. *)
Inductive scd2_effect rows x : list row -> nat -> nat -> Prop :=
| eff_insert key h :
    _key x bk = Ok key -> hash_tracked_attributes x tc = Ok h -> is_datetime (get x etc) = true ->
    dget (currents bk rows) key = None ->
    scd2_effect rows x (rows ++ [new_version x (get x etc) h id]) 1 0
| eff_same key h cur c :
    _key x bk = Ok key -> hash_tracked_attributes x tc = Ok h -> is_datetime (get x etc) = true ->
    dget (currents bk rows) key = Some cur -> py_eqb (get cur RECORD_HASH) (VStr h) = true ->
    is_datetime (get cur VALID_FROM) = true ->
    py_cmp (get x etc) (get cur VALID_FROM) = Some c -> c <> Lt ->
    scd2_effect rows x rows 0 0
| eff_update key h pre cur post k :
    _key x bk = Ok key -> hash_tracked_attributes x tc = Ok h -> is_datetime (get x etc) = true ->
    rows = pre ++ cur :: post -> is_current cur = true -> _key cur bk = Ok k -> keq k key = true ->
    dget (currents bk rows) key = Some cur ->
    py_cmp (get cur VALID_FROM) (get x etc) = Some Lt ->
    scd2_effect rows x
      ((pre ++ closed_version cur (get x etc) :: post) ++ [new_version x (get x etc) h id]) 0 1.

Lemma scd2_step_effect s x s' :
  scd2_step bk tc etc id s x = Ok s' ->
  exists i u, scd2_effect (st_rows s) x (st_rows s') i u /\
    st_inserted s' = st_inserted s + i /\ st_updated s' = st_updated s + u.
Proof.
  unfold scd2_step. destruct (is_datetime (get x etc)) eqn:Ed; [|done]. cbn [negb].
  intros (key & Hk & (h & Hh & (index & Hi & Hm)%bind_Ok)%bind_Ok)%bind_Ok.
  destruct index as [i|]; cbn [mbind option_bind] in Hm.
  - destruct (current_index_Some _ _ _ _ Hi) as (pre & cur & post & k & Hrows & Hl & Hc & Hck & Hkk & Hpre).
    assert (dget (currents bk (st_rows s)) key = Some cur) as Hg.
    { rewrite Hrows, currents_app, currents_cons, dget_app, Hpre, (currents_one _ _ _ Hc Hck). simpl.
      by rewrite Hkk. }
    assert (st_rows s !! i = Some cur) as Hlook
      by (rewrite Hrows, lookup_app_r, Hl by lia; by rewrite <-Hl, Nat.sub_diag).
    rewrite Hlook in Hm. destruct (is_datetime (get cur VALID_FROM)) eqn:Ecd; [|done]. cbn [negb] in Hm.
    apply bind_Ok in Hm as (late & Hlate & Hm). destruct late; [done|].
    unfold py_lt in Hlate. destruct (py_cmp (get x etc) (get cur VALID_FROM)) as [c|] eqn:Ecmp; [|done].
    destruct (py_eqb (get cur RECORD_HASH) (VStr h)) eqn:Eh.
    + injection Hm as <-. exists 0, 0. split; [|lia]. eapply eff_same; [done..|]. by destruct c.
    + destruct (py_eqb (get x etc) _) eqn:Eeq; [done|]. injection Hm as <-. simpl. exists 0, 1.
      split; [|lia]. simpl.
      replace (<[i:=closed_version cur (get x etc)]> (st_rows s)) with (pre ++ closed_version cur (get x etc) :: post)
        by (rewrite Hrows, insert_app_r_alt by lia; by rewrite Hl, Nat.sub_diag).
      eapply eff_update; [done..|].
      destruct c; [by rewrite (py_cmp_Eq _ _ Ecmp) in Eeq|done|]. by apply py_cmp_swap in Ecmp.
  - apply current_index_None in Hi. injection Hm as <-. simpl. exists 1, 0. split; [|lia].
    by eapply eff_insert.
Qed.

(** The current rows after an effect. *)
Lemma effect_currents rows x rows' i u :
  one_current bk rows -> scd2_effect rows x rows' i u ->
  one_current bk rows' /\ length rows' = length rows + i + u /\
  (forall k key, _key x bk = Ok key -> keq key k = false ->
     dget (currents bk rows') k = dget (currents bk rows) k) /\
  (forall key, _key x bk = Ok key -> exists h cur c,
     hash_tracked_attributes x tc = Ok h /\ dget (currents bk rows') key = Some cur /\
     py_eqb (get cur RECORD_HASH) (VStr h) = true /\ is_datetime (get x etc) = true /\
     is_datetime (get cur VALID_FROM) = true /\
     py_cmp (get x etc) (get cur VALID_FROM) = Some c /\ c <> Lt).
Proof.
  assert (forall t, is_datetime t = true -> py_cmp t t = Some Eq) as Hrefl.
  { intros [| | | | |[o|] us| | | | | |]; try done; intros _; unfold py_cmp; by rewrite Z.compare_refl. }
  intros [Hall Hwf] [key h Hk Hh Hd Hg|key h cur c Hk Hh Hd Hg He Hcd Hc Hn|
                     key h pre cur post k1 Hk Hh Hd -> Hcur Hck Hkk Hg Hlt].
  - assert (currents bk (rows ++ [new_version x (get x etc) h id]) =
            currents bk rows ++ [(key, new_version x (get x etc) h id)]) as Hcs.
    { rewrite currents_app. f_equal. apply currents_one; [apply new_version_current|].
      by rewrite new_version_key. }
    split; [split|split; [|split]].
    + apply Forall_app. split; [done|]. repeat constructor. by rewrite new_version_key, Hk.
    + rewrite Hcs. by apply dwf_app_one.
    + rewrite length_app. simpl. lia.
    + intros k key' Hk' Hne. rewrite Hk in Hk'. injection Hk' as <-. rewrite Hcs, dget_app. simpl.
      rewrite Hne. by destruct (dget (currents bk rows) k).
    + intros key' Hk'. rewrite Hk in Hk'. injection Hk' as <-. exists h, (new_version x (get x etc) h id), Eq.
      rewrite Hcs, dget_app, Hg, new_version_hash, new_version_from, py_eqb_refl. simpl.
      rewrite keq_refl. repeat split; auto; done.
  - split; [done|]. split; [lia|]. split; [done|]. intros key' Hk'. rewrite Hk in Hk'. injection Hk' as <-.
    by exists h, cur, c.
  - assert (currents bk (pre ++ cur :: post) = currents bk pre ++ (k1, cur) :: currents bk post) as Hold
      by (by rewrite currents_app, currents_cons, (currents_one _ _ _ Hcur Hck)).
    assert (currents bk ((pre ++ closed_version cur (get x etc) :: post) ++ [new_version x (get x etc) h id]) =
            (currents bk pre ++ currents bk post) ++ [(key, new_version x (get x etc) h id)]) as Hcs.
    { rewrite currents_app, (currents_app bk pre), currents_cons, currents_not by apply closed_not_current.
      simpl. f_equal. apply currents_one; [apply new_version_current|]. by rewrite new_version_key. }
    rewrite Hold in Hwf. destruct (dwf_remove _ _ _ _ _ Hwf Hkk) as [Hwf' Hnone].
    split; [split|split; [|split]].
    + apply Forall_app in Hall as [Hpre [_ Hpost]%Forall_cons]. rewrite !Forall_app, Forall_cons, Forall_singleton.
      rewrite closed_not_current, new_version_key, Hk by done. done.
    + rewrite Hcs. by apply dwf_app_one.
    + rewrite !length_app. simpl. lia.
    + intros k key' Hk' Hne. rewrite Hk in Hk'. injection Hk' as <-. rewrite Hcs, Hold, !dget_app. simpl.
      assert (keq k1 k = false) as ->.
      { destruct (keq k1 k) eqn:E; [|done]. rewrite (keq_trans key k1 k) in Hne; [done| |done].
        by rewrite keq_sym. }
      rewrite Hne. destruct (dget (currents bk pre) k); [done|]. by destruct (dget (currents bk post) k).
    + intros key' Hk'. rewrite Hk in Hk'. injection Hk' as <-. exists h, (new_version x (get x etc) h id), Eq.
      rewrite Hcs, dget_app, Hnone, new_version_hash, new_version_from, py_eqb_refl. simpl.
      rewrite keq_refl. repeat split; auto; done.
Qed.
End steps.

(** ** The history as a whole *)

Section history.
Context `{PyRuntime} `{ScalarText}.
Context (bk tc : list string) (etc id : string) (Hplain : plain_key bk).
Implicit Types (x r cur : row) (rows : list row).

(** The row was closed at the start of a later version of its key. *)
Definition closed_into rows r : Prop :=
  exists t new k k', closed_version r t ∈ rows /\ new ∈ rows /\ _key r bk = Ok k /\
    _key new bk = Ok k' /\ keq k k' = true /\ get new VALID_FROM = t /\
    py_cmp (get r VALID_FROM) t = Some Lt.

(** The row is still there, or it was current and has been closed. *)
Definition evolves rows r : Prop := r ∈ rows \/ (is_current r = true /\ closed_into rows r).

Lemma effect_keeps rows x rows' i u :
  scd2_effect bk tc etc id rows x rows' i u ->
  (forall r, r ∈ rows -> is_current r = false -> r ∈ rows') /\
  (forall r, r ∈ rows -> evolves rows' r) /\
  (forall r, r ∈ rows -> exists r', r' ∈ rows' /\ _key r' bk = _key r bk /\
     get r' VALID_FROM = get r VALID_FROM).
Proof using Hplain.
  intros [key h _ _ _ _|key h cur c _ _ _ _ _ _ _ _|key h pre cur post k1 Hk _ Hd -> Hcur Hck Hkk _ Hlt].
  - assert (forall r, r ∈ rows -> r ∈ rows ++ [new_version x (get x etc) h id]) as Hin
      by (intros r Hr; apply elem_of_app; by left).
    split; [auto|]. split; [|eauto]. intros r Hr. left. auto.
  - split; [auto|]. split; [|eauto]. intros r Hr. by left.
  - set (new := new_version x (get x etc) h id). set (t := get x etc).
    set (after := (pre ++ closed_version cur t :: post) ++ [new]).
    assert (forall r, r ∈ pre ++ cur :: post -> r = cur \/ r ∈ after) as Hin.
    { intros r. unfold after. rewrite !elem_of_app, !elem_of_cons. tauto. }
    assert (closed_version cur t ∈ after) as Hclosed
      by (unfold after; rewrite !elem_of_app, elem_of_cons; auto).
    assert (new ∈ after) as Hnew by (unfold after; rewrite elem_of_app, list_elem_of_singleton; auto).
    split; [|split].
    + intros r Hr Hc. destruct (Hin r Hr) as [->|?]; [congruence|done].
    + intros r Hr. destruct (Hin r Hr) as [->|?]; [right|by left]. split; [done|].
      exists t, new, k1, key. unfold new. rewrite new_version_key, new_version_from by done.
      repeat split; done.
    + intros r Hr. destruct (Hin r Hr) as [->|?]; [|by exists r]. exists (closed_version cur t).
      split; [done|]. split; [by apply closed_version_key|]. unfold closed_version.
      by rewrite !get_insert_ne.
Qed.

Lemma evolves_trans rows x rows' i u r :
  scd2_effect bk tc etc id rows x rows' i u -> evolves rows r -> evolves rows' r.
Proof using Hplain.
  intros (Hkeep & Hev & Hmove)%effect_keeps [Hr|[Hc (t & new & k & k' & Hcl & Hn & Hk & Hk' & Hkk & Hf & Hlt)]].
  - by apply Hev.
  - right. split; [done|]. destruct (Hmove new Hn) as (new' & Hn' & Hkn & Hfn).
    exists t, new', k, k'. repeat split; try done; [|by rewrite Hkn|by rewrite Hfn].
    apply Hkeep; [done|apply closed_not_current].
Qed.

(** The state of the loop after the processed rows. *)
Record scd2_inv (E processed : list row) (s : scd2_state) : Prop := {
  si_unique : one_current bk (st_rows s);
  si_history : Forall (evolves (st_rows s)) E;
  si_closed : Forall (fun r => is_current r = false -> r ∈ st_rows s) E;
  si_count : length (st_rows s) = length E + st_inserted s + st_updated s;
  si_latest : forall pre x post key, processed = pre ++ x :: post -> _key x bk = Ok key ->
    Forall (fun y => forall k, _key y bk = Ok k -> keq k key = false) post ->
    exists h cur c, hash_tracked_attributes x tc = Ok h /\
      dget (currents bk (st_rows s)) key = Some cur /\
      py_eqb (get cur RECORD_HASH) (VStr h) = true /\ is_datetime (get x etc) = true /\
      is_datetime (get cur VALID_FROM) = true /\
      py_cmp (get x etc) (get cur VALID_FROM) = Some c /\ c <> Lt
}.

Lemma scd2_loop E ordered s :
  one_current bk E ->
  foldM (scd2_step bk tc etc id) {| st_rows := E; st_inserted := 0; st_updated := 0 |} ordered = Ok s ->
  scd2_inv E ordered s.
Proof using Hplain.
  intros Hone Hf. refine (foldM_ind _ (scd2_inv E) _ _ _ Hf _ _).
  - split; simpl; [done| | |lia|].
    + apply Forall_forall. intros r Hr. by left.
    + apply Forall_forall. auto.
    + by intros [] ? ? ?.
  - intros done x s1 s2 _ [Hu Hh Hc Hn Hl] (i & u & Heff & Hi & Hup)%scd2_step_effect.
    destruct (effect_currents _ _ _ _ Hplain _ _ _ _ _ Hu Heff) as (Hu' & Hlen & Hother & Hkey).
    destruct (effect_keeps _ _ _ _ _ Heff) as (Hkeep & _ & _). split; [done| | |lia|].
    + eapply Forall_impl; [exact Hh|]. intros r. by eapply evolves_trans.
    + eapply Forall_impl; [exact Hc|]. simpl. auto.
    + intros pre y post key Heq Hy Hpost. destruct (decide (post = [])) as [->|Hne].
      * apply app_inj_2 in Heq as [_ [= ->]]; [|done]. by apply Hkey.
      * destruct (exists_last Hne) as (post' & z & ->).
        rewrite app_comm_cons, app_assoc in Heq. apply app_inj_2 in Heq as [-> [= ->]]; [|done].
        apply Forall_app in Hpost as [Hpost [Hz _]%Forall_cons].
        assert (exists kz, _key z bk = Ok kz) as [kz Hkz] by (clear -Heff; destruct Heff; eauto).
        destruct (Hl pre y post' key eq_refl Hy Hpost) as (h & cur & c & ? & Hg & ?).
        exists h, cur, c. split; [done|]. split; [|done].
        rewrite (Hother key kz Hkz); [exact Hg|by apply Hz].
Qed.
End history.

(** ** Properties *)

Section properties.
Context `{PyRuntime} `{ScalarText}.

Lemma apply_scd2_Ok E I bk tc etc id res :
  apply_scd2 E I bk tc etc id = Ok res ->
  bk <> [] /\ tc <> [] /\ one_current bk E /\ exists ordered s,
    sort_rows (fun r => t ← item_of r etc; k ← _key r bk; Ok [t; VTuple k]) I = Ok ordered /\
    foldM (scd2_step bk tc etc id) {| st_rows := E; st_inserted := 0; st_updated := 0 |} ordered = Ok s /\
    sort_rows (fun r => k ← _key r bk; f ← item_of r VALID_FROM; Ok [VTuple k; f]) (st_rows s) =
      Ok (s2_rows res) /\
    s2_mutations res = {| mc_inserted := st_inserted s; mc_updated := st_updated s; mc_deleted := 0 |}.
Proof.
  unfold apply_scd2. case_bool_decide; [done|]. case_bool_decide; [done|].
  intros ([] & Hone%assert_one_current_iff & (ordered & Ho & (s & Hs & (u & _ & (rows & Hr & [= <-])%bind_Ok)%bind_Ok)%bind_Ok)%bind_Ok)%bind_Ok.
  split; [done|]. split; [done|]. split; [done|]. by exists ordered, s.
Qed.

Lemma sort_rows_perm key_of rows l : sort_rows key_of rows = Ok l -> l ≡ₚ rows.
Proof.
  unfold sort_rows. intros (keyed & Hk & (srt & Hs & [= <-])%bind_Ok)%bind_Ok.
  apply sortM_perm in Hs. rewrite Hs. apply mapM_res_Forall2 in Hk. clear Hs.
  induction Hk as [|r kr rows keyed Hr _ IH]; simpl; [done|].
  apply bind_Ok in Hr as (k & _ & [= <-]). simpl. by rewrite IH.
Qed.

Lemma currents_perm bk l1 l2 : l1 ≡ₚ l2 -> currents bk l1 ≡ₚ currents bk l2.
Proof. unfold currents. by intros ->. Qed.

(** C8. SCD2 keeps history: every closed row of the target survives unchanged, every current row
    survives or is closed exactly at the start of a later version of its key, each key has at
    most one current row, and each insert or update adds exactly one row. *)
Theorem scd2_history_preserved E I bk tc etc id res :
  apply_scd2 E I bk tc etc id = Ok res -> plain_key bk ->
  Forall (fun r => is_current r = false -> r ∈ s2_rows res) E /\
  Forall (evolves bk (s2_rows res)) E /\
  one_current bk (s2_rows res) /\
  length (s2_rows res) =
    length E + mc_inserted (s2_mutations res) + mc_updated (s2_mutations res).
Proof.
  intros (_ & _ & Hone & ordered & s & _ & Hs & Hrows & ->)%apply_scd2_Ok Hplain.
  destruct (scd2_loop bk tc etc id Hplain _ _ _ Hone Hs) as [[Hk Hu] Hh Hc Hn _].
  apply sort_rows_perm in Hrows as Hp.
  split; [|split; [|split]].
  - eapply Forall_impl; [exact Hc|]. intros r Hr Hnc. rewrite Hp. auto.
  - eapply Forall_impl; [exact Hh|]. unfold evolves, closed_into. intros r. by setoid_rewrite Hp.
  - split; [by rewrite Hp|]. eapply dwf_perm; [|exact Hu]. by apply currents_perm.
  - by rewrite Hp.
Qed.

(** The current row of a key describes its latest incoming row: the one that comes last in
    the order of the effective times has the attributes of the current row, and its effective
    time is not before the start of that version. *)
Theorem scd2_current_is_latest E I bk tc etc id res :
  apply_scd2 E I bk tc etc id = Ok res -> plain_key bk ->
  exists ordered, ordered ≡ₚ I /\
    forall pre x post key, ordered = pre ++ x :: post -> _key x bk = Ok key ->
      Forall (fun y => forall k, _key y bk = Ok k -> keq k key = false) post ->
      exists h cur c, hash_tracked_attributes x tc = Ok h /\
        dget (currents bk (s2_rows res)) key = Some cur /\
        py_eqb (get cur RECORD_HASH) (VStr h) = true /\
        py_cmp (get x etc) (get cur VALID_FROM) = Some c /\ c <> Lt.
Proof.
  intros (_ & _ & Hone & ordered & s & Ho & Hs & Hrows & _)%apply_scd2_Ok Hplain.
  destruct (scd2_loop bk tc etc id Hplain _ _ _ Hone Hs) as [[_ Hu] _ _ _ Hl].
  exists ordered. split; [by eapply sort_rows_perm|]. intros pre x post key Heq Hk Hpost.
  destruct (Hl pre x post key Heq Hk Hpost) as (h & cur & c & Hh & Hg & He & _ & _ & Hc & Hn).
  exists h, cur, c. split; [done|]. split; [|done]. rewrite <-Hg.
  apply sort_rows_perm in Hrows. symmetry. apply dget_perm; [|done]. symmetry. by apply currents_perm.
Qed.

(** A row that the current version already describes changes nothing. *)
Lemma scd2_step_same bk tc etc id s x key h cur c :
  one_current bk (st_rows s) -> _key x bk = Ok key -> hash_tracked_attributes x tc = Ok h ->
  dget (currents bk (st_rows s)) key = Some cur -> py_eqb (get cur RECORD_HASH) (VStr h) = true ->
  is_datetime (get x etc) = true -> is_datetime (get cur VALID_FROM) = true ->
  py_cmp (get x etc) (get cur VALID_FROM) = Some c -> c <> Lt ->
  scd2_step bk tc etc id s x = Ok s.
Proof.
  intros [Hall Hwf] Hk Hh Hg He Hd Hcd Hc Hn. unfold scd2_step. rewrite Hd, Hk. cbn [negb mbind res_bind].
  rewrite Hh. cbn [mbind res_bind].
  assert (exists o, current_index (st_rows s) bk key = Ok o) as [o Ho].
  { clear -Hall. induction Hall as [|r rows Hr _ IH]; cbn [current_index]; [by eexists|].
    destruct IH as [o ->]. destruct (is_current r); [|by eexists].
    destruct (_key r bk); [|by specialize (Hr eq_refl)]. cbn [mbind res_bind].
    destruct (keq a key); by eexists. }
  rewrite Ho. cbn [mbind res_bind]. destruct o as [i|].
  - destruct (current_index_Some _ _ _ _ Ho) as (pre & r & post & k & Hrows & Hl & Hcr & Hck & Hkk & Hpre).
    assert (r = cur) as ->.
    { rewrite Hrows, currents_app, currents_cons, dget_app, Hpre, (currents_one _ _ _ Hcr Hck) in Hg.
      simpl in Hg. rewrite Hkk in Hg. by injection Hg. }
    cbn [mbind option_bind]. rewrite Hrows, lookup_app_r by lia. rewrite Hl, Nat.sub_diag. simpl.
    rewrite Hcd. simpl. unfold py_lt. rewrite Hc. simpl.
    destruct c; [|done|]; cbn match; by rewrite He.
  - apply current_index_None in Ho. congruence.
Qed.

#[local] Instance tuple_order_ResCmp : ResCmp tuple_order.
Proof.
  unfold tuple_order, tuple_cmp. split.
  - intros a b c. destruct (py_cmp _ _) as [[]|]; try done; intros [= <-]; simpl; lia.
  - intros a b c. destruct (py_cmp (VTuple a.1) _) as [z|] eqn:E; [|done].
    rewrite (py_cmp_swap _ _ _ E). intros [= <-]. f_equal. apply z_of_opp.
  - intros a b d c1 c2. destruct (py_cmp (VTuple a.1) _) as [z1|] eqn:E1; [|done].
    destruct (py_cmp (VTuple b.1) _) as [z2|] eqn:E2; [|done].
    intros [= <-] [= <-] N1%z_of_le0 N2%z_of_le0. rewrite (z_of_min _ _ N1 N2).
    by rewrite (py_cmp_le_trans _ _ _ _ _ E1 E2 N1 N2).
Qed.

Lemma sort_rows_keys key_of rows l :
  sort_rows key_of rows = Ok l -> Forall (fun r => is_ok (key_of r) = true) rows.
Proof.
  unfold sort_rows. intros (keyed & Hk & _)%bind_Ok. apply mapM_res_Forall2 in Hk.
  induction Hk as [|r kr rows keyed Hr _ IH]; constructor; [|done].
  apply bind_Ok in Hr as (k & -> & _). done.
Qed.

(** Sorting sorted rows changes nothing. *)
Lemma sort_rows_idemp key_of rows l : sort_rows key_of rows = Ok l -> sort_rows key_of l = Ok l.
Proof.
  unfold sort_rows. intros (keyed & Hk & (srt & Hs & [= <-])%bind_Ok)%bind_Ok.
  assert (Forall (fun kr => key_of kr.2 = Ok kr.1) srt) as Hall.
  { rewrite (sortM_perm _ _ _ Hs). apply mapM_res_Forall2 in Hk. clear Hs.
    induction Hk as [|r kr rows keyed Hr _ IH]; constructor; [|done].
    apply bind_Ok in Hr as (k & Hr & [= <-]). done. }
  assert (mapM_res (fun r => k ← key_of r; Ok (k, r)) (map snd srt) = Ok srt) as ->.
  { clear Hs. induction Hall as [|[k r] srt Hr _ IH]; simpl; [done|]. simpl in Hr.
    rewrite Hr. cbn [mbind res_bind] in *. by rewrite IH. }
  cbn [mbind res_bind]. rewrite sortM_id; [done|]. by eapply sortM_sorted; [apply _|].
Qed.

(** Applying rows again over the result of a batch that held them, and no other row of their keys,
    changes nothing. *)
Lemma scd2_reapply E I J bk tc etc id id' res :
  apply_scd2 E I bk tc etc id = Ok res -> plain_key bk -> J ⊆ I ->
  (forall pre x post key, x ∈ J -> I ≡ₚ pre ++ x :: post -> _key x bk = Ok key ->
     Forall (fun y => forall k, _key y bk = Ok k -> keq k key = false) (pre ++ post)) ->
  apply_scd2 (s2_rows res) J bk tc etc id' =
    (_ ← sort_rows (fun r => t ← item_of r etc; k ← _key r bk; Ok [t; VTuple k]) J;
     Ok {| s2_rows := s2_rows res;
           s2_mutations := {| mc_inserted := 0; mc_updated := 0; mc_deleted := 0 |} |}).
Proof.
  intros Happ Hplain Hsub Hdis. pose proof Happ as (Hbk & Htc & Hone & ordered & s & Ho & Hs & Hrows & _)%apply_scd2_Ok.
  destruct (scd2_loop bk tc etc id Hplain _ _ _ Hone Hs) as [[Hk Hu] _ _ _ Hl].
  pose proof (sort_rows_perm _ _ _ Hrows) as Hp.
  assert (one_current bk (s2_rows res)) as Hone'.
  { split; [by rewrite Hp|]. eapply dwf_perm; [|exact Hu]. by apply currents_perm. }
  unfold apply_scd2. rewrite !bool_decide_false by done.
  rewrite (proj2 (assert_one_current_iff _ _) Hone'). cbn [mbind res_bind].
  destruct (sort_rows _ J) as [again|] eqn:Ha; [|done]. cbn [mbind res_bind].
  assert (foldM (scd2_step bk tc etc id') {| st_rows := s2_rows res; st_inserted := 0; st_updated := 0 |} again
          = Ok {| st_rows := s2_rows res; st_inserted := 0; st_updated := 0 |}) as Hrun.
  { assert (Forall (fun x => scd2_step bk tc etc id'
        {| st_rows := s2_rows res; st_inserted := 0; st_updated := 0 |} x =
        Ok {| st_rows := s2_rows res; st_inserted := 0; st_updated := 0 |}) again) as Hfix.
    2:{ clear -Hfix. induction Hfix as [|x l Hx _ IH]; simpl; [done|]. by rewrite Hx. }
    apply Forall_forall. intros x Hx. rewrite (sort_rows_perm _ _ _ Ha) in Hx.
    assert (x ∈ ordered) as Hxo by (rewrite (sort_rows_perm _ _ _ Ho); by apply Hsub).
    apply list_elem_of_split in Hxo as (pre & post & Heq).
    pose proof (sort_rows_keys _ _ _ Ho) as Hkeys. rewrite <-(sort_rows_perm _ _ _ Ho), Heq in Hkeys.
    apply Forall_app in Hkeys as [_ [Hkx _]%Forall_cons].
    destruct (item_of x etc); [|done]. cbn [mbind res_bind] in Hkx.
    destruct (_key x bk) as [key|] eqn:Ekey; [|done].
    assert (Forall (fun y => forall k, _key y bk = Ok k -> keq k key = false) post) as Hpost.
    { eapply Forall_app, (Hdis pre x post); [done| |done]. rewrite <-Heq. symmetry. by eapply sort_rows_perm. }
    destruct (Hl pre x post key Heq Ekey Hpost) as (h & cur & c & Hh & Hg & He & Hd & Hcd & Hc & Hn).
    eapply scd2_step_same; [exact Hone'|exact Ekey|exact Hh| |exact He|exact Hd|exact Hcd|exact Hc|exact Hn].
    simpl. rewrite <-Hg. symmetry. apply dget_perm; [|done]. symmetry. by apply currents_perm. }
  rewrite Hrun. cbn [mbind res_bind]. simpl. rewrite (proj2 (assert_one_current_iff _ _) Hone').
  cbn [mbind res_bind]. by rewrite (sort_rows_idemp _ _ _ Hrows).
Qed.

(** C9. Rerunning an SCD2 batch whose keys are pairwise different over its own result, under
    any run id, changes nothing: no row is inserted, updated or touched.  The key has none of the
    columns that the history adds. *)
Theorem scd2_rerun E I bk tc etc id id' res :
  apply_scd2 E I bk tc etc id = Ok res -> plain_key bk ->
  (forall pre x post key, I ≡ₚ pre ++ x :: post -> _key x bk = Ok key ->
     Forall (fun y => forall k, _key y bk = Ok k -> keq k key = false) (pre ++ post)) ->
  apply_scd2 (s2_rows res) I bk tc etc id' =
    Ok {| s2_rows := s2_rows res;
          s2_mutations := {| mc_inserted := 0; mc_updated := 0; mc_deleted := 0 |} |}.
Proof.
  intros Happ Hplain Hdis. rewrite (scd2_reapply E I I bk tc etc id id' res Happ Hplain); [|done|eauto].
  apply apply_scd2_Ok in Happ as (_ & _ & _ & ordered & s & Ho & _). by rewrite Ho.
Qed.
End properties.

(** ** Witnesses *)

Definition demo_scd2_row (k v t : Z) : row := {[ "id" := VInt k; "v" := VInt v; "at" := VDatetime (Some 0%Z) t ]}.

Definition demo_scd2_result (existing incoming : list row) : SCD2ApplyResult :=
  match @apply_scd2 demo_runtime demo_scalars existing incoming ["id"] ["v"] "at" "run" with
  | Ok r => r
  | Raise _ => {| s2_rows := []; s2_mutations := {| mc_inserted := 0; mc_updated := 0; mc_deleted := 0 |} |}
  end.

Definition demo_history : list row :=
  s2_rows (demo_scd2_result [] [demo_scd2_row 1 10 100; demo_scd2_row 2 20 100]).

Definition demo_changes : list row := [demo_scd2_row 1 11 200; demo_scd2_row 2 20 300].

Lemma demo_plain_key : plain_key ["id"].
Proof. apply (bool_decide_unpack _). vm_compute. exact I. Qed.

Lemma scd2_history_preserved_witness :
  length demo_history = 2 /\
  one_current ["id"] (s2_rows (demo_scd2_result demo_history demo_changes)) /\
  length (s2_rows (demo_scd2_result demo_history demo_changes)) = 3.
Proof.
  assert (@apply_scd2 demo_runtime demo_scalars demo_history demo_changes ["id"] ["v"] "at" "run" =
          Ok (demo_scd2_result demo_history demo_changes)) as Happ by (vm_compute; reflexivity).
  destruct (@scd2_history_preserved demo_runtime demo_scalars _ _ _ _ _ _ _ Happ demo_plain_key)
    as (_ & _ & Hone & Hlen).
  split; [vm_compute; reflexivity|]. split; [exact Hone|]. rewrite Hlen. vm_compute. reflexivity.
Defined.

Lemma scd2_current_is_latest_witness :
  exists ordered, ordered ≡ₚ demo_changes /\ ordered <> [].
Proof.
  assert (@apply_scd2 demo_runtime demo_scalars demo_history demo_changes ["id"] ["v"] "at" "run" =
          Ok (demo_scd2_result demo_history demo_changes)) as Happ by (vm_compute; reflexivity).
  destruct (@scd2_current_is_latest demo_runtime demo_scalars _ _ _ _ _ _ _ Happ demo_plain_key)
    as (ordered & Hp & _).
  exists ordered. split; [exact Hp|]. intros ->. by apply Permutation_nil_l in Hp.
Defined.

Lemma scd2_rerun_witness :
  @apply_scd2 demo_runtime demo_scalars (s2_rows (demo_scd2_result demo_history demo_changes)) demo_changes
    ["id"] ["v"] "at" "run" =
  Ok {| s2_rows := s2_rows (demo_scd2_result demo_history demo_changes);
        s2_mutations := {| mc_inserted := 0; mc_updated := 0; mc_deleted := 0 |} |}.
Proof.
  apply (@scd2_rerun demo_runtime demo_scalars demo_history demo_changes ["id"] ["v"] "at" "run").
  - vm_compute. reflexivity.
  - apply demo_plain_key.
  - intros pre x post key Hp Hk. apply Forall_forall. intros y Hy k Hky.
    apply scd2_key_Ok in Hk as [-> _], Hky as [-> _].
    assert (NoDup (map (fun r => get r "id") demo_changes)) as Hnd
      by (apply (bool_decide_unpack _); vm_compute; exact I).
    assert (Forall (fun r => get r "id" = VInt 1 \/ get r "id" = VInt 2) demo_changes) as Hids
      by (apply (bool_decide_unpack _); vm_compute; exact I).
    rewrite Hp, <-Permutation_middle in Hnd, Hids. simpl in Hnd.
    apply NoDup_cons in Hnd as [Hnd _]. apply Forall_cons in Hids as [Hx Hids].
    rewrite Forall_forall in Hids. specialize (Hids y Hy). simpl.
    assert (get y "id" <> get x "id") as Hne
      by (intros Heq; apply Hnd; rewrite <-Heq; apply list_elem_of_fmap; by exists y).
    destruct Hx as [Hx|Hx], Hids as [Hi|Hi]; rewrite Hx, Hi in *; try done; vm_compute; reflexivity.
Defined.
