(* ===== verification/CurrentProjection.v ===== *)
(** * Current-state projection of SCD2 history ([apply/current_projection.py],
    [contracts/current_projection.py])

    The target is derived from the current rows of the history, for the affected keys or for
    all of them.  Rows are compared by their fingerprint, the SHA-256 of their typed JSON. *)

From stdpp Require Import base gmap strings list fin_maps sorting.
From S2P Require Import Prelude PyValue PyDict TypedValues RunAudit ConfigTypes Scd2.

Record CurrentProjectionApplyResult := {
  cpr_rows : list row;
  cpr_upserts : list row;
  cpr_delete_keys : list row;
  cpr_affected_keys : nat;
  cpr_mutations : MutationCounts
}.

Definition _key (r : row) (columns : list string) (label : string) : res (list value) :=
  let values := map (get r) columns in
  if existsb is_none values then
    raise "CurrentProjectionError" (label +:+ " key columns cannot be null/missing")
  else Ok values.

(** [dict(zip(columns, key, strict=True))], for a key of the width of the columns *)
Definition _key_payload (columns : list string) (key : list value) : row :=
  list_to_map (zip columns key).

Definition _project_row (r : row) (projected_columns : list string) : res row :=
  if negb (bool_decide (filter (fun column => r !! column = None) projected_columns = [])) then
    raise "CurrentProjectionError" "authoritative current history row is missing projected columns"
  else Ok (list_to_map (map (fun column => (column, get r column)) projected_columns)).

(** [history_current_by_key] and the set [all_history_keys] *)
Record history_index := {
  hi_current : list (list value * row);
  hi_keys : list (list value * unit)
}.

Definition history_step (business_key projected_columns : list string) (current_flag_column : string)
    (s : history_index) (r : row) : res history_index :=
  key ← _key r business_key "history";
  let keys := dset (hi_keys s) key tt in
  match get r current_flag_column with
  | VBool true =>
    if dmem (hi_current s) key then
      raise "CurrentProjectionError" "authoritative history contains more than one current row"
    else
      projected ← _project_row r projected_columns;
      Ok {| hi_current := dset (hi_current s) key projected; hi_keys := keys |}
  | VBool false => Ok {| hi_current := hi_current s; hi_keys := keys |}
  | _ => raise "CurrentProjectionError" "history current flag must be boolean"
  end.

Definition index_history (history_rows : list row) (business_key projected_columns : list string)
    (current_flag_column : string) : res history_index :=
  foldM (history_step business_key projected_columns current_flag_column)
    {| hi_current := []; hi_keys := [] |} history_rows.

Definition index_target (existing_rows : list row) (business_key : list string) :
    res (list (list value * row)) :=
  index_by (fun r => _key r business_key "existing current target")
    (Exn "CurrentProjectionError" "existing current target contains duplicate business key")
    (fun _ _ => Ok tt) existing_rows.

(** [selected_keys] *)
Definition affected_step (business_key : list string) (selected : list (list value * unit))
    (key : list value) : res (list (list value * unit)) :=
  if negb (length key =? length business_key) then
    raise "CurrentProjectionError" "affected key width does not match current projection business_key"
  else if existsb is_none key then
    raise "CurrentProjectionError" "affected current projection key cannot contain null"
  else Ok (dset selected key tt).

Definition select_keys (business_key : list string) (existing : list (list value * row))
    (history_keys : list (list value * unit)) (affected_keys : option (list (list value))) :
    res (list (list value * unit)) :=
  match affected_keys with
  | None => Ok (dupdate (map (fun kv => (kv.1, tt)) existing) history_keys)
  | Some keys => foldM (affected_step business_key) [] keys
  end.

Record projection_state := {
  ps_result : list (list value * row);
  ps_upserts : list row;
  ps_delete_keys : list row;
  ps_inserted : nat;
  ps_updated : nat;
  ps_deleted : nat
}.

Section projection.
Context `{PyRuntime} `{ScalarText}.

Definition _fingerprint (r : row) : res string := sha256_hex <$> canonical_typed_json_bytes (row_value r).

(** The body of the loop over the selected keys. *)
Definition projection_step (business_key : list string) (existing current : list (list value * row))
    (s : projection_state) (key : list value) : res projection_state :=
  match dget current key, dget existing key with
  | None, None => Ok s
  | None, Some _ =>
    Ok {| ps_result := dpop (ps_result s) key; ps_upserts := ps_upserts s;
          ps_delete_keys := ps_delete_keys s ++ [_key_payload business_key key];
          ps_inserted := ps_inserted s; ps_updated := ps_updated s; ps_deleted := S (ps_deleted s) |}
  | Some authoritative, None =>
    Ok {| ps_result := dset (ps_result s) key authoritative;
          ps_upserts := ps_upserts s ++ [authoritative]; ps_delete_keys := ps_delete_keys s;
          ps_inserted := S (ps_inserted s); ps_updated := ps_updated s; ps_deleted := ps_deleted s |}
  | Some authoritative, Some old =>
    before ← _fingerprint old;
    after ← _fingerprint authoritative;
    if String.eqb before after then Ok s
    else
      Ok {| ps_result := dset (ps_result s) key authoritative;
            ps_upserts := ps_upserts s ++ [authoritative]; ps_delete_keys := ps_delete_keys s;
            ps_inserted := ps_inserted s; ps_updated := S (ps_updated s); ps_deleted := ps_deleted s |}
  end.

Definition validate_columns (business_key projected_columns : list string) : res unit :=
  if bool_decide (business_key = []) then
    raise "CurrentProjectionError" "current projection requires business_key"
  else if negb (unique business_key) then
    raise "CurrentProjectionError" "current projection business_key columns must be unique"
  else if bool_decide (projected_columns = []) then
    raise "CurrentProjectionError" "current projection requires projected_columns"
  else if negb (unique projected_columns) then
    raise "CurrentProjectionError" "current projection projected_columns must be unique"
  else if negb (bool_decide (Forall (fun c => c ∈ projected_columns) business_key)) then
    raise "CurrentProjectionError" "projected_columns must include every business key column"
  else Ok tt.

Definition apply_current_projection (existing_rows history_rows : list row)
    (business_key projected_columns : list string) (affected_keys : option (list (list value)))
    (current_flag_column : string) : res CurrentProjectionApplyResult :=
  _ ← validate_columns business_key projected_columns;
  existing ← index_target existing_rows business_key;
  history ← index_history history_rows business_key projected_columns current_flag_column;
  selected ← select_keys business_key existing (hi_keys history) affected_keys;
  s ← foldM (projection_step business_key existing (hi_current history))
        {| ps_result := existing; ps_upserts := []; ps_delete_keys := [];
           ps_inserted := 0; ps_updated := 0; ps_deleted := 0 |}
        (sort_on repr_key (map fst selected));
  Ok {| cpr_rows := sorted_values repr_key (ps_result s); cpr_upserts := ps_upserts s;
        cpr_delete_keys := ps_delete_keys s; cpr_affected_keys := length selected;
        cpr_mutations := {| mc_inserted := ps_inserted s; mc_updated := ps_updated s;
                            mc_deleted := ps_deleted s |} |}.

Definition rebuild_current_projection (existing_rows history_rows : list row)
    (business_key projected_columns : list string) (current_flag_column : string) :
    res CurrentProjectionApplyResult :=
  apply_current_projection existing_rows history_rows business_key projected_columns None
    current_flag_column.
End projection.

#[local] Arguments projection_step : simpl never.

(** ** Projection health *)

Inductive CurrentProjectionHealthStatus := CPH_HEALTHY | CPH_LAGGING | CPH_STALE | CPH_UNINITIALIZED.
#[export] Instance CurrentProjectionHealthStatus_eq_dec : EqDecision CurrentProjectionHealthStatus.
Proof. solve_decision. Defined.

Record CurrentProjectionHealth := {
  ch_dataset_id : string;
  ch_history_latest_delta_version : Z;
  ch_current_projection_processed_version : option Z;
  ch_projection_lag : Z;
  ch_status : CurrentProjectionHealthStatus;
  ch_last_successful_projection_run_id : option N
}.

Section health.
#[local] Open Scope Z_scope.

(** The last guard is the [min_length=1] of the field [dataset_id]. *)
Definition evaluate_current_projection_health (dataset_id : string) (history_latest_delta_version : Z)
    (processed_version : option Z) (lag_warning_versions : Z) (lag_error_versions : option Z)
    (last_successful_projection_run_id : option N) : res CurrentProjectionHealth :=
  if history_latest_delta_version <? 0 then
    raise "ValueError" "history_latest_delta_version must be non-negative"
  else if lag_warning_versions <? 0 then raise "ValueError" "lag_warning_versions must be non-negative"
  else if match lag_error_versions with Some e => e <? lag_warning_versions | None => false end then
    raise "ValueError" "lag_error_versions cannot be less than lag_warning_versions"
  else if match processed_version with Some p => p <? 0 | None => false end then
    raise "ValueError" "processed_version must be non-negative"
  else if match processed_version with Some p => p >? history_latest_delta_version | None => false end then
    raise "ValueError" "current projection checkpoint cannot be ahead of authoritative history"
  else
    let lag := match processed_version with
               | None => history_latest_delta_version + 1
               | Some p => history_latest_delta_version - p
               end in
    let status :=
      match processed_version with
      | None => CPH_UNINITIALIZED
      | Some _ =>
        if lag =? 0 then CPH_HEALTHY
        else if match lag_error_versions with Some e => lag >=? e | None => false end then CPH_STALE
        else if lag <? lag_warning_versions then CPH_HEALTHY
        else CPH_LAGGING
      end in
    if negb (nonempty dataset_id) then bad_field
    else Ok {| ch_dataset_id := dataset_id;
               ch_history_latest_delta_version := history_latest_delta_version;
               ch_current_projection_processed_version := processed_version;
               ch_projection_lag := lag; ch_status := status;
               ch_last_successful_projection_run_id := last_successful_projection_run_id |}.
End health.

(** ** Lemmas *)

Lemma projection_key_Ok r cols label k :
  _key r cols label = Ok k <-> k = map (get r) cols /\ existsb is_none k = false.
Proof.
  unfold _key. destruct (existsb is_none (map (get r) cols)) eqn:E; split.
  - done.
  - intros [-> Hn]. congruence.
  - by intros [= <-].
  - by intros [-> _].
Qed.

Lemma project_row_get r cols p c : _project_row r cols = Ok p -> c ∈ cols -> get p c = get r c.
Proof.
  unfold _project_row. case_bool_decide; [|done]. intros [= <-] Hc. unfold get at 1.
  rewrite (elem_of_list_to_map_1' _ c (get r c)); [done| |].
  - intros y (c' & [= -> ->] & _)%list_elem_of_fmap. done.
  - apply list_elem_of_fmap. by exists c.
Qed.

(** Projecting keeps the key. *)
Lemma project_row_key r cols bk label label' p k :
  _project_row r cols = Ok p -> Forall (fun c => c ∈ cols) bk -> _key r bk label = Ok k ->
  _key p bk label' = Ok k.
Proof.
  intros Hp Hbk [-> Hn]%projection_key_Ok. apply projection_key_Ok. split; [|done].
  apply map_ext_Forall. eapply Forall_impl; [exact Hbk|]. intros c Hc. by rewrite (project_row_get r cols p c).
Qed.

Section lemmas.
Context `{PyRuntime} `{ScalarText}.
Context (bk pc : list string) (flag : string).
Implicit Types (k : list value) (a e : row).

(** The projection of a current row, with its key. *)
Definition authoritative_entry (r : row) : option (list value * row) :=
  if is_true (get r flag) then
    match _key r bk "history", _project_row r pc with Ok k, Ok p => Some (k, p) | _, _ => None end
  else None.

Definition authoritative (rows : list row) : list (list value * row) := omap authoritative_entry rows.

(** The key of a row of the history is affected. *)
Definition affected (keys : list (list value)) k : bool := existsb (fun k' => keq k' k) keys.

Lemma index_history_Ok rows h :
  index_history rows bk pc flag = Ok h ->
  hi_current h = authoritative rows /\ dwf (hi_current h) /\ dwf (hi_keys h) /\
  mapM_res (fun r => _project_row r pc) (filter (fun r => is_true (get r flag) = true) rows) =
    Ok (map snd (hi_current h)) /\
  Forall (fun r => exists k, _key r bk "history" = Ok k /\ dmem (hi_keys h) k = true) rows.
Proof using Type.
  intros Hf. refine (foldM_ind _ (fun done h => hi_current h = authoritative done /\ dwf (hi_current h) /\
    dwf (hi_keys h) /\
    mapM_res (fun r => _project_row r pc) (filter (fun r => is_true (get r flag) = true) done) =
      Ok (map snd (hi_current h)) /\
    Forall (fun r => exists k, _key r bk "history" = Ok k /\ dmem (hi_keys h) k = true) done)
    _ _ _ Hf _ _); [done|].
  intros done r s1 s2 _ (Hc & Hwf & Hwfk & Hproj & Hall) Hstep. unfold history_step in Hstep.
  apply bind_Ok in Hstep as (k & Hk & Hstep).
  assert (Forall (fun r => exists k0, _key r bk "history" = Ok k0 /\ dmem (dset (hi_keys s1) k tt) k0 = true)
    (done ++ [r])) as Hall'.
  { apply Forall_app. split; [|repeat constructor; exists k; unfold dmem; by rewrite dget_dset_eq].
    eapply Forall_impl; [exact Hall|]. intros r' (k' & Hk' & Hm). exists k'. split; [done|].
    unfold dmem in *. rewrite dget_dset. by destruct (keq k k'). }
  unfold authoritative in *. rewrite omap_app, filter_app, filter_cons, filter_nil. unfold authoritative_entry at 2.
  cbn [omap list_omap]. rewrite Hk.
  destruct (get r flag) as [|[]| | | | | | | | | |]; try discriminate Hstep; cbn [is_true].
  - destruct (dmem (hi_current s1) k) eqn:Em; [discriminate Hstep|].
    apply bind_Ok in Hstep as (p & Hp & [= <-]). apply dmem_false in Em. simpl.
    rewrite Hp. rewrite dset_fresh by done. split; [by rewrite Hc|]. split; [by apply dwf_app_one|].
    split; [by apply dwf_dset|]. split; [|done].
    apply mapM_res_Forall2. rewrite map_app. apply Forall2_app; [by apply mapM_res_Forall2|].
    by repeat constructor.
  - injection Hstep as <-. simpl. rewrite !app_nil_r.
    split_and!; [done|done|by apply dwf_dset|done|done].
Qed.

Lemma index_target_Ok' rows d :
  index_target rows bk = Ok d ->
  dwf d /\ map snd d = rows /\ Forall (fun kv => _key kv.2 bk "existing current target" = Ok kv.1) d.
Proof using Type.
  intros (Hwf & Hsnd & Hall)%index_by_spec. split_and!; [done|done|].
  eapply Forall_impl; [exact Hall|]. by intros kv [? _].
Qed.

(** What the projection makes of a selected key. *)
Definition projected (existing current : list (list value * row)) k : option row :=
  match dget current k, dget existing k with
  | None, _ => None
  | Some a, None => Some a
  | Some a, Some e =>
    match _fingerprint e, _fingerprint a with
    | Ok before, Ok after => if String.eqb before after then Some e else Some a
    | _, _ => Some a
    end
  end.

Lemma projected_compat existing current k k' :
  keq k k' = true -> projected existing current k = projected existing current k'.
Proof using Type. intros Hk. unfold projected. by rewrite !(dget_compat _ k k') by done. Qed.

Lemma affected_compat keys k k' : keq k k' = true -> affected keys k = affected keys k'.
Proof using Type.
  intros Hk. unfold affected. induction keys as [|k0 keys IH]; [done|]. simpl. rewrite IH. f_equal.
  rewrite (keq_sym k0 k), (keq_sym k0 k'). by apply (keq_compat_l (V := row)).
Qed.

Lemma affected_elem keys k : affected keys k = true <-> exists k', k' ∈ keys /\ keq k' k = true.
Proof using Type. apply existsb_elem. Qed.

(** The loop, key by key. *)
Lemma projection_loop existing current keys s0 s :
  dwf existing -> foldM (projection_step bk existing current) s0 keys = Ok s -> ps_result s0 = existing ->
  dwf (ps_result s) /\
  forall k, dget (ps_result s) k = if affected keys k then projected existing current k else dget existing k.
Proof using Type.
  intros Hwf Hf <-. set (existing := ps_result s0) in *.
  refine (foldM_ind _ (fun done s => dwf (ps_result s) /\ forall k, dget (ps_result s) k =
    if affected done k then projected existing current k else dget existing k) _ _ _ Hf _ _); [done|].
  intros done key s1 s2 _ [Hwf1 Hget] Hstep.
  assert (forall k, affected (done ++ [key]) k = affected done k || keq key k) as Haff.
  { intros k. unfold affected. by rewrite existsb_app; simpl; rewrite orb_false_r. }
  assert (forall res', dwf res' -> (forall k, dget res' k = if keq key k then projected existing current key
            else dget (ps_result s1) k) ->
          dwf res' /\ forall k, dget res' k = if affected (done ++ [key]) k then projected existing current k
            else dget existing k) as Hupd.
  { intros res' Hwf' Hres. split; [done|]. intros k. rewrite Hres, Haff, Hget.
    destruct (keq key k) eqn:E; [|by rewrite orb_false_r]. rewrite orb_true_r. by apply projected_compat. }
  assert (projected existing current key = dget existing key -> dwf (ps_result s1) /\
    forall k, dget (ps_result s1) k = if affected (done ++ [key]) k then projected existing current k
            else dget existing k) as Hsame.
  { intros Hp. apply Hupd; [done|]. intros k. rewrite Hget. destruct (keq key k) eqn:E; [|done].
    rewrite <-(projected_compat _ _ key k), Hp, <-(dget_compat _ key k) by done. by destruct (affected done k). }
  unfold projection_step in Hstep. unfold projected in Hsame, Hupd.
  destruct (dget current key) as [a|] eqn:Ea, (dget existing key) as [e|] eqn:Ee.
  - apply bind_Ok in Hstep as (h1 & H1 & (h2 & H2 & Hstep)%bind_Ok). rewrite H1, H2 in Hsame, Hupd.
    destruct (String.eqb h1 h2); injection Hstep as <-; [by apply Hsame|].
    apply Hupd; [by apply dwf_dset|]. intros k. simpl. by rewrite dget_dset.
  - injection Hstep as <-. apply Hupd; [by apply dwf_dset|]. intros k. simpl. by rewrite dget_dset.
  - injection Hstep as <-. apply Hupd; [by apply dwf_dpop|]. intros k. simpl. by rewrite dget_dpop.
  - injection Hstep as <-. by apply Hsame.
Qed.

Lemma affected_dmem {V} (d : list (list value * V)) k : affected (map fst d) k = dmem d k.
Proof using Type.
  unfold affected, dmem. induction d as [|[k0 v] d IH]; simpl; [done|]. by destruct (keq k0 k).
Qed.

Lemma affected_perm ks1 ks2 k : ks1 ≡ₚ ks2 -> affected ks1 k = affected ks2 k.
Proof using Type.
  intros Hp. apply eq_bool_prop_intro. rewrite !Is_true_true, !affected_elem. by setoid_rewrite Hp.
Qed.

Lemma select_keys_Some existing hkeys keys sel k :
  select_keys bk existing hkeys (Some keys) = Ok sel -> dmem sel k = affected keys k.
Proof using Type.
  simpl. intros Hf.
  refine (foldM_ind _ (fun done sel => dmem sel k = affected done k) _ _ _ Hf _ _); [done|].
  intros done key s1 s2 _ IH Hstep. unfold affected_step in Hstep.
  destruct (negb _); [done|]. destruct (existsb _ _); [done|]. injection Hstep as <-.
  unfold affected in *. rewrite existsb_app. simpl. rewrite orb_false_r, <-IH. unfold dmem. rewrite dget_dset.
  destruct (keq key k); [by rewrite orb_true_r|by rewrite orb_false_r].
Qed.

Lemma select_keys_None existing hkeys sel k :
  dwf hkeys -> select_keys bk existing hkeys None = Ok sel -> dmem sel k = dmem existing k || dmem hkeys k.
Proof using Type.
  intros Hwf [= <-]. unfold dmem. rewrite dget_dupdate by done. destruct (dget hkeys k); [by rewrite orb_true_r|].
  rewrite orb_false_r. clear. induction existing as [|[k0 v] d IH]; simpl; [done|]. by destruct (keq k0 k).
Qed.

(** Inversion of a successful application. *)
Lemma apply_projection_Ok E history keys r :
  apply_current_projection E history bk pc keys flag = Ok r ->
  exists ex h sel s,
    validate_columns bk pc = Ok tt /\ index_target E bk = Ok ex /\ index_history history bk pc flag = Ok h /\
    select_keys bk ex (hi_keys h) keys = Ok sel /\
    foldM (projection_step bk ex (hi_current h))
        {| ps_result := ex; ps_upserts := []; ps_delete_keys := [];
           ps_inserted := 0; ps_updated := 0; ps_deleted := 0 |} (sort_on repr_key (map fst sel)) = Ok s /\
    dwf (ps_result s) /\ cpr_rows r ≡ₚ map snd (ps_result s) /\
    (forall k, dget (ps_result s) k = if dmem sel k then projected ex (hi_current h) k else dget ex k).
Proof using Type.
  unfold apply_current_projection.
  intros ([] & Hv & (ex & Hex & (h & Hh & (sel & Hsel & (s & Hs & [= <-])%bind_Ok)%bind_Ok)%bind_Ok)%bind_Ok)%bind_Ok.
  exists ex, h, sel, s. destruct (index_target_Ok' _ _ Hex) as (Hwf & _).
  destruct (projection_loop _ _ _ _ _ Hwf Hs eq_refl) as [Hwf' Hget]. split_and!; [done..| |].
  - simpl. apply sorted_values_perm.
  - intros k. rewrite Hget, <-affected_dmem. by rewrite (affected_perm _ _ _ (sort_on_perm repr_key (map fst sel))).
Qed.

(** In a rebuild every key is projected. *)
Lemma rebuild_lookup ex h sel history k :
  index_history history bk pc flag = Ok h -> select_keys bk ex (hi_keys h) None = Ok sel ->
  (if dmem sel k then projected ex (hi_current h) k else dget ex k) = projected ex (hi_current h) k.
Proof using Type.
  intros Hh Hsel. destruct (index_history_Ok _ _ Hh) as (Hc & _ & Hwfk & _ & Hall).
  rewrite (select_keys_None _ _ _ _ Hwfk Hsel). destruct (dmem ex k) eqn:E1; [done|].
  destruct (dmem (hi_keys h) k) eqn:E2; [done|]. apply dmem_false in E1. unfold projected. rewrite E1. simpl.
  destruct (dget (hi_current h) k) as [a|] eqn:Ea; [|done]. exfalso.
  rewrite Hc in Ea. apply dget_Some_elem in Ea as (k' & Hkk & (x & Hin & Hx)%list_elem_of_omap).
  rewrite Forall_forall in Hall. destruct (Hall x Hin) as (k2 & Hk2 & Hm).
  unfold authoritative_entry in Hx. destruct (is_true _); [|done]. rewrite Hk2 in Hx.
  destruct (_project_row x pc); [|done]. injection Hx as -> ->. unfold dmem in *.
  by rewrite (dget_compat _ _ _ Hkk), E2 in Hm.
Qed.

(** A row stands for a projected row: it is that row, or an existing row with its fingerprint. *)
Definition stands_for (E : list row) (x a : row) : Prop :=
  x = a \/ (x ∈ E /\ exists f, _fingerprint x = Ok f /\ _fingerprint a = Ok f).

Lemma projected_stands E ex current k :
  index_target E bk = Ok ex ->
  match projected ex current k, dget current k with
  | Some x, Some a => stands_for E x a
  | None, None => True
  | _, _ => False
  end.
Proof using Type.
  intros (_ & Hsnd & _)%index_target_Ok'. unfold projected, stands_for.
  destruct (dget current k) as [a|]; [|done]. destruct (dget ex k) as [e|] eqn:Ee; [|by left].
  destruct (_fingerprint e) as [b|] eqn:Eb; [|by left]. destruct (_fingerprint a) as [f|] eqn:Ea; [|by left].
  destruct (String.eqb b f) eqn:Ef; [|by left]. apply String.eqb_eq in Ef as ->. right. split; [|eauto].
  apply dget_Some_elem in Ee as (k' & _ & Hin). rewrite <-Hsnd. apply list_elem_of_fmap. by exists (k', e).
Qed.

(** A row kept for a projected row: it is that row, or an existing row that means the same. *)
Definition kept_for (E : list row) (x a : row) : Prop := x = a \/ (x ∈ E /\ same_row x a).

Lemma stands_kept `{!TypedTextLaws} E x a : stands_for E x a -> kept_for E x a.
Proof using Type. intros [->|(Hx & f & Hfx & Hfa)]; [by left|right]. split; [done|]. by eapply same_digest_same_row. Qed.

(** C7. A rebuild makes the target the projection of the history: its rows correspond, one to
    one and whatever the target held, to the projections of the current rows of the history.
    Each is the projection itself, or a row of the old target that has the same columns with
    values that mean the same: of the same type, the same instant, the same number.  That holds
    for rows whose datetimes are aware and whose decimals have at most 28 digits, and unless
    the SHA-256 digests of two different texts collide. *)
Theorem rebuild_exact `{!TypedTextLaws} E history r :
  rebuild_current_projection E history bk pc flag = Ok r ->
  exists authoritative_rows kept,
    mapM_res (fun row => _project_row row pc) (filter (fun row => is_true (get row flag) = true) history) =
      Ok authoritative_rows /\
    cpr_rows r ≡ₚ kept /\ Forall2 (kept_for E) kept authoritative_rows.
Proof using Type.
  intros (ex & h & sel & s & _ & Hex & Hh & Hsel & _ & Hwf & Hrows & Hget)%apply_projection_Ok.
  destruct (index_history_Ok _ _ Hh) as (_ & Hwfc & _ & Hproj & _).
  destruct (drel_values (stands_for E) (ps_result s) (hi_current h) Hwf Hwfc) as (kept & Hp & Hk).
  - intros k. rewrite Hget, (rebuild_lookup ex h sel history k Hh Hsel). by apply projected_stands.
  - exists (map snd (hi_current h)), kept. rewrite Hrows. split_and!; [done..|].
    eapply Forall2_impl; [exact Hk|]. intros x a. apply stands_kept.
Qed.

(** ** Applying again *)

Lemma validate_columns_keys : validate_columns bk pc = Ok tt -> Forall (fun c => c ∈ pc) bk.
Proof using Type.
  unfold validate_columns. case_bool_decide; [done|]. destruct (negb _); [done|].
  case_bool_decide; [done|]. destruct (negb _); [done|]. by case_bool_decide.
Qed.

(** The rows of a result can be indexed again, with the same lookups. *)
Lemma apply_reindex E history keys r :
  apply_current_projection E history bk pc keys flag = Ok r ->
  exists ex h sel d,
    validate_columns bk pc = Ok tt /\ index_target E bk = Ok ex /\ index_history history bk pc flag = Ok h /\
    select_keys bk ex (hi_keys h) keys = Ok sel /\ index_target (cpr_rows r) bk = Ok d /\ dwf d /\
    forall k, dget d k = if dmem sel k then projected ex (hi_current h) k else dget ex k.
Proof using Type.
  intros (ex & h & sel & s & Hv & Hex & Hh & Hsel & _ & Hwf & Hrows & Hget)%apply_projection_Ok.
  destruct (index_target_Ok' _ _ Hex) as (_ & _ & Hkex).
  destruct (index_history_Ok _ _ Hh) as (Hc & _ & _ & _ & _).
  assert (forall k x, dget ex k = Some x -> exists k', _key x bk "existing current target" = Ok k' /\ keq k' k = true) as He.
  { intros k x (k' & Hk & Hin)%dget_Some_elem. rewrite Forall_forall in Hkex. exists k'. by split; [apply (Hkex (k', x))|]. }
  assert (forall k x, dget (hi_current h) k = Some x ->
    exists k', _key x bk "existing current target" = Ok k' /\ keq k' k = true) as Ha.
  { intros k x (k' & Hk & Hin)%dget_Some_elem. exists k'. split; [|done]. rewrite Hc in Hin.
    apply list_elem_of_omap in Hin as (y & _ & Hy). unfold authoritative_entry in Hy.
    destruct (is_true _); [|done]. destruct (_key y bk "history") as [k2|] eqn:Ek; [|done].
    destruct (_project_row y pc) as [p|] eqn:Ep; [|done]. injection Hy as -> ->.
    eapply project_row_key; [exact Ep|by apply validate_columns_keys|exact Ek]. }
  destruct (index_by_reindex (fun r => _key r bk "existing current target")
    (Exn "CurrentProjectionError" "existing current target contains duplicate business key")
    (fun _ _ => Ok tt) (ps_result s) (cpr_rows r)) as (d & Hd & Hwfd & Hdeq); [done|done| |].
  - apply Forall_forall. intros [k x] Hin. simpl. apply dwf_elem in Hin; [|done]. rewrite Hget in Hin.
    assert (dget ex k = Some x \/ dget (hi_current h) k = Some x) as Hx.
    { unfold projected in Hin. destruct (dmem sel k); [|by left].
      destruct (dget (hi_current h) k) as [a|]; [|done]. destruct (dget ex k) as [e|]; [|by right].
      destruct (_fingerprint e); [|by right]. destruct (_fingerprint a); [|by right].
      destruct (String.eqb _ _); [by left|by right]. }
    destruct Hx as [(k' & ? & ?)%He|(k' & ? & ?)%Ha]; by exists k'.
  - exists ex, h, sel, d. split_and!; try done. intros k. by rewrite Hdeq, Hget.
Qed.

(** A key the target already agrees on. *)
Definition in_sync (existing current : list (list value * row)) k : Prop :=
  match dget current k, dget existing k with
  | None, None => True
  | Some a, Some e => exists f, _fingerprint e = Ok f /\ _fingerprint a = Ok f
  | _, _ => False
  end.

Lemma synced_loop existing current keys s0 :
  Forall (in_sync existing current) keys -> foldM (projection_step bk existing current) s0 keys = Ok s0.
Proof using Type.
  induction 1 as [|k keys Hk _ IH]; [done|]. simpl. unfold projection_step at 1. unfold in_sync in Hk.
  destruct (dget current k), (dget existing k); try done.
  destruct Hk as (f & -> & ->). cbn [mbind res_bind]. by rewrite String.eqb_refl.
Qed.

(** Applying the same change set again is a no-op: the second application succeeds, emits no
    upsert and no delete, and leaves the rows as they are, for the affected keys as for a
    rebuild, provided the projected rows have a fingerprint. *)
Theorem projection_idempotent E history keys r :
  apply_current_projection E history bk pc keys flag = Ok r ->
  Forall (fun entry => is_ok (_fingerprint entry.2) = true) (authoritative history) ->
  exists r', apply_current_projection (cpr_rows r) history bk pc keys flag = Ok r' /\
    cpr_upserts r' = [] /\ cpr_delete_keys r' = [] /\
    cpr_mutations r' = {| mc_inserted := 0; mc_updated := 0; mc_deleted := 0 |} /\
    cpr_rows r' ≡ₚ cpr_rows r.
Proof using Type.
  intros (ex & h & sel & d & Hv & Hex & Hh & Hsel & Hd & Hwf & Hget)%apply_reindex Hfp.
  destruct (index_history_Ok _ _ Hh) as (Hc & _ & Hwfk & _ & _). rewrite <-Hc in Hfp.
  assert (exists sel', select_keys bk d (hi_keys h) keys = Ok sel' /\
    forall k, dmem sel' k = true -> dget d k = projected ex (hi_current h) k) as (sel' & Hsel' & Hproj).
  { destruct keys as [keys|].
    - exists sel. split; [done|]. intros k Hk. by rewrite Hget, Hk.
    - eexists. split; [done|]. intros k _. rewrite Hget. by eapply rebuild_lookup. }
  assert (Forall (in_sync d (hi_current h)) (sort_on repr_key (map fst sel'))) as Hsync.
  { apply Forall_forall. intros k Hk%elem_of_sort_on. unfold in_sync. rewrite Hproj.
    - unfold projected. destruct (dget (hi_current h) k) as [a|] eqn:Ea; [|done].
      assert (exists f, _fingerprint a = Ok f) as [f Hf].
      { apply dget_Some_elem in Ea as (k' & _ & Hin). rewrite Forall_forall in Hfp. specialize (Hfp _ Hin).
        simpl in Hfp. destruct (_fingerprint a) as [f|]; [by exists f|done]. }
      destruct (dget ex k) as [e|]; [|by exists f]. rewrite Hf. destruct (_fingerprint e) as [b|] eqn:Eb; [|by exists f].
      destruct (String.eqb b f) eqn:Ebf; [|by exists f]. apply String.eqb_eq in Ebf as ->. by exists f.
    - rewrite <-affected_dmem. apply affected_elem. exists k. split; [done|apply keq_refl]. }
  unfold apply_current_projection. rewrite Hv, Hd, Hh. cbn [mbind res_bind]. rewrite Hsel'. cbn [mbind res_bind].
  rewrite (synced_loop _ _ _ _ Hsync). cbn [mbind res_bind]. eexists. split; [done|]. simpl. split_and!; [done..|].
  rewrite sorted_values_perm. by destruct (index_target_Ok' _ _ Hd) as (_ & -> & _).
Qed.

(** ** Incremental application *)

(** The key of the row is not among the affected keys. *)
Definition outside (keys : list (list value)) (x : row) : bool :=
  match _key x bk "history" with Ok k => negb (affected keys k) | Raise _ => true end.

Lemma authoritative_outside keys history k :
  affected keys k = false ->
  dget (authoritative history) k = dget (authoritative (filter (fun x => outside keys x = true) history)) k.
Proof using Type.
  intros Hk. unfold authoritative. induction history as [|x history IH]; [done|].
  rewrite filter_cons. cbn [omap list_omap]. destruct (outside keys x) eqn:Eo.
  - rewrite decide_True by done. cbn [omap list_omap].
    destruct (authoritative_entry x) as [[k2 p]|]; [|done]. cbn [dget]. by destruct (keq k2 k).
  - rewrite decide_False by done. unfold authoritative_entry at 1. destruct (is_true _); [|done].
    unfold outside in Eo. destruct (_key x bk "history") as [k'|]; [|done].
    destruct (_project_row x pc); [|done]. cbn [dget]. destruct (keq k' k) eqn:Ekk; [|done].
    by rewrite (affected_compat _ _ _ Ekk), Hk in Eo.
Qed.

Lemma select_keys_valid existing hkeys keys :
  Forall (fun k => length k = length bk /\ existsb is_none k = false) keys ->
  exists sel, select_keys bk existing hkeys (Some keys) = Ok sel.
Proof using Type.
  intros Hall. simpl. generalize (@nil (list value * unit)).
  induction Hall as [|k keys [Hl Hn] _ IH]; intros sel; [by eexists|]. simpl. unfold affected_step at 1.
  rewrite Hl, Nat.eqb_refl, Hn. apply IH.
Qed.

(** The loop succeeds on keys where it succeeds for keys equal to them. *)
Lemma loop_succeeds existing current keys keys' s0 s :
  foldM (projection_step bk existing current) s0 keys = Ok s ->
  (forall k, k ∈ keys' -> affected keys k = true \/ (dget current k = None \/ dget existing k = None)) ->
  forall s0', exists s', foldM (projection_step bk existing current) s0' keys' = Ok s'.
Proof using Type.
  intros Hf Hall.
  assert (forall k a e, affected keys k = true -> dget current k = Some a -> dget existing k = Some e ->
    is_ok (_fingerprint e) = true /\ is_ok (_fingerprint a) = true) as Hok.
  { intros k a e Haff Ha He.
    refine (foldM_ind _ (fun done _ => affected done k = true ->
      is_ok (_fingerprint e) = true /\ is_ok (_fingerprint a) = true) _ _ _ Hf _ _ Haff); [done|].
    intros done key s1 s2 _ IH Hstep. unfold affected in *. rewrite existsb_app, orb_true_iff. simpl.
    rewrite orb_false_r. intros [?|Hk]; [by apply IH|]. unfold projection_step in Hstep.
    rewrite !(dget_compat _ key k) in Hstep by done. rewrite Ha, He in Hstep.
    apply bind_Ok in Hstep as (f1 & -> & (f2 & -> & _)%bind_Ok). done. }
  clear Hf. induction keys' as [|k keys' IH]; intros s0'; [by eexists|]. cbn [foldM].
  assert (exists s1, projection_step bk existing current s0' k = Ok s1) as [s1 ->];
    [|apply IH; intros; apply Hall; by right].
  unfold projection_step. destruct (dget current k) as [a|] eqn:Ea, (dget existing k) as [e|] eqn:Ee; try by eexists.
  destruct (Hall k) as [Haff|[?|?]]; [left| |congruence..]. destruct (Hok k a e Haff Ea Ee) as [He Ha].
  destruct (_fingerprint e); [|done]. destruct (_fingerprint a); [|done]. cbn [mbind res_bind].
  by destruct (String.eqb _ _); eexists.
Qed.

(** C6. Incremental application is equivalent to a rebuild.  When the target is the rebuild of
    an earlier history, and the history has changed only in rows whose keys are affected, then
    applying the affected keys succeeds whenever the rebuild does and gives the same rows. *)
Theorem incremental_equals_rebuild E history0 history keys r0 r :
  rebuild_current_projection E history0 bk pc flag = Ok r0 ->
  filter (fun x => outside keys x = true) history0 = filter (fun x => outside keys x = true) history ->
  Forall (fun k => length k = length bk /\ existsb is_none k = false) keys ->
  rebuild_current_projection (cpr_rows r0) history bk pc flag = Ok r ->
  exists r', apply_current_projection (cpr_rows r0) history bk pc (Some keys) flag = Ok r' /\
    cpr_rows r' ≡ₚ cpr_rows r.
Proof using Type.
  intros (ex0 & h0 & sel0 & d & Hv & Hex0 & Hh0 & Hsel0 & Hd & Hwf & Hget0)%apply_reindex Hout Hkeys Hreb.
  apply apply_projection_Ok in Hreb as (d' & h & sel & s & _ & Hd' & Hh & Hsel & Hs & Hwfs & Hrows & Hget).
  rewrite Hd in Hd'. injection Hd' as <-.
  assert (forall k, dget d k = projected ex0 (hi_current h0) k) as Hd0.
  { intros k. rewrite Hget0. by eapply rebuild_lookup. }
  assert (forall k, affected keys k = false -> projected d (hi_current h) k = dget d k) as Hsync.
  { intros k Hk. pose proof (projected_stands _ _ (hi_current h0) k Hex0) as Hst. rewrite <-Hd0 in Hst.
    destruct (index_history_Ok _ _ Hh0) as (Hc0 & _), (index_history_Ok _ _ Hh) as (Hc & _).
    unfold projected. rewrite Hc, (authoritative_outside keys) by done. rewrite <-Hout, <-authoritative_outside by done.
    rewrite <-Hc0. destruct (dget d k) as [x|], (dget (hi_current h0) k) as [a|]; try done.
    destruct Hst as [->|(_ & f & Hx & Ha)].
    - destruct (_fingerprint a); [|done]. by destruct (String.eqb _ _).
    - by rewrite Hx, Ha, String.eqb_refl. }
  destruct (select_keys_valid d (hi_keys h) keys Hkeys) as [sel' Hsel'].
  destruct (loop_succeeds d (hi_current h) _ (sort_on repr_key (map fst sel')) _ _ Hs) with
    (s0' := {| ps_result := d; ps_upserts := []; ps_delete_keys := [];
               ps_inserted := 0; ps_updated := 0; ps_deleted := 0 |}) as [s' Hs'].
  { intros k _. rewrite (affected_perm _ _ _ (sort_on_perm repr_key (map fst sel))), affected_dmem.
    destruct (index_history_Ok _ _ Hh) as (_ & _ & Hwfk & _ & _).
    rewrite (select_keys_None _ _ _ _ Hwfk Hsel). destruct (dget d k) eqn:E1; [|by right; right].
    left. by rewrite (proj2 (dmem_true d k)) by (rewrite E1; by eexists). }
  assert (apply_current_projection (cpr_rows r0) history bk pc (Some keys) flag =
    Ok {| cpr_rows := sorted_values repr_key (ps_result s'); cpr_upserts := ps_upserts s';
        cpr_delete_keys := ps_delete_keys s'; cpr_affected_keys := length sel';
        cpr_mutations := {| mc_inserted := ps_inserted s'; mc_updated := ps_updated s';
                            mc_deleted := ps_deleted s' |} |}) as Happ.
  { unfold apply_current_projection. rewrite Hv, Hd, Hh. cbn [mbind res_bind]. rewrite Hsel'. cbn [mbind res_bind].
    by rewrite Hs'. }
  eexists. split; [exact Happ|]. destruct (projection_loop _ _ _ _ _ Hwf Hs' eq_refl) as [Hwfs' Hget'].
  simpl. rewrite sorted_values_perm, Hrows. apply deq_values_perm; [done|done|]. intros k.
  rewrite Hget', Hget, (rebuild_lookup d h sel history k Hh Hsel).
  rewrite (affected_perm _ _ _ (sort_on_perm repr_key (map fst sel'))), affected_dmem, (select_keys_Some _ _ _ _ k Hsel').
  destruct (affected keys k) eqn:Ek; [done|]. by rewrite Hsync.
Qed.
End lemmas.

(** The severity of a status. *)
Definition severity (s : CurrentProjectionHealthStatus) : nat :=
  match s with CPH_HEALTHY => 0 | CPH_LAGGING => 1 | CPH_STALE => 2 | CPH_UNINITIALIZED => 3 end.

(** Health never improves when the lag grows. *)
Lemma health_monotone id latest1 latest2 p warn err run h1 h2 :
  evaluate_current_projection_health id latest1 (Some p) warn err run = Ok h1 ->
  evaluate_current_projection_health id latest2 (Some p) warn err run = Ok h2 ->
  (latest1 <= latest2)%Z ->
  (0 <= ch_projection_lag h1 <= ch_projection_lag h2)%Z /\ severity (ch_status h1) <= severity (ch_status h2).
Proof.
  unfold evaluate_current_projection_health. intros H1 H2 Hle.
  destruct (latest1 <? 0)%Z; [done|]. destruct (latest2 <? 0)%Z; [done|]. destruct (warn <? 0)%Z; [done|].
  destruct err as [e|].
  - destruct (e <? warn)%Z eqn:Ee; [done|]. destruct (p <? 0)%Z; [done|].
    destruct (p >? latest1)%Z eqn:E1; [done|]. destruct (p >? latest2)%Z eqn:E2; [done|].
    destruct (negb _); [done|]. simplify_eq. simpl.
    destruct (latest1 - p =? 0)%Z eqn:?, (latest1 - p >=? e)%Z eqn:?, (latest1 - p <? warn)%Z eqn:?,
      (latest2 - p =? 0)%Z eqn:?, (latest2 - p >=? e)%Z eqn:?, (latest2 - p <? warn)%Z eqn:?; simpl; split; lia.
  - destruct (p <? 0)%Z; [done|].
    destruct (p >? latest1)%Z eqn:E1; [done|]. destruct (p >? latest2)%Z eqn:E2; [done|].
    destruct (negb _); [done|]. simplify_eq. simpl.
    destruct (latest1 - p =? 0)%Z eqn:?, (latest1 - p <? warn)%Z eqn:?,
      (latest2 - p =? 0)%Z eqn:?, (latest2 - p <? warn)%Z eqn:?; simpl; split; lia.
Qed.

(** ** Witnesses *)

Definition demo_version (id : Z) (v : string) (current : bool) : row :=
  <["id" := VInt id]> (<["v" := VStr v]> (<[IS_CURRENT := VBool current]> ∅)).

Definition demo_before : list row := [demo_version 1 "a" true; demo_version 2 "b" true].
Definition demo_after : list row :=
  [demo_version 1 "a" false; demo_version 2 "b" true; demo_version 1 "c" true; demo_version 3 "d" true].

Definition demo_projection (target history : list row) (keys : option (list (list value))) :
    CurrentProjectionApplyResult :=
  match @apply_current_projection demo_runtime demo_scalars target history ["id"] ["id"; "v"] keys IS_CURRENT with
  | Ok r => r
  | Raise _ => {| cpr_rows := []; cpr_upserts := []; cpr_delete_keys := []; cpr_affected_keys := 0;
                  cpr_mutations := {| mc_inserted := 0; mc_updated := 0; mc_deleted := 0 |} |}
  end.

(** The target already has row 2, and an older row 1. *)
Definition demo_old : list row := map (delete IS_CURRENT) [demo_version 2 "b" true; demo_version 1 "a" true].

Lemma rebuild_exact_witness :
  exists kept rows,
    mapM_res (fun row => _project_row row ["id"; "v"])
      (filter (fun row => is_true (get row IS_CURRENT) = true) demo_after) = Ok rows /\
    cpr_rows (demo_projection demo_old demo_after None) ≡ₚ kept /\
    Forall2 (@kept_for demo_runtime demo_scalars demo_old) kept rows.
Proof.
  destruct (@rebuild_exact demo_runtime demo_scalars ["id"] ["id"; "v"] IS_CURRENT demo_text_laws demo_old demo_after
    (demo_projection demo_old demo_after None)) as (rows & kept & H).
  - vm_compute. reflexivity.
  - exists kept, rows. exact H.
Defined.

Lemma projection_idempotent_witness :
  exists r, @apply_current_projection demo_runtime demo_scalars
      (cpr_rows (demo_projection [] demo_after (Some [[VInt 1]]))) demo_after ["id"] ["id"; "v"]
      (Some [[VInt 1]]) IS_CURRENT = Ok r /\ cpr_upserts r = [].
Proof.
  destruct (@projection_idempotent demo_runtime demo_scalars ["id"] ["id"; "v"] IS_CURRENT [] demo_after
    (Some [[VInt 1]]) (demo_projection [] demo_after (Some [[VInt 1]]))) as (r & Hr & Hu & _).
  - vm_compute. reflexivity.
  - apply (bool_decide_unpack _). vm_compute. exact I.
  - exists r. split; [exact Hr|exact Hu].
Defined.

Lemma incremental_equals_rebuild_witness :
  exists r, @apply_current_projection demo_runtime demo_scalars
      (cpr_rows (demo_projection [] demo_before None)) demo_after ["id"] ["id"; "v"]
      (Some [[VInt 1]; [VInt 3]]) IS_CURRENT = Ok r /\
    cpr_rows r ≡ₚ cpr_rows (demo_projection (cpr_rows (demo_projection [] demo_before None)) demo_after None).
Proof.
  apply (@incremental_equals_rebuild demo_runtime demo_scalars ["id"] ["id"; "v"] IS_CURRENT [] demo_before).
  - vm_compute. reflexivity.
  - vm_compute. reflexivity.
  - apply (bool_decide_unpack _). vm_compute. exact I.
  - vm_compute. reflexivity.
Defined.
