(* ===== verification/CdcScd2.v ===== *)
(** * CDC applied to SCD2 history ([apply/cdc_scd2.py])

    Two clocks are kept apart: the source position of the events orders them, the event time
    bounds the validity of the versions.  A version that is closed keeps the position of the
    event that closed it, so a stale event cannot open it again. *)

From stdpp Require Import base gmap strings list sorting.
From Stdlib Require QArith.
From S2P Require Import Prelude PyValue PyDict Ordering TypedValues Temporal ConfigTypes RunAudit CdcCapture CdcApply Scd2.
#[local] Open Scope Z_scope.

Definition CDC_CLOSED_PARTITION : string := "_framework_cdc_closed_partition".
Definition CDC_CLOSED_POSITION : string := "_framework_cdc_closed_position".

Record CDCSCD2ApplyResult := {
  csr_rows : list row;
  csr_mutations : MutationCounts;
  csr_events_applied : nat;
  csr_stale_events_ignored : nat;
  csr_no_change_events : nat;
  csr_missing_delete_events_ignored : nat
}.

Definition _business_key (r : row) (columns : list string) : res (list value) :=
  let values := map (get r) columns in
  if existsb is_none values then raise "CDCSCD2Error" "SCD2 business key columns cannot be null"
  else Ok values.

Definition _event_time (event_time : option datetime) : res datetime :=
  match event_time with
  | None => raise "CDCSCD2Error" "CDC event requires event_time for SCD2 apply"
  | Some t => Ok t
  end.

Fixpoint _current_index (rows : list row) (key : list value) (business_key : list string) :
    res (option nat) :=
  match rows with
  | [] => Ok None
  | r :: rows' =>
    found ← (if is_current r then k ← _business_key r business_key; Ok (keq k key) else Ok false);
    if found : bool then Ok (Some 0%nat)
    else rest ← _current_index rows' key business_key; Ok (option_map S rest)
  end.

(** The four assignments of [_close_current]. *)
Definition closed_row (current : row) (effective_at : datetime) (position : CDCSourcePosition) : row :=
  <[CDC_CLOSED_POSITION := VTuple (event_position position)]>
    (<[CDC_CLOSED_PARTITION := VStr (sp_partition position)]>
      (closed_version current (VDt effective_at))).

Definition _close_current (current : row) (effective_at : datetime) (position : CDCSourcePosition) : res row :=
  match as_datetime (get current VALID_FROM) with
  | None => raise "CDCSCD2Error" "existing SCD2 current row missing datetime valid_from"
  | Some current_from =>
    relation ← except ["TemporalOrderingError"]
      (fun _ => raise "CDCSCD2Error" "SCD2 valid-time values cannot be compared safely")
      (compare_event_time (Some effective_at) (Some current_from));
    if bool_decide (relation = ET_EARLIER) then
      raise "CDCSCD2LateArrivingError" "event valid-time predates the current SCD2 version"
    else Ok (closed_row current effective_at position)
  end.

Definition _history_for_key (rows : list row) (key : list value) (business_key : list string) :
    res (list row) :=
  filterM_res (fun r => k ← _business_key r business_key; Ok (keq k key)) rows.

(** [type(value) is int] *)
Definition is_exact_int (v : value) : bool := match v with VInt _ => true | _ => false end.

(** [latest], [latest_partition] and [latest_position] *)
Definition latest_closed : Type := row * (string * list value).

(** The body of the loop of [_latest_closed_row]. *)
Definition closed_step (latest : option latest_closed) (r : row) : res (option latest_closed) :=
  let partition := get r CDC_CLOSED_PARTITION in
  let position := get r CDC_CLOSED_POSITION in
  if is_none partition && is_none position then Ok latest
  else
    match partition with
    | VStr partition =>
      if negb (nonempty partition) then
        raise "CDCOrderingError" "incomplete closed-partition evidence"
      else
        match sequence_items position with
        | None => raise "CDCOrderingError" "invalid closed-position evidence"
        | Some candidate_position =>
          if bool_decide (candidate_position = []) || negb (forallb is_exact_int candidate_position) then
            raise "CDCOrderingError" "invalid closed-position evidence"
          else
            match latest with
            | None => Ok (Some (r, (partition, candidate_position)))
            | Some (_, (latest_partition, latest_position)) =>
              if negb (String.eqb partition latest_partition) then
                raise "CDCOrderingError" "history spans multiple source partitions"
              else
                relation ← except ["TemporalOrderingError"]
                  (fun _ => raise "CDCOrderingError" "history contains non-comparable closed positions")
                  (compare_source_order candidate_position latest_position);
                if bool_decide (relation = SO_NEWER) then
                  Ok (Some (r, (latest_partition, candidate_position)))
                else Ok latest
            end
        end
    | _ => raise "CDCOrderingError" "incomplete closed-partition evidence"
    end.

Definition _latest_closed_row (history : list row) : res (option row) :=
  latest ← foldM closed_step None history; Ok (option_map fst latest).

(** The row that carries the position of the last close, or nothing. *)
Definition synthetic (closed : option row) : row :=
  match closed with
  | None => ∅
  | Some closed =>
    <[CDC_PARTITION := get closed CDC_CLOSED_PARTITION]>
      (<[CDC_POSITION := get closed CDC_CLOSED_POSITION]> ∅)
  end.

Definition _ordering_when_current_absent (rows : list row) (key : list value) (business_key : list string)
    (position : CDCSourcePosition) (lower_checkpoint : option CDCCheckpoint) :
    res (option Z * option row) :=
  history ← _history_for_key rows key business_key;
  if bool_decide (history = []) then Ok (None, None)
  else
    closed ← _latest_closed_row history;
    ordering ← _assert_event_newer_than_target (synthetic closed) position lower_checkpoint;
    Ok (Some ordering, closed).

Definition _assert_reinsert_valid_time (effective_at : datetime) (closed : option row) : res unit :=
  match closed with
  | None => Ok tt
  | Some closed =>
    match as_datetime (get closed VALID_TO) with
    | None => raise "CDCOrderingError" "closed history lacks a datetime valid_to boundary"
    | Some closed_at =>
      relation ← except ["TemporalOrderingError"]
        (fun _ => raise "CDCOrderingError" "reinsert valid-time cannot be compared safely")
        (compare_event_time (Some effective_at) (Some closed_at));
      if bool_decide (relation = ET_EARLIER) then
        raise "CDCSCD2LateArrivingError" "reinsert valid-time predates the delete/history boundary"
      else Ok tt
    end
  end.

(** [row[CDC_PARTITION] = event.position.partition; row[CDC_POSITION] = event.position.values] *)
Definition at_position (r : row) (position : CDCSourcePosition) : row :=
  <[CDC_POSITION := VTuple (event_position position)]> (<[CDC_PARTITION := VStr (sp_partition position)]> r).

(** What an event does to the history of its key. *)
Inductive history_edit :=
| HE_stale
| HE_missing_delete
| HE_no_change
| HE_reposition (current : row)
| HE_close (closed : row)
| HE_insert (new : row)
| HE_update (closed new : row).

Section cdc_scd2.
Context `{PyRuntime} `{ScalarText}.

(** [current_hash], recomputed when the row has none *)
Definition current_hash (current : row) (tracked_columns : list string) : res value :=
  if is_none (get current RECORD_HASH) then VStr <$> hash_tracked_attributes current tracked_columns
  else Ok (get current RECORD_HASH).

Definition new_history_row (incoming : row) (effective_at : datetime) (new_hash dataset_run_id : string)
    (position : CDCSourcePosition) : row :=
  at_position (new_version incoming (VDt effective_at) new_hash dataset_run_id) position.

(** The part of the loop body after the ordering of the event is known. *)
Definition change_edit (business_key tracked_columns : list string) (dataset_run_id : string)
    (key : list value) (effective_at : datetime) (current : option row) (ordering : option Z)
    (closed_history : option row) (event : CDCEvent) : res history_edit :=
  if bool_decide (ev_operation event = CDC_DELETE) then
    match current with
    | None => Ok HE_missing_delete
    | Some current =>
      if bool_decide (ordering = Some 0) then
        raise "CDCSCD2ConflictError" "CDC DELETE conflicts with current SCD2 version"
      else closed ← _close_current current effective_at (ev_position event); Ok (HE_close closed)
    end
  else
    match ev_after event with
    | None => raise "AssertionError" "event.after"
    | Some after =>
      let incoming := set_key business_key key after in
      new_hash ← hash_tracked_attributes incoming tracked_columns;
      let new := new_history_row incoming effective_at new_hash dataset_run_id (ev_position event) in
      match current with
      | None =>
        _ ← _assert_reinsert_valid_time effective_at closed_history;
        Ok (HE_insert new)
      | Some current =>
        stored ← current_hash current tracked_columns;
        if bool_decide (ordering = Some 0) then
          if py_eqb stored (VStr new_hash) then Ok HE_no_change
          else raise "CDCSCD2ConflictError" "event conflicts with current SCD2 version"
        else if py_eqb stored (VStr new_hash) then
          Ok (HE_reposition (at_position current (ev_position event)))
        else
          closed ← _close_current current effective_at (ev_position event);
          Ok (HE_update closed new)
      end
    end.

Definition history_effect (business_key tracked_columns : list string) (dataset_run_id : string)
    (lower_checkpoint : option CDCCheckpoint) (rows : list row) (key : list value)
    (effective_at : datetime) (current : option row) (event : CDCEvent) : res history_edit :=
  match current with
  | Some r =>
    ordering ← _assert_event_newer_than_target r (ev_position event) lower_checkpoint;
    if ordering <? 0 then Ok HE_stale
    else change_edit business_key tracked_columns dataset_run_id key effective_at current (Some ordering) None event
  | None =>
    found ← _ordering_when_current_absent rows key business_key (ev_position event) lower_checkpoint;
    if match found.1 with Some ordering => ordering <=? 0 | None => false end then Ok HE_stale
    else change_edit business_key tracked_columns dataset_run_id key effective_at None found.1 found.2 event
  end.
End cdc_scd2.

Record cdc_scd2_state := {
  css_rows : list row;
  css_inserted : nat;
  css_updated : nat;
  css_deleted : nat;
  css_stale : nat;
  css_no_change : nat;
  css_missing : nat
}.

(** [index] is the place of the current row of the key. *)
Definition apply_edit (s : cdc_scd2_state) (index : option nat) (edit : history_edit) : cdc_scd2_state :=
  let put rows i u d st nc mi :=
    {| css_rows := rows; css_inserted := css_inserted s + i; css_updated := css_updated s + u;
       css_deleted := css_deleted s + d; css_stale := css_stale s + st;
       css_no_change := css_no_change s + nc; css_missing := css_missing s + mi |}%nat in
  let set r := <[default 0%nat index := r]> (css_rows s) in
  match edit with
  | HE_stale => put (css_rows s) 0 0 0 1 0 0
  | HE_missing_delete => put (css_rows s) 0 0 0 0 0 1
  | HE_no_change => put (css_rows s) 0 0 0 0 1 0
  | HE_reposition r => put (set r) 0 0 0 0 1 0
  | HE_close r => put (set r) 0 0 1 0 0 0
  | HE_insert new => put (css_rows s ++ [new]) 1 0 0 0 0 0
  | HE_update r new => put (set r ++ [new]) 0 1 0 0 0 0
  end%nat.

(** [datetime.min] *)
Definition datetime_min : value := VDatetime None 0.

Section apply_cdc_scd2.
Context `{PyRuntime} `{ScalarText}.

Definition cdc_scd2_step (business_key tracked_columns : list string) (dataset_run_id : string)
    (lower_checkpoint : option CDCCheckpoint) (s : cdc_scd2_state) (event : CDCEvent) :
    res cdc_scd2_state :=
  key ← _event_key (ev_key event) business_key;
  effective_at ← _event_time (ev_event_time event);
  index ← _current_index (css_rows s) key business_key;
  edit ← history_effect business_key tracked_columns dataset_run_id lower_checkpoint (css_rows s) key
           effective_at (index ≫= fun i => css_rows s !! i) event;
  Ok (apply_edit s index edit).

(** The sort key of a row of the result. *)
Definition history_sort_key (business_key : list string) (r : row) : res (list value) :=
  k ← _business_key r business_key;
  Ok [VStr (repr_key k);
      if truthy (get r VALID_FROM) then get r VALID_FROM else datetime_min;
      VStr (py_repr (get r CDC_POSITION))].

(** [events_applied] is incremented with each of the three mutation counters. *)
Definition apply_cdc_scd2 (existing_rows : list row) (batch : CDCNormalizedBatch)
    (business_key tracked_columns : list string) (dataset_run_id : string) : res CDCSCD2ApplyResult :=
  if bool_decide (business_key = []) || negb (unique business_key) then
    raise "ValueError" "CDC SCD2 apply requires unique business_key columns"
  else if bool_decide (tracked_columns = []) || negb (unique tracked_columns) then
    raise "ValueError" "CDC SCD2 apply requires unique tracked_columns"
  else
    _ ← assert_one_current_row existing_rows business_key;
    s ← foldM (cdc_scd2_step business_key tracked_columns dataset_run_id (nb_lower_checkpoint batch))
          {| css_rows := existing_rows; css_inserted := 0; css_updated := 0; css_deleted := 0;
             css_stale := 0; css_no_change := 0; css_missing := 0 |} (nb_events batch);
    _ ← assert_one_current_row (css_rows s) business_key;
    rows ← sort_rows (history_sort_key business_key) (css_rows s);
    Ok {| csr_rows := rows;
          csr_mutations := {| mc_inserted := css_inserted s; mc_updated := css_updated s;
                              mc_deleted := css_deleted s |};
          csr_events_applied := (css_inserted s + css_updated s + css_deleted s)%nat;
          csr_stale_events_ignored := css_stale s;
          csr_no_change_events := css_no_change s;
          csr_missing_delete_events_ignored := css_missing s |}.
End apply_cdc_scd2.

#[local] Arguments cdc_scd2_step : simpl never.
#[local] Arguments history_effect : simpl never.
#[local] Arguments change_edit : simpl never.

(** ** Keys, hashes and positions of the rows *)

(** The framework columns are not part of the key, and the position is not tracked. *)
Definition plain_history_key (bk : list string) : Prop :=
  plain_key bk /\
  Forall (fun c => c ∉ [CDC_PARTITION; CDC_POSITION; CDC_CLOSED_PARTITION; CDC_CLOSED_POSITION]) bk.
Definition plain_tracked (tc : list string) : Prop :=
  Forall (fun c => c ∉ [CDC_PARTITION; CDC_POSITION]) tc.

Lemma business_key_Ok r bk k : _business_key r bk = Ok k <-> Scd2._key r bk = Ok k.
Proof. unfold _business_key, Scd2._key. by destruct (existsb is_none (map (get r) bk)). Qed.

Lemma current_index_Ok rows key bk o : _current_index rows key bk = Ok o -> current_index rows bk key = Ok o.
Proof.
  revert o. induction rows as [|r rows IH]; intros o; cbn [_current_index current_index]; [done|].
  intros (found & Hf & H)%bind_Ok.
  assert ((if is_current r then k ← Scd2._key r bk; Ok (keq k key) else Ok false) = Ok found) as ->.
  { destruct (is_current r); [|done]. apply bind_Ok in Hf as (k & Hk%business_key_Ok & Hf). by rewrite Hk. }
  cbn [mbind res_bind]. destruct found; [done|]. apply bind_Ok in H as (rest & Hr & H). by rewrite (IH _ Hr).
Qed.

Lemma current_index_exists rows key bk :
  one_current bk rows -> exists o, _current_index rows key bk = Ok o.
Proof.
  intros [Hall _]. induction Hall as [|r rows Hr _ IH]; cbn [_current_index]; [by eexists|].
  destruct (is_current r); cycle 1.
  { cbn [mbind res_bind]. destruct IH as [o ->]. by eexists. }
  destruct (Scd2._key r bk) as [k|] eqn:Ek; [|by specialize (Hr eq_refl)].
  apply business_key_Ok in Ek. rewrite Ek. cbn [mbind res_bind]. destruct (keq k key); [by eexists|].
  destruct IH as [o ->]. by eexists.
Qed.

Lemma key_at_position r pos bk : plain_history_key bk -> Scd2._key (at_position r pos) bk = Scd2._key r bk.
Proof.
  intros [_ Hp]. apply key_ext. eapply Forall_impl; [exact Hp|]. intros c Hc. unfold at_position.
  rewrite !get_insert_ne; [done|..]; intros <-; apply Hc; set_solver.
Qed.

Lemma key_closed_row r t pos bk : plain_history_key bk -> Scd2._key (closed_row r t pos) bk = Scd2._key r bk.
Proof.
  intros [Hf Hp]. rewrite <-(closed_version_key r (VDt t)) by done. apply key_ext.
  eapply Forall_impl; [exact Hp|]. intros c Hc. unfold closed_row.
  rewrite !get_insert_ne; [done|..]; intros <-; apply Hc; set_solver.
Qed.

Lemma key_of_event mk key after ek :
  _event_key ek mk = Ok key -> Scd2._key (set_key mk key after) mk = Ok key.
Proof.
  intros [-> Hn]%event_key_Ok. unfold Scd2._key.
  assert (map (get (set_key mk (map (get ek) mk) after)) mk = map (get ek) mk) as ->; [|by rewrite Hn].
  apply map_ext_Forall, Forall_forall. intros c Hc. unfold get at 1. by rewrite set_key_lookup, decide_True.
Qed.

Lemma carries_at_position r pos :
  carries (at_position r pos) CDC_PARTITION CDC_POSITION (sp_partition pos) (sp_values pos).
Proof.
  unfold carries, at_position. split.
  - rewrite get_insert_ne by done. apply get_insert_eq.
  - by rewrite get_insert_eq.
Qed.

Lemma carries_closed_row r t pos :
  carries (closed_row r t pos) CDC_CLOSED_PARTITION CDC_CLOSED_POSITION (sp_partition pos) (sp_values pos).
Proof.
  unfold carries, closed_row. split.
  - rewrite get_insert_ne by done. apply get_insert_eq.
  - by rewrite get_insert_eq.
Qed.

Lemma closed_row_not_current r t pos : is_current (closed_row r t pos) = false.
Proof. unfold is_current, closed_row. rewrite !get_insert_ne by done. apply closed_not_current. Qed.

Lemma at_position_current r pos : is_current (at_position r pos) = is_current r.
Proof. unfold is_current, at_position. by rewrite !get_insert_ne. Qed.

Section hashes.
Context `{PyRuntime} `{ScalarText}.

Lemma hash_ext r r' tc :
  Forall (fun c => get r c = get r' c) tc -> hash_tracked_attributes r tc = hash_tracked_attributes r' tc.
Proof.
  intros Hall. unfold hash_tracked_attributes, tracked_payload. do 4 f_equal. apply map_ext_Forall.
  eapply Forall_impl; [exact Hall|]. intros c Hc. simpl in *. by rewrite Hc.
Qed.

Lemma current_hash_at_position r pos tc :
  plain_tracked tc -> current_hash (at_position r pos) tc = current_hash r tc.
Proof.
  intros Hp. unfold current_hash.
  assert (get (at_position r pos) RECORD_HASH = get r RECORD_HASH) as -> by (unfold at_position; by rewrite !get_insert_ne).
  destruct (is_none _); [|done]. f_equal. apply hash_ext. eapply Forall_impl; [exact Hp|].
  intros c Hc. unfold at_position. rewrite !get_insert_ne; [done|..]; intros <-; apply Hc; set_solver.
Qed.

Lemma new_row_facts i t h id pos tc bk :
  plain_history_key bk ->
  is_current (new_history_row i t h id pos) = true /\
  Scd2._key (new_history_row i t h id pos) bk = Scd2._key i bk /\
  current_hash (new_history_row i t h id pos) tc = Ok (VStr h) /\
  get (new_history_row i t h id pos) VALID_FROM = VDt t.
Proof.
  intros Hp. unfold new_history_row. split; [by rewrite at_position_current, new_version_current|].
  split; [by rewrite key_at_position, new_version_key by apply Hp|]. split.
  - unfold current_hash, at_position. rewrite !get_insert_ne by done. by rewrite new_version_hash.
  - unfold at_position. rewrite !get_insert_ne by done. apply new_version_from.
Qed.
End hashes.

(** ** The evidence of closed rows *)

(** The row was not closed by CDC. *)
Definition no_evidence (r : row) : Prop :=
  is_none (get r CDC_CLOSED_PARTITION) && is_none (get r CDC_CLOSED_POSITION) = true.

(** The row was closed at the position [p] of the partition [part]. *)
Definition closed_at (r : row) (part : string) (p : list Z) : Prop :=
  carries r CDC_CLOSED_PARTITION CDC_CLOSED_POSITION part p.

(** The evidence of the row, if any, is a position of the partition, of arity [n], for which [P] holds. *)
Definition evidence (part : string) (n : nat) (P : list Z -> Prop) (r : row) : Prop :=
  no_evidence r \/ exists p, closed_at r part p /\ length p = n /\ P p.

Lemma evidence_impl part n (P Q : list Z -> Prop) r :
  (forall p, P p -> Q p) -> evidence part n P r -> evidence part n Q r.
Proof. intros Himp [?|(p & ? & ? & ?)]; [by left|right]. exists p. auto. Qed.

Lemma no_evidence_not_closed r part p : no_evidence r -> ~ closed_at r part p.
Proof. unfold no_evidence, closed_at, carries. intros Hn [Hp _]. by rewrite Hp in Hn. Qed.

Lemma closed_at_inj r part p q : closed_at r part p -> closed_at r part q -> p = q.
Proof.
  intros [_ Hp] [_ Hq]. rewrite Hp in Hq. injection Hq as Hq. clear -Hq. revert q Hq.
  induction p as [|x p IH]; intros [|y q]; simpl; try done. intros [= -> Hq]. f_equal. by apply IH.
Qed.

Lemma exact_ints p : forallb is_exact_int (map VInt p) = true.
Proof. by induction p. Qed.

Lemma zs_lt_le p q : zs_cmp p q = Lt -> zs_leb p q = true.
Proof. intros ?. apply zs_leb_cases. by left. Qed.

Lemma zs_le_lt_trans p q s : zs_leb p q = true -> zs_cmp q s = Lt -> zs_cmp p s = Lt.
Proof. rewrite zs_leb_cases. intros [?| ->] ?; [|done]. by eapply zs_cmp_Lt_trans. Qed.

(** The state of the loop of [_latest_closed_row]: the latest of the rows read so far. *)
Definition latest_of (part : string) (rows : list row) (latest : option latest_closed) : Prop :=
  match latest with
  | None => Forall no_evidence rows
  | Some (r, (part', values)) =>
    part' = part /\ r ∈ rows /\ exists p, values = map VInt p /\ closed_at r part p /\
      Forall (evidence part (length p) (fun q => zs_leb q p = true)) rows
  end.

Section evidence.
Context (part : string) (n : nat) (Hpart : part <> "") (Hn : (0 < n)%nat).
#[local] Open Scope nat_scope.

Lemma closed_step_latest rows latest r :
  evidence part n (fun _ => True) r -> latest_of part rows latest ->
  (forall p l, latest = Some l -> l.2.2 = map VInt p -> length p = n) ->
  exists latest', closed_step latest r = Ok latest' /\ latest_of part (rows ++ [r]) latest' /\
    (forall p l, latest' = Some l -> l.2.2 = map VInt p -> length p = n).
Proof using Hpart Hn.
  assert (forall p q, map VInt p = map VInt q -> p = q) as Hinj.
  { intros p. induction p as [|x p IH]; intros [|y q]; simpl; try done. intros [= -> Hq]. f_equal. auto. }
  intros Hev Hlat Hlen. unfold closed_step. destruct Hev as [Hno|(p & Hcl & Hp & _)].
  { unfold no_evidence in Hno. rewrite Hno. exists latest. split; [done|]. split; [|done].
    destruct latest as [[l [pp vs]]|]; cbn [latest_of] in *.
    - destruct Hlat as (-> & Hin & q & -> & Hq & Hall). split; [done|]. split; [apply elem_of_app; by left|].
      exists q. split_and!; try done. apply Forall_app. split; [done|]. apply Forall_singleton. by left.
    - apply Forall_app. split; [done|]. by apply Forall_singleton. }
  destruct (is_none _ && is_none _) eqn:Hno; [by apply no_evidence_not_closed in Hcl|].
  pose proof Hcl as [Hcp Hcv]. rewrite Hcp, Hcv. destruct (nonempty part) eqn:Ene; [|by destruct part]. cbn [negb].
  assert (map VInt p <> []) as Hne by (intros ?%map_eq_nil; subst p; simpl in Hp; lia).
  rewrite (bool_decide_false _ Hne), exact_ints. cbn [orb negb].
  assert (Hself : evidence part n (fun q => zs_leb q p = true) r).
  { right. exists p. split_and!; [done|done|apply zs_leb_refl]. }
  destruct latest as [[l [pp vs]]|].
  - destruct Hlat as (-> & Hin & q & -> & Hq & Hall). rewrite String.eqb_refl. cbn [negb].
    pose proof (Hlen q _ eq_refl eq_refl) as Hlq.
    assert (compare_source_order (map VInt p) (map VInt q) =
      Ok (match zs_cmp p q with Lt => SO_STALE | Eq => SO_EQUAL | Gt => SO_NEWER end)) as ->
      by (apply compare_source_order_intro; [done|by rewrite !length_map, Hp, Hlq|apply tuple_cmp_ints]).
    cbn [except mbind res_bind]. destruct (zs_cmp p q) eqn:Ec; case_bool_decide as Hb; try discriminate Hb;
      try (exfalso; by apply Hb).
    + eexists. split; [done|]. split; [|done]. cbn [latest_of]. split; [done|]. split; [apply elem_of_app; by left|].
      exists q. split_and!; try done. apply Forall_app. split; [done|]. apply Forall_singleton.
      rewrite Hlq. apply zs_cmp_Eq in Ec as ->. eapply evidence_impl; [|exact Hself]. done.
    + eexists. split; [done|]. split; [|done]. cbn [latest_of]. split; [done|]. split; [apply elem_of_app; by left|].
      exists q. split_and!; try done. apply Forall_app. split; [done|]. apply Forall_singleton.
      rewrite Hlq. eapply evidence_impl; [|exact Hself]. intros s Hs. eapply zs_leb_trans; [exact Hs|by apply zs_lt_le].
    + eexists. split; [done|]. split.
      * cbn [latest_of]. split; [done|]. split; [apply elem_of_app; right; by apply list_elem_of_singleton|]. exists p.
        split_and!; [done|done|]. rewrite Hp. apply Forall_app. split; [|by apply Forall_singleton].
        rewrite Hlq in Hall. eapply Forall_impl; [exact Hall|]. intros x. apply evidence_impl. intros s Hs.
        eapply zs_leb_trans; [exact Hs|]. apply zs_lt_le. by rewrite zs_cmp_antisym, Ec.
      * intros p' l' [= <-]. simpl. by intros <-%Hinj.
  - eexists. split; [done|]. split.
    + cbn [latest_of]. split; [done|]. split; [apply elem_of_app; right; by apply list_elem_of_singleton|]. exists p.
      split_and!; [done|done|]. rewrite Hp. apply Forall_app. split; [|by apply Forall_singleton].
      eapply Forall_impl; [exact Hlat|]. intros x Hx. by left.
    + intros p' l' [= <-]. simpl. by intros <-%Hinj.
Qed.

(** The latest closed row has the greatest position of the evidence. *)
Lemma latest_closed_row_Ok history :
  Forall (evidence part n (fun _ => True)) history ->
  exists closed, _latest_closed_row history = Ok closed /\
    match closed with
    | None => Forall no_evidence history
    | Some r => r ∈ history /\ exists p, closed_at r part p /\ length p = n /\
                  Forall (evidence part n (fun q => zs_leb q p = true)) history
    end.
Proof using Hpart Hn.
  intros Hall. unfold _latest_closed_row.
  assert (forall rest done latest, Forall (evidence part n (fun _ => True)) rest -> latest_of part done latest ->
    (forall p l, latest = Some l -> l.2.2 = map VInt p -> length p = n) ->
    exists latest', foldM closed_step latest rest = Ok latest' /\ latest_of part (done ++ rest) latest' /\
      (forall p l, latest' = Some l -> l.2.2 = map VInt p -> length p = n)) as Hloop.
  { induction rest as [|r rest IH]; intros done latest Hrest Hlat Hlen.
    - exists latest. by rewrite app_nil_r.
    - apply Forall_cons in Hrest as [Hr Hrest].
      destruct (closed_step_latest _ _ _ Hr Hlat Hlen) as (l1 & Hs & Hlat1 & Hlen1).
      destruct (IH _ _ Hrest Hlat1 Hlen1) as (l2 & Hf & Hlat2 & Hlen2). exists l2.
      rewrite <-app_assoc in Hlat2. cbn [foldM]. by rewrite Hs. }
  destruct (Hloop history [] None Hall) as (latest & Hf & Hlat & Hlen); [constructor|done|].
  rewrite Hf. cbn [mbind res_bind]. eexists. split; [done|]. destruct latest as [[r [pp vs]]|]; [|done].
  destruct Hlat as (-> & Hin & p & -> & Hp & Hrest). split; [done|]. exists p.
  rewrite <-(Hlen p _ eq_refl eq_refl) in *. done.
Qed.
End evidence.

(** ** What an event does *)

Section effects.
Context `{PyRuntime} `{ScalarText}.
Context (bk tc : list string) (id : string) (lower : option CDCCheckpoint).
Implicit Types (e : CDCEvent) (cur new r : row) (rows : list row) (key : list value) (t : datetime).

(** The row describes the payload of the event. *)
Definition describes cur e key : Prop :=
  ev_operation e <> CDC_DELETE /\
  exists after h v, ev_after e = Some after /\ hash_tracked_attributes (set_key bk key after) tc = Ok h /\
    current_hash cur tc = Ok v /\ py_eqb v (VStr h) = true.

(** The row is the version an INSERT or UPDATE event opens. *)
Definition opens new e key t : Prop :=
  ev_operation e <> CDC_DELETE /\
  exists after h, ev_after e = Some after /\ hash_tracked_attributes (set_key bk key after) tc = Ok h /\
    new = new_history_row (set_key bk key after) t h id (ev_position e).

(** The version may be closed at [t]: it starts at a time that is not after [t]. *)
Definition may_close cur t : Prop :=
  exists from relation, as_datetime (get cur VALID_FROM) = Some from /\
    compare_event_time (Some t) (Some from) = Ok relation /\ relation <> ET_EARLIER.

Lemma close_current_Ok cur t pos c : _close_current cur t pos = Ok c -> c = closed_row cur t pos /\ may_close cur t.
Proof using Type.
  unfold _close_current, may_close. destruct (as_datetime _) as [from|]; [|done].
  intros (rel & Hrel & Hc)%bind_Ok. case_bool_decide; [done|]. injection Hc as <-. split; [done|].
  exists from, rel. split; [done|]. split; [|done]. unfold except in Hrel. destruct (compare_event_time _ _); [done|].
  by destruct (bool_decide _).
Qed.

(** The change of an event whose ordering is known. *)
Lemma change_edit_Ok key t current ordering closed e edit :
  change_edit bk tc id key t current ordering closed e = Ok edit ->
  match current, edit with
  | Some cur, HE_no_change => ordering = Some 0 /\ describes cur e key
  | Some cur, HE_reposition r => ordering <> Some 0 /\ describes cur e key /\ r = at_position cur (ev_position e)
  | Some cur, HE_close r =>
    ordering <> Some 0 /\ ev_operation e = CDC_DELETE /\ may_close cur t /\ r = closed_row cur t (ev_position e)
  | Some cur, HE_update r new =>
    ordering <> Some 0 /\ may_close cur t /\ r = closed_row cur t (ev_position e) /\ opens new e key t
  | None, HE_missing_delete => ev_operation e = CDC_DELETE
  | None, HE_insert new => opens new e key t /\ _assert_reinsert_valid_time t closed = Ok tt
  | _, _ => False
  end.
Proof using Type.
  unfold change_edit. case_bool_decide as Hop.
  - destruct current as [cur|]; [|by intros [= <-]]. case_bool_decide; [done|].
    by intros (c & [-> Hc]%close_current_Ok & [= <-])%bind_Ok.
  - destruct (ev_after e) as [after|] eqn:Ea; [|done]. intros (h & Hh & Hm)%bind_Ok.
    assert (opens (new_history_row (set_key bk key after) t h id (ev_position e)) e key t) as Hopen
      by (split; [done|by exists after, h]).
    destruct current as [cur|].
    + apply bind_Ok in Hm as (v & Hv & Hm). case_bool_decide as Ho.
      * destruct (py_eqb v _) eqn:Ev; [|done]. injection Hm as <-. split; [done|]. split; [done|]. by exists after, h, v.
      * destruct (py_eqb v _) eqn:Ev.
        -- injection Hm as <-. split; [done|]. split; [|done]. split; [done|]. by exists after, h, v.
        -- by apply bind_Ok in Hm as (c & [-> Hc]%close_current_Ok & [= <-]).
    + apply bind_Ok in Hm as ([] & Hr & [= <-]). done.
Qed.

Lemma history_effect_Ok rows key t current e edit :
  history_effect bk tc id lower rows key t current e = Ok edit ->
  match current with
  | Some cur => exists o, _assert_event_newer_than_target cur (ev_position e) lower = Ok o /\
    match edit with
    | HE_stale => o < 0
    | HE_no_change => o = 0 /\ describes cur e key
    | HE_reposition r => 0 < o /\ describes cur e key /\ r = at_position cur (ev_position e)
    | HE_close r => 0 < o /\ ev_operation e = CDC_DELETE /\ may_close cur t /\ r = closed_row cur t (ev_position e)
    | HE_update r new => 0 < o /\ may_close cur t /\ r = closed_row cur t (ev_position e) /\ opens new e key t
    | _ => False
    end
  | None => exists o closed, _ordering_when_current_absent rows key bk (ev_position e) lower = Ok (o, closed) /\
    match edit with
    | HE_stale => exists z, o = Some z /\ z <= 0
    | HE_missing_delete => ev_operation e = CDC_DELETE /\ (o = None \/ exists z, o = Some z /\ 0 < z)
    | HE_insert new => opens new e key t /\ (o = None \/ exists z, o = Some z /\ 0 < z) /\
        _assert_reinsert_valid_time t closed = Ok tt
    | _ => False
    end
  end.
Proof using Type.
  unfold history_effect. destruct current as [cur|].
  - intros (o & Ho & Hc)%bind_Ok. exists o. split; [done|]. destruct (o <? 0) eqn:Elt.
    + injection Hc as <-. by apply Z.ltb_lt.
    + apply Z.ltb_ge in Elt. apply change_edit_Ok in Hc.
      assert (Some o <> Some 0 -> 0 < o) as Hpos by (intros Hne; assert (o <> 0) by congruence; lia).
      destruct edit; try done; try (destruct Hc as [[= ->] ?]; done);
        destruct Hc as [?%Hpos ?]; done.
  - intros ([o closed] & Ho & Hc)%bind_Ok. exists o, closed. split; [done|]. cbn [fst snd] in Hc.
    destruct o as [z|].
    + destruct (z <=? 0) eqn:Ele.
      * injection Hc as <-. exists z. split; [done|]. by apply Z.leb_le.
      * apply Z.leb_gt in Ele. apply change_edit_Ok in Hc. destruct edit; try done.
        -- split; [done|]. right. by exists z.
        -- destruct Hc as [??]. split; [done|]. split; [|done]. right. by exists z.
    + apply change_edit_Ok in Hc. destruct edit; try done.
      * split; [done|]. by left.
      * destruct Hc as [??]. split; [done|]. split; [by left|done].
Qed.

(** The place of the current row of a key. *)
Lemma current_at rows key o :
  _current_index rows key bk = Ok o ->
  dget (currents bk rows) key = o ≫= (fun i => rows !! i) /\
  match o with
  | Some i => exists pre cur post k, rows = pre ++ cur :: post /\ length pre = i /\ is_current cur = true /\
      Scd2._key cur bk = Ok k /\ keq k key = true /\ rows !! i = Some cur
  | None => True
  end.
Proof using Type.
  intros Ho%current_index_Ok. destruct o as [i|]; [|by apply current_index_None in Ho].
  destruct (current_index_Some _ _ _ _ Ho) as (pre & cur & post & k & -> & Hl & Hc & Hk & Hkk & Hpre).
  assert ((pre ++ cur :: post) !! i = Some cur) as Hlook
    by (rewrite lookup_app_r, Hl by lia; by rewrite <-Hl, Nat.sub_diag).
  cbn [mbind option_bind]. rewrite Hlook. split.
  - by rewrite currents_app, currents_cons, dget_app, Hpre, (currents_one _ _ _ Hc Hk); simpl; rewrite Hkk.
  - exists pre, cur, post, k. done.
Qed.

Lemma step_inv s e s' :
  cdc_scd2_step bk tc id lower s e = Ok s' ->
  exists key t o edit, _event_key (ev_key e) bk = Ok key /\ ev_event_time e = Some t /\
    _current_index (css_rows s) key bk = Ok o /\
    history_effect bk tc id lower (css_rows s) key t (dget (currents bk (css_rows s)) key) e = Ok edit /\
    s' = apply_edit s o edit.
Proof using Type.
  unfold cdc_scd2_step. intros (key & Hk & (t & Ht & (o & Ho & (edit & He & [= <-])%bind_Ok)%bind_Ok)%bind_Ok)%bind_Ok.
  unfold _event_time in Ht. destruct (ev_event_time e) as [t'|]; [|done]. injection Ht as ->.
  destruct (current_at _ _ _ Ho) as [Hd _]. rewrite <-Hd in He. by exists key, t, o, edit.
Qed.
End effects.

(** ** Editing the rows *)

(** The row has a key that equals [key]. *)
Definition of_key (bk : list string) (key : list value) (r : row) : Prop :=
  exists k, Scd2._key r bk = Ok k /\ keq k key = true.

Definition keyed (bk : list string) (rows : list row) : Prop :=
  Forall (fun r => is_ok (Scd2._key r bk) = true) rows.

Lemma of_key_compat bk k1 k2 r : keq k1 k2 = true -> of_key bk k1 r -> of_key bk k2 r.
Proof. intros Hk (k & ? & Hkk). exists k. split; [done|]. by apply (keq_trans k k1 k2). Qed.

Lemma of_key_unique bk k1 k2 r : of_key bk k1 r -> of_key bk k2 r -> keq k1 k2 = true.
Proof.
  intros (k & Hk & H1) (k' & Hk' & H2). rewrite Hk in Hk'. injection Hk' as <-.
  apply (keq_trans k1 k k2); [|done]. by rewrite keq_sym.
Qed.

(** The place of the current row of a key. *)
Record current_split (bk : list string) (key : list value) (rows pre : list row) (cur : row)
    (post : list row) : Prop := {
  cs_rows : rows = pre ++ cur :: post;
  cs_current : is_current cur = true;
  cs_key : of_key bk key cur;
  cs_get : dget (currents bk rows) key = Some cur
}.

Section editing.
Context (bk : list string).
Implicit Types (r cur new : row) (rows pre post : list row) (key : list value).

(** Keys other than [key] see the same rows. *)
Definition elsewhere key rows rows' : Prop :=
  forall k, keq key k = false ->
    dget (currents bk rows') k = dget (currents bk rows) k /\
    forall r, of_key bk k r -> (r ∈ rows' <-> r ∈ rows).

Lemma elsewhere_trans key rows1 rows2 rows3 :
  elsewhere key rows1 rows2 -> elsewhere key rows2 rows3 -> elsewhere key rows1 rows3.
Proof using Type.
  intros H1 H2 k Hk. destruct (H1 k Hk) as [Hd1 Hr1], (H2 k Hk) as [Hd2 Hr2]. split; [by rewrite Hd2|].
  intros r Hr. by rewrite Hr2, Hr1.
Qed.

(** Replacing the current row of a key by a row of the same key. *)
Lemma replace_current key rows pre cur post r' :
  one_current bk rows -> current_split bk key rows pre cur post -> Scd2._key r' bk = Scd2._key cur bk ->
  one_current bk (pre ++ r' :: post) /\
  dget (currents bk (pre ++ r' :: post)) key = (if is_current r' then Some r' else None) /\
  length (currents bk rows) = (length (currents bk (pre ++ r' :: post)) + (if is_current r' then 0 else 1))%nat /\
  elsewhere key rows (pre ++ r' :: post).
Proof using Type.
  intros [Hall Hwf] [-> Hcur (k & Hk & Hkk) _] Hk'. rewrite Hk in Hk'.
  assert (currents bk (pre ++ cur :: post) = currents bk pre ++ (k, cur) :: currents bk post) as Hold
    by (by rewrite currents_app, currents_cons, (currents_one _ _ _ Hcur Hk)).
  assert (currents bk (pre ++ r' :: post) =
          currents bk pre ++ (if is_current r' then [(k, r')] else []) ++ currents bk post) as Hnew.
  { rewrite currents_app, currents_cons. destruct (is_current r') eqn:Er; [by rewrite (currents_one _ _ _ Er Hk')|].
    by rewrite (currents_not _ _ Er). }
  rewrite Hold in Hwf. destruct (dwf_remove _ _ _ _ _ Hwf (keq_refl k)) as [Hwf' Hnone].
  destruct (dwf_remove _ _ _ _ _ Hwf Hkk) as [_ Hnone'].
  assert (forall kk, keq key kk = false -> keq k kk = false) as Hne.
  { intros kk Hf. destruct (keq k kk) eqn:E; [|done]. rewrite (keq_trans key k kk) in Hf; [done| |done].
    by rewrite keq_sym. }
  split; [split|split; [|split]].
  - apply Forall_app in Hall as [Hpre [_ Hpost]%Forall_cons]. apply Forall_app. split; [done|].
    apply Forall_cons. by rewrite Hk'.
  - rewrite Hnew. destruct (is_current r'); [|done].
    assert (currents bk pre ++ [(k, r')] ++ currents bk post ≡ₚ (k, r') :: currents bk pre ++ currents bk post) as Hp
      by (simpl; symmetry; apply Permutation_middle).
    apply (dwf_perm _ _ (symmetry Hp)). by split.
  - rewrite Hnew, dget_app. rewrite dget_app in Hnone'. destruct (dget (currents bk pre) key); [done|].
    destruct (is_current r'); simpl; [by rewrite Hkk|done].
  - rewrite Hold, Hnew, !length_app. simpl. destruct (is_current r'); simpl; lia.
  - intros kk Hf. specialize (Hne kk Hf). split.
    + rewrite Hold, Hnew, !dget_app. destruct (is_current r'); simpl; by rewrite ?Hne.
    + intros x (kx & Hkx & Hxk). rewrite !elem_of_app, !elem_of_cons.
      assert (x <> cur) by (intros ->; rewrite Hk in Hkx; injection Hkx as <-; congruence).
      assert (x <> r') by (intros ->; rewrite Hk' in Hkx; injection Hkx as <-; congruence). tauto.
Qed.

(** Appending a current row for a key that has none. *)
Lemma append_current key rows new :
  one_current bk rows -> dget (currents bk rows) key = None -> is_current new = true ->
  Scd2._key new bk = Ok key ->
  one_current bk (rows ++ [new]) /\ dget (currents bk (rows ++ [new])) key = Some new /\
  length (currents bk (rows ++ [new])) = S (length (currents bk rows)) /\
  elsewhere key rows (rows ++ [new]).
Proof using Type.
  intros [Hall Hwf] Hnone Hcur Hk.
  assert (currents bk (rows ++ [new]) = currents bk rows ++ [(key, new)]) as Hnew
    by (by rewrite currents_app, (currents_one _ _ _ Hcur Hk)).
  split; [split|split; [|split]].
  - apply Forall_app. split; [done|]. apply Forall_singleton. by rewrite Hk.
  - rewrite Hnew. by apply dwf_app_one.
  - rewrite Hnew, dget_app, Hnone. simpl. by rewrite keq_refl.
  - rewrite Hnew, length_app. simpl. lia.
  - intros kk Hf. split.
    + rewrite Hnew, dget_app. simpl. rewrite Hf. by destruct (dget (currents bk rows) kk).
    + intros x (kx & Hkx & Hxk). rewrite elem_of_app, list_elem_of_singleton.
      assert (x <> new) by (intros ->; rewrite Hk in Hkx; injection Hkx as <-; congruence). tauto.
Qed.
End editing.

(** ** One event *)

Section steps.
Context `{PyRuntime} `{ScalarText}.
Context (bk tc : list string) (id : string) (lower : option CDCCheckpoint).
Implicit Types (e : CDCEvent) (cur new r : row) (rows pre post : list row) (key : list value) (t : datetime).

(** The rows after an event that changes them, with the versions inserted, updated and deleted. *)
Inductive edited key e t rows : nat -> nat -> nat -> list row -> Prop :=
| edited_insert new :
    dget (currents bk rows) key = None -> opens bk tc id new e key t -> edited key e t rows 1 0 0 (rows ++ [new])
| edited_reposition pre cur post :
    current_split bk key rows pre cur post -> describes bk tc cur e key ->
    edited key e t rows 0 0 0 (pre ++ at_position cur (ev_position e) :: post)
| edited_close pre cur post :
    current_split bk key rows pre cur post -> ev_operation e = CDC_DELETE -> may_close cur t ->
    edited key e t rows 0 0 1 (pre ++ closed_row cur t (ev_position e) :: post)
| edited_update pre cur post new :
    current_split bk key rows pre cur post -> may_close cur t -> opens bk tc id new e key t ->
    edited key e t rows 0 1 0 ((pre ++ closed_row cur t (ev_position e) :: post) ++ [new]).

Lemma step_edited s e s' :
  cdc_scd2_step bk tc id lower s e = Ok s' ->
  exists key t edit i u d, _event_key (ev_key e) bk = Ok key /\ ev_event_time e = Some t /\
    history_effect bk tc id lower (css_rows s) key t (dget (currents bk (css_rows s)) key) e = Ok edit /\
    css_inserted s' = (css_inserted s + i)%nat /\ css_updated s' = (css_updated s + u)%nat /\
    css_deleted s' = (css_deleted s + d)%nat /\
    match edit with
    | HE_stale | HE_missing_delete | HE_no_change => css_rows s' = css_rows s /\ i = 0%nat /\ u = 0%nat /\ d = 0%nat
    | _ => edited key e t (css_rows s) i u d (css_rows s')
    end.
Proof using Type.
  intros (key & t & o & edit & Hk & Ht & Ho & He & ->)%step_inv. destruct (current_at _ _ _ _ Ho) as [Hget Hsplit].
  exists key, t, edit.
  cut (exists i u d, css_inserted (apply_edit s o edit) = (css_inserted s + i)%nat /\
    css_updated (apply_edit s o edit) = (css_updated s + u)%nat /\
    css_deleted (apply_edit s o edit) = (css_deleted s + d)%nat /\
    match edit with
    | HE_stale | HE_missing_delete | HE_no_change =>
      css_rows (apply_edit s o edit) = css_rows s /\ i = 0%nat /\ u = 0%nat /\ d = 0%nat
    | _ => edited key e t (css_rows s) i u d (css_rows (apply_edit s o edit))
    end); [intros (i & u & d & ?); exists i, u, d; tauto|].
  apply history_effect_Ok in He. rewrite Hget in He.
  destruct o as [i|]; cbn [mbind option_bind] in He, Hget.
  - destruct Hsplit as (pre & cur & post & k & Hrows & Hl & Hcur & Hck & Hkk & Hlook).
    rewrite Hlook in He, Hget. destruct He as (z & _ & He).
    assert (current_split bk key (css_rows s) pre cur post) as Hs by (split; [done|done|by exists k|done]).
    assert (forall r, <[i:=r]> (css_rows s) = pre ++ r :: post) as Hset
      by (intros r; rewrite Hrows, insert_app_r_alt by lia; by rewrite Hl, Nat.sub_diag).
    destruct edit; try done; simpl; rewrite ?Hset.
    + exists 0%nat, 0%nat, 0%nat. split_and!; (done || lia).
    + exists 0%nat, 0%nat, 0%nat. split_and!; (done || lia).
    + destruct He as (_ & Hd & ->). exists 0%nat, 0%nat, 0%nat. split_and!; [lia..|]. by apply edited_reposition.
    + destruct He as (_ & Hop & Hc & ->). exists 0%nat, 0%nat, 1%nat. split_and!; [lia..|]. by apply edited_close.
    + destruct He as (_ & Hc & -> & Hopen). exists 0%nat, 1%nat, 0%nat. split_and!; [lia..|].
      by apply edited_update.
  - destruct He as (z & closed & _ & He). destruct edit; try done; simpl.
    + exists 0%nat, 0%nat, 0%nat. split_and!; (done || lia).
    + exists 0%nat, 0%nat, 0%nat. split_and!; (done || lia).
    + destruct He as (Hopen & _). exists 1%nat, 0%nat, 0%nat. split_and!; [lia..|]. by apply edited_insert.
Qed.

Context (Hplain : plain_history_key bk).

Lemma opens_facts new e key t ek :
  opens bk tc id new e key t -> _event_key ek bk = Ok key ->
  is_current new = true /\ Scd2._key new bk = Ok key /\ get new VALID_FROM = VDt t /\ describes bk tc new e key /\
  carries new CDC_PARTITION CDC_POSITION (sp_partition (ev_position e)) (sp_values (ev_position e)).
Proof using Hplain.
  intros (Hop & after & h & Ha & Hh & ->) Hek.
  destruct (new_row_facts (set_key bk key after) t h id (ev_position e) tc bk Hplain) as (Hc & Hk & Hhash & Hf).
  split; [done|]. split; [by rewrite Hk; eapply key_of_event|]. split; [done|]. split.
  - split; [done|]. exists after, h, (VStr h). by rewrite py_eqb_refl.
  - apply carries_at_position.
Qed.

Lemma edited_rows key e t rows i u d rows' ek :
  _event_key ek bk = Ok key -> one_current bk rows -> edited key e t rows i u d rows' ->
  one_current bk rows' /\ (keyed bk rows -> keyed bk rows') /\ elsewhere bk key rows rows' /\
  length rows' = (length rows + i + u)%nat /\
  (length (currents bk rows') + d = length (currents bk rows) + i)%nat.
Proof using Hplain.
  intros Hek Hone [new Hnone Hopen|pre cur post Hs Hd|pre cur post Hs Hop Hc|pre cur post new Hs Hc Hopen].
  - destruct (opens_facts _ _ _ _ _ Hopen Hek) as (Hcn & Hkn & _).
    destruct (append_current bk key rows new Hone Hnone Hcn Hkn) as (Hone' & _ & Hlen & Hel).
    split; [done|]. split; [|split; [done|rewrite length_app; simpl; lia]].
    intros Hall. apply Forall_app. split; [done|]. apply Forall_singleton. by rewrite Hkn.
  - destruct (replace_current bk key rows pre cur post (at_position cur (ev_position e)) Hone Hs) as (Hone' & _ & Hlen & Hel);
      [by apply key_at_position|]. rewrite at_position_current, (cs_current _ _ _ _ _ _ Hs) in Hlen.
    destruct Hs as [-> _ _ _]. split; [done|]. split; [|split; [done|rewrite !length_app; simpl; lia]].
    unfold keyed. rewrite !Forall_app, !Forall_cons. by rewrite key_at_position.
  - destruct (replace_current bk key rows pre cur post (closed_row cur t (ev_position e)) Hone Hs) as (Hone' & _ & Hlen & Hel);
      [by apply key_closed_row|]. rewrite closed_row_not_current in Hlen.
    destruct Hs as [-> _ _ _]. split; [done|]. split; [|split; [done|rewrite !length_app; simpl; lia]].
    unfold keyed. rewrite !Forall_app, !Forall_cons. by rewrite key_closed_row.
  - destruct (opens_facts _ _ _ _ _ Hopen Hek) as (Hcn & Hkn & _).
    destruct (replace_current bk key rows pre cur post (closed_row cur t (ev_position e)) Hone Hs) as (Hone' & Hg & Hlen & Hel);
      [by apply key_closed_row|]. rewrite closed_row_not_current in Hlen, Hg.
    destruct (append_current bk key _ new Hone' Hg Hcn Hkn) as (Hone2 & _ & Hlen2 & Hel2).
    destruct Hs as [-> _ _ _]. split; [done|]. split; [|split; [by eapply elsewhere_trans|rewrite !length_app; simpl; lia]].
    unfold keyed. rewrite !Forall_app, !Forall_cons. rewrite key_closed_row by done. intros (? & ? & ?).
    split; [done|]. split; [by rewrite Hkn|done].
Qed.
End steps.

(** ** The history is preserved *)

(** The rows differ in the source position of the version only. *)
Definition same_version (r r' : row) : Prop :=
  forall c, c ∉ [CDC_PARTITION; CDC_POSITION] -> get r' c = get r c.

Lemma same_version_current r r' : same_version r r' -> is_current r' = is_current r.
Proof. intros Hs. unfold is_current. rewrite Hs; [done|set_solver]. Qed.

Lemma same_version_trans r1 r2 r3 : same_version r1 r2 -> same_version r2 r3 -> same_version r1 r3.
Proof. intros H1 H2 c Hc. by rewrite H2, H1. Qed.

Lemma same_version_at r pos : same_version r (at_position r pos).
Proof. intros c Hc. unfold at_position. rewrite !get_insert_ne; [done|..]; intros <-; set_solver. Qed.

(** The version [r] was closed into [r'] by one of the events, at its time and position. *)
Definition closed_by (bk : list string) (events : list CDCEvent) (r r' : row) : Prop :=
  exists e key t r0, e ∈ events /\ _event_key (ev_key e) bk = Ok key /\ ev_event_time e = Some t /\
    of_key bk key r0 /\ same_version r r0 /\ may_close r0 t /\ r' = closed_row r0 t (ev_position e).

(** What becomes of a row of the target. *)
Definition persists bk events (rows : list row) (r : row) : Prop :=
  if is_current r then exists r', r' ∈ rows /\ (same_version r r' \/ closed_by bk events r r') else r ∈ rows.

Lemma persists_perm bk events rows rows' r :
  rows ≡ₚ rows' -> persists bk events rows r -> persists bk events rows' r.
Proof.
  unfold persists. intros Hp. destruct (is_current r).
  - intros (r' & Hin & Hr'). exists r'. by rewrite <-Hp.
  - by rewrite Hp.
Qed.

Section history.
Context `{PyRuntime} `{ScalarText}.
Context (bk tc : list string) (id : string) (lower : option CDCCheckpoint) (Hplain : plain_history_key bk).
Implicit Types (s : cdc_scd2_state) (e : CDCEvent) (r : row) (rows : list row).

(** A row survives an edit, or it is the row that was edited. *)
Lemma edited_keeps key e t rows i u d rows' r :
  edited bk tc id key e t rows i u d rows' -> r ∈ rows ->
  r ∈ rows' \/ (is_current r = true /\ of_key bk key r /\
    (at_position r (ev_position e) ∈ rows' \/ (may_close r t /\ closed_row r t (ev_position e) ∈ rows'))).
Proof using Type.
  intros [new _ _|pre cur post [-> Hc Hk _] _|pre cur post [-> Hc Hk _] _ Hm|pre cur post new [-> Hc Hk _] Hm _] Hin.
  - left. apply elem_of_app. by left.
  - rewrite elem_of_app, elem_of_cons in Hin. destruct (decide (r = cur)) as [->|Hne].
    + right. split_and!; [done..|]. left. rewrite elem_of_app, elem_of_cons. auto.
    + left. rewrite elem_of_app, elem_of_cons. tauto.
  - rewrite elem_of_app, elem_of_cons in Hin. destruct (decide (r = cur)) as [->|Hne].
    + right. split_and!; [done..|]. right. rewrite elem_of_app, elem_of_cons. auto.
    + left. rewrite elem_of_app, elem_of_cons. tauto.
  - rewrite elem_of_app, elem_of_cons in Hin. destruct (decide (r = cur)) as [->|Hne].
    + right. split_and!; [done..|]. right. rewrite !elem_of_app, elem_of_cons. auto.
    + left. rewrite !elem_of_app, elem_of_cons. tauto.
Qed.

Record history_inv (E : list row) (processed : list CDCEvent) s : Prop := {
  hi_unique : one_current bk (css_rows s);
  hi_persists : Forall (persists bk processed (css_rows s)) E;
  hi_length : length (css_rows s) = (length E + css_inserted s + css_updated s)%nat;
  hi_currents : (length (currents bk (css_rows s)) + css_deleted s = length (currents bk E) + css_inserted s)%nat
}.

Lemma edited_persists key e t rows i u d rows' processed r :
  _event_key (ev_key e) bk = Ok key -> ev_event_time e = Some t ->
  edited bk tc id key e t rows i u d rows' -> persists bk processed rows r ->
  persists bk (processed ++ [e]) rows' r.
Proof using Type.
  intros Hk Ht Hed. pose proof (edited_keeps _ _ _ _ _ _ _ _ r Hed) as Hkeep. unfold persists.
  assert (e ∈ processed ++ [e]) as Hin by (rewrite elem_of_app, list_elem_of_singleton; by right).
  destruct (is_current r) eqn:Ec.
  - intros (r' & Hr' & [Hs|Hcl]).
    + destruct (edited_keeps _ _ _ _ _ _ _ _ r' Hed Hr') as [?|(_ & Hkey & [Ha|[Hm Ha]])].
      * exists r'. auto.
      * exists (at_position r' (ev_position e)). split; [done|]. left.
        eapply same_version_trans; [exact Hs|apply same_version_at].
      * exists (closed_row r' t (ev_position e)). split; [done|]. right. by exists e, key, t, r'.
    + exists r'. assert (is_current r' = false) as Hnc.
      { destruct Hcl as (?&?&?&?&?&?&?&?&?&?&->). apply closed_row_not_current. }
      destruct (edited_keeps _ _ _ _ _ _ _ _ r' Hed Hr') as [?|(Hc & _)]; [|congruence].
      split; [done|]. right. destruct Hcl as (e' & k' & t' & r0 & ? & ?). exists e', k', t', r0.
      rewrite elem_of_app. auto.
  - intros Hr. destruct (Hkeep Hr) as [?|[? _]]; [done|congruence].
Qed.

Lemma persists_more events e rows r : persists bk events rows r -> persists bk (events ++ [e]) rows r.
Proof using Type.
  unfold persists. destruct (is_current r); [|done]. intros (r' & ? & [?|(e' & k' & t' & r0 & ? & ?)]).
  - exists r'. auto.
  - exists r'. split; [done|]. right. exists e', k', t', r0. rewrite elem_of_app. auto.
Qed.

Lemma persists_refl events rows r : r ∈ rows -> persists bk events rows r.
Proof using Type. unfold persists. intros ?. destruct (is_current r); [|done]. exists r. split; [done|]. left. by intros c. Qed.

Lemma cdc_scd2_loop E events s :
  one_current bk E ->
  foldM (cdc_scd2_step bk tc id lower)
    {| css_rows := E; css_inserted := 0; css_updated := 0; css_deleted := 0;
       css_stale := 0; css_no_change := 0; css_missing := 0 |} events = Ok s ->
  history_inv E events s.
Proof using Hplain.
  intros Hone Hf. refine (foldM_ind _ (history_inv E) _ _ _ Hf _ _).
  - split; simpl; try lia; try done. apply Forall_forall. intros r. apply persists_refl.
  - intros done e s1 s2 _ [Hu Hp Hl Hc] (key & t & edit & i & u & d & Hk & Ht & _ & Hi & Hup & Hd & Hrows)%step_edited.
    assert (css_rows s2 = css_rows s1 /\ i = 0%nat /\ u = 0%nat /\ d = 0%nat \/
      edited bk tc id key e t (css_rows s1) i u d (css_rows s2)) as [(Hr & -> & -> & ->)|Hed]
      by (destruct edit; auto).
    + split; rewrite ?Hr, ?Hi, ?Hup, ?Hd; try done; try lia.
      eapply Forall_impl; [exact Hp|]. intros r. apply persists_more.
    + destruct (edited_rows _ _ _ Hplain _ _ _ _ _ _ _ _ _ Hk Hu Hed) as (Hone' & _ & _ & Hlen & Hcur).
      split; [done| |lia|lia]. eapply Forall_impl; [exact Hp|]. intros r. by eapply edited_persists.
Qed.

Lemma apply_cdc_scd2_Ok E batch res :
  apply_cdc_scd2 E batch bk tc id = Ok res ->
  bk <> [] /\ unique bk = true /\ tc <> [] /\ unique tc = true /\ one_current bk E /\ exists s,
    foldM (cdc_scd2_step bk tc id (nb_lower_checkpoint batch))
      {| css_rows := E; css_inserted := 0; css_updated := 0; css_deleted := 0;
         css_stale := 0; css_no_change := 0; css_missing := 0 |} (nb_events batch) = Ok s /\
    sort_rows (history_sort_key bk) (css_rows s) = Ok (csr_rows res) /\
    csr_mutations res = {| mc_inserted := css_inserted s; mc_updated := css_updated s;
                           mc_deleted := css_deleted s |}.
Proof using Type.
  unfold apply_cdc_scd2. case_bool_decide; [done|]. destruct (unique bk); [|done]. cbn [orb negb].
  case_bool_decide; [done|]. destruct (unique tc); [|done]. cbn [orb negb].
  intros ([] & Hone%assert_one_current_iff & (s & Hs & ([] & _ & (rows & Hr & [= <-])%bind_Ok)%bind_Ok)%bind_Ok)%bind_Ok.
  split_and!; try done. by exists s.
Qed.
End history.

(** C11. Applying CDC keeps the history: a closed version survives unchanged; a current version
    survives, at most repositioned, or is closed at the time and position of an event of its
    key, never before its start; each key has at most one current version; an insert or update
    adds one version, and the current versions are those before, plus the inserts, minus the
    deletes. *)
Theorem cdc_scd2_history_preserved `{PyRuntime} `{ScalarText} E batch bk tc id res :
  apply_cdc_scd2 E batch bk tc id = Ok res -> plain_history_key bk ->
  Forall (persists bk (nb_events batch) (csr_rows res)) E /\
  one_current bk (csr_rows res) /\
  length (csr_rows res) = (length E + mc_inserted (csr_mutations res) + mc_updated (csr_mutations res))%nat /\
  (length (currents bk (csr_rows res)) + mc_deleted (csr_mutations res) =
    length (currents bk E) + mc_inserted (csr_mutations res))%nat.
Proof.
  intros (_ & _ & _ & _ & Hone & s & Hs & Hrows & ->)%apply_cdc_scd2_Ok Hplain.
  destruct (cdc_scd2_loop bk tc id _ Hplain _ _ _ Hone Hs) as [[Hk Hu] Hp Hl Hc].
  apply sort_rows_perm in Hrows as Hperm. pose proof (currents_perm bk _ _ Hperm) as Hcp. cbn [mc_inserted mc_updated mc_deleted].
  split; [|split; [|split]].
  - eapply Forall_impl; [exact Hp|]. intros r. apply persists_perm. by symmetry.
  - split; [by rewrite Hperm|]. eapply dwf_perm; [|exact Hu]. done.
  - by rewrite Hperm.
  - by rewrite Hcp.
Qed.

(** ** Replay *)

(** A validated event. *)
Definition valid_event (e : CDCEvent) : Prop :=
  validate_event e = Ok tt /\ validate_values (ev_position e) = Ok tt.

Lemma valid_position e :
  valid_event e -> sp_partition (ev_position e) <> "" /\ (0 < length (sp_values (ev_position e)))%nat.
Proof.
  intros [_ Hv]. unfold validate_values in Hv.
  destruct (nonempty (sp_partition (ev_position e))) eqn:Ep; [|done]. cbn [negb] in Hv.
  case_bool_decide as Hn; [done|]. split; [by intros Hs; rewrite Hs in Ep|].
  destruct (sp_values (ev_position e)); [done|]. simpl. lia.
Qed.

(** A validated payload has no column of the CDC framework. *)
Lemma valid_payload e after c :
  valid_event e -> ev_after e = Some after -> startswith c "_framework_cdc_" = true -> after !! c = None.
Proof.
  intros [He _] Ha Hc. unfold validate_event in He. rewrite Ha in He.
  destruct (negb (nonempty (ev_event_id e))); [done|]. destruct (_ || _) in He; [done|].
  destruct (match ev_event_time e with Some t => is_naive t | None => false end); [done|].
  destruct (_ && _) in He; [done|]. destruct (_ && _) in He; [done|].
  apply bind_Ok in He as (u & _ & He). unfold check_payload in He.
  destruct (existsb _ (map_to_list after)) eqn:Ex; [done|].
  destruct (after !! c) as [v|] eqn:Ev; [|done]. exfalso. apply not_true_iff_false in Ex. apply Ex.
  apply existsb_elem. exists (c, v). split; [by apply elem_of_map_to_list|done].
Qed.

Section replay.
Context `{PyRuntime} `{ScalarText}.
Context (bk tc : list string) (id : string) (lower : option CDCCheckpoint).
Context (Hplain : plain_history_key bk) (Htracked : plain_tracked tc).
Implicit Types (s : cdc_scd2_state) (e f : CDCEvent) (cur new r : row) (rows : list row) (key : list value).

#[local] Notation part e := (sp_partition (ev_position e)).
#[local] Notation vals e := (sp_values (ev_position e)).

(** The closed rows of a key carry positions of one partition for which [P] holds. *)
Definition closed_within rows key partition n (P : list Z -> Prop) : Prop :=
  forall r, r ∈ rows -> of_key bk key r -> evidence partition n P r.

(** The rows of a key come from the events of one partition: its current version, if it has a
    position, is not before the closes, and otherwise no version was closed by CDC. *)
Definition traced rows key partition n : Prop :=
  closed_within rows key partition n (fun _ => True) /\
  forall cur, dget (currents bk rows) key = Some cur ->
    (is_none (get cur CDC_PARTITION) && is_none (get cur CDC_POSITION) = true /\
     forall r, r ∈ rows -> of_key bk key r -> no_evidence r) \/
    exists p, carries cur CDC_PARTITION CDC_POSITION partition p /\ length p = n /\
      closed_within rows key partition n (fun q => zs_leb q p = true).

(** The rows already account for the event. *)
Definition settled rows e key : Prop :=
  (exists cur p, dget (currents bk rows) key = Some cur /\ carries cur CDC_PARTITION CDC_POSITION (part e) p /\
     length p = length (vals e) /\
     (zs_cmp (vals e) p = Lt \/ vals e = p /\ describes bk tc cur e key)) \/
  (dget (currents bk rows) key = None /\ closed_within rows key (part e) (length (vals e)) (fun _ => True) /\
   exists r p, r ∈ rows /\ of_key bk key r /\ closed_at r (part e) p /\ length p = length (vals e) /\
     (zs_leb (vals e) p = true \/ ev_operation e = CDC_DELETE)) \/
  (dget (currents bk rows) key = None /\ (forall r, r ∈ rows -> of_key bk key r -> no_evidence r) /\
   ev_operation e = CDC_DELETE /\
   ((forall r, r ∈ rows -> ~ of_key bk key r) \/
    exists o, 0 < o /\ _assert_event_newer_than_target ∅ (ev_position e) lower = Ok o)).

(** The rows of the key end with the event. *)
Definition topped rows e key : Prop :=
  closed_within rows key (part e) (length (vals e)) (fun q => zs_leb q (vals e) = true) /\
  ((exists cur, dget (currents bk rows) key = Some cur /\
      carries cur CDC_PARTITION CDC_POSITION (part e) (vals e) /\ describes bk tc cur e key) \/
   (dget (currents bk rows) key = None /\
    exists r, r ∈ rows /\ of_key bk key r /\ closed_at r (part e) (vals e))).

Lemma closed_within_impl rows key partition n (P Q : list Z -> Prop) :
  (forall p, P p -> Q p) -> closed_within rows key partition n P -> closed_within rows key partition n Q.
Proof using Type. intros Himp Hc r Hr Hk. eapply evidence_impl; [exact Himp|by apply Hc]. Qed.

Lemma topped_settled rows e key : topped rows e key -> settled rows e key.
Proof using Type.
  intros [Hc [(cur & Hg & Hcar & Hd)|(Hg & r & Hr & Hk & Hcl)]].
  - left. exists cur, (vals e). split_and!; auto.
  - right. left. split; [done|]. split; [by eapply closed_within_impl; [|exact Hc]|].
    exists r, (vals e). split_and!; try done. left. apply zs_leb_refl.
Qed.

Lemma topped_settles rows e f key : topped rows f key -> precedes e f -> settled rows e key.
Proof using Type.
  intros [Hc [(cur & Hg & Hcar & Hd)|(Hg & r & Hr & Hk & Hcl)]] (Hp & Ha & Hlt); unfold same_arity in Ha.
  - left. exists cur, (vals f). rewrite Hp. split_and!; auto.
  - right. left. rewrite Hp, Ha. split; [done|]. split; [by eapply closed_within_impl; [|exact Hc]|].
    exists r, (vals f). split_and!; try done. left. by apply zs_lt_le.
Qed.

Lemma topped_traced rows e key : topped rows e key -> traced rows key (part e) (length (vals e)).
Proof using Type.
  intros [Hc Hcur]. split; [by eapply closed_within_impl; [|exact Hc]|]. intros cur Hg. right.
  exists (vals e). destruct Hcur as [(cur' & Hg' & Hcar & _)|[Hg' _]]; [|congruence].
  rewrite Hg' in Hg. by injection Hg as ->.
Qed.

(** The ordering of an event of a key without current version. *)
Lemma history_of_key rows key :
  keyed bk rows -> exists h, _history_for_key rows key bk = Ok h /\
    forall r, r ∈ h <-> r ∈ rows /\ of_key bk key r.
Proof using Type.
  intros Hkeyed. unfold _history_for_key.
  set (f := fun r => k ← _business_key r bk; Ok (keq k key)).
  exists (filter (fun r => f r = Ok true) rows). split.
  - apply filterM_res_Ok. split; [|done]. eapply Forall_impl; [exact Hkeyed|]. intros r Hr. unfold f. simpl in Hr.
    destruct (Scd2._key r bk) as [k|] eqn:Ek; [|done]. apply business_key_Ok in Ek. by rewrite Ek.
  - intros r. rewrite list_elem_of_filter. unfold f, of_key. split.
    + intros [(k & Hk%business_key_Ok & [= Hkk])%bind_Ok Hin]. split; [done|by exists k].
    + intros [Hin (k & Hk%business_key_Ok & Hkk)]. split; [|done]. rewrite Hk. cbn [mbind res_bind]. by rewrite Hkk.
Qed.

Lemma absent_ordering rows e key :
  valid_event e -> keyed bk rows -> closed_within rows key (part e) (length (vals e)) (fun _ => True) ->
  (_ordering_when_current_absent rows key bk (ev_position e) lower = Ok (None, None) /\
   forall r, r ∈ rows -> ~ of_key bk key r) \/
  (_ordering_when_current_absent rows key bk (ev_position e) lower =
     (o ← _assert_event_newer_than_target ∅ (ev_position e) lower; Ok (Some o, None)) /\
   (exists r, r ∈ rows /\ of_key bk key r) /\
   forall r, r ∈ rows -> of_key bk key r -> no_evidence r) \/
  (exists r p, r ∈ rows /\ of_key bk key r /\ closed_at r (part e) p /\ length p = length (vals e) /\
     closed_within rows key (part e) (length (vals e)) (fun q => zs_leb q p = true) /\
     _ordering_when_current_absent rows key bk (ev_position e) lower =
       Ok (Some (match zs_cmp (vals e) p with Lt => -1 | Eq => 0 | Gt => 1 end), Some r)).
Proof using Type.
  intros [Hpart Hn]%valid_position Hkeyed Hcl. unfold _ordering_when_current_absent.
  destruct (history_of_key rows key Hkeyed) as (h & Hh & Hin). rewrite Hh. cbn [mbind res_bind].
  case_bool_decide as Hnil.
  { left. split; [done|]. intros r Hr Hk. assert (r ∈ h) as Hrh by (by apply Hin). rewrite Hnil in Hrh.
    by apply elem_of_nil in Hrh. }
  assert (Forall (evidence (part e) (length (vals e)) (fun _ => True)) h) as Hall.
  { apply Forall_forall. intros r [Hr Hk]%Hin. by apply Hcl. }
  destruct (latest_closed_row_Ok (part e) (length (vals e)) Hpart Hn h Hall) as (closed & -> & Hlat).
  cbn [mbind res_bind]. right. destruct closed as [r|].
  - right. destruct Hlat as ([Hr Hk]%Hin & p & Hat & Hp & Hle). exists r, p. split_and!; try done.
    + intros x Hx Hxk. rewrite Forall_forall in Hle. apply Hle, Hin. done.
    + assert (carries (synthetic (Some r)) CDC_PARTITION CDC_POSITION (part e) p) as Hcar by exact Hat.
      rewrite (ordering_carried _ _ _ _ lower Hcar); [done| |done..]. intros ->. simpl in Hp. lia.
  - left. split; [done|]. split.
    + destruct h as [|r h]; [done|]. exists r. apply Hin, elem_of_cons. by left.
    + intros r Hr Hk. rewrite Forall_forall in Hlat. apply Hlat, Hin. done.
Qed.

(** An event whose ordering leaves the rows as they are is accounted for by them; any other
    event comes after every close of its key. *)
Lemma effect_settles rows e key t edit :
  valid_event e -> keyed bk rows -> traced rows key (part e) (length (vals e)) ->
  history_effect bk tc id lower rows key t (dget (currents bk rows) key) e = Ok edit ->
  match edit with
  | HE_stale | HE_missing_delete | HE_no_change => settled rows e key
  | _ => closed_within rows key (part e) (length (vals e)) (fun q => zs_cmp q (vals e) = Lt)
  end.
Proof using Type.
  intros Hval Hkeyed [Hcl Hcur] He%history_effect_Ok. pose proof (valid_position e Hval) as [Hpart Hn].
  assert (forall (P : Prop) r, evidence (part e) (length (vals e)) (fun _ => True) r -> no_evidence r ->
    evidence (part e) (length (vals e)) (fun q => zs_cmp q (vals e) = Lt) r) as Hno by (intros; by left).
  destruct (dget (currents bk rows) key) as [cur|] eqn:Hg.
  - destruct He as (o & Ho & He). destruct (Hcur cur eq_refl) as [[Hnone Hnev]|(p & Hcar & Hp & Hle)].
    + assert (0 < o) as Hpos.
      { unfold _assert_event_newer_than_target in Ho. rewrite Hnone in Ho.
        destruct (lower ≫= _); [|done]. apply bind_Ok in Ho as (rel & _ & Ho). case_bool_decide; [|done].
        by injection Ho as <-. }
      destruct edit; try done; try lia; intros r Hr Hk; left; by apply Hnev.
    + assert (p <> []) as Hpne by (intros ->; simpl in Hp; lia).
      rewrite (ordering_carried _ _ _ _ lower Hcar Hpne) in Ho by done. injection Ho as <-.
      assert (0 < match zs_cmp (vals e) p with Lt => -1 | Eq => 0 | Gt => 1 end ->
        closed_within rows key (part e) (length (vals e)) (fun q => zs_cmp q (vals e) = Lt)) as Hafter.
      { intros Hlt. eapply closed_within_impl; [|exact Hle]. intros q Hq. eapply zs_le_lt_trans; [exact Hq|].
        rewrite zs_cmp_antisym. by destruct (zs_cmp (vals e) p). }
      destruct edit; try done; try (by apply Hafter, He).
      * left. exists cur, p. split_and!; try done. left. by destruct (zs_cmp (vals e) p).
      * left. exists cur, p. destruct He as [Hz Hd]. split_and!; try done. right. split; [|done].
        destruct (zs_cmp (vals e) p) eqn:Ez; try done. by apply zs_cmp_Eq.
  - destruct He as (o & closed & Ho & He).
    destruct (absent_ordering rows e key Hval Hkeyed Hcl) as
      [[Hab Hnokey]|[(Hab & Hex & Hnev)|(r & p & Hr & Hk & Hat & Hp & Hle & Hab)]]; rewrite Hab in Ho.
    + injection Ho as <- <-. destruct edit; try done.
      * by destruct He as (z & ? & _).
      * right. right. split_and!; try done; [|by apply He|by left].
        intros r Hr Hk. by destruct (Hnokey r Hr).
      * intros r Hr Hk. by destruct (Hnokey r Hr).
    + apply bind_Ok in Ho as (z & Hz & [= <- <-]). destruct edit; try done.
      * destruct He as (z' & [= <-] & Hle). exfalso. clear -Hz Hle. unfold _assert_event_newer_than_target in Hz. simpl in Hz.
        destruct (lower ≫= _); [|done]. apply bind_Ok in Hz as (rel & _ & Hz).
        case_bool_decide; [|done]. injection Hz as <-. lia.
      * destruct He as [Hop [|(z' & [= <-] & Hlt)]]; [done|]. right. right. split_and!; try done. right. by exists z.
      * intros r Hr Hk. left. by apply Hnev.
    + injection Ho as <- <-. destruct edit; try done.
      * right. left. destruct He as (z & [= <-] & Hz). split_and!; try done. exists r, p. split_and!; try done.
        left. apply zs_leb_cases. destruct (zs_cmp (vals e) p) eqn:Ez; [|by left|lia]. right. by apply zs_cmp_Eq.
      * right. left. destruct He as [Hop _]. split_and!; try done. exists r, p. split_and!; auto.
      * destruct He as (_ & [|(z & [= <-] & Hz)] & _); [done|].
        eapply closed_within_impl; [|exact Hle]. intros q Hq. eapply zs_le_lt_trans; [exact Hq|].
        rewrite zs_cmp_antisym. by destruct (zs_cmp (vals e) p).
Qed.

(** Running an event the rows account for changes nothing. *)
Lemma settled_absorbs s e key t :
  valid_event e -> one_current bk (css_rows s) -> keyed bk (css_rows s) ->
  _event_key (ev_key e) bk = Ok key -> ev_event_time e = Some t -> settled (css_rows s) e key ->
  exists s', cdc_scd2_step bk tc id lower s e = Ok s' /\ css_rows s' = css_rows s /\
    css_inserted s' = css_inserted s /\ css_updated s' = css_updated s /\ css_deleted s' = css_deleted s.
Proof using Type.
  intros Hval Hone Hkeyed Hk Ht Hset. pose proof (valid_position e Hval) as [Hpart Hn].
  destruct (current_index_exists (css_rows s) key bk Hone) as [o Ho]. destruct (current_at _ _ _ _ Ho) as [Hget _].
  assert (exists edit, history_effect bk tc id lower (css_rows s) key t (dget (currents bk (css_rows s)) key) e = Ok edit /\
    (edit = HE_stale \/ edit = HE_missing_delete \/ edit = HE_no_change)) as (edit & Hedit & Hkind).
  { unfold history_effect. destruct Hset as [(cur & p & -> & Hcar & Hp & Hord)|[(-> & Hcl & r & p & Hr & Hrk & Hat & Hp & Hle)|(-> & Hnev & Hop & Hcase)]].
    - assert (p <> []) as Hpne by (intros ->; simpl in Hp; lia).
      rewrite (ordering_carried _ _ _ _ lower Hcar Hpne) by done. cbn [mbind res_bind].
      destruct Hord as [->|[<- (Hop & after & h & v & Ha & Hh & Hv & Heq)]]; [eexists; split; [done|by left]|].
      rewrite (proj2 (zs_cmp_Eq _ _) eq_refl). change (0 <? 0) with false. cbn match. unfold change_edit.
      rewrite (bool_decide_false _ Hop), Ha. cbn [mbind res_bind]. rewrite Hh. cbn [mbind res_bind]. rewrite Hv.
      cbn [mbind res_bind]. rewrite bool_decide_true by done. rewrite Heq. eexists. split; [done|]. auto.
    - destruct (absent_ordering (css_rows s) e key Hval Hkeyed Hcl) as
        [[_ Hnokey]|[(_ & _ & Hnev)|(r' & p' & Hr' & Hrk' & Hat' & Hp' & Hle' & Hab)]].
      + by destruct (Hnokey r Hr).
      + by destruct (no_evidence_not_closed _ _ _ (Hnev r Hr Hrk) Hat).
      + rewrite Hab. cbn [mbind res_bind fst snd].
        assert (zs_leb p p' = true) as Hpp.
        { destruct (Hle' r Hr Hrk) as [Hne|(q & Hq & _ & Hle2)]; [by destruct (no_evidence_not_closed _ _ _ Hne Hat)|].
          by rewrite (closed_at_inj _ _ _ _ Hat Hq). }
        destruct (zs_cmp (vals e) p') eqn:Ez; cbn [Z.leb]; try (eexists; split; [done|by left]).
        destruct Hle as [Hle|Hop].
        * pose proof (zs_leb_trans _ _ _ Hle Hpp) as [Hlt|Heq]%zs_leb_cases; [congruence|].
          apply zs_cmp_Eq in Heq. congruence.
        * unfold change_edit. rewrite bool_decide_true by done. eexists. split; [done|]. auto.
    - assert (closed_within (css_rows s) key (part e) (length (vals e)) (fun _ => True)) as Hcl
        by (intros r Hr Hrk; left; by apply Hnev).
      destruct (absent_ordering (css_rows s) e key Hval Hkeyed Hcl) as
        [[Hab _]|[(Hab & (r & Hr & Hrk) & _)|(r' & p' & Hr' & Hrk' & Hat' & _)]]; cycle 2.
      + by destruct (no_evidence_not_closed _ _ _ (Hnev r' Hr' Hrk') Hat').
      + rewrite Hab. cbn [mbind res_bind fst snd]. unfold change_edit. rewrite bool_decide_true by done.
        eexists. split; [done|]. auto.
      + destruct Hcase as [Hnokey|(o' & Hpos & Hz)]; [by destruct (Hnokey r Hr)|].
        rewrite Hab. cbn [mbind res_bind fst snd]. rewrite Hz. cbn [mbind res_bind fst snd].
        destruct (o' <=? 0) eqn:Ele; [eexists; split; [done|by left]|].
        unfold change_edit. rewrite bool_decide_true by done. eexists. split; [done|]. auto. }
  unfold cdc_scd2_step. rewrite Hk. cbn [mbind res_bind]. unfold _event_time. rewrite Ht. cbn [mbind res_bind].
  rewrite Ho. cbn [mbind res_bind]. rewrite <-Hget, Hedit. cbn [mbind res_bind]. eexists. split; [done|].
  destruct Hkind as [->|[->| ->]]; simpl; split_and!; try done; lia.
Qed.

Lemma evidence_ext partition n P r r' :
  get r' CDC_CLOSED_PARTITION = get r CDC_CLOSED_PARTITION ->
  get r' CDC_CLOSED_POSITION = get r CDC_CLOSED_POSITION ->
  evidence partition n P r -> evidence partition n P r'.
Proof using Type. unfold evidence, no_evidence, closed_at, carries. by intros -> ->. Qed.

Lemma opens_no_evidence new e key t :
  valid_event e -> opens bk tc id new e key t -> _event_key (ev_key e) bk = Ok key -> no_evidence new.
Proof using Hplain.
  clear Htracked. intros Hval (Hop & after & h & Ha & _ & ->) [-> _]%event_key_Ok. unfold no_evidence.
  assert (forall c, c ∈ [CDC_CLOSED_PARTITION; CDC_CLOSED_POSITION] ->
    get (new_history_row (set_key bk (map (get (ev_key e)) bk) after) t h id (ev_position e)) c = VNone) as Hnone.
  { intros c Hc. assert (c ∉ bk) as Hnbk.
    { intros Hin. destruct Hplain as [_ Hp]. rewrite Forall_forall in Hp. apply (Hp c Hin). set_solver. }
    assert (after !! c = None) as Hac.
    { apply (valid_payload _ _ _ Hval Ha). repeat (apply elem_of_cons in Hc as [->|Hc]; [done|]). by apply elem_of_nil in Hc. }
    unfold new_history_row, at_position, new_version.
    repeat (apply elem_of_cons in Hc as [->|Hc]; [rewrite !get_insert_ne by done; unfold get;
      by rewrite set_key_lookup, decide_False, Hac by done|]). by apply elem_of_nil in Hc. }
  by rewrite !Hnone by set_solver.
Qed.

(** After an edit, the rows of the key end with the event. *)
Lemma edited_topped key e t rows i u d rows' :
  valid_event e -> _event_key (ev_key e) bk = Ok key -> one_current bk rows ->
  closed_within rows key (part e) (length (vals e)) (fun q => zs_cmp q (vals e) = Lt) ->
  edited bk tc id key e t rows i u d rows' -> topped rows' e key.
Proof using Hplain Htracked.
  intros Hval Hk Hone Habove%(closed_within_impl _ _ _ _ _ (fun q => zs_leb q (vals e) = true)); [|intros q; apply zs_lt_le].
  intros [new Hnone Hopen|pre cur post Hs Hd|pre cur post Hs Hop Hc|pre cur post new Hs Hc Hopen].
  - destruct (opens_facts _ _ _ Hplain _ _ _ _ _ Hopen Hk) as (Hcn & Hkn & _ & Hdes & Hcar).
    destruct (append_current bk key rows new Hone Hnone Hcn Hkn) as (_ & Hg & _ & _). split.
    + intros r [Hr|Hr]%elem_of_app Hrk; [by apply Habove|]. apply list_elem_of_singleton in Hr as ->.
      left. by eapply opens_no_evidence.
    + left. by exists new.
  - destruct (replace_current bk key rows pre cur post (at_position cur (ev_position e)) Hone Hs) as (_ & Hg & _ & _);
      [by apply key_at_position|]. rewrite at_position_current, (cs_current _ _ _ _ _ _ Hs) in Hg.
    destruct Hs as [-> _ Hck _]. split.
    + intros r Hr Hrk. rewrite elem_of_app, elem_of_cons in Hr.
      destruct Hr as [Hr|[->|Hr]]; try (apply Habove; [rewrite elem_of_app, elem_of_cons; by auto|done]).
      eapply (evidence_ext _ _ _ cur); [unfold at_position; by rewrite !get_insert_ne..|].
      apply Habove; [rewrite elem_of_app, elem_of_cons; auto|done].
    + left. eexists. split; [exact Hg|]. split; [apply carries_at_position|].
      destruct Hd as (Hop & after & h & v & Ha & Hh & Hv & Heq). split; [done|]. exists after, h, v.
      by rewrite current_hash_at_position.
  - destruct (replace_current bk key rows pre cur post (closed_row cur t (ev_position e)) Hone Hs) as (_ & Hg & _ & _);
      [by apply key_closed_row|]. rewrite closed_row_not_current in Hg.
    destruct Hs as [-> _ Hck _]. split.
    + intros r Hr Hrk. rewrite elem_of_app, elem_of_cons in Hr.
      destruct Hr as [Hr|[->|Hr]]; try (apply Habove; [rewrite elem_of_app, elem_of_cons; by auto|done]).
      right. exists (vals e). split; [apply carries_closed_row|]. split; [done|apply zs_leb_refl].
    + right. split; [done|]. exists (closed_row cur t (ev_position e)).
      split; [rewrite elem_of_app, elem_of_cons; auto|]. split; [|apply carries_closed_row].
      unfold of_key. by rewrite key_closed_row.
  - destruct (opens_facts _ _ _ Hplain _ _ _ _ _ Hopen Hk) as (Hcn & Hkn & _ & Hdes & Hcar).
    destruct (replace_current bk key rows pre cur post (closed_row cur t (ev_position e)) Hone Hs) as (Hone' & Hg & _ & _);
      [by apply key_closed_row|]. rewrite closed_row_not_current in Hg.
    destruct (append_current bk key _ new Hone' Hg Hcn Hkn) as (_ & Hg' & _ & _).
    destruct Hs as [-> _ Hck _]. split.
    + intros r Hr Hrk. rewrite !elem_of_app, elem_of_cons, list_elem_of_singleton in Hr.
      destruct Hr as [[Hr|[->|Hr]]| ->]; try (apply Habove; [rewrite elem_of_app, elem_of_cons; by auto|done]).
      * right. exists (vals e). split; [apply carries_closed_row|]. split; [done|apply zs_leb_refl].
      * left. by eapply opens_no_evidence.
    + left. by exists new.
Qed.

Lemma traced_compat rows key1 key2 partition n :
  keq key1 key2 = true -> traced rows key1 partition n -> traced rows key2 partition n.
Proof using Type.
  intros Hk. assert (forall r, of_key bk key2 r -> of_key bk key1 r) as Hof
    by (intros r; apply of_key_compat; by rewrite keq_sym).
  intros [Hc Hcur]. split; [intros r ? ?; auto|]. intros cur Hg. rewrite <-(dget_compat _ key1) in Hg by done.
  destruct (Hcur cur Hg) as [[? ?]|(p & ? & ? & Hle)]; [by left; auto|right; exists p].
  split_and!; try done. intros r ? ?. auto.
Qed.

Lemma topped_compat_settles rows e f key1 key2 :
  keq key1 key2 = true -> topped rows f key1 -> precedes e f -> settled rows e key2.
Proof using Type.
  intros Hk [Hc [(cur & Hg & Hcar & _)|(Hg & r & Hr & Hrk & Hcl)]] (Hp & Ha & Hlt); unfold same_arity in Ha;
    rewrite (dget_compat _ _ _ Hk) in Hg.
  - left. exists cur, (vals f). rewrite Hp. split_and!; auto.
  - right. left. rewrite Hp, Ha. split; [done|]. split.
    + intros x Hx Hxk. eapply evidence_impl, Hc; [done|done|]. eapply of_key_compat; [|exact Hxk]. by rewrite keq_sym.
    + exists r, (vals f). split_and!; try done; [by eapply of_key_compat|]. left. by apply zs_lt_le.
Qed.

(** The state of other keys does not change. *)
Lemma elsewhere_settled key rows rows' e k :
  elsewhere bk key rows rows' -> keq key k = false -> settled rows e k -> settled rows' e k.
Proof using Type.
  intros Hel Hk. destruct (Hel k Hk) as [Hd Hr]. unfold settled, closed_within. rewrite Hd.
  assert (forall x, x ∈ rows' -> of_key bk k x -> x ∈ rows) as Hback by (intros x Hx Hxk; by apply Hr).
  intros [?|[(? & Hc & x & p & Hx & Hxk & ?)|(? & Hn & ? & Hcase)]]; [by left|right; left|right; right].
  - split; [done|]. split; [auto|]. exists x, p. split; [by apply Hr|done].
  - split; [done|]. split; [auto|]. split; [done|]. destruct Hcase as [Hno|?]; [left|by right].
    intros x Hx Hxk. by destruct (Hno x (Hback x Hx Hxk)).
Qed.

Lemma elsewhere_traced key rows rows' k partition n :
  elsewhere bk key rows rows' -> keq key k = false -> traced rows k partition n -> traced rows' k partition n.
Proof using Type.
  intros Hel Hk. destruct (Hel k Hk) as [Hd Hr]. unfold traced, closed_within. rewrite Hd.
  assert (forall x, x ∈ rows' -> of_key bk k x -> x ∈ rows) as Hback by (intros x Hx Hxk; by apply Hr).
  intros [Hc Hcur]. split; [auto|]. intros cur Hg. destruct (Hcur cur Hg) as [[? ?]|(p & ? & ? & ?)]; [left|right].
  - split; [done|]. auto.
  - exists p. split_and!; auto.
Qed.

(** Same-key events of an ordered batch come in order. *)
Lemma ordered_precedes pre e post f key1 key2 :
  ordered_batch bk (pre ++ e :: post) -> f ∈ pre -> _event_key (ev_key f) bk = Ok key1 ->
  _event_key (ev_key e) bk = Ok key2 -> keq key1 key2 = true -> precedes f e.
Proof using Type.
  intros Hord Hf H1 H2 Hk. destruct (events_of_ordered bk key2 _ Hord) as [Hs _].
  unfold events_of in Hs. rewrite filter_app, filter_cons in Hs.
  rewrite decide_True in Hs by (unfold matches; by rewrite H2, keq_refl).
  eapply StronglySorted_app_1_elem_of; [exact Hs| |].
  - apply list_elem_of_filter. split; [|done]. unfold matches. by rewrite H1.
  - apply elem_of_cons. by left.
Qed.

(** The rows may be extended by the batch: the key of every event is traced. *)
Definition traceable rows (events : list CDCEvent) : Prop :=
  forall e key, e ∈ events -> _event_key (ev_key e) bk = Ok key -> traced rows key (part e) (length (vals e)).

Record replay_inv (events processed : list CDCEvent) rows : Prop := {
  ri_unique : one_current bk rows;
  ri_keyed : keyed bk rows;
  ri_traceable : traceable rows events;
  ri_settled : Forall (fun e => exists key t, _event_key (ev_key e) bk = Ok key /\ ev_event_time e = Some t /\
    settled rows e key) processed
}.

Lemma replay_step events processed e s s' :
  ordered_batch bk events -> (exists rest, events = processed ++ e :: rest) ->
  replay_inv events processed (css_rows s) -> cdc_scd2_step bk tc id lower s e = Ok s' ->
  replay_inv events (processed ++ [e]) (css_rows s').
Proof using Hplain Htracked.
  intros Hord [rest Heq] [Hone Hkeyed Htr Hset] Hstep.
  assert (e ∈ events) as Hin by (rewrite Heq, elem_of_app, elem_of_cons; auto).
  assert (valid_event e) as Hval.
  { destruct Hord as (_ & Hv & _). rewrite Forall_forall in Hv. by apply Hv. }
  apply step_edited in Hstep as (key & t & edit & i & u & d & Hk & Ht & He & _ & _ & _ & Hrows).
  pose proof (effect_settles _ _ _ _ _ Hval Hkeyed (Htr e key Hin Hk) He) as Hsettles.
  assert (css_rows s' = css_rows s /\ settled (css_rows s) e key \/
          edited bk tc id key e t (css_rows s) i u d (css_rows s') /\
          closed_within (css_rows s) key (part e) (length (vals e)) (fun q => zs_cmp q (vals e) = Lt))
    as [[-> Hsete]|[Hed Habove]] by (destruct edit; (by right) || (left; by destruct Hrows)).
  - split; try done. apply Forall_app. split; [done|]. apply Forall_singleton. by exists key, t.
  - destruct (edited_rows _ _ _ Hplain _ _ _ _ _ _ _ _ _ Hk Hone Hed) as (Hone' & Hkeyed' & Hel & _).
    pose proof (edited_topped _ _ _ _ _ _ _ _ Hval Hk Hone Habove Hed) as Htop. split; [done|by apply Hkeyed'| |].
    + intros f k Hf Hfk. destruct (keq key k) eqn:Ekk.
      * apply (traced_compat _ key); [done|]. destruct Hord as (_ & _ & Hsame).
        destruct (Hsame key e f) as [Hp Ha].
        -- apply list_elem_of_filter. split; [|done]. unfold matches. by rewrite Hk, keq_refl.
        -- apply list_elem_of_filter. split; [|done]. unfold matches. by rewrite Hfk, keq_sym.
        -- unfold same_arity in Ha. rewrite <-Hp, <-Ha. by apply topped_traced.
      * eapply elsewhere_traced; [exact Hel|done|by apply Htr].
    + apply Forall_app. split.
      * eapply Forall_impl; [apply Forall_and; split; [exact Hset|apply Forall_forall; intros x Hx; exact Hx]|].
        intros f [(k & tf & Hfk & Hft & Hfs) Hf]. exists k, tf. split_and!; try done.
        destruct (keq key k) eqn:Ekk; [|by eapply elsewhere_settled].
        eapply topped_compat_settles; [exact Ekk|exact Htop|].
        rewrite Heq in Hord. eapply ordered_precedes; [exact Hord|exact Hf|exact Hfk|exact Hk|]. by rewrite keq_sym.
      * apply Forall_singleton. exists key, t. split_and!; try done. by apply topped_settled.
Qed.

Lemma one_current_perm rows rows' : rows ≡ₚ rows' -> one_current bk rows -> one_current bk rows'.
Proof using Type.
  intros Hp [Hall Hwf]. split; [by rewrite <-Hp|]. eapply dwf_perm; [|exact Hwf]. by apply currents_perm.
Qed.

Lemma replay_inv_perm events processed rows rows' :
  rows ≡ₚ rows' -> replay_inv events processed rows -> replay_inv events processed rows'.
Proof using Type.
  intros Hp [Hone Hkeyed Htr Hset].
  assert (forall k, dget (currents bk rows') k = dget (currents bk rows) k) as Hget.
  { intros k. symmetry. apply dget_perm; [|by apply Hone]. by apply currents_perm. }
  assert (forall r, r ∈ rows' <-> r ∈ rows) as Hin by (intros r; by rewrite Hp).
  split; [by eapply one_current_perm|unfold keyed; by rewrite <-Hp| |].
  - intros e k He Hk. destruct (Htr e k He Hk) as [Hc Hcur].
    split; [intros r ?%Hin; by apply Hc|]. rewrite Hget. intros cur Hg.
    destruct (Hcur cur Hg) as [[? Hn]|(p & ? & ? & Hle)]; [left|right].
    + split; [done|]. intros r ?%Hin. by apply Hn.
    + exists p. split_and!; try done. intros r ?%Hin. by apply Hle.
  - eapply Forall_impl; [exact Hset|]. intros e (k & t & Hk & Ht & Hs). exists k, t. split_and!; try done.
    revert Hs. unfold settled, closed_within. rewrite Hget. by setoid_rewrite Hin.
Qed.

Lemma absorb_all events rows s :
  css_rows s = rows -> one_current bk rows -> keyed bk rows -> Forall valid_event events ->
  Forall (fun e => exists key t, _event_key (ev_key e) bk = Ok key /\ ev_event_time e = Some t /\
    settled rows e key) events ->
  exists s', foldM (cdc_scd2_step bk tc id lower) s events = Ok s' /\ css_rows s' = rows /\
    css_inserted s' = css_inserted s /\ css_updated s' = css_updated s /\ css_deleted s' = css_deleted s.
Proof using Type.
  intros Hr Hone Hkeyed Hval Hset. revert s Hr. induction Hset as [|e events (key & t & Hk & Ht & Hs) _ IH]; intros s <-.
  { by exists s. }
  apply Forall_cons in Hval as [Hv Hval]. destruct (settled_absorbs s e key t) as (s1 & H1 & Hr1 & Hi1 & Hu1 & Hd1); try done.
  destruct (IH Hval s1 Hr1) as (s2 & H2 & Hr2 & Hi2 & Hu2 & Hd2). exists s2. cbn [foldM]. rewrite H1.
  split_and!; congruence.
Qed.

(** The rows a run starts from have keys when those it ends with do. *)
Lemma persists_keyed events rows E : keyed bk rows -> Forall (persists bk events rows) E -> keyed bk E.
Proof using Hplain.
  clear Htracked. intros Hkeyed Hall. eapply Forall_impl; [exact Hall|]. unfold persists. intros r Hr.
  unfold keyed in Hkeyed. rewrite Forall_forall in Hkeyed. destruct (is_current r); [|by apply Hkeyed].
  assert (forall r', same_version r r' -> Scd2._key r' bk = Scd2._key r bk) as Hsame.
  { intros r' Hs. apply key_ext. destruct Hplain as [_ Hp]. eapply Forall_impl; [exact Hp|]. intros c Hc.
    apply Hs. set_solver. }
  destruct Hr as (r' & Hin & [Hs|(e & key & t & r0 & _ & _ & _ & (k & Hk & _) & Hs & _)]).
  - rewrite <-(Hsame r' Hs). by apply Hkeyed.
  - by rewrite <-(Hsame r0 Hs), Hk.
Qed.
End replay.

(** C10. Replaying CDC into history: applying an ordered batch again to the rows its first
    application produced succeeds, returns exactly those rows and reports no insert, update or
    delete; no stale event opens a deleted key again.  The rows remain traceable to the
    partitions of the batch, so the next batch may be replayed too; an empty target is
    traceable. *)
Theorem cdc_scd2_replay `{PyRuntime} `{ScalarText} E batch bk tc id res :
  apply_cdc_scd2 E batch bk tc id = Ok res ->
  plain_history_key bk -> plain_tracked tc -> ordered_batch bk (nb_events batch) ->
  traceable bk E (nb_events batch) ->
  traceable bk (csr_rows res) (nb_events batch) /\
  exists res', apply_cdc_scd2 (csr_rows res) batch bk tc id = Ok res' /\ csr_rows res' = csr_rows res /\
    csr_mutations res' = {| mc_inserted := 0; mc_updated := 0; mc_deleted := 0 |}.
Proof.
  intros Happ Hplain Htracked Hord Htr.
  pose proof Happ as (Hbk & Hubk & Htc & Hutc & Hone & s & Hs & Hsort & _)%apply_cdc_scd2_Ok.
  assert (Forall valid_event (nb_events batch)) as Hvalid by apply Hord.
  assert (keyed bk (css_rows s)) as Hkeyed.
  { eapply Forall_impl; [exact (sort_rows_keys _ _ _ Hsort)|]. intros r Hr. simpl in Hr. unfold history_sort_key in Hr.
    destruct (_business_key r bk) as [k|] eqn:Ek; [|done]. apply business_key_Ok in Ek. by rewrite Ek. }
  pose proof (hi_persists _ _ _ _ (cdc_scd2_loop bk tc id _ Hplain _ _ _ Hone Hs)) as Hpers.
  pose proof (persists_keyed bk Hplain _ _ _ Hkeyed Hpers) as HkeyedE.
  assert (replay_inv bk tc (nb_lower_checkpoint batch) (nb_events batch) (nb_events batch) (css_rows s)) as Hinv.
  { refine (foldM_ind _ (fun processed s => replay_inv bk tc (nb_lower_checkpoint batch) (nb_events batch) processed (css_rows s))
      _ _ _ Hs _ _); [by split|].
    intros processed e s1 s2 Hrest Hinv Hstep. by eapply replay_step. }
  apply (replay_inv_perm _ _ _ _ _ _ (csr_rows res)) in Hinv; [|symmetry; by eapply sort_rows_perm].
  destruct Hinv as [Hone' Hkeyed' Htr' Hset']. split; [done|].
  destruct (absorb_all bk tc id (nb_lower_checkpoint batch) (nb_events batch) (csr_rows res)
    {| css_rows := csr_rows res; css_inserted := 0; css_updated := 0; css_deleted := 0;
       css_stale := 0; css_no_change := 0; css_missing := 0 |}) as (s2 & Hs2 & Hr2 & Hi2 & Hu2 & Hd2); try done.
  unfold apply_cdc_scd2. rewrite !bool_decide_false by done. rewrite Hubk, Hutc. cbn [orb negb].
  rewrite (proj2 (assert_one_current_iff _ _) Hone'). cbn [mbind res_bind]. rewrite Hs2. cbn [mbind res_bind].
  rewrite Hr2, (proj2 (assert_one_current_iff _ _) Hone'). cbn [mbind res_bind].
  rewrite (sort_rows_idemp _ _ _ Hsort). cbn [mbind res_bind]. eexists. split; [done|]. simpl.
  by rewrite Hi2, Hu2, Hd2.
Qed.

(** ** Witnesses *)

Definition demo_opened : row :=
  {[ "id" := VInt 2; "v" := VInt 7; VALID_FROM := VDatetime (Some 0) 1; VALID_TO := VNone; IS_CURRENT := VBool true ]}.

Definition demo_cdc_history : list row := [demo_opened].

Definition demo_cdc_scd2 (existing : list row) : CDCSCD2ApplyResult :=
  match @apply_cdc_scd2 demo_runtime demo_scalars existing demo_cdc_batch ["id"] ["v"] "run" with
  | Ok r => r
  | Raise _ => {| csr_rows := []; csr_mutations := {| mc_inserted := 0; mc_updated := 0; mc_deleted := 0 |};
      csr_events_applied := 0; csr_stale_events_ignored := 0; csr_no_change_events := 0;
      csr_missing_delete_events_ignored := 0 |}
  end.

Lemma demo_plain_history_key : plain_history_key ["id"].
Proof. split; apply (bool_decide_unpack _); vm_compute; exact I. Qed.

Lemma demo_traceable : traceable ["id"] demo_cdc_history (nb_events demo_cdc_batch).
Proof.
  intros e key _ _. split.
  - intros r Hr _. apply list_elem_of_singleton in Hr as ->. left. vm_compute. reflexivity.
  - intros cur Hg. left. apply dget_Some_elem in Hg as (k & _ & Hin).
    assert (currents ["id"] demo_cdc_history = [([VInt 2], demo_opened)]) as Hc by (vm_compute; reflexivity).
    rewrite Hc in Hin. apply list_elem_of_singleton in Hin as [= -> ->]. split; [vm_compute; reflexivity|].
    intros r Hr _. apply list_elem_of_singleton in Hr as ->. vm_compute. reflexivity.
Qed.

Lemma cdc_scd2_history_preserved_witness :
  one_current ["id"] (csr_rows (demo_cdc_scd2 demo_cdc_history)) /\
  length (csr_rows (demo_cdc_scd2 demo_cdc_history)) = 3%nat.
Proof.
  assert (@apply_cdc_scd2 demo_runtime demo_scalars demo_cdc_history demo_cdc_batch ["id"] ["v"] "run" =
          Ok (demo_cdc_scd2 demo_cdc_history)) as Happ by (vm_compute; reflexivity).
  destruct (@cdc_scd2_history_preserved demo_runtime demo_scalars _ _ _ _ _ _ Happ demo_plain_history_key)
    as (_ & Hone & Hlen & _).
  split; [exact Hone|]. rewrite Hlen. vm_compute. reflexivity.
Defined.

Lemma cdc_scd2_replay_witness :
  exists res', @apply_cdc_scd2 demo_runtime demo_scalars (csr_rows (demo_cdc_scd2 demo_cdc_history))
      demo_cdc_batch ["id"] ["v"] "run" = Ok res' /\
    csr_rows res' = csr_rows (demo_cdc_scd2 demo_cdc_history) /\
    csr_mutations res' = {| mc_inserted := 0; mc_updated := 0; mc_deleted := 0 |}.
Proof.
  eapply (@cdc_scd2_replay demo_runtime demo_scalars demo_cdc_history).
  - vm_compute. reflexivity.
  - apply demo_plain_history_key.
  - apply (bool_decide_unpack _). vm_compute. exact I.
  - apply demo_cdc_ordered.
  - apply demo_traceable.
Defined.
