(* ===== verification/Reconciliation.v ===== *)
(** * Reconciliation policies ([contracts/reconciliation.py], [quality/reconciliation/])

    Providers observe scalars; [evaluate_reconciliation_policy] turns observations and the
    invariants of a strategy into metrics, and the metrics into a status that may block the
    advance of state. *)

From stdpp Require Import base gmap strings list sorting.
From Stdlib Require Import QArith Qabs.
From S2P Require Import Prelude PyValue PyFloat ConfigTypes Temporal RunAudit FullCapture PyDict Ordering TypedValues Scd2.
#[local] Close Scope Q_scope.
#[local] Open Scope Z_scope.

(** ** Contracts *)

Inductive ReconciliationStatus := RS_PASS | RS_WARN | RS_FAIL.
#[export] Instance ReconciliationStatus_eq_dec : EqDecision ReconciliationStatus.
Proof. solve_decision. Defined.

(** [str | int | float | bool]; floats are finite. *)
Definition is_scalar (v : value) : bool :=
  match v with VStr _ | VInt _ | VFloat _ | VBool _ => true | _ => false end.

Record ReconciliationMetric := {
  rm_name : string;
  rm_expected : value;
  rm_actual : value;
  rm_passed : bool;
  rm_check_id : option string;
  rm_severity : ReconciliationSeverity;
  rm_blocking : bool;
  rm_partition : option (list (string * value))
}.

(** The field constraints and [validate_severity]. *)
Definition make_ReconciliationMetric (m : ReconciliationMetric) : res ReconciliationMetric :=
  if negb (nonempty (rm_name m)) || negb (is_scalar (rm_expected m)) || negb (is_scalar (rm_actual m))
     || negb (nonempty (default "x" (rm_check_id m))) then bad_field
  else if bool_decide (rm_severity m = SEV_WARNING) && rm_blocking m then
    raise "ValueError" "WARNING reconciliation metric cannot block state advance"
  else Ok m.

(** [ReconciliationMetric(name=, expected=, actual=, passed=)] with the default fields. *)
Definition plain_metric (name : string) (expected actual : value) (passed : bool) : res ReconciliationMetric :=
  make_ReconciliationMetric
    {| rm_name := name; rm_expected := expected; rm_actual := actual; rm_passed := passed;
       rm_check_id := None; rm_severity := SEV_ERROR; rm_blocking := true; rm_partition := None |}.

Record ReconciliationObservation := {
  ro_check_id : string;
  ro_expected : option value;
  ro_actual : option value;
  ro_passed : option bool;
  ro_partition : option (list (string * value))
}.

Record ReconciliationResult := {
  rcr_reconciliation_id : N;
  rcr_dataset_run_id : N;
  rcr_dataset_id : string;
  rcr_policy_name : string;
  rcr_status : ReconciliationStatus;
  rcr_metrics : list ReconciliationMetric;
  rcr_blocks_state_advance : bool;
  rcr_created_at : datetime
}.

Definition failed_metrics (metrics : list ReconciliationMetric) : list ReconciliationMetric :=
  filter (fun m => rm_passed m = false) metrics.
Definition any_blocking (metrics : list ReconciliationMetric) : bool := existsb rm_blocking metrics.

(** The field constraints and [validate_status]. *)
Definition make_ReconciliationResult (r : ReconciliationResult) : res ReconciliationResult :=
  if negb (nonempty (rcr_dataset_id r)) || negb (nonempty (rcr_policy_name r)) then bad_field
  else
    _ ← require_aware_datetime (rcr_created_at r) "created_at";
    let failed := failed_metrics (rcr_metrics r) in
    let some_failed := negb (bool_decide (length failed = 0%nat)) in
    match rcr_status r with
    | RS_PASS =>
      if some_failed then raise "ValueError" "PASS reconciliation cannot contain failed metrics" else Ok r
    | RS_WARN =>
      if negb some_failed then raise "ValueError" "WARN reconciliation requires at least one failed metric"
      else if any_blocking failed then
        raise "ValueError" "WARN reconciliation cannot contain blocking failed metrics"
      else Ok r
    | RS_FAIL =>
      if some_failed && negb (any_blocking failed) then
        raise "ValueError" "FAIL reconciliation requires a blocking failed metric"
      else Ok r
    end.

(** ** Evaluation of one observation *)

Definition _blocking (severity : ReconciliationSeverity) : bool := bool_decide (severity = SEV_ERROR).

Definition _metric (check : ReconciliationCheck) (name : string) (expected actual : value) (passed : bool)
    (partition : option (list (string * value))) : res ReconciliationMetric :=
  make_ReconciliationMetric
    {| rm_name := name; rm_expected := expected; rm_actual := actual; rm_passed := passed;
       rm_check_id := Some (rc_check_id check); rm_severity := rc_severity check;
       rm_blocking := _blocking (rc_severity check); rm_partition := partition |}.

Definition _error_metric (check_id name expected actual : string) : res ReconciliationMetric :=
  make_ReconciliationMetric
    {| rm_name := name; rm_expected := VStr expected; rm_actual := VStr actual; rm_passed := false;
       rm_check_id := Some check_id; rm_severity := SEV_ERROR; rm_blocking := true; rm_partition := None |}.

(** [_numeric]: [float] of an integer beyond the doubles raises. *)
Definition _numeric (v : option value) : res (option Q) :=
  match v with
  | Some (VInt z) =>
    if overflows (float_of_int z) then raise "OverflowError" "int too large to convert to float"
    else Ok (Some (float_of_int z))
  | Some (VFloat q) => Ok (Some q)
  | _ => Ok None
  end.

(** An infinite [allowed] admits every difference; an infinite difference is beyond a finite one. *)
Definition _within_tolerance (expected actual absolute_tolerance relative_tolerance : Q) : bool :=
  let allowed := fadd absolute_tolerance (fmul relative_tolerance (fabs expected)) in
  overflows allowed || fle (fabs (fsub actual expected)) allowed.

(** [actual.is_integer()] and [int(actual)] *)
Definition float_is_integer (q : Q) : bool := (Qnum q mod Zpos (Qden q) =? 0).
Definition int_of_float (q : Q) : Z := Z.quot (Qnum q) (Zpos (Qden q)).

Definition option_value {A} (f : A -> value) (o : option A) : value :=
  match o with Some a => f a | None => VNone end.

Section engine.
Context `{PyRuntime}.

(** [observation.partition[key]] *)
Definition partition_value (o : ReconciliationObservation) (key : string) : res value :=
  match ro_partition o with
  | None => raise "AssertionError" "observation.partition is not None"
  | Some partition =>
    match list_find (fun kv => kv.1 = key) partition with
    | Some (_, (_, v)) => Ok v
    | None => raise "KeyError" "observation.partition"
    end
  end.

Definition _partition_label (check : ReconciliationCheck) (o : ReconciliationObservation) : res string :=
  if bool_decide (rc_partition_by check = []) then Ok (rc_check_id check)
  else
    parts ← mapM_res (fun key => v ← partition_value o key; Ok (key +:+ "=" +:+ py_str v)) (rc_partition_by check);
    Ok (rc_check_id check +:+ "[" +:+ String.concat "," parts +:+ "]").

Definition sorted_names (names : list string) : list string := sort_by str_leb (remove_dups names).

Definition _validate_partition (check : ReconciliationCheck) (o : ReconciliationObservation) : option string :=
  let actual := map fst (default [] (ro_partition o)) in
  if bool_decide (list_to_set (rc_partition_by check) = (list_to_set actual : gset string)) then None
  else Some ("partition keys do not match policy: expected="
             +:+ str_of (VList (map VStr (sorted_names (rc_partition_by check)))) +:+ ", actual="
             +:+ str_of (VList (map VStr (sorted_names actual)))).

(** The verdict on an observation: the values of the metric, and whether it passed. *)
Definition verdict (check : ReconciliationCheck) (o : ReconciliationObservation) : res (value * value * bool) :=
  match rc_kind check with
  | RK_ROW_COUNT_MATCH | RK_AGGREGATE_MATCH =>
    expected ← _numeric (ro_expected o);
    actual ← _numeric (ro_actual o);
    match expected, actual with
    | Some e, Some a =>
      Ok (default VNone (ro_expected o), default VNone (ro_actual o),
          _within_tolerance e a (rc_absolute_tolerance check) (rc_relative_tolerance check))
    | _, _ => Ok (VStr "numeric source observation", VStr "missing/non-numeric observation", false)
    end
  | RK_CHECKSUM_MATCH =>
    match ro_expected o, ro_actual o with
    | Some expected, Some actual => Ok (expected, actual, py_eqb expected actual)
    | _, _ => Ok (VStr "source checksum", VStr "missing checksum observation", false)
    end
  | RK_UNIQUE_KEY =>
    actual ← _numeric (ro_actual o);
    match actual with
    | Some a =>
      if flt a 0 || negb (float_is_integer a) then
        Ok (VStr ("duplicate_count <= " +:+ py_str (option_value VInt (rc_max_count check))),
            VStr "missing/non-integer duplicate count", false)
      else match rc_max_count check with
           | None => raise "AssertionError" "check.max_count is not None"
           | Some bound => Ok (VInt bound, VInt (int_of_float a), int_of_float a <=? bound)
           end
    | None => Ok (VStr ("duplicate_count <= " +:+ py_str (option_value VInt (rc_max_count check))),
                  VStr "missing/non-integer duplicate count", false)
    end
  | RK_NULL_RATE =>
    actual ← _numeric (ro_actual o);
    match actual with
    | Some a =>
      if flt a 0 || flt 1 a then
        Ok (VStr ("null_fraction <= " +:+ py_str (option_value VFloat (rc_max_fraction check))),
            VStr "missing/out-of-range null fraction", false)
      else match rc_max_fraction check with
           | None => raise "AssertionError" "check.max_fraction is not None"
           | Some bound => Ok (VFloat bound, VFloat a, fle a bound)
           end
    | None => Ok (VStr ("null_fraction <= " +:+ py_str (option_value VFloat (rc_max_fraction check))),
                  VStr "missing/out-of-range null fraction", false)
    end
  | RK_CUSTOM =>
    match ro_passed o with
    | None => Ok (VStr "custom provider decision", VStr "missing custom decision", false)
    | Some passed =>
      Ok (default (VStr "PASS") (ro_expected o),
          default (VStr (if passed then "PASS" else "FAIL")) (ro_actual o), passed)
    end
  end.

Definition _evaluate_observation (check : ReconciliationCheck) (o : ReconciliationObservation) :
    res ReconciliationMetric :=
  name ← _partition_label check o;
  v ← verdict check o;
  _metric check name v.1.1 v.1.2 v.2 (ro_partition o).
End engine.

(** ** The policy *)

Section policy.
Context `{PyRuntime}.

(** The row-accounting control. *)
Definition accounting_metrics (policy : ReconciliationPolicy) (accounting : option RowAccounting) :
    res (list ReconciliationMetric) :=
  if rpol_include_row_accounting policy then
    m ← match accounting with
        | None => _error_metric "__row_accounting__" "row_accounting" "RowAccounting evidence" "missing"
        | Some a =>
          let accounted := rows_accepted a + rows_quarantined a + rows_filtered a in
          make_ReconciliationMetric
            {| rm_name := "row_accounting"; rm_expected := VInt (rows_read a); rm_actual := VInt accounted;
               rm_passed := rows_read a =? accounted; rm_check_id := Some "__row_accounting__";
               rm_severity := SEV_ERROR; rm_blocking := true; rm_partition := None |}
        end;
    Ok [m]
  else Ok [].

(** [by_id.get(check_id, [])] *)
Definition observations_for (observations : list ReconciliationObservation) (check_id : string) :
    list ReconciliationObservation :=
  filter (fun o => ro_check_id o = check_id) observations.

(** [sorted(set(by_id) - set(configured))] *)
Definition unknown_ids (policy : ReconciliationPolicy) (observations : list ReconciliationObservation) : list string :=
  filter (fun id => id ∉ map rc_check_id (rpol_checks policy)) (sorted_names (map ro_check_id observations)).

Definition unknown_metrics (policy : ReconciliationPolicy) (observations : list ReconciliationObservation) :
    res (list ReconciliationMetric) :=
  mapM_res (fun unknown => _error_metric unknown ("unexpected_observation:" +:+ unknown) "configured check_id" "not configured")
    (unknown_ids policy observations).

(** The key of a partition: its values in the order of [partition_by]. *)
Definition partition_key (check : ReconciliationCheck) (o : ReconciliationObservation) : res (list value) :=
  mapM_res (partition_value o) (rc_partition_by check).

(** The loop over the observations of a check: the partitions seen, and the metrics. *)
Definition observation_step (check : ReconciliationCheck) (s : list (list value) * list ReconciliationMetric)
    (o : ReconciliationObservation) : res (list (list value) * list ReconciliationMetric) :=
  match _validate_partition check o with
  | Some partition_error =>
    m ← _error_metric (rc_check_id check) ("invalid_partition:" +:+ rc_check_id check)
          (str_of (VTuple (map VStr (rc_partition_by check)))) partition_error;
    Ok (s.1, s.2 ++ [m])
  | None =>
    key ← partition_key check o;
    if existsb (key_eqb key) s.1 then
      m ← _error_metric (rc_check_id check) ("duplicate_partition:" +:+ rc_check_id check)
            "one observation per partition" (str_of (VDict (combine (rc_partition_by check) key)));
      Ok (s.1, s.2 ++ [m])
    else
      m ← _evaluate_observation check o;
      Ok (key :: s.1, s.2 ++ [m])
  end.

Definition check_metrics (observations : list ReconciliationObservation) (check : ReconciliationCheck) :
    res (list ReconciliationMetric) :=
  let found := observations_for observations (rc_check_id check) in
  if bool_decide (length found = 0%nat) then
    m ← _error_metric (rc_check_id check) ("missing_observation:" +:+ rc_check_id check)
          "at least one observation" "missing";
    Ok [m]
  else if bool_decide (rc_partition_by check = []) && negb (bool_decide (length found = 1%nat)) then
    m ← _error_metric (rc_check_id check) ("duplicate_observation:" +:+ rc_check_id check)
          "exactly one unpartitioned observation" (str_of (VInt (Z.of_nat (length found))));
    Ok [m]
  else
    s ← foldM (observation_step check) ([], []) found;
    Ok s.2.

Definition status_of (metrics : list ReconciliationMetric) : ReconciliationStatus :=
  let failed := failed_metrics metrics in
  if any_blocking failed then RS_FAIL
  else if negb (bool_decide (length failed = 0%nat)) then RS_WARN
  else RS_PASS.

(** The id and the creation time of the result are arguments. *)
Definition evaluate_reconciliation_policy (dataset_run_id : N) (dataset_id : string) (policy : ReconciliationPolicy)
    (accounting : option RowAccounting) (observations : list ReconciliationObservation)
    (base_metrics : list ReconciliationMetric) (reconciliation_id : N) (created_at : datetime) :
    res ReconciliationResult :=
  accounted ← accounting_metrics policy accounting;
  unknown ← unknown_metrics policy observations;
  checked ← mapM_res (check_metrics observations) (rpol_checks policy);
  let metrics := base_metrics ++ accounted ++ unknown ++ concat checked in
  make_ReconciliationResult
    {| rcr_reconciliation_id := reconciliation_id; rcr_dataset_run_id := dataset_run_id;
       rcr_dataset_id := dataset_id; rcr_policy_name := rpol_policy_name policy;
       rcr_status := status_of metrics; rcr_metrics := metrics;
       rcr_blocks_state_advance := rpol_required_for_state_commit policy; rcr_created_at := created_at |}.

(** ** The strategies *)

Definition true_text (b : bool) : value := VStr (if b then "true" else "false").

(** [reconcile_scd2_batch] *)
Definition reconcile_scd2_batch (dataset_run_id : N) (dataset_id : string) (policy : ReconciliationPolicy)
    (accounting : RowAccounting) (proposed_rows : list row) (business_key : list string)
    (observations : list ReconciliationObservation) (force_fail : bool) (reconciliation_id : N)
    (created_at : datetime) : res ReconciliationResult :=
  invariant_passed ← except ["ValueError"] (fun _ => Ok false)
    (_ ← assert_one_current_row proposed_rows business_key; Ok true);
  invariant ← plain_metric "one_current_row_per_business_key" (VStr "true") (true_text invariant_passed) invariant_passed;
  forced ← (if force_fail then m ← plain_metric "forced_test_gate" (VStr "pass") (VStr "fail") false; Ok [m] else Ok []);
  evaluate_reconciliation_policy dataset_run_id dataset_id policy (Some accounting) observations
    (invariant :: forced) reconciliation_id created_at.

(** [reconcile_append] *)
Definition reconcile_append (dataset_run_id : N) (dataset_id : string) (policy : ReconciliationPolicy)
    (accounting : RowAccounting) (inserted replayed duplicate_incoming : nat)
    (observations : list ReconciliationObservation) (force_fail : bool) (reconciliation_id : N)
    (created_at : datetime) : res ReconciliationResult :=
  let accounted := Z.of_nat (inserted + replayed + duplicate_incoming) in
  m1 ← plain_metric "append_accepted_accounted" (VInt (rows_accepted accounting)) (VInt accounted)
         (accounted =? rows_accepted accounting);
  m2 ← plain_metric "append_forced_gate" (VStr "PASS") (VStr (if force_fail then "FAIL" else "PASS")) (negb force_fail);
  evaluate_reconciliation_policy dataset_run_id dataset_id policy (Some accounting) observations [m1; m2]
    reconciliation_id created_at.

(** [reconcile_full_replace] *)
Definition reconcile_full_replace (dataset_run_id : N) (dataset_id : string) (policy : ReconciliationPolicy)
    (accounting : RowAccounting) (candidate_row_count : nat) (evidence : FullSnapshotEvidence)
    (observations : list ReconciliationObservation) (force_fail : bool) (reconciliation_id : N)
    (created_at : datetime) : res ReconciliationResult :=
  m1 ← plain_metric "source_row_count_accounted" (VInt (source_row_count evidence)) (VInt (rows_read accounting))
         (source_row_count evidence =? rows_read accounting);
  m2 ← plain_metric "candidate_matches_accepted_rows" (VInt (rows_accepted accounting))
         (VInt (Z.of_nat candidate_row_count)) (rows_accepted accounting =? Z.of_nat candidate_row_count);
  m3 ← plain_metric "snapshot_complete" (VInt 1) (VInt (if complete evidence then 1 else 0)) (complete evidence);
  forced ← (if force_fail then m ← plain_metric "forced_failure" (VInt 1) (VInt 0) false; Ok [m] else Ok []);
  evaluate_reconciliation_policy dataset_run_id dataset_id policy (Some accounting) observations
    (m1 :: m2 :: m3 :: forced) reconciliation_id created_at.

(** [reconcile_snapshot_diff] *)
Definition reconcile_snapshot_diff (dataset_run_id : N) (dataset_id : string) (policy : ReconciliationPolicy)
    (accounting : RowAccounting) (candidate_row_count target_after_count : Z)
    (observations : list ReconciliationObservation) (force_fail : bool) (reconciliation_id : N)
    (created_at : datetime) : res ReconciliationResult :=
  m1 ← plain_metric "accepted_candidate_count" (VInt (rows_accepted accounting)) (VInt candidate_row_count)
         (rows_accepted accounting =? candidate_row_count);
  m2 ← plain_metric "target_after_nonnegative" (VInt 1) (VInt (if 0 <=? target_after_count then 1 else 0))
         (0 <=? target_after_count);
  forced ← (if force_fail then m ← plain_metric "forced_failure" (VInt 0) (VInt 1) false; Ok [m] else Ok []);
  evaluate_reconciliation_policy dataset_run_id dataset_id policy (Some accounting) observations
    (m1 :: m2 :: forced) reconciliation_id created_at.
End policy.

(** ** The gate *)

(** A metric that does not block. *)
Definition harmless (m : ReconciliationMetric) : Prop := rm_passed m = true \/ rm_blocking m = false.

Section gate.
Context `{PyRuntime}.

(** The number a provider observed, as a double: an integer that is not a boolean and does not
    overflow, or a float. *)
Inductive observed : option value -> Q -> Prop :=
| observed_int z : (Qabs (round_double (inject_Z z)) < inject_Z (2 ^ 1024))%Q -> observed (Some (VInt z)) (round_double (inject_Z z))
| observed_float q : observed (Some (VFloat q)) q.

(** The largest difference a check tolerates, every operation rounded to a double. *)
Definition tolerance (check : ReconciliationCheck) (expected : Q) : Q :=
  round_double (rc_absolute_tolerance check + round_double (rc_relative_tolerance check * Qabs expected)).

(** What each kind of check asks of an observation: two counts or aggregates that differ by at
    most the tolerance (an infinite one tolerates every difference), two equal checksums, a whole
    number of duplicates up to the bound, a fraction of nulls in the unit interval up to the bound,
    a provider that says so. *)
Inductive meets (check : ReconciliationCheck) (o : ReconciliationObservation) : Prop :=
| meets_tolerance expected actual :
    rc_kind check = RK_ROW_COUNT_MATCH \/ rc_kind check = RK_AGGREGATE_MATCH ->
    observed (ro_expected o) expected -> observed (ro_actual o) actual ->
    (Qabs (round_double (actual - expected)) <= tolerance check expected \/
     inject_Z (2 ^ 1024) <= Qabs (tolerance check expected))%Q -> meets check o
| meets_checksum expected actual :
    rc_kind check = RK_CHECKSUM_MATCH -> ro_expected o = Some expected -> ro_actual o = Some actual ->
    py_eqb expected actual = true -> meets check o
| meets_unique duplicates bound q :
    rc_kind check = RK_UNIQUE_KEY -> rc_max_count check = Some bound ->
    observed (ro_actual o) q -> (q == inject_Z duplicates)%Q -> 0 <= duplicates <= bound -> meets check o
| meets_nulls bound q :
    rc_kind check = RK_NULL_RATE -> rc_max_fraction check = Some bound ->
    observed (ro_actual o) q -> (0 <= q <= 1)%Q -> (q <= bound)%Q -> meets check o
| meets_custom : rc_kind check = RK_CUSTOM -> ro_passed o = Some true -> meets check o.

(** The observation is of a partition of the check. *)
Definition partitioned (check : ReconciliationCheck) (o : ReconciliationObservation) : Prop :=
  list_to_set (rc_partition_by check) = (list_to_set (map fst (default [] (ro_partition o))) : gset string).

(** The observations cover a check: some observation, one only without partitions, each of
    another partition; and when the check is an error they meet its criterion. *)
Definition check_satisfied (check : ReconciliationCheck) (found : list ReconciliationObservation) : Prop :=
  found <> [] /\ (rc_partition_by check = [] -> length found = 1%nat) /\
  Forall (partitioned check) found /\
  (exists keys, mapM_res (partition_key check) found = Ok keys /\
     ForallOrdPairs (fun k1 k2 => key_eqb k2 k1 = false) keys) /\
  (rc_severity check = SEV_ERROR -> Forall (meets check) found).

Lemma make_metric_Ok m m' : make_ReconciliationMetric m = Ok m' -> m' = m.
Proof using Type.
  unfold make_ReconciliationMetric. destruct (_ || _); [done|]. destruct (_ && _); [done|]. by intros [= <-].
Qed.

Lemma error_metric_harmful id name e a m : _error_metric id name e a = Ok m -> ~ harmless m.
Proof using Type. intros ->%make_metric_Ok. unfold harmless. simpl. by intros [|]. Qed.

Lemma status_of_FAIL metrics : status_of metrics <> RS_FAIL <-> Forall harmless metrics.
Proof using Type.
  unfold status_of, any_blocking, failed_metrics. rewrite Forall_forall.
  destruct (existsb _ _) eqn:E; [|split; [intros _ m Hm|intros _; by destruct (negb _)]].
  - split; [done|]. intros Hall _. apply existsb_elem in E as (m & Hm & Hb).
    apply list_elem_of_filter in Hm as [Hf Hm]. destruct (Hall m Hm); congruence.
  - destruct (rm_passed m) eqn:Ep; [by left|right]. destruct (rm_blocking m) eqn:Eb; [|done].
    apply not_true_iff_false in E. destruct E. apply existsb_elem. exists m. by rewrite list_elem_of_filter.
Qed.

Lemma status_of_PASS metrics : status_of metrics = RS_PASS <-> Forall (fun m => rm_passed m = true) metrics.
Proof using Type.
  unfold status_of, any_blocking, failed_metrics. split.
  - destruct (existsb _ _); [done|]. case_bool_decide as Hl; [|done]. intros _.
    apply nil_length_inv, filter_nil_iff in Hl. eapply Forall_impl; [exact Hl|]. intros m Hm. simpl in Hm. by destruct (rm_passed m).
  - intros Hall. rewrite filter_none; [done|]. eapply Forall_impl; [exact Hall|]. intros m Hm. simpl in *. congruence.
Qed.

(** The constructor accepts the status of its metrics. *)
Lemma make_result_Ok r r' : make_ReconciliationResult r = Ok r' -> r' = r.
Proof using Type.
  unfold make_ReconciliationResult. destruct (_ || _); [done|]. destruct (require_aware_datetime _ _); [|done].
  cbn [mbind res_bind]. destruct (rcr_status r); repeat (case_match; try done); by intros [= <-].
Qed.

Lemma validate_partition_None check o : _validate_partition check o = None <-> partitioned check o.
Proof using Type. unfold _validate_partition, partitioned. by case_bool_decide. Qed.

Lemma numeric_observed v n : _numeric v = Ok n -> forall q, n = Some q <-> observed v q.
Proof using Type.
  unfold _numeric, float_of_int, overflows. intros Hn q. destruct v as [[]|]; try (injection Hn as <-; split; [done|by inversion 1]).
  - destruct (Qle_bool _ _) eqn:E; [done|]. injection Hn as <-. split; [intros [= <-]|by inversion 1].
    constructor. apply Qnot_le_lt. intros Hle%Qle_bool_iff. congruence.
  - injection Hn as <-. split; [intros [= <-]; constructor|by inversion 1].
Qed.

Lemma within_tolerance_spec check e a :
  _within_tolerance e a (rc_absolute_tolerance check) (rc_relative_tolerance check) = true <->
  (Qabs (round_double (a - e)) <= tolerance check e \/ inject_Z (2 ^ 1024) <= Qabs (tolerance check e))%Q.
Proof using Type.
  unfold _within_tolerance, overflows, fle, fabs, fsub, fadd, fmul, tolerance.
  rewrite orb_true_iff, !Qle_bool_iff. tauto.
Qed.

Lemma whole_number q z : (q == inject_Z z)%Q <-> float_is_integer q = true /\ int_of_float q = z.
Proof using Type.
  unfold float_is_integer, int_of_float, Qeq. cbn -[Z.mul Z.quot Z.modulo]. rewrite Z.mul_1_r, Z.eqb_eq. split.
  - intros ->. split; [by apply Z.mod_mul|]. by apply Z.quot_mul.
  - intros [Hm <-]. set (d := Zpos (Qden q)) in *.
    assert (Qnum q = Qnum q / d * d) as -> by (pose proof (Z.div_mod (Qnum q) d); lia).
    by rewrite Z.quot_mul.
Qed.

(** An observed value, or none. *)
Lemma numeric_cases v n : _numeric v = Ok n ->
  (exists q, n = Some q /\ observed v q /\ forall q', observed v q' -> q' = q) \/ (n = None /\ forall q, ~ observed v q).
Proof using Type.
  intros Hn. pose proof (numeric_observed _ _ Hn) as Ho. destruct n as [q|]; [left|right].
  - exists q. split; [done|]. split; [by apply Ho|]. intros q' Hq'%Ho. congruence.
  - split; [done|]. by intros q Hq%Ho.
Qed.

Lemma tolerance_verdict check o e a passed :
  rc_kind check = RK_ROW_COUNT_MATCH \/ rc_kind check = RK_AGGREGATE_MATCH ->
  verdict check o = Ok (e, a, passed) -> passed = true <-> meets check o.
Proof using Type.
  intros Hk Hv.
  assert (exists en an, _numeric (ro_expected o) = Ok en /\ _numeric (ro_actual o) = Ok an /\
    passed = match en, an with Some x, Some y => _within_tolerance x y (rc_absolute_tolerance check) (rc_relative_tolerance check) | _, _ => false end)
    as (en & an & He & Ha & ->).
  { unfold verdict in Hv. destruct Hk as [Hk|Hk]; rewrite Hk in Hv;
      apply bind_Ok in Hv as (en & He & Hv); apply bind_Ok in Hv as (an & Ha & Hv); exists en, an; split_and!; try done;
      destruct en, an; by injection Hv. }
  split.
  - destruct (numeric_cases _ _ He) as [(x & -> & Hx & _)|[-> _]]; [|done].
    destruct (numeric_cases _ _ Ha) as [(y & -> & Hy & _)|[-> _]]; [|done].
    intros Hw%within_tolerance_spec. by eapply meets_tolerance.
  - intros [x y _ Hx Hy Hw| | | |]; [|naive_solver congruence..].
    apply (numeric_observed _ _ He) in Hx as ->. apply (numeric_observed _ _ Ha) in Hy as ->. by apply within_tolerance_spec.
Qed.

(** The observation meets the criterion of another kind. *)
#[local] Ltac other_kind := first [congruence | match goal with H : _ \/ _ |- _ => destruct H; congruence end].

(** The verdict is what the kind of the check asks. *)
Lemma verdict_meets check o e a passed : verdict check o = Ok (e, a, passed) -> passed = true <-> meets check o.
Proof using Type.
  destruct (rc_kind check) eqn:Ek; [by apply tolerance_verdict; left| | |by apply tolerance_verdict; right| |];
    unfold verdict; rewrite Ek; intros Hv.
  - apply bind_Ok in Hv as (an & Ha & Hv). destruct (numeric_cases _ _ Ha) as [(y & -> & Hy & Huniq)|[-> Hnone]].
    + destruct (_ || _) eqn:Er.
      * injection Hv as <- <- <-. split; [done|]. intros [| |z bound q _ _ Hq%Huniq [Hi Hz]%whole_number Hle| |]; try other_kind. subst q.
        rewrite Hi, orb_false_r in Er. unfold flt in Er. apply negb_true_iff, not_true_iff_false in Er. destruct Er.
        apply Qle_bool_iff. rewrite (proj2 (whole_number y z) (conj Hi Hz)). change 0%Q with (inject_Z 0). rewrite <-Zle_Qle. lia.
      * destruct (rc_max_count check) as [bound|] eqn:Eb; [|done]. injection Hv as <- <- <-.
        apply orb_false_iff in Er as [Hpos Hi%negb_false_iff]. rewrite Z.leb_le.
        assert (y == inject_Z (int_of_float y))%Q as Hw by by apply whole_number. split.
        -- intros Hle. eapply meets_unique; [done..|exact Hw|]. split; [|done].
           unfold flt in Hpos. apply negb_false_iff, Qle_bool_iff in Hpos. rewrite Hw in Hpos. change 0%Q with (inject_Z 0) in Hpos.
           by rewrite <-Zle_Qle in Hpos.
        -- intros [| |z bound' q _ Hb Hq%Huniq [_ <-]%whole_number Hle| |]; try other_kind. subst q. assert (bound' = bound) by congruence. lia.
    + injection Hv as <- <- <-. split; [done|]. intros []; try other_kind. naive_solver.
  - apply bind_Ok in Hv as (an & Ha & Hv). destruct (numeric_cases _ _ Ha) as [(y & -> & Hy & Huniq)|[-> Hnone]].
    + destruct (flt y 0 || flt 1 y) eqn:Er; unfold flt in Er.
      * injection Hv as <- <- <-. split; [done|]. intros [| | |bound q _ _ Hq%Huniq [H0%Qle_bool_iff H1%Qle_bool_iff] _|]; try other_kind. subst q.
        by rewrite H0, H1 in Er.
      * destruct (rc_max_fraction check) as [bound|] eqn:Eb; [|done]. injection Hv as <- <- <-.
        apply orb_false_iff in Er as [H0%negb_false_iff%Qle_bool_iff H1%negb_false_iff%Qle_bool_iff].
        unfold fle. rewrite Qle_bool_iff. split; [intros Hle; by eapply meets_nulls|].
        intros [| | |bound' q _ Hb Hq%Huniq _ Hle|]; other_kind.
    + injection Hv as <- <- <-. split; [done|]. intros []; try other_kind. naive_solver.
  - destruct (ro_expected o) as [ex|] eqn:Ee; [destruct (ro_actual o) as [ac|] eqn:Eac|]; injection Hv as <- <- <-;
      (split; [try done|intros []; other_kind]). intros Hp. by eapply meets_checksum.
  - destruct (ro_passed o) as [p|] eqn:Ep; injection Hv as <- <- <-; (split; [|intros []; other_kind]); [|done].
    intros ->. by apply meets_custom.
Qed.

(** The metric of an observation blocks when the check is an error and its criterion is not met. *)
Lemma evaluate_observation_harmless check o m :
  _evaluate_observation check o = Ok m -> harmless m <-> (rc_severity check = SEV_ERROR -> meets check o).
Proof using Type.
  unfold _evaluate_observation, _metric. destruct (_partition_label check o) as [name|]; [|done].
  destruct (verdict check o) as [[[e a] passed]|] eqn:Ev; [|done]. cbn [mbind res_bind fst snd].
  intros ->%make_metric_Ok. unfold harmless, _blocking. simpl. rewrite (verdict_meets _ _ _ _ _ Ev). split.
  - intros [?|Hb]; [done|]. by rewrite bool_decide_eq_false in Hb.
  - intros Hm. destruct (rc_severity check); [left; by apply Hm|by right].
Qed.

(** The loop over the observations of a check, from the partitions already seen. *)
Definition covers check (seen : list (list value)) (found : list ReconciliationObservation) : Prop :=
  Forall (partitioned check) found /\
  (exists keys, mapM_res (partition_key check) found = Ok keys /\
     ForallOrdPairs (fun k1 k2 => key_eqb k2 k1 = false) keys /\
     Forall (fun k => existsb (key_eqb k) seen = false) keys) /\
  (rc_severity check = SEV_ERROR -> Forall (meets check) found).

Lemma covers_nil check seen : covers check seen [].
Proof using Type. split_and!; [done| |done]. exists []. split_and!; try done. constructor. Qed.

Lemma covers_cons check seen o key found :
  partition_key check o = Ok key ->
  covers check seen (o :: found) <->
  (partitioned check o /\ existsb (key_eqb key) seen = false /\ (rc_severity check = SEV_ERROR -> meets check o)) /\
  covers check (key :: seen) found.
Proof using Type.
  intros Hkey. unfold covers. rewrite !Forall_cons. split.
  - intros ([Hp Hps] & (keys & Hk & Hord & Hseen) & Hm). simpl in Hk. rewrite Hkey in Hk.
    destruct (mapM_res _ found) as [keys'|]; [|done]. injection Hk as <-. inversion Hord as [|? ? Hfresh Hord']; subst.
    apply Forall_cons in Hseen as [Hs Hseen].
    split; [split_and!; try done; intros He; by destruct (Hm He)|].
    split_and!; [done| |intros He; by destruct (Hm He)].
    exists keys'. split_and!; try done. rewrite Forall_forall in *. intros k Hin. simpl.
    by rewrite (Hseen k Hin), (Hfresh k Hin).
  - intros ((Hp & Hs & Hm) & Hps & (keys & Hk & Hord & Hseen) & Hms). split_and!; [done..| |].
    + exists (key :: keys). simpl. rewrite Hkey, Hk. split_and!; try done.
      * constructor; [|done]. eapply Forall_impl; [exact Hseen|]. intros k Hk'. simpl in Hk'.
        by apply orb_false_iff in Hk' as [? _].
      * apply Forall_cons. split; [done|]. eapply Forall_impl; [exact Hseen|]. intros k Hk'. simpl in Hk'.
        by apply orb_false_iff in Hk' as [_ ?].
    + auto.
Qed.

(** The keys of a partitioned observation. *)
Lemma observation_loop check found seen ms s' :
  foldM (observation_step check) (seen, ms) found = Ok s' ->
  exists new, s'.2 = ms ++ new /\ (Forall harmless new <-> covers check seen found).
Proof using Type.
  revert seen ms. induction found as [|o found IH]; intros seen ms; cbn [foldM].
  { intros [= <-]. exists []. rewrite app_nil_r. split; [done|]. split; [intros _; apply covers_nil|done]. }
  destruct (observation_step check (seen, ms) o) as [[seen1 ms1]|] eqn:E; [|done].
  intros (new & Hnew & Hiff)%IH. unfold observation_step in E. cbn [fst snd] in E.
  assert (forall m, ms1 = ms ++ [m] -> s'.2 = ms ++ (m :: new)) as Hsplit.
  { intros m ->. by rewrite Hnew, <-app_assoc. }
  destruct (_validate_partition check o) as [err|] eqn:Ev.
  - destruct (_error_metric _ _ _ _) as [m|] eqn:Em; [|done]. injection E as <- <-.
    exists (m :: new). split; [by apply Hsplit|]. rewrite Forall_cons. split.
    + intros [Hh _]. by destruct (error_metric_harmful _ _ _ _ _ Em).
    + intros (Hp & _). apply Forall_cons in Hp as [Hp%validate_partition_None _]. by rewrite Ev in Hp.
  - apply validate_partition_None in Ev. destruct (partition_key check o) as [key|] eqn:Ek; [|done].
    cbn [mbind res_bind] in E. pose proof (covers_cons check seen o key found Ek) as Hcons.
    destruct (existsb (key_eqb key) seen) eqn:Ed.
    + destruct (_error_metric _ _ _ _) as [m|] eqn:Em; [|done]. injection E as <- <-.
      exists (m :: new). split; [by apply Hsplit|]. rewrite Forall_cons, Hcons. split; [|intros ((_ & ? & _) & _); congruence].
      intros [Hh _]. by destruct (error_metric_harmful _ _ _ _ _ Em).
    + destruct (_evaluate_observation check o) as [m|] eqn:Em; [|done]. injection E as <- <-.
      exists (m :: new). split; [by apply Hsplit|].
      rewrite Forall_cons, (evaluate_observation_harmless check o m Em), Hiff, Hcons. tauto.
Qed.

Lemma check_metrics_harmless observations check ms :
  check_metrics observations check = Ok ms ->
  Forall harmless ms <-> check_satisfied check (observations_for observations (rc_check_id check)).
Proof using Type.
  unfold check_metrics, check_satisfied. set (found := observations_for _ _).
  case_bool_decide as Hl.
  { destruct (_error_metric _ _ _ _) as [m|] eqn:Em; [|done]. intros [= <-]. rewrite Forall_singleton. split.
    - intros Hh. by destruct (error_metric_harmful _ _ _ _ _ Em).
    - intros (Hne & _). by apply nil_length_inv in Hl. }
  destruct (bool_decide (rc_partition_by check = []) && _) eqn:Eu.
  { apply andb_true_iff in Eu as [Hp Hn]. apply bool_decide_eq_true in Hp. rewrite negb_true_iff, bool_decide_eq_false in Hn.
    destruct (_error_metric _ _ _ _) as [m|] eqn:Em; [|done]. intros [= <-]. rewrite Forall_singleton. split.
    - intros Hh. by destruct (error_metric_harmful _ _ _ _ _ Em).
    - intros (_ & Hone & _). exfalso. auto. }
  assert (rc_partition_by check = [] -> length found = 1%nat) as Hone.
  { intros Hp. apply andb_false_iff in Eu as [Eu|Eu]; [by rewrite bool_decide_eq_false in Eu|].
    by rewrite negb_false_iff, bool_decide_eq_true in Eu. }
  assert (found <> []) as Hne by (intros E; by rewrite E in Hl).
  destruct (foldM _ _ _) as [s|] eqn:Ef; [|done]. intros [= <-].
  apply observation_loop in Ef as (new & -> & ->). simpl. unfold covers. split.
  - intros (Hp & (keys & Hk & Hord & _) & Hm). split_and!; try done. by exists keys.
  - intros (_ & _ & Hp & (keys & Hk & Hord) & Hm). split_and!; try done. exists keys. split_and!; try done.
    by apply Forall_true.
Qed.

Lemma accounting_metrics_harmless policy accounting ms :
  accounting_metrics policy accounting = Ok ms ->
  Forall harmless ms <->
  (rpol_include_row_accounting policy = true ->
   exists a, accounting = Some a /\ rows_read a = rows_accepted a + rows_quarantined a + rows_filtered a).
Proof using Type.
  unfold accounting_metrics. destruct (rpol_include_row_accounting policy); [|by intros [= <-]; split].
  destruct accounting as [a|].
  - destruct (make_ReconciliationMetric _) as [m|] eqn:Em; [|done]. apply make_metric_Ok in Em as ->.
    intros [= <-]. rewrite Forall_singleton. unfold harmless. simpl. rewrite Z.eqb_eq. split.
    + intros [?|?] _; [by exists a|done].
    + intros Ha. destruct (Ha eq_refl) as (a' & [= <-] & ?). by left.
  - destruct (_error_metric _ _ _ _) as [m|] eqn:Em; [|done]. intros [= <-]. rewrite Forall_singleton. split.
    + intros Hh. by destruct (error_metric_harmful _ _ _ _ _ Em).
    + intros Ha. by destruct (Ha eq_refl) as (? & ? & _).
Qed.

Lemma unknown_metrics_harmless policy observations ms :
  unknown_metrics policy observations = Ok ms ->
  Forall harmless ms <-> Forall (fun o => ro_check_id o ∈ map rc_check_id (rpol_checks policy)) observations.
Proof using Type.
  intros Hms%mapM_res_Forall2. assert (Forall harmless ms <-> unknown_ids policy observations = []) as ->.
  { split; [|by intros E; rewrite E in Hms; inversion Hms]. destruct Hms as [|u m us ms Hm _]; [done|].
    intros [Hh _]%Forall_cons. by destruct (error_metric_harmful _ _ _ _ _ Hm). }
  unfold unknown_ids. rewrite filter_nil_iff, !Forall_forall. unfold sorted_names. split.
  - intros Hall o Ho. destruct (decide (ro_check_id o ∈ map rc_check_id (rpol_checks policy))) as [?|Hn]; [done|].
    exfalso. apply (Hall (ro_check_id o)); [|done]. apply elem_of_sort_by, elem_of_remove_dups, list_elem_of_fmap. by exists o.
  - intros Hall id Hid. apply elem_of_sort_by, elem_of_remove_dups, list_elem_of_fmap in Hid as (o & -> & Ho). auto.
Qed.

Lemma checked_harmless observations checks mss :
  mapM_res (check_metrics observations) checks = Ok mss ->
  Forall harmless (concat mss) <->
  Forall (fun check => check_satisfied check (observations_for observations (rc_check_id check))) checks.
Proof using Type.
  intros Hmss%mapM_res_Forall2. induction Hmss as [|check ms checks mss Hms _ IH]; [done|].
  simpl. by rewrite Forall_app, Forall_cons, IH, (check_metrics_harmless _ _ _ Hms).
Qed.

(** A result blocks state when its policy requires reconciliation. *)
Lemma evaluate_blocks run dataset policy accounting observations base id at_ r :
  evaluate_reconciliation_policy run dataset policy accounting observations base id at_ = Ok r ->
  rcr_blocks_state_advance r = rpol_required_for_state_commit policy.
Proof using Type.
  unfold evaluate_reconciliation_policy. destruct (accounting_metrics _ _); [|done].
  destruct (unknown_metrics _ _); [|done]. destruct (mapM_res _ _); [|done].
  cbn [mbind res_bind]. by intros ->%make_result_Ok.
Qed.

(** What a policy asks of the observations: each is of a configured check, and each check is satisfied. *)
Definition policy_satisfied (policy : ReconciliationPolicy) (observations : list ReconciliationObservation) : Prop :=
  Forall (fun o => ro_check_id o ∈ map rc_check_id (rpol_checks policy)) observations /\
  Forall (fun check => check_satisfied check (observations_for observations (rc_check_id check))) (rpol_checks policy).

(** The status of a result, by what the policy asks. *)
Lemma evaluate_status run dataset policy accounting observations base id at_ r :
  evaluate_reconciliation_policy run dataset policy accounting observations base id at_ = Ok r ->
  rcr_status r = status_of (rcr_metrics r) /\
  (rcr_status r <> RS_FAIL <->
     Forall harmless base /\
     (rpol_include_row_accounting policy = true ->
      exists a, accounting = Some a /\ rows_read a = rows_accepted a + rows_quarantined a + rows_filtered a) /\
     policy_satisfied policy observations).
Proof using Type.
  unfold evaluate_reconciliation_policy. destruct (accounting_metrics _ _) as [acc|] eqn:Ea; [|done].
  destruct (unknown_metrics _ _) as [unk|] eqn:Eu; [|done]. destruct (mapM_res _ _) as [chk|] eqn:Ec; [|done].
  cbn [mbind res_bind]. intros ->%make_result_Ok. simpl. split; [done|]. unfold policy_satisfied.
  by rewrite status_of_FAIL, !Forall_app, (accounting_metrics_harmless _ _ _ Ea), (unknown_metrics_harmless _ _ _ Eu),
    (checked_harmless _ _ _ Ec).
Qed.

(** What reconciling an SCD2 batch decides. *)
Lemma reconcile_scd2_spec run dataset policy accounting rows bk observations force id at_ r :
  reconcile_scd2_batch run dataset policy accounting rows bk observations force id at_ = Ok r ->
  rcr_blocks_state_advance r = rpol_required_for_state_commit policy /\
  (rcr_status r <> RS_FAIL -> one_current bk rows /\ force = false /\ policy_satisfied policy observations).
Proof using Type.
  unfold reconcile_scd2_batch. intros (ok & Hok & Hr)%bind_Ok. apply bind_Ok in Hr as (m & Hm & Hr).
  apply bind_Ok in Hr as (forced & Hf & Hr). split; [by apply evaluate_blocks in Hr|].
  apply evaluate_status in Hr as (_ & ->). intros ([Hinv Hforced]%Forall_cons & _ & Hp). apply make_metric_Ok in Hm as ->.
  split; [|split; [|done]].
  - destruct Hinv as [Hp'|Hp']; [|done]. simpl in Hp'. subst ok. apply assert_one_current_iff.
    unfold except in Hok. destruct (assert_one_current_row rows bk) as [[]|e]; [done|]. cbn in Hok. by destruct (bool_decide _).
  - destruct force; [|done]. apply bind_Ok in Hf as (m & Hm & [= <-]). apply make_metric_Ok in Hm as ->.
    apply Forall_singleton in Hforced as [Hp'|Hp']; done.
Qed.
End gate.


(** ** A witness *)

Definition demo_check (id : string) (kind : ReconciliationCheckKind) (severity : ReconciliationSeverity)
    (partition_by : list string) (column : option string) (max_fraction : option Q) : ReconciliationCheck :=
  {| rc_check_id := id; rc_kind := kind; rc_severity := severity; rc_partition_by := partition_by;
     rc_columns := []; rc_column := column; rc_aggregate := None; rc_absolute_tolerance := 1%Q;
     rc_relative_tolerance := 0%Q; rc_max_count := None; rc_max_fraction := max_fraction; rc_extension := None |}.

Definition demo_policy : ReconciliationPolicy :=
  {| rpol_policy_name := "daily"; rpol_required_for_state_commit := true; rpol_include_row_accounting := true;
     rpol_checks := [demo_check "rows" RK_ROW_COUNT_MATCH SEV_ERROR ["region"] None None;
                     demo_check "nulls" RK_NULL_RATE SEV_WARNING [] (Some "name") (Some (1 # 4)%Q)] |}.

Definition demo_observation (id : string) (expected actual : option value)
    (partition : option (list (string * value))) : ReconciliationObservation :=
  {| ro_check_id := id; ro_expected := expected; ro_actual := actual; ro_passed := None; ro_partition := partition |}.

(** Two regions within one row of each other, and too many nulls for a warning. *)
Definition demo_observations : list ReconciliationObservation :=
  [demo_observation "rows" (Some (VInt 10)) (Some (VInt 11)) (Some [("region", VStr "eu")]);
   demo_observation "nulls" None (Some (VFloat (1 # 2)%Q)) None;
   demo_observation "rows" (Some (VInt 7)) (Some (VFloat 7%Q)) (Some [("region", VStr "us")])].

Definition demo_accounting : RowAccounting :=
  {| rows_read := 18; rows_accepted := 17; rows_quarantined := 1; rows_filtered := 0 |}.

#[local] Existing Instance demo_runtime.
Definition demo_reconciliation : res ReconciliationResult :=
  evaluate_reconciliation_policy 1 "orders" demo_policy (Some demo_accounting) demo_observations [] 2 (utc 0).

Example demo_status : rcr_status <$> demo_reconciliation = Ok RS_WARN.
Proof. vm_compute. reflexivity. Qed.

