(* ===== verification/RunContracts.v ===== *)
(** * What a run records ([contracts/audit.py], [contracts/quarantine.py],
    [contracts/capture_receipt.py], [contracts/recovery.py], [contracts/rebuild.py])

    String fields hold the value after [str_strip_whitespace]. *)

From stdpp Require Import base gmap strings list.
From S2P Require Import Prelude PyValue PyDict Temporal ConfigTypes RunAudit DispatchContracts.
#[local] Open Scope Z_scope.

(** ** Steps *)

Inductive StepStatus := SS_PENDING | SS_RUNNING | SS_SUCCEEDED | SS_FAILED | SS_SKIPPED.
#[export] Instance StepStatus_eq_dec : EqDecision StepStatus.
Proof. solve_decision. Defined.

Record StepRunAudit := {
  sra_step_run_id : N;
  sra_dataset_run_id : N;
  sra_step_name : string;
  sra_status : StepStatus;
  sra_started_at : datetime;
  sra_completed_at : option datetime;
  sra_details : option (list (string * value))
}.

Definition make_StepRunAudit (a : StepRunAudit) : res StepRunAudit :=
  if negb (nonempty (sra_step_name a)) then bad_field
  else _ ← validate_span (sra_started_at a) (sra_completed_at a); Ok a.

Definition make_DatasetRunAudit (a : DatasetRunAudit) : res DatasetRunAudit :=
  _ ← validate_DatasetRunAudit a; Ok a.

(** ** Quarantine *)

Inductive QuarantineScope := QS_ROW | QS_BATCH.
#[export] Instance QuarantineScope_eq_dec : EqDecision QuarantineScope.
Proof. solve_decision. Defined.

Record QuarantineBatch := {
  qb_quarantine_id : N;
  qb_dataset_run_id : N;
  qb_dataset_id : string;
  qb_scope : QuarantineScope;
  qb_row_count : Z;
  qb_reason_code : string;
  qb_reason_detail : option string;
  qb_source_reference : option string;
  qb_created_at : datetime;
  qb_replayed_by_dataset_run_id : option N
}.

Definition make_QuarantineBatch (b : QuarantineBatch) : res QuarantineBatch :=
  if negb (nonempty (qb_dataset_id b)) || (qb_row_count b <? 1) || negb (nonempty (qb_reason_code b)) then bad_field
  else Ok b.

(** ** Capture receipts *)

Record CaptureReceipt := {
  cr_capture_receipt_id : N;
  cr_dataset_run_id : N;
  cr_dataset_id : string;
  cr_capture_strategy : CaptureStrategy;
  cr_execution_engine : ExecutionEngine;
  cr_progress_owner : ProgressOwner;
  cr_native_run_id : option string;
  cr_source_reference : option string;
  cr_landing_reference : string;
  cr_rows_read : Z;
  cr_rows_written : Z;
  cr_source_lower_bound : option value;
  cr_source_upper_bound : option value;
  cr_snapshot_id : option string;
  cr_complete_snapshot : option bool;
  cr_external_checkpoint_reference : option string;
  cr_schema_version : option string;
  cr_started_at : datetime;
  cr_completed_at : datetime
}.

(** The field bounds and [validate_receipt]. *)
Definition make_CaptureReceipt (c : CaptureReceipt) : res CaptureReceipt :=
  if negb (nonempty (cr_dataset_id c)) || negb (nonempty (cr_landing_reference c))
     || (cr_rows_read c <? 0) || (cr_rows_written c <? 0) then bad_field
  else
    _ ← validate_span (cr_started_at c) (Some (cr_completed_at c));
    let snapshots := bool_decide (cr_capture_strategy c ∈ [CS_FULL; CS_SNAPSHOT]) in
    if cr_rows_written c >? cr_rows_read c then
      raise "ValueError" "rows_written cannot exceed rows_read for capture receipt"
    else if snapshots && negb (is_some (cr_snapshot_id c)) then
      raise "ValueError" "FULL/SNAPSHOT capture receipt requires snapshot_id"
    else if snapshots && negb (is_some (cr_complete_snapshot c)) then
      raise "ValueError" "FULL/SNAPSHOT capture receipt requires completeness evidence"
    else if bool_decide (cr_progress_owner c = PO_EXTERNAL)
            && bool_decide (cr_capture_strategy c ∈ [CS_WATERMARK; CS_CDC; CS_STREAM])
            && falsy_string (cr_external_checkpoint_reference c) then
      raise "ValueError" "external progress owner requires external_checkpoint_reference"
    else Ok c.

(** ** Rebuild and reprocess requests *)

Inductive RebuildScope := TARGET_ONLY | CAPTURE_AND_TARGET | AUTHORITATIVE_RESET.
#[export] Instance RebuildScope_eq_dec : EqDecision RebuildScope.
Proof. solve_decision. Defined.

(** [authoritative_reset] is [Literal[True]]. *)
Record FullRebuildRequestSpec := { frs_rebuild_scope : RebuildScope }.

Definition scope_of (v : value) : option RebuildScope :=
  match v with
  | VStr "TARGET_ONLY" => Some TARGET_ONLY
  | VStr "CAPTURE_AND_TARGET" => Some CAPTURE_AND_TARGET
  | VStr "AUTHORITATIVE_RESET" => Some AUTHORITATIVE_RESET
  | _ => None
  end.

(** [FullRebuildRequestSpec.model_validate(payload)]: exactly the two fields. *)
Definition validate_rebuild_spec (payload : list (string * value)) : res FullRebuildRequestSpec :=
  match dget payload "rebuild_scope" ≫= scope_of, dget payload "authoritative_reset" with
  | Some scope, Some (VBool true) =>
    if forallb (fun kv => bool_decide (kv.1 ∈ ["rebuild_scope"; "authoritative_reset"])) payload then
      Ok {| frs_rebuild_scope := scope |}
    else bad_field
  | _, _ => bad_field
  end.

Inductive ReprocessRequestStatus := RR_PENDING | RR_RUNNING | RR_SUCCEEDED | RR_FAILED | RR_CANCELLED.
#[export] Instance ReprocessRequestStatus_eq_dec : EqDecision ReprocessRequestStatus.
Proof. solve_decision. Defined.

Record ReprocessRequest := {
  rr_reprocess_request_id : N;
  rr_dataset_id : string;
  rr_run_mode : RunMode;
  rr_reason : string;
  rr_requested_by : string;
  rr_original_pipeline_run_id : option N;
  rr_original_dataset_run_id : option N;
  rr_range_json : option (list (string * value));
  rr_status : ReprocessRequestStatus;
  rr_created_at : datetime;
  rr_updated_at : option datetime
}.

(** [self.range_json or {}] *)
Definition range_of (r : ReprocessRequest) : list (string * value) := default [] (rr_range_json r).

(** The field bounds and [validate_request]. *)
Definition make_ReprocessRequest (r : ReprocessRequest) : res ReprocessRequest :=
  if negb (nonempty (rr_dataset_id r)) || negb (nonempty (rr_reason r)) || negb (nonempty (rr_requested_by r)) then bad_field
  else
    _ ← match rr_run_mode r with
        | RM_NORMAL => raise "ValueError" "reprocess request cannot use NORMAL run mode"
        | RM_RETRY =>
          if is_some (rr_original_dataset_run_id r) then Ok tt
          else raise "ValueError" "RETRY request requires original_dataset_run_id"
        | RM_BACKFILL =>
          if is_some (dget (range_of r) "lower") && is_some (dget (range_of r) "upper") then Ok tt
          else raise "ValueError" "BACKFILL request requires lower and upper range_json bounds"
        | RM_REPLAY =>
          if negb (is_some (rr_original_dataset_run_id r)) && negb (truthy (default VNone (dget (range_of r) "quarantine_ids"))) then
            raise "ValueError" "REPLAY request requires original_dataset_run_id or quarantine_ids"
          else Ok tt
        | RM_FULL_REBUILD =>
          match validate_rebuild_spec (range_of r) with
          | Ok _ => Ok tt
          | Raise _ => raise "ValueError" "FULL_REBUILD request requires range_json with exact rebuild_scope"
          end
        end;
    match rr_updated_at r with
    | Some updated =>
      if eqb (is_naive updated) (is_naive (rr_created_at r)) then
        if dt_utc updated <? dt_utc (rr_created_at r) then
          raise "ValueError" "updated_at cannot be before created_at"
        else Ok r
      else raise "TypeError" "can't compare offset-naive and offset-aware datetimes"
    | None => Ok r
    end.

(** [ReprocessRequest.full_rebuild_spec] *)
Definition full_rebuild_spec (r : ReprocessRequest) : res FullRebuildRequestSpec :=
  if negb (bool_decide (rr_run_mode r = RM_FULL_REBUILD)) then
    raise "ValueError" "full_rebuild_spec is only valid for FULL_REBUILD requests"
  else validate_rebuild_spec (range_of r).

Record DatasetAttemptLineage := {
  dal_dataset_run_id : N;
  dal_dataset_id : string;
  dal_root_dataset_run_id : N;
  dal_previous_dataset_run_id : option N;
  dal_attempt : Z;
  dal_run_mode : RunMode;
  dal_reprocess_request_id : option N;
  dal_created_at : datetime
}.

(** The field bounds and [validate_lineage]. *)
Definition make_DatasetAttemptLineage (l : DatasetAttemptLineage) : res DatasetAttemptLineage :=
  if negb (nonempty (dal_dataset_id l)) || (dal_attempt l <? 1) then bad_field
  else if dal_attempt l =? 1 then
    if is_some (dal_previous_dataset_run_id l) then
      raise "ValueError" "attempt 1 cannot have previous_dataset_run_id"
    else if negb (dal_root_dataset_run_id l =? dal_dataset_run_id l)%N then
      raise "ValueError" "attempt 1 must be its own root_dataset_run_id"
    else Ok l
  else if negb (is_some (dal_previous_dataset_run_id l)) then
    raise "ValueError" "attempt > 1 requires previous_dataset_run_id"
  else Ok l.

(** ** Lemmas *)

(** A constructor returns the fields it is given. *)
Ltac made := intros; repeat (case_match; try discriminate); simplify_eq/=; try done.

Lemma make_StepRunAudit_Ok a a' : make_StepRunAudit a = Ok a' -> a' = a.
Proof. unfold make_StepRunAudit. destruct (nonempty _); [|done]. simpl. intros (u & _ & [= <-])%bind_Ok. done. Qed.

Lemma make_DatasetRunAudit_Ok a a' : make_DatasetRunAudit a = Ok a' -> a' = a.
Proof. unfold make_DatasetRunAudit. by intros (u & _ & [= <-])%bind_Ok. Qed.

Lemma make_QuarantineBatch_Ok b b' : make_QuarantineBatch b = Ok b' -> b' = b.
Proof. unfold make_QuarantineBatch. destruct (_ || _); [done|]. by intros [= <-]. Qed.

Lemma make_DatasetAttemptLineage_Ok l l' : make_DatasetAttemptLineage l = Ok l' -> l' = l.
Proof. unfold make_DatasetAttemptLineage. made. Qed.
