(* ===== verification/Quality.v ===== *)
(** * Bronze records and row rules ([data_plane/bronze.py], [quality/rules.py])

    Normalising reads the clock once per row.  The predicates of the rules are the domain's. *)

From stdpp Require Import base gmap strings list.
From S2P Require Import Prelude Effects PyValue TypedValues.

Record BronzeRecord := {
  br_data : row;
  br_ingested_at : datetime;
  br_run_id : N;
  br_dataset_run_id : N;
  br_source_system : string;
  br_source_object : string;
  br_operation : string;
  br_source_commit_ts : option datetime;
  br_source_sequence : option string;
  br_schema_version : Z
}.

Definition optional_dt (d : option datetime) : value := match d with Some d => VDt d | None => VNone end.
Definition optional_str (s : option string) : value := match s with Some s => VStr s | None => VNone end.

Section bronze.
Context `{PyRuntime} `{ScalarText}.

(** [BronzeRecord.as_flat_record] *)
Definition as_flat_record (b : BronzeRecord) : row :=
  <["_framework_ingested_at" := VDt (br_ingested_at b)]>
  (<["_framework_run_id" := VStr (uuid_text (br_run_id b))]>
  (<["_framework_dataset_run_id" := VStr (uuid_text (br_dataset_run_id b))]>
  (<["_framework_source_system" := VStr (br_source_system b)]>
  (<["_framework_source_object" := VStr (br_source_object b)]>
  (<["_framework_operation" := VStr (br_operation b)]>
  (<["_framework_source_commit_ts" := optional_dt (br_source_commit_ts b)]>
  (<["_framework_source_sequence" := optional_str (br_source_sequence b)]>
  (<["_framework_schema_version" := VInt (br_schema_version b)]> (br_data b))))))))).

(** The event time of a row, when a column is configured. *)
Definition commit_time (r : row) (event_time_column : option string) : res (option datetime) :=
  match event_time_column with
  | Some column =>
    if String.eqb column "" then Ok None
    else match get r column with
         | VNone => Ok None
         | VDatetime off us => Ok (Some (Datetime off us))
         | _ => raise "TypeError" "event_time_column values must be datetime when present"
         end
  | None => Ok None
  end.

(** The source sequence of a row: its sequence columns, joined. *)
Definition sequence_text (r : row) (columns : list string) : res (option string) :=
  if bool_decide (columns = []) then Ok None
  else
    values ← mapM_res (fun column => match r !! column with Some v => Ok v | None => raise "KeyError" "row" end) columns;
    Ok (Some (String.concat "|" (map py_str values))).

Definition normalize_row {St} (utc_now : eff St datetime) (pipeline_run_id dataset_run_id : N)
    (source_system source_object : string) (event_time_column : option string)
    (source_sequence_columns : list string) (r : row) : eff St BronzeRecord :=
  commit_ts ← lift (commit_time r event_time_column);
  source_sequence ← lift (sequence_text r source_sequence_columns);
  ingested_at ← utc_now;
  mret {| br_data := r; br_ingested_at := ingested_at; br_run_id := pipeline_run_id;
          br_dataset_run_id := dataset_run_id; br_source_system := source_system;
          br_source_object := source_object; br_operation := "UPSERT";
          br_source_commit_ts := commit_ts; br_source_sequence := source_sequence;
          br_schema_version := 1 |}.

Definition normalize_bronze {St} (utc_now : eff St datetime) (rows : list row) (pipeline_run_id dataset_run_id : N)
    (source_system source_object : string) (event_time_column : option string)
    (source_sequence_columns : list string) : eff St (list BronzeRecord) :=
  mapM_eff (normalize_row utc_now pipeline_run_id dataset_run_id source_system source_object
              event_time_column source_sequence_columns) rows.
End bronze.

(** ** Rules *)

Record RowRule := {
  rule_code : string;
  rule_message : string;
  rule_predicate : row -> res bool
}.

Record QuarantinedRecord := {
  qr_record : BronzeRecord;
  qr_reason_codes : list string;
  qr_reason_messages : list string
}.

Record ValidationOutcome := {
  vo_accepted : list BronzeRecord;
  vo_quarantined : list QuarantinedRecord
}.

(** [[rule for rule in rules if not rule.predicate(record.data)]] *)
Definition failing_rules (rules : list RowRule) (r : row) : res (list RowRule) :=
  filterM_res (fun rule => holds ← rule_predicate rule r; Ok (negb holds)) rules.

Definition validate_step (rules : list RowRule) (s : ValidationOutcome) (record : BronzeRecord) :
    res ValidationOutcome :=
  failures ← failing_rules rules (br_data record);
  Ok (if bool_decide (length failures = 0%nat) then
        {| vo_accepted := vo_accepted s ++ [record]; vo_quarantined := vo_quarantined s |}
      else
        {| vo_accepted := vo_accepted s;
           vo_quarantined := vo_quarantined s ++
             [{| qr_record := record; qr_reason_codes := map rule_code failures;
                 qr_reason_messages := map rule_message failures |}] |}).

Definition validate_records (records : list BronzeRecord) (rules : list RowRule) : res ValidationOutcome :=
  foldM (validate_step rules) {| vo_accepted := []; vo_quarantined := [] |} records.

(** ** Lemmas *)

Lemma normalize_bronze_data `{PyRuntime} {St} (now : eff St datetime) rows p d sys obj etc seq s b s' :
  normalize_bronze now rows p d sys obj etc seq s = (Ok b, s') -> map br_data b = rows.
Proof.
  unfold normalize_bronze. revert s b s'. induction rows as [|r rows IH]; intros s b s'; cbn [mapM_eff].
  { by intros [= <- <-]. }
  intros [(e & _ & [=])|(x & s1 & Hx & [(e & _ & [=])|(xs & s2 & Hxs & [= <- <-])]%eff_bind_inv)]%eff_bind_inv.
  simpl. f_equal; [|by eapply IH].
  unfold normalize_row in Hx.
  apply eff_bind_inv in Hx as [(e & _ & [=])|(c & s3 & _ & Hx)].
  apply eff_bind_inv in Hx as [(e & _ & [=])|(q & s4 & _ & Hx)].
  apply eff_bind_inv in Hx as [(e & _ & [=])|(t & s5 & _ & Hx)]. by injection Hx as <- _.
Qed.

Lemma normalize_bronze_keeps `{PyRuntime} {St O} (obs : St -> O) (now : eff St datetime) rows p d sys obj etc seq :
  keeps obs now -> keeps obs (normalize_bronze now rows p d sys obj etc seq).
Proof. intros Hnow. apply keeps_mapM. intros r. unfold normalize_row. auto with keeps. Qed.

(** Whether no rule rejects a row. *)
Definition accepts (rules : list RowRule) (r : row) : res bool :=
  failures ← failing_rules rules r; Ok (bool_decide (length failures = 0%nat)).

(** The rows no rule rejects. *)
Definition admitted_rows (rules : list RowRule) (rows : list row) : list row :=
  filter (fun r => accepts rules r = Ok true) rows.

(** Validation partitions the records: it accepts those no rule rejects. *)
Lemma validate_records_Ok records rules v :
  validate_records records rules = Ok v ->
  Forall (fun r => is_ok (accepts rules (br_data r)) = true) records /\
  map br_data (vo_accepted v) = admitted_rows rules (map br_data records) /\
  length records = (length (vo_accepted v) + length (vo_quarantined v))%nat.
Proof.
  unfold validate_records, admitted_rows. intros Hf.
  refine (foldM_ind _ (fun done s => Forall (fun r => is_ok (accepts rules (br_data r)) = true) done /\
    map br_data (vo_accepted s) = filter (fun r => accepts rules r = Ok true) (map br_data done) /\
    length done = (length (vo_accepted s) + length (vo_quarantined s))%nat) _ _ _ Hf _ _); [done|].
  intros done r s1 s2 _ (Hok & Hdata & Hlen) (fs & Hfs & [= <-])%bind_Ok.
  assert (accepts rules (br_data r) = Ok (bool_decide (length fs = 0%nat))) as Hr
    by (unfold accepts; by rewrite Hfs).
  split; [apply Forall_app_2; [done|]; apply Forall_singleton; by rewrite Hr|].
  rewrite map_app, filter_app. cbn [map]. rewrite filter_cons, filter_nil, Hr.
  case_bool_decide; [rewrite decide_True by done|rewrite decide_False by done]; cbn [vo_accepted vo_quarantined].
  - rewrite map_app, Hdata, !length_app, Hlen. split; [done|]. simpl. lia.
  - rewrite app_nil_r, !length_app, Hlen. split; [done|]. simpl. lia.
Qed.

Lemma validate_records_quarantined records rules v :
  validate_records records rules = Ok v ->
  length (vo_quarantined v) = length (filter (fun r => accepts rules r = Ok false) (map br_data records)).
Proof.
  unfold validate_records. intros Hf.
  refine (foldM_ind _ (fun done s => length (vo_quarantined s) =
    length (filter (fun r => accepts rules r = Ok false) (map br_data done))) _ _ _ Hf _ _); [done|].
  intros done r s1 s2 _ Hlen (fs & Hfs & [= <-])%bind_Ok.
  assert (accepts rules (br_data r) = Ok (bool_decide (length fs = 0%nat))) as Hr
    by (unfold accepts; by rewrite Hfs).
  rewrite map_app, filter_app, length_app, <-Hlen. cbn [map]. rewrite filter_cons, filter_nil, Hr.
  case_bool_decide; [rewrite decide_False by done|rewrite decide_True by done]; cbn [vo_quarantined];
    rewrite ?length_app; simpl; lia.
Qed.
