(* ===== verification/Repository.v ===== *)
(** * The control-plane repository of a run ([control_plane/repository.py])

    [ControlPlaneRepository] is the interface the executors use; [LawfulRepository] says what
    they rely on.  [InMemory] is the in-memory adapter, which implements it.  Its lock makes
    every operation one step. *)

From stdpp Require Import base gmap strings list.
From S2P Require Import Prelude Effects PyValue PyDict Ordering ConfigTypes RuntimeState RunAudit DispatchContracts Reconciliation RunContracts.
#[local] Open Scope Z_scope.

(** ** The in-memory adapter *)

Record InMemoryControlPlane := {
  im_datasets : list (string * DatasetConfig);
  im_watermarks : list (string * WatermarkState);
  im_pipeline_runs : list PipelineRunAudit;
  im_dataset_runs : list DatasetRunAudit;
  im_capture_receipts : list CaptureReceipt;
  im_step_runs : list StepRunAudit;
  im_reconciliation_results : list ReconciliationResult;
  im_quarantine_batches : list QuarantineBatch;
  im_attempt_lineage : list DatasetAttemptLineage;
  im_reprocess_requests : list ReprocessRequest
}.

Definition empty_plane : InMemoryControlPlane :=
  {| im_datasets := []; im_watermarks := []; im_pipeline_runs := []; im_dataset_runs := [];
     im_capture_receipts := []; im_step_runs := []; im_reconciliation_results := [];
     im_quarantine_batches := []; im_attempt_lineage := []; im_reprocess_requests := [] |}.

(** [WatermarkState()] *)
Definition empty_watermark : WatermarkState := {| ws_position := None; ws_version := 0 |}.

(** The state of a dataset, [self._watermarks.get(dataset_id, WatermarkState())]. *)
Definition current_watermark (p : InMemoryControlPlane) (dataset_id : string) : WatermarkState :=
  default empty_watermark (dget (im_watermarks p) dataset_id).

(** The loop that replaces the record of the same identity, or appends the new one. *)
Fixpoint upsert {A} (same : A -> bool) (check : A -> res unit) (x : A) (l : list A) : res (list A) :=
  match l with
  | [] => Ok [x]
  | existing :: l' =>
    if same existing then _ ← check existing; Ok (x :: l')
    else l'' ← upsert same check x l'; Ok (existing :: l'')
  end.

(** Assignments to the attributes. *)
Section attributes.
Context (p : InMemoryControlPlane).
Definition with_datasets l := let (_, ws, pr, dr, cr, sr, rr, qb, al, rq) := p in Build_InMemoryControlPlane l ws pr dr cr sr rr qb al rq.
Definition with_watermarks l := let (ds, _, pr, dr, cr, sr, rr, qb, al, rq) := p in Build_InMemoryControlPlane ds l pr dr cr sr rr qb al rq.
Definition with_pipeline_runs l := let (ds, ws, _, dr, cr, sr, rr, qb, al, rq) := p in Build_InMemoryControlPlane ds ws l dr cr sr rr qb al rq.
Definition with_dataset_runs l := let (ds, ws, pr, _, cr, sr, rr, qb, al, rq) := p in Build_InMemoryControlPlane ds ws pr l cr sr rr qb al rq.
Definition with_capture_receipts l := let (ds, ws, pr, dr, _, sr, rr, qb, al, rq) := p in Build_InMemoryControlPlane ds ws pr dr l sr rr qb al rq.
Definition with_step_runs l := let (ds, ws, pr, dr, cr, _, rr, qb, al, rq) := p in Build_InMemoryControlPlane ds ws pr dr cr l rr qb al rq.
Definition with_reconciliation_results l := let (ds, ws, pr, dr, cr, sr, _, qb, al, rq) := p in Build_InMemoryControlPlane ds ws pr dr cr sr l qb al rq.
Definition with_quarantine_batches l := let (ds, ws, pr, dr, cr, sr, rr, _, al, rq) := p in Build_InMemoryControlPlane ds ws pr dr cr sr rr l al rq.
Definition with_attempt_lineage l := let (ds, ws, pr, dr, cr, sr, rr, qb, _, rq) := p in Build_InMemoryControlPlane ds ws pr dr cr sr rr qb l rq.
Definition with_reprocess_requests l := let (ds, ws, pr, dr, cr, sr, rr, qb, al, _) := p in Build_InMemoryControlPlane ds ws pr dr cr sr rr qb al l.
End attributes.

Module InMemory.

Definition deploy_dataset (config : DatasetConfig) : eff InMemoryControlPlane unit := fun p =>
  (Ok tt, with_datasets p (dset (im_datasets p) (dc_dataset_id config) config)).

Definition get_dataset (dataset_id : string) : eff InMemoryControlPlane DatasetConfig := fun p =>
  (match dget (im_datasets p) dataset_id with
   | Some config => Ok config
   | None => raise "KeyError" "dataset not deployed"
   end, p).

Definition list_datasets : eff InMemoryControlPlane (list DatasetConfig) := fun p =>
  (Ok (map snd (sort_on fst (im_datasets p))), p).

Definition get_watermark_state (dataset_id : string) : eff InMemoryControlPlane WatermarkState := fun p =>
  (if dmem (im_datasets p) dataset_id then Ok (current_watermark p dataset_id)
   else raise "KeyError" "dataset not deployed", p).

Definition get_watermark (dataset_id : string) : eff InMemoryControlPlane (option WatermarkPosition) :=
  state ← get_watermark_state dataset_id; mret (ws_position state).

(** The decision of [commit_watermark]: the state to store, or the current one when the
    position is the committed one. *)
Definition next_watermark (current : WatermarkState) (position : WatermarkPosition) (expected_version : Z) :
    res (option WatermarkState) :=
  if negb (ws_version current =? expected_version) then raise "WatermarkConflictError" "stale watermark writer"
  else
    ordering ← match ws_position current with
               | Some committed => compare_watermark_positions position committed
               | None => Ok 1
               end;
    if ordering <? 0 then raise "ValueError" "committed watermark cannot move backwards"
    else if ordering =? 0 then Ok None
    else Ok (Some {| ws_position := Some position; ws_version := ws_version current + 1 |}).

Definition commit_watermark (dataset_id : string) (position : WatermarkPosition) (expected_version : Z) :
    eff InMemoryControlPlane WatermarkState := fun p =>
  if is_none (wp_value position) then (raise "ValueError" "committed watermark value cannot be null", p)
  else if negb (dmem (im_datasets p) dataset_id) then (raise "KeyError" "dataset not deployed", p)
  else
    let current := current_watermark p dataset_id in
    match next_watermark current position expected_version with
    | Raise e => (Raise e, p)
    | Ok None => (Ok current, p)
    | Ok (Some updated) => (Ok updated, with_watermarks p (dset (im_watermarks p) dataset_id updated))
    end.

(** [self.attribute = upsert ...] *)
Definition store {A} (set : InMemoryControlPlane -> list A -> InMemoryControlPlane) (l : res (list A)) :
    eff InMemoryControlPlane unit := fun p =>
  match l with Ok l => (Ok tt, set p l) | Raise e => (Raise e, p) end.

Definition record_pipeline_run (audit : PipelineRunAudit) : eff InMemoryControlPlane unit := fun p =>
  store with_pipeline_runs
    (upsert (fun e => (pra_pipeline_run_id e =? pra_pipeline_run_id audit)%N) (fun _ => Ok tt) audit
       (im_pipeline_runs p)) p.

(** The identity of a dataset run may not change. *)
Definition same_dataset_run (audit existing : DatasetRunAudit) : res unit :=
  raise_if (negb (bool_decide (dra_pipeline_run_id existing = dra_pipeline_run_id audit))
            || negb (bool_decide (dra_dataset_id existing = dra_dataset_id audit))
            || negb (bool_decide (dra_attempt existing = dra_attempt audit))
            || negb (bool_decide (dra_run_mode existing = dra_run_mode audit))
            || negb (bool_decide (dra_effective_config_hash existing = dra_effective_config_hash audit)))
    "ValueError" "dataset run semantic identity cannot change".

Definition record_dataset_run (audit : DatasetRunAudit) : eff InMemoryControlPlane unit := fun p =>
  store with_dataset_runs
    (upsert (fun e => (dra_dataset_run_id e =? dra_dataset_run_id audit)%N) (same_dataset_run audit) audit
       (im_dataset_runs p)) p.

Definition get_dataset_outcome (dataset_run_id : N) :
    eff InMemoryControlPlane (option DatasetDispatchOutcome) := fun p =>
  (Ok (match list_find (fun a => dra_dataset_run_id a = dataset_run_id) (rev (im_dataset_runs p)) with
       | Some (_, audit) =>
         Some {| ddo_dataset_run_id := dataset_run_id; ddo_status := dra_status audit;
                 ddo_retryable := dra_retryable audit; ddo_error_code := dra_error_code audit;
                 ddo_error_message := dra_error_message audit |}
       | None => None
       end), p).

Definition record_capture_receipt (receipt : CaptureReceipt) : eff InMemoryControlPlane unit := fun p =>
  (Ok tt, with_capture_receipts p (im_capture_receipts p ++ [receipt])).

Definition same_step (audit existing : StepRunAudit) : res unit :=
  raise_if (negb (bool_decide (sra_dataset_run_id existing = sra_dataset_run_id audit))
            || negb (bool_decide (sra_step_name existing = sra_step_name audit)))
    "ValueError" "step run semantic identity cannot change".

Definition record_step_run (audit : StepRunAudit) : eff InMemoryControlPlane unit := fun p =>
  store with_step_runs
    (upsert (fun e => (sra_step_run_id e =? sra_step_run_id audit)%N) (same_step audit) audit (im_step_runs p)) p.

(** Append a record unless its identity is already recorded. *)
Definition append_new {A} (id : A -> N) (x : A) (l : list A) (site : string) : res (list A) :=
  if existsb (fun e => id e =? id x)%N l then raise "ValueError" site else Ok (l ++ [x]).

Definition record_reconciliation (result : ReconciliationResult) : eff InMemoryControlPlane unit := fun p =>
  store with_reconciliation_results
    (append_new rcr_reconciliation_id result (im_reconciliation_results p) "reconciliation is already recorded") p.

Definition record_quarantine (batch : QuarantineBatch) : eff InMemoryControlPlane unit := fun p =>
  store with_quarantine_batches
    (append_new qb_quarantine_id batch (im_quarantine_batches p) "quarantine batch is already recorded") p.

Definition record_attempt_lineage (lineage : DatasetAttemptLineage) : eff InMemoryControlPlane unit := fun p =>
  store with_attempt_lineage
    (append_new dal_dataset_run_id lineage (im_attempt_lineage p) "attempt lineage already recorded") p.

Definition same_request (request existing : ReprocessRequest) : res unit :=
  raise_if (negb (bool_decide (rr_dataset_id existing = rr_dataset_id request))
            || negb (bool_decide (rr_run_mode existing = rr_run_mode request))
            || negb (bool_decide (rr_reason existing = rr_reason request))
            || negb (bool_decide (rr_requested_by existing = rr_requested_by request))
            || negb (bool_decide (rr_original_pipeline_run_id existing = rr_original_pipeline_run_id request))
            || negb (bool_decide (rr_original_dataset_run_id existing = rr_original_dataset_run_id request))
            || negb (py_eqb (default VNone (VDict <$> rr_range_json existing))
                            (default VNone (VDict <$> rr_range_json request))))
    "ValueError" "reprocess request semantic identity cannot change".

Definition record_reprocess_request (request : ReprocessRequest) : eff InMemoryControlPlane unit := fun p =>
  store with_reprocess_requests
    (upsert (fun e => (rr_reprocess_request_id e =? rr_reprocess_request_id request)%N) (same_request request)
       request (im_reprocess_requests p)) p.

Definition quarantines_for_run (dataset_run_id : N) : eff InMemoryControlPlane (list QuarantineBatch) := fun p =>
  (Ok (filter (fun b => qb_dataset_run_id b = dataset_run_id) (im_quarantine_batches p)), p).

Definition capture_receipts_for_run (dataset_run_id : N) : eff InMemoryControlPlane (list CaptureReceipt) := fun p =>
  (Ok (filter (fun c => cr_dataset_run_id c = dataset_run_id) (im_capture_receipts p)), p).

Definition lineage_for_root (root_dataset_run_id : N) : eff InMemoryControlPlane (list DatasetAttemptLineage) := fun p =>
  (Ok (sort_by (fun a b => dal_attempt a <=? dal_attempt b)
        (filter (fun l => dal_root_dataset_run_id l = root_dataset_run_id) (im_attempt_lineage p))), p).

Definition get_reprocess_request (request_id : N) : eff InMemoryControlPlane ReprocessRequest := fun p =>
  (match list_find (fun r => rr_reprocess_request_id r = request_id) (im_reprocess_requests p) with
   | Some (_, request) => Ok request
   | None => raise "KeyError" "reprocess request not found"
   end, p).

End InMemory.

(** ** The interface *)

(** What a run uses of [ControlPlaneRepository], [utc_now] and [uuid4]. *)
Class RunWorld (W : Type) := {
  get_dataset : string -> eff W DatasetConfig;
  get_watermark_state : string -> eff W WatermarkState;
  get_watermark : string -> eff W (option WatermarkPosition);
  commit_watermark : string -> WatermarkPosition -> Z -> eff W WatermarkState;
  record_dataset_run : DatasetRunAudit -> eff W unit;
  record_step_run : StepRunAudit -> eff W unit;
  record_reconciliation : ReconciliationResult -> eff W unit;
  record_quarantine : QuarantineBatch -> eff W unit;
  utc_now : eff W datetime;
  uuid4 : eff W N
}.

(** What the executors rely on: only [commit_watermark] moves a watermark, by compare-and-set
    on the version and never backwards, and a failed commit has moved it or not. *)
Class LawfulWorld (W : Type) `{RunWorld W} := {
  watermark_of : W -> string -> WatermarkState;
  dataset_of : W -> string -> option DatasetConfig;
  observed (d : string) (w : W) : WatermarkState * option DatasetConfig := (watermark_of w d, dataset_of w d);
  get_dataset_keeps d x : keeps (observed d) (get_dataset x);
  get_watermark_state_keeps d x : keeps (observed d) (get_watermark_state x);
  get_watermark_keeps d x : keeps (observed d) (get_watermark x);
  record_dataset_run_keeps d x : keeps (observed d) (record_dataset_run x);
  record_step_run_keeps d x : keeps (observed d) (record_step_run x);
  record_reconciliation_keeps d x : keeps (observed d) (record_reconciliation x);
  record_quarantine_keeps d x : keeps (observed d) (record_quarantine x);
  utc_now_keeps d : keeps (observed d) utc_now;
  uuid4_keeps d : keeps (observed d) uuid4;
  get_dataset_law d w c w' : get_dataset d w = (Ok c, w') -> dataset_of w d = Some c;
  get_watermark_state_law d w s w' : get_watermark_state d w = (Ok s, w') -> s = watermark_of w d;
  get_watermark_law d w p w' : get_watermark d w = (Ok p, w') -> p = ws_position (watermark_of w d);
  commit_others d p v d' : d' <> d -> keeps (observed d') (commit_watermark d p v);
  commit_config d p v : keeps (fun w => dataset_of w d) (commit_watermark d p v);
  commit_law d p v w r w' : commit_watermark d p v w = (r, w') ->
    let before := watermark_of w d in
    let after := watermark_of w' d in
    (after = before \/
     after = {| ws_position := Some p; ws_version := v + 1 |} /\ ws_version before = v /\
       (forall q, ws_position before = Some q -> exists z, compare_watermark_positions p q = Ok z /\ 0 < z)) /\
    (is_ok r = true -> ws_version before = v /\
       (after = before -> exists q, ws_position before = Some q /\ compare_watermark_positions p q = Ok 0))
}.

#[export] Hint Resolve get_dataset_keeps get_watermark_state_keeps get_watermark_keeps record_dataset_run_keeps
  record_step_run_keeps record_reconciliation_keeps record_quarantine_keeps utc_now_keeps uuid4_keeps : keeps.

(** ** The in-memory adapter implements the interface

    A process with the adapter, a clock and a source of ids: [clock n] and [ids n] are what the
    [n]-th reading returns. *)

Record Process := { pc_plane : InMemoryControlPlane; pc_readings : nat }.

Section process.
Context (clock : nat -> datetime) (ids : nat -> N).

Definition on_plane {A} (m : eff InMemoryControlPlane A) : eff Process A := fun s =>
  let '(r, p) := m (pc_plane s) in (r, {| pc_plane := p; pc_readings := pc_readings s |}).

Definition reading {A} (source : nat -> A) : eff Process A := fun s =>
  (Ok (source (pc_readings s)), {| pc_plane := pc_plane s; pc_readings := S (pc_readings s) |}).

#[export] Instance process_world : RunWorld Process := {
  get_dataset d := on_plane (InMemory.get_dataset d);
  get_watermark_state d := on_plane (InMemory.get_watermark_state d);
  get_watermark d := on_plane (InMemory.get_watermark d);
  commit_watermark d p v := on_plane (InMemory.commit_watermark d p v);
  record_dataset_run a := on_plane (InMemory.record_dataset_run a);
  record_step_run a := on_plane (InMemory.record_step_run a);
  record_reconciliation r := on_plane (InMemory.record_reconciliation r);
  record_quarantine b := on_plane (InMemory.record_quarantine b);
  utc_now := reading clock;
  uuid4 := reading ids
}.
End process.

(** ** Lemmas *)

Definition observed_plane (d : string) (p : InMemoryControlPlane) : WatermarkState * option DatasetConfig :=
  (current_watermark p d, dget (im_datasets p) d).

Lemma keeps_on_plane {O} (obs : InMemoryControlPlane -> O) {A} (m : eff InMemoryControlPlane A) :
  keeps obs m -> keeps (fun s => obs (pc_plane s)) (on_plane m).
Proof. intros Hm [p n]. unfold on_plane. simpl. specialize (Hm p). by destruct (m p). Qed.

Lemma keeps_store {A} (set : InMemoryControlPlane -> list A -> InMemoryControlPlane) d (l : InMemoryControlPlane -> res (list A)) :
  (forall p x, observed_plane d (set p x) = observed_plane d p) ->
  keeps (observed_plane d) (fun p => InMemory.store set (l p) p).
Proof. intros Hset p. unfold InMemory.store. destruct (l p); [apply Hset|done]. Qed.

Ltac stored := by intros [] ?.

Lemma in_memory_record_keeps d :
  (forall x, keeps (observed_plane d) (InMemory.record_dataset_run x)) /\
  (forall x, keeps (observed_plane d) (InMemory.record_step_run x)) /\
  (forall x, keeps (observed_plane d) (InMemory.record_reconciliation x)) /\
  (forall x, keeps (observed_plane d) (InMemory.record_quarantine x)) /\
  (forall x, keeps (observed_plane d) (InMemory.record_pipeline_run x)) /\
  (forall x, keeps (observed_plane d) (InMemory.record_attempt_lineage x)) /\
  (forall x, keeps (observed_plane d) (InMemory.record_reprocess_request x)).
Proof. split_and!; intros x; (eapply keeps_store; stored). Qed.

Lemma in_memory_commit d p v plane r plane' :
  InMemory.commit_watermark d p v plane = (r, plane') ->
  (r = Ok (current_watermark plane' d) /\ ws_version (current_watermark plane d) = v /\
   im_datasets plane' = im_datasets plane /\
   (plane' = plane /\ (exists q, ws_position (current_watermark plane d) = Some q /\ compare_watermark_positions p q = Ok 0) \/
    (current_watermark plane' d = {| ws_position := Some p; ws_version := v + 1 |} /\
     plane' = with_watermarks plane (dset (im_watermarks plane) d (current_watermark plane' d)) /\
     forall q, ws_position (current_watermark plane d) = Some q -> exists z, compare_watermark_positions p q = Ok z /\ 0 < z)))
  \/ (is_ok r = false /\ plane' = plane).
Proof.
  unfold InMemory.commit_watermark. destruct (is_none _); [intros [= <- <-]; by right|].
  destruct (dmem (im_datasets plane) d); [|intros [= <- <-]; by right]. cbn [negb].
  unfold InMemory.next_watermark.
  destruct (ws_version (current_watermark plane d) =? v) eqn:Ev; [|intros [= <- <-]; by right].
  apply Z.eqb_eq in Ev. cbn [negb].
  assert (forall s, im_datasets (with_watermarks plane s) = im_datasets plane) as Hds by by destruct plane.
  assert (forall s, current_watermark (with_watermarks plane (dset (im_watermarks plane) d s)) d = s) as Hcur.
  { intros s. unfold current_watermark. destruct plane. simpl. by rewrite dget_dset_eq. }
  destruct (ws_position (current_watermark plane d)) as [q|] eqn:Eq.
  - destruct (compare_watermark_positions p q) as [z|e] eqn:Ec; [|intros [= <- <-]; by right].
    cbn [mbind res_bind]. destruct (z <? 0) eqn:E0; [intros [= <- <-]; by right|].
    destruct (z =? 0) eqn:E1.
    + intros [= <- <-]. left. split_and!; try done. left. split; [done|]. exists q. split; [done|].
      rewrite Ec. f_equal. lia.
    + intros [= <- <-]. left. rewrite Hcur. split_and!; try done. right.
      split_and!; [by rewrite Ev|done|]. intros q' [= <-]. exists z. split; [done|lia].
  - cbn [mbind res_bind]. intros [= <- <-]. left. rewrite Hcur. split_and!; try done. right.
    split_and!; [by rewrite Ev|done|]. by intros q' [=].
Qed.

Lemma in_memory_commit_others d p v d' :
  d' <> d -> keeps (observed_plane d') (InMemory.commit_watermark d p v).
Proof.
  intros Hne plane. destruct (InMemory.commit_watermark d p v plane) as [r plane'] eqn:E.
  apply in_memory_commit in E as [(_ & _ & Hds & [[-> _]|(_ & Hp & _)])|[_ ->]]; try done. simpl.
  unfold observed_plane, current_watermark. rewrite Hds, Hp. destruct plane. simpl. f_equal.
  rewrite dget_dset. unfold keq, string_key. by rewrite (proj2 (String.eqb_neq d d')) by congruence.
Qed.

#[export] Instance process_lawful clock ids : @LawfulWorld Process (process_world clock ids).
Proof.
  pose proof in_memory_record_keeps as Hrec.
  refine (@Build_LawfulWorld _ (process_world clock ids) (fun s d => current_watermark (pc_plane s) d)
            (fun s d => dget (im_datasets (pc_plane s)) d) _ _ _ _ _ _ _ _ _ _ _ _ _ _ _).
  1-7: intros d x; apply (keeps_on_plane (observed_plane d)); first [apply Hrec|by intros p|apply keeps_bind; [by intros p|by intros a p]].
  1-2: by intros d [].
  - intros d [p n] c s'. simpl. unfold on_plane. simpl. unfold InMemory.get_dataset.
    destruct (dget _ _) eqn:E; [|done]. by intros [= <- <-].
  - intros d [p n] s s'. simpl. unfold on_plane. simpl. unfold InMemory.get_watermark_state.
    destruct (dmem _ _); [|done]. by intros [= <- <-].
  - intros d [p n] s s'. simpl. unfold on_plane, InMemory.get_watermark, mbind, eff_bind. simpl.
    unfold InMemory.get_watermark_state. destruct (dmem _ _); [|done]. by intros [= <- <-].
  - intros d p v d' Hne. apply (keeps_on_plane (observed_plane d')). by apply in_memory_commit_others.
  - intros d p v. apply (keeps_on_plane (fun q => dget (im_datasets q) d)). intros plane.
    destruct (InMemory.commit_watermark d p v plane) as [r plane'] eqn:E.
    apply in_memory_commit in E as [(_ & _ & Hds & _)|[_ ->]]; simpl; by rewrite ?Hds.
  - intros d p v [plane n] r [plane' n']. simpl. unfold on_plane. simpl.
    destruct (InMemory.commit_watermark d p v plane) as [r0 p0] eqn:E. intros [= -> -> ->].
    apply in_memory_commit in E as [(-> & Hv & _ & [[-> Hq]|(Hc & _ & Hm)])|[Hr ->]].
    + split; [by left|]. intros _. by split.
    + split; [right; by split_and!|]. intros _. split; [done|]. rewrite Hc. intros Heq.
      exfalso. rewrite <-Heq in Hv. simpl in Hv. lia.
    + split; [by left|]. by rewrite Hr.
Defined.

(** ** Histories of the adapter *)

(** One call, whatever its result. *)
Inductive plane_step (p : InMemoryControlPlane) : InMemoryControlPlane -> Prop :=
| step_deploy c : plane_step p (InMemory.deploy_dataset c p).2
| step_commit d w v : plane_step p (InMemory.commit_watermark d w v p).2
| step_pipeline_run a : plane_step p (InMemory.record_pipeline_run a p).2
| step_dataset_run a : plane_step p (InMemory.record_dataset_run a p).2
| step_capture_receipt c : plane_step p (InMemory.record_capture_receipt c p).2
| step_step_run a : plane_step p (InMemory.record_step_run a p).2
| step_reconciliation r : plane_step p (InMemory.record_reconciliation r p).2
| step_quarantine b : plane_step p (InMemory.record_quarantine b p).2
| step_attempt_lineage l : plane_step p (InMemory.record_attempt_lineage l p).2
| step_reprocess_request r : plane_step p (InMemory.record_reprocess_request r p).2.

(** What identifies a dataset run and may not change. *)
Definition run_identity (a : DatasetRunAudit) :=
  (dra_dataset_run_id a, dra_pipeline_run_id a, dra_dataset_id a, dra_attempt a, dra_run_mode a, dra_effective_config_hash a).
Definition step_identity (a : StepRunAudit) := (sra_step_run_id a, sra_dataset_run_id a, sra_step_name a).

(** A watermark state moves forward, one version at a time or more. *)
Definition advances (w w' : WatermarkState) : Prop :=
  w' = w \/
  ws_version w < ws_version w' /\ exists q', ws_position w' = Some q' /\
    forall q, ws_position w = Some q -> exists z, compare_watermark_positions q' q = Ok z /\ 0 < z.

Lemma advances_trans w1 w2 w3 : advances w1 w2 -> advances w2 w3 -> advances w1 w3.
Proof.
  unfold advances. intros [->|(Hv & q2 & H2 & Hq)]; [done|].
  intros [->|(Hv' & q3 & H3 & Hq')]; right; [split; [done|by exists q2]|].
  split; [lia|]. exists q3. split; [done|]. intros q1 H1.
  destruct (Hq q1 H1) as (z & Hz & Hpos). destruct (Hq' q2 H2) as (z' & Hz' & Hpos').
  apply rcmp_swap in Hz, Hz'. exists (Z.max z z'). split; [|lia].
  replace (Z.max z z') with (- Z.min (- z) (- z')) by lia.
  apply (rcmp_swap (cmp := compare_watermark_positions)). eapply (rcmp_trans (cmp := compare_watermark_positions)); [exact Hz|exact Hz'|lia|lia].
Qed.

(** What a history keeps: the evidence is append-only, runs and steps keep their identities, and
    watermarks only move forward. *)
Record extends (p p' : InMemoryControlPlane) : Prop := {
  ext_reconciliations : im_reconciliation_results p `prefix_of` im_reconciliation_results p';
  ext_quarantines : im_quarantine_batches p `prefix_of` im_quarantine_batches p';
  ext_lineage : im_attempt_lineage p `prefix_of` im_attempt_lineage p';
  ext_receipts : im_capture_receipts p `prefix_of` im_capture_receipts p';
  ext_runs : map run_identity (im_dataset_runs p) `prefix_of` map run_identity (im_dataset_runs p');
  ext_steps : map step_identity (im_step_runs p) `prefix_of` map step_identity (im_step_runs p');
  ext_pipelines : map pra_pipeline_run_id (im_pipeline_runs p) `prefix_of` map pra_pipeline_run_id (im_pipeline_runs p');
  ext_requests : map rr_reprocess_request_id (im_reprocess_requests p) `prefix_of` map rr_reprocess_request_id (im_reprocess_requests p');
  ext_watermarks d : advances (current_watermark p d) (current_watermark p' d)
}.

(** No identity is recorded twice. *)
Record identities_unique (p : InMemoryControlPlane) : Prop := {
  uniq_reconciliations : NoDup (map rcr_reconciliation_id (im_reconciliation_results p));
  uniq_quarantines : NoDup (map qb_quarantine_id (im_quarantine_batches p));
  uniq_lineage : NoDup (map dal_dataset_run_id (im_attempt_lineage p));
  uniq_runs : NoDup (map dra_dataset_run_id (im_dataset_runs p));
  uniq_steps : NoDup (map sra_step_run_id (im_step_runs p));
  uniq_pipelines : NoDup (map pra_pipeline_run_id (im_pipeline_runs p));
  uniq_requests : NoDup (map rr_reprocess_request_id (im_reprocess_requests p))
}.

Lemma extends_refl p : extends p p.
Proof. split; try done. intros d. by left. Qed.

Lemma extends_trans p1 p2 p3 : extends p1 p2 -> extends p2 p3 -> extends p1 p3.
Proof. intros [] []. split; try (by etrans). intros d. by eapply advances_trans. Qed.

(** What an upsert keeps: the records with an identity that the check protects. *)
Lemma upsert_identity {A B} (id : A -> B) (same : A -> bool) check x (l l' : list A) :
  (forall e, same e = true -> check e = Ok tt -> id e = id x) ->
  upsert same check x l = Ok l' ->
  map id l' = map id l \/ (map id l' = map id l ++ [id x] /\ Forall (fun e => same e = false) l).
Proof.
  intros Hid. revert l'. induction l as [|e l IH]; intros l'; simpl.
  { intros [= <-]. by right. }
  destruct (same e) eqn:Es.
  - intros ([] & Hc & [= <-])%bind_Ok. left. simpl. by rewrite (Hid e Es Hc).
  - intros (l'' & Hl & [= <-])%bind_Ok. simpl. destruct (IH _ Hl) as [->|[-> Hall]]; [by left|right].
    split; [done|]. by constructor.
Qed.

Lemma upsert_prefix {A B} (id : A -> B) same check x (l l' : list A) :
  (forall e, same e = true -> check e = Ok tt -> id e = id x) ->
  upsert same check x l = Ok l' -> map id l `prefix_of` map id l'.
Proof. intros Hid Hu. destruct (upsert_identity id _ _ _ _ _ Hid Hu) as [->|[-> _]]; [done|by eexists]. Qed.

Lemma upsert_NoDup {A} (id : A -> N) check x (l l' : list A) :
  upsert (fun e => id e =? id x)%N check x l = Ok l' -> NoDup (map id l) -> NoDup (map id l').
Proof.
  intros Hu Hnd.
  destruct (upsert_identity id _ _ _ _ _ (fun e He _ => proj1 (N.eqb_eq _ _) He) Hu) as [->|[-> Hall]]; [done|].
  apply NoDup_app. split_and!; [done| |apply NoDup_singleton].
  intros i (e & -> & He)%list_elem_of_fmap Hx%list_elem_of_singleton.
  rewrite Forall_forall in Hall. specialize (Hall e He). simpl in Hall. by rewrite Hx, N.eqb_refl in Hall.
Qed.

Lemma append_new_NoDup {A} (id : A -> N) x (l l' : list A) site :
  InMemory.append_new id x l site = Ok l' -> l' = l ++ [x] /\ (NoDup (map id l) -> NoDup (map id l')).
Proof.
  unfold InMemory.append_new. destruct (existsb _ l) eqn:E; [done|]. intros [= <-]. split; [done|].
  intros Hnd. rewrite map_app. apply NoDup_app. split_and!; [done| |apply NoDup_singleton].
  intros i (e & -> & He)%list_elem_of_fmap Hx%list_elem_of_singleton.
  apply not_true_iff_false in E. apply E, existsb_elem. exists e. split; [done|]. by apply N.eqb_eq.
Qed.

(** A step of one table. *)
Ltac table_step := unfold InMemory.store; match goal with |- context [match ?r with Ok _ => _ | Raise _ => _ end] => destruct r eqn:? end;
  [|split; [apply extends_refl|done]].

Lemma same_dataset_run_identity a e :
  (dra_dataset_run_id e =? dra_dataset_run_id a)%N = true -> InMemory.same_dataset_run a e = Ok tt -> run_identity e = run_identity a.
Proof.
  intros Hid%N.eqb_eq. unfold InMemory.same_dataset_run, raise_if. destruct (_ || _) eqn:E; [done|]. intros _.
  repeat (apply orb_false_iff in E as [E ?]). unfold run_identity.
  rewrite !negb_false_iff, !bool_decide_eq_true in *. congruence.
Qed.

Lemma same_step_identity a e :
  (sra_step_run_id e =? sra_step_run_id a)%N = true -> InMemory.same_step a e = Ok tt -> step_identity e = step_identity a.
Proof.
  intros Hid%N.eqb_eq. unfold InMemory.same_step, raise_if. destruct (_ || _) eqn:E; [done|]. intros _.
  apply orb_false_iff in E as [E1 E2]. unfold step_identity.
  rewrite negb_false_iff, bool_decide_eq_true in E1, E2. congruence.
Qed.

(** The watermark part of a step that leaves it alone. *)
Lemma advances_same p p' d : observed_plane d p' = observed_plane d p -> advances (current_watermark p d) (current_watermark p' d).
Proof. intros [= -> _]. by left. Qed.

Lemma plane_step_extends p p' : plane_step p p' -> extends p p' /\ (identities_unique p -> identities_unique p').
Proof.
  destruct 1 as [c|d w v|a|a|c|a|r|b|l|r].
  - split; [|by intros []; split; destruct p]. split; try by destruct p. intros d. left. by destruct p.
  - destruct (InMemory.commit_watermark d w v p) as [r p'] eqn:E. simpl.
    pose proof (in_memory_commit_others d w v) as Hoth.
    apply in_memory_commit in E as E'. destruct E' as [(_ & Hv & _ & [[-> _]|(Hc & Hp & Hm)])|[_ ->]];
      try (split; [apply extends_refl|done]).
    split; [|rewrite Hp; by intros []; split; destruct p].
    split; try (rewrite Hp; by destruct p). intros d'. destruct (decide (d' = d)) as [->|Hne].
    + right. rewrite Hc. simpl. split; [lia|]. by exists w.
    + apply advances_same. specialize (Hoth d' Hne p). by rewrite E in Hoth.
  - unfold InMemory.record_pipeline_run. table_step. pose proof Heqr as Hp.
    eapply (upsert_prefix pra_pipeline_run_id) in Hp; [|by intros e ?%N.eqb_eq].
    split; [|by intros []; split; destruct p; simpl in *; eauto using upsert_NoDup].
    destruct p. split; try done. intros d. by left.
  - unfold InMemory.record_dataset_run. table_step. pose proof Heqr as Hp.
    eapply (upsert_prefix run_identity) in Hp; [|apply same_dataset_run_identity].
    split; [|by intros []; split; destruct p; simpl in *; eauto using upsert_NoDup].
    destruct p. split; try done. intros d. by left.
  - split; [|by intros []; split; destruct p]. destruct p. split; try done; [by eexists|]. intros d. by left.
  - unfold InMemory.record_step_run. table_step. pose proof Heqr as Hp.
    eapply (upsert_prefix step_identity) in Hp; [|apply same_step_identity].
    split; [|by intros []; split; destruct p; simpl in *; eauto using upsert_NoDup].
    destruct p. split; try done. intros d. by left.
  - unfold InMemory.record_reconciliation. table_step. apply append_new_NoDup in Heqr0 as [-> Hnd].
    split; [|by intros []; split; destruct p; simpl in *; eauto].
    destruct p. split; try done; [by eexists|]. intros d. by left.
  - unfold InMemory.record_quarantine. table_step. apply append_new_NoDup in Heqr as [-> Hnd].
    split; [|by intros []; split; destruct p; simpl in *; eauto].
    destruct p. split; try done; [by eexists|]. intros d. by left.
  - unfold InMemory.record_attempt_lineage. table_step. apply append_new_NoDup in Heqr as [-> Hnd].
    split; [|by intros []; split; destruct p; simpl in *; eauto].
    destruct p. split; try done; [by eexists|]. intros d. by left.
  - unfold InMemory.record_reprocess_request. table_step. pose proof Heqr0 as Hp.
    eapply (upsert_prefix rr_reprocess_request_id) in Hp; [|by intros e ?%N.eqb_eq].
    split; [|by intros []; split; destruct p; simpl in *; eauto using upsert_NoDup].
    destruct p. split; try done. intros d. by left.
Qed.

(** C20. The control plane forgets nothing: along every sequence of calls, failed ones included,
    reconciliations, quarantines, lineages and receipts are only appended, dataset runs and
    steps keep their identities, no identity is recorded twice, and the watermark of a dataset
    never moves backwards and never changes without a new version. *)
Theorem control_plane_history p p' :
  rtc plane_step empty_plane p -> rtc plane_step p p' -> extends p p' /\ identities_unique p'.
Proof.
  assert (forall q q', rtc plane_step q q' -> extends q q' /\ (identities_unique q -> identities_unique q')) as Hrtc.
  { induction 1 as [q|q1 q2 q3 Hstep _ [IHe IHu]]; [split; [apply extends_refl|done]|].
    apply plane_step_extends in Hstep as [He Hu]. split; [by eapply extends_trans|auto]. }
  intros [_ Hp]%Hrtc [He Hu]%Hrtc. split; [done|]. apply Hu, Hp. split; constructor.
Qed.

(** ** A witness *)

Definition demo_plane (calls : list (eff InMemoryControlPlane unit)) : InMemoryControlPlane :=
  fold_left (fun p call => (call p).2) calls empty_plane.

Definition demo_quarantine (id : N) : QuarantineBatch :=
  {| qb_quarantine_id := id; qb_dataset_run_id := 7; qb_dataset_id := "orders"; qb_scope := QS_ROW; qb_row_count := 1;
     qb_reason_code := "NULL_ID"; qb_reason_detail := None; qb_source_reference := None; qb_created_at := utc 0;
     qb_replayed_by_dataset_run_id := None |}.

(** The second call is refused: the identity is recorded already. *)
Definition demo_recorded : InMemoryControlPlane :=
  demo_plane [InMemory.record_quarantine (demo_quarantine 1); InMemory.record_quarantine (demo_quarantine 1);
              InMemory.record_quarantine (demo_quarantine 2)].

Lemma control_plane_history_witness :
  NoDup (map qb_quarantine_id (im_quarantine_batches demo_recorded)) /\
  length (im_quarantine_batches demo_recorded) = 2%nat.
Proof.
  split; [|vm_compute; reflexivity].
  destruct (control_plane_history empty_plane demo_recorded) as [_ Hu]; [apply rtc_refl| |apply Hu].
  unfold demo_recorded, demo_plane. simpl.
  eapply rtc_l; [apply (step_quarantine empty_plane (demo_quarantine 1))|].
  eapply rtc_l; [apply (step_quarantine _ (demo_quarantine 1))|].
  eapply rtc_l; [apply (step_quarantine _ (demo_quarantine 2))|]. apply rtc_refl.
Defined.
