(* ===== verification/RunState.v ===== *)
(** * The state of a dataset run

    An executor works on the control plane and on a target held by the caller.  A run records a
    step in the control plane after each phase ([_record_step] of the executors) and closes with
    the audit of the dataset run. *)

From stdpp Require Import base gmap strings list.
From Stdlib Require Import QArith.
From S2P Require Import Prelude Effects PyValue PyFloat TypedValues ConfigTypes Config RuntimeState RunAudit DispatchContracts Reconciliation RunContracts Quality Repository.
#[local] Close Scope Q_scope.
#[local] Open Scope Z_scope.

(** ** What a quality policy lets pass *)

(** How many rows the rules reject, none when they are disabled. *)
Definition rejected_count (config : DatasetConfig) (rules : list RowRule) (rows : list row) : nat :=
  if dq_enabled (dc_quality config) then length (filter (fun r => accepts rules r = Ok false) rows) else 0%nat.

(** A quality policy lets a batch pass with rejected rows only when they may be quarantined and
    their number and their fraction, as the code divides them, are within its budget. *)
Definition within_budget (quality : DataQualityPolicy) (rejected total : nat) : Prop :=
  rejected <> 0%nat ->
  dq_quarantine_enabled quality = true /\
  (forall bound, dq_max_quarantine_rows quality = Some bound -> Z.of_nat rejected <= bound) /\
  (forall bound, dq_max_quarantine_fraction quality = Some bound ->
     (py_truediv (Z.of_nat rejected) (Z.of_nat total) <= bound)%Q).

Lemma rejected_count_bound config rules rows : (rejected_count config rules rows <= length rows)%nat.
Proof. unfold rejected_count. destruct (dq_enabled _); [apply length_filter|lia]. Qed.

Section run_state.
Context {W : Type} `{RunWorld W}.

(** The world and the rows of the target. *)
Abbreviation run := (eff (W * list row)).

(** A call of the control plane, of the clock or of [uuid4]. *)
Definition world {A} (m : eff W A) : run A := fun s => let '(r, w) := m s.1 in (r, (w, s.2)).

(** [target.read()] and [target.replace(rows)], also [target.publish(rows)] *)
Definition read_target : run (list row) := fun s => (Ok s.2, s).
Definition replace_target (rows : list row) : run unit := fun s => (Ok tt, (s.1, rows)).

(** [value or uuid4()] *)
Definition or_uuid4 (value : option N) : run N :=
  match value with Some n => mret n | None => world uuid4 end.

(** [value or default] on an optional string *)
Definition or_string (value : option string) (other : string) : string :=
  if falsy_string value then other else default other value.

Definition record_step (dataset_run_id : N) (step_name : string) (status : StepStatus)
    (details : option (list (string * value))) : run unit :=
  now ← world utc_now;
  step_run_id ← world uuid4;
  audit ← lift (make_StepRunAudit
    {| sra_step_run_id := step_run_id; sra_dataset_run_id := dataset_run_id; sra_step_name := step_name;
       sra_status := status; sra_started_at := now; sra_completed_at := Some now; sra_details := details |});
  world (record_step_run audit).

(** The audit that closes a run; [attempt=1]. *)
Definition close_run (dataset_run_id pipeline_run_id : N) (dataset_id : string) (run_mode : RunMode)
    (status : DatasetStatus) (effective_config_hash : string) (accounting : option RowAccounting)
    (mutations : MutationCounts) (error_code error_message : option string) (retryable : option bool) : run unit :=
  started_at ← world utc_now;
  audit ← lift (make_DatasetRunAudit
    {| dra_dataset_run_id := dataset_run_id; dra_pipeline_run_id := pipeline_run_id; dra_dataset_id := dataset_id;
       dra_attempt := 1; dra_run_mode := run_mode; dra_status := status;
       dra_effective_config_hash := effective_config_hash; dra_row_accounting := accounting;
       dra_mutations := mutations; dra_error_code := error_code; dra_error_message := error_message;
       dra_retryable := retryable; dra_started_at := started_at; dra_completed_at := None |});
  world (record_dataset_run audit).

(** [QuarantineBatch(scope=ROW, ...)], recorded. *)
Definition quarantine_rows (quarantine_id : N) (dataset_run_id : N) (dataset_id : string) (row_count : Z)
    (reason_code reason_detail : string) (source_reference : option string) : run unit :=
  created_at ← world utc_now;
  batch ← lift (make_QuarantineBatch
    {| qb_quarantine_id := quarantine_id; qb_dataset_run_id := dataset_run_id; qb_dataset_id := dataset_id;
       qb_scope := QS_ROW; qb_row_count := row_count; qb_reason_code := reason_code;
       qb_reason_detail := Some reason_detail; qb_source_reference := source_reference;
       qb_created_at := created_at; qb_replayed_by_dataset_run_id := None |});
  world (record_quarantine batch).

(** [QuarantineBatch(row_count=1, ...)] for one record. *)
Definition quarantine_record (dataset_run_id : N) (dataset_id : string) (source_reference : option string)
    (item : QuarantinedRecord) : run unit :=
  quarantine_id ← world uuid4;
  quarantine_rows quarantine_id dataset_run_id dataset_id 1 (String.concat "|" (qr_reason_codes item))
    (String.concat " | " (qr_reason_messages item)) source_reference.

(** A reconciliation with the id and the time its result gets. *)
Definition reconcile (check : N -> datetime -> res ReconciliationResult) : run ReconciliationResult :=
  reconciliation_id ← world uuid4;
  created_at ← world utc_now;
  result ← lift (check reconciliation_id created_at);
  _ ← world (record_reconciliation result);
  mret result.

Definition zero_mutations : MutationCounts := {| mc_inserted := 0; mc_updated := 0; mc_deleted := 0 |}.

(** [RowAccounting] of a validated batch *)
Definition account (records : list BronzeRecord) (v : ValidationOutcome) : res RowAccounting :=
  make_RowAccounting (Z.of_nat (length records)) (Z.of_nat (length (vo_accepted v)))
    (Z.of_nat (length (vo_quarantined v))) 0.

(** The gate is closed. *)
Definition reconciliation_blocks (r : ReconciliationResult) : bool :=
  rcr_blocks_state_advance r && bool_decide (rcr_status r = RS_FAIL).
End run_state.

(** ** What a run leaves unchanged *)

Section quiet.
Context {W : Type} `{LawfulWorld W}.

(** What a reader sees of a dataset: its watermark, its configuration and the target. *)
Definition visible (d : string) (s : W * list row) : WatermarkState * option DatasetConfig * list row :=
  (observed d s.1, s.2).

Lemma keeps_world {A} d (m : eff W A) : keeps (observed d) m -> keeps (visible d) (world m).
Proof using Type. intros Hm [w t]. unfold world, visible. simpl. specialize (Hm w). destruct (m w). simpl in *. by rewrite Hm. Qed.

Lemma keeps_read_target d : keeps (visible d) read_target.
Proof using Type. done. Qed.

Lemma keeps_or_uuid4 d v : keeps (visible d) (or_uuid4 v).
Proof using Type. destruct v; [done|]. apply keeps_world. auto with keeps. Qed.

#[local] Hint Resolve keeps_world keeps_read_target keeps_or_uuid4 : keeps.

Lemma keeps_record_step d run step status details : keeps (visible d) (record_step run step status details).
Proof using Type. unfold record_step. auto 10 with keeps. Qed.

Lemma keeps_close_run d r p i m s h a u c e b : keeps (visible d) (close_run r p i m s h a u c e b).
Proof using Type. unfold close_run. auto 10 with keeps. Qed.

Lemma keeps_quarantine_rows d q r i n c t s : keeps (visible d) (quarantine_rows q r i n c t s).
Proof using Type. unfold quarantine_rows. auto 10 with keeps. Qed.

Lemma keeps_quarantine_record d r i s x : keeps (visible d) (quarantine_record r i s x).
Proof using Type. unfold quarantine_record. pose proof keeps_quarantine_rows. auto 10 with keeps. Qed.

Lemma keeps_reconcile d c : keeps (visible d) (reconcile c).
Proof using Type. unfold reconcile. auto 15 with keeps. Qed.

Lemma reconcile_Ok check s r s' : reconcile check s = (Ok r, s') -> exists id at_, check id at_ = Ok r.
Proof using Type.
  intros (id & s1 & _ & H1)%eff_bind_Ok. apply eff_bind_Ok in H1 as (at_ & s2 & _ & H2).
  apply eff_bind_Ok in H2 as (x & s3 & [= Hx ->] & H3). apply eff_bind_Ok in H3 as (u & s4 & _ & [= <- _]). by exists id, at_.
Qed.

Lemma keeps_bronze `{PyRuntime} d rows p r sys obj etc seq :
  keeps (visible d) (normalize_bronze (world utc_now) rows p r sys obj etc seq).
Proof using Type. apply normalize_bronze_keeps. auto with keeps. Qed.
End quiet.

#[export] Hint Resolve keeps_world keeps_read_target keeps_or_uuid4 keeps_record_step keeps_close_run
  keeps_quarantine_rows keeps_quarantine_record keeps_reconcile keeps_bronze : keeps.
