(* ===== verification/WatermarkRun.v ===== *)
(** * WATERMARK to SCD2 runs ([execution/watermark_scd2.py])

    [execute_watermark_scd2] composes capture, bronze, quality, apply and reconciliation behind
    the state-commit gate.  The text of counts and fractions, the hash of a configuration and the
    quarantine store are parameters; [quarantine_store] is the optional [QuarantinePayloadWriter]. *)

From stdpp Require Import base gmap strings list.
From Stdlib Require Import QArith.
From S2P Require Import Prelude Effects PyValue PyDict PyFloat TypedValues ConfigTypes Temporal RuntimeState RunAudit Config DispatchContracts Reconciliation RunContracts Quality Repository RunState Watermark Scd2.
#[local] Close Scope Q_scope.
#[local] Open Scope Z_scope.

Record DatasetExecutionResult := {
  der_dataset_run_id : N;
  der_pipeline_run_id : N;
  der_status : DatasetStatus;
  der_bronze : list BronzeRecord;
  der_quarantined : list QuarantinedRecord;
  der_reconciliation : ReconciliationResult;
  der_watermark_before : option WatermarkPosition;
  der_watermark_after : option WatermarkPosition;
  der_target_rows : list row
}.

(** The arguments of the run. *)
Record WatermarkRunArgs (W : Type) := {
  wa_dataset_id : string;
  wa_source_rows : list row;
  wa_rules : list RowRule;
  wa_mapper : row -> res row;
  wa_pipeline_run_id : option N;
  wa_dataset_run_id : option N;
  wa_run_mode : RunMode;
  wa_effective_config_hash : option string;
  wa_quarantine_store : option (N -> N -> string -> list QuarantinedRecord -> eff W string);
  wa_reconciliation_observations : list ReconciliationObservation;
  wa_force_reconciliation_failure : bool
}.
Arguments wa_dataset_id {W}. Arguments wa_source_rows {W}. Arguments wa_rules {W}. Arguments wa_mapper {W}.
Arguments wa_pipeline_run_id {W}. Arguments wa_dataset_run_id {W}. Arguments wa_run_mode {W}.
Arguments wa_effective_config_hash {W}. Arguments wa_quarantine_store {W}.
Arguments wa_reconciliation_observations {W}. Arguments wa_force_reconciliation_failure {W}.

(** ** Quarantine *)

(** [_reason_summary] *)
Definition _reason_summary (rows : list QuarantinedRecord) : string * string :=
  let codes := sorted_names (concat (map qr_reason_codes rows)) in
  let messages := sorted_names (concat (map qr_reason_messages rows)) in
  (String.concat "|" codes, String.concat " | " messages).

(** [str(n)] of a count, [f"{q:.6f}"] of a fraction *)
Class CountText := { count_text : Z -> string; fixed6 : Q -> string }.

(** [invalid_rows / total_rows if total_rows else 0.0] *)
Definition invalid_fraction (invalid_rows total_rows : nat) : Q :=
  if bool_decide (total_rows = 0%nat) then 0%Q else py_truediv (Z.of_nat invalid_rows) (Z.of_nat total_rows).

Definition _quarantine_threshold_breaches `{CountText} (quality : DataQualityPolicy) (invalid_rows total_rows : nat) :
    list string :=
  if bool_decide (invalid_rows = 0%nat) || negb (dq_quarantine_enabled quality) then []
  else
    let rows_breach :=
      match dq_max_quarantine_rows quality with
      | Some bound => if Z.of_nat invalid_rows >? bound then
                        ["rows=" +:+ count_text (Z.of_nat invalid_rows) +:+ ">" +:+ count_text bound]
                      else []
      | None => []
      end in
    let fraction := invalid_fraction invalid_rows total_rows in
    let fraction_breach :=
      match dq_max_quarantine_fraction quality with
      | Some bound => if flt bound fraction then ["fraction=" +:+ fixed6 fraction +:+ ">" +:+ fixed6 bound] else []
      | None => []
      end in
    rows_breach ++ fraction_breach.

(** [detail_mode.value] *)
Definition detail_value (m : QuarantineDetailMode) : string :=
  match m with QD_FULL => "FULL" | QD_REFERENCE_ONLY => "REFERENCE_ONLY" end.
Definition reconciliation_value (s : ReconciliationStatus) : string :=
  match s with RS_PASS => "PASS" | RS_WARN => "WARN" | RS_FAIL => "FAIL" end.

Section execute.
Context {W : Type} `{RunWorld W} `{PyRuntime} `{ScalarText} `{CountText} (config_hash : DatasetConfig -> string).
Abbreviation run := (eff (W * list row)).
Implicit Types (args : WatermarkRunArgs W).

Definition _record_row_quarantine args (dataset_run_id : N) (quarantined : list QuarantinedRecord)
    (detail_mode : QuarantineDetailMode) : run unit :=
  match quarantined, detail_mode with
  | [], _ => mret tt
  | _, QD_FULL =>
    match wa_quarantine_store args with
    | None => throw "RuntimeError" "FULL row quarantine requires a governed QuarantinePayloadWriter"
    | Some write_payload =>
      quarantine_id ← world uuid4;
      source_reference ← world (write_payload quarantine_id dataset_run_id (wa_dataset_id args) quarantined);
      let '(reason_code, reason_detail) := _reason_summary quarantined in
      quarantine_rows quarantine_id dataset_run_id (wa_dataset_id args) (Z.of_nat (length quarantined))
        reason_code reason_detail (Some source_reference)
    end
  | _, QD_REFERENCE_ONLY =>
    for_each (fun item => quarantine_record dataset_run_id (wa_dataset_id args) (br_source_sequence (qr_record item)) item)
      quarantined
  end.

(** ** The phases of a run *)

(** The guards on the configuration: its watermark and its event-time column. *)
Definition require_watermark_scd2 (config : DatasetConfig) : res (WatermarkConfig * string) :=
  let load := dc_load config in
  if negb (bool_decide (lp_capture_strategy load = CS_WATERMARK)) then
    raise "ValueError" "reference executor requires WATERMARK capture"
  else if negb (bool_decide (lp_apply_strategy load = AS_SCD2)) then
    raise "ValueError" "reference executor requires SCD2 apply"
  else match lp_watermark load with
       | None => raise "ValueError" "WATERMARK configuration missing"
       | Some watermark =>
         if falsy_string (lp_event_time_column load) then
           raise "ValueError" "SCD2 reference executor requires event_time_column"
         else Ok (watermark, default "" (lp_event_time_column load))
       end.

(** The DQ phase, with its step. *)
Definition validate_batch (config : DatasetConfig) (rules : list RowRule) (dataset_run_id : N)
    (bronze : list BronzeRecord) : run ValidationOutcome :=
  if dq_enabled (dc_quality config) then
    validation ← lift (validate_records bronze rules);
    let invalid := length (vo_quarantined validation) in
    _ ← record_step dataset_run_id "VALIDATE" SS_SUCCEEDED
          (Some [("rows_accepted", VInt (Z.of_nat (length (vo_accepted validation))));
                 ("rows_invalid", VInt (Z.of_nat invalid));
                 ("invalid_fraction", VFloat (invalid_fraction invalid (length bronze)))]);
    mret validation
  else
    _ ← record_step dataset_run_id "VALIDATE" SS_SKIPPED (Some [("reason", VStr "data_quality_disabled")]);
    mret {| vo_accepted := bronze; vo_quarantined := [] |}.

(** The quarantine phase, with its step. *)
Definition quarantine_batch args (config : DatasetConfig) (dataset_run_id : N) (validation : ValidationOutcome)
    (threshold_breaches : list string) (hard_dq_failure : bool) : run unit :=
  let invalid := vo_quarantined validation in
  let quality := dc_quality config in
  if negb (bool_decide (length invalid = 0%nat)) && dq_quarantine_enabled quality then
    _ ← _record_row_quarantine args dataset_run_id invalid (dq_quarantine_detail_mode quality);
    record_step dataset_run_id "QUARANTINE" SS_SUCCEEDED
      (Some [("rows_quarantined", VInt (Z.of_nat (length invalid)));
             ("detail_mode", VStr (detail_value (dq_quarantine_detail_mode quality)));
             ("threshold_breached", VBool (negb (bool_decide (threshold_breaches = []))));
             ("threshold_breaches", VList (map VStr threshold_breaches))])
  else if hard_dq_failure then
    record_step dataset_run_id "QUARANTINE" SS_SKIPPED
      (Some [("reason", VStr "quarantine_disabled"); ("rows_invalid", VInt (Z.of_nat (length invalid)))])
  else record_step dataset_run_id "QUARANTINE" SS_SKIPPED (Some [("reason", VStr "no_invalid_rows_or_dq_disabled")]).

(** What the run has when it reaches the gate. *)
Record prepared := {
  pr_config : DatasetConfig;
  pr_pipeline_run_id : N;
  pr_dataset_run_id : N;
  pr_config_hash : string;
  pr_watermark : WatermarkState;
  pr_capture : WatermarkBatch;
  pr_bronze : list BronzeRecord;
  pr_validation : ValidationOutcome;
  pr_breaches : list string;
  pr_hard_dq_failure : bool;
  pr_proposed : SCD2ApplyResult;
  pr_accounting : RowAccounting;
  pr_reconciliation : ReconciliationResult
}.

(** Everything before the gate. *)
Definition prepare_watermark_scd2 args : run prepared :=
  config ← world (get_dataset (wa_dataset_id args));
  required ← lift (require_watermark_scd2 config);
  let '(watermark, event_time_column) := required in
  pipeline_run_id ← or_uuid4 (wa_pipeline_run_id args);
  dataset_run_id ← or_uuid4 (wa_dataset_run_id args);
  let hash := or_string (wa_effective_config_hash args) (config_hash config) in
  state ← world (get_watermark_state (wa_dataset_id args));
  capture ← lift (plan_watermark_batch (wa_source_rows args) watermark (ws_position state));
  _ ← record_step dataset_run_id "CAPTURE" SS_SUCCEEDED None;
  bronze ← normalize_bronze (world utc_now) (wb_rows capture) pipeline_run_id dataset_run_id
             (src_system (dc_source config)) (src_object (dc_source config))
             (lp_event_time_column (dc_load config)) (wm_tie_breaker watermark);
  _ ← record_step dataset_run_id "BRONZE_NORMALIZE" SS_SUCCEEDED None;
  validation ← validate_batch config (wa_rules args) dataset_run_id bronze;
  let invalid := length (vo_quarantined validation) in
  let breaches := _quarantine_threshold_breaches (dc_quality config) invalid (length bronze) in
  let hard := negb (bool_decide (invalid = 0%nat))
              && (negb (dq_quarantine_enabled (dc_quality config)) || negb (bool_decide (breaches = []))) in
  _ ← quarantine_batch args config dataset_run_id validation breaches hard;
  mapped ← lift (mapM_res (fun record => wa_mapper args (br_data record)) (vo_accepted validation));
  _ ← record_step dataset_run_id "TRANSFORM" SS_SUCCEEDED None;
  existing ← read_target;
  proposed ← lift (apply_scd2 existing mapped (lp_business_key (dc_load config)) (lp_tracked_columns (dc_load config))
                     event_time_column (uuid_text dataset_run_id));
  _ ← record_step dataset_run_id "APPLY_PLAN" SS_SUCCEEDED None;
  accounting ← lift (account bronze validation);
  reconciliation ← reconcile (reconcile_scd2_batch dataset_run_id (wa_dataset_id args) (dc_reconciliation config)
                     accounting (s2_rows proposed) (lp_business_key (dc_load config))
                     (wa_reconciliation_observations args) (wa_force_reconciliation_failure args));
  _ ← record_step dataset_run_id "RECONCILE"
        (if reconciliation_blocks reconciliation then SS_FAILED else SS_SUCCEEDED)
        (Some [("reconciliation_status", VStr (reconciliation_value (rcr_status reconciliation)));
               ("blocks_state_advance", VBool (rcr_blocks_state_advance reconciliation))]);
  mret {| pr_config := config; pr_pipeline_run_id := pipeline_run_id; pr_dataset_run_id := dataset_run_id;
          pr_config_hash := hash; pr_watermark := state; pr_capture := capture; pr_bronze := bronze;
          pr_validation := validation; pr_breaches := breaches; pr_hard_dq_failure := hard;
          pr_proposed := proposed; pr_accounting := accounting; pr_reconciliation := reconciliation |}.

(** [passed] *)
Definition gate_passed (p : prepared) : bool :=
  negb (pr_hard_dq_failure p) && negb (reconciliation_blocks (pr_reconciliation p)).

Definition gate_of (p : prepared) : StateCommitGate :=
  {| target_committed := gate_passed p;
     reconciliation_required := rpol_required_for_state_commit (dc_reconciliation (pr_config p));
     reconciliation_passed := negb (bool_decide (rcr_status (pr_reconciliation p) = RS_FAIL));
     batch_quarantined := pr_hard_dq_failure p |}.

(** [before is None or compare_watermark_positions(capture.after, before) > 0] *)
Definition watermark_changed (before : option WatermarkPosition) (after : WatermarkPosition) : res bool :=
  match before with
  | None => Ok true
  | Some before => ordering ← compare_watermark_positions after before; Ok (ordering >? 0)
  end.

(** The commit of the watermark behind the gate. *)
Definition advance_watermark args (p : prepared) : run unit :=
  match wb_after (pr_capture p) with
  | None => mret tt
  | Some after =>
    _ ← lift (validate_advance {| wt_before := ws_position (pr_watermark p); wt_after := after; wt_gate := gate_of p |});
    changed ← lift (watermark_changed (ws_position (pr_watermark p)) after);
    if changed : bool then
      _ ← world (commit_watermark (wa_dataset_id args) after (ws_version (pr_watermark p))); mret tt
    else mret tt
  end.

(** The gate: publish the target, then advance the watermark. *)
Definition commit_watermark_scd2 args (p : prepared) : run DatasetStatus :=
  if gate_passed p then
    _ ← replace_target (s2_rows (pr_proposed p));
    _ ← advance_watermark args p;
    _ ← record_step (pr_dataset_run_id p) "COMMIT_STATE" SS_SUCCEEDED None;
    mret DS_SUCCEEDED
  else
    _ ← record_step (pr_dataset_run_id p) "COMMIT_STATE" SS_SKIPPED (Some [("reason", VStr "dataset_gate_failed")]);
    mret DS_FAILED.

(** The error code and message of the audit. *)
Definition run_error (p : prepared) : option (string * string) :=
  let invalid := vo_quarantined (pr_validation p) in
  let count := count_text (Z.of_nat (length invalid)) in
  if negb (bool_decide (length invalid = 0%nat)) && negb (dq_quarantine_enabled (dc_quality (pr_config p))) then
    let '(reason_code, reason_detail) := _reason_summary invalid in
    Some ("DATA_QUALITY_FAILED_QUARANTINE_DISABLED",
          count +:+ " row(s) failed data quality while quarantine was disabled; rules=" +:+ reason_code
          +:+ "; detail=" +:+ reason_detail)
  else if negb (bool_decide (pr_breaches p = [])) then
    Some ("DATA_QUALITY_QUARANTINE_THRESHOLD_EXCEEDED",
          count +:+ " quarantined row(s) exceeded configured DQ budget: " +:+ String.concat ", " (pr_breaches p))
  else if reconciliation_blocks (pr_reconciliation p) then
    Some ("RECONCILIATION_FAILED", "required reconciliation gate failed")
  else None.

(** The audit of the run, and its result. *)
Definition finish_watermark_scd2 args (p : prepared) (status : DatasetStatus) : run DatasetExecutionResult :=
  let mutations := s2_mutations (pr_proposed p) in
  _ ← close_run (pr_dataset_run_id p) (pr_pipeline_run_id p) (wa_dataset_id args) (wa_run_mode args) status
        (pr_config_hash p) (Some (pr_accounting p))
        (if gate_passed p then mutations else zero_mutations)
        (fst <$> run_error p) (snd <$> run_error p) (if gate_passed p then None else Some false);
  watermark_after ← world (get_watermark (wa_dataset_id args));
  target_rows ← read_target;
  mret {| der_dataset_run_id := pr_dataset_run_id p; der_pipeline_run_id := pr_pipeline_run_id p;
          der_status := status; der_bronze := pr_bronze p;
          der_quarantined := vo_quarantined (pr_validation p); der_reconciliation := pr_reconciliation p;
          der_watermark_before := ws_position (pr_watermark p); der_watermark_after := watermark_after;
          der_target_rows := target_rows |}.

Definition execute_watermark_scd2 args : run DatasetExecutionResult :=
  p ← prepare_watermark_scd2 args;
  status ← commit_watermark_scd2 args p;
  finish_watermark_scd2 args p status.
End execute.

(** ** What a run computes *)

(** The plan of a run, without its records: the batch after the checkpoint, the rows the rules
    admit, mapped, and the history they give. *)
Definition planned `{PyRuntime} `{ScalarText} {W} (args : WatermarkRunArgs W) (config : DatasetConfig) (run_id : N)
    (before : option WatermarkPosition) (existing : list row) : res (WatermarkBatch * SCD2ApplyResult) :=
  required ← require_watermark_scd2 config;
  capture ← plan_watermark_batch (wa_source_rows args) required.1 before;
  admitted ← (if dq_enabled (dc_quality config) then filterM_res (accepts (wa_rules args)) (wb_rows capture)
              else Ok (wb_rows capture));
  mapped ← mapM_res (wa_mapper args) admitted;
  proposed ← apply_scd2 existing mapped (lp_business_key (dc_load config)) (lp_tracked_columns (dc_load config))
               required.2 (uuid_text run_id);
  Ok (capture, proposed).

Section fail_closed.
Context {W : Type} `{LawfulWorld W} `{PyRuntime} `{ScalarText} `{CountText} (config_hash : DatasetConfig -> string).
Implicit Types (args : WatermarkRunArgs W).

(** The quarantine store does not move watermarks. *)
Definition quiet_store args : Prop :=
  forall write, wa_quarantine_store args = Some write -> forall d q r i rows, keeps (observed d) (write q r i rows).

Lemma keeps_row_quarantine args d r q mode : quiet_store args -> keeps (visible d) (_record_row_quarantine args r q mode).
Proof using Type.
  intros Hstore. unfold _record_row_quarantine. destruct q as [|x q]; [auto with keeps|].
  destruct mode; [|auto with keeps]. destruct (wa_quarantine_store args) as [write|] eqn:E; [|auto with keeps].
  apply keeps_bind; [auto with keeps|]. intros id. apply keeps_bind; [by apply keeps_world, Hstore|].
  intros ref. destruct (_reason_summary _). auto with keeps.
Qed.

Lemma keeps_validate_batch d config rules r bronze : keeps (visible d) (validate_batch config rules r bronze).
Proof using Type. unfold validate_batch. destruct (dq_enabled _); auto 10 with keeps. Qed.

Lemma keeps_quarantine_batch args d config r v b h : quiet_store args -> keeps (visible d) (quarantine_batch args config r v b h).
Proof using Type.
  intros Hstore. unfold quarantine_batch. destruct (_ && _); [|destruct h; auto with keeps].
  apply keeps_bind; [by apply keeps_row_quarantine|auto with keeps].
Qed.

(** Nothing visible changes before the gate. *)
Lemma keeps_prepare args d : quiet_store args -> keeps (visible d) (prepare_watermark_scd2 config_hash args).
Proof using Type.
  intros Hstore. unfold prepare_watermark_scd2.
  pose proof (fun config r v b h => keeps_quarantine_batch args d config r v b h Hstore).
  pose proof (keeps_validate_batch d). auto 60 with keeps.
Qed.

(** What a step that ended well keeps. *)
Lemma keeps_Ok {A} d (m : eff (W * list row) A) s r s' : keeps (visible d) m -> m s = (r, s') -> visible d s' = visible d s.
Proof using Type. intros Hm Hs. specialize (Hm s). by rewrite Hs in Hm. Qed.

Lemma world_Ok {A} (m : eff W A) s a s' : world m s = (Ok a, s') -> m s.1 = (Ok a, s'.1) /\ s'.2 = s.2.
Proof using Type. unfold world. destruct (m s.1) as [r w]. by intros [= -> <-]. Qed.

Lemma lift_Ok {A} (r : res A) (s s' : W * list row) a : lift r s = (Ok a, s') -> r = Ok a /\ s' = s.
Proof using Type. by intros [= -> ->]. Qed.

(** Validation admits the rows no rule rejects, all rows when it is disabled. *)
Lemma validate_batch_Ok config rules run_id bronze s v s' :
  validate_batch config rules run_id bronze s = (Ok v, s') ->
  (if dq_enabled (dc_quality config) then filterM_res (accepts rules) (map br_data bronze) else Ok (map br_data bronze))
    = Ok (map br_data (vo_accepted v)) /\
  length (vo_quarantined v) = rejected_count config rules (map br_data bronze).
Proof using Type.
  unfold validate_batch, rejected_count. destruct (dq_enabled _).
  - intros (v' & s1 & [Hv _]%lift_Ok & (u & s2 & _ & [= <- _])%eff_bind_Ok)%eff_bind_Ok.
    pose proof (validate_records_quarantined _ _ _ Hv) as Hq.
    apply validate_records_Ok in Hv as (Hok & Hdata & _). split; [|done]. apply filterM_res_Ok. split; [by apply Forall_map|done].
  - by intros (u & s1 & _ & [= <- _])%eff_bind_Ok.
Qed.

(** The next step of [H] keeps what is visible: [Hv] says so at its end. *)
Ltac keep_step d H x s Hx Hv :=
  let Hn := fresh "Hn" in
  apply eff_bind_Ok in H as (x & s & Hx & H);
  pose proof Hx as Hn; eapply (keeps_Ok d) in Hn; [|solve [auto with keeps]];
  apply eq_trans with (2 := Hv) in Hn; clear Hv; rename Hn into Hv.

Lemma prepare_spec args s p s1 :
  quiet_store args -> prepare_watermark_scd2 config_hash args s = (Ok p, s1) ->
  let d := wa_dataset_id args in
  visible d s1 = visible d s /\ dataset_of s.1 d = Some (pr_config p) /\ pr_watermark p = watermark_of s.1 d /\
  planned args (pr_config p) (pr_dataset_run_id p) (ws_position (pr_watermark p)) s.2 = Ok (pr_capture p, pr_proposed p) /\
  (rcr_blocks_state_advance (pr_reconciliation p) = rpol_required_for_state_commit (dc_reconciliation (pr_config p)) /\
   (rcr_status (pr_reconciliation p) <> RS_FAIL ->
    one_current (lp_business_key (dc_load (pr_config p))) (s2_rows (pr_proposed p)) /\
    wa_force_reconciliation_failure args = false /\
    policy_satisfied (dc_reconciliation (pr_config p)) (wa_reconciliation_observations args))) /\
  let rejected := rejected_count (pr_config p) (wa_rules args) (wb_rows (pr_capture p)) in
  pr_hard_dq_failure p = negb (bool_decide (rejected = 0%nat))
    && (negb (dq_quarantine_enabled (dc_quality (pr_config p)))
        || negb (bool_decide (_quarantine_threshold_breaches (dc_quality (pr_config p)) rejected
                                (length (wb_rows (pr_capture p))) = []))).
Proof using Type.
  intros Hstore Hp d. subst d.
  pose proof (keeps_prepare args (wa_dataset_id args) Hstore) as Hkeeps.
  split; [by eapply keeps_Ok|]. unfold prepare_watermark_scd2 in Hp.
  pose proof (fun config r v b h => keeps_quarantine_batch args (wa_dataset_id args) config r v b h Hstore).
  pose proof (keeps_validate_batch (wa_dataset_id args)).
  assert (visible (wa_dataset_id args) s = visible (wa_dataset_id args) s) as Hv by done.
  keep_step (wa_dataset_id args) Hp config s2 Hconfig Hv. apply world_Ok in Hconfig as [Hconfig%get_dataset_law _].
  apply eff_bind_Ok in Hp as ([wm etc] & s3 & [Hreq ->]%lift_Ok & Hp).
  keep_step (wa_dataset_id args) Hp pid s4 Hpid Hv. keep_step (wa_dataset_id args) Hp run_id s5 Hrid Hv. pose proof Hv as Hv5.
  keep_step (wa_dataset_id args) Hp st s6 Hst Hv5. apply world_Ok in Hst as [->%get_watermark_state_law _].
  apply eff_bind_Ok in Hp as (capture & s7 & [Hcap ->]%lift_Ok & Hp).
  keep_step (wa_dataset_id args) Hp u1 s8 Hu1 Hv5. keep_step (wa_dataset_id args) Hp bronze s9 Hbronze Hv5. apply normalize_bronze_data in Hbronze.
  keep_step (wa_dataset_id args) Hp u2 s10 Hu2 Hv5. keep_step (wa_dataset_id args) Hp validation s11 Hval Hv5. apply validate_batch_Ok in Hval as [Hval Hrej].
  keep_step (wa_dataset_id args) Hp u3 s12 Hu3 Hv5. apply eff_bind_Ok in Hp as (mapped & s13 & [Hmap ->]%lift_Ok & Hp).
  keep_step (wa_dataset_id args) Hp u4 s14 Hu4 Hv5. apply eff_bind_Ok in Hp as (existing & s15 & [= <- <-] & Hp).
  apply eff_bind_Ok in Hp as (proposed & s16 & [Hprop ->]%lift_Ok & Hp).
  apply eff_bind_Ok in Hp as (u5 & s17 & _ & Hp). apply eff_bind_Ok in Hp as (acc & s18 & _ & Hp).
  apply eff_bind_Ok in Hp as (rec & s19 & Hrec & Hp).
  apply reconcile_Ok in Hrec as (rid & at_ & Hrec%reconcile_scd2_spec). apply eff_bind_Ok in Hp as (u6 & s20 & _ & [= <- _]).
  simpl. injection Hv as Hw _ _. injection Hv5 as _ _ Ht. rewrite Hw in Hcap.
  split; [done|]. split; [by rewrite Hw|]. unfold planned. rewrite Hreq. cbn [mbind res_bind fst snd].
  rewrite Hw, Hcap. cbn [mbind res_bind]. rewrite Hbronze in Hval. rewrite Hval. cbn [mbind res_bind].
  rewrite mapM_res_map in Hmap. rewrite Hmap. cbn [mbind res_bind]. rewrite Ht in Hprop. rewrite Hprop.
  split; [done|]. split; [done|]. by rewrite Hrej, <-(length_map br_data bronze), Hbronze.
Qed.

(** The gate is open for a batch: the rows its rules reject are within the budget, and when
    reconciliation is required, no failure is forced, the proposed history has one current row per
    key, and the observations satisfy the policy. *)
Definition gate_open args (config : DatasetConfig) (capture : WatermarkBatch) (proposed : list row) : Prop :=
  within_budget (dc_quality config) (rejected_count config (wa_rules args) (wb_rows capture)) (length (wb_rows capture)) /\
  (rpol_required_for_state_commit (dc_reconciliation config) = true ->
   wa_force_reconciliation_failure args = false /\ one_current (lp_business_key (dc_load config)) proposed /\
   policy_satisfied (dc_reconciliation config) (wa_reconciliation_observations args)).

(** The watermark of a run that published: where it was, or at the end of the batch. *)
Definition watermark_follows (before after : WatermarkState) (capture : WatermarkBatch) : Prop :=
  after = before \/
  exists position, wb_after capture = Some position /\
    after = {| ws_position := Some position; ws_version := ws_version before + 1 |} /\
    forall q, ws_position before = Some q -> exists z, compare_watermark_positions position q = Ok z /\ 0 < z.

(** The watermark is not before the end of the batch. *)
Definition watermark_covers (w : WatermarkState) (capture : WatermarkBatch) : Prop :=
  forall position, wb_after capture = Some position ->
    exists q, ws_position w = Some q /\ (q = position \/ compare_watermark_positions position q = Ok 0).

(** The commit of the watermark. *)
Lemma advance_watermark_spec args p s r s' :
  let d := wa_dataset_id args in
  watermark_of s.1 d = pr_watermark p -> advance_watermark args p s = (r, s') ->
  s'.2 = s.2 /\ dataset_of s'.1 d = dataset_of s.1 d /\
  (forall d', d' <> d -> observed d' s'.1 = observed d' s.1) /\
  watermark_follows (pr_watermark p) (watermark_of s'.1 d) (pr_capture p) /\
  (is_ok r = true -> watermark_covers (watermark_of s'.1 d) (pr_capture p)).
Proof using Type.
  intros d Hw. unfold advance_watermark, watermark_follows, watermark_covers.
  assert (forall b, b = watermark_of s.1 d -> b = pr_watermark p) as Hb by congruence.
  destruct (wb_after (pr_capture p)) as [after|] eqn:Ea.
  2:{ intros [= <- <-]. split_and!; auto. by intros _ ? [=]. }
  intros [(e & [= _ <-] & ->)|(u & s1 & [= Hadv <-] & Hs)]%eff_bind_inv.
  { split_and!; auto. by intros [=]. }
  apply eff_bind_inv in Hs as [(e & [= _ <-] & ->)|(changed & s1 & [= Hch <-] & Hs)].
  { split_and!; auto. by intros [=]. }
  destruct changed.
  - apply eff_bind_inv in Hs as [(e & Hc & ->)|(st & s1 & Hc & [= <- <-])];
      unfold world in Hc; destruct (commit_watermark _ _ _ s.1) as [rc w'] eqn:Ec; injection Hc as -> <-; simpl;
      pose proof (fun d' Hd => commit_others d after (ws_version (pr_watermark p)) d' Hd s.1) as Hoth;
      pose proof (commit_config d after (ws_version (pr_watermark p)) s.1) as Hcfg; subst d; rewrite Ec in Hoth, Hcfg;
      apply commit_law in Ec as [Hmv Hok]; rewrite Hw in Hmv, Hok; simpl in Hmv, Hok, Hoth, Hcfg;
      (split_and!; [done|done|done| |]).
    1,3: destruct Hmv as [?|(-> & Hv & Hq)]; [by left|right; by exists after].
    + by intros [=].
    + intros _ position [= <-]. destruct (Hok eq_refl) as [_ Hsame]. destruct Hmv as [Hm|(-> & _)].
      * destruct (Hsame Hm) as (q & Hq & Hz). rewrite Hm. exists q. split; [done|by right].
      * exists after. split; [done|by left].
  - injection Hs as <- <-. split_and!; auto. intros _ position [= <-]. rewrite Hw.
    unfold watermark_changed in Hch. unfold validate_advance in Hadv. simpl in Hadv.
    destruct (ws_position (pr_watermark p)) as [q|]; [|done]. exists q. split; [done|]. right.
    destruct (compare_watermark_positions after q) as [z|]; [|done]. cbn [mbind res_bind] in *.
    destruct (z <? 0) eqn:E; [done|]. f_equal. injection Hch as Hch. lia.
Qed.

Lemma breaches_within_budget quality rejected total :
  (rejected <= total)%nat -> dq_quarantine_enabled quality = true ->
  _quarantine_threshold_breaches quality rejected total = [] -> within_budget quality rejected total.
Proof using Type.
  intros Hle Hq Hb Hne. unfold _quarantine_threshold_breaches in Hb. rewrite Hq, bool_decide_false in Hb by done.
  cbn [orb negb] in Hb. apply app_eq_nil in Hb as [Hrows Hfraction]. split; [done|]. split.
  - intros bound E. rewrite E in Hrows. destruct (_ >? _) eqn:Eb in Hrows; [done|]. lia.
  - intros bound E. rewrite E in Hfraction. unfold invalid_fraction in Hfraction.
    rewrite bool_decide_false in Hfraction by lia. destruct (flt _ _) eqn:Ef in Hfraction; [done|].
    unfold flt in Ef. by apply negb_false_iff, Qle_bool_iff in Ef.
Qed.

Lemma gate_passed_open args s p s1 :
  quiet_store args -> prepare_watermark_scd2 config_hash args s = (Ok p, s1) -> gate_passed p = true ->
  gate_open args (pr_config p) (pr_capture p) (s2_rows (pr_proposed p)).
Proof using Type.
  intros Hstore Hp Hg. destruct (prepare_spec args s p s1 Hstore Hp) as (_ & _ & _ & _ & [Hb Hr] & Hh).
  unfold gate_passed, reconciliation_blocks in Hg. rewrite Hb, Hh in Hg. apply andb_true_iff in Hg as [Hdq Hrec].
  rewrite negb_true_iff in Hdq, Hrec. split.
  - intros Hne. rewrite bool_decide_false in Hdq by done. apply orb_false_iff in Hdq as [Hq Hbr].
    rewrite negb_false_iff in Hq, Hbr. rewrite bool_decide_eq_true in Hbr.
    apply breaches_within_budget; [apply rejected_count_bound|done..].
  - intros Hreq. rewrite Hreq in Hrec. simpl in Hrec. rewrite bool_decide_eq_false in Hrec. destruct (Hr Hrec) as (Hone & Hforce & Hpol). by split_and!.
Qed.

Lemma visible_parts d (s s' : W * list row) : visible d s' = visible d s -> observed d s'.1 = observed d s.1 /\ s'.2 = s.2.
Proof using Type. intros Hv. split; [by apply (f_equal fst) in Hv|by apply (f_equal snd) in Hv]. Qed.

Lemma visible_dataset d (s s' : W * list row) :
  visible d s' = visible d s -> watermark_of s'.1 d = watermark_of s.1 d /\ dataset_of s'.1 d = dataset_of s.1 d.
Proof using Type. intros [Ho _]%visible_parts. split; [by apply (f_equal fst) in Ho|by apply (f_equal snd) in Ho]. Qed.

(** The records that close a run change nothing visible. *)
Lemma finish_spec args p status s r s' :
  finish_watermark_scd2 args p status s = (r, s') ->
  (forall d, visible d s' = visible d s) /\ (forall x, r = Ok x -> der_status x = status).
Proof using Type.
  intros Hf. split.
  - intros d. eapply keeps_Ok; [|exact Hf]. unfold finish_watermark_scd2. auto 20 with keeps.
  - intros x ->. unfold finish_watermark_scd2 in Hf. apply eff_bind_Ok in Hf as (u & s1 & _ & Hf).
    apply eff_bind_Ok in Hf as (w & s2 & _ & Hf). by apply eff_bind_Ok in Hf as (rows & s3 & _ & [= <- _]).
Qed.

(** The gate: closed, it changes nothing; open, it publishes and the watermark follows. *)
Lemma commit_spec args p s r s' :
  let d := wa_dataset_id args in
  watermark_of s.1 d = pr_watermark p -> commit_watermark_scd2 args p s = (r, s') ->
  (forall d', d' <> d -> observed d' s'.1 = observed d' s.1) /\ dataset_of s'.1 d = dataset_of s.1 d /\
  if gate_passed p then
    s'.2 = s2_rows (pr_proposed p) /\ watermark_follows (pr_watermark p) (watermark_of s'.1 d) (pr_capture p) /\
    (forall status, r = Ok status -> status = DS_SUCCEEDED /\ watermark_covers (watermark_of s'.1 d) (pr_capture p))
  else visible d s' = visible d s /\ (forall status, r = Ok status -> status = DS_FAILED).
Proof using Type.
  intros d Hw. unfold commit_watermark_scd2. destruct (gate_passed p).
  - intros [(e & [=] & _)|([] & s1 & [= <-] & Hs)]%eff_bind_inv.
    apply eff_bind_inv in Hs as [(e & Ha & ->)|([] & s2 & Ha & Hs)].
    { apply advance_watermark_spec in Ha as (Ht & Hc & Ho & Hf & _); [|done]. by split_and!. }
    apply advance_watermark_spec in Ha as (Ht & Hc & Ho & Hf & Hcov); [|done]. simpl in Ht, Hc, Ho, Hf.
    fold d in Hc, Ho, Hf, Hcov.
    assert (forall d', visible d' s' = visible d' s2) as Hv.
    { intros d'. eapply keeps_Ok; [|exact Hs]. auto with keeps. }
    assert (forall d', observed d' s'.1 = observed d' s2.1) as Ho2 by (intros d'; by apply visible_parts, Hv).
    assert (watermark_of s'.1 d = watermark_of s2.1 d) as Hw2 by (by apply visible_dataset).
    assert (dataset_of s'.1 d = dataset_of s2.1 d) as Hc2 by (by apply visible_dataset).
    split_and!; [intros d' Hd; by rewrite Ho2, Ho|by rewrite Hc2, Hc|by rewrite (proj2 (visible_parts d _ _ (Hv d)))|by rewrite Hw2|].
    intros status ->. apply eff_bind_Ok in Hs as (u & s3 & _ & [= <- _]). split; [done|]. rewrite Hw2. by apply Hcov.
  - intros Hs.
    assert (forall d', visible d' s' = visible d' s) as Hv.
    { intros d'. eapply keeps_Ok; [|exact Hs]. auto with keeps. }
    split_and!; [intros d' _; by apply visible_parts, Hv|by apply visible_dataset|done|].
    intros status ->. by apply eff_bind_Ok in Hs as (u & s3 & _ & [= <- _]).
Qed.

(** How a run ends: with nothing visible changed, or behind the open gate with the target
    published and the watermark following it. *)
Lemma execute_spec args s r s' :
  quiet_store args -> execute_watermark_scd2 config_hash args s = (r, s') ->
  let d := wa_dataset_id args in
  (forall d', d' <> d -> observed d' s'.1 = observed d' s.1) /\ dataset_of s'.1 d = dataset_of s.1 d /\
  (visible d s' = visible d s /\ (forall x, r = Ok x -> der_status x = DS_FAILED) \/
   exists p s1, prepare_watermark_scd2 config_hash args s = (Ok p, s1) /\ gate_passed p = true /\
     s'.2 = s2_rows (pr_proposed p) /\
     watermark_follows (watermark_of s.1 d) (watermark_of s'.1 d) (pr_capture p) /\
     (forall x, r = Ok x -> der_status x = DS_SUCCEEDED /\ watermark_covers (watermark_of s'.1 d) (pr_capture p))).
Proof using Type.
  intros Hstore Hs d. unfold execute_watermark_scd2 in Hs. apply eff_bind_inv in Hs as [(e & Hp & ->)|(p & s1 & Hp & Hs)].
  { assert (forall d', visible d' s' = visible d' s) as Hv.
    { intros d'. eapply keeps_Ok; [by apply keeps_prepare|exact Hp]. }
    split_and!; [intros d' _; by apply visible_parts, Hv|by apply visible_dataset|left; split; [done|by intros x [=]]]. }
  pose proof (prepare_spec args s p s1 Hstore Hp) as (Hv & _ & Hw & _). fold d in Hv, Hw.
  assert (forall d', visible d' s1 = visible d' s) as Hv1
    by (intros d'; eapply keeps_Ok; [by apply keeps_prepare|done]).
  assert (watermark_of s1.1 d = pr_watermark p) as Hw1 by (rewrite Hw; by apply visible_dataset).
  assert (dataset_of s1.1 d = dataset_of s.1 d) as Hd1 by (by apply visible_dataset).
  assert (forall r2 s2, commit_watermark_scd2 args p s1 = (r2, s2) -> (forall d', visible d' s' = visible d' s2) ->
    (forall x, r = Ok x -> exists status, r2 = Ok status /\ der_status x = status) ->
    (forall d', d' <> d -> observed d' s'.1 = observed d' s.1) /\ dataset_of s'.1 d = dataset_of s.1 d /\
    (visible d s' = visible d s /\ (forall x, r = Ok x -> der_status x = DS_FAILED) \/
     gate_passed p = true /\ s'.2 = s2_rows (pr_proposed p) /\
     watermark_follows (watermark_of s.1 d) (watermark_of s'.1 d) (pr_capture p) /\
     (forall x, r = Ok x -> der_status x = DS_SUCCEEDED /\ watermark_covers (watermark_of s'.1 d) (pr_capture p)))) as Hend.
  { intros r2 s2 Hc Hv2 Hx. apply (commit_spec args p s1 r2 s2 Hw1) in Hc as (Ho & Hd & Hgate). fold d in Ho, Hd, Hgate.
    pose proof (fun d' => visible_parts d' _ _ (Hv2 d')) as Hp2. pose proof (fun d' => visible_parts d' _ _ (Hv1 d')) as Hp1.
    assert (watermark_of s'.1 d = watermark_of s2.1 d) as Hw2 by (by apply visible_dataset).
    split; [intros d' Hne; by rewrite (proj1 (Hp2 d')), Ho, (proj1 (Hp1 d'))|].
    split; [rewrite (proj2 (visible_dataset d _ _ (Hv2 d))); congruence|]. rewrite Hw2, (proj2 (Hp2 d)), <-Hw.
    destruct (gate_passed p); [right|left].
    - destruct Hgate as (Ht & Hf & Hst). split_and!; try done. intros x Hr. destruct (Hx x Hr) as (st & Hr2 & ->). by apply Hst.
    - destruct Hgate as [Hvc Hst]. split; [by rewrite Hv2, Hvc, Hv1|].
      intros x Hr. destruct (Hx x Hr) as (st & Hr2 & ->). by apply Hst. }
  apply eff_bind_inv in Hs as [(e & Hc & ->)|(status & s2 & Hc & Hf)].
  - destruct (Hend _ _ Hc) as (Ho & Hd & [?|?]); [done|done|split_and!; [done|done|by left]|].
    split_and!; [done|done|]. right. by exists p, s1.
  - apply finish_spec in Hf as [Hv2 Hst].
    destruct (Hend _ _ Hc Hv2) as (Ho & Hd & [?|?]); [intros x ->; exists status; auto|split_and!; [done|done|by left]|].
    split_and!; [done|done|]. right. by exists p, s1.
Qed.

(** The rows of a batch as they reach the target. *)
Definition incoming_rows args (config : DatasetConfig) (capture : WatermarkBatch) : res (list row) :=
  admitted ← (if dq_enabled (dc_quality config) then filterM_res (accepts (wa_rules args)) (wb_rows capture)
              else Ok (wb_rows capture));
  mapM_res (wa_mapper args) admitted.

Lemma planned_rows_Ok args config id before existing capture proposed :
  planned args config id before existing = Ok (capture, proposed) <->
  exists wm etc rows, require_watermark_scd2 config = Ok (wm, etc) /\
    plan_watermark_batch (wa_source_rows args) wm before = Ok capture /\ incoming_rows args config capture = Ok rows /\
    apply_scd2 existing rows (lp_business_key (dc_load config)) (lp_tracked_columns (dc_load config)) etc (uuid_text id)
      = Ok proposed.
Proof using Type.
  unfold planned, incoming_rows. split.
  - intros ([wm etc] & Hr & Hp)%bind_Ok. apply bind_Ok in Hp as (c & Hc & Hp). apply bind_Ok in Hp as (ad & Ha & Hp).
    apply bind_Ok in Hp as (rows & Hm & Hp). apply bind_Ok in Hp as (pr & Hpr & [= -> ->]).
    exists wm, etc, rows. rewrite Ha. cbn [mbind res_bind]. done.
  - intros (wm & etc & rows & -> & Hc & Hi & Ha). cbn [mbind res_bind fst snd]. rewrite Hc. cbn [mbind res_bind].
    apply bind_Ok in Hi as (ad & -> & Hm). cbn [mbind res_bind]. rewrite Hm. cbn [mbind res_bind]. by rewrite Ha.
Qed.

(** The incoming rows have pairwise different keys. *)
Definition distinct_keys (bk : list string) (rows : list row) : Prop :=
  forall pre x post key, rows ≡ₚ pre ++ x :: post -> _key x bk = Ok key ->
    Forall (fun y => forall k, _key y bk = Ok k -> keq k key = false) (pre ++ post).

(** Planning again over the published history proposes it again: from the same checkpoint, and
    from the checkpoint at the end of the batch when there is no overlap. *)
Lemma planned_again args config id id2 before before2 existing capture proposed capture2 proposed2 rows :
  planned args config id before existing = Ok (capture, proposed) ->
  planned args config id2 before2 (s2_rows proposed) = Ok (capture2, proposed2) ->
  incoming_rows args config capture = Ok rows ->
  plain_key (lp_business_key (dc_load config)) -> distinct_keys (lp_business_key (dc_load config)) rows ->
  (before2 = before \/
   before2 = wb_after capture /\ is_some before2 = true /\
   forall wm, lp_watermark (dc_load config) = Some wm -> wm_overlap_window_seconds wm = 0) ->
  s2_rows proposed2 = s2_rows proposed.
Proof using Type.
  intros (wm & etc & rows1 & Hr & Hc & Hi & Ha)%planned_rows_Ok (wm2 & etc2 & rows2 & Hr2 & Hc2 & Hi2 & Ha2)%planned_rows_Ok.
  rewrite Hr in Hr2. injection Hr2 as <- <-. rewrite Hi. intros [= ->] Hplain Hdis Hb.
  assert (rows2 = rows \/ rows2 = []) as Hrows.
  { destruct Hb as [->|(-> & Hs & Hov)]; [left; congruence|right].
    destruct (wb_after capture) as [after|] eqn:Ea; [|done].
    assert (wm_overlap_window_seconds wm = 0) as Hz.
    { apply Hov. unfold require_watermark_scd2 in Hr. destruct (negb _); [done|]. destruct (negb _); [done|].
      destruct (lp_watermark _); [|done]. destruct (falsy_string _); [done|]. by injection Hr as -> _. }
    rewrite (watermark_drained _ _ _ _ _ Hz Hc Ea) in Hc2. injection Hc2 as <-.
    unfold incoming_rows in Hi2. simpl in Hi2. destruct (dq_enabled _); by injection Hi2 as <-. }
  rewrite (scd2_reapply _ rows rows2 _ _ _ _ _ _ Ha Hplain) in Ha2.
  - by apply bind_Ok in Ha2 as (l & _ & [= <-]).
  - destruct Hrows as [->| ->]; [done|apply list_subseteq_nil].
  - intros pre x post key _. apply Hdis.
Qed.

(** C15. A run fails closed, for every lawful control plane: whatever happens to it, other datasets
    and all configurations are untouched; when it ends FAILED, or raises before the gate, neither
    the target nor the watermark has changed; otherwise the gate was open for this batch (the
    number and the fraction of captured rows that the rules reject are within the dataset's quality
    policy, and a required reconciliation was not forced to fail, found one current row per key and
    its observations satisfy the policy), the target holds exactly the history planned from the
    batch, and the watermark is where it was or at the end of the batch, never before the old one;
    a SUCCEEDED run has committed the end of its batch. *)
Theorem run_fails_closed args s r s' :
  quiet_store args -> execute_watermark_scd2 config_hash args s = (r, s') ->
  let d := wa_dataset_id args in
  (forall d', d' <> d -> observed d' s'.1 = observed d' s.1) /\ dataset_of s'.1 d = dataset_of s.1 d /\
  (visible d s' = visible d s /\ (forall x, r = Ok x -> der_status x = DS_FAILED) \/
   exists config run_id capture proposed, dataset_of s.1 d = Some config /\
     planned args config run_id (ws_position (watermark_of s.1 d)) s.2 = Ok (capture, proposed) /\
     gate_open args config capture (s2_rows proposed) /\
     s'.2 = s2_rows proposed /\
     watermark_follows (watermark_of s.1 d) (watermark_of s'.1 d) capture /\
     (forall x, r = Ok x -> der_status x = DS_SUCCEEDED /\ watermark_covers (watermark_of s'.1 d) capture)).
Proof using Type.
  intros Hstore Hs. pose proof (execute_spec args s r s' Hstore Hs) as (Ho & Hd & [Hf|(p & s1 & Hp & Hg & Ht & Hw & Hx)]);
    (split_and!; [done|done|]); [by left|right].
  pose proof (gate_passed_open args s p s1 Hstore Hp Hg).
  apply prepare_spec in Hp as (_ & Hc & Hpw & Hplan & _); [|done]. rewrite Hpw in Hplan.
  exists (pr_config p), (pr_dataset_run_id p), (pr_capture p), (pr_proposed p). by split_and!.
Qed.

(** C16. Reruns converge: two runs over the same source rows change the target at most once, whatever
    happens to either, a crash between the publication of the target and the commit of the
    watermark included, provided that the watermark has no overlap window, that the rules and the
    mapper answer on every captured row, and that the mapped rows have pairwise different business
    keys, of columns that are not the framework's.  (With two versions of a key in the batch, or an overlap that
    rereads them, the second run raises: [reread_versions_arrive_late].) *)
Theorem rerun_changes_target_once args s r s1 r2 s2 config capture rows :
  quiet_store args ->
  execute_watermark_scd2 config_hash args s = (r, s1) -> execute_watermark_scd2 config_hash args s1 = (r2, s2) ->
  dataset_of s.1 (wa_dataset_id args) = Some config ->
  (forall wm, lp_watermark (dc_load config) = Some wm -> wm_overlap_window_seconds wm = 0 /\
     plan_watermark_batch (wa_source_rows args) wm (ws_position (watermark_of s.1 (wa_dataset_id args))) = Ok capture) ->
  incoming_rows args config capture = Ok rows ->
  plain_key (lp_business_key (dc_load config)) -> distinct_keys (lp_business_key (dc_load config)) rows ->
  s1.2 = s.2 \/ s2.2 = s1.2.
Proof using Type.
  intros Hstore Hs1 Hs2 Hconfig Hwm Hrows Hplain Hdis.
  apply execute_spec in Hs1 as (_ & Hd1 & [[Hf _]|(p & t & Hp & _ & Ht & Hw & _)]); [left; by apply (visible_parts (wa_dataset_id args))| |done].
  apply execute_spec in Hs2 as (_ & _ & [[Hf _]|(p2 & t2 & Hp2 & _ & Ht2 & _ & _)]); [right; by apply (visible_parts (wa_dataset_id args))| |done].
  right. rewrite Ht, Ht2. apply prepare_spec in Hp as (_ & Hc & Hpw & Hplan & _), Hp2 as (_ & Hc2 & Hpw2 & Hplan2 & _); [|done..].
  assert (pr_config p = config /\ pr_config p2 = config) as [Hp Hp2] by (split; congruence). rewrite Hp in Hplan. rewrite Hp2, Ht in Hplan2.
  assert (pr_capture p = capture) as Hcap.
  { apply planned_rows_Ok in Hplan as (wm & etc & rows' & Hr & Hcap & _). rewrite Hpw in Hcap.
    destruct (Hwm wm) as [_ Hcap']; [|congruence].
    unfold require_watermark_scd2 in Hr. destruct (negb _); [done|]. destruct (negb _); [done|].
    destruct (lp_watermark _); [|done]. destruct (falsy_string _); [done|]. by injection Hr as -> _. }
  eapply planned_again; [exact Hplan|exact Hplan2|by rewrite Hcap|done|done|].
  rewrite Hpw, Hpw2. destruct Hw as [->|(after & Ha & -> & _)]; [by left|right].
  split_and!; [by rewrite Ha|done|]. intros wm Hl. by apply Hwm.
Qed.
End fail_closed.

(** ** Witnesses *)

Module Demo.
Definition counts : CountText := {| count_text := pretty.pretty; fixed6 := fun _ => "q" |}.
Definition clock (n : nat) : datetime := utc (Z.of_nat n).
Definition ids (n : nat) : N := N.of_nat n.
#[local] Existing Instances demo_runtime demo_scalars counts.
#[local] Instance demo_world : RunWorld Process := process_world clock ids.
#[local] Instance demo_lawful : @LawfulWorld Process demo_world := process_lawful clock ids.

Definition load (overlap : Z) : LoadPolicy :=
  {| lp_capture_strategy := CS_WATERMARK; lp_apply_strategy := AS_SCD2;
     lp_business_key := ["id"]; lp_merge_key := ["id"]; lp_append_identity := [];
     lp_watermark := Some {| wm_column := "at"; wm_tie_breaker := ["id"]; wm_overlap_window_seconds := overlap |};
     lp_event_time_column := Some "at"; lp_version_column := None; lp_sequence_column := None;
     lp_tracked_columns := ["v"]; lp_delete_policy := "IGNORE" |}.

Definition config (overlap : Z) : DatasetConfig := with_load Config.demo_config (load overlap).
Definition hash (c : DatasetConfig) : string := String.concat "" (repeat "a" 64).

Definition source_row (id v at_ : Z) : row :=
  {[ "id" := VInt id; "v" := VInt v; "at" := VDatetime (Some 0) (1000000 * at_) ]}.

(** A rule that refuses negative values. *)
Definition rule : RowRule :=
  {| rule_code := "NEGATIVE"; rule_message := "v is negative";
     rule_predicate r := match get r "v" with VInt z => Ok (0 <=? z) | _ => Ok false end |}.

Definition store (q r : N) (i : string) (rows : list QuarantinedRecord) : eff Process string := mret "quarantine/1".

Definition args (rows : list row) : WatermarkRunArgs Process :=
  {| wa_dataset_id := "orders"; wa_source_rows := rows; wa_rules := [rule]; wa_mapper := Ok;
     wa_pipeline_run_id := None; wa_dataset_run_id := None; wa_run_mode := RM_NORMAL;
     wa_effective_config_hash := None; wa_quarantine_store := Some store;
     wa_reconciliation_observations := []; wa_force_reconciliation_failure := false |}.

(** A fresh control plane with the dataset deployed, and an empty target. *)
Definition start (overlap : Z) : Process * list row :=
  ({| pc_plane := (InMemory.deploy_dataset (config overlap) empty_plane).2; pc_readings := 0 |}, []).

Definition run (rows : list row) (s : Process * list row) : res DatasetExecutionResult * (Process * list row) :=
  execute_watermark_scd2 hash (args rows) s.

Definition status_of_run (r : res DatasetExecutionResult) : res DatasetStatus := der_status <$> r.

(** One of three rows is quarantined, two are published. *)
Definition rows : list row := [source_row 1 10 100; source_row 2 20 110; source_row 3 (-1) 105].

Example run_succeeds :
  status_of_run (run rows (start 0)).1 = Ok DS_SUCCEEDED /\ length (run rows (start 0)).2.2 = 2%nat /\
  length (im_quarantine_batches (pc_plane (run rows (start 0)).2.1)) = 1%nat /\
  ws_version (current_watermark (pc_plane (run rows (start 0)).2.1) "orders") = 1.
Proof. vm_compute. repeat split. Qed.

(** Two versions of one order in a batch. *)
Definition versions : list row := [source_row 1 10 100; source_row 1 11 200].

(** A batch with two versions of a key cannot be read again: the documented overlap window,
    which rereads the unchanged source, and the rerun after a crash between publication and
    commit both end in a [LateArrivingRecordError], on every later run. *)
Theorem reread_versions_arrive_late :
  status_of_run (run versions (start 600)).1 = Ok DS_SUCCEEDED /\
  (run versions (run versions (start 600)).2).1 = raise "LateArrivingRecordError" "late-arriving row" /\
  (run versions ((start 0).1, (run versions (start 0)).2.2)).1 = raise "LateArrivingRecordError" "late-arriving row".
Proof. vm_compute. repeat split. Qed.

Lemma store_quiet rs : quiet_store (args rs).
Proof. intros write [= <-] d q r i rows' s. done. Qed.

#[local] Opaque execute_watermark_scd2.

(** A forced failure of the required reconciliation. *)
Definition forced (rows : list row) : WatermarkRunArgs Process :=
  {| wa_dataset_id := "orders"; wa_source_rows := rows; wa_rules := [rule]; wa_mapper := Ok;
     wa_pipeline_run_id := None; wa_dataset_run_id := None; wa_run_mode := RM_NORMAL;
     wa_effective_config_hash := None; wa_quarantine_store := Some store;
     wa_reconciliation_observations := []; wa_force_reconciliation_failure := true |}.

Lemma rows_published : (run rows (start 0)).2.2 <> [].
Proof. intros Hr. destruct run_succeeds as (_ & Hl & _). rewrite Hr in Hl. discriminate Hl. Qed.

Lemma start_config : dataset_of (start 0).1 "orders" = Some (config 0).
Proof. vm_compute. reflexivity. Qed.

(** The run that publishes two of three rows did so behind the open gate, and no run that is
    forced to fail its reconciliation publishes anything. *)
Lemma run_fails_closed_witness :
  (exists capture proposed, gate_open (args rows) (config 0) capture (s2_rows proposed) /\
     (run rows (start 0)).2.2 = s2_rows proposed) /\
  (execute_watermark_scd2 hash (forced rows) (start 0)).2.2 = [].
Proof.
  assert ((start 0).2 = []) as Hempty by reflexivity.
  pose proof rows_published as Hne. pose proof start_config as Hconfig. revert Hne Hconfig Hempty.
  generalize (start 0). intros s Hne Hconfig Hempty. split.
  - destruct (run rows s) as [r s'] eqn:E. unfold run in E.
    destruct (run_fails_closed hash (args rows) s r s' (store_quiet _) E)
      as (_ & _ & [[Hv _]|(c & i & capture & proposed & Hc & _ & Hg & Ht & _)]).
    + exfalso. apply Hne. apply (f_equal snd) in Hv. simpl in Hv. cbn [snd]. by rewrite Hv.
    + exists capture, proposed. change (wa_dataset_id (args rows)) with "orders" in Hc. rewrite Hconfig in Hc.
      injection Hc as <-. by split.
  - destruct (execute_watermark_scd2 hash (forced rows) s) as [r s'] eqn:E.
    assert (quiet_store (forced rows)) as Hquiet by (intros write [= <-] d q rr i rows' t; done).
    destruct (run_fails_closed hash (forced rows) s r s' Hquiet E)
      as (_ & _ & [[Hv _]|(c & i & capture & proposed & Hc & _ & [_ Hg] & _)]).
    + apply (f_equal snd) in Hv. simpl in Hv. cbn [snd]. by rewrite Hv.
    + change (wa_dataset_id (forced rows)) with "orders" in Hc. rewrite Hconfig in Hc.
      injection Hc as <-. destruct (Hg eq_refl) as [[=] _].
Defined.

Definition captured : WatermarkBatch :=
  match plan_watermark_batch rows {| wm_column := "at"; wm_tie_breaker := ["id"]; wm_overlap_window_seconds := 0 |} None with
  | Ok b => b
  | Raise _ => {| wb_rows := []; wb_before := None; wb_after := None |}
  end.

(** The rerun of a published batch whose commit was lost. *)
Lemma rerun_changes_target_once_witness :
  exists s1 s2, (run rows (start 0)).2 = s1 /\ (run rows s1).2 = s2 /\ (s1.2 = (start 0).2 \/ s2.2 = s1.2).
Proof.
  assert (dataset_of (start 0).1 "orders" = Some (config 0)) as Hd by (vm_compute; reflexivity).
  assert (ws_position (watermark_of (start 0).1 "orders") = None) as Hw by (vm_compute; reflexivity).
  generalize dependent (start 0). intros s Hd Hw.
  destruct (run rows s) as [r s1] eqn:E1. destruct (run rows s1) as [r2 s2] eqn:E2.
  exists s1, s2. split; [done|]. rewrite E2. split; [done|]. unfold run in E1, E2.
  refine (rerun_changes_target_once hash (args rows) s r s1 r2 s2 (config 0) captured
    [source_row 1 10 100; source_row 2 20 110] (store_quiet _) E1 E2 Hd _ _ _ _).
  - intros wm [= <-]. split; [reflexivity|]. change (wa_dataset_id (args rows)) with "orders". rewrite Hw.
    vm_compute. reflexivity.
  - vm_compute. reflexivity.
  - apply (bool_decide_unpack _). vm_compute. exact I.
  - intros pre x post key Hp Hk. apply Forall_forall. intros y Hy k Hky.
    apply scd2_key_Ok in Hk as [-> _], Hky as [-> _].
    assert (NoDup (map (fun r => get r "id") [source_row 1 10 100; source_row 2 20 110])) as Hnd
      by (apply (bool_decide_unpack _); vm_compute; exact I).
    assert (Forall (fun r => get r "id" = VInt 1 \/ get r "id" = VInt 2) [source_row 1 10 100; source_row 2 20 110]) as Hids
      by (apply (bool_decide_unpack _); vm_compute; exact I).
    rewrite Hp, <-Permutation_middle in Hnd, Hids. simpl in Hnd.
    apply NoDup_cons in Hnd as [Hnd _]. apply Forall_cons in Hids as [Hx Hids].
    rewrite Forall_forall in Hids. specialize (Hids y Hy). simpl.
    assert (get y "id" <> get x "id") as Hne
      by (intros Heq; apply Hnd; rewrite <-Heq; apply list_elem_of_fmap; by exists y).
    destruct Hx as [Hx|Hx], Hids as [Hi|Hi]; rewrite Hx, Hi in *; try done; vm_compute; reflexivity.
Defined.
End Demo.
