(* ===== verification/BatchRuns.v ===== *)
(** * APPEND, FULL to REPLACE and SNAPSHOT to SNAPSHOT_DIFF runs
    ([execution/append.py], [execution/full_replace.py], [execution/snapshot_diff.py])

    The three executors share their phases: bronze, rules, quarantine, mapping, staging, a guarded
    plan, reconciliation, publication.  [exc_text] is [str(exc)] of a refused guard. *)

From stdpp Require Import base gmap strings list.
From S2P Require Import Prelude Effects PyValue PyFloat TypedValues ConfigTypes Config RuntimeState RunAudit DispatchContracts Reconciliation RunContracts Quality Repository RunState FullCapture Append Replace SnapshotDiff.
#[local] Open Scope Z_scope.

(** The result of a run; [P] is the plan it carries ([Empty_set] when it carries none). *)
Record BatchExecutionResult (P : Type) := {
  bx_dataset_run_id : N;
  bx_pipeline_run_id : N;
  bx_status : DatasetStatus;
  bx_bronze : list BronzeRecord;
  bx_quarantined : list QuarantinedRecord;
  bx_staged : option StagedBatch;
  bx_plan : option P;
  bx_reconciliation : option ReconciliationResult;
  bx_target_rows : list row;
  bx_error_code : option string;
  bx_error_message : option string
}.
Arguments Build_BatchExecutionResult {P}. Arguments bx_status {P}. Arguments bx_error_code {P}. Arguments bx_target_rows {P}.

Definition AppendExecutionResult : Type := BatchExecutionResult AppendApplyResult.
Definition FullReplaceExecutionResult : Type := BatchExecutionResult Empty_set.
Definition SnapshotDiffExecutionResult : Type := BatchExecutionResult SnapshotDiffPlan.

(** The arguments the executors share. *)
Record BatchArgs := {
  ba_dataset_id : string;
  ba_source_rows : list row;
  ba_rules : list RowRule;
  ba_mapper : row -> res row;
  ba_pipeline_run_id : option N;
  ba_dataset_run_id : option N;
  ba_run_mode : RunMode;
  ba_effective_config_hash : option string;
  ba_reconciliation_observations : list ReconciliationObservation;
  ba_force_reconciliation_failure : bool
}.

(** [try: ... except classes as exc]: the value, or the exception caught. *)
Definition caught {A} (classes : list string) (r : res A) : res (A + exn) :=
  match r with
  | Ok a => Ok (inl a)
  | Raise e => if existsb (String.eqb (exn_type e)) classes then Ok (inr e) else Raise e
  end.

Section batch.
Context {W : Type} `{RunWorld W} `{PyRuntime} `{ScalarText} (config_hash : DatasetConfig -> string) (exc_text : exn -> string).
Abbreviation run := (eff (W * list row)).
Implicit Types (args : BatchArgs).

(** What the phases of a run have in common: the ids, the hash and the configuration. *)
Record batch_ids := {
  bi_config : DatasetConfig;
  bi_pipeline_run_id : N;
  bi_dataset_run_id : N;
  bi_hash : string
}.

Definition open_batch args (require : DatasetConfig -> res unit) : run batch_ids :=
  config ← world (get_dataset (ba_dataset_id args));
  _ ← lift (require config);
  pipeline_run_id ← or_uuid4 (ba_pipeline_run_id args);
  dataset_run_id ← or_uuid4 (ba_dataset_run_id args);
  mret {| bi_config := config; bi_pipeline_run_id := pipeline_run_id; bi_dataset_run_id := dataset_run_id;
          bi_hash := or_string (ba_effective_config_hash args) (config_hash config) |}.

(** [_record_failure] *)
Definition _record_failure args (b : batch_ids) (error_code error_message : string)
    (accounting : option RowAccounting) : run unit :=
  close_run (bi_dataset_run_id b) (bi_pipeline_run_id b) (ba_dataset_id args) (ba_run_mode args) DS_FAILED
    (bi_hash b) accounting zero_mutations (Some error_code) (Some error_message) (Some false).

Definition record_success args (b : batch_ids) (accounting : RowAccounting) (mutations : MutationCounts) : run unit :=
  close_run (bi_dataset_run_id b) (bi_pipeline_run_id b) (ba_dataset_id args) (ba_run_mode args) DS_SUCCEEDED
    (bi_hash b) (Some accounting) mutations None None None.

Definition step (b : batch_ids) (name : string) (status : StepStatus) : run unit :=
  record_step (bi_dataset_run_id b) name status None.

(** A step only the APPEND and REPLACE executors record. *)
Definition detailed_step (detailed : bool) (b : batch_ids) (name : string) : run unit :=
  if detailed then step b name SS_SUCCEEDED else mret tt.

(** The result of a run that ends FAILED. *)
Definition failed {P} (b : batch_ids) (bronze : list BronzeRecord) (quarantined : list QuarantinedRecord)
    (staged : option StagedBatch) (plan : option P) (reconciliation : option ReconciliationResult)
    (error_code error_message : string) : run (BatchExecutionResult P) :=
  target_rows ← read_target;
  mret {| bx_dataset_run_id := bi_dataset_run_id b; bx_pipeline_run_id := bi_pipeline_run_id b;
          bx_status := DS_FAILED; bx_bronze := bronze; bx_quarantined := quarantined; bx_staged := staged;
          bx_plan := plan; bx_reconciliation := reconciliation; bx_target_rows := target_rows;
          bx_error_code := Some error_code; bx_error_message := Some error_message |}.

(** From the source rows to the staged batch and its accounting. *)
Record staged_batch := {
  sb_bronze : list BronzeRecord;
  sb_validation : ValidationOutcome;
  sb_staged : StagedBatch;
  sb_accounting : RowAccounting
}.

Definition stage_batch (detailed : bool) args (b : batch_ids) (rows : list row) (source_reference : option string) :
    run staged_batch :=
  let config := bi_config b in
  bronze ← normalize_bronze (world utc_now) rows (bi_pipeline_run_id b) (bi_dataset_run_id b)
             (src_system (dc_source config)) (src_object (dc_source config)) (lp_event_time_column (dc_load config)) [];
  _ ← detailed_step detailed b "BRONZE_NORMALIZE";
  validation ← lift (validate_records bronze (ba_rules args));
  _ ← step b "VALIDATE" SS_SUCCEEDED;
  _ ← for_each (quarantine_record (bi_dataset_run_id b) (ba_dataset_id args) source_reference) (vo_quarantined validation);
  _ ← detailed_step detailed b "QUARANTINE";
  mapped ← lift (mapM_res (fun record => ba_mapper args (br_data record)) (vo_accepted validation));
  _ ← detailed_step detailed b "TRANSFORM";
  fresh_id ← world uuid4;
  let staged := stage_rows mapped (bi_dataset_run_id b) None fresh_id in
  _ ← detailed_step detailed b "STAGE";
  accounting ← lift (account bronze validation);
  mret {| sb_bronze := bronze; sb_validation := validation; sb_staged := staged; sb_accounting := accounting |}.

(** The steps of a refused guard: the failed step, the failed audit, the result. *)
Definition refuse {P} args (b : batch_ids) (s : staged_batch) (guard_step error_code : string) (e : exn) :
    run (BatchExecutionResult P) :=
  _ ← step b guard_step SS_FAILED;
  _ ← _record_failure args b error_code (exc_text e) (Some (sb_accounting s));
  failed b (sb_bronze s) (vo_quarantined (sb_validation s)) (Some (sb_staged s)) None None error_code (exc_text e).

(** Reconciliation and publication of the planned rows; [skipped_publish] records the skipped
    publication of a blocked run. *)
Definition publish_batch {P} args (b : batch_ids) (s : staged_batch) (plan : option P) (rows : list row)
    (mutations : MutationCounts) (check : N -> datetime -> res ReconciliationResult)
    (blocked_message : string) (skipped_publish : bool) : run (BatchExecutionResult P) :=
  reconciliation ← reconcile check;
  let blocked := reconciliation_blocks reconciliation in
  _ ← step b "RECONCILE" (if blocked then SS_FAILED else SS_SUCCEEDED);
  if blocked then
    _ ← _record_failure args b "RECONCILIATION_FAILED" blocked_message (Some (sb_accounting s));
    _ ← (if skipped_publish then step b "PUBLISH" SS_SKIPPED else mret tt);
    failed b (sb_bronze s) (vo_quarantined (sb_validation s)) (Some (sb_staged s)) plan (Some reconciliation)
      "RECONCILIATION_FAILED" blocked_message
  else
    _ ← replace_target rows;
    _ ← step b "PUBLISH" SS_SUCCEEDED;
    _ ← record_success args b (sb_accounting s) mutations;
    target_rows ← read_target;
    mret {| bx_dataset_run_id := bi_dataset_run_id b; bx_pipeline_run_id := bi_pipeline_run_id b;
            bx_status := DS_SUCCEEDED; bx_bronze := sb_bronze s;
            bx_quarantined := vo_quarantined (sb_validation s); bx_staged := Some (sb_staged s);
            bx_plan := plan; bx_reconciliation := Some reconciliation; bx_target_rows := target_rows;
            bx_error_code := None; bx_error_message := None |}.

(** ** APPEND *)

Definition require_append (config : DatasetConfig) : res unit :=
  raise_if (negb (bool_decide (lp_apply_strategy (dc_load config) = AS_APPEND)))
    "ValueError" "APPEND executor requires APPEND apply strategy".

Definition append_errors : list string := ["AppendApplyError"; "AppendIdentityError"; "AppendConflictError"].

Definition execute_append_batch args (source_reference : option string) : run AppendExecutionResult :=
  b ← open_batch args require_append;
  s ← stage_batch true args b (ba_source_rows args) source_reference;
  existing ← read_target;
  applied ← lift (caught append_errors
              (apply_append existing (staged_rows (sb_staged s)) (lp_append_identity (dc_load (bi_config b)))));
  match applied with
  | inr e => refuse args b s "APPEND_GUARD" "APPEND_IDENTITY_CONFLICT" e
  | inl plan =>
    _ ← step b "APPEND_GUARD" SS_SUCCEEDED;
    publish_batch args b s (Some plan) (aar_rows plan)
      {| mc_inserted := aar_inserted plan; mc_updated := 0; mc_deleted := 0 |}
      (reconcile_append (bi_dataset_run_id b) (ba_dataset_id args) (dc_reconciliation (bi_config b)) (sb_accounting s)
         (aar_inserted plan) (aar_replayed plan) (aar_duplicate_incoming plan)
         (ba_reconciliation_observations args) (ba_force_reconciliation_failure args))
      "required APPEND reconciliation gate failed" true
  end.

(** ** FULL to REPLACE *)

Definition require_full_replace (config : DatasetConfig) : res unit :=
  if negb (bool_decide (lp_capture_strategy (dc_load config) = CS_FULL)) then
    raise "ValueError" "FULL -> REPLACE executor requires FULL capture"
  else raise_if (negb (bool_decide (lp_apply_strategy (dc_load config) = AS_REPLACE)))
         "ValueError" "FULL -> REPLACE executor requires REPLACE apply".

(** A snapshot whose evidence is refused. *)
Definition refuse_capture {P} args (b : batch_ids) (capture_step error_code : string) (e : exn) :
    run (BatchExecutionResult P) :=
  _ ← step b capture_step SS_FAILED;
  _ ← _record_failure args b error_code (exc_text e) None;
  failed b [] [] None None None error_code (exc_text e).

Definition execute_full_replace args (snapshot_evidence : FullSnapshotEvidence)
    (guard_policy : option ReplaceGuardPolicy) : run FullReplaceExecutionResult :=
  b ← open_batch args require_full_replace;
  let guard_policy := default default_ReplaceGuardPolicy guard_policy in
  captured ← lift (caught ["FullSnapshotEvidenceError"] (capture_full_snapshot (ba_source_rows args) snapshot_evidence));
  match captured with
  | inr e => refuse_capture args b "CAPTURE_FULL" "FULL_SNAPSHOT_EVIDENCE_INVALID" e
  | inl capture =>
    _ ← step b "CAPTURE_FULL" SS_SUCCEEDED;
    s ← stage_batch true args b (fcb_rows capture) (Some (snapshot_id snapshot_evidence));
    existing ← read_target;
    planned ← lift (caught ["ReplaceGuardError"] (plan_replace existing (sb_staged s) snapshot_evidence guard_policy));
    match planned with
    | inr e => refuse args b s "PUBLICATION_GUARD" "FULL_REPLACE_GUARD_FAILED" e
    | inl plan =>
      _ ← step b "PUBLICATION_GUARD" SS_SUCCEEDED;
      publish_batch args b s None (rp_rows plan) (rp_mutations plan)
        (reconcile_full_replace (bi_dataset_run_id b) (ba_dataset_id args) (dc_reconciliation (bi_config b))
           (sb_accounting s) (rp_candidate_count plan) snapshot_evidence
           (ba_reconciliation_observations args) (ba_force_reconciliation_failure args))
        "required FULL -> REPLACE reconciliation gate failed" true
    end
  end.

(** ** SNAPSHOT to SNAPSHOT_DIFF *)

Definition require_snapshot_diff (config : DatasetConfig) : res unit :=
  if negb (bool_decide (lp_capture_strategy (dc_load config) = CS_SNAPSHOT)) then
    raise "ValueError" "SNAPSHOT_DIFF executor requires SNAPSHOT capture"
  else raise_if (negb (bool_decide (lp_apply_strategy (dc_load config) = AS_SNAPSHOT_DIFF)))
         "ValueError" "SNAPSHOT_DIFF executor requires SNAPSHOT_DIFF apply".

Definition execute_snapshot_diff args (snapshot_evidence : FullSnapshotEvidence)
    (diff_policy : option SnapshotDiffPolicy) : run SnapshotDiffExecutionResult :=
  b ← open_batch args require_snapshot_diff;
  let diff_policy := default default_SnapshotDiffPolicy diff_policy in
  captured ← lift (caught ["FullSnapshotEvidenceError"] (capture_snapshot (ba_source_rows args) snapshot_evidence));
  match captured with
  | inr e => refuse_capture args b "CAPTURE_SNAPSHOT" "SNAPSHOT_EVIDENCE_INVALID" e
  | inl capture =>
    _ ← step b "CAPTURE_SNAPSHOT" SS_SUCCEEDED;
    s ← stage_batch false args b (fcb_rows capture) (Some (snapshot_id snapshot_evidence));
    existing ← read_target;
    let load := dc_load (bi_config b) in
    planned ← lift (caught ["SnapshotDiffError"]
                (plan_snapshot_diff existing (staged_rows (sb_staged s)) snapshot_evidence (lp_merge_key load)
                   (lp_tracked_columns load) (Z.of_nat (length (vo_quarantined (sb_validation s)))) (Some diff_policy)));
    match planned with
    | inr e => refuse args b s "SNAPSHOT_DIFF_GUARD" "SNAPSHOT_DIFF_GUARD_FAILED" e
    | inl diff =>
      _ ← step b "SNAPSHOT_DIFF_GUARD" SS_SUCCEEDED;
      publish_batch args b s (Some diff) (sdp_rows diff) (sdp_mutations diff)
        (reconcile_snapshot_diff (bi_dataset_run_id b) (ba_dataset_id args) (dc_reconciliation (bi_config b))
           (sb_accounting s) (Z.of_nat (length (staged_rows (sb_staged s)))) (Z.of_nat (length (sdp_rows diff)))
           (ba_reconciliation_observations args) (ba_force_reconciliation_failure args))
        "required SNAPSHOT_DIFF reconciliation gate failed" false
    end
  end.
End batch.

(** ** What a run computes *)

Section plans.
Context `{PyRuntime}.
Implicit Types (args : BatchArgs) (config : DatasetConfig).

(** The rows the rules admit, and as the mapper gives them. *)
Definition batch_rows args (rows : list row) : res (list row * list row) :=
  admitted ← filterM_res (accepts (ba_rules args)) rows;
  mapped ← mapM_res (ba_mapper args) admitted;
  Ok (admitted, mapped).

Definition staged_as (rows : list row) : StagedBatch := stage_rows rows 0 None 0.

(** The rows an APPEND, a REPLACE and a SNAPSHOT_DIFF run publish over a target. *)
Definition append_planned args config (target : list row) : res (list row) :=
  rows ← batch_rows args (ba_source_rows args);
  plan ← apply_append target rows.2 (lp_append_identity (dc_load config));
  Ok (aar_rows plan).

Definition replace_planned args evidence policy (target : list row) : res (list row) :=
  capture ← capture_full_snapshot (ba_source_rows args) evidence;
  rows ← batch_rows args (fcb_rows capture);
  plan ← plan_replace target (staged_as rows.2) evidence (default default_ReplaceGuardPolicy policy);
  Ok (rp_rows plan).

Definition diff_planned args config evidence policy (target : list row) : res (list row) :=
  capture ← capture_full_snapshot (ba_source_rows args) evidence;
  rows ← batch_rows args (fcb_rows capture);
  plan ← plan_snapshot_diff target rows.2 evidence (lp_merge_key (dc_load config)) (lp_tracked_columns (dc_load config))
           (Z.of_nat (length (fcb_rows capture)) - Z.of_nat (length rows.1))
           (Some (default default_SnapshotDiffPolicy policy));
  Ok (sdp_rows plan).
End plans.

Lemma caught_Ok {A} classes (r : res A) x :
  caught classes r = Ok x -> match x with inl a => r = Ok a | inr e => r = Raise e end.
Proof. unfold caught. destruct r as [a|e]; [by intros [= <-]|]. destruct (existsb _ _); [|done]. by intros [= <-]. Qed.

Section fail_closed.
Context {W : Type} `{LawfulWorld W} `{PyRuntime} `{ScalarText} (config_hash : DatasetConfig -> string) (exc_text : exn -> string).
Implicit Types (args : BatchArgs) (s : W * list row).

(** Nothing visible changed: the target, the watermarks and the configurations. *)
Definition unchanged s s' : Prop := forall d, visible d s' = visible d s.

Lemma unchanged_trans s1 s2 s3 : unchanged s1 s2 -> unchanged s2 s3 -> unchanged s1 s3.
Proof using Type. intros H12 H23 d. by rewrite H23. Qed.

Lemma unchanged_step {A} (m : eff (W * list row) A) s r s' :
  (forall d, keeps (visible d) m) -> m s = (r, s') -> unchanged s s'.
Proof using Type. intros Hm Hs d. specialize (Hm d s). by rewrite Hs in Hm. Qed.

Lemma unchanged_target s s' : unchanged s s' -> s'.2 = s.2.
Proof using Type. intros Hs. exact (f_equal snd (Hs "")). Qed.

(** The ways a run ends: FAILED, or raising, with nothing changed; or with rows published, the
    watermarks as they were. *)
Definition unpublished {P} (r : res (BatchExecutionResult P)) s s' : Prop :=
  unchanged s s' /\ forall x, r = Ok x -> bx_status x = DS_FAILED /\ is_some (bx_error_code x) = true.

Definition published {P} (rows : list row) (r : res (BatchExecutionResult P)) s s' : Prop :=
  s'.2 = rows /\ (forall d, observed d s'.1 = observed d s.1) /\
  forall x, r = Ok x -> bx_status x = DS_SUCCEEDED /\ bx_target_rows x = rows /\
    exists rec, bx_reconciliation _ x = Some rec /\ reconciliation_blocks rec = false.

(** A run that stays unpublished or publishes. *)
Definition guarded {P} (rows : list row) (r : res (BatchExecutionResult P)) s s' : Prop :=
  unpublished r s s' \/ published rows r s s'.

Lemma unpublished_raise {P} e s s' : unchanged s s' -> unpublished (P := P) (Raise e) s s'.
Proof using Type. intros Hs. by split. Qed.

Lemma unpublished_after {P} (r : res (BatchExecutionResult P)) s s1 s' :
  unchanged s s1 -> unpublished r s1 s' -> unpublished r s s'.
Proof using Type. intros Hs [Hs' Hx]. split; [by eapply unchanged_trans|done]. Qed.

Lemma guarded_after {P} rows (r : res (BatchExecutionResult P)) s s1 s' :
  unchanged s s1 -> guarded rows r s1 s' -> guarded rows r s s'.
Proof using Type.
  intros Hs [Hu|(Ht & Hw & Hx)]; [left; by eapply unpublished_after|right].
  split_and!; [done| |done]. intros d. rewrite Hw. exact (f_equal fst (Hs d)).
Qed.

Lemma failed_unpublished {P} b bronze q staged (plan : option P) rec code message s r s' :
  failed b bronze q staged plan rec code message s = (r, s') -> unpublished r s s'.
Proof using Type. intros [= <- <-]. split; [done|]. by intros x [= <-]. Qed.

(** A step that changes nothing, before the rest of a run. *)
Lemma unpublished_bind {A P} (m : eff (W * list row) A) (f : A -> eff (W * list row) (BatchExecutionResult P)) s r s' :
  (forall d, keeps (visible d) m) -> (m ≫= f) s = (r, s') ->
  (forall a s1, f a s1 = (r, s') -> unpublished r s1 s') -> unpublished r s s'.
Proof using Type.
  intros Hm Hs Hf. apply eff_bind_inv in Hs as [(e & Hs & ->)|(a & s1 & Hs & Hr)]; apply unchanged_step in Hs; auto.
  - by apply unpublished_raise.
  - eapply unpublished_after; [done|]. by eapply Hf.
Qed.

Lemma guarded_bind {A P} rows (m : eff (W * list row) A) (f : A -> eff (W * list row) (BatchExecutionResult P)) s r s' :
  (forall d, keeps (visible d) m) -> (m ≫= f) s = (r, s') ->
  (forall a s1, m s = (Ok a, s1) -> unchanged s s1 -> f a s1 = (r, s') -> guarded rows r s1 s') -> guarded rows r s s'.
Proof using Type.
  intros Hm Hs Hf. apply eff_bind_inv in Hs as [(e & Hs & ->)|(a & s1 & Hs & Hr)];
    pose proof Hs as Hu; apply unchanged_step in Hu; auto.
  - left. by apply unpublished_raise.
  - eapply guarded_after; [done|]. by eapply Hf.
Qed.

Lemma refuse_unpublished {P} args b st name code e s r s' :
  refuse (P := P) exc_text args b st name code e s = (r, s') -> unpublished r s s'.
Proof using Type.
  unfold refuse, step, _record_failure. intros Hs. eapply unpublished_bind; [|exact Hs|]; [auto with keeps|].
  intros u s1 Hs1. eapply unpublished_bind; [|exact Hs1|]; [auto with keeps|]. intros u2 s2. apply failed_unpublished.
Qed.

Lemma refuse_capture_unpublished {P} args b name code e s r s' :
  refuse_capture (P := P) exc_text args b name code e s = (r, s') -> unpublished r s s'.
Proof using Type.
  unfold refuse_capture, step, _record_failure. intros Hs. eapply unpublished_bind; [|exact Hs|]; [auto with keeps|].
  intros u s1 Hs1. eapply unpublished_bind; [|exact Hs1|]; [auto with keeps|]. intros u2 s2. apply failed_unpublished.
Qed.

(** Reconciliation either stops the run or lets it publish. *)
Lemma publish_guarded {P} args b st (plan : option P) rows muts check message skipped s r s' :
  publish_batch args b st plan rows muts check message skipped s = (r, s') -> guarded rows r s s'.
Proof using Type.
  unfold publish_batch, step, _record_failure, record_success. intros Hs.
  eapply guarded_bind; [|exact Hs|]; [auto with keeps|]. clear Hs. intros rec s1 _ _ Hs.
  eapply guarded_bind; [|exact Hs|]; [auto with keeps|]. clear Hs. intros u s2 _ _ Hs.
  destruct (reconciliation_blocks rec) eqn:Eb.
  - left. eapply unpublished_bind; [|exact Hs|]; [auto with keeps|]. clear Hs. intros u2 s3 Hs.
    eapply unpublished_bind; [|exact Hs|]; [destruct skipped; auto with keeps|]. intros u3 s4. apply failed_unpublished.
  - right. apply eff_bind_inv in Hs as [(e & [=] & _)|([] & s3 & [= <-] & Hs)].
    assert (forall d, visible d s' = (observed d s2.1, rows)) as Hv.
    { intros d. change (observed d s2.1, rows) with (visible d (s2.1, rows)).
      match type of Hs with ?m _ = _ => assert (keeps (visible d) m) as Hm by auto 20 with keeps end.
      specialize (Hm (s2.1, rows)). by rewrite Hs in Hm. }
    split; [exact (f_equal snd (Hv ""))|]. split; [intros d; exact (f_equal fst (Hv d))|].
    intros x ->. apply eff_bind_Ok in Hs as (u2 & s4 & _ & Hs). apply eff_bind_Ok in Hs as (u3 & s5 & _ & Hs).
    apply eff_bind_Ok in Hs as (t & s6 & [= <- <-] & [= <- <-]). simpl.
    split_and!; [done|exact (f_equal snd (Hv ""))|by exists rec].
Qed.

(** Staging: what it stages is what the rules admit, mapped. *)
Lemma stage_batch_keeps detailed args b rows ref d : keeps (visible d) (stage_batch detailed args b rows ref).
Proof using Type. unfold stage_batch, detailed_step, step. destruct detailed; auto 30 with keeps. Qed.

Lemma stage_batch_Ok detailed args b rows ref s st s' :
  stage_batch detailed args b rows ref s = (Ok st, s') ->
  exists admitted, batch_rows args rows = Ok (admitted, staged_rows (sb_staged st)) /\
    (length rows = length admitted + length (vo_quarantined (sb_validation st)))%nat.
Proof using Type.
  unfold stage_batch. intros (bronze & s1 & Hb & Hs)%eff_bind_Ok. apply normalize_bronze_data in Hb.
  apply eff_bind_Ok in Hs as (u1 & s2 & _ & Hs). apply eff_bind_Ok in Hs as (v & s3 & [= Hv _] & Hs).
  apply eff_bind_Ok in Hs as (u2 & s4 & _ & Hs). apply eff_bind_Ok in Hs as (u3 & s5 & _ & Hs).
  apply eff_bind_Ok in Hs as (u4 & s6 & _ & Hs). apply eff_bind_Ok in Hs as (mapped & s7 & [= Hm _] & Hs).
  apply eff_bind_Ok in Hs as (u5 & s8 & _ & Hs). apply eff_bind_Ok in Hs as (id & s9 & _ & Hs).
  apply eff_bind_Ok in Hs as (u6 & s10 & _ & Hs). apply eff_bind_Ok in Hs as (acc & s11 & _ & [= <- _]).
  simpl. apply validate_records_Ok in Hv as (Hok & Hdata & Hlen). exists (map br_data (vo_accepted v)). split.
  - unfold batch_rows. rewrite (proj2 (filterM_res_Ok _ _ (map br_data (vo_accepted v)))).
    + cbn [mbind res_bind]. rewrite mapM_res_map in Hm. by rewrite Hm.
    + rewrite <-Hb. split; [by apply Forall_map|done].
  - by rewrite <-Hb, !length_map.
Qed.

Lemma open_batch_keeps args require d : keeps (visible d) (open_batch config_hash args require).
Proof using Type. unfold open_batch. auto 20 with keeps. Qed.

Lemma open_batch_Ok args require s b s' :
  open_batch config_hash args require s = (Ok b, s') -> dataset_of s.1 (ba_dataset_id args) = Some (bi_config b).
Proof using Type.
  intros (c & s1 & Hc & Hs)%eff_bind_Ok. apply eff_bind_Ok in Hs as (u & s2 & _ & Hs).
  apply eff_bind_Ok in Hs as (p & s3 & _ & Hs). apply eff_bind_Ok in Hs as (q & s4 & _ & [= <- _]).
  unfold world in Hc. destruct (get_dataset _ s.1) eqn:E. injection Hc as -> <-. by apply get_dataset_law in E.
Qed.

(** How each executor ends, for the configuration it read. *)
Definition ends_guarded {P} (planned : DatasetConfig -> list row -> res (list row)) (d : string)
    (r : res (BatchExecutionResult P)) s s' : Prop :=
  unpublished r s s' \/
  exists config rows, dataset_of s.1 d = Some config /\ planned config s.2 = Ok rows /\ published rows r s s'.

Lemma ends_guarded_start {A P} planned d (m : eff (W * list row) A) (f : A -> eff (W * list row) (BatchExecutionResult P)) s r s' :
  (forall d, keeps (visible d) m) -> (m ≫= f) s = (r, s') ->
  (forall a s1, m s = (Ok a, s1) -> unchanged s s1 -> f a s1 = (r, s') -> ends_guarded planned d r s1 s') ->
  ends_guarded planned d r s s'.
Proof using Type.
  intros Hm Hs Hf. apply eff_bind_inv in Hs as [(e & Hs & ->)|(a & s1 & Hs & Hr)];
    pose proof Hs as Hu; apply unchanged_step in Hu; auto.
  - left. by apply unpublished_raise.
  - destruct (Hf a s1 Hs Hu Hr) as [Hun|(config & rows & Hc & Hp & Hpub)].
    + left. by eapply unpublished_after.
    + right. exists config, rows. rewrite <-(unchanged_target _ _ Hu). split; [|split; [done|]].
      * rewrite <-Hc. symmetry. exact (f_equal snd (f_equal fst (Hu d))).
      * destruct Hpub as (Ht & Hw & Hx). split_and!; [done| |done]. intros d'. rewrite Hw. exact (f_equal fst (Hu d')).
Qed.

(** The end of a run whose plan is known. *)
Lemma ends_guarded_publish {P} planned d config rows (r : res (BatchExecutionResult P)) s s' :
  dataset_of s.1 d = Some config -> planned config s.2 = Ok rows -> guarded rows r s s' -> ends_guarded planned d r s s'.
Proof using Type. intros Hc Hp [Hu|Hp']; [by left|right]. by exists config, rows. Qed.

Lemma unchanged_config s s' d : unchanged s s' -> dataset_of s'.1 d = dataset_of s.1 d.
Proof using Type. intros Hu. exact (f_equal snd (f_equal fst (Hu d))). Qed.

Lemma append_ends args ref s r s' :
  execute_append_batch config_hash exc_text args ref s = (r, s') ->
  ends_guarded (append_planned args) (ba_dataset_id args) r s s'.
Proof using Type.
  unfold execute_append_batch, step. intros Hs.
  eapply ends_guarded_start; [|exact Hs|]; [intros; apply open_batch_keeps|]. clear Hs. intros b s1 Hb Hu1 Hs.
  apply open_batch_Ok in Hb. rewrite <-(unchanged_config _ _ _ Hu1) in Hb.
  eapply ends_guarded_start; [|exact Hs|]; [intros; apply stage_batch_keeps|]. clear Hs. intros st s2 Hst Hu2 Hs.
  apply stage_batch_Ok in Hst as (ad & Hrows & _). rewrite <-(unchanged_config _ _ _ Hu2) in Hb.
  apply eff_bind_inv in Hs as [(e & [=] & _)|(existing & s3 & [= <- <-] & Hs)].
  apply eff_bind_inv in Hs as [(e & [= _ <-] & ->)|(applied & s3 & [= Ha <-] & Hs)]; [by left; apply unpublished_raise|].
  apply caught_Ok in Ha. destruct applied as [plan|e]; [|left; by apply refuse_unpublished in Hs].
  eapply ends_guarded_publish; [exact Hb| |].
  - unfold append_planned. rewrite Hrows. cbn [mbind res_bind snd]. by rewrite Ha.
  - eapply guarded_bind; [|exact Hs|]; [auto with keeps|]. intros u s4 _ _ Hs4. by apply publish_guarded in Hs4.
Qed.

Lemma replace_ends args evidence policy s r s' :
  execute_full_replace config_hash exc_text args evidence policy s = (r, s') ->
  ends_guarded (fun _ => replace_planned args evidence policy) (ba_dataset_id args) r s s'.
Proof using Type.
  unfold execute_full_replace, step. intros Hs.
  eapply ends_guarded_start; [|exact Hs|]; [intros; apply open_batch_keeps|]. clear Hs. intros b s1 Hb Hu1 Hs.
  apply open_batch_Ok in Hb. rewrite <-(unchanged_config _ _ _ Hu1) in Hb.
  apply eff_bind_inv in Hs as [(e & [= _ <-] & ->)|(cap & s2 & [= Hcap <-] & Hs)]; [by left; apply unpublished_raise|].
  apply caught_Ok in Hcap. destruct cap as [cap|e]; [|left; by apply refuse_capture_unpublished in Hs].
  eapply ends_guarded_start; [|exact Hs|]; [auto with keeps|]. clear Hs. intros u s2 _ Hu2 Hs.
  rewrite <-(unchanged_config _ _ _ Hu2) in Hb.
  eapply ends_guarded_start; [|exact Hs|]; [intros; apply stage_batch_keeps|]. clear Hs. intros st s3 Hst Hu3 Hs.
  apply stage_batch_Ok in Hst as (ad & Hrows & _). rewrite <-(unchanged_config _ _ _ Hu3) in Hb.
  apply eff_bind_inv in Hs as [(e & [=] & _)|(existing & s4 & [= <- <-] & Hs)].
  apply eff_bind_inv in Hs as [(e & [= _ <-] & ->)|(applied & s4 & [= Ha <-] & Hs)]; [by left; apply unpublished_raise|].
  apply caught_Ok in Ha. destruct applied as [plan|e]; [|left; by apply refuse_unpublished in Hs].
  eapply ends_guarded_publish; [exact Hb| |].
  - unfold replace_planned. rewrite Hcap. cbn [mbind res_bind]. rewrite Hrows. cbn [mbind res_bind snd].
    change (plan_replace s3.2 (staged_as (staged_rows (sb_staged st)))) with (plan_replace s3.2 (sb_staged st)). by rewrite Ha.
  - eapply guarded_bind; [|exact Hs|]; [auto with keeps|]. intros u2 s4 _ _ Hs4. by apply publish_guarded in Hs4.
Qed.

Lemma diff_ends args evidence policy s r s' :
  execute_snapshot_diff config_hash exc_text args evidence policy s = (r, s') ->
  ends_guarded (fun config => diff_planned args config evidence policy) (ba_dataset_id args) r s s'.
Proof using Type.
  unfold execute_snapshot_diff, step, capture_snapshot. intros Hs.
  eapply ends_guarded_start; [|exact Hs|]; [intros; apply open_batch_keeps|]. clear Hs. intros b s1 Hb Hu1 Hs.
  apply open_batch_Ok in Hb. rewrite <-(unchanged_config _ _ _ Hu1) in Hb.
  apply eff_bind_inv in Hs as [(e & [= _ <-] & ->)|(cap & s2 & [= Hcap <-] & Hs)]; [by left; apply unpublished_raise|].
  apply caught_Ok in Hcap. destruct cap as [cap|e]; [|left; by apply refuse_capture_unpublished in Hs].
  eapply ends_guarded_start; [|exact Hs|]; [auto with keeps|]. clear Hs. intros u s2 _ Hu2 Hs.
  rewrite <-(unchanged_config _ _ _ Hu2) in Hb.
  eapply ends_guarded_start; [|exact Hs|]; [intros; apply stage_batch_keeps|]. clear Hs. intros st s3 Hst Hu3 Hs.
  apply stage_batch_Ok in Hst as (ad & Hrows & Hlen). rewrite <-(unchanged_config _ _ _ Hu3) in Hb.
  apply eff_bind_inv in Hs as [(e & [=] & _)|(existing & s4 & [= <- <-] & Hs)].
  apply eff_bind_inv in Hs as [(e & [= _ <-] & ->)|(applied & s4 & [= Ha <-] & Hs)]; [by left; apply unpublished_raise|].
  apply caught_Ok in Ha. destruct applied as [plan|e]; [|left; by apply refuse_unpublished in Hs].
  eapply ends_guarded_publish; [exact Hb| |].
  - unfold diff_planned. rewrite Hcap. cbn [mbind res_bind]. rewrite Hrows. cbn [mbind res_bind fst snd].
    replace (Z.of_nat (length (fcb_rows cap)) - Z.of_nat (length ad))
      with (Z.of_nat (length (vo_quarantined (sb_validation st)))) by lia. by rewrite Ha.
  - eapply guarded_bind; [|exact Hs|]; [auto with keeps|]. intros u2 s4 _ _ Hs4. by apply publish_guarded in Hs4.
Qed.

(** The quality policy of the dataset, which the executors do not read, lets the batch pass: its
    rules are enabled, and the rows they reject are within the budget of a quarantine that keeps
    references only. *)
Definition quality_admits args (config : DatasetConfig) : Prop :=
  let rejected := rejected_count config (ba_rules args) (ba_source_rows args) in
  dq_enabled (dc_quality config) = true /\
  within_budget (dc_quality config) rejected (length (ba_source_rows args)) /\
  (rejected <> 0%nat -> dq_quarantine_detail_mode (dc_quality config) = QD_REFERENCE_ONLY).

(** C21. The batch executors fail closed, for every lawful control plane, over a batch that the
    quality policy of its dataset lets pass (the executors do not enforce that policy themselves:
    [batch_runs_ignore_quality]).  A run that raises before publication or ends FAILED, refused by
    its evidence, its guard or its reconciliation, changes neither the target nor a watermark and
    names an error; any other run publishes exactly the rows planned from the admitted, mapped
    source rows, behind a reconciliation that does not block, leaves every watermark alone, and
    reports SUCCEEDED with the rows of the target. *)
Theorem batch_runs_fail_closed args s :
  (forall config, dataset_of s.1 (ba_dataset_id args) = Some config -> quality_admits args config) ->
  (forall ref r s', execute_append_batch config_hash exc_text args ref s = (r, s') ->
     ends_guarded (append_planned args) (ba_dataset_id args) r s s') /\
  (forall evidence policy r s', execute_full_replace config_hash exc_text args evidence policy s = (r, s') ->
     ends_guarded (fun _ => replace_planned args evidence policy) (ba_dataset_id args) r s s') /\
  (forall evidence policy r s', execute_snapshot_diff config_hash exc_text args evidence policy s = (r, s') ->
     ends_guarded (fun config => diff_planned args config evidence policy) (ba_dataset_id args) r s s').
Proof using Type. intros _. split_and!; intros; [by eapply append_ends|by eapply replace_ends|by eapply diff_ends]. Qed.

(** Reruns of a batch converge: two APPEND runs, or two REPLACE runs, over the same source rows
    change the target at most once, whatever happens to either. *)
Theorem batch_reruns_change_once args s :
  (forall ref ref2 r s1 r2 s2, execute_append_batch config_hash exc_text args ref s = (r, s1) ->
     execute_append_batch config_hash exc_text args ref2 s1 = (r2, s2) -> s1.2 = s.2 \/ s2.2 = s1.2) /\
  (forall evidence policy r s1 r2 s2, execute_full_replace config_hash exc_text args evidence policy s = (r, s1) ->
     execute_full_replace config_hash exc_text args evidence policy s1 = (r2, s2) -> s1.2 = s.2 \/ s2.2 = s1.2).
Proof using All.
  split.
  - intros ref ref2 r s1 r2 s2 E1%append_ends E2%append_ends.
    destruct E1 as [[Hu _]|(config & rows & Hc & Hp & Ht & Hw & _)]; [left; by apply unchanged_target|].
    destruct E2 as [[Hu _]|(config2 & rows2 & Hc2 & Hp2 & Ht2 & _)]; [right; by apply unchanged_target|]. right.
    rewrite Ht, Ht2. assert (config2 = config) as ->.
    { specialize (Hw (ba_dataset_id args)). apply (f_equal snd) in Hw. simpl in Hw. congruence. }
    unfold append_planned in Hp, Hp2. apply bind_Ok in Hp as (rs & Hrs & Hp). rewrite Hrs in Hp2. cbn [mbind res_bind] in Hp2.
    apply bind_Ok in Hp as (plan & Hplan & [= <-]). rewrite Ht, (append_replay _ _ _ _ Hplan) in Hp2. by injection Hp2 as <-.
  - intros evidence policy r s1 r2 s2 E1%replace_ends E2%replace_ends.
    destruct E1 as [[Hu _]|(config & rows & Hc & Hp & Ht & Hw & _)]; [left; by apply unchanged_target|].
    destruct E2 as [[Hu _]|(config2 & rows2 & Hc2 & Hp2 & Ht2 & _)]; [right; by apply unchanged_target|]. right.
    rewrite Ht, Ht2. unfold replace_planned in Hp, Hp2. apply bind_Ok in Hp as (cap & Hcap & Hp).
    rewrite Hcap in Hp2. cbn [mbind res_bind] in Hp2. apply bind_Ok in Hp as (rs & Hrs & Hp). rewrite Hrs in Hp2.
    cbn [mbind res_bind] in Hp2. apply bind_Ok in Hp as (plan & Hplan & [= <-]). apply bind_Ok in Hp2 as (plan2 & Hplan2 & [= <-]).
    assert (forall t pl, plan_replace t (staged_as rs.2) evidence (default default_ReplaceGuardPolicy policy) = Ok pl ->
              rp_rows pl = rs.2) as Hrows.
    { intros t pl. unfold plan_replace. destruct (incomplete_snapshot _ _); [done|]. destruct (empty_source _ _ _); [done|].
      destruct (empty_candidate _ _ _); [done|]. destruct (excessive_drop _ _ _); [done|]. by intros [= <-]. }
    by rewrite (Hrows _ _ Hplan), (Hrows _ _ Hplan2).
Qed.
End fail_closed.

(** ** Witnesses *)

Module Demo.
#[local] Existing Instances demo_runtime demo_scalars.
Definition clock (n : nat) : datetime := utc (Z.of_nat n).
#[local] Instance demo_world : RunWorld Process := process_world clock N.of_nat.
#[local] Instance demo_lawful : @LawfulWorld Process demo_world := process_lawful clock N.of_nat.

Definition load (capture : CaptureStrategy) (apply : ApplyStrategy) : LoadPolicy :=
  {| lp_capture_strategy := capture; lp_apply_strategy := apply;
     lp_business_key := ["id"]; lp_merge_key := ["id"]; lp_append_identity := ["id"]; lp_watermark := None;
     lp_event_time_column := None; lp_version_column := None; lp_sequence_column := None;
     lp_tracked_columns := []; lp_delete_policy := "IGNORE" |}.

(** Quarantine is disabled: by its documentation, any invalid row fails the dataset. *)
Definition strict : DataQualityPolicy :=
  {| dq_policy_name := "default"; dq_quarantine_policy := "default"; dq_enabled := true;
     dq_quarantine_enabled := false; dq_quarantine_detail_mode := QD_FULL;
     dq_max_quarantine_rows := Some 0; dq_max_quarantine_fraction := None |}.

(** A quarantine of references, of at most one row. *)
Definition tolerant : DataQualityPolicy :=
  {| dq_policy_name := "default"; dq_quarantine_policy := "default"; dq_enabled := true;
     dq_quarantine_enabled := true; dq_quarantine_detail_mode := QD_REFERENCE_ONLY;
     dq_max_quarantine_rows := Some 1; dq_max_quarantine_fraction := Some (QArith_base.Qmake 1 2) |}.

(** Rules are disabled: by its documentation, no row rule executes. *)
Definition disabled : DataQualityPolicy :=
  {| dq_policy_name := "default"; dq_quarantine_policy := "default"; dq_enabled := false;
     dq_quarantine_enabled := false; dq_quarantine_detail_mode := QD_FULL;
     dq_max_quarantine_rows := None; dq_max_quarantine_fraction := None |}.

Definition config (quality : DataQualityPolicy) (l : LoadPolicy) : DatasetConfig :=
  with_quality (with_load Config.demo_config l) quality.
Definition hash (c : DatasetConfig) : string := String.concat "" (repeat "a" 64).

Definition source_row (id v : Z) : row := {[ "id" := VInt id; "v" := VInt v ]}.
Definition rule : RowRule :=
  {| rule_code := "NEGATIVE"; rule_message := "v is negative";
     rule_predicate r := match get r "v" with VInt z => Ok (0 <=? z) | _ => Ok false end |}.

Definition args : BatchArgs :=
  {| ba_dataset_id := "orders"; ba_source_rows := [source_row 1 10; source_row 2 (-1); source_row 3 30];
     ba_rules := [rule]; ba_mapper := Ok; ba_pipeline_run_id := None; ba_dataset_run_id := None;
     ba_run_mode := RM_NORMAL; ba_effective_config_hash := None; ba_reconciliation_observations := [];
     ba_force_reconciliation_failure := false |}.

Definition start (c : DatasetConfig) : Process * list row :=
  ({| pc_plane := (InMemory.deploy_dataset c empty_plane).2; pc_readings := 0 |}, []).

Definition evidence : FullSnapshotEvidence :=
  {| snapshot_id := "s1"; complete := true; source_row_count := 3; boundary_ref := None |}.

Definition append (c : DatasetConfig) := execute_append_batch hash exn_site args None (start c).
Definition replace (c : DatasetConfig) := execute_full_replace hash exn_site args evidence None (start c).
Definition diff (c : DatasetConfig) := execute_snapshot_diff hash exn_site args evidence None (start c).

(** The batch executors ignore the quality policy: with quarantine disabled and a budget of no
    invalid rows, an invalid row is quarantined and the run succeeds; with quality disabled, the
    rules still run and drop the row. *)
Theorem batch_runs_ignore_quality :
  (forall q, q = strict \/ q = disabled ->
     bx_status <$> (append (config q (load CS_WATERMARK AS_APPEND))).1 = Ok DS_SUCCEEDED /\
     bx_status <$> (replace (config q (load CS_FULL AS_REPLACE))).1 = Ok DS_SUCCEEDED /\
     bx_status <$> (diff (config q (load CS_SNAPSHOT AS_SNAPSHOT_DIFF))).1 = Ok DS_SUCCEEDED /\
     length (append (config q (load CS_WATERMARK AS_APPEND))).2.2 = 2%nat /\
     length (im_quarantine_batches (pc_plane (append (config q (load CS_WATERMARK AS_APPEND))).2.1)) = 1%nat).
Proof. intros q [->| ->]; vm_compute; repeat split. Qed.

#[local] Opaque execute_append_batch.

Lemma tolerant_admits : quality_admits args (config tolerant (load CS_WATERMARK AS_APPEND)).
Proof.
  split_and!; [reflexivity| |reflexivity]. intros _. split_and!; [reflexivity| |].
  - intros bound [= <-]. vm_compute. discriminate.
  - intros bound [= <-]. vm_compute. discriminate.
Qed.

Lemma tolerant_config :
  dataset_of (start (config tolerant (load CS_WATERMARK AS_APPEND))).1 "orders" = Some (config tolerant (load CS_WATERMARK AS_APPEND)).
Proof. vm_compute. reflexivity. Qed.

(** The run that publishes two rows of three. *)
Lemma tolerant_run :
  map (fun r => get r "id") (append (config tolerant (load CS_WATERMARK AS_APPEND))).2.2 = [VInt 1; VInt 3].
Proof. vm_compute. reflexivity. Qed.

(** It published the rows planned over the empty target. *)
Lemma batch_runs_fail_closed_witness :
  quality_admits args (config tolerant (load CS_WATERMARK AS_APPEND)) /\
  exists rows, append_planned args (config tolerant (load CS_WATERMARK AS_APPEND)) [] = Ok rows /\
    map (fun r => get r "id") rows = [VInt 1; VInt 3].
Proof.
  split; [exact tolerant_admits|]. pose proof tolerant_run as Hrun. pose proof tolerant_config as Hconfig.
  unfold append in Hrun. assert ((start (config tolerant (load CS_WATERMARK AS_APPEND))).2 = []) as Ht by reflexivity.
  revert Hrun Hconfig Ht. generalize (start (config tolerant (load CS_WATERMARK AS_APPEND))). intros s Hrun Hconfig Ht.
  destruct (execute_append_batch hash exn_site args None s) as [r s'] eqn:E. cbn [snd] in Hrun.
  destruct (batch_runs_fail_closed hash exn_site args s) as [Happend _].
  { change (ba_dataset_id args) with "orders". rewrite Hconfig. intros c [= <-]. exact tolerant_admits. }
  destruct (Happend None r s' E) as [[Hu _]|(c & rows & Hc & Hp & Hr & _)].
  - exfalso. specialize (Hu ""). apply (f_equal snd) in Hu. simpl in Hu. rewrite Hu, Ht in Hrun. discriminate Hrun.
  - change (ba_dataset_id args) with "orders" in Hc. rewrite Hconfig in Hc. injection Hc as <-.
    rewrite Ht in Hp. exists rows. split; [exact Hp|]. rewrite <-Hr. exact Hrun.
Defined.

Lemma batch_reruns_change_once_witness :
  exists s1 s2, (append (config strict (load CS_WATERMARK AS_APPEND))).2 = s1 /\
    (execute_append_batch hash exn_site args None s1).2 = s2 /\ (s1.2 = [] \/ s2.2 = s1.2).
Proof.
  unfold append. assert ((start (config strict (load CS_WATERMARK AS_APPEND))).2 = []) as Ht by reflexivity.
  generalize dependent (start (config strict (load CS_WATERMARK AS_APPEND))). intros s Ht.
  destruct (execute_append_batch hash exn_site args None s) as [r s1] eqn:E1.
  destruct (execute_append_batch hash exn_site args None s1) as [r2 s2] eqn:E2.
  exists s1, s2. split; [reflexivity|]. rewrite E2. split; [reflexivity|].
  destruct (batch_reruns_change_once hash exn_site args s) as [Hre _]. rewrite <-Ht. exact (Hre None None r s1 r2 s2 E1 E2).
Defined.
End Demo.
