(* ===== verification/Transactions.v ===== *)
(** * Programs of database statements and their interleavings

    A program is a finite tree of statements; what it does next depends on the answer of the
    database.  The write part of a transaction holds the locks of its rows until the commit, so
    it is one statement, and so is each query.  A pool of programs runs by interleaving their
    statements in any order; [safe] is the proof rule for one program of a pool, against an
    invariant of the shared state and facts that stay true once they are. *)

From stdpp Require Import base strings list relations.
From S2P Require Import Prelude.

(** ** Programs *)

(** [Done r] returns or raises; [Stmt q k] runs the statement [q] and goes on with its answer. *)
Inductive prog {Q R : Type} (A : Type) :=
| Done (r : res A)
| Stmt (q : Q) (k : R -> prog A).
Arguments prog : clear implicits.
Arguments Done {Q R A} r.
Arguments Stmt {Q R A} q k.

Section prog.
Context {Q R : Type}.

Fixpoint prog_then {A B} (p : prog Q R A) (f : res A -> prog Q R B) : prog Q R B :=
  match p with
  | Done r => f r
  | Stmt q k => Stmt q (fun a => prog_then (k a) f)
  end.

#[export] Instance prog_ret : MRet (prog Q R) := fun A a => Done (Ok a).
#[export] Instance prog_bind : MBind (prog Q R) := fun A B f p =>
  prog_then p (fun r => match r with Ok a => f a | Raise e => Done (Raise e) end).

(** A computation without statements. *)
Definition pure {A} (m : res A) : prog Q R A := Done m.

(** [try: p  except cls as exc: handler exc] *)
Definition prog_except {A} (classes : list string) (handler : exn -> prog Q R A) (p : prog Q R A) : prog Q R A :=
  prog_then p (fun r => match r with
                        | Ok a => Done (Ok a)
                        | Raise e => if bool_decide (exn_type e ∈ classes) then handler e else Done (Raise e)
                        end).

(** The program alone, on an executable database. *)
Fixpoint run_alone {S A} (exec : S -> Q -> R * S) (p : prog Q R A) (s : S) : res A * S :=
  match p with
  | Done r => (r, s)
  | Stmt q k => let '(a, s') := exec s q in run_alone exec (k a) s'
  end.
End prog.

(** ** Paths

    What one program may do: the statements it runs with their answers, and its result. *)

Section paths.
Context {Q R : Type}.

Inductive path {A} : prog Q R A -> list (Q * R) -> res A -> Prop :=
| path_done r : path (Done r) [] r
| path_stmt q k a tr r : path (k a) tr r -> path (Stmt q k) ((q, a) :: tr) r.

(** Every statement the program may run satisfies [P]. *)
Fixpoint statements {A} (P : Q -> Prop) (p : prog Q R A) : Prop :=
  match p with
  | Done _ => True
  | Stmt q k => P q /\ forall a, statements P (k a)
  end.

Lemma path_statements {A} (P : Q -> Prop) (p : prog Q R A) tr r :
  statements P p -> path p tr r -> Forall (fun qa => P qa.1) tr.
Proof. intros Hp Hr. induction Hr as [|q k a tr r _ IH]; [constructor|]. destruct Hp as [Hq Hk]. constructor; auto. Qed.

Lemma path_then {A B} (p : prog Q R A) (f : res A -> prog Q R B) tr r :
  path (prog_then p f) tr r -> exists tr1 r1 tr2, tr = tr1 ++ tr2 /\ path p tr1 r1 /\ path (f r1) tr2 r.
Proof.
  revert tr. induction p as [r1|q k IH]; intros tr Hp; simpl in Hp.
  - exists [], r1, tr. split_and!; [done|constructor|done].
  - inversion Hp as [|? ? a tr' ? Hk]; subst. destruct (IH a tr' Hk) as (tr1 & r1 & tr2 & -> & H1 & H2).
    exists ((q, a) :: tr1), r1, tr2. split_and!; [done|by constructor|done].
Qed.

Lemma path_bind {A B} (p : prog Q R A) (f : A -> prog Q R B) tr r :
  path (p ≫= f) tr r ->
  (exists e, path p tr (Raise e) /\ r = Raise e) \/
  (exists tr1 a tr2, tr = tr1 ++ tr2 /\ path p tr1 (Ok a) /\ path (f a) tr2 r).
Proof.
  intros (tr1 & [a|e] & tr2 & -> & H1 & H2)%path_then; [right; by exists tr1, a, tr2|]. left. exists e.
  inversion H2; subst. by rewrite app_nil_r.
Qed.

Lemma statements_bind {A B} (P : Q -> Prop) (p : prog Q R A) (f : A -> prog Q R B) :
  statements P p -> (forall a, statements P (f a)) -> statements P (p ≫= f).
Proof.
  intros Hp Hf. change (statements P (prog_then p (fun r => match r with Ok a => f a | Raise e => Done (Raise e) end))).
  induction p as [[a|e]|q k IH]; simpl; [apply Hf|done|]. destruct Hp as [Hq Hk]. split; [done|]. intros a. apply IH, Hk.
Qed.

Lemma run_alone_path {S A} (exec : S -> Q -> R * S) (p : prog Q R A) s : exists tr, path p tr (run_alone exec p s).1.
Proof.
  revert s. induction p as [r|q k IH]; intros s; simpl; [exists []; constructor|].
  destruct (exec s q) as [a s'] eqn:E. destruct (IH a s') as [tr Htr]. exists ((q, a) :: tr). by constructor.
Qed.
End paths.

(** ** Pools *)

Section pools.
Context {Q R S A : Type}.
Implicit Types (pool : list (prog Q R A)) (s : S) (trace : list (Q * R)).

(** One statement of one program. *)
Inductive pool_step (exec : S -> Q -> R -> S -> Prop) pool s : Q * R -> list (prog Q R A) -> S -> Prop :=
| pool_stmt i q k a s' :
    pool !! i = Some (Stmt q k) -> exec s q a s' -> pool_step exec pool s (q, a) (<[i := k a]> pool) s'.

(** An execution, with its statements and answers. *)
Inductive pool_run (exec : S -> Q -> R -> S -> Prop) :
    list (prog Q R A) -> S -> list (Q * R) -> list (prog Q R A) -> S -> Prop :=
| run_refl pool s : pool_run exec pool s [] pool s
| run_step pool s qa pool1 s1 trace pool2 s2 :
    pool_step exec pool s qa pool1 s1 -> pool_run exec pool1 s1 trace pool2 s2 ->
    pool_run exec pool s (qa :: trace) pool2 s2.

(** The execution of a schedule: the programs whose statements run, in order. *)
Fixpoint run_schedule (exec : S -> Q -> R * S) (schedule : list nat) pool s : list (prog Q R A) * S :=
  match schedule with
  | [] => (pool, s)
  | i :: schedule =>
    match pool !! i with
    | Some (Stmt q k) => let '(a, s') := exec s q in run_schedule exec schedule (<[i := k a]> pool) s'
    | _ => run_schedule exec schedule pool s
    end
  end.

Lemma run_schedule_sound (exec : S -> Q -> R * S) schedule pool s :
  exists trace, pool_run (fun s q a s' => exec s q = (a, s')) pool s trace
    (run_schedule exec schedule pool s).1 (run_schedule exec schedule pool s).2.
Proof.
  revert pool s. induction schedule as [|i schedule IH]; intros pool s; simpl; [exists []; constructor|].
  destruct (pool !! i) as [[r|q k]|] eqn:E; [apply IH| |apply IH].
  destruct (exec s q) as [a s'] eqn:Ex. destruct (IH (<[i := k a]> pool) s') as [trace Hrun].
  exists ((q, a) :: trace). econstructor; [|exact Hrun]. econstructor; [exact E|done].
Qed.

Lemma pool_run_mono (exec exec' : S -> Q -> R -> S -> Prop) pool s trace pool' s' :
  (forall s q a s', exec s q a s' -> exec' s q a s') ->
  pool_run exec pool s trace pool' s' -> pool_run exec' pool s trace pool' s'.
Proof.
  intros Himp. induction 1 as [|pool s qa pool1 s1 trace pool2 s2 [i q k a s1' Hi Hex] _ IH]; [constructor|].
  econstructor; [|exact IH]. econstructor; [done|by apply Himp].
Qed.

(** Any trace can be cut where a statement runs. *)
Lemma pool_run_split (exec : S -> Q -> R -> S -> Prop) pool s trace1 qa trace2 pool' s' :
  pool_run exec pool s (trace1 ++ qa :: trace2) pool' s' ->
  exists pool1 s1 pool2 s2, pool_run exec pool s trace1 pool1 s1 /\ exec s1 qa.1 qa.2 s2 /\
    pool_run exec pool2 s2 trace2 pool' s'.
Proof.
  revert pool s. induction trace1 as [|qa1 trace1 IH]; intros pool s Hrun.
  - inversion Hrun as [|? ? ? pool1 s1 ? ? ? Hstep Hrest]; subst.
    exists pool, s, pool1, s1. split; [constructor|]. split; [|done]. by destruct Hstep.
  - inversion Hrun as [|? ? ? pool1 s1 ? ? ? Hstep Hrest]; subst.
    destruct (IH _ _ Hrest) as (p1 & t1 & p2 & t2 & H1 & H2 & H3). exists p1, t1, p2, t2.
    split; [by econstructor|done].
Qed.

(** A program that has ended ran a path of its own, whose statements are part of the trace. *)
Lemma pool_run_path (exec : S -> Q -> R -> S -> Prop) pool s trace pool' s' i p r :
  pool_run exec pool s trace pool' s' -> pool !! i = Some p -> pool' !! i = Some (Done r) ->
  exists tr, path p tr r /\ sublist tr trace.
Proof.
  intros Hrun. revert p. induction Hrun as [|pool s qa pool1 s1 trace pool2 s2 [j q k a s1' Hj Hex] _ IH]; intros p Hi Hi'.
  - assert (p = Done r) as -> by congruence. exists []. split; constructor.
  - destruct (decide (i = j)) as [->|Hne].
    + assert (p = Stmt q k) as -> by congruence.
      destruct (IH (k a)) as (tr & Hp & Hs); [by rewrite list_lookup_insert_eq by (by eapply lookup_lt_Some)|done|].
      exists ((q, a) :: tr). split; by constructor.
    + destruct (IH p) as (tr & Hp & Hs); [by rewrite list_lookup_insert_ne|done|]. exists tr. split; [done|by constructor].
Qed.

(** The program comes to another one by these statements and answers. *)
Inductive leads : prog Q R A -> list (Q * R) -> prog Q R A -> Prop :=
| leads_refl p : leads p [] p
| leads_stmt q k a tr p : leads (k a) tr p -> leads (Stmt q k) ((q, a) :: tr) p.

(** A statement is run by a program of the pool, after statements of its own. *)
Lemma pool_run_leads (exec : S -> Q -> R -> S -> Prop) pool s trace1 q a trace2 pool' s' :
  pool_run exec pool s (trace1 ++ (q, a) :: trace2) pool' s' ->
  exists i p tr k, pool !! i = Some p /\ leads p tr (Stmt q k) /\ sublist tr trace1.
Proof.
  revert pool s. induction trace1 as [|qa1 trace1 IH]; intros pool s Hrun;
    inversion Hrun as [|? ? ? pool1 s1 ? ? ? Hstep Hrest]; subst.
  - inversion Hstep as [i q' k a' s2 Hi _]; subst. exists i, (Stmt q k), [], k. split; [done|]. split; constructor.
  - inversion Hstep as [j q' k' a' s2 Hj _]; subst. destruct (IH _ _ Hrest) as (i & p & tr & k & Hi & Hl & Hs).
    destruct (decide (i = j)) as [->|Hne].
    + rewrite list_lookup_insert_eq in Hi by (by eapply lookup_lt_Some). injection Hi as <-.
      exists j, (Stmt q' k'), ((q', a') :: tr), k. split; [done|]. split; by constructor.
    + rewrite list_lookup_insert_ne in Hi by done. exists i, p, tr, k. split; [done|]. split; [done|by constructor].
Qed.

Lemma leads_statements (P : Q -> Prop) (p : prog Q R A) tr q k : statements P p -> leads p tr (Stmt q k) -> P q.
Proof.
  intros Hp Hl. remember (Stmt q k) as p' eqn:E. induction Hl as [p|q' k' a tr p _ IH]; subst; [apply Hp|].
  apply IH; [|done]. apply Hp.
Qed.

(** A step relation of the statements preserves what each statement preserves. *)
Lemma pool_run_ind_states (exec : S -> Q -> R -> S -> Prop) (P : S -> Prop) pool s trace pool' s' :
  (forall s q a s', (q, a) ∈ trace -> exec s q a s' -> P s -> P s') ->
  pool_run exec pool s trace pool' s' -> P s -> P s'.
Proof.
  intros Hpres Hrun. induction Hrun as [|pool s qa pool1 s1 trace pool2 s2 [i q k a s1' Hi Hex] _ IH]; [done|].
  intros HP. apply IH.
  - intros t q' a' t' Hin. apply Hpres. by apply elem_of_cons; right.
  - eapply (Hpres s q a); [by apply elem_of_cons; left|done|done].
Qed.
End pools.

(** A sequence comes to a statement in its first part, or after it. *)
Lemma leads_bind {Q R A B} (p : prog Q R A) (f : A -> prog Q R B) tr q k :
  leads (p ≫= f) tr (Stmt q k) ->
  (exists k', leads p tr (Stmt q k')) \/ (exists tr1 a tr2, tr = tr1 ++ tr2 /\ path p tr1 (Ok a) /\ leads (f a) tr2 (Stmt q k)).
Proof.
  revert tr. induction p as [[a|e]|q' k' IH]; intros tr Hl; simpl in Hl.
  - right. exists [], a, tr. split_and!; [done|constructor|done].
  - inversion Hl.
  - inversion Hl as [|? ? a tr' ? Hk]; subst; [left; exists k'; constructor|].
    destruct (IH a tr' Hk) as [[k'' Hp]|(tr1 & b & tr2 & -> & Hp & Hf)]; [left; exists k''; by constructor|].
    right. exists ((q', a) :: tr1), b, tr2. split_and!; [done|by constructor|done].
Qed.

(** ** The proof rule *)

Section safety.
Context {Q R S : Type}.
Context (exec : S -> Q -> R -> S -> Prop).
(** [inv] is the invariant of the state, [later] orders the states of an execution, and [wf] is
    what the invariant needs of a statement. *)
Context (inv : S -> Prop) (later : S -> S -> Prop) (wf : S -> Q -> Prop).

Class SharedState : Prop := {
  later_refl s : later s s;
  later_trans s1 s2 s3 : later s1 s2 -> later s2 s3 -> later s1 s3;
  later_exec s q a s' : inv s -> wf s q -> exec s q a s' -> later s s';
  inv_exec s q a s' : inv s -> wf s q -> exec s q a s' -> inv s';
  wf_later s s' q : later s s' -> wf s q -> wf s' q
}.

(** Run from the state [s] or any later one, the program issues statements the invariant
    allows and ends in states and results that satisfy [post]. *)
Fixpoint safe {A} (post : S -> res A -> Prop) (p : prog Q R A) (s : S) : Prop :=
  match p with
  | Done r => post s r
  | Stmt q k => wf s q /\
      forall s1 a s2, later s s1 -> inv s1 -> exec s1 q a s2 -> safe post (k a) s2
  end.

(** A postcondition that stays true. *)
Definition stable {A} (post : S -> res A -> Prop) : Prop :=
  forall s s' r, later s s' -> post s r -> post s' r.

Context `{!SharedState}.

Lemma safe_later {A} (post : S -> res A -> Prop) p s s' :
  stable post -> later s s' -> safe post p s -> safe post p s'.
Proof using All.
  intros Hst Hl. destruct p as [r|q k]; simpl; [by apply Hst|].
  intros [Hwf Hk]. split; [by eapply wf_later|]. intros s1 a s2 H1. apply Hk. by eapply later_trans.
Qed.

(** Sequencing. *)
Lemma safe_then {A B} (mid : S -> res A -> Prop) (post : S -> res B -> Prop) p (f : res A -> prog Q R B) s :
  (forall s' r, mid s' r -> later s s' -> safe post (f r) s') ->
  safe mid p s -> safe post (prog_then p f) s.
Proof using All.
  revert s. induction p as [r|q k IH]; intros s Hf; simpl; [intros Hmid; apply Hf; [done|apply later_refl]|].
  intros [Hwf Hk]. split; [done|]. intros s1 a s2 Hl Hinv Hex. apply IH; [|by eapply Hk].
  intros s' r Hmid Hl'. apply Hf; [done|]. eapply later_trans; [exact Hl|].
  eapply later_trans; [eapply later_exec; [exact Hinv|by eapply wf_later|exact Hex]|done].
Qed.

Lemma safe_impl {A} (post1 post2 : S -> res A -> Prop) p s :
  (forall s' r, later s s' -> post1 s' r -> post2 s' r) -> safe post1 p s -> safe post2 p s.
Proof using All.
  revert s. induction p as [r|q k IH]; intros s Himp; simpl; [apply Himp, later_refl|].
  intros [Hwf Hk]. split; [done|]. intros s1 a s2 Hl Hinv Hex. apply IH; [|by eapply Hk].
  intros s' r Hl'. apply Himp. eapply later_trans; [exact Hl|]. eapply later_trans; [eapply later_exec; [exact Hinv|by eapply wf_later|exact Hex]|done].
Qed.

(** What holds when a program returns; a raised exception promises nothing. *)
Definition returns {A} (P : S -> A -> Prop) (s : S) (r : res A) : Prop :=
  match r with Ok a => P s a | Raise _ => True end.

Lemma safe_returns_bind {A B} (P : S -> A -> Prop) (P' : S -> B -> Prop) (p : prog Q R A) (f : A -> prog Q R B) s :
  safe (returns P) p s -> (forall s' a, later s s' -> P s' a -> safe (returns P') (f a) s') ->
  safe (returns P') (p ≫= f) s.
Proof using All.
  intros Hp Hf. eapply (safe_then (returns P)); [|exact Hp]. intros s' [a|e]; [|done]. intros Ha Hl. by apply Hf.
Qed.

Lemma safe_returns_except {A} (P : S -> A -> Prop) classes handler (p : prog Q R A) s :
  safe (returns P) p s -> (forall s' e, safe (returns P) (handler e) s') ->
  safe (returns P) (prog_except classes handler p) s.
Proof using All.
  intros Hp Hh. eapply (safe_then (returns P)); [|exact Hp]. intros s' [a|e] Ha Hl; [done|]. by case_bool_decide.
Qed.

Lemma safe_returns_pure {A} (P : S -> A -> Prop) (r : res A) s :
  (forall a, r = Ok a -> P s a) -> safe (returns (A := A) P) (pure (Q := Q) (R := R) r) s.
Proof using Type. intros HP. destruct r; [by apply HP|done]. Qed.

(** A pool of safe programs keeps the invariant, and its programs remain safe. *)
Theorem pool_safe {A} (posts : list (S -> res A -> Prop)) pool s trace pool' s' :
  Forall stable posts -> inv s -> Forall2 (fun post p => safe post p s) posts pool ->
  pool_run exec pool s trace pool' s' ->
  inv s' /\ later s s' /\ Forall2 (fun post p => safe post p s') posts pool'.
Proof using All.
  intros Hst Hinv Hsafe Hrun. revert Hinv Hsafe.
  induction Hrun as [|pool s qa pool1 s1 trace pool2 s2 [i q k a s1' Hi Hex] _ IH]; intros Hinv Hsafe.
  { split; [done|]. split; [apply later_refl|done]. }
  destruct (Forall2_lookup_r _ _ _ _ _ Hsafe Hi) as (post & Hpost & Hwf & Hk).
  assert (later s s1') as Hl by (by eapply later_exec).
  destruct IH as (Hinv' & Hl' & Hsafe').
  - by eapply inv_exec.
  - rewrite <-(list_insert_id posts i post Hpost). apply Forall2_insert.
    + clear Hpost Hwf Hk Hi. induction Hsafe as [|post' p posts pool Hp _ IH]; constructor.
      * apply Forall_cons in Hst as [Hst _]. by eapply safe_later.
      * apply IH. by apply Forall_cons in Hst as [_ Hst].
    + eapply Hk; [apply later_refl|done|done].
  - split; [done|]. split; [by eapply later_trans|done].
Qed.

(** Every statement of an execution is one that the state it runs in allows. *)
Lemma pool_statement_at {A} (posts : list (S -> res A -> Prop)) pool s trace1 q a trace2 pool' s' :
  Forall stable posts -> inv s -> Forall2 (fun post p => safe post p s) posts pool ->
  pool_run exec pool s (trace1 ++ (q, a) :: trace2) pool' s' ->
  exists pool1 s1 s2, pool_run exec pool s trace1 pool1 s1 /\
    inv s1 /\ later s s1 /\ wf s1 q /\ exec s1 q a s2 /\ later s2 s'.
Proof using All.
  intros Hst. revert pool s. induction trace1 as [|qa trace1 IH]; intros pool s Hinv Hsafe Hrun.
  - assert (exists s1, exec s q a s1 /\ wf s q /\ exists pool1, Forall2 (fun post p => safe post p s1) posts pool1 /\
      pool_run exec pool1 s1 trace2 pool' s') as (s1 & Hex & Hwf & pool1 & Hs1 & Hrest).
    { assert (Hone : forall pool1 s1, pool_step exec pool s (q, a) pool1 s1 ->
        exec s q a s1 /\ wf s q /\ Forall2 (fun post p => safe post p s1) posts pool1).
      { intros pool1 s1 Hstep. destruct (pool_safe posts pool s [(q, a)] pool1 s1) as (_ & _ & Hs1); try done.
        { econstructor; [exact Hstep|constructor]. }
        inversion Hstep as [i ? k ? ? Hi Hex]; subst. destruct (Forall2_lookup_r _ _ _ _ _ Hsafe Hi) as (post & _ & Hwf & _). done. }
      inversion Hrun as [|? ? ? pool1 s1 ? ? ? Hstep Hrest]; subst. destruct (Hone _ _ Hstep) as (? & ? & ?).
      exists s1. split_and!; try done. by exists pool1. }
    destruct (pool_safe posts pool1 s1 trace2 pool' s') as (_ & Hl & _); try done; [by eapply inv_exec|].
    exists pool, s, s1. split_and!; try done; [constructor|apply later_refl].
  - inversion Hrun as [|? ? ? pool1 s1 ? ? ? Hstep Hrest]; subst.
    destruct (pool_safe posts pool s [qa] pool1 s1) as (Hinv1 & Hl1 & Hs1); try done.
    { econstructor; [exact Hstep|constructor]. }
    destruct (IH _ _ Hinv1 Hs1 Hrest) as (p1 & t1 & t2 & ? & ? & ? & ? & ? & ?). exists p1, t1, t2.
    split_and!; try done; [by econstructor|by eapply later_trans].
Qed.

Lemma pool_statement {A} (posts : list (S -> res A -> Prop)) pool s trace1 q a trace2 pool' s' :
  Forall stable posts -> inv s -> Forall2 (fun post p => safe post p s) posts pool ->
  pool_run exec pool s (trace1 ++ (q, a) :: trace2) pool' s' ->
  exists s1 s2, inv s1 /\ later s s1 /\ wf s1 q /\ exec s1 q a s2 /\ later s2 s'.
Proof using All.
  intros Hst Hinv Hsafe Hrun.
  destruct (pool_statement_at posts pool s trace1 q a trace2 pool' s' Hst Hinv Hsafe Hrun) as (_ & s1 & s2 & _ & Hs). by exists s1, s2.
Qed.
End safety.

(** ** Databases

    A database runs statements on states of its own; what it shows of them is a [view].  Its
    answers are those the documentation allows on the views. *)

Class Database (Q R S T : Type) := {
  view : S -> T;
  db_exec : S -> Q -> R -> S -> Prop
}.

Class LawfulDatabase {Q R S T} (documented : T -> Q -> R -> T -> Prop) `{Database Q R S T} : Prop :=
  db_documented s q a s' : db_exec s q a s' -> documented (view s) q a (view s').

(** An execution on a lawful database is an execution on its views. *)
Lemma database_refines {Q R S T A} (documented : T -> Q -> R -> T -> Prop) `{LawfulDatabase Q R S T documented}
    (pool pool' : list (prog Q R A)) s trace s' :
  pool_run db_exec pool s trace pool' s' -> pool_run documented pool (view s) trace pool' (view s').
Proof.
  induction 1 as [|pool s qa pool1 s1 trace pool2 s2 [i q k a s1' Hi Hex] _ IH]; [constructor|].
  econstructor; [|exact IH]. econstructor; [done|by apply db_documented].
Qed.
