(* ===== verification/ControlPlane.v ===== *)
(** * The tables of the control plane ([control_plane/schema.py])

    The tables of leases and of target operations, the statements the control plane runs on
    them, and what the documentation of the database and its driver promises of their answers.
    The database itself is any [LawfulDatabase] of that documentation: a statement may fail
    with its outcome unknown, a constraint of the schema may reject a write, and a driver may
    return timestamps without their zone. *)

From stdpp Require Import base gmap strings list sorting.
From S2P Require Import Prelude PyValue Transactions.
#[local] Open Scope Z_scope.

(** ** Rows *)

(** [dataset_lease], by [dataset_id] *)
Record lease_row := {
  lr_dataset_id : string;
  lr_lease_owner : string;
  lr_dataset_run_id : N;
  lr_lease_version : Z;
  lr_acquired_at : datetime;
  lr_expires_at : datetime
}.
#[export] Instance lease_row_eq_dec : EqDecision lease_row.
Proof. solve_decision. Defined.

(** [dataset_lease_recovery_event] *)
Record recovery_row := {
  rr_event_id : N;
  rr_dataset_id : string;
  rr_lease_owner : string;
  rr_dataset_run_id : N;
  rr_lease_version : Z;
  rr_recovered_by : string;
  rr_reason : string;
  rr_proof_reference : string;
  rr_review_deadline : datetime;
  rr_recovered_at : datetime
}.
#[export] Instance recovery_row_eq_dec : EqDecision recovery_row.
Proof. solve_decision. Defined.

(** [target_operation], by [operation_key] *)
Record operation_row := {
  op_operation_key : string;
  op_dataset_id : string;
  op_operation_kind : string;
  op_target_reference : string;
  op_effective_config_hash : string;
  op_input_fingerprint : string;
  op_semantic_version : Z;
  op_status : string;
  op_owner_dataset_run_id : N;
  op_attempt : Z;
  op_version : Z;
  op_outcome_reference : option string;
  op_error_code : option string;
  op_error_message : option string;
  op_created_at : datetime;
  op_updated_at : option datetime;
  op_completed_at : option datetime
}.
#[export] Instance operation_row_eq_dec : EqDecision operation_row.
Proof. solve_decision. Defined.

(** [target_operation_event] *)
Record event_row := {
  oe_event_id : N;
  oe_operation_key : string;
  oe_from_status : option string;
  oe_to_status : string;
  oe_owner_dataset_run_id : N;
  oe_attempt : Z;
  oe_version : Z;
  oe_outcome_reference : option string;
  oe_error_code : option string;
  oe_error_message : option string;
  oe_occurred_at : datetime
}.
#[export] Instance event_row_eq_dec : EqDecision event_row.
Proof. solve_decision. Defined.

(** The event tables are in the order of the commits. *)
Record tables := {
  t_leases : gmap string lease_row;
  t_recoveries : list recovery_row;
  t_operations : gmap string operation_row;
  t_events : list event_row
}.

Definition with_leases (t : tables) (leases : gmap string lease_row) : tables :=
  {| t_leases := leases; t_recoveries := t_recoveries t; t_operations := t_operations t; t_events := t_events t |}.
Definition with_operation (t : tables) (r : operation_row) (e : event_row) : tables :=
  {| t_leases := t_leases t; t_recoveries := t_recoveries t;
     t_operations := <[op_operation_key r := r]> (t_operations t); t_events := t_events t ++ [e] |}.

(** ** Statements *)

(** The columns an UPDATE of [target_operation] sets. *)
Record operation_values := {
  ov_status : string;
  ov_owner_dataset_run_id : N;
  ov_attempt : Z;
  ov_version : Z;
  ov_outcome_reference : option string;
  ov_error_code : option string;
  ov_error_message : option string;
  ov_updated_at : datetime;
  ov_completed_at : option datetime
}.

Definition set_values (r : operation_row) (v : operation_values) : operation_row :=
  {| op_operation_key := op_operation_key r; op_dataset_id := op_dataset_id r;
     op_operation_kind := op_operation_kind r; op_target_reference := op_target_reference r;
     op_effective_config_hash := op_effective_config_hash r; op_input_fingerprint := op_input_fingerprint r;
     op_semantic_version := op_semantic_version r; op_status := ov_status v;
     op_owner_dataset_run_id := ov_owner_dataset_run_id v; op_attempt := ov_attempt v;
     op_version := ov_version v; op_outcome_reference := ov_outcome_reference v;
     op_error_code := ov_error_code v; op_error_message := ov_error_message v;
     op_created_at := op_created_at r; op_updated_at := Some (ov_updated_at v);
     op_completed_at := ov_completed_at v |}.

(** The identity of a lease in a WHERE clause. *)
Record lease_identity := {
  li_dataset_id : string;
  li_lease_owner : string;
  li_dataset_run_id : N;
  li_lease_version : Z
}.
#[export] Instance lease_identity_eq_dec : EqDecision lease_identity.
Proof. solve_decision. Defined.

Definition identity_of (r : lease_row) : lease_identity :=
  {| li_dataset_id := lr_dataset_id r; li_lease_owner := lr_lease_owner r;
     li_dataset_run_id := lr_dataset_run_id r; li_lease_version := lr_lease_version r |}.
Definition recovery_identity (r : recovery_row) : lease_identity :=
  {| li_dataset_id := rr_dataset_id r; li_lease_owner := rr_lease_owner r;
     li_dataset_run_id := rr_dataset_run_id r; li_lease_version := rr_lease_version r |}.

(** [RecoverLease] inserts the event and deletes the lease it names; [InsertOperation] and
    [UpdateOperation] write the row and its event; each of the three is rolled back when its
    row count is not 1. *)
Inductive statement :=
| SelectLease (dataset_id : string)
| InsertLease (r : lease_row)
| DeleteLease (id : lease_identity)
| SelectRecoveries (dataset_id : string)
| RecoverLease (e : recovery_row)
| SelectOperation (operation_key : string)
| SelectOperationEvents (operation_key : string)
| InsertOperation (r : operation_row) (e : event_row)
| UpdateOperation (operation_key : string) (version : Z) (status : option string)
    (v : operation_values) (e : event_row).

(** [AIntegrityError] is SQLAlchemy's [IntegrityError], [AFailed] a lost connection. *)
Inductive answer :=
| ALease (r : option lease_row)
| ARecoveries (rows : list recovery_row)
| AOperation (r : option operation_row)
| AEvents (rows : list event_row)
| ARowcount (n : nat)
| AIntegrityError
| AFailed.

Definition is_write (q : statement) : bool :=
  match q with
  | SelectLease _ | SelectRecoveries _ | SelectOperation _ | SelectOperationEvents _ => false
  | _ => true
  end.

(** ** The documented behaviour *)

(** The lease the identity matches. *)
Definition matching_lease (t : tables) (id : lease_identity) : bool :=
  match t_leases t !! li_dataset_id id with
  | Some r => bool_decide (identity_of r = id)
  | None => false
  end.

Definition matching_operation (t : tables) (key : string) (version : Z) (status : option string) :
    option operation_row :=
  match t_operations t !! key with
  | Some r =>
    if (op_version r =? version) && match status with Some s => String.eqb (op_status r) s | None => true end
    then Some r else None
  | None => None
  end.

(** The statement on the tables, with its answer as the database computes it. *)
Definition exec_tables (t : tables) (q : statement) : answer * tables :=
  match q with
  | SelectLease d => (ALease (t_leases t !! d), t)
  | InsertLease r =>
    match t_leases t !! lr_dataset_id r with
    | Some _ => (AIntegrityError, t)
    | None => (ARowcount 1, with_leases t (<[lr_dataset_id r := r]> (t_leases t)))
    end
  | DeleteLease id =>
    if matching_lease t id then (ARowcount 1, with_leases t (delete (li_dataset_id id) (t_leases t)))
    else (ARowcount 0, t)
  | SelectRecoveries d => (ARecoveries (filter (fun r => rr_dataset_id r = d) (t_recoveries t)), t)
  | RecoverLease e =>
    if bool_decide (rr_event_id e ∈ map rr_event_id (t_recoveries t)) then (AIntegrityError, t)
    else if matching_lease t (recovery_identity e) then
      (ARowcount 1, {| t_leases := delete (rr_dataset_id e) (t_leases t); t_recoveries := t_recoveries t ++ [e];
                       t_operations := t_operations t; t_events := t_events t |})
    else (ARowcount 0, t)
  | SelectOperation key => (AOperation (t_operations t !! key), t)
  | SelectOperationEvents key => (AEvents (filter (fun e => oe_operation_key e = key) (t_events t)), t)
  | InsertOperation r e =>
    if bool_decide (is_Some (t_operations t !! op_operation_key r))
       || bool_decide (oe_event_id e ∈ map oe_event_id (t_events t)) then (AIntegrityError, t)
    else (ARowcount 1, with_operation t r e)
  | UpdateOperation key version status v e =>
    match matching_operation t key version status with
    | None => (ARowcount 0, t)
    | Some r =>
      if bool_decide (oe_event_id e ∈ map oe_event_id (t_events t)) then (AIntegrityError, t)
      else (ARowcount 1, with_operation t (set_values r v) e)
    end
  end.

(** A driver returns a timestamp as it is, or without its zone. *)
Definition read_datetime (d d' : datetime) : Prop := d' = d \/ d' = Datetime None (dt_us d).

Definition read_lease (r r' : lease_row) : Prop :=
  exists a e, read_datetime (lr_acquired_at r) a /\ read_datetime (lr_expires_at r) e /\
    r' = {| lr_dataset_id := lr_dataset_id r; lr_lease_owner := lr_lease_owner r;
            lr_dataset_run_id := lr_dataset_run_id r; lr_lease_version := lr_lease_version r;
            lr_acquired_at := a; lr_expires_at := e |}.

Definition read_recovery (r r' : recovery_row) : Prop :=
  exists d a, read_datetime (rr_review_deadline r) d /\ read_datetime (rr_recovered_at r) a /\
    r' = {| rr_event_id := rr_event_id r; rr_dataset_id := rr_dataset_id r; rr_lease_owner := rr_lease_owner r;
            rr_dataset_run_id := rr_dataset_run_id r; rr_lease_version := rr_lease_version r;
            rr_recovered_by := rr_recovered_by r; rr_reason := rr_reason r;
            rr_proof_reference := rr_proof_reference r; rr_review_deadline := d; rr_recovered_at := a |}.

Definition read_operation (r r' : operation_row) : Prop :=
  exists c u m, read_datetime (op_created_at r) c /\ option_Forall2 read_datetime (op_updated_at r) u /\
    option_Forall2 read_datetime (op_completed_at r) m /\
    r' = {| op_operation_key := op_operation_key r; op_dataset_id := op_dataset_id r;
            op_operation_kind := op_operation_kind r; op_target_reference := op_target_reference r;
            op_effective_config_hash := op_effective_config_hash r; op_input_fingerprint := op_input_fingerprint r;
            op_semantic_version := op_semantic_version r; op_status := op_status r;
            op_owner_dataset_run_id := op_owner_dataset_run_id r; op_attempt := op_attempt r;
            op_version := op_version r; op_outcome_reference := op_outcome_reference r;
            op_error_code := op_error_code r; op_error_message := op_error_message r;
            op_created_at := c; op_updated_at := u; op_completed_at := m |}.

Definition read_event (e e' : event_row) : Prop :=
  exists d, read_datetime (oe_occurred_at e) d /\
    e' = {| oe_event_id := oe_event_id e; oe_operation_key := oe_operation_key e;
            oe_from_status := oe_from_status e; oe_to_status := oe_to_status e;
            oe_owner_dataset_run_id := oe_owner_dataset_run_id e; oe_attempt := oe_attempt e;
            oe_version := oe_version e; oe_outcome_reference := oe_outcome_reference e;
            oe_error_code := oe_error_code e; oe_error_message := oe_error_message e; oe_occurred_at := d |}.

(** The answer the driver makes of the rows; an [ORDER BY] sorts them. *)
Inductive driver : answer -> answer -> Prop :=
| driver_lease r r' : option_Forall2 read_lease r r' -> driver (ALease r) (ALease r')
| driver_recoveries rows rows' : (exists sorted, sorted ≡ₚ rows /\ Forall2 read_recovery sorted rows') ->
    driver (ARecoveries rows) (ARecoveries rows')
| driver_operation r r' : option_Forall2 read_operation r r' -> driver (AOperation r) (AOperation r')
| driver_events rows rows' :
    (exists sorted, sorted ≡ₚ rows /\ StronglySorted (fun a b => oe_version a <= oe_version b) sorted /\
       Forall2 read_event sorted rows') -> driver (AEvents rows) (AEvents rows')
| driver_rowcount n : driver (ARowcount n) (ARowcount n)
| driver_integrity : driver AIntegrityError AIntegrityError.

(** A statement is executed and answered; or a write is rejected by a constraint; or it fails,
    and may have been executed. *)
Inductive documented (t : tables) (q : statement) : answer -> tables -> Prop :=
| doc_answered a : driver (exec_tables t q).1 a -> documented t q a (exec_tables t q).2
| doc_rejected : is_write q = true -> documented t q AIntegrityError t
| doc_failed t' : t' = t \/ t' = (exec_tables t q).2 -> documented t q AFailed t'.

(** A program on the control plane. *)
Abbreviation sql := (prog statement answer).

(** ** Databases for the witnesses *)

Lemma driver_refl a : a <> AFailed -> (forall rows, a <> AEvents rows) -> driver a a.
Proof.
  assert (forall d, read_datetime d d) as Hd by (by left).
  assert (forall o, option_Forall2 read_datetime o o) as Ho by (intros [d|]; constructor; apply Hd).
  assert (forall r, read_lease r r) as Hl by (intros r; exists (lr_acquired_at r), (lr_expires_at r); by destruct r).
  assert (forall r, read_recovery r r) as Hr
    by (intros r; exists (rr_review_deadline r), (rr_recovered_at r); by destruct r).
  assert (forall r, read_operation r r) as Hop.
  { intros r. exists (op_created_at r), (op_updated_at r), (op_completed_at r). by destruct r. }
  intros Hne Hev. destruct a as [r|rows|r|rows|n| |]; try constructor; try done.
  - destruct r; constructor. apply Hl.
  - exists rows. split; [done|]. induction rows; constructor; auto.
  - destruct r; constructor. apply Hop.
  - by destruct (Hev rows).
Qed.

(** Rows of [target_operation_event] in the order of their versions. *)
Definition by_version (e1 e2 : event_row) : bool := oe_version e1 <=? oe_version e2.

Definition sorted_answer (a : answer) : answer :=
  match a with AEvents rows => AEvents (sort_by by_version rows) | _ => a end.

(** A database in memory, whose driver keeps the zones. *)
Definition memory_exec (t : tables) (q : statement) : answer * tables :=
  (sorted_answer (exec_tables t q).1, (exec_tables t q).2).

Definition memory_database : Database statement answer tables tables :=
  {| view := id; db_exec := fun t q a t' => memory_exec t q = (a, t') |}.

Lemma exec_tables_answers t q : (exec_tables t q).1 <> AFailed.
Proof.
  destruct q; simpl; try done; repeat (case_match; simpl; try done).
Qed.

Lemma memory_driver a : a <> AFailed -> driver a (sorted_answer a).
Proof.
  intros Hne. destruct a as [r|rows|r|rows|n| |]; try (by apply driver_refl). simpl. constructor.
  exists (sort_by by_version rows). split; [apply sort_by_perm|]. split.
  - eapply (strongly_sorted_impl (fun a b => by_version a b = true)); [intros a b Hab; by apply Z.leb_le|].
    apply sort_by_sorted; unfold by_version; lia.
  - assert (forall e, read_event e e) as Hr by (intros e; exists (oe_occurred_at e); split; [by left|by destruct e]).
    induction (sort_by by_version rows); constructor; auto.
Qed.

Lemma memory_lawful : @LawfulDatabase _ _ _ _ documented memory_database.
Proof.
  intros t q a t'. simpl. unfold memory_exec. intros [= <- <-]. apply doc_answered, memory_driver, exec_tables_answers.
Qed.

(** A driver that drops the zones of the leases it reads. *)
Definition drop_zone (d : datetime) : datetime := Datetime None (dt_us d).
Definition zoneless_answer (a : answer) : answer :=
  match a with
  | ALease (Some r) =>
    ALease (Some {| lr_dataset_id := lr_dataset_id r; lr_lease_owner := lr_lease_owner r;
                    lr_dataset_run_id := lr_dataset_run_id r; lr_lease_version := lr_lease_version r;
                    lr_acquired_at := drop_zone (lr_acquired_at r); lr_expires_at := drop_zone (lr_expires_at r) |})
  | _ => sorted_answer a
  end.

Definition zoneless_exec (t : tables) (q : statement) : answer * tables :=
  (zoneless_answer (exec_tables t q).1, (exec_tables t q).2).

Definition zoneless_database : Database statement answer tables tables :=
  {| view := id; db_exec := fun t q a t' => zoneless_exec t q = (a, t') |}.

Lemma zoneless_lawful : @LawfulDatabase _ _ _ _ documented zoneless_database.
Proof.
  intros t q a t'. simpl. unfold zoneless_exec. intros [= <- <-]. apply doc_answered.
  pose proof (exec_tables_answers t q) as Hne. destruct (exec_tables t q).1 as [[r|]| | | | | |]; try (by apply memory_driver).
  simpl. constructor. constructor. exists (drop_zone (lr_acquired_at r)), (drop_zone (lr_expires_at r)).
  split_and!; try done; by right.
Qed.

Definition no_tables : tables := {| t_leases := ∅; t_recoveries := []; t_operations := ∅; t_events := [] |}.
