(* ===== verification/DatasetLease.v ===== *)
(** * Dataset leases ([control_plane/dataset_lease.py], [control_plane/dataset_lease_recovery.py])

    A run claims a dataset by inserting the row of its lease; it releases exactly the row it
    inserted, and an operator may remove the lease of an abandoned run against evidence.  The
    clock readings and generated ids of a call are its arguments. *)

From stdpp Require Import base gmap strings list relations.
From S2P Require Import Prelude PyValue ConfigTypes Temporal Transactions ControlPlane.
#[local] Open Scope Z_scope.

(** [DatasetLeaseState] and [DatasetLeaseRecoveryEvent] have the columns of their tables. *)
Definition DatasetLeaseState : Type := lease_row.
Definition DatasetLeaseRecoveryEvent : Type := recovery_row.

(** [a <= b] on aware datetimes *)
Definition dt_leb (a b : datetime) : bool := dt_utc a <=? dt_utc b.

(** The field constraints and [validate_times]. *)
Definition make_DatasetLeaseState (s : lease_row) : res DatasetLeaseState :=
  if negb (nonempty (lr_dataset_id s)) || negb (nonempty (lr_lease_owner s)) || (lr_lease_version s <? 1) then
    bad_field
  else if is_naive (lr_acquired_at s) then raise "ValueError" "acquired_at must be timezone-aware"
  else if is_naive (lr_expires_at s) then raise "ValueError" "expires_at must be timezone-aware"
  else if dt_leb (lr_expires_at s) (lr_acquired_at s) then
    raise "ValueError" "expires_at must be after acquired_at"
  else Ok s.

(** [value.replace(tzinfo=timezone.utc)] when the value is naive *)
Definition aware (d : datetime) : datetime := if is_naive d then utc (dt_us d) else d.

Definition _from_row (row : lease_row) : res DatasetLeaseState :=
  make_DatasetLeaseState
    {| lr_dataset_id := lr_dataset_id row; lr_lease_owner := lr_lease_owner row;
       lr_dataset_run_id := lr_dataset_run_id row; lr_lease_version := lr_lease_version row;
       lr_acquired_at := aware (lr_acquired_at row); lr_expires_at := aware (lr_expires_at row) |}.

(** The exceptions of SQLAlchemy; an answer of another kind does not occur. *)
Definition sql_error {A} (a : answer) : res A :=
  match a with
  | AIntegrityError => raise "IntegrityError" ""
  | _ => raise "OperationalError" ""
  end.

(** [connection.execute(q).rowcount] *)
Definition rowcount (q : statement) : sql nat :=
  Stmt q (fun a => Done (match a with ARowcount n => Ok n | _ => sql_error a end)).

Definition select_lease (dataset_id : string) : sql (option lease_row) :=
  Stmt (SelectLease dataset_id) (fun a => Done (match a with ALease r => Ok r | _ => sql_error a end)).

Definition read_dataset_lease (dataset_id : string) : sql (option DatasetLeaseState) :=
  row ← select_lease dataset_id;
  match row with
  | Some row => state ← pure (_from_row row); mret (Some state)
  | None => mret None
  end.

Definition acquire_dataset_lease (dataset_id lease_owner : string) (dataset_run_id : N)
    (review_deadline now : datetime) : sql DatasetLeaseState :=
  if negb (nonempty dataset_id) || negb (nonempty lease_owner) then
    pure (raise "ValueError" "dataset_id and lease_owner are required")
  else if is_naive review_deadline then pure (raise "ValueError" "review_deadline must be timezone-aware")
  else if dt_leb review_deadline now then pure (raise "ValueError" "review_deadline must be in the future")
  else
    state ← pure (make_DatasetLeaseState
      {| lr_dataset_id := dataset_id; lr_lease_owner := lease_owner; lr_dataset_run_id := dataset_run_id;
         lr_lease_version := 1; lr_acquired_at := now; lr_expires_at := review_deadline |});
    _ ← prog_except ["IntegrityError"]
          (fun exc =>
             existing ← read_dataset_lease dataset_id;
             match existing with
             | None => pure (Raise exc)
             | Some _ => pure (raise "DatasetLeaseConflict" "dataset is already claimed for mutation")
             end)
          (rowcount (InsertLease state));
    mret state.

Definition release_dataset_lease (lease : DatasetLeaseState) : sql unit :=
  n ← rowcount (DeleteLease (identity_of lease));
  if negb (Nat.eqb n 1) then
    pure (raise "DatasetLeaseReleaseConflict" "dataset lease changed before exact release")
  else mret tt.

(** The field constraints and [validate_times] of the recovery event. *)
Definition make_DatasetLeaseRecoveryEvent (e : recovery_row) : res DatasetLeaseRecoveryEvent :=
  if negb (nonempty (rr_dataset_id e)) || negb (nonempty (rr_lease_owner e)) || (rr_lease_version e <? 1)
     || negb (nonempty (rr_recovered_by e)) || negb (nonempty (rr_reason e))
     || negb (nonempty (rr_proof_reference e)) then bad_field
  else if is_naive (rr_review_deadline e) then raise "ValueError" "review_deadline must be timezone-aware"
  else if is_naive (rr_recovered_at e) then raise "ValueError" "recovered_at must be timezone-aware"
  else Ok e.

(** [recovered_at] is the argument, or the reading [now] of the clock; the event id is fresh. *)
Definition recover_abandoned_dataset_lease (expected : lease_identity)
    (recovered_by reason proof_reference : string) (recovered_at : option datetime)
    (now : datetime) (event_id : N) : sql DatasetLeaseRecoveryEvent :=
  if li_lease_version expected <? 1 then pure (raise "ValueError" "expected_lease_version must be >= 1")
  else if negb (nonempty (li_dataset_id expected)) || negb (nonempty (li_lease_owner expected))
          || negb (nonempty recovered_by) || negb (nonempty reason) || negb (nonempty proof_reference) then
    pure (raise "ValueError" "lease recovery identity, actor, reason and proof are required")
  else
    let now := default now recovered_at in
    if is_naive now then pure (raise "ValueError" "recovered_at must be timezone-aware")
    else
      row ← select_lease (li_dataset_id expected);
      match row with
      | None => pure (raise "DatasetLeaseRecoveryConflict" "dataset has no lease to recover")
      | Some row =>
        if negb (String.eqb (lr_lease_owner row) (li_lease_owner expected))
           || negb (N.eqb (lr_dataset_run_id row) (li_dataset_run_id expected))
           || negb (lr_lease_version row =? li_lease_version expected) then
          pure (raise "DatasetLeaseRecoveryConflict" "dataset lease identity changed before governed recovery")
        else
          let deadline := aware (lr_expires_at row) in
          if negb (dt_leb deadline now) then
            pure (raise "DatasetLeaseRecoveryConflict" "dataset lease review deadline has not elapsed")
          else
            event ← pure (make_DatasetLeaseRecoveryEvent
              {| rr_event_id := event_id; rr_dataset_id := li_dataset_id expected;
                 rr_lease_owner := li_lease_owner expected; rr_dataset_run_id := li_dataset_run_id expected;
                 rr_lease_version := li_lease_version expected; rr_recovered_by := recovered_by;
                 rr_reason := reason; rr_proof_reference := proof_reference;
                 rr_review_deadline := deadline; rr_recovered_at := now |});
            n ← rowcount (RecoverLease event);
            if negb (Nat.eqb n 1) then
              pure (raise "DatasetLeaseRecoveryConflict" "dataset lease changed concurrently")
            else mret event
      end.

(** The event of a row of [read_dataset_lease_recovery_events]. *)
Definition recovery_from_row (row : recovery_row) : res DatasetLeaseRecoveryEvent :=
  make_DatasetLeaseRecoveryEvent
    {| rr_event_id := rr_event_id row; rr_dataset_id := rr_dataset_id row; rr_lease_owner := rr_lease_owner row;
       rr_dataset_run_id := rr_dataset_run_id row; rr_lease_version := rr_lease_version row;
       rr_recovered_by := rr_recovered_by row; rr_reason := rr_reason row;
       rr_proof_reference := rr_proof_reference row; rr_review_deadline := aware (rr_review_deadline row);
       rr_recovered_at := aware (rr_recovered_at row) |}.

Definition read_dataset_lease_recovery_events (dataset_id : string) : sql (list DatasetLeaseRecoveryEvent) :=
  Stmt (SelectRecoveries dataset_id) (fun a => Done (match a with
    | ARecoveries rows => mapM_res recovery_from_row rows
    | _ => sql_error a
    end)).

(** ** The processes of a control plane *)

Inductive lease_call :=
| Acquire (dataset_id lease_owner : string) (dataset_run_id : N) (review_deadline now : datetime)
| Release (lease : DatasetLeaseState)
| ReadLease (dataset_id : string)
| Recover (expected : lease_identity) (recovered_by reason proof_reference : string)
    (recovered_at : option datetime) (now : datetime) (event_id : N)
| ReadRecoveries (dataset_id : string).

Inductive lease_outcome :=
| LO_acquired (lease : DatasetLeaseState)
| LO_released
| LO_lease (lease : option DatasetLeaseState)
| LO_recovered (event : DatasetLeaseRecoveryEvent)
| LO_recoveries (events : list DatasetLeaseRecoveryEvent).

Definition lease_program (call : lease_call) : sql lease_outcome :=
  match call with
  | Acquire d owner run deadline now =>
    lease ← acquire_dataset_lease d owner run deadline now; mret (LO_acquired lease)
  | Release lease => _ ← release_dataset_lease lease; mret LO_released
  | ReadLease d => lease ← read_dataset_lease d; mret (LO_lease lease)
  | Recover expected by_ reason proof at_ now event_id =>
    event ← recover_abandoned_dataset_lease expected by_ reason proof at_ now event_id; mret (LO_recovered event)
  | ReadRecoveries d => events ← read_dataset_lease_recovery_events d; mret (LO_recoveries events)
  end.

(** ** Safety *)

(** Complete evidence of a recovery of the lease [L] after its expiry, as the database shows it: a driver may drop the
    zone of a timestamp, which is then taken for UTC. *)
Definition governed (e : recovery_row) (L : lease_row) : Prop :=
  nonempty (rr_recovered_by e) = true /\ nonempty (rr_reason e) = true /\ nonempty (rr_proof_reference e) = true /\
  exists expires_at, read_datetime (lr_expires_at L) expires_at /\ rr_review_deadline e = aware expires_at /\
    dt_utc (aware expires_at) <= dt_utc (rr_recovered_at e).

Section safety.
(** The calls of the pool, and the tables before it runs. *)
Context (calls : list lease_call) (t0 : tables).
Implicit Types (t : tables) (q : statement) (L : lease_row).

(** The leases of an execution: those there were, and those the calls acquire. *)
Definition known L : Prop :=
  (exists d, t_leases t0 !! d = Some L) \/
  exists d owner run deadline now, Acquire d owner run deadline now ∈ calls /\
    L = {| lr_dataset_id := d; lr_lease_owner := owner; lr_dataset_run_id := run; lr_lease_version := 1;
           lr_acquired_at := now; lr_expires_at := deadline |}.

(** A recovery of a lease of this identity. *)
Definition recovers (e : recovery_row) (id : lease_identity) : Prop :=
  recovery_identity e = id /\ exists L, known L /\ identity_of L = id /\ governed e L.

(** The lease may be gone: one of the calls releases exactly it, or a recovery of it has been
    put on record. *)
Definition given_up t L : Prop :=
  (exists lease, Release lease ∈ calls /\ identity_of lease = identity_of L) \/
  (exists e, e ∈ t_recoveries t /\ e ∉ t_recoveries t0 /\ recovers e (identity_of L)).

(** The lease holds its dataset, unless it was given up. *)
Definition held t L : Prop := t_leases t !! lr_dataset_id L = Some L \/ given_up t L.

Definition lease_inv t : Prop :=
  (forall d L, t_leases t !! d = Some L -> lr_dataset_id L = d /\ known L) /\
  forall e, e ∈ t_recoveries t0 -> e ∈ t_recoveries t.

Definition lease_later t t' : Prop :=
  (forall e, e ∈ t_recoveries t -> e ∈ t_recoveries t') /\ forall L, held t L -> held t' L.

(** A lease is deleted by a release, or with evidence. *)
Definition lease_wf t q : Prop :=
  match q with
  | DeleteLease id => exists lease, Release lease ∈ calls /\ identity_of lease = id
  | RecoverLease e => recovers e (recovery_identity e)
  | InsertLease r => known r
  | _ => True
  end.

Lemma given_up_mono t t' L :
  (forall e, e ∈ t_recoveries t -> e ∈ t_recoveries t') -> given_up t L -> given_up t' L.
Proof using Type. intros Hr [?|(e & ? & ?)]; [by left|right; exists e; auto]. Qed.

Lemma matching_lease_true t id :
  matching_lease t id = true <-> exists L, t_leases t !! li_dataset_id id = Some L /\ identity_of L = id.
Proof using Type.
  unfold matching_lease. destruct (t_leases t !! li_dataset_id id) as [L|]; [|split; [done|by intros (? & ? & _)]].
  rewrite bool_decide_eq_true. split; [intros ?; by exists L|]. by intros (L' & [= <-] & ?).
Qed.

(** A statement inserts a lease, removes one, or leaves them as they are. *)
Lemma exec_leases t q :
  t_leases (exec_tables t q).2 = t_leases t \/
  (exists r, q = InsertLease r /\ t_leases t !! lr_dataset_id r = None /\
     t_leases (exec_tables t q).2 = <[lr_dataset_id r := r]> (t_leases t)) \/
  (exists id, (q = DeleteLease id \/ exists e, q = RecoverLease e /\ id = recovery_identity e /\
                 e ∉ t_recoveries t /\ t_recoveries (exec_tables t q).2 = t_recoveries t ++ [e]) /\
     matching_lease t id = true /\ t_leases (exec_tables t q).2 = delete (li_dataset_id id) (t_leases t)).
Proof using Type.
  destruct q as [d|r|id|d|e|key|key|r e|key v st vals e]; cbn [exec_tables]; try (by left).
  - destruct (t_leases t !! lr_dataset_id r) eqn:E; [by left|]. right. left. by exists r.
  - destruct (matching_lease t id) eqn:E; [|by left]. right. right. exists id. split; [by left|done].
  - case_bool_decide as Hid; [by left|]. destruct (matching_lease t (recovery_identity e)) eqn:E; [|by left].
    right. right. exists (recovery_identity e). split; [right; exists e|done].
    split_and!; try done. intros Hin. apply Hid, list_elem_of_fmap. by exists e.
  - left. by destruct (_ || _).
  - left. destruct (matching_operation _ _ _ _); [|done]. by case_bool_decide.
Qed.

Lemma exec_recoveries t q e : e ∈ t_recoveries t -> e ∈ t_recoveries (exec_tables t q).2.
Proof using Type.
  intros He. destruct q as [d|r|id|d|e'|key|key|r e'|key v st vals e']; cbn [exec_tables]; try done.
  - by destruct (t_leases t !! lr_dataset_id r).
  - by destruct (matching_lease t id).
  - case_bool_decide; [done|]. destruct (matching_lease t _); [|done]. apply elem_of_app. by left.
  - by destruct (_ || _).
  - destruct (matching_operation _ _ _ _); [|done]. by case_bool_decide.
Qed.

Lemma exec_lease_inv t q : lease_inv t -> lease_wf t q -> lease_inv (exec_tables t q).2.
Proof using Type.
  intros [Hinv Hbef] Hwf. split; [|intros e He; by apply exec_recoveries, Hbef].
  intros d L. destruct (exec_leases t q) as [->|[(r & -> & _ & ->)|(id & _ & _ & ->)]].
  - apply Hinv.
  - rewrite lookup_insert_Some. intros [[<- <-]|[_ ?]]; [by split|by apply Hinv].
  - rewrite lookup_delete_Some. intros [_ ?]. by apply Hinv.
Qed.

Lemma delete_held t t' id L :
  matching_lease t id = true -> t_leases t' = delete (li_dataset_id id) (t_leases t) ->
  t_leases t !! lr_dataset_id L = Some L ->
  t_leases t' !! lr_dataset_id L = Some L \/ identity_of L = id.
Proof using Type.
  intros (L' & Hl & Hid)%matching_lease_true Ht HL. rewrite Ht.
  destruct (decide (li_dataset_id id = lr_dataset_id L)) as [Heq|Hne].
  - right. rewrite Heq, HL in Hl. by injection Hl as <-.
  - left. by rewrite lookup_delete_ne.
Qed.

Lemma exec_lease_later t q : lease_inv t -> lease_wf t q -> lease_later t (exec_tables t q).2.
Proof using Type.
  intros Hinv Hwf. pose proof (exec_recoveries t q) as Hmono. split; [exact Hmono|].
  intros L [HL|Hg]; [|right; by eapply given_up_mono].
  destruct (exec_leases t q) as [Heq|[(r & -> & Hnone & Heq)|(id & Hq & Hm & Heq)]].
  - left. by rewrite Heq.
  - left. rewrite Heq, lookup_insert_ne; [done|]. intros Hd. congruence.
  - destruct (delete_held t _ id L Hm Heq HL) as [?|Hid]; [by left|]. right.
    destruct Hq as [->|(e & -> & -> & Hnew & Hrec)].
    + left. destruct Hwf as (lease & ? & ?). exists lease. by rewrite Hid.
    + right. exists e. rewrite Hrec, Hid. split_and!; [| |done].
      * apply elem_of_app. right. by apply list_elem_of_singleton.
      * intros Hin. by apply Hnew, Hinv.
Qed.

#[export] Instance lease_state : SharedState documented lease_inv lease_later lease_wf.
Proof using Type.
  split.
  - intros t. by split.
  - intros t1 t2 t3 [H1 H2] [H3 H4]. split; auto.
  - intros t q a t' Hinv Hwf Hdoc. assert (lease_later t t) as Hrefl by done.
    destruct Hdoc as [a _|_|t' [->| ->]]; try done; by apply exec_lease_later.
  - intros t q a t' Hinv Hwf Hdoc. destruct Hdoc as [a _|_|t' [->| ->]]; try done; by apply exec_lease_inv.
  - intros t t' q _. by destruct q.
Qed.
End safety.

(** ** Each call is safe *)

Section calls.
Context (calls : list lease_call) (t0 : tables).
#[local] Notation lsafe := (safe documented (lease_inv calls t0) (lease_later calls t0) (lease_wf calls t0)).

(** A lease a call has acquired holds its dataset until it is given up. *)
Definition lease_post (call : lease_call) (t : tables) (r : res lease_outcome) : Prop :=
  match call, r with
  | Acquire d _ run _ _, Ok (LO_acquired L) => held calls t0 t L /\ lr_dataset_id L = d /\ lr_dataset_run_id L = run
  | _, _ => True
  end.

Lemma lease_post_stable call : stable (lease_later calls t0) (lease_post call).
Proof using Type.
  intros t t' r [_ Hheld]. unfold lease_post. destruct call; try done. destruct r as [[L| | | |]|]; try done.
  intros (? & ? & ?). auto.
Qed.

Lemma make_lease_Ok s L : make_DatasetLeaseState s = Ok L -> L = s.
Proof using Type.
  unfold make_DatasetLeaseState. destruct (_ || _ || _); [done|]. destruct (is_naive _); [done|].
  destruct (is_naive _); [done|]. destruct (dt_leb _ _); [done|]. by intros [= <-].
Qed.

Lemma acquire_safe d owner run deadline now t :
  Acquire d owner run deadline now ∈ calls ->
  lsafe (lease_post (Acquire d owner run deadline now)) (lease_program (Acquire d owner run deadline now)) t.
Proof using Type.
  intros Hcall. unfold lease_program, acquire_dataset_lease. destruct (_ || _); [done|]. destruct (is_naive deadline); [done|].
  destruct (dt_leb deadline now); [done|].
  destruct (make_DatasetLeaseState _) as [L|] eqn:EL; [|done]. apply make_lease_Ok in EL as ->.
  simpl. split; [right; by repeat eexists|]. intros t1 a t2 _ _ Hdoc.
  assert (a = ARowcount 1 -> t_leases t2 = <[d := {| lr_dataset_id := d; lr_lease_owner := owner;
    lr_dataset_run_id := run; lr_lease_version := 1; lr_acquired_at := now; lr_expires_at := deadline |}]> (t_leases t1)) as Hins.
  { intros ->. inversion Hdoc as [a' Hdr| |]; subst. simpl in *. destruct (t_leases t1 !! d); simpl in *; [inversion Hdr|done]. }
  assert (forall n, a = ARowcount n -> n = 1%nat) as Hone.
  { intros n ->. inversion Hdoc as [a' Hdr| |]; subst. simpl in *. by destruct (t_leases t1 !! d); inversion Hdr. }
  destruct a; simpl; try done.
  - specialize (Hone _ eq_refl) as ->. split; [|done]. left. simpl. rewrite Hins by done. by rewrite lookup_insert_eq.
  - split; [done|]. intros t3 a t4 _ _ _. destruct a as [[row|]| | | | | |]; simpl; try done.
    by destruct (_from_row row).
Qed.

Lemma release_safe lease t :
  Release lease ∈ calls -> lsafe (lease_post (Release lease)) (lease_program (Release lease)) t.
Proof using Type.
  intros Hin. simpl. split; [by exists lease|]. intros t1 a t2 _ _ _. destruct a; simpl; try done.
  by destruct (negb _).
Qed.

Lemma recovery_event_Ok e e' : make_DatasetLeaseRecoveryEvent e = Ok e' -> e' = e.
Proof using Type.
  unfold make_DatasetLeaseRecoveryEvent. destruct (_ || _); [done|]. destruct (is_naive _); [done|].
  destruct (is_naive _); [done|]. by intros [= <-].
Qed.

Lemma select_lease_known t d row t' : lease_inv calls t0 t -> documented t (SelectLease d) (ALease (Some row)) t' ->
  exists L, known calls t0 L /\ lr_dataset_id L = d /\ exists x y, read_datetime (lr_acquired_at L) x /\
    read_datetime (lr_expires_at L) y /\
    row = {| lr_dataset_id := lr_dataset_id L; lr_lease_owner := lr_lease_owner L; lr_dataset_run_id := lr_dataset_run_id L;
             lr_lease_version := lr_lease_version L; lr_acquired_at := x; lr_expires_at := y |}.
Proof using Type.
  intros [Hinv _] Hdoc. inversion Hdoc as [a Hdr| |]; subst. simpl in Hdr. inversion Hdr as [o o' Ho| | | | |]; subst.
  destruct (t_leases t !! d) as [L|] eqn:EL; inversion Ho as [? ? (x & y & Hx & Hy & Hrow)|]; subst.
  destruct (Hinv _ _ EL) as [HdL Hknown]. exists L. split; [done|]. split; [done|]. by exists x, y.
Qed.

Lemma recover_safe expected by_ reason proof at_ now event_id t :
  lsafe (lease_post (Recover expected by_ reason proof at_ now event_id))
    (lease_program (Recover expected by_ reason proof at_ now event_id)) t.
Proof using Type.
  unfold lease_program, recover_abandoned_dataset_lease. destruct (_ <? 1); [done|].
  destruct (nonempty (li_dataset_id expected)), (nonempty (li_lease_owner expected)),
    (nonempty by_) eqn:Eby, (nonempty reason) eqn:Ere, (nonempty proof) eqn:Epr; try done. cbn [negb orb].
  set (at' := default now at_). destruct (is_naive at'); [done|].
  simpl. split; [done|]. intros t1 a t2 _ Hinv Hdoc. destruct a as [[row|]| | | | | |]; simpl; try done.
  destruct (_ || _) eqn:Eid; [done|]. destruct (dt_leb (aware (lr_expires_at row)) at') eqn:Ele; [|done]. cbn [negb].
  destruct (make_DatasetLeaseRecoveryEvent _) as [e|] eqn:Ee; [|done]. apply recovery_event_Ok in Ee as ->.
  simpl. split.
  { destruct (select_lease_known _ _ _ _ Hinv Hdoc) as (L & Hknown & HdL & x & y & Hx & Hy & ->). simpl in *.
    split; [done|]. exists L. split; [done|]. split.
    - unfold identity_of, recovery_identity. simpl. apply orb_false_iff in Eid as [[E1 E2]%orb_false_iff E3].
      apply negb_false_iff, String.eqb_eq in E1. apply negb_false_iff, N.eqb_eq in E2. apply negb_false_iff, Z.eqb_eq in E3.
      by rewrite HdL, E1, E2, E3.
    - split_and!; [done..|]. exists y. split_and!; [done|done|by apply Z.leb_le]. }
  intros t3 a t4 _ _ _. destruct a; simpl; try done.
  destruct (Nat.eqb n 1); exact I.
Qed.

Lemma lease_call_safe call t : call ∈ calls -> lsafe (lease_post call) (lease_program call) t.
Proof using Type.
  destruct call; intros Hin; [by apply acquire_safe|by apply release_safe| |apply recover_safe|].
  - simpl. split; [done|]. intros t1 a t2 _ _ _. destruct a as [[row|]| | | | | |]; simpl; try done.
    by destruct (_from_row row).
  - simpl. split; [done|]. intros t1 a t2 _ _ _. destruct a as [|rows| | | | |]; simpl; try done.
    by destruct (mapM_res recovery_from_row rows).
Qed.

Lemma lease_pool_safe t : Forall (stable (lease_later calls t0)) (map lease_post calls) /\
  Forall2 (fun post p => lsafe post p t) (map lease_post calls) (map lease_program calls).
Proof using Type.
  split; [apply Forall_fmap, Forall_true; intros call; apply lease_post_stable|].
  rewrite Forall2_fmap. apply Forall2_same_length_lookup_2; [done|]. intros i c1 c2 H1 H2.
  rewrite H1 in H2. injection H2 as <-. apply lease_call_safe. by eapply list_elem_of_lookup_2.
Qed.

(** A pool of the calls, on a lawful database. *)
Lemma lease_pool_run {St} `{LawfulDatabase statement answer St tables documented} s trace pool' s' :
  lease_inv calls t0 (view s) -> pool_run db_exec (map lease_program calls) s trace pool' s' ->
  lease_inv calls t0 (view s') /\ lease_later calls t0 (view s) (view s') /\
  Forall2 (fun call p => lsafe (lease_post call) p (view s')) calls pool'.
Proof using Type.
  intros Hinv Hrun%(database_refines documented). destruct (lease_pool_safe (view s)) as [Hst Hsafe0].
  destruct (pool_safe documented (lease_inv calls t0) (lease_later calls t0) (lease_wf calls t0) (map lease_post calls)
    (map lease_program calls) (view s) trace pool' (view s')) as (Hinv' & Hl & Hsafe); try done.
  split; [done|]. split; [done|]. by rewrite Forall2_fmap_l in Hsafe.
Qed.
End calls.

(** ** Exclusion *)

(** Two leases with one identity are one lease: the dataset run ids of the calls are fresh. *)
Definition identities_unique (calls : list lease_call) (t0 : tables) : Prop :=
  forall L1 L2, known calls t0 L1 -> known calls t0 L2 -> identity_of L1 = identity_of L2 -> L1 = L2.

(** The statement [q] takes the lease [L] away: it releases exactly it, for a call that does, or it is an operator's
    recovery of it after its expiry, on record in [t]. *)
Definition takes_away (calls : list lease_call) t (L : lease_row) (q : statement) : Prop :=
  (q = DeleteLease (identity_of L) /\ exists lease, Release lease ∈ calls /\ identity_of lease = identity_of L) \/
  (exists e, q = RecoverLease e /\ e ∈ t_recoveries t /\ recovery_identity e = identity_of L /\ governed e L).

(** A lease is in the table until a statement removes it. *)
Lemma lease_kept {A} (pool : list (sql A)) t tr pool' t' L :
  pool_run documented pool t tr pool' t' -> t_leases t !! lr_dataset_id L = Some L ->
  t_leases t' !! lr_dataset_id L = Some L \/
  exists q a, (q, a) ∈ tr /\
    (q = DeleteLease (identity_of L) \/ exists e, q = RecoverLease e /\ recovery_identity e = identity_of L /\ e ∈ t_recoveries t').
Proof.
  induction 1 as [|pool t qa pool1 t1 tr pool2 t2 [i q k a t1' Hi Hdoc] Hrest IH]; intros HL; [by left|].
  assert (Hrec : forall e, e ∈ t_recoveries t1' -> e ∈ t_recoveries t2).
  { intros e. refine (pool_run_ind_states documented (fun t => e ∈ t_recoveries t) _ _ _ _ _ _ Hrest).
    intros u q' a' u' _ Hd He. destruct Hd as [? _|_|u' [->| ->]]; try done; by apply exec_recoveries. }
  assert (t_leases t1' !! lr_dataset_id L = Some L \/
    (q = DeleteLease (identity_of L) \/ exists e, q = RecoverLease e /\ recovery_identity e = identity_of L /\ e ∈ t_recoveries t1'))
    as [HL1|Hq].
  { assert (t1' = t \/ t1' = (exec_tables t q).2) as [->| ->] by (destruct Hdoc as [? _|_|u' [->| ->]]; auto); [by left|].
    destruct (exec_leases t q) as [Heq|[(r & -> & Hnone & Heq)|(id & Hq & Hm & Heq)]].
    - left. by rewrite Heq.
    - left. rewrite Heq, lookup_insert_ne; [done|]. intros Hd. congruence.
    - destruct (delete_held t _ id L Hm Heq HL) as [?|Hid]; [by left|]. right.
      destruct Hq as [->|(e & -> & -> & _ & Hrec1)]; [left; by rewrite Hid|right]. exists e. split; [done|]. split; [done|].
      rewrite Hrec1. apply elem_of_app. right. by apply list_elem_of_singleton. }
  - destruct (IH HL1) as [?|(q' & a' & Hin & Hq')]; [by left|right]. exists q', a'. split; [by apply elem_of_cons; right|done].
  - right. exists q, a. split; [by apply elem_of_cons; left|]. destruct Hq as [->|(e & -> & Hid & He)]; [by left|right].
    exists e. split; [done|]. split; [done|]. by apply Hrec.
Qed.

(** A lease that was acquired has been inserted. *)
Lemma acquire_path d owner run deadline now tr L :
  path (lease_program (Acquire d owner run deadline now)) tr (Ok (LO_acquired L)) ->
  L = {| lr_dataset_id := d; lr_lease_owner := owner; lr_dataset_run_id := run; lr_lease_version := 1;
         lr_acquired_at := now; lr_expires_at := deadline |} /\ exists n, (InsertLease L, ARowcount n) ∈ tr.
Proof.
  intros Hp. unfold lease_program in Hp. apply path_bind in Hp as [(e & _ & ?)|(tr1 & L' & tr2 & -> & Hp & Hret)]; [done|].
  inversion Hret; subst. unfold acquire_dataset_lease in Hp.
  destruct (_ || _); [by inversion Hp|]. destruct (is_naive deadline); [by inversion Hp|]. destruct (dt_leb deadline now); [by inversion Hp|].
  apply path_bind in Hp as [(e & _ & ?)|(tr1' & L' & tr2' & -> & Hm & Hp)]; [done|]. inversion Hm as [r Heq|]; subst.
  match goal with E : make_DatasetLeaseState _ = Ok L' |- _ => apply make_lease_Ok in E as -> end.
  apply path_bind in Hp as [(e & _ & ?)|(tr1 & n & tr3 & -> & Hins & Hret2)]; [done|]. inversion Hret2; subst. split; [done|].
  unfold rowcount in Hins. simpl in Hins. inversion Hins as [|q k a tr r Hk]; subst.
  destruct a as [| | | |n'| |]; simpl in Hk; try by inversion Hk.
  - exists n'. apply elem_of_cons. by left.
  - exfalso. inversion Hk as [|q2 k2 a2 tr2 r2 Hk2]; subst. destruct a2 as [[row|]| | | | | |]; simpl in Hk2; try by inversion Hk2.
    destruct (_from_row row); by inversion Hk2.
Qed.

Lemma insert_answered t L n t' : documented t (InsertLease L) (ARowcount n) t' ->
  t_leases t !! lr_dataset_id L = None /\ t_leases t' !! lr_dataset_id L = Some L.
Proof.
  intros Hdoc. inversion Hdoc as [a Hdr| |]; subst. simpl in *.
  destruct (t_leases t !! lr_dataset_id L) eqn:E; simpl in *; [inversion Hdr|]. by rewrite lookup_insert_eq.
Qed.

Lemma recoveries_kept {A} (pool : list (sql A)) t tr pool' t' e :
  pool_run documented pool t tr pool' t' -> e ∈ t_recoveries t -> e ∈ t_recoveries t'.
Proof.
  intros Hrun. refine (pool_run_ind_states documented (fun t => e ∈ t_recoveries t) _ _ _ _ _ _ Hrun).
  intros u q a u' _ Hd He. destruct Hd as [? _|_|u' [->| ->]]; try done; by apply exec_recoveries.
Qed.

(** Between two insertions of leases of one dataset the first was taken away. *)
Lemma taken_between {St} `{LawfulDatabase statement answer St tables documented} calls (s s' : St) pool' first second tr1 n rest m :
  (forall d L, t_leases (view s) !! d = Some L -> lr_dataset_id L = d) -> identities_unique calls (view s) ->
  known calls (view s) first -> lr_dataset_id first = lr_dataset_id second ->
  pool_run db_exec (map lease_program calls) s (tr1 ++ (InsertLease first, ARowcount n) :: rest) pool' s' ->
  (InsertLease second, ARowcount m) ∈ rest ->
  exists tr2 q a tr3, rest = tr2 ++ (q, a) :: tr3 /\ takes_away calls (view s') first q /\ (InsertLease second, ARowcount m) ∈ tr3.
Proof.
  intros Hkeys Huniq Hknown Hd Hrun (mid & tr3 & ->)%list_elem_of_split.
  pose proof (database_refines documented _ _ _ _ _ Hrun) as Hdoc.
  destruct (pool_run_split _ _ _ _ _ _ _ _ Hdoc) as (p1 & t1 & p2 & t2 & _ & H1 & Hrest). apply insert_answered in H1 as [_ H1].
  destruct (pool_run_split _ _ _ _ _ _ _ _ Hrest) as (p3 & t3 & p4 & t4 & Hmid & H2 & Hend).
  pose proof (proj1 (insert_answered _ _ _ _ H2)) as Hnone. rewrite <-Hd in Hnone.
  destruct (lease_kept _ _ _ _ _ _ Hmid H1) as [Hsome|(q & a & (tr2 & mid' & ->)%list_elem_of_split & Hq)]; [congruence|].
  exists tr2, q, a, (mid' ++ (InsertLease second, ARowcount m) :: tr3). split; [by rewrite <-app_assoc|]. split.
  2:{ apply elem_of_app. right. apply elem_of_cons. by left. }
  assert (Hinv : lease_inv calls (view s) (view s)).
  { split; [|done]. intros d' L HL. split; [by apply Hkeys|]. left. by exists d'. }
  destruct (lease_pool_safe calls (view s) (view s)) as [Hst Hsafe].
  assert (Heq : tr1 ++ (InsertLease first, ARowcount n) :: (tr2 ++ (q, a) :: mid') ++ (InsertLease second, ARowcount m) :: tr3 =
    (tr1 ++ (InsertLease first, ARowcount n) :: tr2) ++ (q, a) :: mid' ++ (InsertLease second, ARowcount m) :: tr3)
    by (rewrite <-!app_assoc; simpl; by rewrite <-?app_assoc).
  rewrite Heq in Hdoc.
  destruct (pool_statement documented _ _ _ _ _ _ _ _ _ _ _ _ Hst Hinv Hsafe Hdoc) as (u1 & u2 & _ & _ & Hwf & _ & _).
  destruct Hq as [->|(e & -> & Hid & He)]; [left; by split|right]. exists e. split; [done|]. split.
  - eapply (recoveries_kept _ _ _ _ _ _ Hend). inversion H2 as [a' _| |]; subst. by apply exec_recoveries.
  - split; [done|]. destruct Hwf as (_ & L & HL & HidL & Hg). by rewrite (Huniq first L Hknown HL) by congruence.
Qed.

Lemma two_in_order {A} (x y : A) l : x <> y -> x ∈ l -> y ∈ l ->
  (exists l1 l2, l = l1 ++ x :: l2 /\ y ∈ l2) \/ (exists l1 l2, l = l1 ++ y :: l2 /\ x ∈ l2).
Proof.
  intros Hne (l1 & l2 & ->)%list_elem_of_split [Hy|[->|Hy]%elem_of_cons]%elem_of_app; [right|done|left; by exists l1, l2].
  apply list_elem_of_split in Hy as (l3 & l4 & ->). exists l3, (l4 ++ x :: l2). split; [by rewrite <-app_assoc|].
  apply elem_of_app. right. apply elem_of_cons. by left.
Qed.

(** C3. A dataset lease is exclusive: whatever the interleaving of the calls, when two runs have
    both acquired the lease of a dataset, the lease that was inserted first was taken away before
    the other was inserted, by a statement that released exactly it for a call that does, or by
    an operator's recovery of it, with complete evidence on record and dated at or after the
    expiry of that very lease (as the database shows it: a driver that drops the zone shifts it).
    Dataset run ids are fresh, so that no two leases share an identity. *)
Theorem lease_mutual_exclusion {St} `{LawfulDatabase statement answer St tables documented} calls
    (s s' : St) trace pool' d owner1 owner2 run1 run2 deadline1 deadline2 now1 now2 i j L1 L2 :
  (forall d L, t_leases (view s) !! d = Some L -> lr_dataset_id L = d) ->
  identities_unique calls (view s) ->
  pool_run db_exec (map lease_program calls) s trace pool' s' ->
  calls !! i = Some (Acquire d owner1 run1 deadline1 now1) ->
  calls !! j = Some (Acquire d owner2 run2 deadline2 now2) -> run1 <> run2 ->
  pool' !! i = Some (Done (Ok (LO_acquired L1))) -> pool' !! j = Some (Done (Ok (LO_acquired L2))) ->
  lr_dataset_id L1 = d /\ lr_expires_at L1 = deadline1 /\ lr_dataset_id L2 = d /\ lr_expires_at L2 = deadline2 /\
  exists first second tr1 n tr2 q a tr3,
    (first = L1 /\ second = L2 \/ first = L2 /\ second = L1) /\
    trace = tr1 ++ (InsertLease first, ARowcount n) :: tr2 ++ (q, a) :: tr3 /\
    takes_away calls (view s') first q /\ exists m, (InsertLease second, ARowcount m) ∈ tr3.
Proof.
  intros Hkeys Huniq Hrun Hi Hj Hne Hpi Hpj.
  assert (Hin : forall i owner run deadline now L, calls !! i = Some (Acquire d owner run deadline now) ->
    pool' !! i = Some (Done (Ok (LO_acquired L))) ->
    L = {| lr_dataset_id := d; lr_lease_owner := owner; lr_dataset_run_id := run; lr_lease_version := 1;
           lr_acquired_at := now; lr_expires_at := deadline |} /\ known calls (view s) L /\ exists n, (InsertLease L, ARowcount n) ∈ trace).
  { intros i0 owner run deadline now L Hc Hp.
    destruct (pool_run_path _ _ _ _ _ _ i0 (lease_program (Acquire d owner run deadline now)) (Ok (LO_acquired L)) Hrun) as (tr & Hpath & Hsub); [by rewrite list_lookup_fmap, Hc|done|].
    apply acquire_path in Hpath as (HL & n & Hn). split; [done|]. split.
    - right. exists d, owner, run, deadline, now. split; [by eapply list_elem_of_lookup_2|done].
    - exists n. by eapply elem_of_sublist. }
  destruct (Hin i _ _ _ _ L1 Hi Hpi) as (HL1 & Hk1 & n1 & Hn1), (Hin j _ _ _ _ L2 Hj Hpj) as (HL2 & Hk2 & n2 & Hn2).
  rewrite HL1 at 1 2. rewrite HL2 at 1 2. simpl. do 4 (split; [done|]).
  assert (Hdd : lr_dataset_id L1 = lr_dataset_id L2) by by rewrite HL1, HL2.
  destruct (two_in_order (InsertLease L1, ARowcount n1) (InsertLease L2, ARowcount n2) trace) as [(tr1 & rest & -> & Hr)|(tr1 & rest & -> & Hr)]; [|done|done|..].
  - intros [= HL _]. rewrite HL1, HL2 in HL. congruence.
  - destruct (taken_between calls s s' pool' L1 L2 tr1 n1 rest n2 Hkeys Huniq Hk1 Hdd Hrun Hr) as (tr2 & q & a & tr3 & -> & Ht & Hin3).
    exists L1, L2, tr1, n1, tr2, q, a, tr3. split; [by left|]. split; [done|]. split; [done|]. by exists n2.
  - destruct (taken_between calls s s' pool' L2 L1 tr1 n2 rest n1 Hkeys Huniq Hk2 (eq_sym Hdd) Hrun Hr) as (tr2 & q & a & tr3 & -> & Ht & Hin3).
    exists L2, L1, tr1, n2, tr2, q, a, tr3. split; [by right|]. split; [done|]. split; [done|]. by exists n1.
Qed.

(** A lease is never stolen: whatever the other calls do, the lease of a dataset keeps its row
    until a call releases exactly it, or an operator recovers it with evidence on record and
    after its review deadline; neither time nor another claim takes it away. *)
Theorem lease_never_stolen {St} `{LawfulDatabase statement answer St tables documented} calls
    (s s' : St) trace pool' L :
  (forall d L, t_leases (view s) !! d = Some L -> lr_dataset_id L = d) ->
  t_leases (view s) !! lr_dataset_id L = Some L ->
  pool_run db_exec (map lease_program calls) s trace pool' s' ->
  t_leases (view s') !! lr_dataset_id L = Some L \/ given_up calls (view s) (view s') L.
Proof.
  intros Hkeys HL Hrun.
  destruct (lease_pool_run calls (view s) s trace pool' s') as (_ & [_ Hheld] & _); [|done|].
  { split; [|done]. intros d' L' HL'. split; [by apply Hkeys|]. left. by exists d'. }
  apply Hheld. by left.
Qed.

(** ** Witnesses *)

(** Executions of a schedule on the in-memory database. *)
Lemma schedule_run {A} schedule (pool : list (sql A)) t :
  exists trace, pool_run (@db_exec _ _ _ _ memory_database) pool t trace
    (run_schedule memory_exec schedule pool t).1 (run_schedule memory_exec schedule pool t).2.
Proof. apply run_schedule_sound. Qed.

Definition demo_lease : DatasetLeaseState :=
  {| lr_dataset_id := "orders"; lr_lease_owner := "worker-1"; lr_dataset_run_id := 1; lr_lease_version := 1;
     lr_acquired_at := utc 100; lr_expires_at := utc 200 |}.
Definition demo_next_lease : DatasetLeaseState :=
  {| lr_dataset_id := "orders"; lr_lease_owner := "worker-2"; lr_dataset_run_id := 2; lr_lease_version := 1;
     lr_acquired_at := utc 110; lr_expires_at := utc 210 |}.

Definition demo_lease_calls : list lease_call :=
  [Acquire "orders" "worker-1" 1 (utc 200) (utc 100); Release demo_lease;
   Acquire "orders" "worker-2" 2 (utc 210) (utc 110)].

(** The second run is refused while the first holds the lease. *)
Example demo_lease_conflict :
  (run_schedule memory_exec [0; 2; 2]%nat (map lease_program demo_lease_calls) no_tables).1 !! 2%nat =
  Some (Done (raise "DatasetLeaseConflict" "dataset is already claimed for mutation")).
Proof. vm_compute. reflexivity. Qed.

Lemma demo_known L : known demo_lease_calls no_tables L -> L = demo_lease \/ L = demo_next_lease.
Proof.
  intros [(d & HL)|(d & owner & run & deadline & now & Hin & ->)].
  - change ((∅ : gmap string lease_row) !! d = Some L) in HL. by rewrite lookup_empty in HL.
  - unfold demo_lease_calls in Hin. rewrite !elem_of_cons, elem_of_nil in Hin.
    destruct Hin as [[= -> -> -> -> ->]|[?|[[= -> -> -> -> ->]|[]]]]; [by left|done|by right].
Qed.

Lemma demo_identities : identities_unique demo_lease_calls no_tables.
Proof. intros L1 L2 [-> | ->]%demo_known [-> | ->]%demo_known; done. Qed.

Lemma lease_mutual_exclusion_witness :
  exists trace, pool_run (@db_exec _ _ _ _ memory_database) (map lease_program demo_lease_calls) no_tables trace
      (run_schedule memory_exec [0; 1; 2]%nat (map lease_program demo_lease_calls) no_tables).1
      (run_schedule memory_exec [0; 1; 2]%nat (map lease_program demo_lease_calls) no_tables).2 /\
    exists tr1 q a tr2, trace = tr1 ++ (q, a) :: tr2 /\
      (q = DeleteLease (identity_of demo_lease) \/ q = DeleteLease (identity_of demo_next_lease) \/ exists e, q = RecoverLease e).
Proof.
  destruct (schedule_run [0; 1; 2]%nat (map lease_program demo_lease_calls) no_tables) as [trace Hrun].
  exists trace. split; [exact Hrun|].
  destruct (@lease_mutual_exclusion tables memory_database memory_lawful demo_lease_calls no_tables
    (run_schedule memory_exec [0; 1; 2]%nat (map lease_program demo_lease_calls) no_tables).2 trace
    (run_schedule memory_exec [0; 1; 2]%nat (map lease_program demo_lease_calls) no_tables).1
    "orders" "worker-1" "worker-2" 1 2 (utc 200) (utc 210) (utc 100) (utc 110) 0 2 demo_lease demo_next_lease)
    as (_ & _ & _ & _ & first & second & tr1 & n & tr2 & q & a & tr3 & Horder & -> & Ht & _).
  - intros d' L HL. change ((∅ : gmap string lease_row) !! d' = Some L) in HL. by rewrite lookup_empty in HL.
  - exact demo_identities.
  - exact Hrun.
  - reflexivity.
  - reflexivity.
  - done.
  - vm_compute. reflexivity.
  - vm_compute. reflexivity.
  - exists (tr1 ++ (InsertLease first, ARowcount n) :: tr2), q, a, tr3. rewrite <-app_assoc. split; [reflexivity|].
    destruct Ht as [[-> _]|(e & -> & _)]; [|right; right; by exists e].
    destruct Horder as [[-> _]|[-> _]]; [by left|right; by left].
Defined.

Definition demo_leased : tables := with_leases no_tables {[ "orders" := demo_lease ]}.

Definition demo_rivals : list lease_call :=
  [Acquire "orders" "worker-2" 2 (utc 900) (utc 500);
   Recover (identity_of demo_lease) "operator" "worker lost" "ticket-7" None (utc 150) 9].

Lemma lease_never_stolen_witness :
  t_leases (run_schedule memory_exec [0; 1; 0]%nat (map lease_program demo_rivals) demo_leased).2 !! "orders" =
    Some demo_lease \/
  given_up demo_rivals demo_leased (run_schedule memory_exec [0; 1; 0]%nat (map lease_program demo_rivals) demo_leased).2 demo_lease.
Proof.
  destruct (schedule_run [0; 1; 0]%nat (map lease_program demo_rivals) demo_leased) as [trace Hrun].
  eapply (@lease_never_stolen tables memory_database memory_lawful demo_rivals demo_leased _ trace _ demo_lease).
  - intros d' L HL. change (({[ "orders" := demo_lease ]} : gmap string lease_row) !! d' = Some L) in HL.
    by apply lookup_singleton_Some in HL as [<- <-].
  - vm_compute. reflexivity.
  - exact Hrun.
Defined.

(** A deadline with an offset is taken for UTC when the driver drops the zone: a lease under
    review from 17:00 UTC (12:00 at five hours west) is recovered at 12:30 UTC. *)
Definition hour : Z := 3600000000.
Definition demo_offset_lease : DatasetLeaseState :=
  {| lr_dataset_id := "orders"; lr_lease_owner := "worker-1"; lr_dataset_run_id := 1; lr_lease_version := 1;
     lr_acquired_at := utc (10 * hour); lr_expires_at := Datetime (Some (-5 * hour)) (12 * hour) |}.

Theorem offset_deadline_recovered_early :
  exists e, (run_alone zoneless_exec
      (recover_abandoned_dataset_lease (identity_of demo_offset_lease) "operator" "lost" "ticket" None
         (utc (12 * hour + hour / 2)) 9)
      (with_leases no_tables {[ "orders" := demo_offset_lease ]})).1 = Ok e /\
    dt_utc (rr_recovered_at e) < dt_utc (lr_expires_at demo_offset_lease).
Proof. eexists. split; [vm_compute; reflexivity|]. vm_compute. reflexivity. Qed.
