(* ===== verification/TargetOperation.v ===== *)
(** * Target operations and their journal ([contracts/target_operation.py],
    [control_plane/target_operation_journal.py], [contracts/recovery.py])

    A target operation is the semantic identity of a write to a target.  A run may execute the
    write only after claiming the operation; every change of its state is an optimistic
    compare-and-swap of its row that appends an event in the same transaction.  Clock readings
    and generated ids are arguments; the JSON text of an identity is a parameter. *)

From stdpp Require Import base gmap strings list sorting relations.
From S2P Require Import Prelude PyValue ConfigTypes Temporal Transactions ControlPlane DatasetLease.
#[local] Open Scope Z_scope.

(** ** Contracts *)

(** [json.dumps] with sorted keys, compact separators, ASCII escapes and no NaN. *)
Class SemanticJson := semantic_json : value -> res string.

Inductive UnknownOutcomeResolution := UOR_COMMITTED | UOR_NOT_COMMITTED | UOR_UNRESOLVED.
Inductive TargetOperationStatus := TO_IN_PROGRESS | TO_SUCCEEDED | TO_UNKNOWN | TO_NOT_COMMITTED.
Inductive TargetOperationAction := TA_EXECUTE | TA_SKIP_SUCCEEDED | TA_RECONCILE_REQUIRED.

#[export] Instance UnknownOutcomeResolution_eq_dec : EqDecision UnknownOutcomeResolution.
Proof. solve_decision. Defined.
#[export] Instance TargetOperationStatus_eq_dec : EqDecision TargetOperationStatus.
Proof. solve_decision. Defined.
#[export] Instance TargetOperationAction_eq_dec : EqDecision TargetOperationAction.
Proof. solve_decision. Defined.

(** [status.value] *)
Definition status_value (s : TargetOperationStatus) : string :=
  match s with
  | TO_IN_PROGRESS => "IN_PROGRESS"
  | TO_SUCCEEDED => "SUCCEEDED"
  | TO_UNKNOWN => "UNKNOWN"
  | TO_NOT_COMMITTED => "NOT_COMMITTED"
  end.

(** [TargetOperationStatus(value)] *)
Definition status_of_value (value : string) : res TargetOperationStatus :=
  match list_find (fun s => status_value s = value)
          [TO_IN_PROGRESS; TO_SUCCEEDED; TO_UNKNOWN; TO_NOT_COMMITTED] with
  | Some (_, s) => Ok s
  | None => raise "ValueError" "is not a valid TargetOperationStatus"
  end.

(** The patterns [^[0-9a-f]{64}$] and [^[0-9a-fA-F]{64}$] *)
Definition hex64 (class : Ascii.ascii -> bool) (s : string) : bool := matches_class class 64 64 s.

(** [value.lower()], on ASCII *)
Definition lower_ascii (c : Ascii.ascii) : Ascii.ascii :=
  let n := Ascii.nat_of_ascii c in
  if (65 <=? n)%nat && (n <=? 90)%nat then Ascii.ascii_of_nat (n + 32) else c.
Definition lower (s : string) : string :=
  String.string_of_list_ascii (map lower_ascii (String.list_ascii_of_string s)).

(** [min_length=1] and [max_length=n] *)
Definition bounded (n : nat) (s : string) : bool := nonempty s && within n (Some s).

Record TargetOperationIntent := {
  ti_dataset_id : string;
  ti_operation_kind : string;
  ti_target_reference : string;
  ti_effective_config_hash : string;
  ti_input_fingerprint : string;
  ti_semantic_version : Z
}.
#[export] Instance TargetOperationIntent_eq_dec : EqDecision TargetOperationIntent.
Proof. solve_decision. Defined.

(** The field constraints and [normalize_hashes]. *)
Definition make_TargetOperationIntent (i : TargetOperationIntent) : res TargetOperationIntent :=
  if negb (nonempty (ti_dataset_id i)) || negb (bounded 64 (ti_operation_kind i))
     || negb (bounded 1024 (ti_target_reference i)) || negb (hex64 is_hex (ti_effective_config_hash i))
     || negb (hex64 is_hex (ti_input_fingerprint i)) || (ti_semantic_version i <? 1) then bad_field
  else
    Ok {| ti_dataset_id := ti_dataset_id i; ti_operation_kind := ti_operation_kind i;
          ti_target_reference := ti_target_reference i;
          ti_effective_config_hash := lower (ti_effective_config_hash i);
          ti_input_fingerprint := lower (ti_input_fingerprint i); ti_semantic_version := ti_semantic_version i |}.

Record TargetOperationRecord := {
  tr_operation_key : string;
  tr_dataset_id : string;
  tr_operation_kind : string;
  tr_target_reference : string;
  tr_effective_config_hash : string;
  tr_input_fingerprint : string;
  tr_semantic_version : Z;
  tr_status : TargetOperationStatus;
  tr_owner_dataset_run_id : N;
  tr_attempt : Z;
  tr_version : Z;
  tr_outcome_reference : option string;
  tr_error_code : option string;
  tr_error_message : option string;
  tr_created_at : datetime;
  tr_updated_at : option datetime;
  tr_completed_at : option datetime
}.

Record TargetOperationClaim := { cl_action : TargetOperationAction; cl_record : TargetOperationRecord }.

(** [_ALLOWED_TRANSITIONS] *)
Definition _ALLOWED_TRANSITIONS (before : TargetOperationStatus) : list TargetOperationStatus :=
  match before with
  | TO_IN_PROGRESS => [TO_SUCCEEDED; TO_UNKNOWN; TO_NOT_COMMITTED]
  | TO_UNKNOWN => [TO_SUCCEEDED; TO_UNKNOWN; TO_NOT_COMMITTED]
  | TO_NOT_COMMITTED => [TO_IN_PROGRESS]
  | TO_SUCCEEDED => []
  end.

Definition require_target_operation_transition (before after : TargetOperationStatus) : res unit :=
  if negb (bool_decide (after ∈ _ALLOWED_TRANSITIONS before)) then
    raise "ValueError" "invalid target operation transition"
  else Ok tt.

Definition resolution_for_target_operation (status : TargetOperationStatus) : UnknownOutcomeResolution :=
  match status with
  | TO_SUCCEEDED => UOR_COMMITTED
  | TO_NOT_COMMITTED => UOR_NOT_COMMITTED
  | _ => UOR_UNRESOLVED
  end.

(** The append-only evidence of a transition. *)
Record TargetOperationEvent := {
  te_event_id : N;
  te_operation_key : string;
  te_from_status : option TargetOperationStatus;
  te_to_status : TargetOperationStatus;
  te_owner_dataset_run_id : N;
  te_attempt : Z;
  te_version : Z;
  te_outcome_reference : option string;
  te_error_code : option string;
  te_error_message : option string;
  te_occurred_at : datetime
}.

(** The field constraints and [validate_time]. *)
Definition make_TargetOperationEvent (e : TargetOperationEvent) : res TargetOperationEvent :=
  if negb (hex64 is_lower_hex (te_operation_key e)) || (te_attempt e <? 1) || (te_version e <? 1)
     || negb (within 2048 (te_outcome_reference e)) || negb (within 128 (te_error_code e)) then bad_field
  else _ ← require_aware_datetime (te_occurred_at e) "occurred_at"; Ok e.

Section contracts.
Context `{PyRuntime} `{SemanticJson}.

Definition fingerprint_semantic_payload (payload : value) : res string :=
  canonical ← except ["TypeError"; "ValueError"]
    (fun _ => raise "ValueError" "semantic payload must be deterministic JSON-compatible data")
    (semantic_json payload);
  Ok (sha256_hex canonical).

(** The property [operation_key]. *)
Definition operation_key (i : TargetOperationIntent) : res string :=
  canonical ← semantic_json (VDict
    [("dataset_id", VStr (ti_dataset_id i)); ("effective_config_hash", VStr (ti_effective_config_hash i));
     ("input_fingerprint", VStr (ti_input_fingerprint i)); ("operation_kind", VStr (ti_operation_kind i));
     ("semantic_version", VInt (ti_semantic_version i)); ("target_reference", VStr (ti_target_reference i))]);
  Ok (sha256_hex canonical).

(** The property [intent] of a record. *)
Definition record_intent (r : TargetOperationRecord) : res TargetOperationIntent :=
  make_TargetOperationIntent
    {| ti_dataset_id := tr_dataset_id r; ti_operation_kind := tr_operation_kind r;
       ti_target_reference := tr_target_reference r; ti_effective_config_hash := tr_effective_config_hash r;
       ti_input_fingerprint := tr_input_fingerprint r; ti_semantic_version := tr_semantic_version r |}.

(** [a < b] on optional datetimes: [value is not None and value < created_at] *)
Definition precedes_creation (value : option datetime) (created_at : datetime) : bool :=
  match value with Some d => dt_utc d <? dt_utc created_at | None => false end.
Definition naive_option (value : option datetime) : bool :=
  match value with Some d => is_naive d | None => false end.

Definition validate_record (r : TargetOperationRecord) : res unit :=
  i ← record_intent r;
  key ← operation_key i;
  if negb (String.eqb (tr_operation_key r) key) then
    raise "ValueError" "operation_key does not match semantic target operation intent"
  else
    _ ← require_aware_datetime (tr_created_at r) "created_at";
    if naive_option (tr_updated_at r) then raise "ValueError" "updated_at must be timezone-aware"
    else if precedes_creation (tr_updated_at r) (tr_created_at r) then
      raise "ValueError" "updated_at cannot be before created_at"
    else if naive_option (tr_completed_at r) then raise "ValueError" "completed_at must be timezone-aware"
    else if precedes_creation (tr_completed_at r) (tr_created_at r) then
      raise "ValueError" "completed_at cannot be before created_at"
    else if bool_decide (tr_status r = TO_IN_PROGRESS) && is_some (tr_completed_at r) then
      raise "ValueError" "IN_PROGRESS operation cannot have completed_at"
    else if bool_decide (tr_status r = TO_SUCCEEDED) && negb (is_some (tr_completed_at r)) then
      raise "ValueError" "SUCCEEDED operation requires completed_at"
    else Ok tt.

(** The field constraints, [normalize_hashes] and [validate_record]. *)
Definition make_TargetOperationRecord (r : TargetOperationRecord) : res TargetOperationRecord :=
  if negb (hex64 is_lower_hex (tr_operation_key r)) || negb (nonempty (tr_dataset_id r))
     || negb (bounded 64 (tr_operation_kind r)) || negb (bounded 1024 (tr_target_reference r))
     || negb (hex64 is_hex (tr_effective_config_hash r)) || negb (hex64 is_hex (tr_input_fingerprint r))
     || (tr_semantic_version r <? 1) || (tr_attempt r <? 1) || (tr_version r <? 1)
     || negb (within 2048 (tr_outcome_reference r))
     || negb (within 128 (tr_error_code r)) then bad_field
  else
    let r := {| tr_operation_key := tr_operation_key r; tr_dataset_id := tr_dataset_id r;
                tr_operation_kind := tr_operation_kind r; tr_target_reference := tr_target_reference r;
                tr_effective_config_hash := lower (tr_effective_config_hash r);
                tr_input_fingerprint := lower (tr_input_fingerprint r);
                tr_semantic_version := tr_semantic_version r; tr_status := tr_status r;
                tr_owner_dataset_run_id := tr_owner_dataset_run_id r; tr_attempt := tr_attempt r;
                tr_version := tr_version r; tr_outcome_reference := tr_outcome_reference r;
                tr_error_code := tr_error_code r; tr_error_message := tr_error_message r;
                tr_created_at := tr_created_at r; tr_updated_at := tr_updated_at r;
                tr_completed_at := tr_completed_at r |} in
    _ ← validate_record r;
    Ok r.
End contracts.

(** ** The journal *)

(** [_aware] *)
Definition _aware (value : option datetime) : option datetime := aware <$> value.

(** [status.value if status is not None else None], and back *)
Definition _event_from_row (row : event_row) : res TargetOperationEvent :=
  from_status ← match oe_from_status row with
                | Some value => s ← status_of_value value; Ok (Some s)
                | None => Ok None
                end;
  to_status ← status_of_value (oe_to_status row);
  make_TargetOperationEvent
    {| te_event_id := oe_event_id row; te_operation_key := oe_operation_key row;
       te_from_status := from_status; te_to_status := to_status;
       te_owner_dataset_run_id := oe_owner_dataset_run_id row; te_attempt := oe_attempt row;
       te_version := oe_version row; te_outcome_reference := oe_outcome_reference row;
       te_error_code := oe_error_code row; te_error_message := oe_error_message row;
       te_occurred_at := aware (oe_occurred_at row) |}.

(** The row [_insert_event] inserts. *)
Definition new_event (event_id : N) (operation_key : string) (from_status : option TargetOperationStatus)
    (to_status : TargetOperationStatus) (owner : N) (attempt version : Z)
    (outcome_reference error_code error_message : option string) (occurred_at : datetime) : event_row :=
  {| oe_event_id := event_id; oe_operation_key := operation_key; oe_from_status := status_value <$> from_status;
     oe_to_status := status_value to_status; oe_owner_dataset_run_id := owner; oe_attempt := attempt;
     oe_version := version; oe_outcome_reference := outcome_reference; oe_error_code := error_code;
     oe_error_message := error_message; oe_occurred_at := occurred_at |}.

Definition select_operation (key : string) : sql (option operation_row) :=
  Stmt (SelectOperation key) (fun a => Done (match a with AOperation r => Ok r | _ => sql_error a end)).

Section journal.
Context `{PyRuntime} `{SemanticJson}.

Definition _record_from_row (row : operation_row) : res TargetOperationRecord :=
  status ← status_of_value (op_status row);
  make_TargetOperationRecord
    {| tr_operation_key := op_operation_key row; tr_dataset_id := op_dataset_id row;
       tr_operation_kind := op_operation_kind row; tr_target_reference := op_target_reference row;
       tr_effective_config_hash := op_effective_config_hash row;
       tr_input_fingerprint := op_input_fingerprint row; tr_semantic_version := op_semantic_version row;
       tr_status := status; tr_owner_dataset_run_id := op_owner_dataset_run_id row;
       tr_attempt := op_attempt row; tr_version := op_version row;
       tr_outcome_reference := op_outcome_reference row; tr_error_code := op_error_code row;
       tr_error_message := op_error_message row; tr_created_at := aware (op_created_at row);
       tr_updated_at := _aware (op_updated_at row); tr_completed_at := _aware (op_completed_at row) |}.

Definition _assert_semantic_identity (record : TargetOperationRecord) (intent : TargetOperationIntent) : res unit :=
  key ← operation_key intent;
  stored ← record_intent record;
  if negb (String.eqb (tr_operation_key record) key) || negb (bool_decide (stored = intent)) then
    raise "TargetOperationSemanticConflict" "target operation semantic identity differs"
  else Ok tt.

Definition read_target_operation (key : string) : sql (option TargetOperationRecord) :=
  row ← select_operation key;
  match row with
  | Some row => record ← pure (_record_from_row row); mret (Some record)
  | None => mret None
  end.

Definition read_target_operation_events (key : string) : sql (list TargetOperationEvent) :=
  Stmt (SelectOperationEvents key) (fun a => Done (match a with
    | AEvents rows => mapM_res _event_from_row rows
    | _ => sql_error a
    end)).

(** The record read back after a transition. *)
Definition read_back (key : string) : sql TargetOperationRecord :=
  updated ← read_target_operation key;
  match updated with
  | None => pure (raise "AssertionError" "updated is not None")
  | Some record => mret record
  end.

(** The row of an operation that is claimed for the first time. *)
Definition first_row (key : string) (intent : TargetOperationIntent) (dataset_run_id : N) (attempt : Z)
    (now : datetime) : operation_row :=
  {| op_operation_key := key; op_dataset_id := ti_dataset_id intent;
     op_operation_kind := ti_operation_kind intent; op_target_reference := ti_target_reference intent;
     op_effective_config_hash := lower (ti_effective_config_hash intent);
     op_input_fingerprint := lower (ti_input_fingerprint intent);
     op_semantic_version := ti_semantic_version intent; op_status := status_value TO_IN_PROGRESS;
     op_owner_dataset_run_id := dataset_run_id; op_attempt := attempt; op_version := 1;
     op_outcome_reference := None; op_error_code := None; op_error_message := None;
     op_created_at := now; op_updated_at := None; op_completed_at := None |}.

(** The record of a first claim is built inside the transaction, after its inserts; it is the
    record of the inserted row, and is built here before them so that its failure leaves the
    tables as they are. *)
Definition claim_transaction (key : string) (intent : TargetOperationIntent) (dataset_run_id : N)
    (attempt : Z) (now : datetime) (event_id : N) : sql TargetOperationClaim :=
  row ← select_operation key;
  match row with
  | None =>
    record ← pure (_record_from_row (first_row key intent dataset_run_id attempt now));
    _ ← rowcount (InsertOperation (first_row key intent dataset_run_id attempt now)
          (new_event event_id key None TO_IN_PROGRESS dataset_run_id attempt 1 None None None now));
    mret {| cl_action := TA_EXECUTE; cl_record := record |}
  | Some row =>
    current ← pure (_record_from_row row);
    _ ← pure (_assert_semantic_identity current intent);
    match tr_status current with
    | TO_SUCCEEDED => mret {| cl_action := TA_SKIP_SUCCEEDED; cl_record := current |}
    | TO_IN_PROGRESS | TO_UNKNOWN => mret {| cl_action := TA_RECONCILE_REQUIRED; cl_record := current |}
    | TO_NOT_COMMITTED =>
      _ ← pure (require_target_operation_transition (tr_status current) TO_IN_PROGRESS);
      let next_version := tr_version current + 1 in
      n ← rowcount (UpdateOperation key (tr_version current) (Some (status_value TO_NOT_COMMITTED))
            {| ov_status := status_value TO_IN_PROGRESS; ov_owner_dataset_run_id := dataset_run_id;
               ov_attempt := attempt; ov_version := next_version; ov_outcome_reference := None;
               ov_error_code := None; ov_error_message := None; ov_updated_at := now;
               ov_completed_at := None |}
            (new_event event_id key (Some (tr_status current)) TO_IN_PROGRESS dataset_run_id attempt
               next_version None None None now));
      if negb (Nat.eqb n 1) then
        pure (raise "TargetOperationVersionConflict" "changed concurrently during retry claim")
      else
        updated ← read_back key;
        mret {| cl_action := TA_EXECUTE; cl_record := updated |}
    end
  end.

Definition claim_target_operation (intent : TargetOperationIntent) (dataset_run_id : N) (attempt : Z)
    (now : datetime) (event_id : N) : sql TargetOperationClaim :=
  if attempt <? 1 then pure (raise "ValueError" "attempt must be >= 1")
  else
    key ← pure (operation_key intent);
    prog_except ["IntegrityError"]
      (fun _ => pure (raise "TargetOperationVersionConflict" "was claimed concurrently"))
      (claim_transaction key intent dataset_run_id attempt now event_id).

Definition transition_target_operation (key : string) (expected_version : Z) (status : TargetOperationStatus)
    (dataset_run_id : N) (attempt : Z) (outcome_reference error_code error_message : option string)
    (now : datetime) (event_id : N) : sql TargetOperationRecord :=
  if expected_version <? 1 then pure (raise "ValueError" "expected_version must be >= 1")
  else if attempt <? 1 then pure (raise "ValueError" "attempt must be >= 1")
  else
    row ← select_operation key;
    match row with
    | None => pure (raise "KeyError" "target operation not found")
    | Some row =>
      current ← pure (_record_from_row row);
      if negb (tr_version current =? expected_version) then
        pure (raise "TargetOperationVersionConflict" "expected version differs from the current version")
      else
        _ ← pure (require_target_operation_transition (tr_status current) status);
        let next_version := tr_version current + 1 in
        let completed_at := if bool_decide (status = TO_IN_PROGRESS) then None else Some now in
        n ← rowcount (UpdateOperation key expected_version None
              {| ov_status := status_value status; ov_owner_dataset_run_id := dataset_run_id;
                 ov_attempt := attempt; ov_version := next_version; ov_outcome_reference := outcome_reference;
                 ov_error_code := error_code; ov_error_message := error_message; ov_updated_at := now;
                 ov_completed_at := completed_at |}
              (new_event event_id key (Some (tr_status current)) status dataset_run_id attempt next_version
                 outcome_reference error_code error_message now));
        if negb (Nat.eqb n 1) then
          pure (raise "TargetOperationVersionConflict" "changed concurrently")
        else read_back key
    end.

Definition mark_target_operation_succeeded (key : string) (expected_version : Z) (dataset_run_id : N)
    (attempt : Z) (outcome_reference : option string) (now : datetime) (event_id : N) : sql TargetOperationRecord :=
  transition_target_operation key expected_version TO_SUCCEEDED dataset_run_id attempt outcome_reference
    None None now event_id.

Definition mark_target_operation_unknown (key : string) (expected_version : Z) (dataset_run_id : N)
    (attempt : Z) (error_code : string) (error_message outcome_reference : option string)
    (now : datetime) (event_id : N) : sql TargetOperationRecord :=
  transition_target_operation key expected_version TO_UNKNOWN dataset_run_id attempt outcome_reference
    (Some error_code) error_message now event_id.

Definition mark_target_operation_not_committed (key : string) (expected_version : Z) (dataset_run_id : N)
    (attempt : Z) (outcome_reference : option string) (now : datetime) (event_id : N) : sql TargetOperationRecord :=
  transition_target_operation key expected_version TO_NOT_COMMITTED dataset_run_id attempt outcome_reference
    None None now event_id.

(** The status a resolution records. *)
Definition status_of_resolution (resolution : UnknownOutcomeResolution) : TargetOperationStatus :=
  match resolution with
  | UOR_COMMITTED => TO_SUCCEEDED
  | UOR_NOT_COMMITTED => TO_NOT_COMMITTED
  | UOR_UNRESOLVED => TO_UNKNOWN
  end.

Definition reconcile_target_operation (key : string) (expected_version : Z)
    (resolution : UnknownOutcomeResolution) (dataset_run_id : N) (attempt : Z)
    (outcome_reference error_message : option string) (now : datetime) (event_id : N) :
    sql TargetOperationRecord :=
  current ← read_target_operation key;
  match current with
  | None => pure (raise "KeyError" "target operation not found")
  | Some current =>
    if bool_decide (tr_status current = TO_SUCCEEDED) then
      if bool_decide (resolution = UOR_COMMITTED) then mret current
      else pure (raise "ValueError" "SUCCEEDED target operation cannot be reconciled backwards")
    else
      transition_target_operation key expected_version (status_of_resolution resolution) dataset_run_id attempt
        outcome_reference
        (if bool_decide (resolution = UOR_UNRESOLVED) then Some "UNKNOWN_COMMIT_UNRESOLVED" else None)
        error_message now event_id
  end.
End journal.

(** ** The invariant of the journal *)

Definition events_of (t : tables) (key : string) : list event_row :=
  filter (fun e => oe_operation_key e = key) (t_events t).

(** The event [e] is an allowed transition from the state the event [p] left. *)
Definition follows (p e : event_row) : Prop :=
  oe_from_status e = Some (oe_to_status p) /\
  exists before after, oe_to_status p = status_value before /\ oe_to_status e = status_value after /\
    after ∈ _ALLOWED_TRANSITIONS before.

(** Versions count from 1, the first event starts the operation, each next one follows. *)
Definition chain (es : list event_row) : Prop :=
  forall i e, es !! i = Some e -> oe_version e = Z.of_nat i + 1 /\
    match i with
    | O => oe_from_status e = None /\ oe_to_status e = status_value TO_IN_PROGRESS
    | S j => exists p, es !! j = Some p /\ follows p e
    end.

(** The row is in the state the event left. *)
Definition records (r : operation_row) (e : event_row) : Prop :=
  op_version r = oe_version e /\ op_status r = oe_to_status e /\
  op_owner_dataset_run_id r = oe_owner_dataset_run_id e /\ op_attempt r = oe_attempt e /\
  op_outcome_reference r = oe_outcome_reference e /\ op_error_code r = oe_error_code e /\
  op_error_message r = oe_error_message e.

(** What holds of the tables of operations and events. *)
Record journal_inv (t : tables) : Prop := {
  ji_rows key r : t_operations t !! key = Some r ->
    op_operation_key r = key /\ exists e, last (events_of t key) = Some e /\ records r e;
  ji_absent key : t_operations t !! key = None -> events_of t key = [];
  ji_chain key : chain (events_of t key);
  ji_ids : NoDup (map oe_event_id (t_events t))
}.

Lemma status_value_inj s1 s2 : status_value s1 = status_value s2 -> s1 = s2.
Proof. by destruct s1, s2. Qed.

(** Only an operation that did not commit is executed again. *)
Lemma retry_from before : TO_IN_PROGRESS ∈ _ALLOWED_TRANSITIONS before -> before = TO_NOT_COMMITTED.
Proof. intros Hin. apply (bool_decide_eq_true_2 _) in Hin. by destruct before. Qed.

Lemma status_of_value_Ok v s : status_of_value v = Ok s -> v = status_value s.
Proof.
  unfold status_of_value. destruct (list_find _ _) as [[i s']|] eqn:E; [|done]. intros [= <-].
  apply list_find_Some in E as (_ & <- & _). done.
Qed.

Lemma chain_snoc es e :
  chain es ->
  match last es with
  | None => oe_version e = 1 /\ oe_from_status e = None /\ oe_to_status e = status_value TO_IN_PROGRESS
  | Some p => oe_version e = oe_version p + 1 /\ follows p e
  end -> chain (es ++ [e]).
Proof.
  intros Hch Hlast i x Hi. destruct (lookup_app_Some es [e] i x) as [Hto _]. destruct (Hto Hi) as [Hold|[Hge Hnew]].
  - destruct (Hch i x Hold) as [Hv Hf]. split; [done|]. destruct i as [|j]; [done|].
    destruct Hf as (p & Hp & Hfp). exists p. split; [|done]. rewrite lookup_app_l; [done|].
    by apply lookup_lt_Some in Hp.
  - apply list_lookup_singleton_Some in Hnew as [Hz <-]. assert (i = length es) as -> by lia.
    destruct (last es) as [p|] eqn:El.
    + apply last_Some in El as [es' ->]. rewrite length_app in *. simpl in *.
      destruct (Hch (length es') p) as [Hv _]; [by rewrite lookup_app_r, Nat.sub_diag by lia|].
      destruct Hlast as [Hve Hfe]. split; [lia|].
      replace (length es' + 1)%nat with (S (length es')) by lia. exists p. split; [|done].
      rewrite <-app_assoc, lookup_app_r by lia. by rewrite Nat.sub_diag.
    + apply last_None in El as ->. simpl. split; [lia|]. tauto.
Qed.

(** The version of an event is its place, so the last event is the only one of its version. *)
Lemma chain_version es p e : chain es -> p ∈ es -> last es = Some e -> oe_version p = oe_version e -> p = e.
Proof.
  intros Hch [i Hi]%list_elem_of_lookup [es' ->]%last_Some Hv.
  destruct (Hch i p Hi) as [Hp _]. destruct (Hch (length es') e) as [He _];
    [by rewrite lookup_app_r, Nat.sub_diag by lia|].
  assert (i = length es') as -> by lia. rewrite lookup_app_r, Nat.sub_diag in Hi by lia. by injection Hi.
Qed.

Lemma elem_of_events_of t key e : e ∈ events_of t key <-> e ∈ t_events t /\ oe_operation_key e = key.
Proof. unfold events_of. rewrite list_elem_of_filter. tauto. Qed.

(** Two events of an operation with one version are the same. *)
Lemma journal_same_version t e1 e2 :
  journal_inv t -> e1 ∈ t_events t -> e2 ∈ t_events t -> oe_operation_key e1 = oe_operation_key e2 ->
  oe_version e1 = oe_version e2 -> e1 = e2.
Proof.
  intros Hinv H1 H2 Hk Hv.
  destruct (list_elem_of_lookup_1 (events_of t (oe_operation_key e1)) e1) as [i1 Hi1]; [by apply elem_of_events_of|].
  destruct (list_elem_of_lookup_1 (events_of t (oe_operation_key e1)) e2) as [i2 Hi2]; [by apply elem_of_events_of|].
  destruct (ji_chain t Hinv _ i1 e1 Hi1) as [Hv1 _], (ji_chain t Hinv _ i2 e2 Hi2) as [Hv2 _].
  assert (i1 = i2) as -> by lia. congruence.
Qed.

(** What a statement does to the journal. *)
Lemma exec_journal t q :
  (t_operations (exec_tables t q).2 = t_operations t /\ t_events (exec_tables t q).2 = t_events t) \/
  exists r e, t_operations (exec_tables t q).2 = <[op_operation_key r := r]> (t_operations t) /\
    t_events (exec_tables t q).2 = t_events t ++ [e] /\ oe_event_id e ∉ map oe_event_id (t_events t) /\
    ((q = InsertOperation r e /\ t_operations t !! op_operation_key r = None) \/
     (exists key version status v r0, q = UpdateOperation key version status v e /\ r = set_values r0 v /\
        t_operations t !! key = Some r0 /\ op_version r0 = version)).
Proof.
  destruct q as [d|r|id|d|e|key|key|r e|key v st vals e]; cbn [exec_tables]; try (by left).
  - left. by destruct (t_leases t !! lr_dataset_id r).
  - left. by destruct (matching_lease t id).
  - left. case_bool_decide; [done|]. by destruct (matching_lease t _).
  - case_bool_decide as Hk; [by left|]. case_bool_decide as Hid; [by left|]. right.
    exists r, e. split_and!; try done. left. split; [done|]. by apply eq_None_not_Some.
  - unfold matching_operation. destruct (t_operations t !! key) as [r0|] eqn:Er; [|by left].
    destruct (op_version r0 =? v) eqn:Ev; [|by left]. destruct (match st with Some _ => _ | None => _ end); [|by left].
    simpl. case_bool_decide as Hid; [by left|]. right. exists (set_values r0 vals), e. split_and!; try done. right.
    exists key, v, st, vals, r0. split_and!; try done. by apply Z.eqb_eq.
Qed.

Lemma events_of_snoc t t' e key :
  t_events t' = t_events t ++ [e] ->
  events_of t' key = if decide (oe_operation_key e = key) then events_of t key ++ [e] else events_of t key.
Proof.
  intros He. unfold events_of. rewrite He, filter_app, filter_cons, filter_nil.
  destruct (decide _); [done|apply app_nil_r].
Qed.

(** Writing a row with the event it records, next in its operation's chain. *)
Lemma journal_extend t t' r e :
  journal_inv t -> t_operations t' = <[op_operation_key r := r]> (t_operations t) ->
  t_events t' = t_events t ++ [e] -> oe_event_id e ∉ map oe_event_id (t_events t) ->
  oe_operation_key e = op_operation_key r -> records r e ->
  match last (events_of t (op_operation_key r)) with
  | None => oe_version e = 1 /\ oe_from_status e = None /\ oe_to_status e = status_value TO_IN_PROGRESS
  | Some p => oe_version e = oe_version p + 1 /\ follows p e
  end -> journal_inv t'.
Proof.
  intros Hinv Hops Hev Hid Hkey Hrec Hnext. pose proof (fun key => events_of_snoc t t' e key Hev) as Hof.
  split.
  - intros key r'. rewrite Hops, lookup_insert_Some, Hof. intros [[<- <-]|[Hne Hr]].
    + split; [done|]. exists e. rewrite decide_True by done. by rewrite last_snoc.
    + rewrite decide_False by congruence. by apply (ji_rows t Hinv).
  - intros key. rewrite Hops, lookup_insert_None, Hof. intros [Hr Hne].
    rewrite decide_False by congruence. by apply (ji_absent t Hinv).
  - intros key. rewrite Hof. destruct (decide _) as [<-|_]; [|apply (ji_chain t Hinv)].
    rewrite Hkey. by apply chain_snoc; [apply (ji_chain t Hinv)|].
  - rewrite Hev, map_app. apply NoDup_app. split; [apply (ji_ids t Hinv)|]. split.
    + intros x Hx. simpl. rewrite list_elem_of_singleton. by intros ->.
    + apply NoDup_singleton.
Qed.

(** ** The processes of a journal *)

Inductive journal_call :=
| Claim (intent : TargetOperationIntent) (dataset_run_id : N) (attempt : Z) (now : datetime) (event_id : N)
| Transition (key : string) (expected_version : Z) (status : TargetOperationStatus) (dataset_run_id : N)
    (attempt : Z) (outcome_reference error_code error_message : option string) (now : datetime) (event_id : N)
| MarkSucceeded (key : string) (expected_version : Z) (dataset_run_id : N) (attempt : Z)
    (outcome_reference : option string) (now : datetime) (event_id : N)
| MarkUnknown (key : string) (expected_version : Z) (dataset_run_id : N) (attempt : Z) (error_code : string)
    (error_message outcome_reference : option string) (now : datetime) (event_id : N)
| MarkNotCommitted (key : string) (expected_version : Z) (dataset_run_id : N) (attempt : Z)
    (outcome_reference : option string) (now : datetime) (event_id : N)
| Reconcile (key : string) (expected_version : Z) (resolution : UnknownOutcomeResolution) (dataset_run_id : N)
    (attempt : Z) (outcome_reference error_message : option string) (now : datetime) (event_id : N)
| ReadOperation (key : string)
| ReadEvents (key : string).

Inductive journal_outcome :=
| JO_claim (claim : TargetOperationClaim)
| JO_record (record : TargetOperationRecord)
| JO_read (record : option TargetOperationRecord)
| JO_events (events : list TargetOperationEvent).

(** The transition a call asks for: operation, expected version, status and event id. *)
Definition requested (call : journal_call) : option (string * Z * TargetOperationStatus * N) :=
  match call with
  | Transition key v status _ _ _ _ _ _ id => Some (key, v, status, id)
  | MarkSucceeded key v _ _ _ _ id => Some (key, v, TO_SUCCEEDED, id)
  | MarkUnknown key v _ _ _ _ _ _ id => Some (key, v, TO_UNKNOWN, id)
  | MarkNotCommitted key v _ _ _ _ id => Some (key, v, TO_NOT_COMMITTED, id)
  | Reconcile key v resolution _ _ _ _ _ id => Some (key, v, status_of_resolution resolution, id)
  | _ => None
  end.

Section processes.
Context `{PyRuntime} `{SemanticJson}.

Definition journal_program (call : journal_call) : sql journal_outcome :=
  match call with
  | Claim intent run attempt now id =>
    claim ← claim_target_operation intent run attempt now id; mret (JO_claim claim)
  | Transition key v status run attempt oref code msg now id =>
    r ← transition_target_operation key v status run attempt oref code msg now id; mret (JO_record r)
  | MarkSucceeded key v run attempt oref now id =>
    r ← mark_target_operation_succeeded key v run attempt oref now id; mret (JO_record r)
  | MarkUnknown key v run attempt code msg oref now id =>
    r ← mark_target_operation_unknown key v run attempt code msg oref now id; mret (JO_record r)
  | MarkNotCommitted key v run attempt oref now id =>
    r ← mark_target_operation_not_committed key v run attempt oref now id; mret (JO_record r)
  | Reconcile key v resolution run attempt oref msg now id =>
    r ← reconcile_target_operation key v resolution run attempt oref msg now id; mret (JO_record r)
  | ReadOperation key => r ← read_target_operation key; mret (JO_read r)
  | ReadEvents key => es ← read_target_operation_events key; mret (JO_events es)
  end.

(** The event a call appends. *)
Definition writes (call : journal_call) (e : event_row) : Prop :=
  match call with
  | Claim intent run attempt _ id =>
    operation_key intent = Ok (oe_operation_key e) /\ oe_to_status e = status_value TO_IN_PROGRESS /\
    oe_owner_dataset_run_id e = run /\ oe_attempt e = attempt /\ oe_event_id e = id
  | _ =>
    match requested call with
    | Some (key, v, status, id) =>
      oe_operation_key e = key /\ oe_version e = v + 1 /\ oe_to_status e = status_value status /\ oe_event_id e = id
    | None => False
    end
  end.
End processes.

(** ** Safety *)

Section safety.
Context `{PyRuntime} `{SemanticJson}.
(** The calls of the pool, and the tables before it runs. *)
Context (calls : list journal_call) (start : tables).
Implicit Types (t : tables) (q : statement) (r : operation_row) (e p : event_row).

Definition authored e : Prop := exists call, call ∈ calls /\ writes call e.

(** The events are those of the start, followed by events of the calls. *)
Definition pool_inv t : Prop :=
  journal_inv t /\ exists new, t_events t = t_events start ++ new /\ Forall authored new.

Definition succeeded_row t key r : Prop :=
  t_operations t !! key = Some r /\ op_status r = status_value TO_SUCCEEDED.

Definition journal_later t t' : Prop :=
  t_events t `prefix_of` t_events t' /\ forall key r, succeeded_row t key r -> succeeded_row t' key r.

(** An UPDATE is for the state an event of the journal left, and its event follows that one. *)
Definition journal_wf t q : Prop :=
  match q with
  | InsertOperation r e =>
    oe_operation_key e = op_operation_key r /\ oe_version e = 1 /\ oe_from_status e = None /\
    oe_to_status e = status_value TO_IN_PROGRESS /\ records r e /\ authored e
  | UpdateOperation key version _ v e =>
    oe_operation_key e = key /\ oe_version e = version + 1 /\ (forall r, records (set_values r v) e) /\ authored e /\
    exists p, p ∈ t_events t /\ oe_operation_key p = key /\ oe_version p = version /\ follows p e
  | _ => True
  end.

(** The state of the operation before a well-formed write. *)
Lemma exec_step t q :
  journal_inv t -> journal_wf t q ->
  (t_operations (exec_tables t q).2 = t_operations t /\ t_events (exec_tables t q).2 = t_events t) \/
  exists r e, t_operations (exec_tables t q).2 = <[op_operation_key r := r]> (t_operations t) /\
    t_events (exec_tables t q).2 = t_events t ++ [e] /\ oe_event_id e ∉ map oe_event_id (t_events t) /\
    oe_operation_key e = op_operation_key r /\ records r e /\ authored e /\
    match t_operations t !! op_operation_key r, last (events_of t (op_operation_key r)) with
    | None, None => oe_version e = 1 /\ oe_from_status e = None /\ oe_to_status e = status_value TO_IN_PROGRESS
    | Some r0, Some p => records r0 p /\ oe_version e = oe_version p + 1 /\ follows p e
    | _, _ => False
    end.
Proof using Type.
  intros Hinv Hwf. destruct (exec_journal t q) as [?|(r & e & Hops & Hev & Hid & Hq)]; [by left|right].
  exists r, e. split_and!; try done.
  - by destruct Hq as [[-> _]|(key & v & st & vals & r0 & -> & -> & Hr0 & <-)]; destruct Hwf as (Hk & _);
      [|rewrite Hk; simpl; destruct (ji_rows t Hinv _ _ Hr0) as [-> _]].
  - destruct Hq as [[-> _]|(key & v & st & vals & r0 & -> & -> & Hr0 & <-)]; by apply Hwf.
  - destruct Hq as [[-> _]|(key & v & st & vals & r0 & -> & -> & Hr0 & <-)]; by apply Hwf.
  - destruct Hq as [[-> Hnone]|(key & v & st & vals & r0 & -> & -> & Hr0 & <-)]; cbn [journal_wf] in Hwf.
    + rewrite Hnone, (ji_absent t Hinv _ Hnone). simpl. tauto.
    + destruct (ji_rows t Hinv _ _ Hr0) as (Hk0 & p & Hlast & Hrec). simpl. rewrite Hk0, Hr0, Hlast.
      destruct Hwf as (Hk & Hv & _ & _ & p' & Hp' & Hkp & Hvp & Hf).
      assert (p' = p) as ->; [|by rewrite Hv, Hvp].
      eapply chain_version; [apply (ji_chain t Hinv key)|by apply elem_of_events_of|done|].
      destruct Hrec as [<- _]. done.
Qed.

Lemma exec_journal_inv t q : pool_inv t -> journal_wf t q -> pool_inv (exec_tables t q).2.
Proof using Type.
  intros [Hinv (new & Hnew & Hauth)] Hwf.
  destruct (exec_step t q Hinv Hwf) as [[Hops Hev]|(r & e & Hops & Hev & Hid & Hk & Hrec & Ha & Hnext)].
  - split; [|exists new; by rewrite Hev].
    assert (forall key, events_of (exec_tables t q).2 key = events_of t key) as Hof by (intros key; unfold events_of; by rewrite Hev).
    split; intros; rewrite ?Hof, ?Hev in *; rewrite ?Hops in *; by apply Hinv.
  - split.
    + eapply (journal_extend t); try done.
      destruct (t_operations t !! op_operation_key r), (last _); try done. tauto.
    + exists (new ++ [e]). rewrite Hev, Hnew, app_assoc. split; [done|]. by apply Forall_app; split; [|apply Forall_singleton].
Qed.

Lemma exec_journal_later t q : pool_inv t -> journal_wf t q -> journal_later t (exec_tables t q).2.
Proof using Type.
  intros [Hinv _] Hwf.
  destruct (exec_step t q Hinv Hwf) as [[Hops Hev]|(r & e & Hops & Hev & Hid & Hk & Hrec & Ha & Hnext)];
    (split; [rewrite Hev; first [done|by eexists]|]); intros key r' [Hr' Hst]; split; try done; rewrite Hops; [done|].
  destruct (decide (op_operation_key r = key)) as [<-|Hne]; [|by rewrite lookup_insert_ne].
  exfalso. rewrite Hr' in Hnext. destruct (last _) as [p|]; [|done].
  destruct Hnext as ((_ & Hs & _) & _ & _ & before & after & Hb & _ & Hin).
  rewrite Hst, Hb in Hs. apply status_value_inj in Hs as <-. by apply not_elem_of_nil in Hin.
Qed.

#[export] Instance journal_state : SharedState documented pool_inv journal_later journal_wf.
Proof using Type.
  split.
  - intros t. by split.
  - intros t1 t2 t3 [H1 K1] [H2 K2]. split; [by etrans|auto].
  - intros t q a t' Hinv Hwf Hdoc. assert (journal_later t t) as Hrefl by done.
    destruct Hdoc as [a _|_|t' [->| ->]]; try done; by apply exec_journal_later.
  - intros t q a t' Hinv Hwf Hdoc. destruct Hdoc as [a _|_|t' [->| ->]]; try done; by apply exec_journal_inv.
  - intros t t' q [[es Hev] _]. destruct q; try done. cbn [journal_wf]. rewrite Hev.
    intros (? & ? & ? & ? & p & Hp & ?). split_and!; try done. exists p. split; [|done]. apply elem_of_app. by left.
Qed.
End safety.

(** ** Each call is safe *)

(** Runs a program to its next statement. *)
Ltac prog_step := cbn [mbind prog_bind pure prog_then mret prog_ret safe].

Section calls.
Context `{PyRuntime} `{SemanticJson}.
Context (calls : list journal_call) (start : tables).
#[local] Notation jsafe := (safe documented (pool_inv calls start) journal_later (journal_wf calls)).

(** The call has appended its event to the events of the start. *)
Definition written (call : journal_call) (t : tables) : Prop :=
  exists e, e ∈ t_events t /\ e ∉ t_events start /\ writes call e.

Definition journal_post (call : journal_call) (t : tables) (r : res journal_outcome) : Prop :=
  match call, r with
  | Claim intent _ _ _ _, Ok (JO_claim claim) =>
    exists key, operation_key intent = Ok key /\
      (forall r0, succeeded_row start key r0 -> cl_action claim = TA_SKIP_SUCCEEDED) /\
      match cl_action claim with
      | TA_EXECUTE => written call t
      | TA_SKIP_SUCCEEDED => exists r0, succeeded_row t key r0 /\ tr_version (cl_record claim) = op_version r0 /\
                               tr_outcome_reference (cl_record claim) = op_outcome_reference r0
      | TA_RECONCILE_REQUIRED => True
      end
  | Reconcile key _ resolution _ _ _ _ _ _, Ok (JO_record _) =>
    written call t \/ resolution = UOR_COMMITTED /\ exists r0, succeeded_row t key r0
  | _, Ok (JO_record _) => written call t
  | _, _ => True
  end.

Lemma written_later call t t' : journal_later t t' -> written call t -> written call t'.
Proof using Type.
  intros [[es Hev] _] (e & He & Hns & Hw). exists e. rewrite Hev. split_and!; try done. apply elem_of_app. by left.
Qed.

Lemma journal_post_stable call : stable journal_later (journal_post call).
Proof using Type.
  intros t t' r Hl. pose proof (written_later call t t' Hl) as Hw. destruct Hl as [_ Hs].
  unfold journal_post. destruct r as [[claim|record|record|events]|]; destruct call; try done.
  - intros (key & Hk & Hskip & Hact). exists key. split; [done|]. split; [done|]. destruct (cl_action claim); auto.
    destruct Hact as (r0 & ? & ? & ?). exists r0. auto.
  - intros [?|[? (r0 & ?)]]; [left|right]; eauto.
Qed.

Lemma record_from_row_Ok row record :
  _record_from_row row = Ok record ->
  op_status row = status_value (tr_status record) /\ tr_version record = op_version row /\
  tr_outcome_reference record = op_outcome_reference row.
Proof using Type.
  unfold _record_from_row. destruct (status_of_value _) as [s|] eqn:Es; [|done]. apply status_of_value_Ok in Es.
  cbn [mbind res_bind]. unfold make_TargetOperationRecord. destruct (_ || _); [done|].
  destruct (validate_record _); [|done]. by intros [= <-].
Qed.

Lemma selected_operation t1 key o t2 :
  documented t1 (SelectOperation key) (AOperation o) t2 ->
  t2 = t1 /\ option_Forall2 read_operation (t_operations t1 !! key) o.
Proof using Type. intros Hdoc. inversion Hdoc as [a Hdr| |]; subst. by inversion Hdr. Qed.

Lemma read_operation_fields r row :
  read_operation r row -> op_status row = op_status r /\ op_version row = op_version r /\
    op_outcome_reference row = op_outcome_reference r.
Proof using Type. by intros (c & u & m & _ & _ & _ & ->). Qed.

(** A record read from the journal is the state its operation's last event left. *)
Lemma record_event t1 key r row record :
  pool_inv calls start t1 -> t_operations t1 !! key = Some r -> read_operation r row ->
  _record_from_row row = Ok record ->
  exists p, p ∈ t_events t1 /\ oe_operation_key p = key /\ oe_version p = tr_version record /\
    oe_to_status p = status_value (tr_status record).
Proof using Type.
  intros [Hinv _] Hr Hread Hrec. apply record_from_row_Ok in Hrec as (Hs & Hv & _).
  apply read_operation_fields in Hread as (Hs' & Hv' & _).
  destruct (ji_rows t1 Hinv key r Hr) as (_ & p & Hp & Hver & Hst & _).
  apply last_Some_elem_of, elem_of_events_of in Hp as [Hin Hk]. exists p. split_and!; try done; congruence.
Qed.

(** A write whose row count is 1 has appended its event. *)
Lemma write_done q e n t1 t2 :
  ((exists r, q = InsertOperation r e) \/ exists key v st vals, q = UpdateOperation key v st vals e) ->
  documented t1 q (ARowcount n) t2 -> pool_inv calls start t1 -> (Nat.eqb n 1 = false /\ exists key v st vals, q = UpdateOperation key v st vals e) \/
  e ∈ t_events t2 /\ e ∉ t_events start.
Proof using Type.
  intros Hq Hdoc [_ (new & Hnew & _)]. inversion Hdoc as [a Hdr| |]; subst.
  assert (oe_event_id e ∉ map oe_event_id (t_events t1) -> e ∉ t_events start) as Hfresh.
  { intros Hid Hin. apply Hid, list_elem_of_fmap. exists e. split; [done|]. rewrite Hnew. apply elem_of_app. by left. }
  destruct Hq as [(r & ->)|(key & v & st & vals & ->)]; cbn [exec_tables] in *.
  - case_bool_decide; [by inversion Hdr|]. case_bool_decide; [by inversion Hdr|]. right.
    split; [apply elem_of_app; right; by apply list_elem_of_singleton|auto].
  - destruct (matching_operation _ _ _ _); [|left; inversion Hdr; subst; eauto 6].
    case_bool_decide; [by inversion Hdr|]. right.
    split; [apply elem_of_app; right; by apply list_elem_of_singleton|auto].
Qed.

(** Reading back keeps what holds already. *)
Lemma read_back_safe (post : tables -> Prop) key t :
  (forall t t', journal_later t t' -> post t -> post t') -> post t ->
  jsafe (fun t r => match r with Ok _ => post t | Raise _ => True end) (read_back key) t.
Proof using Type.
  intros Hst Hpost. split; [done|]. intros t1 a t2 Hl Hinv Hdoc.
  assert (post t2) as Hpost2.
  { eapply Hst, Hst, Hpost; [|exact Hl].
    exact (later_exec documented (pool_inv calls start) journal_later (journal_wf calls) _ (SelectOperation key) _ _ Hinv I Hdoc). }
  destruct a as [| |[row|]| | | |]; simpl; try done. by destruct (_record_from_row row).
Qed.

Lemma writes_requested call key v status id e :
  requested call = Some (key, v, status, id) ->
  writes call e <-> oe_operation_key e = key /\ oe_version e = v + 1 /\
    oe_to_status e = status_value status /\ oe_event_id e = id.
Proof using Type. destruct call; simpl; intros [=]; subst; done. Qed.

Lemma writes_inv call e :
  writes call e ->
  oe_to_status e = status_value TO_IN_PROGRESS \/
  exists key v status id, requested call = Some (key, v, status, id) /\ oe_operation_key e = key /\
    oe_version e = v + 1 /\ oe_to_status e = status_value status /\ oe_event_id e = id.
Proof using Type.
  unfold writes. destruct call; [by left; tauto|..]; simpl; try done; intros Hw; right; do 4 eexists; (split; [reflexivity|exact Hw]).
Qed.

Lemma transition_safe call key v status run attempt oref code msg now id t :
  call ∈ calls -> requested call = Some (key, v, status, id) ->
  jsafe (fun t r => match r with Ok _ => written call t | Raise _ => True end)
    (transition_target_operation key v status run attempt oref code msg now id) t.
Proof using Type.
  intros Hin Hreq. unfold transition_target_operation. destruct (v <? 1); [done|]. destruct (attempt <? 1); [done|].
  split; [done|]. intros t1 a t2 _ Hinv1 Hdoc. destruct a as [| |[row|]| | | |]; try done.
  apply selected_operation in Hdoc as [-> Hrow]. inversion Hrow as [r row' Hread Hr|]; subst row'. symmetry in Hr.
  prog_step. destruct (_record_from_row row) as [current|] eqn:Erec; [|done]. prog_step.
  destruct (tr_version current =? v) eqn:Ev; [|done]. apply Z.eqb_eq in Ev. cbn [negb].
  unfold require_target_operation_transition. destruct (bool_decide _) eqn:Eal; [|done]. apply bool_decide_eq_true in Eal.
  destruct (record_event t1 key r row current Hinv1 Hr Hread Erec) as (p & Hp & Hpk & Hpv & Hps).
  prog_step. split.
  - split_and!; try done; [by simpl; rewrite Ev| |].
    + exists call. split; [done|]. apply (writes_requested _ _ _ _ _ _ Hreq). split_and!; try done. simpl. by rewrite Ev.
    + exists p. split_and!; try done; [by rewrite Hpv|]. split; [by simpl; rewrite Hps|].
      exists (tr_status current), status. done.
  - intros t3 a t4 _ Hinv3 Hdoc. destruct a as [| | | |n| |]; prog_step; try done.
    destruct (write_done _ _ _ _ _ ltac:(right; eauto 6) Hdoc Hinv3) as [[-> _]|[He Hns]]; [done|].
    destruct (Nat.eqb n 1); [|done]. apply read_back_safe; [apply written_later|].
    eexists. split_and!; [exact He|exact Hns|]. apply (writes_requested _ _ _ _ _ _ Hreq). split_and!; try done. simpl. by rewrite Ev.
Qed.

Lemma claim_safe intent run attempt now id :
  Claim intent run attempt now id ∈ calls ->
  jsafe (journal_post (Claim intent run attempt now id)) (journal_program (Claim intent run attempt now id)) start.
Proof using Type.
  intros Hin. unfold journal_program, claim_target_operation. destruct (attempt <? 1); [done|].
  prog_step. destruct (operation_key intent) as [key|] eqn:Ekey; [|done].
  apply (safe_then _ _ _ _ (fun t r => journal_post (Claim intent run attempt now id) t (JO_claim <$> r)));
    [by intros t' [claim|] Hmid _|].
  apply (safe_then _ _ _ _ (fun t r => journal_post (Claim intent run attempt now id) t (JO_claim <$> r))).
  { intros t' [claim|exc] Hmid _; [done|]. by case_bool_decide. }
  assert (forall e, oe_operation_key e = key -> oe_to_status e = status_value TO_IN_PROGRESS ->
    oe_owner_dataset_run_id e = run -> oe_attempt e = attempt -> oe_event_id e = id ->
    writes (Claim intent run attempt now id) e) as Hwrites.
  { intros e <- ? ? ? ?. by split_and!. }
  unfold claim_transaction. split; [done|]. intros t1 a t2 Hl1 Hinv1 Hdoc. destruct a as [| |o| | | |]; try done.
  apply selected_operation in Hdoc as [-> Hrow]. inversion Hrow as [r row Hread Hr Hro|Hr Hro]; subst o; symmetry in Hr;
    prog_step.
  - destruct (_record_from_row row) as [current|] eqn:Erec; [|done]. prog_step.
    destruct (_assert_semantic_identity current intent); [|done]. prog_step.
    assert (forall r0, succeeded_row start key r0 -> tr_status current = TO_SUCCEEDED) as Hsucc.
    { intros r0 Hr0. apply (proj2 Hl1) in Hr0 as [Hr0 Hst]. rewrite Hr in Hr0. injection Hr0 as ->.
      apply record_from_row_Ok in Erec as (Hs & _). apply read_operation_fields in Hread as (Hs' & _).
      apply status_value_inj. congruence. }
    destruct (tr_status current) eqn:Est.
    + prog_step. exists key. split_and!; try done. intros r0 Hr0. by apply Hsucc in Hr0.
    + prog_step. exists key. split_and!; try done. exists r. split; [split; [done|]|].
      * apply record_from_row_Ok in Erec as (Hs & _). apply read_operation_fields in Hread as (Hs' & _). congruence.
      * apply record_from_row_Ok in Erec as (_ & Hv & Ho). apply read_operation_fields in Hread as (_ & Hv' & Ho').
        split; simpl; congruence.
    + prog_step. exists key. split_and!; try done. intros r0 Hr0. by apply Hsucc in Hr0.
    + destruct (record_event t1 key r row current Hinv1 Hr Hread Erec) as (p & Hp & Hpk & Hpv & Hps).
      prog_step. split.
      * split_and!; try done; [eexists; split; [exact Hin|by apply Hwrites]|].
        exists p. split_and!; try done. split; [simpl; by rewrite Hps, Est|].
        exists TO_NOT_COMMITTED, TO_IN_PROGRESS. rewrite Hps, Est. split_and!; try done. by apply list_elem_of_here.
      * intros t3 a3 t4 _ Hinv3 Hdoc. destruct a3 as [| | | |n| |]; prog_step; try done.
        destruct (write_done _ _ _ _ _ ltac:(right; eauto 6) Hdoc Hinv3) as [[-> _]|[He Hns]]; [done|].
        destruct (Nat.eqb n 1); [|done].
        apply (safe_then _ _ _ _ (fun t r => match r with Ok _ => written (Claim intent run attempt now id) t | Raise _ => True end)).
        { intros t' [record|] Hw _; [|done]. exists key. split_and!; try done. intros r0 Hr0. by apply Hsucc in Hr0. }
        apply read_back_safe; [apply written_later|]. eexists. split_and!; [exact He|exact Hns|by apply Hwrites].
  - destruct (_record_from_row (first_row _ _ _ _ _)) as [record|]; [|done]. prog_step. split.
    + split_and!; try done. eexists. split; [exact Hin|by apply Hwrites].
    + intros t3 a3 t4 _ Hinv3 Hdoc. destruct a3 as [| | | |n| |]; prog_step; try done.
      exists key. split_and!; try done.
      * intros r0 Hr0. apply (proj2 Hl1) in Hr0 as [Hr0 _]. by rewrite Hr in Hr0.
      * destruct (write_done _ _ _ _ _ ltac:(left; eauto) Hdoc Hinv3) as [(_ & ? & ? & ? & ? & ?)|[He Hns]]; [done|].
        eexists. split_and!; [exact He|exact Hns|by apply Hwrites].
Qed.

(** A transition through its entry point. *)
Lemma requested_safe call key v status id t (p : sql TargetOperationRecord) :
  requested call = Some (key, v, status, id) ->
  (forall t record, written call t -> journal_post call t (Ok (JO_record record))) ->
  jsafe (fun t r => match r with Ok _ => written call t | Raise _ => True end) p t ->
  jsafe (journal_post call) (r ← p; mret (JO_record r)) t.
Proof using Type.
  intros Hreq Hpost. apply (safe_then _ _ _ _ (fun t r => match r with Ok _ => written call t | Raise _ => True end)).
  intros t' [record|exc] Hmid _; [by apply Hpost|]. by destruct call.
Qed.

Lemma reconcile_safe key v resolution run attempt oref msg now id t :
  Reconcile key v resolution run attempt oref msg now id ∈ calls ->
  jsafe (journal_post (Reconcile key v resolution run attempt oref msg now id))
    (journal_program (Reconcile key v resolution run attempt oref msg now id)) t.
Proof using Type.
  intros Hin. unfold journal_program, reconcile_target_operation. split; [done|].
  intros t1 a t2 _ Hinv Hdoc. destruct a as [| |[row|]| | | |]; try done.
  apply selected_operation in Hdoc as [-> Hrow]. inversion Hrow as [r row' Hread Hr|]; subst row'. symmetry in Hr.
  prog_step. destruct (_record_from_row row) as [current|] eqn:Erec; [|done]. prog_step.
  case_bool_decide as Hs.
  - case_bool_decide; [|done]. prog_step. right. split; [done|]. exists r. split; [done|].
    apply record_from_row_Ok in Erec as (Hst & _). apply read_operation_fields in Hread as (Hst' & _). congruence.
  - eapply (safe_then _ _ _ _ (fun t r => match r with
      | Ok _ => written (Reconcile key v resolution run attempt oref msg now id) t
      | Raise _ => True
      end)); [|eapply transition_safe; [exact Hin|done]].
    intros t' [record|] Hw _; [|done]. prog_step. by left.
Qed.

Lemma journal_call_safe call : call ∈ calls -> jsafe (journal_post call) (journal_program call) start.
Proof using Type.
  destruct call; intros Hin; [by apply claim_safe| | | | |by apply reconcile_safe| |].
  1-4: by eapply requested_safe; [done|done|eapply transition_safe].
  - split; [done|]. intros t1 a t2 _ _ _. destruct a as [| |[row|]| | | |]; prog_step; try done.
    by destruct (_record_from_row row).
  - split; [done|]. intros t1 a t2 _ _ _. destruct a as [| | |rows| | |]; prog_step; try done.
    by destruct (mapM_res _event_from_row rows).
Qed.
End calls.

(** ** The journal on a database *)

Section pool.
Context `{PyRuntime} `{SemanticJson} {St} `{LawfulDatabase statement answer St tables documented}.
Context (calls : list journal_call) (s s' : St) (trace : list (statement * answer)) (pool' : list (sql journal_outcome)).
Context (Hinv : journal_inv (view s)) (Hrun : pool_run db_exec (map journal_program calls) s trace pool' s').

Lemma journal_pool_run :
  pool_inv calls (view s) (view s') /\ journal_later (view s) (view s') /\
  Forall2 (fun call p => safe documented (pool_inv calls (view s)) journal_later (journal_wf calls)
             (journal_post (view s) call) p (view s')) calls pool'.
Proof using All.
  assert (pool_inv calls (view s) (view s)) as Hstart by (split; [done|]; exists []; by rewrite app_nil_r).
  pose proof (database_refines documented _ _ _ _ _ Hrun) as Hrun'.
  destruct (pool_safe documented (pool_inv calls (view s)) journal_later (journal_wf calls)
    (map (journal_post (view s)) calls) (map journal_program calls) (view s) trace pool' (view s'))
    as (Hinv' & Hl & Hsafe); try done.
  - apply Forall_fmap, Forall_true. intros call. apply journal_post_stable.
  - rewrite Forall2_fmap. apply Forall2_same_length_lookup_2; [done|]. intros i c1 c2 H1' H2'.
    rewrite H1' in H2'. injection H2' as <-. apply journal_call_safe. by eapply list_elem_of_lookup_2.
  - split; [done|]. split; [done|]. by rewrite Forall2_fmap_l in Hsafe.
Qed.

(** What holds once a call of the pool has returned. *)
Lemma journal_returned i call r :
  calls !! i = Some call -> pool' !! i = Some (Done r) -> journal_post (view s) call (view s') r.
Proof using All.
  intros Hi Hp. destruct journal_pool_run as (_ & _ & Hsafe). exact (Forall2_lookup_lr _ _ _ _ _ _ Hsafe Hi Hp).
Qed.

(** Two executions of an operation with another event between: the journal reports in between that
    the first did not commit. *)
Lemma reopened key e1 e2 :
  e1 ∈ events_of (view s') key -> e2 ∈ events_of (view s') key -> e1 ∉ t_events (view s) ->
  oe_to_status e1 = status_value TO_IN_PROGRESS -> oe_to_status e2 = status_value TO_IN_PROGRESS ->
  oe_version e1 < oe_version e2 ->
  exists call v id e, call ∈ calls /\ requested call = Some (key, v, TO_NOT_COMMITTED, id) /\
    e ∈ t_events (view s') /\ oe_event_id e = id /\ oe_version e1 < oe_version e < oe_version e2.
Proof using All.
  intros [i1 Hi1]%list_elem_of_lookup [i2 Hi2]%list_elem_of_lookup Hnew Hs1 Hs2 Hlt.
  destruct journal_pool_run as ([Hinv' (new & Hev & Hauth)] & _ & _).
  pose proof (ji_chain _ Hinv' key) as Hch.
  destruct (Hch i1 e1 Hi1) as [Hv1 _]. destruct (Hch i2 e2 Hi2) as [Hv2 Hf]. destruct i2 as [|j]; [lia|].
  destruct Hf as (p & Hp & _ & before & after & Hb & Ha & Hin).
  rewrite Hs2 in Ha. apply status_value_inj in Ha as <-.
  apply retry_from in Hin as ->.
  destruct (Hch j p Hp) as [Hvp _].
  assert (i1 <> j) as Hne by (intros ->; rewrite Hi1 in Hp; injection Hp as ->; rewrite Hs1 in Hb; by apply status_value_inj in Hb).
  assert (p ∈ new) as Hpn.
  { unfold events_of in *. rewrite Hev, filter_app in Hi1, Hp. apply lookup_app_Some in Hi1 as [Hi1|[Hge _]].
    - exfalso. apply Hnew. apply list_elem_of_lookup_2, list_elem_of_filter in Hi1. tauto.
    - rewrite lookup_app_r in Hp by lia. apply list_elem_of_lookup_2, list_elem_of_filter in Hp. tauto. }
  assert (p ∈ t_events (view s')) as Hpin by (rewrite Hev; apply elem_of_app; by right).
  assert (oe_operation_key p = key) as Hpk.
  { apply list_elem_of_lookup_2, elem_of_events_of in Hp. tauto. }
  rewrite Forall_forall in Hauth. destruct (Hauth p Hpn) as (call & Hcall & Hw).
  destruct (writes_inv call p Hw) as [Hs|(k & v & st & id & Hreq & Hk & _ & Hst & Hid)].
  - rewrite Hb in Hs. by apply status_value_inj in Hs.
  - rewrite Hb in Hst. apply status_value_inj in Hst as <-. exists call, v, id, p.
    rewrite Hreq. split_and!; try done; [congruence|lia|lia].
Qed.
End pool.

(** C12. Whatever the interleaving of the journal's calls, the journal stays consistent: the events
    of an operation are an unbroken chain of allowed transitions whose versions count from 1,
    and the row of the operation is in the state its last event left. *)
Theorem journal_chain `{PyRuntime} `{SemanticJson} {St} `{LawfulDatabase statement answer St tables documented}
    calls (s s' : St) trace pool' :
  journal_inv (view s) -> pool_run db_exec (map journal_program calls) s trace pool' s' -> journal_inv (view s').
Proof. intros Hinv Hrun. by destruct (journal_pool_run calls s s' trace pool' Hinv Hrun) as ([? _] & _). Qed.

(** C1. A write is not executed twice by accident: when two claims of one operation are both told to
    execute it, then between the events of the two claims a call of the pool has reported to the
    journal that the operation did not commit. *)
Theorem execute_requires_not_committed `{PyRuntime} `{SemanticJson} {St}
    `{LawfulDatabase statement answer St tables documented} calls (s s' : St) trace pool' intent key
    i j run1 run2 attempt1 attempt2 now1 now2 id1 id2 claim1 claim2 :
  journal_inv (view s) -> pool_run db_exec (map journal_program calls) s trace pool' s' ->
  operation_key intent = Ok key -> id1 <> id2 ->
  calls !! i = Some (Claim intent run1 attempt1 now1 id1) ->
  calls !! j = Some (Claim intent run2 attempt2 now2 id2) ->
  pool' !! i = Some (Done (Ok (JO_claim claim1))) -> cl_action claim1 = TA_EXECUTE ->
  pool' !! j = Some (Done (Ok (JO_claim claim2))) -> cl_action claim2 = TA_EXECUTE ->
  exists e1 e2 call v id e, e1 ∈ t_events (view s') /\ e2 ∈ t_events (view s') /\
    {[oe_event_id e1; oe_event_id e2]} =@{gset N} {[id1; id2]} /\
    call ∈ calls /\ requested call = Some (key, v, TO_NOT_COMMITTED, id) /\
    e ∈ t_events (view s') /\ oe_event_id e = id /\ oe_version e1 < oe_version e < oe_version e2.
Proof.
  intros Hinv Hrun Hkey Hne Hi Hj Hpi Ha1 Hpj Ha2.
  pose proof (journal_returned calls s s' trace pool' Hinv Hrun i _ _ Hi Hpi) as (k1 & Hk1 & _ & Hw1).
  pose proof (journal_returned calls s s' trace pool' Hinv Hrun j _ _ Hj Hpj) as (k2 & Hk2 & _ & Hw2).
  rewrite Ha1 in Hw1. rewrite Ha2 in Hw2.
  destruct Hw1 as (e1 & He1 & Hn1 & Hek1 & Hs1 & _ & _ & <-), Hw2 as (e2 & He2 & Hn2 & Hek2 & Hs2 & _ & _ & <-).
  assert (oe_operation_key e1 = key) as Hkey1 by congruence. assert (oe_operation_key e2 = key) as Hkey2 by congruence.
  destruct (journal_pool_run calls s s' trace pool' Hinv Hrun) as ([Hinv' _] & _).
  assert (oe_version e1 <> oe_version e2) as Hv.
  { intros Hv. apply Hne. by rewrite (journal_same_version (view s') e1 e2) by congruence. }
  assert (e1 ∈ events_of (view s') key /\ e2 ∈ events_of (view s') key) as [? ?] by (by rewrite !elem_of_events_of).
  destruct (Z.lt_total (oe_version e1) (oe_version e2)) as [Hlt|[?|Hlt]]; [|done|].
  - destruct (reopened calls s s' trace pool' Hinv Hrun key e1 e2) as (call & v & id & e & Hc); try done.
    exists e1, e2, call, v, id, e. by destruct_and!; split_and!.
  - destruct (reopened calls s s' trace pool' Hinv Hrun key e2 e1) as (call & v & id & e & Hc); try done.
    exists e2, e1, call, v, id, e. destruct_and!; split_and!; try done. set_solver.
Qed.

(** C2. A success is final: once an operation has succeeded, no call changes its row, and every claim
    of it that returns is told to skip the write, with the version and the outcome reference of
    the success. *)
Theorem succeeded_is_final `{PyRuntime} `{SemanticJson} {St}
    `{LawfulDatabase statement answer St tables documented} calls (s s' : St) trace pool' key r :
  journal_inv (view s) -> t_operations (view s) !! key = Some r -> op_status r = status_value TO_SUCCEEDED ->
  pool_run db_exec (map journal_program calls) s trace pool' s' ->
  t_operations (view s') !! key = Some r /\
  forall i intent run attempt now id claim,
    operation_key intent = Ok key -> calls !! i = Some (Claim intent run attempt now id) ->
    pool' !! i = Some (Done (Ok (JO_claim claim))) ->
    cl_action claim = TA_SKIP_SUCCEEDED /\ tr_version (cl_record claim) = op_version r /\
    tr_outcome_reference (cl_record claim) = op_outcome_reference r.
Proof.
  intros Hinv Hr Hst Hrun. destruct (journal_pool_run calls s s' trace pool' Hinv Hrun) as (_ & [_ Hl] & _).
  destruct (Hl key r) as [Hr' _]; [done|]. split; [done|]. intros i intent run attempt now id claim Hkey Hi Hp.
  pose proof (journal_returned calls s s' trace pool' Hinv Hrun i _ _ Hi Hp) as (k & Hk & Hskip & Hact).
  rewrite Hkey in Hk. injection Hk as <-. rewrite (Hskip r) in Hact |- * by done.
  destruct Hact as (r0 & [Hr0 _] & ? & ?). split_and!; congruence.
Qed.

Definition reconciles_committed (call : journal_call) : Prop :=
  match call with Reconcile _ _ UOR_COMMITTED _ _ _ _ _ _ => True | _ => False end.

(** No update of an operation is lost: of two calls that ask for a transition of one operation
    from the same version, at most one returns its record, unless one of them is a
    reconciliation that finds the operation committed and already succeeded. *)
Theorem one_transition_per_version `{PyRuntime} `{SemanticJson} {St}
    `{LawfulDatabase statement answer St tables documented} calls (s s' : St) trace pool' key v
    i j call1 call2 status1 status2 id1 id2 r1 r2 :
  journal_inv (view s) -> pool_run db_exec (map journal_program calls) s trace pool' s' -> id1 <> id2 ->
  calls !! i = Some call1 -> requested call1 = Some (key, v, status1, id1) ->
  calls !! j = Some call2 -> requested call2 = Some (key, v, status2, id2) ->
  pool' !! i = Some (Done (Ok (JO_record r1))) -> pool' !! j = Some (Done (Ok (JO_record r2))) ->
  (reconciles_committed call1 \/ reconciles_committed call2) /\
  exists r, t_operations (view s') !! key = Some r /\ op_status r = status_value TO_SUCCEEDED.
Proof.
  intros Hinv Hrun Hne Hi Hq1 Hj Hq2 Hpi Hpj.
  assert (forall k call status id r, calls !! k = Some call -> requested call = Some (key, v, status, id) ->
    pool' !! k = Some (Done (Ok (JO_record r))) ->
    (exists e, e ∈ t_events (view s') /\ oe_operation_key e = key /\ oe_version e = v + 1 /\ oe_event_id e = id) \/
    reconciles_committed call /\ exists r, succeeded_row (view s') key r) as Hpost.
  { intros k call status id r Hk Hreq Hp. apply (journal_returned calls s s' trace pool' Hinv Hrun k _ _ Hk) in Hp.
    assert (written (view s) call (view s') \/ reconciles_committed call /\ exists r, succeeded_row (view s') key r)
      as [(e & He & _ & Hw)|?]; [|left|by right].
    - destruct call; try (by left). destruct Hp as [?|[-> ?]]; [by left|right]. by injection Hreq as -> _ _ _.
    - apply (writes_requested _ _ _ _ _ _ Hreq) in Hw as (? & ? & _ & ?). by exists e. }
  destruct (Hpost i call1 status1 id1 r1) as [(e1 & He1 & Hk1 & Hv1 & <-)|[? ?]]; try done; [|by split; [left|]].
  destruct (Hpost j call2 status2 id2 r2) as [(e2 & He2 & Hk2 & Hv2 & <-)|[? ?]]; try done; [|by split; [right|]].
  destruct (journal_pool_run calls s s' trace pool' Hinv Hrun) as ([Hinv' _] & _). exfalso. apply Hne.
  by rewrite (journal_same_version (view s') e1 e2) by congruence.
Qed.

(** ** Witnesses *)

(** A digest of 64 hex digits: the last 32 characters of the text. *)
Definition hex_digit (n : nat) : Ascii.ascii := Ascii.ascii_of_nat (if (n <? 10)%nat then 48 + n else 87 + n).
Definition demo_digest (text : string) : string :=
  let chars := String.list_ascii_of_string text in
  let digits := concat (map (fun c => let n := Ascii.nat_of_ascii c in [hex_digit (n mod 16); hex_digit (n / 16)]) chars) in
  String.string_of_list_ascii (take 64 (reverse digits ++ replicate 64 (Ascii.ascii_of_nat 48))).

Definition demo_journal_runtime : PyRuntime :=
  {| py_repr := demo_repr; str_of := demo_repr; json_dumps := demo_repr; sha256_hex := demo_digest |}.
Definition demo_semantic_json : SemanticJson := fun v => Ok (demo_repr v).
#[local] Existing Instance demo_journal_runtime.
#[local] Existing Instance demo_semantic_json.

Definition demo_hash (n : nat) : string := String.string_of_list_ascii (replicate 64 (hex_digit n)).
Definition demo_intent : TargetOperationIntent :=
  {| ti_dataset_id := "orders"; ti_operation_kind := "APPEND"; ti_target_reference := "lake.orders";
     ti_effective_config_hash := demo_hash 10; ti_input_fingerprint := demo_hash 11; ti_semantic_version := 1 |}.
Definition demo_key : string :=
  Eval vm_compute in match operation_key demo_intent with Ok key => key | Raise _ => "" end.

Lemma demo_operation_key : operation_key demo_intent = Ok demo_key.
Proof. vm_compute. reflexivity. Qed.

Lemma no_tables_inv : journal_inv no_tables.
Proof.
  split; [intros key r Hr; change ((∅ : gmap string operation_row) !! key = Some r) in Hr; by rewrite lookup_empty in Hr
         |done|by intros key i e|apply NoDup_nil_2].
Qed.

(** A first attempt that did not commit, and a retry that succeeds. *)
Definition demo_journal_calls : list journal_call :=
  [Claim demo_intent 1 1 (utc 100) 11; MarkNotCommitted demo_key 1 1 1 None (utc 110) 12;
   Claim demo_intent 2 2 (utc 120) 13; MarkSucceeded demo_key 3 2 2 (Some "commit-7") (utc 130) 14].
Definition run_demo (schedule : list nat) (calls : list journal_call) (t : tables) : list (sql journal_outcome) * tables :=
  run_schedule memory_exec schedule (map journal_program calls) t.
Definition demo_schedule : list nat := [0; 0; 1; 1; 1; 2; 2; 2; 3; 3; 3]%nat.
Definition demo_final : list (sql journal_outcome) * tables := run_demo demo_schedule demo_journal_calls no_tables.

Definition claim_of (p : option (sql journal_outcome)) : option TargetOperationClaim :=
  match p with Some (Done (Ok (JO_claim c))) => Some c | _ => None end.
Definition record_of (p : option (sql journal_outcome)) : option TargetOperationRecord :=
  match p with Some (Done (Ok (JO_record r))) => Some r | _ => None end.

Example demo_actions :
  cl_action <$> claim_of (demo_final.1 !! 0%nat) = Some TA_EXECUTE /\
  cl_action <$> claim_of (demo_final.1 !! 2%nat) = Some TA_EXECUTE /\
  tr_status <$> record_of (demo_final.1 !! 3%nat) = Some TO_SUCCEEDED.
Proof. vm_compute. by split_and!. Qed.

(** Executions of a schedule on the in-memory database. *)
Lemma run_demo_run schedule calls t :
  exists trace, pool_run (@db_exec _ _ _ _ memory_database) (map journal_program calls) t trace
    (run_demo schedule calls t).1 (run_demo schedule calls t).2.
Proof. apply schedule_run. Qed.

(** The claim a call of an execution has returned, and the record. *)
Lemma claim_of_Some p c : claim_of p = Some c -> p = Some (Done (Ok (JO_claim c))).
Proof. destruct p as [[[[]|]|]|]; simpl; try done. by intros [= <-]. Qed.
Lemma record_of_Some p r : record_of p = Some r -> p = Some (Done (Ok (JO_record r))).
Proof. destruct p as [[[[]|]|]|]; simpl; try done. by intros [= <-]. Qed.

(** The tables after a schedule are consistent. *)
Lemma run_demo_inv schedule calls t : journal_inv t -> journal_inv (run_demo schedule calls t).2.
Proof.
  intros Hinv. destruct (run_demo_run schedule calls t) as [trace Hrun].
  by destruct (@journal_pool_run _ _ tables memory_database memory_lawful calls t _ trace _ Hinv Hrun) as ([? _] & _).
Qed.

Lemma journal_chain_witness : journal_inv demo_final.2.
Proof.
  destruct (run_demo_run demo_schedule demo_journal_calls no_tables) as [trace Hrun]. revert Hrun.
  unfold demo_final. generalize (run_demo demo_schedule demo_journal_calls no_tables). intros [pool' t] Hrun.
  exact (@journal_chain _ _ tables memory_database memory_lawful demo_journal_calls no_tables t trace pool' no_tables_inv Hrun).
Defined.

Lemma execute_requires_not_committed_witness :
  exists call v id, call ∈ demo_journal_calls /\ requested call = Some (demo_key, v, TO_NOT_COMMITTED, id).
Proof.
  destruct (run_demo_run demo_schedule demo_journal_calls no_tables) as [trace Hrun].
  pose proof demo_actions as (Ha1 & Ha2 & _). revert Hrun Ha1 Ha2.
  unfold demo_final. generalize (run_demo demo_schedule demo_journal_calls no_tables). intros [pool' t] Hrun.
  cbn [fst snd] in *. destruct (claim_of (pool' !! 0%nat)) as [c1|] eqn:E1, (claim_of (pool' !! 2%nat)) as [c2|] eqn:E2; try done.
  intros [= Ha1] [= Ha2].
  destruct (@execute_requires_not_committed _ _ tables memory_database memory_lawful demo_journal_calls no_tables t trace pool'
    demo_intent demo_key 0 2 1 2 1 2 (utc 100) (utc 120) 11 13 c1 c2 no_tables_inv Hrun demo_operation_key
    ltac:(done) eq_refl eq_refl (claim_of_Some _ _ E1) Ha1 (claim_of_Some _ _ E2) Ha2)
    as (_ & _ & call & v & id & _ & _ & _ & _ & Hin & Hreq & _).
  by exists call, v, id.
Defined.

(** A later run claims the operation again, and an operator tries to take the success back. *)
Definition demo_late_calls : list journal_call :=
  [Claim demo_intent 3 3 (utc 200) 21; Reconcile demo_key 4 UOR_NOT_COMMITTED 4 1 None None (utc 210) 22].

Example demo_succeeded :
  (r ← t_operations demo_final.2 !! demo_key; Some (op_status r, op_outcome_reference r)) =
  Some (status_value TO_SUCCEEDED, Some "commit-7").
Proof. vm_compute. reflexivity. Qed.

Lemma succeeded_is_final_witness :
  exists r, t_operations (run_demo [0; 1]%nat demo_late_calls demo_final.2).2 !! demo_key = Some r /\
    op_outcome_reference r = Some "commit-7".
Proof.
  pose proof demo_succeeded as Hs. pose proof (run_demo_inv demo_schedule demo_journal_calls no_tables no_tables_inv) as Hinv.
  revert Hs Hinv. unfold demo_final. generalize (run_demo demo_schedule demo_journal_calls no_tables).2. intros t Hs Hinv.
  destruct (run_demo_run [0; 1]%nat demo_late_calls t) as [trace Hrun]. revert Hrun.
  generalize (run_demo [0; 1]%nat demo_late_calls t). intros [pool' t'] Hrun.
  destruct (t_operations t !! demo_key) as [r|] eqn:Er; [|done]. injection Hs as Hstatus Hout. exists r. split; [|exact Hout].
  exact (proj1 (@succeeded_is_final _ _ tables memory_database memory_lawful demo_late_calls t t' trace pool'
    demo_key r Hinv Er Hstatus Hrun)).
Defined.

(** Two reconciliations of one version: the second finds the success of the first. *)
Definition demo_reconciliations : list journal_call :=
  [Claim demo_intent 1 1 (utc 100) 11; Reconcile demo_key 1 UOR_COMMITTED 1 1 None None (utc 110) 12;
   Reconcile demo_key 1 UOR_COMMITTED 1 1 None None (utc 120) 13].
Definition demo_reconcile_schedule : list nat := [0; 0; 1; 1; 1; 1; 2]%nat.
Definition demo_reconciled : list (sql journal_outcome) * tables :=
  run_demo demo_reconcile_schedule demo_reconciliations no_tables.

Example demo_reconciled_records :
  is_Some (record_of (demo_reconciled.1 !! 1%nat)) /\ is_Some (record_of (demo_reconciled.1 !! 2%nat)).
Proof. vm_compute. split; by eexists. Qed.

Lemma one_transition_per_version_witness :
  exists r, t_operations demo_reconciled.2 !! demo_key = Some r /\ op_status r = status_value TO_SUCCEEDED.
Proof.
  destruct (run_demo_run demo_reconcile_schedule demo_reconciliations no_tables) as [trace Hrun].
  pose proof demo_reconciled_records as [[r1 E1] [r2 E2]]. revert Hrun E1 E2.
  unfold demo_reconciled. generalize (run_demo demo_reconcile_schedule demo_reconciliations no_tables).
  intros [pool' t] Hrun E1 E2.
  exact (proj2 (@one_transition_per_version _ _ tables memory_database memory_lawful demo_reconciliations no_tables t trace pool'
    demo_key 1 1 2 (Reconcile demo_key 1 UOR_COMMITTED 1 1 None None (utc 110) 12)
    (Reconcile demo_key 1 UOR_COMMITTED 1 1 None None (utc 120) 13) TO_SUCCEEDED TO_SUCCEEDED 12 13 r1 r2
    no_tables_inv Hrun ltac:(done) eq_refl eq_refl eq_refl eq_refl (record_of_Some _ _ E1) (record_of_Some _ _ E2))).
Defined.

(** ** A defect

    The record of an EXECUTE claim is read after the commit of the claim.  Run 2 reopens the
    operation; before it reads its record back, an operator reconciles the operation and run 3
    reopens it: both claims then return EXECUTE with the record, owner and version of run 3. *)
Definition demo_overtaken : list journal_call :=
  [Claim demo_intent 1 1 (utc 100) 11; MarkNotCommitted demo_key 1 1 1 None (utc 110) 12;
   Claim demo_intent 2 2 (utc 120) 13; Reconcile demo_key 3 UOR_NOT_COMMITTED 9 1 None None (utc 130) 14;
   Claim demo_intent 3 3 (utc 140) 15].

Theorem execute_record_not_claimed :
  exists c, claim_of ((run_demo [0; 0; 1; 1; 1; 2; 2; 3; 3; 3; 3; 4; 4; 2; 4]%nat demo_overtaken no_tables).1 !! 2%nat) = Some c /\
    claim_of ((run_demo [0; 0; 1; 1; 1; 2; 2; 3; 3; 3; 3; 4; 4; 2; 4]%nat demo_overtaken no_tables).1 !! 4%nat) = Some c /\
    cl_action c = TA_EXECUTE /\ tr_owner_dataset_run_id (cl_record c) = 3%N /\ tr_version (cl_record c) = 5.
Proof. eexists. split; [vm_compute; reflexivity|]. by vm_compute; split_and!. Qed.
