(* ===== verification/Retry.v ===== *)
(** * Retries of a dataset ([recovery/runtime.py])

    [execute_with_retry] talks to a clock, a source of ids, the repository, the attempt it
    executes, the resolver of unknown outcomes and the backoff.  A computation reads and extends
    the log of the calls made so far, newest first, and the answers of the outside world are
    functions of that log.  [history] is the specification of the sequence of attempts. *)

From Stdlib Require Import QArith.
From stdpp Require Import base gmap strings list.
From S2P Require Import Prelude PyText Effects PyValue PyDict PyFloat Temporal ConfigTypes RunAudit DispatchContracts RunContracts TargetOperation.
#[local] Close Scope Q_scope.
#[local] Open Scope Z_scope.

(** ** Failures *)

Inductive FailureDisposition := FD_RETRYABLE | FD_NON_RETRYABLE | FD_UNKNOWN_OUTCOME.
#[export] Instance FailureDisposition_eq_dec : EqDecision FailureDisposition.
Proof. solve_decision. Defined.

(** A raised object: the exception, the names of its classes, [str(exc)] and [exc.error_code]. *)
Record failure := {
  f_exn : exn;
  f_classes : list string;
  f_text : string;
  f_error_code : string
}.

(** [isinstance(exc, cls)] *)
Definition isinstance (f : failure) (cls : string) : bool := bool_decide (cls ∈ f_classes f).

Record FailureClassification := {
  fc_disposition : FailureDisposition;
  fc_error_code : string;
  fc_message : string
}.

Record RetryPolicy := {
  rp_max_attempts : Z;
  rp_initial_backoff_seconds : Q;
  rp_multiplier : Q;
  rp_max_backoff_seconds : Q
}.

(** The field bounds. *)
Definition make_RetryPolicy (p : RetryPolicy) : res RetryPolicy :=
  if (rp_max_attempts p <? 1) || flt (rp_initial_backoff_seconds p) 0 || flt (rp_multiplier p) 1
     || flt (rp_max_backoff_seconds p) 0 then bad_field
  else Ok p.

(** [RetryPolicy()] *)
Definition default_policy : RetryPolicy :=
  {| rp_max_attempts := 3; rp_initial_backoff_seconds := 1; rp_multiplier := 2; rp_max_backoff_seconds := 60 |}.

(** [delay_after_attempt]; [float_pow] is [**] on a float and an [int], which overflows. *)
Definition delay_after_attempt (float_pow : Q -> Z -> res Q) (p : RetryPolicy) (attempt : Z) : res Q :=
  if attempt <? 1 then raise "ValueError" "attempt must be >= 1"
  else
    power ← float_pow (rp_multiplier p) (attempt - 1);
    let delay := fmul (rp_initial_backoff_seconds p) power in
    Ok (if flt (rp_max_backoff_seconds p) delay then rp_max_backoff_seconds p else delay).

(** ** The outside world *)

Record AttemptContext := {
  ac_pipeline_run_id : N;
  ac_dataset_run_id : N;
  ac_dataset_id : string;
  ac_root_dataset_run_id : N;
  ac_previous_dataset_run_id : option N;
  ac_attempt : Z;
  ac_run_mode : RunMode;
  ac_reprocess_request_id : option N
}.

Record RecoveryRunResult (T : Type) := {
  rrr_value : option T;
  rrr_dataset_run_id : N;
  rrr_root_dataset_run_id : N;
  rrr_attempts : Z;
  rrr_resolved_unknown_outcome : option UnknownOutcomeResolution
}.
Arguments Build_RecoveryRunResult {T} _ _ _ _ _.
Arguments rrr_value {T} _.
Arguments rrr_dataset_run_id {T} _.
Arguments rrr_root_dataset_run_id {T} _.
Arguments rrr_attempts {T} _.
Arguments rrr_resolved_unknown_outcome {T} _.

(** What an attempt does: it returns a value or raises. *)
Inductive attempt_answer (T : Type) := Returned (v : T) | Failed (f : failure).
Arguments Returned {T} v.
Arguments Failed {T} f.

(** What a resolver does; [Resolved None] is a value that is no [UnknownOutcomeResolution]. *)
Inductive resolver_answer := Resolved (r : option UnknownOutcomeResolution) | ResolverRaised (f : failure).

(** A call and its answer. *)
Inductive event (T : Type) :=
| EvClock (t : datetime)
| EvUuid (n : N)
| EvLineage (a : DatasetAttemptLineage) (answer : res unit)
| EvRun (a : DatasetRunAudit) (answer : res unit)
| EvRequest (r : ReprocessRequest) (answer : res unit)
| EvExecute (ctx : AttemptContext) (answer : attempt_answer T)
| EvResolve (ctx : AttemptContext) (f : failure) (answer : resolver_answer)
| EvBackoff (seconds : Q) (answer : res unit).
Arguments EvClock {T} t.
Arguments EvUuid {T} n.
Arguments EvLineage {T} a answer.
Arguments EvRun {T} a answer.
Arguments EvRequest {T} r answer.
Arguments EvExecute {T} ctx answer.
Arguments EvResolve {T} ctx f answer.
Arguments EvBackoff {T} seconds answer.

(** The callables a run is given, [datetime.now] and [uuid4]; [redact] and [strip] stand for
    the regular expressions of [sanitize_audit_text] and for [str_strip_whitespace]. *)
Class RetryWorld (T : Type) := {
  utc_now : list (event T) -> datetime;
  uuid4 : list (event T) -> N;
  record_attempt_lineage : list (event T) -> DatasetAttemptLineage -> res unit;
  record_dataset_run : list (event T) -> DatasetRunAudit -> res unit;
  record_reprocess_request : list (event T) -> ReprocessRequest -> res unit;
  execute_attempt : list (event T) -> AttemptContext -> attempt_answer T;
  resolve_unknown_outcome : option (list (event T) -> AttemptContext -> failure -> resolver_answer);
  backoff : list (event T) -> Q -> res unit;
  float_pow : Q -> Z -> res Q;
  redact : string -> string;
  strip : string -> string
}.

Record RetryArgs := {
  ra_pipeline_run_id : N;
  ra_dataset_id : string;
  ra_effective_config_hash : string;
  ra_retry_policy : option RetryPolicy;
  ra_run_mode : RunMode;
  ra_reprocess_request : option ReprocessRequest;
  ra_initial_attempt : Z;
  ra_root_dataset_run_id : option N;
  ra_previous_dataset_run_id : option N
}.

(** [retry_policy or RetryPolicy()] *)
Definition policy_of (args : RetryArgs) : RetryPolicy := default default_policy (ra_retry_policy args).

(** The guards before the first attempt. *)
Definition check_lineage_args (args : RetryArgs) : res unit :=
  if ra_initial_attempt args <? 1 then raise "ValueError" "initial_attempt must be >= 1"
  else if ra_initial_attempt args =? 1 then
    raise_if (is_some (ra_root_dataset_run_id args) || is_some (ra_previous_dataset_run_id args))
      "ValueError" "attempt 1 cannot provide prior lineage"
  else
    raise_if (negb (is_some (ra_root_dataset_run_id args)) || negb (is_some (ra_previous_dataset_run_id args)))
      "ValueError" "continuing attempts requires root and previous dataset run ids".

Definition check_request (args : RetryArgs) : res unit :=
  if bool_decide (ra_run_mode args = RM_NORMAL) then
    raise_if (is_some (ra_reprocess_request args)) "ValueError" "NORMAL run cannot attach a reprocess request"
  else
    match ra_reprocess_request args with
    | None => raise "ValueError" "run requires a ReprocessRequest"
    | Some request =>
      if negb (bool_decide (rr_run_mode request = ra_run_mode args)) then
        raise "ValueError" "reprocess request run_mode must match execution run_mode"
      else raise_if (negb (String.eqb (rr_dataset_id request) (ra_dataset_id args)))
        "ValueError" "reprocess request dataset_id must match execution dataset_id"
    end.

Section retry.
Context {T : Type} `{RetryWorld T}.

Abbreviation io := (eff (list (event T))).

Definition now : io datetime := fun l => (Ok (utc_now l), EvClock (utc_now l) :: l).
Definition fresh_uuid : io N := fun l => (Ok (uuid4 l), EvUuid (uuid4 l) :: l).
Definition call_lineage (a : DatasetAttemptLineage) : io unit := fun l =>
  (record_attempt_lineage l a, EvLineage a (record_attempt_lineage l a) :: l).
Definition call_run (a : DatasetRunAudit) : io unit := fun l =>
  (record_dataset_run l a, EvRun a (record_dataset_run l a) :: l).
Definition call_request (r : ReprocessRequest) : io unit := fun l =>
  (record_reprocess_request l r, EvRequest r (record_reprocess_request l r) :: l).
Definition call_execute (ctx : AttemptContext) : io (attempt_answer T) := fun l =>
  (Ok (execute_attempt l ctx), EvExecute ctx (execute_attempt l ctx) :: l).
Definition call_resolver (resolver : list (event T) -> AttemptContext -> failure -> resolver_answer)
    (ctx : AttemptContext) (f : failure) : io resolver_answer := fun l =>
  (Ok (resolver l ctx f), EvResolve ctx f (resolver l ctx f) :: l).
Definition call_backoff (seconds : Q) : io unit := fun l =>
  (backoff l seconds, EvBackoff seconds (backoff l seconds) :: l).

(** ** Classification and evidence *)

Definition sanitize (text : string) : string := sanitize_audit_text redact text AUDIT_MAX_STRING.

(** The model strips its strings and bounds their length. *)
Definition make_FailureClassification (d : FailureDisposition) (error_code message : string) : res FailureClassification :=
  if negb (nonempty (strip error_code)) || negb (nonempty (strip message)) then bad_field
  else Ok {| fc_disposition := d; fc_error_code := strip error_code; fc_message := strip message |}.

Definition classify_failure (f : failure) : res FailureClassification :=
  let message := sanitize (if nonempty (f_text f) then f_text f else exn_type (f_exn f)) in
  if isinstance f "RetryableExecutionError" then make_FailureClassification FD_RETRYABLE (f_error_code f) message
  else if isinstance f "UnknownCommitOutcomeError" then
    make_FailureClassification FD_UNKNOWN_OUTCOME (f_error_code f) message
  else if isinstance f "PermanentExecutionError" then
    make_FailureClassification FD_NON_RETRYABLE (f_error_code f) message
  else make_FailureClassification FD_NON_RETRYABLE "UNCLASSIFIED_FAILURE" message.

Definition _record_terminal_audit (hash : string) (ctx : AttemptContext) (status : DatasetStatus)
    (error_code error_message : option string) (retryable : option bool) : io unit :=
  started_at ← now;
  audit ← lift (make_DatasetRunAudit
    {| dra_dataset_run_id := ac_dataset_run_id ctx; dra_pipeline_run_id := ac_pipeline_run_id ctx;
       dra_dataset_id := strip (ac_dataset_id ctx); dra_attempt := ac_attempt ctx; dra_run_mode := ac_run_mode ctx;
       dra_status := status; dra_effective_config_hash := strip hash; dra_row_accounting := None;
       dra_mutations := {| mc_inserted := 0; mc_updated := 0; mc_deleted := 0 |};
       dra_error_code := strip <$> error_code; dra_error_message := (fun m => strip (sanitize m)) <$> error_message;
       dra_retryable := retryable; dra_started_at := started_at; dra_completed_at := None |});
  call_run audit.

(** [request.model_copy(update={...})], which validates nothing. *)
Definition with_status (request : ReprocessRequest) (status : ReprocessRequestStatus) (t : datetime) : ReprocessRequest :=
  {| rr_reprocess_request_id := rr_reprocess_request_id request; rr_dataset_id := rr_dataset_id request;
     rr_run_mode := rr_run_mode request; rr_reason := rr_reason request; rr_requested_by := rr_requested_by request;
     rr_original_pipeline_run_id := rr_original_pipeline_run_id request;
     rr_original_dataset_run_id := rr_original_dataset_run_id request; rr_range_json := rr_range_json request;
     rr_status := status; rr_created_at := rr_created_at request; rr_updated_at := Some t |}.

Definition _update_reprocess_status (request : option ReprocessRequest) (status : ReprocessRequestStatus) :
    io (option ReprocessRequest) :=
  match request with
  | None => mret None
  | Some request =>
    t ← now;
    let updated := with_status request status t in
    _ ← call_request updated;
    mret (Some updated)
  end.

(** A failed attempt is recorded, the request fails, and [e] is raised. *)
Definition fail_attempt {A} (hash : string) (request : option ReprocessRequest) (ctx : AttemptContext)
    (error_code message : string) (e : exn) : io A :=
  _ ← _record_terminal_audit hash ctx DS_FAILED (Some error_code) (Some message) (Some false);
  _ ← _update_reprocess_status request RR_FAILED;
  lift (Raise e).

(** [f"{type(exc).__name__}: {exc}"] *)
Definition summary (f : failure) : string := sanitize (exn_type (f_exn f) +:+ ": " +:+ f_text f).

Definition _handle_resolver_failure {A} (hash : string) (request : option ReprocessRequest) (ctx : AttemptContext)
    (unknown_error resolver_error : failure) : io A :=
  fail_attempt hash request ctx "UNKNOWN_COMMIT_RESOLUTION_FAILED"
    (sanitize ("unknown outcome could not be resolved; original=" +:+ summary unknown_error
               +:+ "; resolver=" +:+ summary resolver_error))
    (Exn "UnknownOutcomeResolutionFailedError" "unknown commit outcome resolver failed; refusing blind retry").

(** The [TypeError] for a value that is no resolution. *)
Definition invalid_resolution : failure :=
  {| f_exn := Exn "TypeError" "unknown-outcome resolver returned an invalid resolution value";
     f_classes := ["TypeError"; "Exception"; "BaseException"];
     f_text := "unknown-outcome resolver returned an invalid resolution value"; f_error_code := "" |}.

(** An attempt is recorded as succeeded and the request too. *)
Definition succeed (hash : string) (request : option ReprocessRequest) (ctx : AttemptContext) (offset : Z)
    (value : option T) (resolution : option UnknownOutcomeResolution) : io (RecoveryRunResult T) :=
  _ ← _record_terminal_audit hash ctx DS_SUCCEEDED None None None;
  _ ← _update_reprocess_status request RR_SUCCEEDED;
  mret {| rrr_value := value; rrr_dataset_run_id := ac_dataset_run_id ctx;
          rrr_root_dataset_run_id := ac_root_dataset_run_id ctx; rrr_attempts := offset + 1;
          rrr_resolved_unknown_outcome := resolution |}.

(** ** One attempt *)

(** An unknown outcome is reconciled before any retry: the result when it had committed, the
    classification to go on with when it had not. *)
Definition reconcile_unknown (hash : string) (request : option ReprocessRequest) (ctx : AttemptContext) (offset : Z)
    (f : failure) (c : FailureClassification) : io (RecoveryRunResult T + FailureClassification) :=
  match resolve_unknown_outcome with
  | None =>
    fail_attempt hash request ctx "UNKNOWN_COMMIT_UNRESOLVED" (fc_message c)
      (Exn "UnknownOutcomeUnresolvedError" "unknown commit outcome requires reconciliation before retry")
  | Some resolver =>
    answer ← call_resolver resolver ctx f;
    match answer with
    | ResolverRaised e =>
      if isinstance e "Exception" then _handle_resolver_failure hash request ctx f e else lift (Raise (f_exn e))
    | Resolved None => _handle_resolver_failure hash request ctx f invalid_resolution
    | Resolved (Some UOR_COMMITTED) => result ← succeed hash request ctx offset None (Some UOR_COMMITTED); mret (inl result)
    | Resolved (Some UOR_UNRESOLVED) =>
      fail_attempt hash request ctx "UNKNOWN_COMMIT_UNRESOLVED" (fc_message c)
        (Exn "UnknownOutcomeUnresolvedError" "target commit outcome remains unresolved; refusing blind retry")
    | Resolved (Some UOR_NOT_COMMITTED) =>
      classification ← lift (make_FailureClassification FD_RETRYABLE "UNKNOWN_COMMIT_NOT_COMMITTED" (fc_message c));
      mret (inr classification)
    end
  end.

Definition RecoveryExhausted : exn := Exn "RecoveryExhaustedError" "retry attempts exhausted".

(** The failed attempt is recorded; the computation returns when it may be retried. *)
Definition retry_or_raise (hash : string) (request : option ReprocessRequest) (policy : RetryPolicy)
    (ctx : AttemptContext) (offset : Z) (f : failure) (c : FailureClassification) : io unit :=
  let retryable := bool_decide (fc_disposition c = FD_RETRYABLE) in
  let can_retry := retryable && (offset + 1 <? rp_max_attempts policy) in
  _ ← _record_terminal_audit hash ctx DS_FAILED (Some (fc_error_code c)) (Some (fc_message c)) (Some can_retry);
  if can_retry then
    delay ← lift (delay_after_attempt float_pow policy (ac_attempt ctx));
    call_backoff delay
  else
    _ ← _update_reprocess_status request RR_FAILED;
    lift (Raise (if retryable then RecoveryExhausted else f_exn f)).

(** The [except] block: [None] continues the loop. *)
Definition handle_failure (hash : string) (request : option ReprocessRequest) (policy : RetryPolicy)
    (ctx : AttemptContext) (offset : Z) (f : failure) : io (option (RecoveryRunResult T)) :=
  classification ← lift (classify_failure f);
  resolved ← (if bool_decide (fc_disposition classification = FD_UNKNOWN_OUTCOME)
              then reconcile_unknown hash request ctx offset f classification
              else mret (inr classification));
  match resolved with
  | inl result => mret (Some result)
  | inr classification => _ ← retry_or_raise hash request policy ctx offset f classification; mret None
  end.

Definition record_lineage (ctx : AttemptContext) : io unit :=
  created_at ← now;
  lineage ← lift (make_DatasetAttemptLineage
    {| dal_dataset_run_id := ac_dataset_run_id ctx; dal_dataset_id := strip (ac_dataset_id ctx);
       dal_root_dataset_run_id := ac_root_dataset_run_id ctx;
       dal_previous_dataset_run_id := ac_previous_dataset_run_id ctx; dal_attempt := ac_attempt ctx;
       dal_run_mode := ac_run_mode ctx; dal_reprocess_request_id := ac_reprocess_request_id ctx;
       dal_created_at := created_at |});
  call_lineage lineage.

(** The context of the attempt [offset] with the id [dataset_run_id]. *)
Definition attempt_context (args : RetryArgs) (request : option ReprocessRequest) (root previous : option N)
    (offset : Z) (dataset_run_id : N) : AttemptContext :=
  {| ac_pipeline_run_id := ra_pipeline_run_id args; ac_dataset_run_id := dataset_run_id;
     ac_dataset_id := ra_dataset_id args; ac_root_dataset_run_id := default dataset_run_id root;
     ac_previous_dataset_run_id := previous; ac_attempt := ra_initial_attempt args + offset;
     ac_run_mode := ra_run_mode args; ac_reprocess_request_id := rr_reprocess_request_id <$> request |}.

(** [for offset in range(policy.max_attempts)], over the remaining offsets. *)
Fixpoint attempts (args : RetryArgs) (request : option ReprocessRequest) (last_error : option failure)
    (root previous : option N) (offsets : list Z) : io (RecoveryRunResult T) :=
  match offsets with
  | [] =>
    if is_some last_error then lift (Raise RecoveryExhausted) else throw "AssertionError" "last_error is not None"
  | offset :: offsets =>
    dataset_run_id ← fresh_uuid;
    let ctx := attempt_context args request root previous offset dataset_run_id in
    _ ← record_lineage ctx;
    answer ← call_execute ctx;
    match answer with
    | Returned v => succeed (ra_effective_config_hash args) request ctx offset (Some v) None
    | Failed f =>
      if isinstance f "Exception" then
        result ← handle_failure (ra_effective_config_hash args) request (policy_of args) ctx offset f;
        match result with
        | Some result => mret result
        | None => attempts args request (Some f) (Some (ac_root_dataset_run_id ctx)) (Some dataset_run_id) offsets
        end
      else lift (Raise (f_exn f))
    end
  end.

(** [range(n)] *)
Definition range (n : Z) : list Z := Z.of_nat <$> seq 0 (Z.to_nat n).

Definition execute_with_retry (args : RetryArgs) : io (RecoveryRunResult T) :=
  _ ← lift (check_lineage_args args);
  _ ← lift (check_request args);
  request ← _update_reprocess_status (ra_reprocess_request args) RR_RUNNING;
  attempts args request None (ra_root_dataset_run_id args) (ra_previous_dataset_run_id args)
    (range (rp_max_attempts (policy_of args))).
End retry.

(** ** The specification *)

(** An attempt of a run: what it did and what the resolver said when its outcome was unknown. *)
Record attempt (T : Type) := Attempt {
  at_context : AttemptContext;
  at_answer : attempt_answer T;
  at_resolution : option resolver_answer
}.
Arguments Attempt {T} at_context at_answer at_resolution.
Arguments at_context {T} _.
Arguments at_answer {T} _.
Arguments at_resolution {T} _.

Section specification.
Context {T : Type}.

(** The attempts of a log, newest first. *)
Fixpoint attempts_of (l : list (event T)) : list (attempt T) :=
  match l with
  | [] => []
  | EvExecute ctx answer :: l => Attempt ctx answer None :: attempts_of l
  | EvResolve _ _ r :: l =>
    match attempts_of l with
    | a :: h => Attempt (at_context a) (at_answer a) (Some r) :: h
    | [] => []
    end
  | _ :: l => attempts_of l
  end.

(** The outcome of the attempt is unknown. *)
Definition outcome_unknown (f : failure) : bool :=
  negb (isinstance f "RetryableExecutionError") && isinstance f "UnknownCommitOutcomeError".

Definition resolved_as (a : attempt T) (resolution : UnknownOutcomeResolution) : Prop :=
  at_resolution a = Some (Resolved (Some resolution)).

(** The failure is known not to have committed. *)
Definition may_retry (a : attempt T) : Prop :=
  exists f, at_answer a = Failed f /\ isinstance f "Exception" = true /\
    (isinstance f "RetryableExecutionError" = true \/ outcome_unknown f = true /\ resolved_as a UOR_NOT_COMMITTED).

(** The attempt returned, or is known to have committed. *)
Definition completed (a : attempt T) : Prop :=
  (exists v, at_answer a = Returned v) \/
  (exists f, at_answer a = Failed f /\ outcome_unknown f = true /\ resolved_as a UOR_COMMITTED).

(** The first context of a run, and the context of a retry. *)
Definition starts (args : RetryArgs) (c : AttemptContext) : Prop :=
  ac_attempt c = ra_initial_attempt args /\ ac_previous_dataset_run_id c = ra_previous_dataset_run_id args /\
  ac_root_dataset_run_id c = default (ac_dataset_run_id c) (ra_root_dataset_run_id args).

Definition follows (c d : AttemptContext) : Prop :=
  ac_attempt d = ac_attempt c + 1 /\ ac_previous_dataset_run_id d = Some (ac_dataset_run_id c) /\
  ac_root_dataset_run_id d = ac_root_dataset_run_id c.

(** The sequences of attempts a run may make, newest first. *)
Inductive history (args : RetryArgs) : list (attempt T) -> Prop :=
| history_start a : starts args (at_context a) -> history args [a]
| history_retry a b h :
    history args (a :: h) -> may_retry a -> follows (at_context a) (at_context b) ->
    Z.of_nat (length (a :: h)) < rp_max_attempts (policy_of args) -> history args (b :: a :: h).

(** The specification does not look at the answer of the newest attempt. *)
Lemma history_newest args a b h :
  at_context a = at_context b -> history args (a :: h) -> history args (b :: h).
Proof.
  intros Hc Hh. inversion Hh; subst; [apply history_start|eapply history_retry]; by rewrite <-?Hc.
Qed.

Lemma history_older args a h : history args (a :: h) -> Forall may_retry h.
Proof.
  revert a. induction h as [|b h IH]; intros a Hh; [done|].
  inversion Hh as [|? ? ? Hprev]; subst. constructor; [done|]. by eapply IH.
Qed.

Lemma may_retry_not_completed a : may_retry a -> ~ completed a.
Proof.
  unfold may_retry, completed, resolved_as, outcome_unknown. intros (f & -> & _ & Hr) [(v & ?)|(g & [= ->] & Hu & Hc)]; [done|].
  destruct Hr as [Hr|[_ Hn]]; [by rewrite Hr in Hu|congruence].
Qed.
End specification.

(** ** Every run follows the specification *)

Section runs.
Context {T : Type} `{RetryWorld T}.

Lemma record_lineage_keeps ctx : keeps attempts_of (record_lineage ctx).
Proof. unfold record_lineage, now, call_lineage. apply keeps_bind; [done|]. intros t. apply keeps_bind; [done|]. done. Qed.

Lemma record_audit_keeps hash ctx status code message retryable :
  keeps attempts_of (_record_terminal_audit hash ctx status code message retryable).
Proof. unfold _record_terminal_audit. apply keeps_bind; [done|]. intros t. by apply keeps_bind. Qed.

Lemma update_request_keeps request status : keeps attempts_of (_update_reprocess_status request status).
Proof.
  destruct request; [|done]. simpl. apply keeps_bind; [done|]. intros t. by apply keeps_bind.
Qed.
#[local] Hint Resolve record_lineage_keeps record_audit_keeps update_request_keeps : keeps.

Lemma fail_attempt_keeps {A} hash request ctx code message e :
  keeps attempts_of (fail_attempt (A := A) hash request ctx code message e).
Proof. unfold fail_attempt. auto with keeps. Qed.

Lemma fail_attempt_raises {A} hash request ctx code message e l :
  exists e', (fail_attempt (A := A) hash request ctx code message e l).1 = Raise e'.
Proof.
  unfold fail_attempt, mbind, eff_bind. destruct (_record_terminal_audit _ _ _ _ _ _ l) as [[[]|] s]; [|eauto].
  destruct (_update_reprocess_status _ _ s) as [[]]; simpl; eauto.
Qed.

(** A computation that fails the attempt raises and makes no attempt. *)
Lemma ends_fail_attempt {A} hash request ctx code message e l (Q : res A -> list (event T) -> Prop) :
  (forall e' l', attempts_of l' = attempts_of l -> Q (Raise e') l') ->
  ends (fail_attempt hash request ctx code message e) l Q.
Proof.
  intros HQ. unfold ends. destruct (fail_attempt_raises (A := A) hash request ctx code message e l) as [e' ->].
  apply HQ, fail_attempt_keeps.
Qed.

Lemma ends_succeed hash request ctx offset value resolution l :
  ends (succeed hash request ctx offset value resolution) l (fun r l' =>
    attempts_of l' = attempts_of l /\
    (forall x, r = Ok x -> rrr_value x = value /\ rrr_dataset_run_id x = ac_dataset_run_id ctx /\
       rrr_root_dataset_run_id x = ac_root_dataset_run_id ctx /\ rrr_attempts x = offset + 1 /\
       rrr_resolved_unknown_outcome x = resolution)).
Proof.
  unfold succeed. eapply (ends_keeps attempts_of); [auto with keeps|intros [] l1 _ E1|by intros; split].
  eapply (ends_keeps attempts_of); [auto with keeps|intros u l2 _ E2|intros; split; [congruence|done]].
  apply ends_ret. split; [congruence|]. by intros x [= <-].
Qed.

Lemma make_FailureClassification_Ok d code message c :
  make_FailureClassification d code message = Ok c -> fc_disposition c = d.
Proof. unfold make_FailureClassification. destruct (_ || _); [done|]. by intros [= <-]. Qed.

Lemma classify_failure_Ok f c :
  classify_failure f = Ok c ->
  (fc_disposition c = FD_UNKNOWN_OUTCOME <-> outcome_unknown f = true) /\
  (fc_disposition c = FD_RETRYABLE <-> isinstance f "RetryableExecutionError" = true).
Proof.
  unfold classify_failure, outcome_unknown. destruct (isinstance f "RetryableExecutionError"); simpl.
  { by intros ->%make_FailureClassification_Ok. }
  destruct (isinstance f "UnknownCommitOutcomeError"); [by intros ->%make_FailureClassification_Ok|].
  destruct (isinstance f "PermanentExecutionError"); by intros ->%make_FailureClassification_Ok.
Qed.

(** What the [except] block leaves: the attempt [a] with what the resolver said; it continues
    the loop only for an attempt that may be retried within the policy. *)
Definition handled (args : RetryArgs) (a : attempt T) (h : list (attempt T)) (offset : Z)
    (r : res (option (RecoveryRunResult T))) (l : list (event T)) : Prop :=
  exists resolution,
    let a' := Attempt (at_context a) (at_answer a) resolution in
    attempts_of l = a' :: h /\
    (r = Ok None -> may_retry a' /\ offset + 1 < rp_max_attempts (policy_of args)) /\
    (forall x, r = Ok (Some x) -> completed a' /\ rrr_attempts x = offset + 1 /\
       rrr_dataset_run_id x = ac_dataset_run_id (at_context a)).

Lemma ends_reconcile_unknown hash request ctx offset f c l h :
  attempts_of l = Attempt ctx (Failed f) None :: h -> outcome_unknown f = true ->
  ends (reconcile_unknown hash request ctx offset f c) l (fun r l' =>
    exists resolution,
      let a' := Attempt ctx (Failed f) resolution in
      attempts_of l' = a' :: h /\
      (forall c', r = Ok (inr c') -> resolved_as a' UOR_NOT_COMMITTED /\ fc_disposition c' = FD_RETRYABLE) /\
      (forall x, r = Ok (inl x) -> completed a' /\ rrr_attempts x = offset + 1 /\
         rrr_dataset_run_id x = ac_dataset_run_id ctx)).
Proof.
  intros Hl Hu. unfold reconcile_unknown. destruct resolve_unknown_outcome as [resolver|].
  2: { apply ends_fail_attempt. intros e l' El. exists None. rewrite El. by split. }
  apply ends_bind. unfold ends at 1, call_resolver; simpl. set (answer := resolver l ctx f).
  assert (Hl2 : attempts_of (EvResolve ctx f answer :: l) = Attempt ctx (Failed f) (Some answer) :: h).
  { simpl. by rewrite Hl. }
  assert (Hfail : forall code message e, ends (fail_attempt (A := RecoveryRunResult T + FailureClassification)
      hash request ctx code message e) (EvResolve ctx f answer :: l) (fun r l' =>
    exists resolution,
      let a' := Attempt ctx (Failed f) resolution in
      attempts_of l' = a' :: h /\
      (forall c', r = Ok (inr c') -> resolved_as a' UOR_NOT_COMMITTED /\ fc_disposition c' = FD_RETRYABLE) /\
      (forall x, r = Ok (inl x) -> completed a' /\ rrr_attempts x = offset + 1 /\
         rrr_dataset_run_id x = ac_dataset_run_id ctx))).
  { intros code message e. apply ends_fail_attempt. intros e' l' El. exists (Some answer). by rewrite El, Hl2. }
  destruct answer as [[[| |]|]|e]; [| |exact (Hfail _ _ _)|exact (Hfail _ _ _)|].
  - apply ends_bind. eapply ends_impl; [apply ends_succeed|]. intros [x|e] l' [El Hx].
    + apply ends_ret. exists (Some (Resolved (Some UOR_COMMITTED))). rewrite El, Hl2. split; [done|].
      split; [done|]. intros y [= <-]. destruct (Hx x eq_refl) as (_ & -> & _ & -> & _).
      split; [|done]. right. by exists f.
    + eexists. by rewrite El, Hl2.
  - apply ends_bind, ends_lift. destruct (make_FailureClassification _ _ _) as [c'|e] eqn:Ec.
    + apply ends_ret. eexists. rewrite Hl2. split; [done|]. split; [|done]. intros ? [= <-].
      by rewrite (make_FailureClassification_Ok _ _ _ _ Ec).
    + eexists. by rewrite Hl2.
  - destruct (isinstance e "Exception"); [exact (Hfail _ _ _)|]. apply ends_lift. eexists. by rewrite Hl2.
Qed.

Lemma ends_retry_or_raise hash request policy ctx offset f c l :
  ends (retry_or_raise hash request policy ctx offset f c) l (fun r l' =>
    attempts_of l' = attempts_of l /\
    (is_ok r = true -> fc_disposition c = FD_RETRYABLE /\ offset + 1 < rp_max_attempts policy)).
Proof.
  unfold retry_or_raise. eapply (ends_keeps attempts_of); [auto with keeps|intros [] l1 _ <-|by intros].
  destruct (bool_decide _ && _) eqn:Er.
  - apply andb_true_iff in Er as [Hd%bool_decide_eq_true Ho%Z.ltb_lt].
    apply ends_bind, ends_lift. by destruct (delay_after_attempt _ _ _).
  - eapply (ends_keeps attempts_of); [auto with keeps|intros u l2 _ <-; by split|by intros].
Qed.

Lemma ends_handle_failure args request ctx offset f l h :
  attempts_of l = Attempt ctx (Failed f) None :: h -> isinstance f "Exception" = true ->
  ends (handle_failure (ra_effective_config_hash args) request (policy_of args) ctx offset f) l
    (handled args (Attempt ctx (Failed f) None) h offset).
Proof.
  intros Hl Hf. unfold handle_failure. apply ends_bind, ends_lift.
  destruct (classify_failure f) as [c|e] eqn:Ec; [|by exists None].
  destruct (classify_failure_Ok _ _ Ec) as [Hu Hr]. apply ends_bind.
  case_bool_decide as Hd.
  - eapply ends_impl; [apply ends_reconcile_unknown; [done|by apply Hu]|].
    intros [[x|c']|e] l' (resolution & El & Hn & Hx).
    + apply ends_ret. exists resolution. split; [done|]. split; [done|]. intros y [= <-]. by apply Hx.
    + apply ends_bind. eapply ends_impl; [apply ends_retry_or_raise|]. intros [[]|e] l2 [El2 Hok];
        (exists resolution; simpl; rewrite El2; split; [done|]; split; [|done]); [intros _|done].
      destruct (Hok eq_refl) as [_ ?]. split; [|done]. exists f. split; [done|]. split; [done|].
      right. split; [by apply Hu|]. by eapply Hn.
    + exists resolution. by split.
  - apply ends_ret. cbn beta iota. apply ends_bind. eapply ends_impl; [apply ends_retry_or_raise|].
    intros [[]|e] l2 [El2 Hok]; (exists None; simpl; rewrite El2; split; [done|]; split; [|done]).
    + intros _. destruct (Hok eq_refl) as [Hret ?]. split; [|done]. exists f. split; [done|]. split; [done|].
      left. by apply Hr.
    + done.
Qed.

(** Before the attempt [k]. *)
Definition ready (args : RetryArgs) (root previous : option N) (k : nat) (l : list (event T)) : Prop :=
  match attempts_of l with
  | [] => k = 0%nat /\ root = ra_root_dataset_run_id args /\ previous = ra_previous_dataset_run_id args
  | a :: h =>
    history args (a :: h) /\ may_retry a /\ k = length (a :: h) /\ Z.of_nat k < rp_max_attempts (policy_of args) /\
    ac_attempt (at_context a) + 1 = ra_initial_attempt args + Z.of_nat k /\
    root = Some (ac_root_dataset_run_id (at_context a)) /\ previous = Some (ac_dataset_run_id (at_context a))
  end.

(** At the end of a run: its attempts follow the specification, and it returns only when the
    newest attempt completed. *)
Definition conforms (args : RetryArgs) (r : res (RecoveryRunResult T)) (l : list (event T)) : Prop :=
  match attempts_of l with
  | [] => is_ok r = false
  | a :: h =>
    history args (a :: h) /\
    (forall x, r = Ok x -> completed a /\ rrr_attempts x = Z.of_nat (length (a :: h)) /\
       rrr_dataset_run_id x = ac_dataset_run_id (at_context a))
  end.

Lemma ready_conforms args root previous k l e : ready args root previous k l -> conforms args (Raise e) l.
Proof. unfold ready, conforms. destruct (attempts_of l); [done|]. by intros (? & _). Qed.

(** The attempt [k] extends the history. *)
Lemma ready_history args request root previous k l id answer :
  ready args root previous k l ->
  let ctx := attempt_context args request root previous (Z.of_nat k) id in
  history args (Attempt ctx answer None :: attempts_of l) /\ k = length (attempts_of l).
Proof.
  unfold ready. destruct (attempts_of l) as [|a h].
  - intros (-> & -> & ->). split; [|done]. apply history_start. split; [|by split]. simpl. lia.
  - intros (Hh & Hr & -> & Hk & Ha & -> & ->). split; [|done]. apply history_retry; try done.
Qed.

(** After a failure that may be retried. *)
Lemma ready_next args request root previous k id f l l' :
  ready args root previous k l ->
  let ctx := attempt_context args request root previous (Z.of_nat k) id in
  handled args (Attempt ctx (Failed f) None) (attempts_of l) (Z.of_nat k) (Ok None) l' ->
  ready args (Some (ac_root_dataset_run_id ctx)) (Some id) (S k) l'.
Proof.
  intros Hl ctx (resolution & El & Hn & _). destruct (Hn eq_refl) as [Hr Hk].
  destruct (ready_history args request _ _ _ _ id (Failed f) Hl) as [Hh Hlen].
  unfold ready. rewrite El. simpl in *. split_and!; [|done|lia|lia|lia|done|done].
  eapply history_newest; [|exact Hh]. done.
Qed.

Lemma attempts_conform args request :
  forall m k last_error root previous l,
  ready args root previous k l ->
  ends (attempts args request last_error root previous (Z.of_nat <$> seq k m)) l (conforms args).
Proof.
  induction m as [|m IH]; intros k last_error root previous l Hl; simpl.
  { destruct (is_some last_error); by eapply ready_conforms. }
  apply ends_bind. unfold ends at 1, fresh_uuid; simpl. set (id := uuid4 l).
  set (ctx := attempt_context args request root previous (Z.of_nat k) id).
  eapply (ends_keeps attempts_of); [auto with keeps|intros [] l1 _ El|intros e l1 _ El].
  2: { eapply ready_conforms. unfold ready. by rewrite El. }
  simpl in El. assert (Hl1 : ready args root previous k l1) by (unfold ready; by rewrite El).
  apply ends_bind. unfold ends at 1, call_execute; simpl.
  destruct (ready_history args request _ _ _ _ id (execute_attempt l1 ctx) Hl1) as [Hh Hlen]. fold ctx in Hh.
  destruct (execute_attempt l1 ctx) as [v|f] eqn:Ef.
  - eapply ends_impl; [apply ends_succeed|]. intros r l2 [El2 Hx]. unfold conforms. rewrite El2. simpl.
    split; [done|]. intros x Hr. destruct (Hx x Hr) as (_ & -> & _ & -> & _).
    split; [left; by exists v|]. split; [lia|done].
  - destruct (isinstance f "Exception") eqn:Ex; [|by split].
    apply ends_bind. eapply ends_impl; [by apply (ends_handle_failure args _ _ _ _ _ (attempts_of l1))|].
    intros r l2 (resolution & El2 & Hn & Hx). cbn [at_context at_answer] in *.
    assert (Hh2 : history args (attempts_of l2)).
    { rewrite El2. eapply history_newest; [|exact Hh]. done. }
    destruct r as [[x|]|e].
    + apply ends_ret. unfold conforms. rewrite El2 in Hh2 |- *. split; [done|]. intros y [= <-].
      destruct (Hx x eq_refl) as (? & -> & ->). split; [done|]. split; [simpl; lia|done].
    + apply IH. eapply (ready_next _ request _ _ _ _ f); [exact Hl1|]. by exists resolution.
    + unfold conforms. rewrite El2 in Hh2 |- *. by split.
Qed.

Lemma execute_conforms args : ends (execute_with_retry args) [] (conforms args).
Proof.
  unfold execute_with_retry. apply ends_bind, ends_lift. destruct (check_lineage_args args) as [[]|e]; [|done].
  apply ends_bind, ends_lift. destruct (check_request args) as [[]|e]; [|done].
  eapply (ends_keeps attempts_of); [auto with keeps|intros request l _ El|intros e l _ El].
  - apply attempts_conform. unfold ready. by rewrite El.
  - unfold conforms. by rewrite El.
Qed.
End runs.

(** ** The evidence of a run *)

Section evidence.
Context {T : Type}.

(** The recorded audits of the log, newest first: run, attempt, status and [retryable]. *)
Definition audits_of (l : list (event T)) : list (N * Z * DatasetStatus * option bool) :=
  omap (fun ev => match ev with
                  | EvRun a (Ok _) => Some (dra_dataset_run_id a, dra_attempt a, dra_status a, dra_retryable a)
                  | _ => None
                  end) l.

(** The recorded lineage: run, root, previous run and attempt. *)
Definition lineage_of (l : list (event T)) : list (N * N * option N * Z) :=
  omap (fun ev => match ev with
                  | EvLineage a (Ok _) =>
                    Some (dal_dataset_run_id a, dal_root_dataset_run_id a, dal_previous_dataset_run_id a, dal_attempt a)
                  | _ => None
                  end) l.

(** The statuses the reprocess request went through. *)
Definition statuses_of (l : list (event T)) : list ReprocessRequestStatus :=
  omap (fun ev => match ev with EvRequest r (Ok _) => Some (rr_status r) | _ => None end) l.

(** What the history says the evidence is. *)
Definition retried_audit (a : attempt T) : N * Z * DatasetStatus * option bool :=
  (ac_dataset_run_id (at_context a), ac_attempt (at_context a), DS_FAILED, Some true).

Definition attempt_lineage (a : attempt T) : N * N * option N * Z :=
  let c := at_context a in
  (ac_dataset_run_id c, ac_root_dataset_run_id c, ac_previous_dataset_run_id c, ac_attempt c).

(** The result of a run whose last attempt, the [n]-th, is [a]. *)
Definition conclusion (n : Z) (a : attempt T) : res (RecoveryRunResult T) :=
  let c := at_context a in
  let result value resolution :=
    Ok {| rrr_value := value; rrr_dataset_run_id := ac_dataset_run_id c;
          rrr_root_dataset_run_id := ac_root_dataset_run_id c; rrr_attempts := n;
          rrr_resolved_unknown_outcome := resolution |} in
  match at_answer a with
  | Returned v => result (Some v) None
  | Failed f =>
    if isinstance f "RetryableExecutionError" then Raise RecoveryExhausted
    else if outcome_unknown f then
      match at_resolution a with
      | None => raise "UnknownOutcomeUnresolvedError" "unknown commit outcome requires reconciliation before retry"
      | Some (Resolved (Some UOR_COMMITTED)) => result None (Some UOR_COMMITTED)
      | Some (Resolved (Some UOR_NOT_COMMITTED)) => Raise RecoveryExhausted
      | Some (Resolved (Some UOR_UNRESOLVED)) =>
        raise "UnknownOutcomeUnresolvedError" "target commit outcome remains unresolved; refusing blind retry"
      | Some _ => raise "UnknownOutcomeResolutionFailedError" "unknown commit outcome resolver failed; refusing blind retry"
      end
    else Raise (f_exn f)
  end.

Definition last_audit (n : Z) (a : attempt T) : N * Z * DatasetStatus * option bool :=
  let c := at_context a in
  if is_ok (conclusion n a) then (ac_dataset_run_id c, ac_attempt c, DS_SUCCEEDED, None)
  else (ac_dataset_run_id c, ac_attempt c, DS_FAILED, Some false).

Definition last_status (n : Z) (request : option ReprocessRequest) (a : attempt T) : list ReprocessRequestStatus :=
  match request with
  | None => []
  | Some _ => [if is_ok (conclusion n a) then RR_SUCCEEDED else RR_FAILED]
  end.
End evidence.

(** A world in which the infrastructure works: the clock is aware, the repository and the backoff
    return, every failure is an [Exception] whose classification is valid, stripping is
    idempotent and leaves a string without whitespace as it is. *)
Class WorkingWorld (T : Type) `{RetryWorld T} := {
  utc_now_aware l : is_naive (utc_now l) = false;
  lineage_recorded l a : record_attempt_lineage l a = Ok tt;
  run_recorded l a : record_dataset_run l a = Ok tt;
  request_recorded l r : record_reprocess_request l r = Ok tt;
  backoff_returns l d : backoff l d = Ok tt;
  failures_classified l ctx f : execute_attempt l ctx = Failed f ->
    isinstance f "Exception" = true /\ is_ok (classify_failure f) = true;
  resolver_failures resolver l ctx f e : resolve_unknown_outcome = Some resolver ->
    resolver l ctx f = ResolverRaised e -> isinstance e "Exception" = true;
  strip_idempotent s : strip (strip s) = strip s;
  strip_solid s : forallb (fun c => (33 <=? Ascii.nat_of_ascii c)%nat && (Ascii.nat_of_ascii c <=? 126)%nat)
                    (String.list_ascii_of_string s) = true -> strip s = s
}.

Section accounted.
Context {T : Type} `{WorkingWorld T}.

(** What the evidence of a log is, apart from its attempts. *)
Definition evidence (l : list (event T)) := (audits_of l, lineage_of l, statuses_of l).

(** Arguments with which every record of the run is valid and every delay can be computed. *)
Definition valid_args (args : RetryArgs) : Prop :=
  check_lineage_args args = Ok tt /\ check_request args = Ok tt /\ 1 <= rp_max_attempts (policy_of args) /\
  nonempty (strip (ra_dataset_id args)) = true /\
  matches_class is_lower_hex 64 64 (strip (ra_effective_config_hash args)) = true /\
  (forall k, ra_initial_attempt args <= k -> k + 1 < ra_initial_attempt args + rp_max_attempts (policy_of args) ->
     is_ok (delay_after_attempt float_pow (policy_of args) k) = true).

Definition valid_context (args : RetryArgs) (ctx : AttemptContext) : Prop :=
  ac_dataset_id ctx = ra_dataset_id args /\ 1 <= ac_attempt ctx /\
  (ac_attempt ctx = 1 -> ac_previous_dataset_run_id ctx = None /\ ac_root_dataset_run_id ctx = ac_dataset_run_id ctx) /\
  (ac_attempt ctx <> 1 -> ac_previous_dataset_run_id ctx <> None).

Lemma ends_audit args ctx status code message retryable l :
  valid_args args -> valid_context args ctx ->
  ends (_record_terminal_audit (ra_effective_config_hash args) ctx status code message retryable) l (fun r l' =>
    r = Ok tt /\ attempts_of l' = attempts_of l /\
    evidence l' = ((ac_dataset_run_id ctx, ac_attempt ctx, status, retryable) :: audits_of l, lineage_of l, statuses_of l)).
Proof.
  intros (_ & _ & _ & Hd & Hh & _) (Ed & Ha & _). unfold _record_terminal_audit. apply ends_bind.
  unfold ends at 1, now; simpl. apply ends_bind, ends_lift.
  unfold make_DatasetRunAudit, validate_DatasetRunAudit, validate_span, require_aware_datetime. simpl.
  rewrite Ed, Hd, Hh, utc_now_aware. destruct (ac_attempt ctx <? 1) eqn:E1; [lia|]. simpl.
  unfold ends, call_run. simpl. rewrite run_recorded. split_and!; done.
Qed.

Lemma ends_update request status l :
  ends (_update_reprocess_status request status) l (fun r l' =>
    (exists request', r = Ok request' /\ is_some request' = is_some request /\
       (rr_reprocess_request_id <$> request') = rr_reprocess_request_id <$> request) /\
    attempts_of l' = attempts_of l /\
    evidence l' = (audits_of l, lineage_of l, (if is_some request then [status] else []) ++ statuses_of l)).
Proof.
  destruct request as [r|]; simpl; [|apply ends_ret; naive_solver].
  apply ends_bind. unfold ends at 1, now; simpl. apply ends_bind. unfold ends at 1, call_request; simpl.
  rewrite request_recorded. apply ends_ret. split; [by eexists|done].
Qed.

Lemma ends_lineage args ctx l :
  valid_args args -> valid_context args ctx ->
  ends (record_lineage ctx) l (fun r l' =>
    r = Ok tt /\ attempts_of l' = attempts_of l /\
    evidence l' = (audits_of l, (ac_dataset_run_id ctx, ac_root_dataset_run_id ctx, ac_previous_dataset_run_id ctx,
                                ac_attempt ctx) :: lineage_of l, statuses_of l)).
Proof.
  intros (_ & _ & _ & Hd & _) (Ed & Ha & H1 & H2). unfold record_lineage. apply ends_bind.
  unfold ends at 1, now; simpl. apply ends_bind, ends_lift.
  assert (Hok : forall a, a = {| dal_dataset_run_id := ac_dataset_run_id ctx; dal_dataset_id := strip (ac_dataset_id ctx);
       dal_root_dataset_run_id := ac_root_dataset_run_id ctx;
       dal_previous_dataset_run_id := ac_previous_dataset_run_id ctx; dal_attempt := ac_attempt ctx;
       dal_run_mode := ac_run_mode ctx; dal_reprocess_request_id := ac_reprocess_request_id ctx;
       dal_created_at := utc_now l |} -> make_DatasetAttemptLineage a = Ok a).
  { intros a ->. unfold make_DatasetAttemptLineage; simpl. rewrite Ed, Hd. destruct (ac_attempt ctx <? 1) eqn:E1; [lia|].
    simpl. destruct (ac_attempt ctx =? 1) eqn:E2.
    - apply Z.eqb_eq in E2. destruct (H1 E2) as [-> ->]. simpl. by rewrite N.eqb_refl.
    - apply Z.eqb_neq in E2. by destruct (ac_previous_dataset_run_id ctx); [|destruct (H2 E2)]. }
  rewrite (Hok _ eq_refl). cbn beta iota. unfold ends, call_lineage. simpl. by rewrite lineage_recorded.
Qed.

(** How an attempt is closed. *)
Definition closed (request : option ReprocessRequest) (ctx : AttemptContext) (ok : bool) (l l' : list (event T)) : Prop :=
  evidence l' =
  ((ac_dataset_run_id ctx, ac_attempt ctx, if ok then DS_SUCCEEDED else DS_FAILED, if ok then None else Some false)
     :: audits_of l, lineage_of l,
   (if is_some request then [if ok then RR_SUCCEEDED else RR_FAILED] else []) ++ statuses_of l).

Lemma ends_fail_closed {A} args request ctx code message e l :
  valid_args args -> valid_context args ctx ->
  ends (fail_attempt (A := A) (ra_effective_config_hash args) request ctx code message e) l (fun r l' =>
    r = Raise e /\ attempts_of l' = attempts_of l /\ closed request ctx false l l').
Proof.
  intros Ha Hc. unfold fail_attempt. apply ends_bind. eapply ends_impl; [by apply (ends_audit args)|].
  intros r l1 (-> & E1 & [= V1 V2 V3]). apply ends_bind. eapply ends_impl; [apply ends_update|].
  intros r l2 ((request' & -> & _) & E2 & V). apply ends_lift. unfold closed. by rewrite E2, E1, V, V1, V2, V3.
Qed.

Lemma ends_succeed_closed args request ctx offset value resolution l :
  valid_args args -> valid_context args ctx ->
  ends (succeed (ra_effective_config_hash args) request ctx offset value resolution) l (fun r l' =>
    r = Ok {| rrr_value := value; rrr_dataset_run_id := ac_dataset_run_id ctx;
              rrr_root_dataset_run_id := ac_root_dataset_run_id ctx; rrr_attempts := offset + 1;
              rrr_resolved_unknown_outcome := resolution |} /\
    attempts_of l' = attempts_of l /\ closed request ctx true l l').
Proof.
  intros Ha Hc. unfold succeed. apply ends_bind. eapply ends_impl; [by apply (ends_audit args)|].
  intros r l1 (-> & E1 & [= V1 V2 V3]). apply ends_bind. eapply ends_impl; [apply ends_update|].
  intros r l2 ((request' & -> & _) & E2 & V). apply ends_ret. unfold closed. by rewrite E2, E1, V, V1, V2, V3.
Qed.

(** The failed attempt is retried within the policy, or closed. *)
Lemma ends_retried args request ctx offset f c l :
  valid_args args -> valid_context args ctx -> 0 <= offset -> ac_attempt ctx = ra_initial_attempt args + offset ->
  ends (retry_or_raise (ra_effective_config_hash args) request (policy_of args) ctx offset f c) l (fun r l' =>
    attempts_of l' = attempts_of l /\
    (r = Ok tt /\ fc_disposition c = FD_RETRYABLE /\ offset + 1 < rp_max_attempts (policy_of args) /\
       evidence l' = ((ac_dataset_run_id ctx, ac_attempt ctx, DS_FAILED, Some true) :: audits_of l, lineage_of l, statuses_of l) \/
     r = Raise (if bool_decide (fc_disposition c = FD_RETRYABLE) then RecoveryExhausted else f_exn f) /\
       closed request ctx false l l')).
Proof.
  intros Ha Hc Hpos Hoff. unfold retry_or_raise. apply ends_bind. eapply ends_impl; [by apply (ends_audit args)|].
  intros r l1 (-> & E1 & V). destruct (bool_decide _ && _) eqn:Er.
  - apply andb_true_iff in Er as [Hd%bool_decide_eq_true Ho%Z.ltb_lt]. apply ends_bind, ends_lift.
    destruct Ha as (_ & _ & _ & _ & _ & Hdelay). specialize (Hdelay (ac_attempt ctx) ltac:(lia) ltac:(lia)).
    destruct (delay_after_attempt _ _ _) as [d|]; [|done]. unfold ends, call_backoff; simpl. rewrite backoff_returns.
    split; [done|]. by left.
  - apply ends_bind. eapply ends_impl; [apply ends_update|]. intros r l2 ((request' & -> & _) & E2 & V2).
    apply ends_lift. split; [by rewrite E2|]. right. split; [done|]. unfold closed. rewrite V2.
    by injection V as -> -> ->.
Qed.

(** The classification of an outcome that had not committed is valid. *)
Lemma not_committed_classified f c :
  classify_failure f = Ok c ->
  exists c', make_FailureClassification FD_RETRYABLE "UNKNOWN_COMMIT_NOT_COMMITTED" (fc_message c) = Ok c'.
Proof.
  intros Hc.
  assert (Hm : nonempty (fc_message c) = true /\ strip (fc_message c) = fc_message c).
  { revert Hc. unfold classify_failure, make_FailureClassification.
    repeat case_match; intros [= <-]; simpl; (split; [|apply strip_idempotent]).
    all: match goal with E : _ || negb (nonempty ?x) = false |- nonempty ?x = true => by destruct (nonempty x); [|destruct (negb _)] end. }
  destruct Hm as [Hm1 Hm2]. unfold make_FailureClassification.
  rewrite Hm2, Hm1, (strip_solid "UNKNOWN_COMMIT_NOT_COMMITTED") by (vm_compute; reflexivity). simpl. by eexists.
Qed.

(** The attempt [a] closes the run as the [n]-th attempt. *)
Definition closes {A} (wrap : RecoveryRunResult T -> A) (request : option ReprocessRequest) (n : Z) (a : attempt T)
    (l : list (event T)) (r : res A) (l' : list (event T)) : Prop :=
  r = wrap <$> conclusion n a /\ closed request (at_context a) (is_ok (conclusion n a)) l l'.

Lemma ends_reconciled args request ctx offset f c l h :
  valid_args args -> valid_context args ctx -> attempts_of l = Attempt ctx (Failed f) None :: h ->
  outcome_unknown f = true -> classify_failure f = Ok c ->
  ends (reconcile_unknown (ra_effective_config_hash args) request ctx offset f c) l (fun r l' =>
    exists resolution, let a := Attempt ctx (Failed f) resolution in
    attempts_of l' = a :: h /\
    ((exists c', r = Ok (inr c') /\ fc_disposition c' = FD_RETRYABLE) /\ resolved_as a UOR_NOT_COMMITTED /\ evidence l' = evidence l \/
     closes inl request (offset + 1) a l r l')).
Proof.
  intros Ha Hc Hl Hu Hf. pose proof Hu as Hu'. unfold outcome_unknown in Hu'. apply andb_true_iff in Hu' as [Hr%negb_true_iff _].
  unfold reconcile_unknown. destruct resolve_unknown_outcome as [resolver|] eqn:Er.
  2: { eapply ends_impl; [by apply (ends_fail_closed args)|]. intros r l' (-> & El & Hev). exists None.
       rewrite El. split; [done|]. right. unfold closes, conclusion. simpl. by rewrite Hr, Hu. }
  apply ends_bind. unfold ends at 1, call_resolver; simpl. destruct (resolver l ctx f) as [[[| |]|]|e] eqn:Ea.
  all: try (rewrite (resolver_failures _ _ _ _ _ Er Ea)).
  all: try (eapply ends_impl; [by apply (ends_fail_closed args)|]; intros r l' (-> & El & Hev);
    eexists; rewrite El; simpl; rewrite Hl; split; [done|]; right; unfold closes, conclusion; simpl; by rewrite Hr, Hu).
  - apply ends_bind. eapply ends_impl; [by apply (ends_succeed_closed args)|]. intros r l' (-> & El & Hev).
    apply ends_ret. eexists. rewrite El. simpl. rewrite Hl. split; [done|]. right. unfold closes, conclusion. simpl. by rewrite Hr, Hu.
  - destruct (not_committed_classified _ _ Hf) as [c' Hc']. rewrite Hc'. apply ends_bind, ends_lift, ends_ret.
    eexists. simpl. rewrite Hl. split; [done|]. left. split; [|done].
    exists c'. split; [done|]. by eapply make_FailureClassification_Ok.
Qed.

Lemma closed_evidence request ctx ok l1 l l' : evidence l1 = evidence l -> closed request ctx ok l1 l' -> closed request ctx ok l l'.
Proof. unfold closed. by intros [= -> -> ->]. Qed.

(** What the [except] block leaves of the failed attempt: it may be retried, or it closes the run. *)
Definition accounted_failure (args : RetryArgs) (request : option ReprocessRequest) (ctx : AttemptContext) (offset : Z)
    (f : failure) (h : list (attempt T)) (l : list (event T)) (r : res (option (RecoveryRunResult T))) (l' : list (event T)) : Prop :=
  exists resolution, let a := Attempt ctx (Failed f) resolution in
  attempts_of l' = a :: h /\
  (r = Ok None /\ offset + 1 < rp_max_attempts (policy_of args) /\
     evidence l' = (retried_audit a :: audits_of l, lineage_of l, statuses_of l) \/
   closes Some request (offset + 1) a l r l').

(** A failure that is not, or no longer, unknown. *)
Lemma ends_retried_failure args request ctx offset f c resolution l l1 h :
  valid_args args -> valid_context args ctx -> 0 <= offset -> ac_attempt ctx = ra_initial_attempt args + offset ->
  attempts_of l1 = Attempt ctx (Failed f) resolution :: h -> evidence l1 = evidence l ->
  conclusion (T := T) (offset + 1) (Attempt ctx (Failed f) resolution) =
    Raise (if bool_decide (fc_disposition c = FD_RETRYABLE) then RecoveryExhausted else f_exn f) ->
  ends (_ ← retry_or_raise (ra_effective_config_hash args) request (policy_of args) ctx offset f c; mret None) l1
    (accounted_failure args request ctx offset f h l).
Proof.
  intros Ha Hc Hpos Hoff El1 Ev1 Econ. apply ends_bind. eapply ends_impl; [by apply (ends_retried args)|].
  intros r l2 [El2 [(-> & _ & Hk & Hev)|[-> Hev]]]; [apply ends_ret|]; (exists resolution; rewrite El2; split; [done|]).
  - left. split_and!; [done|done|]. rewrite Hev. by injection Ev1 as -> -> ->.
  - right. unfold closes. rewrite Econ. split; [done|]. by eapply closed_evidence.
Qed.

Lemma ends_handled args request ctx offset f l h :
  valid_args args -> valid_context args ctx -> 0 <= offset -> ac_attempt ctx = ra_initial_attempt args + offset ->
  attempts_of l = Attempt ctx (Failed f) None :: h -> is_ok (classify_failure f) = true ->
  ends (handle_failure (ra_effective_config_hash args) request (policy_of args) ctx offset f) l
    (accounted_failure args request ctx offset f h l).
Proof.
  intros Ha Hc Hpos Hoff Hl Hf. unfold handle_failure. apply ends_bind, ends_lift.
  destruct (classify_failure f) as [c|] eqn:Ec; [|done]. destruct (classify_failure_Ok _ _ Ec) as [Hu Hr].
  apply ends_bind. case_bool_decide as Hd.
  - apply Hu in Hd as Hunk. eapply ends_impl; [by apply (ends_reconciled args)|].
    unfold outcome_unknown in Hunk. apply andb_true_iff in Hunk as [Hnr%negb_true_iff Hunk].
    intros r l1 (resolution & El1 & [((c' & -> & Hc') & Hn & Ev1)|[-> Hcl]]).
    + apply (ends_retried_failure _ _ _ _ _ _ resolution); try done. unfold conclusion, outcome_unknown. simpl.
      rewrite Hnr, Hunk. unfold resolved_as in Hn. simpl in *. by rewrite Hn, Hc'.
    + unfold accounted_failure, closes.
      destruct (conclusion _ _) as [x|e] eqn:Ex; simpl; [apply ends_ret|]; (exists resolution; split; [done|]; right; by rewrite Ex).
  - apply ends_ret. cbn beta iota. apply (ends_retried_failure _ _ _ _ _ _ None); try done. unfold conclusion. simpl.
    destruct (outcome_unknown f) eqn:Eu; [by destruct (Hd (proj2 Hu eq_refl))|].
    case_bool_decide as Hd2; [by rewrite (proj1 Hr Hd2)|].
    destruct (isinstance f "RetryableExecutionError"); [by destruct (Hd2 (proj2 Hr eq_refl))|done].
Qed.

(** The evidence of a finished run is what its history says. *)
Definition accounted (args : RetryArgs) (r : res (RecoveryRunResult T)) (l : list (event T)) : Prop :=
  match attempts_of l with
  | [] => False
  | a :: h =>
    let n := Z.of_nat (length (a :: h)) in
    r = conclusion n a /\
    audits_of l = last_audit n a :: (retried_audit <$> h) /\
    lineage_of l = attempt_lineage <$> (a :: h) /\
    statuses_of l = last_status n (ra_reprocess_request args) a ++ (if is_some (ra_reprocess_request args) then [RR_RUNNING] else [])
  end.

(** The evidence before the attempt [k]. *)
Definition pending (args : RetryArgs) (l : list (event T)) : Prop :=
  evidence l = (retried_audit <$> attempts_of l, attempt_lineage <$> attempts_of l,
                if is_some (ra_reprocess_request args) then [RR_RUNNING] else []).

Lemma closed_accounted args request l1 l2 a h :
  is_some request = is_some (ra_reprocess_request args) ->
  evidence l1 = (retried_audit <$> h, attempt_lineage <$> (a :: h), if is_some (ra_reprocess_request args) then [RR_RUNNING] else []) ->
  attempts_of l2 = a :: h ->
  let n := Z.of_nat (length (a :: h)) in
  closed request (at_context a) (is_ok (conclusion n a)) l1 l2 -> accounted args (conclusion n a) l2.
Proof.
  intros Hreq [= V1 V2 V3] El n [= W1 W2 W3]. unfold accounted. rewrite El, W1, W2, W3, V1, V2, V3, Hreq.
  unfold last_audit, last_status. fold n. split; [done|]. split; [|split; [done|]].
  - by destruct (is_ok _).
  - by destruct (ra_reprocess_request args).
Qed.

Lemma ready_context args request root previous k (l : list (event T)) id :
  valid_args args -> ready args root previous k l ->
  valid_context args (attempt_context args request root previous (Z.of_nat k) id).
Proof.
  unfold valid_args, check_lineage_args, ready. intros (Hl & _) Hr. unfold valid_context. simpl. split; [done|].
  destruct (ra_initial_attempt args <? 1) eqn:E1; [done|].
  destruct (attempts_of l) as [|a h].
  - destruct Hr as (-> & -> & ->). destruct (ra_initial_attempt args =? 1) eqn:E2.
    + split; [lia|]. destruct (ra_root_dataset_run_id args), (ra_previous_dataset_run_id args); try done.
      split; [done|]. lia.
    + split; [lia|]. split; [lia|]. intros _ Hn. rewrite Hn in Hl. by destruct (ra_root_dataset_run_id args).
  - destruct Hr as (_ & _ & -> & _ & _ & _ & ->). simpl. split; [lia|]. split; [lia|done].
Qed.

(** The evidence once the lineage of an attempt is recorded. *)
Lemma pending_lineage args l l1 (a : attempt T) :
  pending args l -> attempts_of l1 = attempts_of l ->
  evidence l1 = (audits_of l, attempt_lineage a :: lineage_of l, statuses_of l) ->
  evidence l1 = (retried_audit <$> attempts_of l1, attempt_lineage <$> (a :: attempts_of l1),
                 if is_some (ra_reprocess_request args) then [RR_RUNNING] else []).
Proof. intros [= V1 V2 V3] El ->. rewrite El. simpl. by rewrite V1, V2, V3. Qed.

Lemma attempts_accounted args request :
  valid_args args -> is_some request = is_some (ra_reprocess_request args) ->
  forall m k last_error root previous l,
  Z.of_nat (k + m) = rp_max_attempts (policy_of args) -> ready args root previous k l -> pending args l ->
  ends (attempts args request last_error root previous (Z.of_nat <$> seq k m)) l (accounted args).
Proof.
  intros Hargs Hreq. induction m as [|m IH]; intros k last_error root previous l Hk Hl Hp.
  { exfalso. unfold ready in Hl. destruct Hargs as (_ & _ & Hm & _). destruct (attempts_of l).
    - destruct Hl as (-> & _). lia.
    - destruct Hl as (_ & _ & _ & Hlt & _). lia. }
  simpl. apply ends_bind. unfold ends at 1, fresh_uuid; simpl. set (id := uuid4 l).
  set (ctx := attempt_context args request root previous (Z.of_nat k) id).
  assert (Hctx : valid_context args ctx) by (eapply ready_context; done).
  apply ends_bind. eapply ends_impl; [by apply (ends_lineage args)|]. intros r l1 (-> & El1 & Ev1). simpl in El1.
  assert (Hl1 : ready args root previous k l1) by (unfold ready; by rewrite El1).
  apply ends_bind. unfold ends at 1, call_execute; simpl.
  destruct (ready_history args request _ _ _ _ id (execute_attempt l1 ctx) Hl1) as [Hh Hlen]. fold ctx in Hh.
  assert (Ev2 : forall resolution, _) by (intros resolution;
    exact (pending_lineage args l l1 (Attempt ctx (execute_attempt l1 ctx) resolution) Hp El1 Ev1)).
  assert (En : Z.of_nat k + 1 = Z.of_nat (S (length (attempts_of l1)))) by lia.
  destruct (execute_attempt l1 ctx) as [v|f] eqn:Ef.
  - eapply ends_impl; [by apply (ends_succeed_closed args)|]. intros r l3 (-> & El3 & Hcl). rewrite En.
    by apply (closed_accounted args request _ l3 (Attempt ctx (Returned v) None) _ Hreq (Ev2 None)).
  - destruct (failures_classified _ _ _ Ef) as [Hx Hc]. rewrite Hx.
    apply ends_bind. eapply ends_impl.
    { apply ends_and; [apply (ends_handled args _ _ _ _ _ (attempts_of l1)); try done; lia|].
      by apply (ends_handle_failure args _ _ _ _ _ (attempts_of l1)). }
    intros r l3 [(resolution & El3 & Hcase) Hhd]. rewrite En in Hcase. destruct Hcase as [(-> & Hlt & Ev3)|[-> Hcl]].
    + apply IH; [lia|by eapply (ready_next _ request _ _ _ _ f)|]. unfold pending. rewrite El3, Ev3.
      specialize (Ev2 resolution). injection Ev2 as V1 V2 V3. simpl. unfold audits_of, lineage_of, statuses_of in *.
      simpl. by rewrite V1, V2, V3.
    + pose proof (closed_accounted args request _ l3 _ _ Hreq (Ev2 resolution) El3 Hcl) as Hacc.
      destruct (conclusion _ _); [apply ends_ret|]; exact Hacc.
Qed.

Lemma execute_accounted args : valid_args args -> ends (execute_with_retry args) [] (accounted args).
Proof.
  intros Hargs. pose proof Hargs as (Hl & Hr & Hm & _). unfold execute_with_retry. rewrite Hl, Hr.
  apply ends_bind, ends_lift, ends_bind, ends_lift, ends_bind.
  eapply ends_impl; [apply ends_update|]. intros r l ((request & -> & Hs & _) & El & Ev).
  apply attempts_accounted; [done|done| | |].
  - lia.
  - unfold ready. rewrite El. by simpl.
  - unfold pending. rewrite El, Ev. simpl. by rewrite app_nil_r.
Qed.
End accounted.

(** ** Properties *)

Lemma history_bound {T} args (h : list (attempt T)) :
  history args h -> Z.of_nat (length h) <= Z.max 1 (rp_max_attempts (policy_of args)).
Proof. intros Hh. inversion Hh; subst; simpl in *; lia. Qed.

(** C17. Whatever the world answers, the attempts of a run of [execute_with_retry] are a history of
    the specification: attempts are chained by number, previous run and root, an attempt is
    repeated only after a failure that is retryable or whose unknown outcome was resolved as not
    committed, never more often than the policy allows; and the run returns only when its last
    attempt returned or is known to have committed. *)
Theorem retry_follows_history {T} `{RetryWorld T} args r l :
  execute_with_retry args [] = (r, l) ->
  (attempts_of l = [] /\ is_ok r = false) \/
  (exists a h, attempts_of l = a :: h /\ history args (a :: h) /\
     Z.of_nat (length (a :: h)) <= Z.max 1 (rp_max_attempts (policy_of args)) /\
     (forall x, r = Ok x -> completed a /\ rrr_attempts x = Z.of_nat (length (a :: h)) /\
        rrr_dataset_run_id x = ac_dataset_run_id (at_context a))).
Proof.
  intros E. pose proof (execute_conforms args) as Hc. unfold ends, conforms in Hc. rewrite E in Hc. simpl in Hc.
  destruct (attempts_of l) as [|a h]; [by left|]. right. exists a, h. destruct Hc as [Hh Hx].
  split_and!; [done|done|by apply history_bound|done].
Qed.

(** The answers say what happened in the target: [committed c] when the attempt [c] committed. *)
Definition truthful {T} (committed : AttemptContext -> bool) (a : attempt T) : Prop :=
  match at_answer a with
  | Returned _ => committed (at_context a) = true
  | Failed f =>
    (isinstance f "RetryableExecutionError" = true -> committed (at_context a) = false) /\
    (resolved_as a UOR_COMMITTED -> committed (at_context a) = true) /\
    (resolved_as a UOR_NOT_COMMITTED -> committed (at_context a) = false)
  end.

Definition commits {T} (committed : AttemptContext -> bool) (h : list (attempt T)) : list (attempt T) :=
  filter (fun a => committed (at_context a) = true) h.

Lemma retried_do_not_commit {T} committed (h : list (attempt T)) :
  Forall may_retry h -> Forall (truthful committed) h -> commits committed h = [].
Proof.
  intros Hr Ht. apply filter_none. rewrite !Forall_forall in *. intros a Ha. specialize (Hr a Ha). specialize (Ht a Ha).
  destruct Hr as (f & Ef & _ & Hr). unfold truthful in Ht. rewrite Ef in Ht. destruct Ht as (H1 & _ & H3).
  destruct Hr as [Hr|[_ Hr]]; [rewrite H1 by done|rewrite H3 by done]; done.
Qed.

(** C18. When retryable failures did not commit and the resolver tells the truth, a run of
    [execute_with_retry] commits at most one attempt, and exactly one when it returns. *)
Theorem retry_commits_once {T} `{RetryWorld T} args r l committed :
  execute_with_retry args [] = (r, l) -> Forall (truthful committed) (attempts_of l) ->
  (length (commits committed (attempts_of l)) <= 1)%nat /\
  (is_ok r = true -> length (commits committed (attempts_of l)) = 1%nat).
Proof.
  intros E Ht. pose proof (execute_conforms args) as Hc. unfold ends, conforms in Hc. rewrite E in Hc. simpl in Hc.
  destruct (attempts_of l) as [|a h]; [split; [simpl; lia|by rewrite Hc]|]. destruct Hc as [Hh Hx]. inversion Ht as [|? ? Ha Hts]; subst.
  unfold commits. rewrite filter_cons. fold (commits committed h).
  rewrite (retried_do_not_commit _ _ (history_older _ _ _ Hh) Hts). split; [case_decide; simpl; lia|].
  destruct r as [x|]; [intros _|done]. destruct (Hx x eq_refl) as ([(v & Ev)|(f & Ef & _ & Hr)] & _).
  - unfold truthful in Ha. rewrite Ev in Ha. by rewrite decide_True.
  - unfold truthful in Ha. rewrite Ef in Ha. destruct Ha as (_ & Hcom & _). by rewrite decide_True by auto.
Qed.

(** In a world whose infrastructure works, a run of [execute_with_retry] with valid arguments
    makes at least one attempt; its result is the conclusion of its last attempt, every attempt
    has its lineage and one terminal audit, FAILED and retryable for the retried ones, and the
    reprocess request goes from RUNNING to the outcome of the last attempt. *)
Theorem retry_accounted {T} `{WorkingWorld T} args r l :
  valid_args args -> execute_with_retry args [] = (r, l) ->
  exists a h, attempts_of l = a :: h /\
    let n := Z.of_nat (length (a :: h)) in
    r = conclusion n a /\
    audits_of l = last_audit n a :: (retried_audit <$> h) /\
    lineage_of l = attempt_lineage <$> (a :: h) /\
    statuses_of l = last_status n (ra_reprocess_request args) a
                    ++ (if is_some (ra_reprocess_request args) then [RR_RUNNING] else []).
Proof.
  intros Ha E. pose proof (execute_accounted args Ha) as Hacc. unfold ends, accounted in Hacc. rewrite E in Hacc. simpl in Hacc.
  destruct (attempts_of l) as [|a h]; [done|]. by exists a, h.
Qed.

(** ** Concrete runs *)

Module Demo.

(** [s.strip()] on ASCII *)
Fixpoint drop_spaces (l : list Ascii.ascii) : list Ascii.ascii :=
  match l with c :: l' => if is_space c then drop_spaces l' else l | [] => [] end.
Definition trim (s : string) : string :=
  String.string_of_list_ascii (rev (drop_spaces (rev (drop_spaces (String.list_ascii_of_string s))))).

(** [**] on a float and an [int], with correct rounding. *)
Definition pow (q : Q) (n : Z) : res Q :=
  let p := Qpower q n in if overflows p then raise "OverflowError" "Numerical result out of range" else Ok (round_double p).

(** The clock ticks with every call, every record is accepted, the attempts do what the script
    says and the resolver always gives the same answer. *)
#[local] Instance world (script : Z -> attempt_answer Z) (resolution : resolver_answer) (strip : string -> string) : RetryWorld Z := {|
  utc_now l := utc (Z.of_nat (length l));
  uuid4 l := N.of_nat (length l);
  record_attempt_lineage _ _ := Ok tt;
  record_dataset_run _ _ := Ok tt;
  record_reprocess_request _ _ := Ok tt;
  execute_attempt _ ctx := script (ac_attempt ctx);
  resolve_unknown_outcome := Some (fun _ _ _ => resolution);
  backoff _ _ := Ok tt;
  float_pow := pow;
  redact s := s;
  Retry.strip := strip
|}.

Definition error (cls message code : string) : failure :=
  {| f_exn := Exn cls message; f_classes := [cls; "RuntimeError"; "Exception"; "BaseException"];
     f_text := message; f_error_code := code |}.
Definition timeout : failure := error "RetryableExecutionError" "timeout" "TRANSIENT_FAILURE".
Definition lost : failure := error "UnknownCommitOutcomeError" "connection lost" "UNKNOWN_COMMIT_OUTCOME".

(** A lost connection, a timeout, and the value 7. *)
Definition script (attempt : Z) : attempt_answer Z :=
  if attempt =? 1 then Failed lost else if attempt =? 2 then Failed timeout else Returned 7.

Definition request : ReprocessRequest :=
  {| rr_reprocess_request_id := 9; rr_dataset_id := "orders"; rr_run_mode := RM_RETRY; rr_reason := "late";
     rr_requested_by := "op"; rr_original_pipeline_run_id := None; rr_original_dataset_run_id := Some 3%N;
     rr_range_json := None; rr_status := RR_PENDING; rr_created_at := utc 0; rr_updated_at := None |}.

Definition args (policy : option RetryPolicy) : RetryArgs :=
  {| ra_pipeline_run_id := 1; ra_dataset_id := "orders";
     ra_effective_config_hash := "00000000000000000000000000000000000000000000000000000000000000aa";
     ra_retry_policy := policy; ra_run_mode := RM_RETRY; ra_reprocess_request := Some request;
     ra_initial_attempt := 1; ra_root_dataset_run_id := None; ra_previous_dataset_run_id := None |}.

Definition run (script : Z -> attempt_answer Z) (resolution : resolver_answer) (policy : option RetryPolicy) :=
  @execute_with_retry Z (world script resolution trim) (args policy) [].

Definition not_committed : resolver_answer := Resolved (Some UOR_NOT_COMMITTED).

Example third_attempt_returns :
  (rrr_attempts <$> (run script not_committed None).1) = Ok 3 /\
  audits_of (run script not_committed None).2 =
    [(17%N, 3, DS_SUCCEEDED, None); (10%N, 2, DS_FAILED, Some true); (2%N, 1, DS_FAILED, Some true)].
Proof. vm_compute. split; reflexivity. Qed.

(** A retryable failure whose message is blank: its classification is not valid, the exception of
    the model leaves the [except] block, and neither the failed attempt nor the request is closed. *)
Definition blank_failure : failure := error "RetryableExecutionError" " " "TRANSIENT_FAILURE".

(** A retryable failure with a blank message is neither retried nor recorded: the run raises the
    ValidationError of its classification, the attempt has no terminal audit and the reprocess
    request stays RUNNING. *)
Theorem blank_failure_not_recorded :
  let o := run (fun _ => Failed blank_failure) not_committed None in
  o.1 = bad_field /\ length (attempts_of o.2) = 1%nat /\ audits_of o.2 = [] /\ statuses_of o.2 = [RR_RUNNING].
Proof. vm_compute. done. Qed.

Definition steep_policy : RetryPolicy :=
  {| rp_max_attempts := 10; rp_initial_backoff_seconds := 1; rp_multiplier := inject_Z (10 ^ 200); rp_max_backoff_seconds := 60 |}.

(** The delay is capped after the power is computed, so a steep multiplier overflows instead of
    waiting [max_backoff_seconds]: the run raises OverflowError with attempts left, after the last
    audit said that the failure would be retried, and the reprocess request stays RUNNING. *)
Theorem steep_backoff_overflows :
  let o := run (fun _ => Failed timeout) not_committed (Some steep_policy) in
  make_RetryPolicy steep_policy = Ok steep_policy /\
  o.1 = raise "OverflowError" "Numerical result out of range" /\ length (attempts_of o.2) = 3%nat /\
  (audits_of o.2).*2 = [Some true; Some true; Some true] /\ statuses_of o.2 = [RR_RUNNING].
Proof. vm_compute. done. Qed.

#[local] Instance world_works : @WorkingWorld Z (world script not_committed (fun s => s)).
Proof.
  split; try done.
  - intros l ctx f. simpl. unfold script. destruct (ac_attempt ctx =? 1); [intros [= <-]; by vm_compute|].
    destruct (ac_attempt ctx =? 2); [intros [= <-]; by vm_compute|done].
  - intros resolver l ctx f e [= <-]. done.
Defined.

#[local] Opaque execute_with_retry.

Lemma retry_follows_history_witness :
  exists r l, run script not_committed None = (r, l) /\ is_ok r = true /\
    exists a h, attempts_of l = a :: h /\ history (args None) (a :: h) /\ length h = 2%nat.
Proof.
  assert (Hok : is_ok (run script not_committed None).1 = true /\
          (ac_attempt ∘ at_context <$> attempts_of (run script not_committed None).2) = [3; 2; 1]) by (vm_compute; done).
  unfold run in *. destruct (execute_with_retry (args None) []) as [r l] eqn:E. exists r, l. destruct Hok as [Hok Hl].
  split; [done|]. split; [done|]. simpl in Hl.
  destruct (retry_follows_history (args None) r l E) as [[Hnil _]|(a & h & Ea & Hh & _)]; [by rewrite Hnil in Hl|].
  exists a, h. split; [done|]. split; [done|]. rewrite Ea in Hl. by destruct h as [|? [|? [|? ?]]].
Defined.

(** The first attempt had not committed, the third does. *)
Lemma retry_commits_once_witness :
  exists r l, run script not_committed None = (r, l) /\ is_ok r = true /\
    length (commits (fun c => ac_attempt c =? 3) (attempts_of l)) = 1%nat.
Proof.
  assert (Hok : is_ok (run script not_committed None).1 = true /\
          Forall (truthful (fun c => ac_attempt c =? 3)) (attempts_of (run script not_committed None).2)).
  { split; [vm_compute; done|]. vm_compute. repeat constructor; done. }
  unfold run in *. destruct (execute_with_retry (args None) []) as [r l] eqn:E. exists r, l. destruct Hok as [Hok Hl].
  split; [done|]. split; [done|]. by apply (retry_commits_once (args None) r l _ E).
Defined.

Lemma retry_accounted_witness :
  exists r l, @execute_with_retry Z (world script not_committed (fun s => s)) (args None) [] = (r, l) /\
    (forall a h, attempts_of l = a :: h -> r = conclusion (Z.of_nat (length (a :: h))) a).
Proof.
  assert (Hv : @valid_args Z (world script not_committed (fun s => s)) (args None)).
  { unfold valid_args. split_and!; [vm_compute; done..|].
    intros k Hk1 Hk2. assert (k = 1 \/ k = 2) as [-> | ->] by (simpl in *; lia); vm_compute; done. }
  destruct (@execute_with_retry Z (world script not_committed (fun s => s)) (args None) []) as [r l] eqn:E.
  exists r, l. split; [done|]. intros a h Ea.
  destruct (@retry_accounted Z _ world_works (args None) r l Hv E) as (a' & h' & Ea' & -> & _).
  rewrite Ea in Ea'. by injection Ea' as -> ->.
Defined.
End Demo.
