(* ===== verification/RecoveryPlan.v ===== *)
(** * Recovery recommendations ([recovery/pipeline.py])

    The terminal outcomes of a dispatch become recommendations; only failures classified as
    retryable, and in no category that needs somebody to act first, are retried automatically. *)

From stdpp Require Import base gmap strings list.
From S2P Require Import Prelude PyValue PyDict Temporal ConfigTypes RunAudit DispatchContracts.

Inductive RecoveryCategory :=
| RC_TRANSIENT_PROVIDER | RC_DATA_QUALITY | RC_RECONCILIATION | RC_DEPENDENCY | RC_UNKNOWN_COMMIT
| RC_CONFIGURATION | RC_CANCELLED | RC_UNKNOWN.
#[export] Instance RecoveryCategory_eq_dec : EqDecision RecoveryCategory.
Proof. solve_decision. Defined.

Inductive RecoveryAction :=
| RA_NONE | RA_RETRY | RA_FIX_DATA_AND_RETRY | RA_FIX_DATA_AND_REPLAY | RA_INVESTIGATE_RECONCILIATION
| RA_RETRY_AFTER_DEPENDENCY | RA_RECONCILE_UNKNOWN_OUTCOME | RA_FIX_CONFIGURATION | RA_MANUAL_INVESTIGATION.
#[export] Instance RecoveryAction_eq_dec : EqDecision RecoveryAction.
Proof. solve_decision. Defined.

Record DatasetRecoveryRecommendation := {
  drr_dataset_id : string;
  drr_dataset_run_id : N;
  drr_category : RecoveryCategory;
  drr_action : RecoveryAction;
  drr_retryable : bool;
  drr_error_code : option string;
  drr_reason : string
}.

(** The bounds of the fields. *)
Definition make_recommendation (r : DatasetRecoveryRecommendation) : res DatasetRecoveryRecommendation :=
  if negb (nonempty (drr_dataset_id r)) || negb (nonempty (drr_reason r)) then bad_field else Ok r.

Definition safe_for_automatic_retry (r : DatasetRecoveryRecommendation) : bool :=
  bool_decide (drr_action r = RA_RETRY) && drr_retryable r.

Record PipelineRecoveryPlan := {
  prp_pipeline_run_id : N;
  prp_recommendations : list DatasetRecoveryRecommendation
}.

Definition safe_auto_retry_dataset_ids (p : PipelineRecoveryPlan) : list string :=
  drr_dataset_id <$> filter (fun r => safe_for_automatic_retry r = true) (prp_recommendations p).

Definition operator_action_dataset_ids (p : PipelineRecoveryPlan) : list string :=
  drr_dataset_id <$> filter (fun r => drr_action r ∉ [RA_NONE; RA_RETRY]) (prp_recommendations p).

Definition _UNKNOWN_COMMIT_PREFIXES : list string := ["UNKNOWN_COMMIT"; "TARGET_OPERATION_UNKNOWN"; "AMBIGUOUS_COMMIT"].
Definition _CONFIGURATION_CODES : list string :=
  ["ORCHESTRATION_INTEGRITY_ERROR"; "ORCHESTRATION_NO_PROGRESS"; "INVALID_READY_WAVE_RESULT";
   "FABRIC_PIPELINE_RESULT_MISMATCH"; "FABRIC_PIPELINE_RESULT_NON_TERMINAL"].

(** [needle in text] *)
Fixpoint contains (needle text : string) : bool :=
  startswith text needle || match text with String.String _ text => contains needle text | String.EmptyString => false end.

(** The conditions of the recommendations on the error code. *)
Definition unknown_commit (code : string) : bool :=
  existsb (startswith code) _UNKNOWN_COMMIT_PREFIXES || contains "UNKNOWN_COMMIT" code.
Definition configuration_code (code : string) : bool :=
  bool_decide (code ∈ _CONFIGURATION_CODES) || contains "CONFIG" code || contains "BINDING" code.

Definition recommend_dataset_recovery (dataset_id : string) (outcome : DatasetDispatchOutcome) :
    res DatasetRecoveryRecommendation :=
  let code := default "" (ddo_error_code outcome) in
  let recommend category action retryable reason :=
    make_recommendation
      {| drr_dataset_id := dataset_id; drr_dataset_run_id := ddo_dataset_run_id outcome; drr_category := category;
         drr_action := action; drr_retryable := retryable; drr_error_code := ddo_error_code outcome; drr_reason := reason |} in
  if bool_decide (ddo_status outcome = DS_SUCCEEDED) then
    recommend RC_UNKNOWN RA_NONE false "dataset already succeeded; no recovery action required"
  else if unknown_commit code then
    recommend RC_UNKNOWN_COMMIT RA_RECONCILE_UNKNOWN_OUTCOME false
      "target mutation outcome is uncertain; reconcile durable target/operation evidence before any retry to avoid duplicate writes"
  else if String.eqb code "DATA_QUALITY_QUARANTINE_THRESHOLD_EXCEEDED" then
    recommend RC_DATA_QUALITY RA_FIX_DATA_AND_REPLAY false
      "quarantined rows exceeded the governed DQ budget; fix source/rule logic, then replay retained quarantine payload through an audited REPLAY request"
  else if String.eqb code "DATA_QUALITY_FAILED_QUARANTINE_DISABLED" then
    recommend RC_DATA_QUALITY RA_FIX_DATA_AND_RETRY false
      "DQ failed while quarantine was disabled; fix the source/rule/configuration and run an audited RETRY rather than blindly retrying unchanged input"
  else if String.eqb code "RECONCILIATION_FAILED" then
    recommend RC_RECONCILIATION RA_INVESTIGATE_RECONCILIATION false
      "required reconciliation blocked state advance; determine whether source, target, mapping, or reconciliation policy is wrong before reprocessing"
  else if String.eqb code "BLOCKED_DEPENDENCY" || bool_decide (ddo_status outcome = DS_BLOCKED) then
    recommend RC_DEPENDENCY RA_RETRY_AFTER_DEPENDENCY false
      "dataset did not execute because an upstream dependency failed; recover the upstream dataset first, then rerun only the affected dependency chain"
  else if bool_decide (ddo_status outcome = DS_CANCELLED) then
    recommend RC_CANCELLED RA_MANUAL_INVESTIGATION false
      "cancelled execution may have partial provider-side effects; confirm target and checkpoint state before deciding whether retry is safe"
  else if configuration_code code then
    recommend RC_CONFIGURATION RA_FIX_CONFIGURATION false
      "fix released metadata/binding/configuration and redeploy before retry"
  else if bool_decide (ddo_retryable outcome = Some true) then
    recommend RC_TRANSIENT_PROVIDER RA_RETRY true
      "failure is explicitly classified retryable; use bounded retry with backoff, attempt lineage and idempotent/operation-journal semantics"
  else
    recommend RC_UNKNOWN RA_MANUAL_INVESTIGATION false
      "failure is not explicitly proven safe to retry; inspect dataset/step audit, provider correlation and state before creating a reprocess request".

Definition build_pipeline_recovery_plan (result : PipelineDispatchResult) : res PipelineRecoveryPlan :=
  recommendations ← mapM_res (fun kv => recommend_dataset_recovery kv.1 kv.2) (pdr_outcomes result);
  Ok {| prp_pipeline_run_id := pdr_pipeline_run_id result; prp_recommendations := recommendations |}.

(** ** Properties *)

(** The outcome is a failure that ran, whose write is not in doubt and that needs nobody to act. *)
Definition plain_failure (o : DatasetDispatchOutcome) : Prop :=
  let code := default "" (ddo_error_code o) in
  ddo_status o ∉ [DS_SUCCEEDED; DS_BLOCKED; DS_CANCELLED] /\ unknown_commit code = false /\ configuration_code code = false /\
  code ∉ ["DATA_QUALITY_QUARANTINE_THRESHOLD_EXCEEDED"; "DATA_QUALITY_FAILED_QUARANTINE_DISABLED"; "RECONCILIATION_FAILED";
          "BLOCKED_DEPENDENCY"].

Lemma make_recommendation_Ok r r' : make_recommendation r = Ok r' -> r' = r.
Proof. unfold make_recommendation. destruct (_ || _); [done|]. by intros [= <-]. Qed.

(** One recommendation: its identity, and when it is retried automatically or calls the operator. *)
Lemma recommend_spec d o r :
  recommend_dataset_recovery d o = Ok r ->
  drr_dataset_id r = d /\ drr_dataset_run_id r = ddo_dataset_run_id o /\
  (safe_for_automatic_retry r = true <-> plain_failure o /\ ddo_retryable o = Some true) /\
  (drr_action r ∈ [RA_NONE; RA_RETRY] <-> ddo_status o = DS_SUCCEEDED \/ safe_for_automatic_retry r = true).
Proof.
  unfold recommend_dataset_recovery, plain_failure. set (code := default "" (ddo_error_code o)).
  repeat case_match; intros ->%make_recommendation_Ok; unfold safe_for_automatic_retry; cbn [drr_dataset_id drr_dataset_run_id drr_action drr_retryable];
    repeat match goal with
    | H : bool_decide _ = true |- _ => apply bool_decide_eq_true in H
    | H : bool_decide _ = false |- _ => apply bool_decide_eq_false in H
    | H : String.eqb _ _ = true |- _ => apply String.eqb_eq in H
    | H : String.eqb _ _ = false |- _ => apply String.eqb_neq in H
    | H : _ || _ = false |- _ => apply orb_false_iff in H as [? ?]
    | H : _ || _ = true |- _ => apply orb_true_iff in H as [H|H]
    end.
  all: rewrite ?not_elem_of_cons, ?elem_of_cons, ?elem_of_nil.
  all: (split; [done|]; split; [done|]; split).
  all: try (simpl; intuition congruence).
Qed.

Lemma exists_outcome_cons (P : DatasetDispatchOutcome -> Prop) (d d' : string) o kvs :
  (exists o', (d', o') ∈ (d, o) :: kvs /\ P o') <-> (d' = d /\ P o) \/ (exists o', (d', o') ∈ kvs /\ P o').
Proof.
  setoid_rewrite elem_of_cons. split.
  - intros (o' & [[= -> ->]|Hin] & HP); [by left|right; by exists o'].
  - intros [[-> HP]|(o' & Hin & HP)]; [exists o; split; [by left|done]|exists o'; split; [by right|done]].
Qed.

(** C22. A recovery plan names every outcome of the dispatch once and in order, offers a dataset for
    automatic retry exactly when its failure is classified retryable, it ran, its write is not in
    doubt and no category asks somebody to act first, and calls the operator for every other
    failure. *)
Theorem auto_retry_exact result plan :
  build_pipeline_recovery_plan result = Ok plan ->
  drr_dataset_id <$> prp_recommendations plan = (pdr_outcomes result).*1 /\
  Forall2 (fun r (kv : string * DatasetDispatchOutcome) =>
    (safe_for_automatic_retry r = true <-> plain_failure kv.2 /\ ddo_retryable kv.2 = Some true) /\
    (drr_action r ∈ [RA_NONE; RA_RETRY] <-> ddo_status kv.2 = DS_SUCCEEDED \/ safe_for_automatic_retry r = true))
    (prp_recommendations plan) (pdr_outcomes result) /\
  (forall d, d ∈ safe_auto_retry_dataset_ids plan <->
     exists o, (d, o) ∈ pdr_outcomes result /\ plain_failure o /\ ddo_retryable o = Some true) /\
  (forall d, d ∈ operator_action_dataset_ids plan <->
     exists o, (d, o) ∈ pdr_outcomes result /\ ddo_status o <> DS_SUCCEEDED /\ ~ (plain_failure o /\ ddo_retryable o = Some true)).
Proof.
  unfold build_pipeline_recovery_plan. intros (rs & Hrs & [= <-])%bind_Ok. apply mapM_res_Forall2 in Hrs.
  unfold safe_auto_retry_dataset_ids, operator_action_dataset_ids. cbn [prp_recommendations].
  induction Hrs as [|[d o] r kvs rs Hr _ (IH1 & IH2 & IH3 & IH4)].
  { split_and!; [done|done|..]; (intros d; simpl; rewrite elem_of_nil; split; [done|]; intros (o & ?%elem_of_nil & _); done). }
  destruct (recommend_spec _ _ _ Hr) as (E1 & _ & E2 & E3).
  split_and!.
  - rewrite !fmap_cons, E1. f_equal. apply IH1.
  - by constructor.
  - intros d'. rewrite exists_outcome_cons, <-IH3, filter_cons. case_decide; rewrite ?fmap_cons, ?elem_of_cons, ?E1; tauto.
  - intros d'. rewrite exists_outcome_cons, <-IH4, filter_cons. case_decide; rewrite ?fmap_cons, ?elem_of_cons, ?E1; tauto.
Qed.

(** ** A witness *)

Definition demo_failure (code : string) : DatasetDispatchOutcome :=
  {| ddo_dataset_run_id := 1; ddo_status := DS_FAILED; ddo_retryable := Some true; ddo_error_code := Some code;
     ddo_error_message := None |}.

(** A transient failure, and a write whose outcome is unknown that claims to be retryable. *)
Definition demo_result : PipelineDispatchResult :=
  {| pdr_pipeline_run_id := 1; pdr_status := PS_FAILED; pdr_selected_dataset_ids := ["a"; "b"];
     pdr_outcomes := [("a", demo_failure "TRANSIENT_FAILURE"); ("b", demo_failure "UNKNOWN_COMMIT_UNRESOLVED")];
     pdr_max_concurrency := 1 |}.

Lemma auto_retry_exact_witness :
  exists plan, build_pipeline_recovery_plan demo_result = Ok plan /\ "a" ∈ safe_auto_retry_dataset_ids plan /\
    "b" ∈ operator_action_dataset_ids plan.
Proof.
  destruct (build_pipeline_recovery_plan demo_result) as [plan|e] eqn:E; [|vm_compute in E; discriminate E].
  exists plan. split; [done|]. destruct (auto_retry_exact demo_result plan E) as (_ & _ & Ha & Ho). split.
  - apply Ha. exists (demo_failure "TRANSIENT_FAILURE"). split; [left|].
    split; [|done]. split_and!; [|done|done|]; apply (bool_decide_unpack _); vm_compute; exact I.
  - apply Ho. exists (demo_failure "UNKNOWN_COMMIT_UNRESOLVED"). split; [right; left|]. split; [done|].
    intros [(_ & H & _) _]. vm_compute in H. discriminate H.
Defined.
