(* ===== verification/Quarantine.v ===== *)
(** * Quarantine cases ([contracts/quarantine.py], [contracts/replay.py],
    [control_plane/quarantine_governance.py], the quarantine helpers of [control_plane/io.py])

    A quarantined batch is immutable evidence.  Reviewers append transitions of its case, of
    which at most one may leave a status; a replay marks the batch.  The calls are programs of
    statements (Transactions) on the tables of the quarantine.  String fields hold the value
    after [str_strip_whitespace]; ids are numbers. *)

From stdpp Require Import base gmap strings list.
From S2P Require Import Prelude PyValue PyDict Temporal ConfigTypes RuntimeState RunAudit DispatchContracts RunContracts Transactions ControlPlane.
#[local] Open Scope Z_scope.

(** ** Contracts *)

Inductive QuarantineStatus := Q_OPEN | Q_UNDER_REVIEW | Q_RESOLVED | Q_REJECTED | Q_WAIVED | Q_REPLAYED.
#[export] Instance QuarantineStatus_eq_dec : EqDecision QuarantineStatus.
Proof. solve_decision. Defined.

Inductive QuarantineResolution :=
| SOURCE_CORRECTED | RULE_OR_MAPPING_FIXED | MANUAL_CORRECTION | ACCEPTED_EXCEPTION | REJECTED_AS_INVALID.
#[export] Instance QuarantineResolution_eq_dec : EqDecision QuarantineResolution.
Proof. solve_decision. Defined.

(** [status.value], and the enum of a value *)
Definition status_text (s : QuarantineStatus) : string :=
  match s with
  | Q_OPEN => "OPEN" | Q_UNDER_REVIEW => "UNDER_REVIEW" | Q_RESOLVED => "RESOLVED"
  | Q_REJECTED => "REJECTED" | Q_WAIVED => "WAIVED" | Q_REPLAYED => "REPLAYED"
  end.
Definition resolution_text (r : QuarantineResolution) : string :=
  match r with
  | SOURCE_CORRECTED => "SOURCE_CORRECTED" | RULE_OR_MAPPING_FIXED => "RULE_OR_MAPPING_FIXED"
  | MANUAL_CORRECTION => "MANUAL_CORRECTION" | ACCEPTED_EXCEPTION => "ACCEPTED_EXCEPTION"
  | REJECTED_AS_INVALID => "REJECTED_AS_INVALID"
  end.

Definition parse_enum {A} (text : A -> string) (members : list A) (s : string) : res A :=
  match list_find (fun a => text a = s) members with
  | Some (_, a) => Ok a
  | None => raise "ValueError" "not a valid enum value"
  end.
Definition parse_status : string -> res QuarantineStatus :=
  parse_enum status_text [Q_OPEN; Q_UNDER_REVIEW; Q_RESOLVED; Q_REJECTED; Q_WAIVED; Q_REPLAYED].
Definition parse_resolution : string -> res QuarantineResolution :=
  parse_enum resolution_text [SOURCE_CORRECTED; RULE_OR_MAPPING_FIXED; MANUAL_CORRECTION; ACCEPTED_EXCEPTION; REJECTED_AS_INVALID].

(** [QuarantineBatchEvidence], which has the columns of [quarantine_batch]. *)
Record QuarantineBatchEvidence := {
  qe_quarantine_id : N;
  qe_dataset_run_id : N;
  qe_dataset_id : string;
  qe_scope : string;
  qe_row_count : Z;
  qe_reason_code : string;
  qe_reason_detail : option string;
  qe_source_reference : option string;
  qe_replayed_by_dataset_run_id : option N;
  qe_created_at : datetime
}.
#[export] Instance QuarantineBatchEvidence_eq_dec : EqDecision QuarantineBatchEvidence.
Proof. solve_decision. Defined.

Definition make_QuarantineBatchEvidence (b : QuarantineBatchEvidence) : res QuarantineBatchEvidence :=
  if negb (nonempty (qe_dataset_id b)) || negb (nonempty (qe_scope b)) || (qe_row_count b <? 0)
     || negb (nonempty (qe_reason_code b)) then bad_field
  else Ok b.

(** [QuarantineManualCorrection], which has the columns of [quarantine_manual_correction]. *)
Record QuarantineManualCorrection := {
  qm_correction_id : N;
  qm_quarantine_id : N;
  qm_dataset_id : string;
  qm_original_source_reference : string;
  qm_correction_reference : string;
  qm_correction_payload_sha256 : string;
  qm_corrected_by : string;
  qm_reason : string;
  qm_ticket_reference : option string;
  qm_created_at : datetime
}.

Definition make_QuarantineManualCorrection (c : QuarantineManualCorrection) : res QuarantineManualCorrection :=
  if negb (nonempty (qm_dataset_id c)) || negb (nonempty (qm_original_source_reference c))
     || negb (nonempty (qm_correction_reference c)) || negb (matches_class is_lower_hex 64 64 (qm_correction_payload_sha256 c))
     || negb (nonempty (qm_corrected_by c)) || negb (nonempty (qm_reason c)) then bad_field
  else Ok c.

Record QuarantineReviewEvent := {
  qv_event_id : N;
  qv_quarantine_id : N;
  qv_dataset_id : string;
  qv_from_status : QuarantineStatus;
  qv_to_status : QuarantineStatus;
  qv_resolution : option QuarantineResolution;
  qv_actor : string;
  qv_reason : string;
  qv_ticket_reference : option string;
  qv_correction_id : option N;
  qv_occurred_at : datetime
}.
#[export] Instance QuarantineReviewEvent_eq_dec : EqDecision QuarantineReviewEvent.
Proof. solve_decision. Defined.

(** The statuses that close a review. *)
Definition terminal (s : QuarantineStatus) : bool := bool_decide (s ∈ [Q_RESOLVED; Q_REJECTED; Q_WAIVED]).

(** The field bounds and [validate_resolution_shape]. *)
Definition make_QuarantineReviewEvent (e : QuarantineReviewEvent) : res QuarantineReviewEvent :=
  if negb (nonempty (qv_dataset_id e)) || negb (nonempty (qv_actor e)) || negb (nonempty (qv_reason e)) then bad_field
  else if bool_decide (qv_from_status e = Q_REPLAYED) || bool_decide (qv_to_status e = Q_REPLAYED) then
    raise "ValueError" "REPLAYED is derived from successful replay and cannot be a review event"
  else if bool_decide (qv_from_status e = qv_to_status e) then
    raise "ValueError" "quarantine review transition must change status"
  else if terminal (qv_to_status e) && negb (is_some (qv_resolution e)) then
    raise "ValueError" "review event requires resolution"
  else if negb (terminal (qv_to_status e)) && is_some (qv_resolution e) then
    raise "ValueError" "non-terminal review event cannot declare resolution"
  else if bool_decide (qv_resolution e = Some MANUAL_CORRECTION) then
    if is_some (qv_correction_id e) then Ok e
    else raise "ValueError" "MANUAL_CORRECTION resolution requires correction_id"
  else if is_some (qv_correction_id e) then
    raise "ValueError" "correction_id is only valid for MANUAL_CORRECTION resolution"
  else Ok e.

Record QuarantineCase := {
  qk_quarantine_id : N;
  qk_dataset_id : string;
  qk_status : QuarantineStatus;
  qk_latest_review_event_id : option N;
  qk_resolution : option QuarantineResolution;
  qk_correction_id : option N;
  qk_replayed_by_dataset_run_id : option N
}.

(** The field bounds and [validate_derived_state]. *)
Definition make_QuarantineCase (c : QuarantineCase) : res QuarantineCase :=
  if negb (nonempty (qk_dataset_id c)) then bad_field
  else if bool_decide (qk_status c = Q_REPLAYED) && negb (is_some (qk_replayed_by_dataset_run_id c)) then
    raise "ValueError" "REPLAYED quarantine case requires replayed_by_dataset_run_id"
  else if negb (bool_decide (qk_status c = Q_REPLAYED)) && is_some (qk_replayed_by_dataset_run_id c) then
    raise "ValueError" "replay marker requires derived REPLAYED quarantine case status"
  else Ok c.

(** ** Tables and statements *)

(** [quarantine_review_event]; the unique [transition_key] is the text of the quarantine and the
    status it leaves. *)
Record review_row := {
  vr_event_id : N;
  vr_quarantine_id : N;
  vr_dataset_id : string;
  vr_from_status : string;
  vr_to_status : string;
  vr_resolution : option string;
  vr_actor : string;
  vr_reason : string;
  vr_ticket_reference : option string;
  vr_correction_id : option N;
  vr_occurred_at : datetime
}.
Definition transition_key (r : review_row) : N * string := (vr_quarantine_id r, vr_from_status r).

(** The reviews are in the order of their commits. *)
Record quarantine_tables := {
  qt_batches : gmap N QuarantineBatchEvidence;
  qt_corrections : gmap N QuarantineManualCorrection;
  qt_reviews : list review_row
}.

(** [QuarantineReplayPayload] of [contracts/replay.py] *)
Record QuarantineReplayPayload := {
  rp_quarantine_id : N;
  rp_dataset_id : string;
  rp_source_reference : string;
  rp_rows : list row;
  rp_payload_version : option string;
  rp_correction_id : option N;
  rp_correction_reference : option string;
  rp_correction_payload_sha256 : option string
}.

(** The field bounds and [validate_correction_identity]. *)
Definition make_QuarantineReplayPayload (p : QuarantineReplayPayload) : res QuarantineReplayPayload :=
  let present := [is_some (rp_correction_id p); is_some (rp_correction_reference p); is_some (rp_correction_payload_sha256 p)] in
  if negb (nonempty (rp_dataset_id p)) || negb (nonempty (rp_source_reference p))
     || negb (match rp_correction_payload_sha256 p with Some h => matches_class is_lower_hex 64 64 h | None => true end) then bad_field
  else if existsb id present && negb (forallb id present) then
    raise "ValueError" "manual-correction replay requires correction_id, correction_reference, and correction_payload_sha256 together"
  else Ok p.

(** The statements.  [InsertReview] and [InsertCorrection] are the write part of their transactions
    and the two reads of the case that follow it; [MarkReplayed] updates the given batches, whose
    marker must still be null, and reads all of the scope; [LoadPayload] and [ExecutePayloads] are
    the calls of the payload provider and of the callback of a replay. *)
Inductive statement :=
| SelectBatch (quarantine_id : N)
| SelectBatches (quarantine_ids : list N)
| SelectBatchesForRun (dataset_id : string) (dataset_run_id : N)
| SelectReviews (quarantine_id : N)
| SelectCorrection (correction_id : N)
| InsertBatch (b : QuarantineBatchEvidence)
| InsertReview (r : review_row)
| InsertCorrection (c : QuarantineManualCorrection) (r : review_row)
| MarkReplayed (unmarked scope : list N) (run : N)
| LoadPayload (b : QuarantineBatchEvidence)
| ExecutePayloads (payloads : list QuarantineReplayPayload).

Inductive answer :=
| ABatch (b : option QuarantineBatchEvidence)
| ABatches (bs : list QuarantineBatchEvidence)
| AReviews (rs : list review_row)
| ACorrection (c : option QuarantineManualCorrection)
| ACase (b : option QuarantineBatchEvidence) (rs : list review_row)
| ARowcount (n : nat)
| APayload (p : res QuarantineReplayPayload)
| AOutcome (o : res (value * StateCommitGate))
| AIntegrityError
| AFailed.

Definition is_write (q : statement) : bool :=
  match q with
  | InsertBatch _ | InsertReview _ | InsertCorrection _ _ | MarkReplayed _ _ _ => true
  | _ => false
  end.

Definition reviews_for (t : quarantine_tables) (id : N) : list review_row :=
  filter (fun r => vr_quarantine_id r = id) (qt_reviews t).

Definition with_batches (t : quarantine_tables) (bs : gmap N QuarantineBatchEvidence) : quarantine_tables :=
  {| qt_batches := bs; qt_corrections := qt_corrections t; qt_reviews := qt_reviews t |}.
Definition with_review (t : quarantine_tables) (r : review_row) : quarantine_tables :=
  {| qt_batches := qt_batches t; qt_corrections := qt_corrections t; qt_reviews := qt_reviews t ++ [r] |}.
Definition with_correction (t : quarantine_tables) (c : QuarantineManualCorrection) : quarantine_tables :=
  {| qt_batches := qt_batches t; qt_corrections := <[qm_correction_id c := c]> (qt_corrections t); qt_reviews := qt_reviews t |}.

Definition marked_by (run : N) (b : QuarantineBatchEvidence) : QuarantineBatchEvidence :=
  {| qe_quarantine_id := qe_quarantine_id b; qe_dataset_run_id := qe_dataset_run_id b; qe_dataset_id := qe_dataset_id b;
     qe_scope := qe_scope b; qe_row_count := qe_row_count b; qe_reason_code := qe_reason_code b;
     qe_reason_detail := qe_reason_detail b; qe_source_reference := qe_source_reference b;
     qe_replayed_by_dataset_run_id := Some run; qe_created_at := qe_created_at b |}.

(** The transition or the event id is taken, or the review names a missing batch or correction. *)
Definition review_rejected (t : quarantine_tables) (r : review_row) : bool :=
  existsb (fun r' => bool_decide (transition_key r' = transition_key r) || N.eqb (vr_event_id r') (vr_event_id r)) (qt_reviews t)
  || negb (is_some (qt_batches t !! vr_quarantine_id r))
  || match vr_correction_id r with Some c => negb (is_some (qt_corrections t !! c)) | None => false end.

(** Some batch is missing or already marked. *)
Definition unmarked_in (t : quarantine_tables) (id : N) : bool :=
  match qt_batches t !! id with Some b => negb (is_some (qe_replayed_by_dataset_run_id b)) | None => false end.

Definition exec_tables (t : quarantine_tables) (q : statement) : answer * quarantine_tables :=
  match q with
  | SelectBatch id => (ABatch (qt_batches t !! id), t)
  | SelectBatches ids => (ABatches (omap (fun id => qt_batches t !! id) ids), t)
  | SelectBatchesForRun d run =>
    (ABatches (filter (fun b => qe_dataset_id b = d /\ qe_dataset_run_id b = run) (map_to_list (qt_batches t)).*2), t)
  | SelectReviews id => (AReviews (reviews_for t id), t)
  | SelectCorrection id => (ACorrection (qt_corrections t !! id), t)
  | InsertBatch b =>
    match qt_batches t !! qe_quarantine_id b with
    | Some _ => (AIntegrityError, t)
    | None => (ARowcount 1, with_batches t (<[qe_quarantine_id b := b]> (qt_batches t)))
    end
  | InsertReview r =>
    if review_rejected t r then (AIntegrityError, t)
    else
      let t' := with_review t r in
      (ACase (qt_batches t' !! vr_quarantine_id r) (reviews_for t' (vr_quarantine_id r)), t')
  | InsertCorrection c r =>
    if is_some (qt_corrections t !! qm_correction_id c) || negb (is_some (qt_batches t !! qm_quarantine_id c))
       || review_rejected (with_correction t c) r then (AIntegrityError, t)
    else
      let t' := with_review (with_correction t c) r in
      (ACase (qt_batches t' !! vr_quarantine_id r) (reviews_for t' (vr_quarantine_id r)), t')
  | MarkReplayed unmarked scope run =>
    if forallb (unmarked_in t) unmarked then
      let t' := with_batches t (foldr (fun id bs => alter (marked_by run) id bs) (qt_batches t) unmarked) in
      (ABatches (omap (fun id => qt_batches t' !! id) scope), t')
    else (ARowcount 0, t)
  | LoadPayload _ => (APayload (raise "KeyError" "no payload"), t)
  | ExecutePayloads _ => (AOutcome (raise "RuntimeError" "no target"), t)
  end.

(** A driver returns the rows in any order, with timestamps that may have lost their zone. *)
Definition read_batch (b b' : QuarantineBatchEvidence) : Prop :=
  exists d, read_datetime (qe_created_at b) d /\
    b' = {| qe_quarantine_id := qe_quarantine_id b; qe_dataset_run_id := qe_dataset_run_id b; qe_dataset_id := qe_dataset_id b;
            qe_scope := qe_scope b; qe_row_count := qe_row_count b; qe_reason_code := qe_reason_code b;
            qe_reason_detail := qe_reason_detail b; qe_source_reference := qe_source_reference b;
            qe_replayed_by_dataset_run_id := qe_replayed_by_dataset_run_id b; qe_created_at := d |}.
Definition read_review (r r' : review_row) : Prop :=
  exists d, read_datetime (vr_occurred_at r) d /\
    r' = {| vr_event_id := vr_event_id r; vr_quarantine_id := vr_quarantine_id r; vr_dataset_id := vr_dataset_id r;
            vr_from_status := vr_from_status r; vr_to_status := vr_to_status r; vr_resolution := vr_resolution r;
            vr_actor := vr_actor r; vr_reason := vr_reason r; vr_ticket_reference := vr_ticket_reference r;
            vr_correction_id := vr_correction_id r; vr_occurred_at := d |}.
Definition read_correction (c c' : QuarantineManualCorrection) : Prop :=
  exists d, read_datetime (qm_created_at c) d /\
    c' = {| qm_correction_id := qm_correction_id c; qm_quarantine_id := qm_quarantine_id c; qm_dataset_id := qm_dataset_id c;
            qm_original_source_reference := qm_original_source_reference c;
            qm_correction_reference := qm_correction_reference c;
            qm_correction_payload_sha256 := qm_correction_payload_sha256 c; qm_corrected_by := qm_corrected_by c;
            qm_reason := qm_reason c; qm_ticket_reference := qm_ticket_reference c; qm_created_at := d |}.

(** The rows of [l], read in some order. *)
Definition read_rows {A} (read : A -> A -> Prop) (l l' : list A) : Prop :=
  exists l1, l1 ≡ₚ l /\ Forall2 read l1 l'.

Inductive driver : answer -> answer -> Prop :=
| driver_batch b b' : option_Forall2 read_batch b b' -> driver (ABatch b) (ABatch b')
| driver_batches bs bs' : read_rows read_batch bs bs' -> driver (ABatches bs) (ABatches bs')
| driver_reviews rs rs' : read_rows read_review rs rs' -> driver (AReviews rs) (AReviews rs')
| driver_correction c c' : option_Forall2 read_correction c c' -> driver (ACorrection c) (ACorrection c')
| driver_case b b' rs rs' : option_Forall2 read_batch b b' -> read_rows read_review rs rs' ->
    driver (ACase b rs) (ACase b' rs')
| driver_rowcount n : driver (ARowcount n) (ARowcount n)
| driver_integrity : driver AIntegrityError AIntegrityError.

(** ** The case of a batch ([control_plane/quarantine_governance.py]) *)

(** The exceptions of SQLAlchemy; an answer of another kind does not occur. *)
Definition sql_error {A} (a : answer) : res A :=
  match a with AIntegrityError => raise "IntegrityError" "" | _ => raise "OperationalError" "" end.

Definition _event_from_row (r : review_row) : res QuarantineReviewEvent :=
  from_status ← parse_status (vr_from_status r);
  to_status ← parse_status (vr_to_status r);
  resolution ← match vr_resolution r with
               | Some s => resolution ← parse_resolution s; Ok (Some resolution)
               | None => Ok None
               end;
  make_QuarantineReviewEvent
    {| qv_event_id := vr_event_id r; qv_quarantine_id := vr_quarantine_id r; qv_dataset_id := vr_dataset_id r;
       qv_from_status := from_status; qv_to_status := to_status; qv_resolution := resolution;
       qv_actor := vr_actor r; qv_reason := vr_reason r; qv_ticket_reference := vr_ticket_reference r;
       qv_correction_id := vr_correction_id r; qv_occurred_at := vr_occurred_at r |}.

(** The dictionary [by_from] of [_ordered_events]. *)
Definition index_events (rows : list review_row) : res (list (QuarantineStatus * QuarantineReviewEvent)) :=
  foldM (fun by_from r =>
    event ← _event_from_row r;
    if bool_decide (qv_from_status event ∈ by_from.*1) then
      raise "QuarantineGovernanceError" "quarantine has multiple transitions from a status"
    else Ok (by_from ++ [(qv_from_status event, event)])) [] rows.

Definition event_from (by_from : list (QuarantineStatus * QuarantineReviewEvent)) (s : QuarantineStatus) :
    option QuarantineReviewEvent := snd <$> (snd <$> list_find (fun kv => kv.1 = s) by_from).

(** The loop [while current in by_from]; every iteration sees a new key. *)
Fixpoint walk (fuel : nat) (by_from : list (QuarantineStatus * QuarantineReviewEvent))
    (current : QuarantineStatus) (seen : list QuarantineStatus) : res (list QuarantineReviewEvent) :=
  match event_from by_from current with
  | None => Ok []
  | Some event =>
    if bool_decide (current ∈ seen) then raise "QuarantineGovernanceError" "quarantine review transition cycle detected"
    else
      match fuel with
      | O => raise "OutOfFuel" "walk"
      | S fuel => rest ← walk fuel by_from (qv_to_status event) (current :: seen); Ok (event :: rest)
      end
  end.

Definition ordered_events (rows : list review_row) : res (list QuarantineReviewEvent) :=
  by_from ← index_events rows;
  ordered ← walk (length by_from) by_from Q_OPEN [];
  if negb (length ordered =? length rows)%nat then
    raise "QuarantineGovernanceError" "quarantine contains disconnected review transitions"
  else Ok ordered.

(** The case of a batch and its reviews. *)
Definition case_of (id : N) (batch : QuarantineBatchEvidence) (events : list QuarantineReviewEvent) : res QuarantineCase :=
  let latest := last events in
  make_QuarantineCase
    {| qk_quarantine_id := id; qk_dataset_id := qe_dataset_id batch;
       qk_status := match qe_replayed_by_dataset_run_id batch with
                    | Some _ => Q_REPLAYED
                    | None => default Q_OPEN (qv_to_status <$> latest)
                    end;
       qk_latest_review_event_id := qv_event_id <$> latest; qk_resolution := latest ≫= qv_resolution;
       qk_correction_id := latest ≫= qv_correction_id;
       qk_replayed_by_dataset_run_id := qe_replayed_by_dataset_run_id batch |}.

(** The read at the end of a transaction that inserts a review. *)
Definition read_inserted (id : N) (a : answer) : res QuarantineCase :=
  match a with
  | ACase (Some batch) rows => events ← ordered_events rows; case_of id batch events
  | ACase None _ => raise "KeyError" "quarantine batch not found"
  | _ => sql_error a
  end.

(** Whether the transaction of a statement commits after this answer: an exception of its last read rolls it back. *)
Definition commits (q : statement) (a : answer) : bool :=
  match q with
  | InsertReview r | InsertCorrection _ r => is_ok (read_inserted (vr_quarantine_id r) a)
  | _ => true
  end.

(** The tables after a statement that was answered. *)
Definition after_answer (t : quarantine_tables) (q : statement) (a : answer) : quarantine_tables :=
  if commits q a then (exec_tables t q).2 else t.

(** A statement is executed and answered; or a write is rejected by a constraint; or it fails, and
    may have been executed.  The provider and the callback answer anything. *)
Inductive documented (t : quarantine_tables) : statement -> answer -> quarantine_tables -> Prop :=
| doc_answered q a : driver (exec_tables t q).1 a -> documented t q a (after_answer t q a)
| doc_rejected q : is_write q = true -> documented t q AIntegrityError t
| doc_failed q t' : t' = t \/ t' = (exec_tables t q).2 -> documented t q AFailed t'
| doc_payload b p : documented t (LoadPayload b) (APayload p) t
| doc_outcome ps o : documented t (ExecutePayloads ps) (AOutcome o) t.

Abbreviation sql := (prog statement answer).

(** ** Reviews ([control_plane/quarantine_governance.py]) *)

Definition _ALLOWED_TRANSITIONS (s : QuarantineStatus) : list QuarantineStatus :=
  match s with
  | Q_OPEN => [Q_UNDER_REVIEW; Q_RESOLVED; Q_REJECTED; Q_WAIVED]
  | Q_UNDER_REVIEW => [Q_RESOLVED; Q_REJECTED; Q_WAIVED]
  | Q_RESOLVED | Q_REJECTED | Q_WAIVED | Q_REPLAYED => []
  end.

Definition _resolution_allowed (e : QuarantineReviewEvent) : bool :=
  match qv_to_status e with
  | Q_RESOLVED => bool_decide (qv_resolution e ∈ [Some SOURCE_CORRECTED; Some RULE_OR_MAPPING_FIXED; Some MANUAL_CORRECTION])
  | Q_REJECTED => bool_decide (qv_resolution e = Some REJECTED_AS_INVALID)
  | Q_WAIVED => bool_decide (qv_resolution e = Some ACCEPTED_EXCEPTION)
  | _ => bool_decide (qv_resolution e = None)
  end.

Definition _batch_row (id : N) : sql QuarantineBatchEvidence :=
  Stmt (SelectBatch id) (fun a => Done (match a with
    | ABatch (Some b) => Ok b
    | ABatch None => raise "KeyError" "quarantine batch not found"
    | _ => sql_error a
    end)).

Definition select_reviews (id : N) : sql (list review_row) :=
  Stmt (SelectReviews id) (fun a => Done (match a with AReviews rs => Ok rs | _ => sql_error a end)).

Definition _ordered_events (id : N) : sql (list QuarantineReviewEvent) :=
  rows ← select_reviews id; pure (ordered_events rows).

Definition _case_from_connection (id : N) : sql QuarantineCase :=
  batch ← _batch_row id;
  events ← _ordered_events id;
  pure (case_of id batch events).

Definition get_quarantine_case (id : N) : sql QuarantineCase := _case_from_connection id.

Definition read_quarantine_review_events (id : N) : sql (list QuarantineReviewEvent) :=
  _ ← _batch_row id; _ordered_events id.

Definition read_quarantine_manual_correction (correction_id : N) : sql QuarantineManualCorrection :=
  Stmt (SelectCorrection correction_id) (fun a => Done (match a with
    | ACorrection (Some c) => make_QuarantineManualCorrection c
    | ACorrection None => raise "KeyError" "quarantine manual correction not found"
    | _ => sql_error a
    end)).

Definition _validate_event (event : QuarantineReviewEvent) (allow_manual : bool) : sql unit :=
  batch ← _batch_row (qv_quarantine_id event);
  if negb (String.eqb (qe_dataset_id batch) (qv_dataset_id event)) then
    pure (raise "QuarantineGovernanceError" "quarantine belongs to another dataset")
  else
    case ← _case_from_connection (qv_quarantine_id event);
    if negb (bool_decide (qk_status case = qv_from_status event)) then
      pure (raise "QuarantineTransitionConflict" "quarantine expected another current status")
    else if negb (bool_decide (qv_to_status event ∈ _ALLOWED_TRANSITIONS (qv_from_status event))) then
      pure (raise "QuarantineGovernanceError" "invalid quarantine transition")
    else if negb (_resolution_allowed event) then
      pure (raise "QuarantineGovernanceError" "resolution is not valid for the status")
    else if bool_decide (qv_resolution event = Some MANUAL_CORRECTION) && negb allow_manual then
      pure (raise "QuarantineGovernanceError" "MANUAL_CORRECTION must use resolve_quarantine_with_manual_correction")
    else mret tt.

(** The values of [_insert_event]. *)
Definition _insert_event (e : QuarantineReviewEvent) : review_row :=
  {| vr_event_id := qv_event_id e; vr_quarantine_id := qv_quarantine_id e; vr_dataset_id := qv_dataset_id e;
     vr_from_status := status_text (qv_from_status e); vr_to_status := status_text (qv_to_status e);
     vr_resolution := resolution_text <$> qv_resolution e; vr_actor := qv_actor e; vr_reason := qv_reason e;
     vr_ticket_reference := qv_ticket_reference e; vr_correction_id := qv_correction_id e; vr_occurred_at := qv_occurred_at e |}.

(** The end of a transaction that inserts a review: the case as it is before the commit. *)
Definition insert_and_read (q : statement) (id : N) : sql QuarantineCase :=
  Stmt q (fun a => Done (read_inserted id a)).

Definition record_quarantine_review_event (event : QuarantineReviewEvent) : sql QuarantineCase :=
  prog_except ["IntegrityError"]
    (fun _ => pure (raise "QuarantineTransitionConflict" "quarantine transition was already claimed"))
    (_ ← _validate_event event false;
     insert_and_read (InsertReview (_insert_event event)) (qv_quarantine_id event)).

Definition check_correction (correction : QuarantineManualCorrection) (event : QuarantineReviewEvent) : res unit :=
  if negb (qv_quarantine_id event =? qm_quarantine_id correction)%N then
    raise "QuarantineGovernanceError" "manual correction/event quarantine_id mismatch"
  else if negb (String.eqb (qv_dataset_id event) (qm_dataset_id correction)) then
    raise "QuarantineGovernanceError" "manual correction/event dataset_id mismatch"
  else if negb (bool_decide (qv_from_status event = Q_UNDER_REVIEW)) then
    raise "QuarantineGovernanceError" "manual correction requires UNDER_REVIEW current state"
  else if negb (bool_decide (qv_to_status event = Q_RESOLVED)) then
    raise "QuarantineGovernanceError" "manual correction must resolve the quarantine case"
  else if negb (bool_decide (qv_resolution event = Some MANUAL_CORRECTION)) then
    raise "QuarantineGovernanceError" "manual correction event requires MANUAL_CORRECTION resolution"
  else if negb (bool_decide (qv_correction_id event = Some (qm_correction_id correction))) then
    raise "QuarantineGovernanceError" "manual correction/event correction_id mismatch"
  else if String.eqb (qm_correction_reference correction) (qm_original_source_reference correction) then
    raise "QuarantineGovernanceError" "manual correction reference must be distinct from immutable original payload"
  else Ok tt.

Definition resolve_quarantine_with_manual_correction (correction : QuarantineManualCorrection)
    (event : QuarantineReviewEvent) : sql QuarantineCase :=
  _ ← pure (check_correction correction event);
  prog_except ["IntegrityError"]
    (fun _ => pure (raise "QuarantineTransitionConflict" "manual correction or transition was already recorded"))
    (batch ← _batch_row (qm_quarantine_id correction);
     if negb (String.eqb (qe_dataset_id batch) (qm_dataset_id correction)) then
       pure (raise "QuarantineGovernanceError" "quarantine belongs to another dataset")
     else
       match qe_source_reference batch with
       | None => pure (raise "QuarantineGovernanceError" "manual correction requires retained original quarantine payload reference")
       | Some source_reference =>
         if negb (String.eqb source_reference (qm_original_source_reference correction)) then
           pure (raise "QuarantineGovernanceError" "manual correction original_source_reference does not match quarantine evidence")
         else
           _ ← _validate_event event true;
           insert_and_read (InsertCorrection correction (_insert_event event)) (qm_quarantine_id correction)
       end).

(** ** Evidence ([control_plane/io.py]) *)

Definition record_quarantine_batch (batch : QuarantineBatchEvidence) : sql unit :=
  if is_some (qe_replayed_by_dataset_run_id batch) then
    pure (raise "ValueError" "new quarantine evidence cannot start as already replayed")
  else
    Stmt (SelectBatch (qe_quarantine_id batch)) (fun a => match a with
      | ABatch (Some _) => pure (raise "ValueError" "quarantine batch is already recorded")
      | ABatch None =>
        Stmt (InsertBatch batch) (fun a => Done (match a with ARowcount _ => Ok tt | _ => sql_error a end))
      | _ => pure (sql_error a)
      end).

(** The batches of the ids, in their order. *)
Definition batches_in_order (ids : list N) (rows : list QuarantineBatchEvidence) : res (list QuarantineBatchEvidence) :=
  mapM_res (fun id => match list_find (fun b => qe_quarantine_id b = id) rows with
                      | Some (_, b) => Ok b
                      | None => raise "KeyError" "quarantine batches not found"
                      end) ids.

Definition check_ids (ids : list N) : res unit :=
  if bool_decide (ids = []) then raise "ValueError" "quarantine_ids cannot be empty"
  else raise_if (negb (bool_decide (NoDup ids))) "ValueError" "quarantine_ids cannot contain duplicates".

Definition select_batches (q : statement) : sql (list QuarantineBatchEvidence) :=
  Stmt q (fun a => Done (match a with ABatches bs => Ok bs | _ => sql_error a end)).

(** [_quarantine_from_row] *)
Definition evidence_of (rows : list QuarantineBatchEvidence) : res (list QuarantineBatchEvidence) :=
  mapM_res make_QuarantineBatchEvidence rows.

Definition read_quarantine_batches (ids : list N) : sql (list QuarantineBatchEvidence) :=
  _ ← pure (check_ids ids);
  rows ← select_batches (SelectBatches ids);
  rows ← pure (evidence_of rows);
  pure (batches_in_order ids rows).

Definition read_quarantine_batches_for_run (dataset_id : string) (dataset_run_id : N) : sql (list QuarantineBatchEvidence) :=
  rows ← select_batches (SelectBatchesForRun dataset_id dataset_run_id);
  pure (evidence_of rows).

(** The checks of the rows of the scope before they are marked. *)
Definition markable (dataset_id : string) (run : N) (row : QuarantineBatchEvidence) : res unit :=
  if negb (String.eqb (qe_dataset_id row) dataset_id) then raise "ValueError" "quarantine belongs to another dataset"
  else
    match qe_replayed_by_dataset_run_id row with
    | Some existing => raise_if (negb (existing =? run)%N) "QuarantineReplayMarkerConflict" "quarantine was already replayed"
    | None => Ok tt
    end.

Definition mark_quarantine_replayed (dataset_id : string) (ids : list N) (run : N) (gate : StateCommitGate) :
    sql (list QuarantineBatchEvidence) :=
  if negb (can_advance_state gate) then
    pure (raise "ValueError" "quarantine replay marker cannot advance before target commit and required reconciliation")
  else
    _ ← pure (check_ids ids);
    rows ← select_batches (SelectBatches ids);
    rows ← pure (batches_in_order ids rows);
    _ ← pure (mapM_res (markable dataset_id run) rows);
    let unmarked := qe_quarantine_id <$> filter (fun b => qe_replayed_by_dataset_run_id b = None) rows in
    updated ← Stmt (MarkReplayed unmarked ids run) (fun a => Done (match a with
                | ABatches bs => Ok bs
                | ARowcount _ => raise "QuarantineReplayMarkerConflict" "quarantine changed concurrently during replay correlation"
                | _ => sql_error a
                end));
    updated ← pure (evidence_of updated);
    pure (batches_in_order ids updated).

(** ** Rows and events *)

Lemma parse_status_text s : parse_status (status_text s) = Ok s.
Proof. by destruct s. Qed.

Lemma parse_resolution_text r : parse_resolution (resolution_text r) = Ok r.
Proof. by destruct r. Qed.

Lemma make_event_Ok e e' : make_QuarantineReviewEvent e = Ok e' -> e' = e.
Proof. unfold make_QuarantineReviewEvent. repeat case_match; try done; by intros [= <-]. Qed.

(** A valid event is read back as it was inserted. *)
Lemma event_roundtrip e : make_QuarantineReviewEvent e = Ok e -> _event_from_row (_insert_event e) = Ok e.
Proof.
  intros He. unfold _event_from_row, _insert_event. simpl. rewrite !parse_status_text. simpl.
  destruct e as [? ? ? ? ? [r|] ? ? ? ? ?]; simpl in *; [rewrite parse_resolution_text|]; exact He.
Qed.

(** The event at another time. *)
Definition event_at (d : datetime) (e : QuarantineReviewEvent) : QuarantineReviewEvent :=
  {| qv_event_id := qv_event_id e; qv_quarantine_id := qv_quarantine_id e; qv_dataset_id := qv_dataset_id e;
     qv_from_status := qv_from_status e; qv_to_status := qv_to_status e; qv_resolution := qv_resolution e;
     qv_actor := qv_actor e; qv_reason := qv_reason e; qv_ticket_reference := qv_ticket_reference e;
     qv_correction_id := qv_correction_id e; qv_occurred_at := d |}.

Lemma make_event_at d e : make_QuarantineReviewEvent (event_at d e) = event_at d <$> make_QuarantineReviewEvent e.
Proof. unfold make_QuarantineReviewEvent. simpl. repeat case_match; done. Qed.

Lemma event_from_read r r' :
  read_review r r' -> exists d, _event_from_row r' = event_at d <$> _event_from_row r.
Proof.
  intros (d & _ & ->). exists d. unfold _event_from_row. simpl.
  destruct (parse_status (vr_from_status r)); [|done]. destruct (parse_status (vr_to_status r)); [|done]. simpl.
  destruct (vr_resolution r) as [s|]; [destruct (parse_resolution s); [|done]|]; simpl; by rewrite <-make_event_at.
Qed.

Lemma parse_enum_text {A} (text : A -> string) members s a : parse_enum text members s = Ok a -> text a = s.
Proof.
  unfold parse_enum. destruct (list_find _ _) as [[i x]|] eqn:E; [|done].
  apply list_find_Some in E as (_ & E & _). by intros [= <-].
Qed.

Lemma event_from_row_fields r e :
  _event_from_row r = Ok e ->
  qv_event_id e = vr_event_id r /\ qv_quarantine_id e = vr_quarantine_id r /\
  status_text (qv_from_status e) = vr_from_status r /\ status_text (qv_to_status e) = vr_to_status r /\
  qv_correction_id e = vr_correction_id r /\ resolution_text <$> qv_resolution e = vr_resolution r /\ make_QuarantineReviewEvent e = Ok e.
Proof.
  assert (Htext : forall s st, parse_status s = Ok st -> status_text st = s) by (apply parse_enum_text).
  assert (Hres : forall s r, parse_resolution s = Ok r -> resolution_text r = s) by (apply parse_enum_text).
  unfold _event_from_row. intros (f & Hf & H)%bind_Ok. apply bind_Ok in H as (t & Ht & H).
  apply bind_Ok in H as (o & Ho & H). pose proof (make_event_Ok _ _ H) as ->. simpl. rewrite H. split_and!; auto.
  destruct (vr_resolution r) as [s|]; [|by injection Ho as <-]. apply bind_Ok in Ho as (x & Hx & [= <-]). simpl. f_equal. auto.
Qed.

(** ** Chains of transitions *)

(** The events are a path of allowed transitions that starts in [s]. *)
Fixpoint chain (s : QuarantineStatus) (es : list QuarantineReviewEvent) : Prop :=
  match es with
  | [] => True
  | e :: es => qv_from_status e = s /\ qv_to_status e ∈ _ALLOWED_TRANSITIONS s /\ _resolution_allowed e = true /\ chain (qv_to_status e) es
  end.

(** Transitions lead to a status of a higher rank. *)
Definition rank (s : QuarantineStatus) : nat :=
  match s with Q_OPEN => 0 | Q_UNDER_REVIEW => 1 | Q_RESOLVED | Q_REJECTED | Q_WAIVED => 2 | Q_REPLAYED => 3 end.

Lemma allowed_rank s s' : s' ∈ _ALLOWED_TRANSITIONS s -> (rank s < rank s')%nat.
Proof. destruct s; simpl; rewrite ?elem_of_cons, ?elem_of_nil; destruct s'; simpl; intuition (try done; lia). Qed.

Lemma chain_rank s es : chain s es -> Forall (fun e => (rank s <= rank (qv_from_status e))%nat) es.
Proof.
  revert s. induction es as [|e es IH]; intros s; simpl; [constructor|]. intros (<- & Ha & _ & Hc).
  apply allowed_rank in Ha. constructor; [done|]. eapply Forall_impl; [by apply IH|]. simpl. lia.
Qed.

Lemma chain_NoDup s es : chain s es -> NoDup (qv_from_status <$> es).
Proof.
  revert s. induction es as [|e es IH]; intros s; simpl; [constructor|]. intros (<- & Ha & _ & Hc).
  apply allowed_rank in Ha. constructor; [|by eapply IH]. intros (e' & He & Hin)%list_elem_of_fmap.
  pose proof (proj1 (Forall_forall _ _) (chain_rank _ _ Hc) e' Hin) as Hr. simpl in Hr. rewrite <-He in Hr. lia.
Qed.

(** A status of the chain that no event leaves is where it ends. *)
Lemma review_chain_snoc s es e :
  chain s es -> (qv_from_status e = s \/ exists e', e' ∈ es /\ qv_to_status e' = qv_from_status e) ->
  Forall (fun e' => qv_from_status e' <> qv_from_status e) es ->
  qv_to_status e ∈ _ALLOWED_TRANSITIONS (qv_from_status e) -> _resolution_allowed e = true -> chain s (es ++ [e]).
Proof.
  intros Hc Hs Hf Ha Hr. revert s Hc Hs. induction Hf as [|e0 es Hne Hf IH]; intros s; simpl.
  - intros _ [<-|(e' & ?%elem_of_nil & _)]; [|done]. by split_and!.
  - intros (<- & Ha0 & Hr0 & Hc) Hs. split_and!; try done. apply IH; [done|].
    destruct Hs as [Hs|(e' & [->|Hin]%elem_of_cons & He)]; [by destruct (Hne (eq_sym Hs))|by left|right; by exists e'].
Qed.

(** The walk of [_ordered_events] follows the chain, whatever the order of the rows. *)
Lemma event_from_Some by_from s e :
  event_from by_from s = Some e <-> exists i, list_find (fun kv => kv.1 = s) by_from = Some (i, (s, e)).
Proof.
  unfold event_from. destruct (list_find _ by_from) as [[i [s' e']]|] eqn:E; simpl; [|naive_solver].
  apply list_find_Some in E as (_ & Hs & _). simpl in Hs. subst. split; [intros [= <-]; by exists i|].
  by intros (j & [= -> <-]).
Qed.

Lemma event_from_NoDup by_from s e :
  NoDup by_from.*1 -> (s, e) ∈ by_from -> event_from by_from s = Some e.
Proof.
  intros Hnd Hin. unfold event_from. destruct (list_find _ by_from) as [[i [s' e']]|] eqn:E; simpl.
  - apply list_find_Some in E as (Hi & Hs & _). simpl in Hs. subst s'. f_equal.
    apply list_elem_of_lookup_2 in Hi. induction by_from as [|[s0 e0] l IH]; [by apply elem_of_nil in Hin|].
    simpl in Hnd. apply NoDup_cons in Hnd as [Hn Hnd].
    apply elem_of_cons in Hin, Hi. destruct Hin as [Hin|Hin], Hi as [Hi|Hi]; simplify_eq; try done.
    + destruct Hn. apply list_elem_of_fmap. by exists (s0, e').
    + destruct Hn. apply list_elem_of_fmap. by exists (s0, e).
    + by apply IH.
  - apply list_find_None in E. rewrite Forall_forall in E. by destruct (E _ Hin).
Qed.

Lemma event_from_None by_from s : s ∉ by_from.*1 -> event_from by_from s = None.
Proof.
  intros Hs. unfold event_from. destruct (list_find _ by_from) as [[i [s' e']]|] eqn:E; [|done].
  apply list_find_Some in E as (Hi & Hk & _). simpl in Hk. subst. destruct Hs. apply list_elem_of_fmap.
  exists (s, e'). split; [done|]. by eapply list_elem_of_lookup_2.
Qed.

(** What an event says apart from its time. *)
Definition same_event (e e' : QuarantineReviewEvent) : Prop := exists d, e' = event_at d e.

Lemma chain_same s es es' : Forall2 same_event es es' -> chain s es -> chain s es'.
Proof. intros Hs. revert s. induction Hs as [|e e' es es' [d ->] _ IH]; intros s; simpl; [done|]. intros (? & ? & ? & ?). auto. Qed.

Lemma index_events_Ok rows es acc :
  mapM_res _event_from_row rows = Ok es -> NoDup (acc.*1 ++ (qv_from_status <$> es)) ->
  foldM (fun by_from r =>
    event ← _event_from_row r;
    if bool_decide (qv_from_status event ∈ by_from.*1) then
      raise "QuarantineGovernanceError" "quarantine has multiple transitions from a status"
    else Ok (by_from ++ [(qv_from_status event, event)])) acc rows = Ok (acc ++ ((fun e => (qv_from_status e, e)) <$> es)).
Proof.
  revert es acc. induction rows as [|r rows IH]; intros es acc; simpl; [by intros [= <-] _; rewrite app_nil_r|].
  destruct (_event_from_row r) as [e|]; [|done]. destruct (mapM_res _ rows) as [es'|]; [|done]. intros [= <-] Hnd.
  simpl in Hnd. simpl. rewrite bool_decide_eq_false_2.
  - rewrite (IH es' _ eq_refl); [by rewrite <-app_assoc|]. rewrite fmap_app, <-app_assoc. exact Hnd.
  - intros Hin. apply NoDup_app in Hnd as (_ & Hnot & _). by apply (Hnot _ Hin), elem_of_cons; left.
Qed.

(** Where a chain ends. *)
Definition final_status (s : QuarantineStatus) (es : list QuarantineReviewEvent) : QuarantineStatus :=
  default s (qv_to_status <$> last es).

Lemma final_status_cons s e es : final_status s (e :: es) = final_status (qv_to_status e) es.
Proof. unfold final_status. rewrite last_cons. by destruct (last es). Qed.

Lemma chain_final_rank s es : chain s es -> Forall (fun e => (rank (qv_from_status e) < rank (final_status s es))%nat) es /\ (rank s <= rank (final_status s es))%nat.
Proof.
  revert s. induction es as [|e es IH]; intros s; simpl; [by split|]. intros (<- & Ha & _ & Hc).
  rewrite final_status_cons. destruct (IH _ Hc) as [IH1 IH2]. apply allowed_rank in Ha.
  split; [|lia]. constructor; [lia|done].
Qed.

Lemma walk_chain by_from s es seen fuel :
  chain s es -> Forall (fun e => event_from by_from (qv_from_status e) = Some e) es ->
  event_from by_from (final_status s es) = None -> Forall (fun s' => (rank s' < rank s)%nat) seen ->
  (length es <= fuel)%nat -> walk fuel by_from s seen = Ok es.
Proof.
  revert s seen fuel. induction es as [|e es IH]; intros s seen fuel Hc Hev Hfin Hseen Hfuel; simpl in *.
  { destruct fuel; simpl; unfold final_status in Hfin; simpl in Hfin; by rewrite Hfin. }
  destruct Hc as (Hf & Ha & _ & Hc). apply Forall_cons in Hev as [He Hev]. rewrite final_status_cons in Hfin.
  pose proof (allowed_rank _ _ Ha) as Hr. destruct fuel as [|fuel]; [lia|]. simpl. rewrite <-Hf, He, Hf.
  rewrite bool_decide_eq_false_2; [|intros Hin; rewrite Forall_forall in Hseen; specialize (Hseen _ Hin); lia].
  rewrite IH; [done|done|done|done| |lia]. constructor; [done|]. eapply Forall_impl; [exact Hseen|]. simpl. lia.
Qed.

(** [_ordered_events] restores the chain from its rows in any order. *)
Lemma ordered_chain rows es es' :
  mapM_res _event_from_row rows = Ok es' -> es' ≡ₚ es -> chain Q_OPEN es -> ordered_events rows = Ok es.
Proof.
  intros Hrows Hp Hc. unfold ordered_events, index_events.
  assert (Hnd : NoDup (qv_from_status <$> es')) by (rewrite Hp; by eapply chain_NoDup).
  rewrite (index_events_Ok rows es' []) by done. simpl. set (by_from := (fun e => (qv_from_status e, e)) <$> es').
  assert (Hkeys : by_from.*1 = qv_from_status <$> es') by (unfold by_from; by rewrite <-list_fmap_compose).
  assert (Hlen : length es = length rows).
  { rewrite <-(Permutation_length Hp). symmetry. by apply (Forall2_length _ _ _ (proj1 (mapM_res_Forall2 _ _ _) Hrows)). }
  rewrite (walk_chain by_from Q_OPEN es).
  - simpl. by rewrite Hlen, Nat.eqb_refl.
  - done.
  - apply Forall_forall. intros e He. apply event_from_NoDup; [by rewrite Hkeys|]. apply list_elem_of_fmap.
    exists e. split; [done|]. by rewrite Hp.
  - apply event_from_None. rewrite Hkeys. intros (e & He & Hin)%list_elem_of_fmap. rewrite Hp in Hin.
    destruct (chain_final_rank _ _ Hc) as [Hr _]. rewrite Forall_forall in Hr. specialize (Hr e Hin). simpl in Hr.
    rewrite <-He in Hr. lia.
  - constructor.
  - unfold by_from. rewrite length_fmap. by rewrite (Permutation_length Hp).
Qed.

(** Whatever the driver makes of the reviews of a case, they are read as their chain. *)
Lemma ordered_read rows es rows' :
  mapM_res _event_from_row rows = Ok es -> chain Q_OPEN es -> read_rows read_review rows rows' ->
  exists es', Forall2 same_event es es' /\ ordered_events rows' = Ok es'.
Proof.
  intros Hrows Hc (rows1 & Hp & Hread). apply mapM_res_Forall2 in Hrows.
  destruct (Permutation.Permutation_Forall2 (symmetry Hp) Hrows) as (es1 & Hp1 & Hrows1).
  assert (exists es2, Forall2 same_event es1 es2 /\ mapM_res _event_from_row rows' = Ok es2) as (es2 & Hs & Hrows').
  { clear -Hrows1 Hread. revert es1 Hrows1. induction Hread as [|r r' rows1 rows' Hr _ IH]; intros es1 H1.
    - inversion H1; subst. by exists [].
    - inversion H1 as [|? e ? es1' He H1']; subst. destruct (IH _ H1') as (es2 & Hs & Hm).
      destruct (event_from_read _ _ Hr) as [d Hd]. rewrite He in Hd. exists (event_at d e :: es2).
      split; [by constructor; [exists d|]|]. simpl in *. by rewrite Hd, Hm. }
  destruct (Permutation.Permutation_Forall2 (symmetry Hp1) Hs) as (es3 & Hp3 & Hs3).
  exists es3. split; [done|]. eapply ordered_chain; [exact Hrows'|done|by eapply chain_same].
Qed.

(** ** The state of the quarantine *)

Definition approved (t : quarantine_tables) (e : QuarantineReviewEvent) : Prop :=
  qv_resolution e = Some MANUAL_CORRECTION ->
  exists c b, qv_correction_id e = Some (qm_correction_id c) /\ qt_corrections t !! qm_correction_id c = Some c /\
    qm_quarantine_id c = qv_quarantine_id e /\ qt_batches t !! qv_quarantine_id e = Some b /\
    qe_source_reference b = Some (qm_original_source_reference c) /\
    qm_correction_reference c <> qm_original_source_reference c.

(** Every case is a chain of allowed transitions of a recorded batch, with its corrections. *)
Definition quarantine_inv (t : quarantine_tables) : Prop :=
  (forall id b, qt_batches t !! id = Some b -> qe_quarantine_id b = id) /\
  (forall id, exists es, mapM_res _event_from_row (reviews_for t id) = Ok es /\ chain Q_OPEN es /\ Forall (approved t) es) /\
  NoDup (vr_event_id <$> qt_reviews t).

(** A batch only receives its marker, once. *)
Definition evolves (b b' : QuarantineBatchEvidence) : Prop :=
  b' = b \/ (qe_replayed_by_dataset_run_id b = None /\ exists run, b' = marked_by run b).

Definition quarantine_later (t t' : quarantine_tables) : Prop :=
  (forall id b, qt_batches t !! id = Some b -> exists b', qt_batches t' !! id = Some b' /\ evolves b b') /\
  (forall id c, qt_corrections t !! id = Some c -> qt_corrections t' !! id = Some c) /\
  (exists new, qt_reviews t' = qt_reviews t ++ new).

(** The case has been in the status. *)
Definition reached (t : quarantine_tables) (id : N) (s : QuarantineStatus) : Prop :=
  s = Q_OPEN \/ exists r, r ∈ reviews_for t id /\ vr_to_status r = status_text s.

(** A review event that may be inserted once its transition is free. *)
Definition insertable (t : quarantine_tables) (e : QuarantineReviewEvent) : Prop :=
  make_QuarantineReviewEvent e = Ok e /\ qv_to_status e ∈ _ALLOWED_TRANSITIONS (qv_from_status e) /\
  _resolution_allowed e = true /\ reached t (qv_quarantine_id e) (qv_from_status e).

(** The case was resolved by the correction [c]. *)
Definition decided_by (t : quarantine_tables) (id c : N) : Prop :=
  exists r, r ∈ reviews_for t id /\ vr_resolution r = Some (resolution_text MANUAL_CORRECTION) /\ vr_correction_id r = Some c.

(** The payload is the one on record, or names the correction its case was resolved by, with the
    exact reference and hash. *)
Definition provenance (t : quarantine_tables) (p : QuarantineReplayPayload) : Prop :=
  (exists b, qt_batches t !! rp_quarantine_id p = Some b /\ qe_dataset_id b = rp_dataset_id p /\
     qe_source_reference b = Some (rp_source_reference p) /\ qe_row_count b = Z.of_nat (length (rp_rows p))) /\
  (forall c, rp_correction_id p = Some c -> decided_by t (rp_quarantine_id p) c /\
     exists corr, qt_corrections t !! c = Some corr /\ qm_quarantine_id corr = rp_quarantine_id p /\
       rp_correction_reference p = Some (qm_correction_reference corr) /\
       rp_correction_payload_sha256 p = Some (qm_correction_payload_sha256 corr)).

Definition quarantine_wf (t : quarantine_tables) (q : statement) : Prop :=
  match q with
  | InsertReview r => exists e, r = _insert_event e /\ insertable t e /\ qv_resolution e <> Some MANUAL_CORRECTION
  | InsertCorrection c r =>
    exists e b, r = _insert_event e /\ insertable t e /\ qv_correction_id e = Some (qm_correction_id c) /\
      qm_quarantine_id c = qv_quarantine_id e /\ qt_batches t !! qv_quarantine_id e = Some b /\
      qe_source_reference b = Some (qm_original_source_reference c) /\
      qm_correction_reference c <> qm_original_source_reference c
  | ExecutePayloads payloads => Forall (provenance t) payloads
  | _ => True
  end.

Lemma evolves_batch_trans b1 b2 b3 : evolves b1 b2 -> evolves b2 b3 -> evolves b1 b3.
Proof.
  intros [->|[Hn (run & ->)]] [->|[Hn2 (run2 & ->)]]; unfold evolves; eauto; try done.
Qed.

Lemma later_reviews t t' id r : quarantine_later t t' -> r ∈ reviews_for t id -> r ∈ reviews_for t' id.
Proof.
  intros (_ & _ & (new & Hn)). unfold reviews_for. rewrite !list_elem_of_filter, Hn, elem_of_app. tauto.
Qed.

Lemma reached_later t t' id s : quarantine_later t t' -> reached t id s -> reached t' id s.
Proof. intros Hl [->|(r & Hr & Ht)]; [by left|right]. exists r. split; [by eapply later_reviews|done]. Qed.

Lemma insertable_later t t' e : quarantine_later t t' -> insertable t e -> insertable t' e.
Proof. intros Hl (? & ? & ? & ?). split_and!; try done. by eapply reached_later. Qed.

Lemma approved_later t t' e : quarantine_later t t' -> approved t e -> approved t' e.
Proof.
  intros (Hb & Hc & _) He Hm. destruct (He Hm) as (c & b & H1 & H2 & H3 & H4 & H5 & H6).
  destruct (Hb _ _ H4) as (b' & H4' & Hev). exists c, b'. split_and!; auto. by destruct Hev as [->|[_ (run & ->)]].
Qed.

Lemma provenance_later t t' p : quarantine_later t t' -> provenance t p -> provenance t' p.
Proof.
  intros Hl [(b & E1 & E2 & E3 & E4) Hc]. pose proof Hl as (Hb & Hcor & _). split.
  - destruct (Hb _ _ E1) as (b' & E1' & [->|[_ (run & ->)]]); [by exists b|by exists (marked_by run b)].
  - intros c Hp. destruct (Hc c Hp) as [(r & Hr & Hd) (corr & H1 & H2)]. split; [|exists corr; split; auto].
    exists r. split; [by eapply later_reviews|done].
Qed.

Lemma quarantine_later_refl t : quarantine_later t t.
Proof. split_and!; [|done|exists []; by rewrite app_nil_r]. intros id b Hb. exists b. split; [done|by left]. Qed.

Lemma quarantine_later_trans t1 t2 t3 : quarantine_later t1 t2 -> quarantine_later t2 t3 -> quarantine_later t1 t3.
Proof.
  intros (Hb1 & Hc1 & (n1 & Hr1)) (Hb2 & Hc2 & (n2 & Hr2)). split_and!.
  - intros id b Hb. destruct (Hb1 _ _ Hb) as (b2 & Hb2' & H12). destruct (Hb2 _ _ Hb2') as (b3 & Hb3' & H23).
    exists b3. split; [done|by eapply evolves_batch_trans].
  - eauto.
  - exists (n1 ++ n2). by rewrite Hr2, Hr1, app_assoc.
Qed.

(** ** What a statement does *)

Lemma foldr_alter_lookup (run : N) ids (bs : gmap N QuarantineBatchEvidence) id :
  foldr (fun id bs => alter (marked_by run) id bs) bs ids !! id =
  (if bool_decide (id ∈ ids) then marked_by run else fun b => b) <$> bs !! id.
Proof.
  induction ids as [|i ids IH]; simpl; [by destruct (bs !! id)|].
  destruct (decide (i = id)) as [->|Hne].
  - rewrite lookup_alter_eq, IH. rewrite (bool_decide_eq_true_2 (id ∈ id :: ids)) by apply list_elem_of_here.
    destruct (bs !! id) as [b|]; [|done]. simpl. by case_bool_decide.
  - rewrite lookup_alter_ne by done. rewrite IH. f_equal. case_bool_decide as H1; case_bool_decide as H2; try done.
    + destruct H2. apply elem_of_cons. by right.
    + apply elem_of_cons in H2 as [->|?]; done.
Qed.

(** A statement leaves the tables, adds a batch, appends a review, or marks batches. *)
Lemma exec_cases t q :
  (exec_tables t q).2 = t \/
  (exists b, q = InsertBatch b /\ qt_batches t !! qe_quarantine_id b = None /\
     (exec_tables t q).2 = with_batches t (<[qe_quarantine_id b := b]> (qt_batches t))) \/
  (exists r, q = InsertReview r /\ review_rejected t r = false /\ (exec_tables t q).2 = with_review t r) \/
  (exists c r, q = InsertCorrection c r /\ qt_corrections t !! qm_correction_id c = None /\
     review_rejected (with_correction t c) r = false /\ (exec_tables t q).2 = with_review (with_correction t c) r) \/
  (exists ids scope run, q = MarkReplayed ids scope run /\ forallb (unmarked_in t) ids = true /\
     (exec_tables t q).2 = with_batches t (foldr (fun id bs => alter (marked_by run) id bs) (qt_batches t) ids)).
Proof.
  destruct q; cbn [exec_tables]; try (by left).
  - destruct (qt_batches t !! qe_quarantine_id b) eqn:E; [by left|right; left]. by exists b.
  - destruct (review_rejected t r) eqn:E; [by left|]. right; right; left. by exists r.
  - destruct (is_some (qt_corrections t !! qm_correction_id c) || _ || _) eqn:E; [by left|].
    apply orb_false_iff in E as [[E1 _]%orb_false_iff E2]. right; right; right; left. exists c, r.
    split_and!; try done. by destruct (qt_corrections t !! _).
  - destruct (forallb (unmarked_in t) unmarked) eqn:E; [|by left]. right; right; right; right. by exists unmarked, scope, run.
Qed.

Lemma exec_later t q : quarantine_later t (exec_tables t q).2.
Proof.
  destruct (exec_cases t q) as [->|[(b & -> & Hn & ->)|[(r & -> & _ & ->)|[(c & r & -> & Hn & _ & ->)|(ids & sc & run & -> & Hall & ->)]]]].
  - apply quarantine_later_refl.
  - split_and!; [|done|exists []; by rewrite app_nil_r]. intros id b' Hb'. exists b'. split; [|by left]. simpl.
    rewrite lookup_insert_ne; [done|]. intros <-. congruence.
  - split_and!; [|done|by exists [r]]. intros id b' Hb'. exists b'. split; [done|by left].
  - split_and!; [| |by exists [r]].
    + intros id b' Hb'. exists b'. split; [done|by left].
    + intros id c' Hc'. simpl. rewrite lookup_insert_ne; [done|]. intros <-. congruence.
  - split_and!; [|done|exists []; by rewrite app_nil_r]. intros id b Hb. simpl. rewrite foldr_alter_lookup, Hb.
    case_bool_decide as Hin; (eexists; split; [done|]); [|by left]. right.
    apply forallb_forall with (x := id) in Hall; [|by apply list_elem_of_In].
    unfold unmarked_in in Hall. rewrite Hb in Hall. split; [by destruct (qe_replayed_by_dataset_run_id b)|by exists run].
Qed.

Lemma status_text_inj s s' : status_text s = status_text s' -> s = s'.
Proof. by destruct s, s'. Qed.

Lemma mapM_res_app {A B} (f : A -> res B) l1 l2 b1 b2 :
  mapM_res f l1 = Ok b1 -> mapM_res f l2 = Ok b2 -> mapM_res f (l1 ++ l2) = Ok (b1 ++ b2).
Proof. rewrite !mapM_res_Forall2. apply Forall2_app. Qed.

(** A free transition of a status that was reached extends the chain of its case. *)
Lemma review_extends t e es :
  insertable t e -> review_rejected t (_insert_event e) = false ->
  mapM_res _event_from_row (reviews_for t (qv_quarantine_id e)) = Ok es -> chain Q_OPEN es -> chain Q_OPEN (es ++ [e]).
Proof.
  intros (Hv & Ha & Hr & Hreach) Hrej Hes Hc. apply mapM_res_Forall2 in Hes.
  apply review_chain_snoc; [done| | |done|done].
  - destruct Hreach as [?|(r & Hin & Hto)]; [by left|right]. apply list_elem_of_lookup_1 in Hin as [i Hi].
    destruct (Forall2_lookup_l _ _ _ _ _ Hes Hi) as (e' & He' & Hdec). exists e'. split; [by eapply list_elem_of_lookup_2|].
    apply event_from_row_fields in Hdec as (_ & _ & _ & Ht & _). apply status_text_inj. by rewrite Ht.
  - apply Forall_forall. intros e' [i Hi]%list_elem_of_lookup_1 Hfrom.
    destruct (Forall2_lookup_r _ _ _ _ _ Hes Hi) as (r & Hr' & Hdec). apply list_elem_of_lookup_2 in Hr'.
    apply list_elem_of_filter in Hr' as [Hq Hin]. apply event_from_row_fields in Hdec as (_ & _ & Hf & _).
    unfold review_rejected in Hrej. apply orb_false_iff in Hrej as [[Hrej _]%orb_false_iff _].
    assert (existsb (fun r' => bool_decide (transition_key r' = transition_key (_insert_event e))
              || N.eqb (vr_event_id r') (vr_event_id (_insert_event e))) (qt_reviews t) = true) as Hex.
    { apply existsb_elem. exists r. split; [done|]. apply orb_true_iff. left. apply bool_decide_eq_true.
      unfold transition_key, _insert_event. simpl. by rewrite Hq, <-Hf, Hfrom. }
    congruence.
Qed.

Lemma with_review_later t r : quarantine_later t (with_review t r).
Proof. split_and!; [|done|by exists [r]]. intros id b Hb. exists b. split; [done|by left]. Qed.

Lemma append_review_inv t t1 e :
  quarantine_inv t -> insertable t e -> qt_reviews t1 = qt_reviews t -> qt_batches t1 = qt_batches t -> quarantine_later t t1 ->
  review_rejected t1 (_insert_event e) = false -> approved t1 e -> quarantine_inv (with_review t1 (_insert_event e)).
Proof.
  intros (Hids & Hcases & Hnd) He Hrev Hbat Hlater Hrej Happ.
  assert (Hfor : forall id, reviews_for t1 id = reviews_for t id) by (intros id; unfold reviews_for; by rewrite Hrev).
  split_and!.
  - simpl. by rewrite Hbat.
  - intros id. destruct (Hcases id) as (es & Hes & Hc & Hap).
    assert (Hap1 : Forall (approved (with_review t1 (_insert_event e))) es).
    { eapply Forall_impl; [exact Hap|]. intros e' He'. apply (approved_later t1), (approved_later t); auto using with_review_later. }
    unfold reviews_for in *. simpl. rewrite filter_app. destruct (decide (id = qv_quarantine_id e)) as [->|Hne].
    + exists (es ++ [e]). split_and!.
      * apply mapM_res_app; [by rewrite Hfor|]. rewrite filter_cons, decide_True by done. simpl.
        destruct He as (Hv & _). by rewrite (event_roundtrip _ Hv).
      * eapply (review_extends t1); [by eapply (insertable_later t)|done| |done]. unfold reviews_for. by rewrite Hfor.
      * apply Forall_app. split; [done|]. by constructor.
    + exists es. rewrite filter_cons, decide_False by (simpl; congruence). rewrite app_nil_r. by rewrite Hfor.
  - simpl. rewrite fmap_app, Hrev. apply NoDup_app. split; [done|]. split; [|apply NoDup_singleton].
    intros i Hi ->%list_elem_of_singleton. apply list_elem_of_fmap in Hi as (r & Hid & Hin).
    unfold review_rejected in Hrej. apply orb_false_iff in Hrej as [[Hrej _]%orb_false_iff _].
    assert (existsb (fun r' => bool_decide (transition_key r' = transition_key (_insert_event e))
              || N.eqb (vr_event_id r') (vr_event_id (_insert_event e))) (qt_reviews t1) = true) as Hex.
    { apply existsb_elem. exists r. rewrite Hrev. split; [done|]. apply orb_true_iff. right. by apply N.eqb_eq. }
    congruence.
Qed.

(** Tables with the same reviews keep the cases. *)
Lemma same_reviews_inv t t' :
  quarantine_inv t -> qt_reviews t' = qt_reviews t -> quarantine_later t t' ->
  (forall id b, qt_batches t' !! id = Some b -> qe_quarantine_id b = id) -> quarantine_inv t'.
Proof.
  intros (_ & Hcases & Hnd) Hrev Hl Hids. split_and!; [done| |by rewrite Hrev].
  intros id. destruct (Hcases id) as (es & Hes & Hc & Hap). exists es. split_and!; [|done|].
  - unfold reviews_for. rewrite Hrev. exact Hes.
  - eapply Forall_impl; [exact Hap|]. intros e. by apply approved_later.
Qed.

Lemma exec_inv t q : quarantine_inv t -> quarantine_wf t q -> quarantine_inv (exec_tables t q).2.
Proof.
  intros Hinv Hwf. pose proof (exec_later t q) as Hl. pose proof Hinv as (Hids & _ & _).
  destruct (exec_cases t q) as [E|[(b & -> & Hn & E)|[(r & -> & Hrej & E)|[(c & r & -> & Hn & Hrej & E)|(ids & sc & run & -> & Hall & E)]]]];
    rewrite E in *; [done|..].
  - apply (same_reviews_inv t); try done. intros id b'. simpl. rewrite lookup_insert_Some. intros [[<- <-]|[_ ?]]; [done|by apply Hids].
  - destruct Hwf as (e & -> & He & Hm). apply (append_review_inv t); try done; [apply quarantine_later_refl|by intros ?].
  - destruct Hwf as (e & b & -> & He & Hc & Hq & Hb & Hs & Hd).
    assert (Hl1 : quarantine_later t (with_correction t c)).
    { split_and!; [| |exists []; by rewrite app_nil_r].
      - intros id b' Hb'. exists b'. split; [done|by left].
      - intros id c' Hc'. simpl. rewrite lookup_insert_ne; [done|]. intros <-. congruence. }
    apply (append_review_inv t); try done. intros _. exists c, b. split_and!; try done. simpl. by rewrite lookup_insert_eq.
  - apply (same_reviews_inv t); try done. intros id b'. simpl. rewrite foldr_alter_lookup.
    destruct (qt_batches t !! id) as [b|] eqn:Eb; [|done]. simpl. intros [= <-]. apply Hids in Eb. by case_bool_decide.
Qed.

#[export] Instance quarantine_state : SharedState documented quarantine_inv quarantine_later quarantine_wf.
Proof.
  split.
  - apply quarantine_later_refl.
  - apply quarantine_later_trans.
  - intros t q a t' _ _ [q' a' _|q' _|q' t2 [->| ->]|b p|ps o]; try first [apply exec_later|apply quarantine_later_refl].
    unfold after_answer. destruct (commits q' a'); [apply exec_later|apply quarantine_later_refl].
  - intros t q a t' Hinv Hwf Hd. destruct Hd as [q' a' _|q' _|q' t2 [->| ->]|b p|ps o]; try done; [|by apply exec_inv].
    unfold after_answer. destruct (commits q' a'); [by apply exec_inv|done].
  - intros t t' q Hl. destruct q; try done; simpl.
    + intros (e & -> & He & Hm). exists e. split_and!; try done. by eapply insertable_later.
    + intros (e & b & -> & He & Hc & Hq & Hb & Hs & Hd). destruct Hl as (Hbs & Hl2). destruct (Hbs _ _ Hb) as (b' & Hb' & Hev).
      exists e, b'. split_and!; try done; [eapply insertable_later; [by split|done]|by destruct Hev as [->|[_ (run & ->)]]].
    + intros Hp. eapply Forall_impl; [exact Hp|]. intros p. by apply provenance_later.
Qed.

(** ** The programs are safe *)

#[local] Notation qsafe := (safe documented quarantine_inv quarantine_later quarantine_wf).

(** Sequencing, for programs that promise something when they return. *)
Ltac sbind := eapply (safe_returns_bind documented quarantine_inv quarantine_later quarantine_wf).

Lemma mark_chain_stable {A} (P : quarantine_tables -> A -> Prop) :
  (forall t t' a, quarantine_later t t' -> P t a -> P t' a) -> stable quarantine_later (returns P).
Proof. intros HP t t' [a|e] Hl; [by apply HP|done]. Qed.

(** What a batch that was read says of the batch on record: its evidence, and its marker if any. *)
Definition recorded (t : quarantine_tables) (b : QuarantineBatchEvidence) : Prop :=
  exists b0, qt_batches t !! qe_quarantine_id b = Some b0 /\ qe_dataset_id b0 = qe_dataset_id b /\
    qe_row_count b0 = qe_row_count b /\ qe_source_reference b0 = qe_source_reference b /\
    (forall run, qe_replayed_by_dataset_run_id b = Some run -> qe_replayed_by_dataset_run_id b0 = Some run).

Lemma recorded_later t t' b : quarantine_later t t' -> recorded t b -> recorded t' b.
Proof.
  intros (Hb & _) (b0 & E0 & E1 & E2 & E3 & E4). destruct (Hb _ _ E0) as (b1 & E5 & [->|[Hn (run & ->)]]).
  - by exists b0.
  - exists (marked_by run b0). split_and!; try done. intros run' Hr. rewrite (E4 _ Hr) in Hn. done.
Qed.

Lemma read_batch_recorded t id b0 b :
  quarantine_inv t -> qt_batches t !! id = Some b0 -> read_batch b0 b -> qe_quarantine_id b = id /\ recorded t b.
Proof.
  intros (Hids & _) Hb (d & _ & ->). pose proof (Hids _ _ Hb) as Hid. simpl. split; [done|]. exists b0.
  simpl. rewrite Hid. by split_and!.
Qed.

Lemma batch_row_safe id t :
  qsafe (returns (fun t b => qe_quarantine_id b = id /\ recorded t b)) (_batch_row id) t.
Proof.
  split; [done|]. intros t1 a t2 _ Hinv Hex. simpl. inversion Hex as [q a' Hd| | | |]; subst; simpl in *; [|done..].
  inversion Hd as [b0 b Hb| | | | | |]; subst. inversion Hb as [b0' b' Hr E|]; subst; [|done]. simpl.
  by eapply read_batch_recorded.
Qed.

(** The events of a case that were read are its first transitions. *)
Definition read_events (t : quarantine_tables) (id : N) (es : list QuarantineReviewEvent) : Prop :=
  exists rows new es0, reviews_for t id = rows ++ new /\ mapM_res _event_from_row rows = Ok es0 /\
    Forall2 same_event es0 es /\ Forall (approved t) es0.

Lemma read_events_later t t' id es : quarantine_later t t' -> read_events t id es -> read_events t' id es.
Proof.
  intros Hl (rows & new & es0 & E1 & E2 & E3 & E4). pose proof Hl as (_ & _ & (n & Hn)).
  exists rows, (new ++ filter (fun r => vr_quarantine_id r = id) n), es0. split_and!; try done.
  - unfold reviews_for in *. by rewrite Hn, filter_app, E1, app_assoc.
  - eapply Forall_impl; [exact E4|]. intros e. by apply approved_later.
Qed.

(** The end of the chain that was read was reached. *)
Lemma read_events_reached t id es : read_events t id es -> reached t id (default Q_OPEN (qv_to_status <$> last es)).
Proof.
  intros (rows & new & es0 & E1 & E2 & E3 & _). destruct (last es) as [e|] eqn:El; [|by left]. right.
  apply last_Some in El as (es' & ->). apply Forall2_app_inv_r in E3 as (k1 & k2 & _ & H2 & ->).
  inversion H2 as [|e0 ? ? ? [d ->] H3]; subst. apply mapM_res_Forall2, Forall2_app_inv_r in E2 as (r1 & r2 & _ & H4 & ->).
  inversion H4 as [|r ? ? ? Hdec ?]; subst. exists r. rewrite E1. split.
  - rewrite <-app_assoc. apply elem_of_app. right. apply list_elem_of_here.
  - apply event_from_row_fields in Hdec as (_ & _ & _ & <- & _). done.
Qed.

Lemma ordered_events_read t id rows' :
  quarantine_inv t -> read_rows read_review (reviews_for t id) rows' ->
  exists es, ordered_events rows' = Ok es /\ read_events t id es.
Proof.
  intros (_ & Hc & _) Hr. destruct (Hc id) as (es0 & Hes & Hch & Hap).
  destruct (ordered_read _ _ _ Hes Hch Hr) as (es & Hs & Ho). exists es. split; [done|].
  exists (reviews_for t id), [], es0. split_and!; try done. by rewrite app_nil_r.
Qed.

Lemma ordered_events_safe id t : qsafe (returns (fun t es => read_events t id es)) (_ordered_events id) t.
Proof.
  split; [done|]. intros t1 a t2 _ Hinv Hex. inversion Hex as [q a' Hd| | | |]; subst; simpl in *; [|done..].
  inversion Hd as [| |rows rows' Hr| | | |]; subst. destruct (ordered_events_read _ _ _ Hinv Hr) as (es & -> & He). exact He.
Qed.

(** The case that was read: its status was reached or it was replayed; a manual correction it names
    is approved. *)
Definition read_case (t : quarantine_tables) (id : N) (case : QuarantineCase) : Prop :=
  exists b es, qe_quarantine_id b = id /\ recorded t b /\ read_events t id es /\ case_of id b es = Ok case.

Lemma make_case_Ok c c' : make_QuarantineCase c = Ok c' -> c' = c.
Proof. unfold make_QuarantineCase. repeat case_match; try done; by intros [= <-]. Qed.

Lemma read_case_status t id case :
  read_case t id case -> qk_status case <> Q_REPLAYED -> reached t id (qk_status case).
Proof.
  intros (b & es & _ & _ & He & ->%make_case_Ok). simpl. destruct (qe_replayed_by_dataset_run_id b); [done|].
  intros _. by apply read_events_reached.
Qed.

Lemma case_safe id t : qsafe (returns (fun t case => read_case t id case)) (_case_from_connection id) t.
Proof.
  unfold _case_from_connection. sbind; [apply batch_row_safe|]. intros t1 b _ [Hid Hb].
  sbind; [apply ordered_events_safe|]. intros t2 es Hl He. apply safe_returns_pure.
  intros case Hc. exists b, es. split_and!; try done. by eapply recorded_later.
Qed.

Lemma validate_event_safe event manual t :
  make_QuarantineReviewEvent event = Ok event ->
  qsafe (returns (fun t (_ : unit) => insertable t event /\ (manual = false -> qv_resolution event <> Some MANUAL_CORRECTION)))
    (_validate_event event manual) t.
Proof.
  intros Hv. unfold _validate_event. sbind; [apply batch_row_safe|]. intros t1 b _ _.
  destruct (negb _); [done|]. sbind; [apply case_safe|]. intros t2 case _ Hcase.
  destruct (bool_decide (qk_status case = _)) eqn:E1; [|done]. apply bool_decide_eq_true in E1. simpl.
  destruct (bool_decide (qv_to_status event ∈ _)) eqn:E2; [|done]. apply bool_decide_eq_true in E2. simpl.
  destruct (_resolution_allowed event) eqn:E3; [|done]. simpl.
  destruct (bool_decide (qv_resolution event = _) && negb manual) eqn:E4; [done|]. simpl. split.
  - split_and!; try done. rewrite <-E1. apply read_case_status; [done|]. rewrite E1. intros Hrep. unfold make_QuarantineReviewEvent in Hv.
    destruct (_ || _ || _); [done|]. by rewrite Hrep in Hv.
  - intros -> Hm. rewrite andb_true_r in E4. by apply bool_decide_eq_false in E4.
Qed.

(** A review whose case was read at the end of its transaction is on record. *)
Lemma insert_safe q r id t :
  (q = InsertReview r \/ exists c, q = InsertCorrection c r) -> vr_quarantine_id r = id -> quarantine_wf t q ->
  qsafe (returns (fun t (_ : QuarantineCase) => r ∈ qt_reviews t)) (insert_and_read q id) t.
Proof.
  intros Hq <- Hwf. split; [done|]. intros t1 a t2 _ _ Hex.
  inversion Hex as [q' a' Hd| | | |]; subst; simpl; [|done..].
  assert (a = AIntegrityError \/ r ∈ qt_reviews (exec_tables t1 q).2) as [->|Hin]; [|done|].
  { destruct Hq as [->|[c ->]]; cbn [exec_tables] in *.
    - destruct (review_rejected t1 r); [left; by inversion Hd|right]. apply elem_of_app. right. by apply list_elem_of_singleton.
    - destruct (_ || _); [left; by inversion Hd|right]. apply elem_of_app. right. by apply list_elem_of_singleton. }
  unfold after_answer, commits. destruct Hq as [->|[c ->]]; by destruct (read_inserted (vr_quarantine_id r) a).
Qed.

Lemma record_review_safe event t :
  make_QuarantineReviewEvent event = Ok event ->
  qsafe (returns (fun t (_ : QuarantineCase) => _insert_event event ∈ qt_reviews t)) (record_quarantine_review_event event) t.
Proof.
  intros Hv. unfold record_quarantine_review_event. apply safe_returns_except; [apply _| |done].
  sbind; [by apply validate_event_safe|]. intros t1 _ _ [Hi Hm].
  apply insert_safe; [by left|done|]. exists event. split_and!; auto.
Qed.

Lemma check_correction_Ok correction event :
  check_correction correction event = Ok tt ->
  qv_quarantine_id event = qm_quarantine_id correction /\ qv_correction_id event = Some (qm_correction_id correction) /\
  qm_correction_reference correction <> qm_original_source_reference correction.
Proof.
  unfold check_correction. repeat case_match; try done. intros _.
  repeat match goal with
  | H : negb _ = false |- _ => apply negb_false_iff in H
  | H : (_ =? _)%N = true |- _ => apply N.eqb_eq in H
  | H : bool_decide _ = true |- _ => apply bool_decide_eq_true in H
  | H : String.eqb _ _ = false |- _ => apply String.eqb_neq in H
  end. done.
Qed.

Lemma resolve_safe correction event t :
  make_QuarantineReviewEvent event = Ok event ->
  qsafe (returns (fun t (_ : QuarantineCase) => _insert_event event ∈ qt_reviews t))
    (resolve_quarantine_with_manual_correction correction event) t.
Proof.
  intros Hv. unfold resolve_quarantine_with_manual_correction.
  sbind; [apply (safe_returns_pure _ _ _ _ (fun _ _ => check_correction correction event = Ok tt)); by intros [] ?|].
  intros t0 [] _ (Hq & Hc & Hd)%check_correction_Ok.
  apply safe_returns_except; [apply _| |done]. sbind; [apply batch_row_safe|]. intros t1 b _ [Hid (b0 & Hb0 & _ & _ & Hsrc & _)].
  destruct (negb _); [done|]. destruct (qe_source_reference b) as [src|]; [|done].
  destruct (String.eqb src _) eqn:E8; [|done]. apply String.eqb_eq in E8 as ->. cbn [negb].
  sbind; [by apply validate_event_safe|]. intros t2 _ (Hb & _) [Hi _]. apply insert_safe; [right; by exists correction|by rewrite <-Hq|].
  destruct (Hb _ _ Hb0) as (b1 & Hb1 & Hev). exists event, b1. rewrite Hid, <-Hq in Hb1.
  split_and!; try done. by destruct Hev as [->|[_ (run & ->)]].
Qed.

(** Reads and new evidence promise nothing here. *)
Lemma select_safe {A} (q : statement) (k : answer -> res A) t :
  quarantine_wf t q -> qsafe (returns (fun _ (_ : A) => True)) (Stmt q (fun a => Done (k a))) t.
Proof. intros Hwf. split; [done|]. intros t1 a t2 _ _ _. simpl. by destruct (k a). Qed.

Lemma record_batch_safe batch t : qsafe (returns (fun _ (_ : unit) => True)) (record_quarantine_batch batch) t.
Proof.
  unfold record_quarantine_batch. destruct (is_some _); [done|]. split; [done|]. intros t1 a t2 _ _ _.
  destruct a as [[b|]| | | | | | | | |]; try done. by apply select_safe.
Qed.

(** The batches are marked by the run. *)
Definition all_marked (t : quarantine_tables) (ids : list N) (run : N) : Prop :=
  forall id, id ∈ ids -> exists b, qt_batches t !! id = Some b /\ qe_replayed_by_dataset_run_id b = Some run.

Lemma all_marked_later t t' ids run : quarantine_later t t' -> all_marked t ids run -> all_marked t' ids run.
Proof.
  intros (Hb & _) Hm id Hin. destruct (Hm id Hin) as (b & Eb & Er). destruct (Hb _ _ Eb) as (b' & Eb' & [->|[Hn _]]).
  - by exists b.
  - congruence.
Qed.

(** The rows of a query on batches are on record. *)
Lemma select_batches_safe q t :
  (forall t, exists bs, exec_tables t q = (ABatches bs, t) /\ forall b, b ∈ bs -> exists id, qt_batches t !! id = Some b) ->
  quarantine_wf t q ->
  qsafe (returns (fun t bs => Forall (recorded t) bs)) (select_batches q) t.
Proof.
  intros Hq Hwf. split; [done|]. intros t1 a t2 _ Hinv Hex. destruct (Hq t1) as (bs0 & Ht & Hbs).
  inversion Hex as [q' a' Hd| | | |]; subst; simpl in *; try done. unfold after_answer. rewrite Ht in *. simpl in *.
  replace (if commits q a then t1 else t1) with t1 by (by destruct (commits q a)).
  inversion Hd as [|bs bs' (bs1 & Hp & Hr)| | | | |]; subst. simpl.
  apply Forall_forall. intros b [i Hi]%list_elem_of_lookup_1. destruct (Forall2_lookup_r _ _ _ _ _ Hr Hi) as (b1 & H1 & Hrd).
  apply list_elem_of_lookup_2 in H1. rewrite Hp in H1. destruct (Hbs _ H1) as [id Hid].
  by eapply read_batch_recorded.
Qed.

Lemma elem_of_omap_lookup (bs : gmap N QuarantineBatchEvidence) (ids : list N) b :
  b ∈ omap (fun id => bs !! id) ids -> exists id, id ∈ ids /\ bs !! id = Some b.
Proof. intros (id & Hin & Hb)%list_elem_of_omap. by exists id. Qed.

Lemma select_ids_safe ids t : qsafe (returns (fun t bs => Forall (recorded t) bs)) (select_batches (SelectBatches ids)) t.
Proof.
  apply select_batches_safe; [|done]. intros t'. eexists. split; [done|]. intros b (id & _ & Hb)%elem_of_omap_lookup. by exists id.
Qed.

Lemma select_run_safe d run t : qsafe (returns (fun t bs => Forall (recorded t) bs)) (select_batches (SelectBatchesForRun d run)) t.
Proof.
  apply select_batches_safe; [|done]. intros t'. eexists. split; [done|]. intros b [_ Hin]%list_elem_of_filter.
  apply list_elem_of_fmap in Hin as ([id b'] & -> & Hin). exists id. by apply elem_of_map_to_list.
Qed.

Lemma batches_in_order_Ok ids rows bs :
  batches_in_order ids rows = Ok bs -> Forall2 (fun id b => qe_quarantine_id b = id /\ b ∈ rows) ids bs.
Proof.
  unfold batches_in_order. rewrite mapM_res_Forall2. intros Hf. eapply Forall2_impl; [exact Hf|]. simpl. intros id b.
  destruct (list_find _ rows) as [[i b']|] eqn:E; [|done]. apply list_find_Some in E as (Hi & Hid & _).
  intros [= <-]. split; [done|]. by eapply list_elem_of_lookup_2.
Qed.

Lemma evidence_of_Ok rows rows' : evidence_of rows = Ok rows' -> rows' = rows.
Proof.
  unfold evidence_of. rewrite mapM_res_Forall2. induction 1 as [|b b' rows rows' Hb _ ->]; [done|].
  f_equal. unfold make_QuarantineBatchEvidence in Hb. destruct (_ || _); [done|]. by injection Hb.
Qed.

(** The batches of a scope that are not marked. *)
Definition unmarked_ids (rows : list QuarantineBatchEvidence) : list N :=
  qe_quarantine_id <$> filter (fun b => qe_replayed_by_dataset_run_id b = None) rows.

Lemma mark_exec t d run ids (rows : list QuarantineBatchEvidence) us :
  Forall2 (fun id b => qe_quarantine_id b = id) ids rows -> Forall (recorded t) rows ->
  mapM_res (markable d run) rows = Ok us -> forallb (unmarked_in t) (unmarked_ids rows) = true ->
  all_marked (with_batches t (foldr (fun id bs => alter (marked_by run) id bs) (qt_batches t) (unmarked_ids rows))) ids run.
Proof.
  intros Hids Hrec Hmark Hun id [i Hi]%list_elem_of_lookup_1. simpl.
  destruct (Forall2_lookup_l _ _ _ _ _ Hids Hi) as (b & Hb & <-). apply list_elem_of_lookup_2 in Hb as Hin.
  rewrite Forall_forall in Hrec. destruct (Hrec _ Hin) as (b0 & Hb0 & _ & _ & _ & Hrun).
  rewrite foldr_alter_lookup, Hb0. case_bool_decide as Hu; (eexists; split; [done|]); [done|].
  destruct (qe_replayed_by_dataset_run_id b) as [run'|] eqn:Er.
  - rewrite (Hrun _ eq_refl). apply mapM_res_Forall2 in Hmark. destruct (Forall2_lookup_l _ _ _ _ _ Hmark Hb) as (u & _ & Hm).
    unfold markable in Hm. destruct (negb _); [done|]. rewrite Er in Hm. unfold raise_if in Hm.
    destruct (run' =? run)%N eqn:E; [|done]. by apply N.eqb_eq in E as ->.
  - destruct Hu. apply list_elem_of_fmap. exists b. split; [done|]. by apply list_elem_of_filter.
Qed.

(** A run that marked its batches has its marker on them. *)
Lemma mark_safe d ids run gate t :
  qsafe (returns (fun t (_ : list QuarantineBatchEvidence) => all_marked t ids run))
    (mark_quarantine_replayed d ids run gate) t.
Proof.
  unfold mark_quarantine_replayed. destruct (negb _); [done|].
  sbind; [by apply (safe_returns_pure _ _ _ _ (fun _ _ => True))|]. intros t0 [] _ _.
  sbind; [apply select_ids_safe|]. intros t1 rows0 _ Hrows.
  sbind; [apply (safe_returns_pure _ _ _ _ (fun _ rows => batches_in_order ids rows0 = Ok rows)); by intros|].
  intros t2 rows Hl2 Hord%batches_in_order_Ok.
  sbind; [apply (safe_returns_pure _ _ _ _ (fun _ us => mapM_res (markable d run) rows = Ok us)); by intros|].
  intros t3 us Hl3 Hmark. change (qe_quarantine_id <$> filter _ rows) with (unmarked_ids rows).
  sbind.
  - split; [done|]. intros t4 a t5 Hl4 _ Hex. inversion Hex as [q' a' Hd| | | |]; subst; simpl; [|done..].
    cbn [exec_tables] in *. destruct (forallb (unmarked_in t4) (unmarked_ids rows)) eqn:Hun; [|by inversion Hd].
    assert (Hall : all_marked (with_batches t4 (foldr (fun id bs => alter (marked_by run) id bs) (qt_batches t4) (unmarked_ids rows))) ids run).
    { apply (mark_exec t4 d run ids rows us); [| |done|done].
      - eapply Forall2_impl; [exact Hord|]. by intros ? ? [? _].
      - apply Forall_forall. intros b [i Hi]%list_elem_of_lookup_1.
        destruct (Forall2_lookup_r _ _ _ _ _ Hord Hi) as (id & _ & _ & Hin). rewrite Forall_forall in Hrows.
        eapply recorded_later, recorded_later, recorded_later; try done. by apply Hrows. }
    inversion Hd; subst; simpl. instantiate (1 := fun t _ => all_marked t ids run).
    unfold after_answer. cbn [commits exec_tables]. rewrite Hun. exact Hall.
  - intros t5 updated _ Hm. sbind; [by apply (safe_returns_pure _ _ _ _ (fun _ _ => True))|].
    intros t6 u2 Hl6 _. apply safe_returns_pure. intros _ _. by eapply all_marked_later.
Qed.
