(* ===== verification/Replay.v ===== *)
(** * Quarantine replay ([recovery/replay.py], [contracts/replay.py])

    A replay resolves the batches of its request, checks the retained payload of each against the
    evidence and any approved correction, hands the payloads to the callback of the strategy and
    marks the batches behind the gate the callback reports.  The payload provider and the
    callback are calls of the program like its statements. *)

From stdpp Require Import base gmap strings list.
From S2P Require Import Prelude PyValue PyDict Temporal ConfigTypes RuntimeState RunAudit DispatchContracts RunContracts Transactions Quarantine.
#[local] Open Scope Z_scope.

Record QuarantineReplayPlan := {
  qp_reprocess_request_id : N;
  qp_dataset_id : string;
  qp_quarantine_ids : list N;
  qp_source_references : list string;
  qp_total_rows : Z
}.

(** The field bounds and [model_post_init]. *)
Definition make_QuarantineReplayPlan (p : QuarantineReplayPlan) : res QuarantineReplayPlan :=
  if negb (nonempty (qp_dataset_id p)) || (qp_total_rows p <? 0) then bad_field
  else if bool_decide (qp_quarantine_ids p = []) then
    raise "ValueError" "quarantine replay plan requires at least one batch"
  else if negb (bool_decide (NoDup (qp_quarantine_ids p))) then
    raise "ValueError" "quarantine replay plan cannot contain duplicate batch ids"
  else if negb (length (qp_source_references p) =? length (qp_quarantine_ids p))%nat then
    raise "ValueError" "quarantine replay source references must align with batch ids"
  else Ok p.

Record PreparedQuarantineReplay := {
  pq_plan : QuarantineReplayPlan;
  pq_batches : list QuarantineBatchEvidence;
  pq_payloads : list QuarantineReplayPayload;
  pq_already_replayed : bool
}.

Record QuarantineReplayResult := {
  qr_value : option value;
  qr_replay_dataset_run_id : N;
  qr_plan : QuarantineReplayPlan;
  qr_already_replayed : bool
}.

Section replay.
(** [UUID(str(value))] *)
Context (parse_uuid : value -> option N).

Definition _explicit_quarantine_ids (request : ReprocessRequest) : res (list N) :=
  match default VNone (dget (range_of request) "quarantine_ids") with
  | VNone => Ok []
  | VList raw | VTuple raw =>
    if bool_decide (length raw = 0%nat) then
      raise "QuarantineReplayError" "REPLAY quarantine_ids must be a non-empty list"
    else
      ids ← mapM_res (fun v => match parse_uuid v with
                               | Some id => Ok id
                               | None => raise "QuarantineReplayError" "invalid quarantine id in REPLAY request"
                               end) raw;
      if negb (bool_decide (NoDup ids)) then
        raise "QuarantineReplayError" "REPLAY request cannot contain duplicate quarantine ids"
      else Ok ids
  | _ => raise "QuarantineReplayError" "REPLAY quarantine_ids must be a non-empty list"
  end.

Definition _load_batches (request : ReprocessRequest) : sql (list QuarantineBatchEvidence) :=
  explicit_ids ← pure (_explicit_quarantine_ids request);
  if negb (bool_decide (explicit_ids = [])) then read_quarantine_batches explicit_ids
  else
    match rr_original_dataset_run_id request with
    | None => pure (raise "QuarantineReplayError" "REPLAY request requires quarantine_ids or original_dataset_run_id")
    | Some run => read_quarantine_batches_for_run (rr_dataset_id request) run
    end.

(** The source reference of a batch of the scope. *)
Definition scope_reference (request : ReprocessRequest) (batch : QuarantineBatchEvidence) : res string :=
  if negb (String.eqb (qe_dataset_id batch) (rr_dataset_id request)) then
    raise "QuarantineReplayError" "quarantine belongs to another dataset"
  else
    match qe_source_reference batch with
    | Some reference =>
      if nonempty reference then Ok reference
      else raise "QuarantineReplayError" "quarantine has no retained payload source_reference"
    | None => raise "QuarantineReplayError" "quarantine has no retained payload source_reference"
    end.

(** Whether the scope is already replayed by this run, and its source references. *)
Definition _validate_batch_scope (batches : list QuarantineBatchEvidence) (request : ReprocessRequest) (run : N) :
    res (bool * list string) :=
  if bool_decide (length batches = 0%nat) then
    raise "QuarantineReplayError" "REPLAY scope resolved to zero quarantine batches"
  else
    source_references ← mapM_res (scope_reference request) batches;
    let markers := omap qe_replayed_by_dataset_run_id batches in
    if bool_decide (markers = []) then Ok (false, source_references)
    else if forallb (N.eqb run) markers && (length markers =? length batches)%nat then Ok (true, source_references)
    else raise "QuarantineReplayMarkerConflict" "quarantine replay scope is already/partially claimed by another replay dataset run".

Definition _validate_payload (batch : QuarantineBatchEvidence) (payload : QuarantineReplayPayload) : res unit :=
  if negb (rp_quarantine_id payload =? qe_quarantine_id batch)%N then
    raise "QuarantineReplayPayloadError" "payload quarantine id does not match"
  else if negb (String.eqb (rp_dataset_id payload) (qe_dataset_id batch)) then
    raise "QuarantineReplayPayloadError" "payload dataset does not match"
  else if negb (bool_decide (Some (rp_source_reference payload) = qe_source_reference batch)) then
    raise "QuarantineReplayPayloadError" "payload source reference does not match control plane"
  else raise_if (negb (Z.of_nat (length (rp_rows payload)) =? qe_row_count batch))
    "QuarantineReplayPayloadError" "payload row count does not match".

(** The approved correction against the payload and the batch. *)
Definition check_approved (batch : QuarantineBatchEvidence) (payload : QuarantineReplayPayload)
    (correction : QuarantineManualCorrection) : res unit :=
  if negb (qm_quarantine_id correction =? qe_quarantine_id batch)%N then
    raise "QuarantineReplayPayloadError" "manual correction quarantine identity mismatch"
  else if negb (String.eqb (qm_dataset_id correction) (qe_dataset_id batch)) then
    raise "QuarantineReplayPayloadError" "manual correction dataset identity mismatch"
  else if negb (bool_decide (Some (qm_original_source_reference correction) = qe_source_reference batch)) then
    raise "QuarantineReplayPayloadError" "manual correction original source reference does not match quarantine evidence"
  else if negb (bool_decide (Some (qm_correction_reference correction) = rp_correction_reference payload)) then
    raise "QuarantineReplayPayloadError" "manual correction payload reference does not match approved correction"
  else raise_if (negb (bool_decide (Some (qm_correction_payload_sha256 correction) = rp_correction_payload_sha256 payload)))
    "QuarantineReplayPayloadError" "manual correction payload hash does not match approved correction".

(** The case was resolved by a manual correction. *)
Definition manually_resolved (case : QuarantineCase) : bool :=
  bool_decide (qk_status case = Q_RESOLVED) && bool_decide (qk_resolution case = Some MANUAL_CORRECTION).

Definition _validate_correction_provenance (batch : QuarantineBatchEvidence) (payload : QuarantineReplayPayload) : sql unit :=
  case ← get_quarantine_case (qe_quarantine_id batch);
  match rp_correction_id payload with
  | None =>
    pure (raise_if (manually_resolved case) "QuarantineReplayPayloadError"
            "quarantine was resolved by manual correction; replay payload must carry the approved correction")
  | Some correction_id =>
    if negb (manually_resolved case) || negb (bool_decide (qk_correction_id case = Some correction_id)) then
      pure (raise "QuarantineReplayPayloadError" "quarantine correction is not the approved resolved correction")
    else
      correction ← read_quarantine_manual_correction correction_id;
      pure (check_approved batch payload correction)
  end.

(** [payload_provider.load_payload(batch)] *)
Definition load_payload (batch : QuarantineBatchEvidence) : sql QuarantineReplayPayload :=
  Stmt (LoadPayload batch) (fun a => Done (match a with APayload p => p | _ => sql_error a end)).

Fixpoint load_payloads (batches : list QuarantineBatchEvidence) : sql (list QuarantineReplayPayload) :=
  match batches with
  | [] => mret []
  | batch :: batches =>
    payload ← load_payload batch;
    _ ← pure (_validate_payload batch payload);
    _ ← _validate_correction_provenance batch payload;
    payloads ← load_payloads batches;
    mret (payload :: payloads)
  end.

Definition sum_rows (batches : list QuarantineBatchEvidence) : Z := foldr (fun b n => qe_row_count b + n) 0 batches.

Definition prepare_quarantine_replay (request : ReprocessRequest) (run : N) : sql PreparedQuarantineReplay :=
  if negb (bool_decide (rr_run_mode request = RM_REPLAY)) then
    pure (raise "QuarantineReplayError" "quarantine replay requires a REPLAY ReprocessRequest")
  else
    batches ← _load_batches request;
    scope ← (pure (_validate_batch_scope batches request run) : sql (bool * list string));
    plan ← pure (make_QuarantineReplayPlan
      {| qp_reprocess_request_id := rr_reprocess_request_id request; qp_dataset_id := rr_dataset_id request;
         qp_quarantine_ids := qe_quarantine_id <$> batches; qp_source_references := scope.2;
         qp_total_rows := sum_rows batches |});
    if (scope : bool * list string).1 then
      mret {| pq_plan := plan; pq_batches := batches; pq_payloads := []; pq_already_replayed := true |}
    else
      payloads ← load_payloads batches;
      mret {| pq_plan := plan; pq_batches := batches; pq_payloads := payloads; pq_already_replayed := false |}.

(** [execute_payloads(prepared)] *)
Definition execute_payloads (prepared : PreparedQuarantineReplay) : sql (value * StateCommitGate) :=
  Stmt (ExecutePayloads (pq_payloads prepared)) (fun a => Done (match a with AOutcome o => o | _ => sql_error a end)).

Definition execute_quarantine_replay (request : ReprocessRequest) (run : N) : sql QuarantineReplayResult :=
  prepared ← prepare_quarantine_replay request run;
  if pq_already_replayed prepared then
    mret {| qr_value := None; qr_replay_dataset_run_id := run; qr_plan := pq_plan prepared; qr_already_replayed := true |}
  else
    outcome ← execute_payloads prepared;
    if negb (can_advance_state outcome.2) then
      pure (raise "QuarantineReplayGateError" "quarantine replay cannot be marked successful before target commit and required reconciliation")
    else
      _ ← mark_quarantine_replayed (rr_dataset_id request) (qp_quarantine_ids (pq_plan prepared)) run outcome.2;
      mret {| qr_value := Some outcome.1; qr_replay_dataset_run_id := run; qr_plan := pq_plan prepared;
              qr_already_replayed := false |}.
End replay.

(** ** Safety *)

#[local] Notation qsafe := (safe documented quarantine_inv quarantine_later quarantine_wf).

Lemma correction_safe c t :
  qsafe (returns (fun t corr => exists corr0, qt_corrections t !! c = Some corr0 /\
    qm_quarantine_id corr0 = qm_quarantine_id corr /\ qm_correction_reference corr0 = qm_correction_reference corr /\
    qm_correction_payload_sha256 corr0 = qm_correction_payload_sha256 corr)) (read_quarantine_manual_correction c) t.
Proof.
  split; [done|]. intros t1 a t2 _ _ Hex. inversion Hex as [q a' Hd| | | |]; subst; simpl in *; [|done..].
  inversion Hd as [| | |c0 c1 Hc| | |]; subst. inversion Hc as [c0' c1' Hr E|]; subst; [|done].
  unfold make_QuarantineManualCorrection. destruct (_ || _); [done|]. simpl. exists c0'. change (after_answer t1 _ _) with t1. rewrite <-E.
  destruct Hr as (d & _ & ->). done.
Qed.

(** A case that was read as resolved by a correction was resolved by it. *)
Lemma read_case_decided t id case c :
  read_case t id case -> manually_resolved case = true -> qk_correction_id case = Some c -> decided_by t id c.
Proof.
  intros (b & es & _ & _ & (rows & new & es0 & E1 & E2 & E3 & _) & ->%make_case_Ok). unfold manually_resolved. simpl.
  intros [_ Hm%bool_decide_eq_true]%andb_true_iff Hc. destruct (last es) as [e|] eqn:El; [|done]. simpl in Hm, Hc.
  apply last_Some in El as (es' & ->). apply Forall2_app_inv_r in E3 as (k1 & k2 & _ & H2 & ->).
  inversion H2 as [|e0 ? ? ? [d ->] H3]; subst. apply mapM_res_Forall2, Forall2_app_inv_r in E2 as (r1 & r2 & _ & H4 & ->).
  inversion H4 as [|r ? ? ? Hdec ?]; subst. exists r. rewrite E1. split.
  - rewrite <-app_assoc. apply elem_of_app. right. apply list_elem_of_here.
  - apply event_from_row_fields in Hdec as (_ & _ & _ & _ & H6 & H7 & _). simpl in Hm, Hc.
    rewrite <-H7, <-H6, Hm, Hc. done.
Qed.

Lemma validate_payload_Ok batch payload u :
  _validate_payload batch payload = Ok u ->
  rp_quarantine_id payload = qe_quarantine_id batch /\ rp_dataset_id payload = qe_dataset_id batch /\
  Some (rp_source_reference payload) = qe_source_reference batch /\ Z.of_nat (length (rp_rows payload)) = qe_row_count batch.
Proof.
  unfold _validate_payload, raise_if. repeat case_match; try done. intros _.
  repeat match goal with
  | H : negb _ = false |- _ => apply negb_false_iff in H
  | H : (_ =? _)%N = true |- _ => apply N.eqb_eq in H
  | H : (_ =? _)%Z = true |- _ => apply Z.eqb_eq in H
  | H : bool_decide _ = true |- _ => apply bool_decide_eq_true in H
  | H : String.eqb _ _ = true |- _ => apply String.eqb_eq in H
  end. done.
Qed.

Lemma check_approved_Ok batch payload corr u :
  check_approved batch payload corr = Ok u ->
  qm_quarantine_id corr = qe_quarantine_id batch /\
  Some (qm_correction_reference corr) = rp_correction_reference payload /\
  Some (qm_correction_payload_sha256 corr) = rp_correction_payload_sha256 payload.
Proof.
  unfold check_approved, raise_if. repeat case_match; try done. intros _.
  repeat match goal with
  | H : negb _ = false |- _ => apply negb_false_iff in H
  | H : (_ =? _)%N = true |- _ => apply N.eqb_eq in H
  | H : bool_decide _ = true |- _ => apply bool_decide_eq_true in H
  end. done.
Qed.

(** A payload that passed both checks has its provenance. *)
Lemma provenance_safe batch payload u t :
  recorded t batch -> _validate_payload batch payload = Ok u ->
  qsafe (returns (fun t (_ : unit) => provenance t payload)) (_validate_correction_provenance batch payload) t.
Proof.
  intros Hrec (H1 & H2 & H3 & H4)%validate_payload_Ok.
  assert (Hbase : forall t', recorded t' batch -> exists b, qt_batches t' !! rp_quarantine_id payload = Some b /\
    qe_dataset_id b = rp_dataset_id payload /\ qe_source_reference b = Some (rp_source_reference payload) /\
    qe_row_count b = Z.of_nat (length (rp_rows payload))).
  { intros t' (b0 & E0 & E1 & E2 & E3 & _). exists b0. by rewrite H1, H2, H3, H4. }
  unfold _validate_correction_provenance, get_quarantine_case. sbind; [apply case_safe|]. intros t1 case Hl1 Hcase.
  assert (Hrec1 : recorded t1 batch) by (by eapply recorded_later).
  destruct (rp_correction_id payload) as [c|] eqn:Ec.
  - destruct (manually_resolved case) eqn:Em; [|done]. destruct (bool_decide _) eqn:Eq; [|done]. cbn [negb orb].
    apply bool_decide_eq_true in Eq. sbind; [apply correction_safe|]. intros t2 corr Hl2 (corr0 & E0 & E1 & E2 & E3).
    apply safe_returns_pure. intros u' (G1 & G2 & G3)%check_approved_Ok. split; [by apply Hbase; eapply recorded_later|].
    rewrite Ec. intros c' [= <-]. split.
    + destruct (read_case_decided _ _ _ _ Hcase Em Eq) as (r & Hr & Hd). exists r. rewrite H1. split; [by eapply later_reviews|done].
    + exists corr0. rewrite E1, E2, E3, H1. by split_and!.
  - apply safe_returns_pure. intros _ _. split; [by apply Hbase|]. by rewrite Ec.
Qed.

Lemma load_payloads_safe batches t :
  Forall (recorded t) batches -> qsafe (returns (fun t ps => Forall (provenance t) ps)) (load_payloads batches) t.
Proof.
  revert t. induction batches as [|batch batches IH]; intros t Hrec; [by constructor|].
  apply Forall_cons in Hrec as [Hb Hrec]. cbn [load_payloads].
  sbind; [by apply (select_safe (LoadPayload batch))|]. intros t1 payload Hl1 _.
  sbind; [apply (safe_returns_pure _ _ _ _ (fun _ u => _validate_payload batch payload = Ok u)); by intros|].
  intros t2 u Hl2 Hv. sbind; [eapply provenance_safe; [by do 2 (eapply recorded_later; [done|])|exact Hv]|].
  intros t3 [] Hl3 Hp. sbind.
  - apply IH. eapply Forall_impl; [exact Hrec|]. intros b Hb'. by do 3 (eapply recorded_later; [done|]).
  - intros t4 payloads Hl4 Hps. constructor; [by eapply provenance_later|done].
Qed.

Section programs.
Context (parse_uuid : value -> option N).

Lemma load_batches_safe request t :
  qsafe (returns (fun t bs => Forall (recorded t) bs)) (_load_batches parse_uuid request) t.
Proof.
  unfold _load_batches. sbind; [by apply (safe_returns_pure _ _ _ _ (fun _ _ => True))|]. intros t1 ids _ _.
  destruct (negb _).
  - unfold read_quarantine_batches. sbind; [by apply (safe_returns_pure _ _ _ _ (fun _ _ => True))|]. intros t2 [] _ _.
    sbind; [apply select_ids_safe|]. intros t3 rows _ Hrows.
    sbind; [apply (safe_returns_pure _ _ _ _ (fun _ rows' => rows' = rows)); intros ?; apply evidence_of_Ok|].
    intros t4 ? Hl ->. apply safe_returns_pure. intros bs Hbs%batches_in_order_Ok. apply Forall_forall.
    intros b [i Hi]%list_elem_of_lookup_1. destruct (Forall2_lookup_r _ _ _ _ _ Hbs Hi) as (id & _ & _ & Hin).
    rewrite Forall_forall in Hrows. eapply recorded_later; [exact Hl|]. by apply Hrows.
  - destruct (rr_original_dataset_run_id request) as [run|]; [|done]. unfold read_quarantine_batches_for_run.
    sbind; [apply select_run_safe|]. intros t3 rows _ Hrows. apply safe_returns_pure.
    by intros ? ->%evidence_of_Ok.
Qed.

Lemma omap_step {A B} (f : A -> option B) x l :
  omap f (x :: l) = match f x with Some y => y :: omap f l | None => omap f l end.
Proof. done. Qed.

Lemma length_omap_le {A B} (f : A -> option B) l : (length (omap f l) <= length l)%nat.
Proof. induction l as [|x l IH]; [done|]. rewrite omap_step. destruct (f x); simpl; lia. Qed.

Lemma omap_full {A B} (f : A -> option B) l : length (omap f l) = length l -> Forall (fun x => exists y, f x = Some y) l.
Proof.
  induction l as [|x l IH]; [constructor|]. rewrite omap_step. pose proof (length_omap_le f l).
  destruct (f x) as [y|] eqn:E; simpl; [|lia]. intros Hl. constructor; [by exists y|]. apply IH. lia.
Qed.

(** A scope that is already replayed by the run carries its marker. *)
Lemma scope_replayed t batches request run refs :
  Forall (recorded t) batches -> _validate_batch_scope batches request run = Ok (true, refs) ->
  all_marked t (qe_quarantine_id <$> batches) run.
Proof.
  unfold _validate_batch_scope. intros Hrec. destruct (bool_decide _); [done|].
  destruct (mapM_res _ _) as [rs|]; [|done]. simpl. destruct (bool_decide _); [done|].
  destruct (forallb _ _ && _) eqn:E; [|done]. intros _. apply andb_true_iff in E as [Hall Hlen%Nat.eqb_eq].
  intros id (b & -> & Hin)%list_elem_of_fmap. rewrite Forall_forall in Hrec. destruct (Hrec b Hin) as (b0 & Hb0 & _ & _ & _ & Hr).
  exists b0. split; [done|]. apply Hr.
  pose proof (omap_full _ _ Hlen) as Hsome.
  rewrite Forall_forall in Hsome. destruct (Hsome b Hin) as [r Er]. rewrite Er. f_equal.
  rewrite forallb_forall in Hall. specialize (Hall r). symmetry. apply N.eqb_eq, Hall, list_elem_of_In, list_elem_of_omap. by exists b.
Qed.

Lemma make_plan_Ok p p' : make_QuarantineReplayPlan p = Ok p' -> p' = p.
Proof. unfold make_QuarantineReplayPlan. repeat case_match; try done; by intros [= <-]. Qed.

Lemma prepare_safe request run t :
  qsafe (returns (fun t prepared => Forall (provenance t) (pq_payloads prepared) /\
    (pq_already_replayed prepared = true -> all_marked t (qp_quarantine_ids (pq_plan prepared)) run)))
    (prepare_quarantine_replay parse_uuid request run) t.
Proof.
  unfold prepare_quarantine_replay. destruct (negb _); [done|].
  sbind; [apply load_batches_safe|]. intros t1 batches _ Hrec.
  sbind; [apply (safe_returns_pure _ _ _ _ (fun _ scope => _validate_batch_scope batches request run = Ok scope)); by intros|].
  intros t2 [replayed refs] Hl2 Hscope.
  sbind; [apply (safe_returns_pure _ _ _ _ (fun _ plan => qp_quarantine_ids plan = qe_quarantine_id <$> batches)); by intros ? ->%make_plan_Ok|].
  intros t3 plan Hl3 Hplan. cbn [fst]. destruct replayed.
  - split; [constructor|]. intros _. simpl. rewrite Hplan. apply (all_marked_later t2); [done|]. apply (all_marked_later t1); [done|].
    by eapply scope_replayed.
  - sbind; [apply load_payloads_safe|].
    + eapply Forall_impl; [exact Hrec|]. intros b Hb. by do 2 (eapply recorded_later; [done|]).
    + intros t4 payloads _ Hps. by split.
Qed.

Lemma execute_replay_safe request run t :
  qsafe (returns (fun t result => all_marked t (qp_quarantine_ids (qr_plan result)) run))
    (execute_quarantine_replay parse_uuid request run) t.
Proof.
  unfold execute_quarantine_replay. sbind; [apply prepare_safe|]. intros t1 prepared _ [Hps Hm].
  destruct (pq_already_replayed prepared); [by apply Hm|].
  sbind; [by apply (select_safe (ExecutePayloads (pq_payloads prepared)))|]. intros t2 [v gate] Hl2 _. cbn [snd].
  destruct (negb _); [done|]. sbind; [apply mark_safe|]. intros t3 bs _ Hmark. exact Hmark.
Qed.

(** ** The processes of the quarantine *)

Inductive quarantine_call :=
| Review (event : QuarantineReviewEvent)
| Resolve (correction : QuarantineManualCorrection) (event : QuarantineReviewEvent)
| RecordBatch (batch : QuarantineBatchEvidence)
| ReadCase (quarantine_id : N)
| Replay (request : ReprocessRequest) (run : N).

Inductive quarantine_outcome :=
| QO_case (case : QuarantineCase)
| QO_done
| QO_replayed (result : QuarantineReplayResult).

Definition quarantine_program (call : quarantine_call) : sql quarantine_outcome :=
  match call with
  | Review event => case ← record_quarantine_review_event event; mret (QO_case case)
  | Resolve correction event => case ← resolve_quarantine_with_manual_correction correction event; mret (QO_case case)
  | RecordBatch batch => _ ← record_quarantine_batch batch; mret QO_done
  | ReadCase id => case ← get_quarantine_case id; mret (QO_case case)
  | Replay request run => result ← execute_quarantine_replay parse_uuid request run; mret (QO_replayed result)
  end.

(** The review event of a call is an instance of its model. *)
Definition valid_call (call : quarantine_call) : Prop :=
  match call with
  | Review event | Resolve _ event => make_QuarantineReviewEvent event = Ok event
  | _ => True
  end.

(** What a call that returned has left on record. *)
Definition done_post (call : quarantine_call) (t : quarantine_tables) (o : quarantine_outcome) : Prop :=
  match call, o with
  | Review event, _ | Resolve _ event, _ => _insert_event event ∈ qt_reviews t
  | Replay _ run, QO_replayed result => all_marked t (qp_quarantine_ids (qr_plan result)) run
  | _, _ => True
  end.

Lemma done_post_stable call : stable quarantine_later (returns (done_post call)).
Proof.
  intros t t' [o|e] Hl; [|done]. pose proof Hl as (_ & _ & (new & Hn)).
  unfold returns, done_post. destruct call; try done; try (rewrite Hn, elem_of_app; by left).
  destruct o; try done. by apply all_marked_later.
Qed.

Lemma program_safe call t : valid_call call -> qsafe (returns (done_post call)) (quarantine_program call) t.
Proof.
  intros Hv. destruct call; simpl quarantine_program.
  - sbind; [by apply record_review_safe|]. intros t1 case _ Hin. exact Hin.
  - sbind; [by apply resolve_safe|]. intros t1 case _ Hin. exact Hin.
  - sbind; [apply record_batch_safe|]. by intros.
  - sbind; [apply case_safe|]. by intros.
  - sbind; [apply execute_replay_safe|]. intros t1 result _ Hm. exact Hm.
Qed.

Lemma quarantine_pool {St} `{LawfulDatabase statement answer St quarantine_tables documented} calls (s s' : St) trace pool' :
  quarantine_inv (view s) -> Forall valid_call calls ->
  pool_run db_exec (quarantine_program <$> calls) s trace pool' s' ->
  quarantine_inv (view s') /\ quarantine_later (view s) (view s') /\
  Forall2 (fun call p => qsafe (returns (done_post call)) p (view s')) calls pool' /\
  (forall q a, (q, a) ∈ trace -> exists t, quarantine_wf t q /\ quarantine_later t (view s')).
Proof.
  intros Hinv Hv Hrun%(database_refines documented).
  assert (Hst : Forall (stable quarantine_later) ((fun c => returns (done_post c)) <$> calls)).
  { apply Forall_fmap, Forall_true. intros c. apply done_post_stable. }
  assert (Hsafe : Forall2 (fun post p => qsafe post p (view s)) ((fun c => returns (done_post c)) <$> calls) (quarantine_program <$> calls)).
  { apply Forall2_fmap. clear -Hv. induction Hv; constructor; [by apply program_safe|done]. }
  destruct (pool_safe documented quarantine_inv quarantine_later quarantine_wf _ _ _ _ _ _ Hst Hinv Hsafe Hrun) as (H1 & H2 & H3).
  split_and!; [done|done|by apply Forall2_fmap_l in H3|].
  intros q a (trace1 & trace2 & ->)%list_elem_of_split.
  destruct (pool_statement documented quarantine_inv quarantine_later quarantine_wf _ _ _ _ _ _ _ _ _ Hst Hinv Hsafe Hrun)
    as (t1 & t2 & Hi1 & _ & Hwf & Hex & Hl). exists t1. split; [done|]. eapply quarantine_later_trans; [|exact Hl].
  by eapply (later_exec documented quarantine_inv quarantine_later quarantine_wf).
Qed.
End programs.

(** ** What a replay does *)

Definition is_execute (q : statement) : bool := match q with ExecutePayloads _ => true | _ => false end.
Definition is_mark (q : statement) : bool := match q with MarkReplayed _ _ _ => true | _ => false end.
(** The statement changes neither the target nor a marker. *)
Definition harmless (q : statement) : Prop := is_execute q = false /\ is_mark q = false.

(** A program without calls of the target and without marks. *)
Ltac walk_statements :=
  repeat first
    [ done
    | apply statements_bind; [|intros ?]
    | match goal with
      | |- statements _ (pure _) => done
      | |- statements _ (Stmt _ _) => split; [done|intros ?]
      | |- statements _ (Done _) => done
      | |- statements _ (if ?b then _ else _) => destruct b
      | |- statements _ (match ?x with _ => _ end) => destruct x
      end ].

Section order.
Context (parse_uuid : value -> option N).

Lemma load_payloads_harmless batches : statements harmless (load_payloads batches).
Proof.
  induction batches as [|b bs IH]; cbn [load_payloads]; [done|].
  unfold load_payload, _validate_correction_provenance, get_quarantine_case, _case_from_connection, _batch_row,
    _ordered_events, select_reviews, read_quarantine_manual_correction. walk_statements.
Qed.

Lemma prepare_harmless request run : statements harmless (prepare_quarantine_replay parse_uuid request run).
Proof.
  unfold prepare_quarantine_replay, _load_batches, read_quarantine_batches, read_quarantine_batches_for_run, select_batches.
  walk_statements. apply load_payloads_harmless.
Qed.

(** *** The checks before the call of the target *)

(** The payload is the retained one of the batch. *)
Record retained_for (batch : QuarantineBatchEvidence) (payload : QuarantineReplayPayload) : Prop := {
  rt_id : rp_quarantine_id payload = qe_quarantine_id batch;
  rt_dataset : rp_dataset_id payload = qe_dataset_id batch;
  rt_source : Some (rp_source_reference payload) = qe_source_reference batch;
  rt_rows : Z.of_nat (length (rp_rows payload)) = qe_row_count batch
}.

(** The payload carries the correction of the batch. *)
Record corrected_by (batch : QuarantineBatchEvidence) (payload : QuarantineReplayPayload) (c : QuarantineManualCorrection) : Prop := {
  cb_id : qm_quarantine_id c = qe_quarantine_id batch;
  cb_dataset : qm_dataset_id c = qe_dataset_id batch;
  cb_source : Some (qm_original_source_reference c) = qe_source_reference batch;
  cb_reference : Some (qm_correction_reference c) = rp_correction_reference payload;
  cb_hash : Some (qm_correction_payload_sha256 c) = rp_correction_payload_sha256 payload
}.

(** The case of a batch that is not replayed was resolved by a manual correction. *)
Definition manually_decided (b : QuarantineBatchEvidence) (events : list QuarantineReviewEvent) : Prop :=
  qe_replayed_by_dataset_run_id b = None /\
  exists e, last events = Some e /\ qv_to_status e = Q_RESOLVED /\ qv_resolution e = Some MANUAL_CORRECTION.

(** The review of the case was read after which the payload is used: without a correction only if the case was not
    resolved by one, with a correction only if it is the very one the case was resolved by, on record for the batch. *)
Definition reviewed (done : list (statement * answer)) (batch : QuarantineBatchEvidence) (payload : QuarantineReplayPayload) : Prop :=
  exists b rows events, (SelectBatch (qe_quarantine_id batch), ABatch (Some b)) ∈ done /\
    (SelectReviews (qe_quarantine_id batch), AReviews rows) ∈ done /\ ordered_events rows = Ok events /\
    match rp_correction_id payload with
    | None => ~ manually_decided b events
    | Some c => manually_decided b events /\ last events ≫= qv_correction_id = Some c /\
        exists correction, (SelectCorrection c, ACorrection (Some correction)) ∈ done /\ corrected_by batch payload correction
    end.

(** Everything that was checked of a payload by these statements. *)
Record payload_checked (done : list (statement * answer)) (batch : QuarantineBatchEvidence) (payload : QuarantineReplayPayload) : Prop := {
  pc_loaded : (LoadPayload batch, APayload (Ok payload)) ∈ done;
  pc_retained : retained_for batch payload;
  pc_reviewed : reviewed done batch payload
}.

(** The scope of a request was read: batches of its dataset with a retained payload, none of them replayed. *)
Record scope_checked (request : ReprocessRequest) (done : list (statement * answer)) (batches : list QuarantineBatchEvidence) : Prop := {
  sc_some : batches <> [];
  sc_read : (exists rows, (SelectBatches (qe_quarantine_id <$> batches), ABatches rows) ∈ done /\
      _explicit_quarantine_ids parse_uuid request = Ok (qe_quarantine_id <$> batches) /\ Forall (fun b => b ∈ rows) batches) \/
    (exists run, rr_original_dataset_run_id request = Some run /\
      (SelectBatchesForRun (rr_dataset_id request) run, ABatches batches) ∈ done);
  sc_batches : Forall (fun b => qe_dataset_id b = rr_dataset_id request /\ qe_replayed_by_dataset_run_id b = None /\
    exists reference, qe_source_reference b = Some reference /\ reference <> EmptyString) batches
}.

Lemma reviewed_mono tr1 tr2 batch payload : (forall x, x ∈ tr1 -> x ∈ tr2) -> reviewed tr1 batch payload -> reviewed tr2 batch payload.
Proof.
  intros Hs (b & rows & events & H1 & H2 & H3 & H4). exists b, rows, events. split_and!; auto.
  destruct (rp_correction_id payload); [|done]. destruct H4 as (? & ? & c' & ? & ?). split_and!; try done. exists c'. auto.
Qed.

Lemma checked_mono tr1 tr2 batch payload :
  (forall x, x ∈ tr1 -> x ∈ tr2) -> payload_checked tr1 batch payload -> payload_checked tr2 batch payload.
Proof. intros Hs [H1 H2 H3]. split; [auto|done|by eapply reviewed_mono]. Qed.

Lemma scope_mono request tr1 tr2 batches :
  (forall x, x ∈ tr1 -> x ∈ tr2) -> scope_checked request tr1 batches -> scope_checked request tr2 batches.
Proof. intros Hs [H1 H2 H3]. split; [done| |done]. destruct H2 as [(rows & ? & ?)|(run & ? & ?)]; [left; exists rows|right; exists run]; auto. Qed.

(** The last statement of a path of one statement. *)
Lemma one_statement {A} q (k : answer -> res A) tr r : path (Stmt q (fun a => Done (k a)) : sql A) tr r -> exists a, tr = [(q, a)] /\ r = k a.
Proof. inversion 1 as [|? ? a tr' ? Hk]; subst. inversion Hk; subst. by exists a. Qed.

Lemma pure_path {A} (m : res A) tr r : path (pure (Q := statement) (R := answer) m) tr r -> tr = [] /\ r = m.
Proof. by inversion 1. Qed.

Lemma case_path id tr case : path (get_quarantine_case id) tr (Ok case) ->
  exists b rows events, (SelectBatch id, ABatch (Some b)) ∈ tr /\ (SelectReviews id, AReviews rows) ∈ tr /\
    ordered_events rows = Ok events /\ case_of id b events = Ok case.
Proof.
  intros [(e & _ & He)|(tr1 & b & tr2 & -> & (a & -> & Ha)%one_statement & Hp)]%path_bind; [done|].
  apply path_bind in Hp as [(e & _ & He)|(tr3 & events & tr4 & -> & Hp & (-> & Hc)%pure_path)]; [done|].
  apply path_bind in Hp as [(e & _ & He)|(tr5 & rows & tr6 & -> & (a2 & -> & Ha2)%one_statement & (-> & Ho)%pure_path)]; [done|].
  destruct a as [[b0|]| | | | | | | | |]; try done. injection Ha as <-. destruct a2; try done. injection Ha2 as <-.
  exists b, rows, events. split; [by left|]. split; [right; by left|done].
Qed.

Lemma manually_resolved_decided id b events case : case_of id b events = Ok case ->
  (manually_resolved case = true <-> manually_decided b events) /\ qk_correction_id case = last events ≫= qv_correction_id.
Proof.
  intros ->%make_case_Ok. split; [|done]. unfold manually_resolved, manually_decided. simpl.
  rewrite andb_true_iff, !bool_decide_eq_true. destruct (qe_replayed_by_dataset_run_id b); [naive_solver|].
  destruct (last events) as [e|]; simpl; [|naive_solver]. split; [intros [? ?]; split; [done|]; by exists e|by intros (_ & e' & [= <-] & ? & ?)].
Qed.

Lemma payload_retained batch payload u : _validate_payload batch payload = Ok u -> retained_for batch payload.
Proof. intros (? & ? & ? & ?)%validate_payload_Ok. by split. Qed.

Lemma check_corrected batch payload c u : check_approved batch payload c = Ok u -> corrected_by batch payload c.
Proof.
  unfold check_approved, raise_if. repeat case_match; try done. intros _.
  repeat match goal with
  | H : negb _ = false |- _ => apply negb_false_iff in H
  | H : (_ =? _)%N = true |- _ => apply N.eqb_eq in H
  | H : bool_decide _ = true |- _ => apply bool_decide_eq_true in H
  | H : String.eqb _ _ = true |- _ => apply String.eqb_eq in H
  end. by split.
Qed.

Lemma provenance_path batch payload tr u : path (_validate_correction_provenance batch payload) tr (Ok u) -> reviewed tr batch payload.
Proof.
  intros [(e & _ & He)|(tr1 & case & tr2 & -> & (b & rows & events & H1 & H2 & H3 & H4)%case_path & Hp)]%path_bind; [done|].
  destruct (manually_resolved_decided _ _ _ _ H4) as [Hm Hc].
  assert (Hin : forall x, x ∈ tr1 -> x ∈ tr1 ++ tr2) by (intros x Hx; apply elem_of_app; by left).
  exists b, rows, events. split; [auto|]. split; [auto|]. split; [done|].
  destruct (rp_correction_id payload) as [c|].
  - destruct (manually_resolved case) eqn:Em; [|by apply pure_path in Hp as [_ ?]].
    destruct (bool_decide _) eqn:Eq; [|by apply pure_path in Hp as [_ ?]]. apply bool_decide_eq_true in Eq. cbn [negb orb] in Hp.
    split; [by apply Hm|]. split; [by rewrite <-Hc|].
    apply path_bind in Hp as [(e & _ & He)|(tr3 & c0 & tr4 & -> & (a & -> & Ha)%one_statement & (_ & Hok)%pure_path)]; [done|].
    destruct a as [| | |[c1|]| | | | | |]; try done.
    assert (c1 = c0) as -> by (unfold make_QuarantineManualCorrection in Ha; destruct (_ || _) in Ha; [done|]; by injection Ha).
    exists c0. split; [apply elem_of_app; right; by left|]. by eapply check_corrected.
  - apply pure_path in Hp as [_ Hr]. unfold raise_if in Hr. intros Hd%Hm. by rewrite Hd in Hr.
Qed.

Lemma load_path batches tr payloads : path (load_payloads batches) tr (Ok payloads) -> Forall2 (payload_checked tr) batches payloads.
Proof.
  revert tr payloads. induction batches as [|batch batches IH]; intros tr payloads; cbn [load_payloads].
  { intros [_ [= ->]]%pure_path. constructor. }
  intros [(e & _ & He)|(tr1 & payload & tr2 & -> & (a & -> & Ha)%one_statement & Hp)]%path_bind; [done|].
  apply path_bind in Hp as [(e & _ & He)|(tr3 & u & tr4 & -> & (-> & Hv)%pure_path & Hp)]; [done|].
  apply path_bind in Hp as [(e & _ & He)|(tr5 & [] & tr6 & -> & Hrev%provenance_path & Hp)]; [done|].
  apply path_bind in Hp as [(e & _ & He)|(tr7 & ps & tr8 & -> & Hps%IH & (-> & [= ->])%pure_path)]; [done|].
  assert (a = APayload (Ok payload)) as -> by (destruct a; try done; by subst). constructor.
  - split; [by left|by eapply payload_retained|]. eapply reviewed_mono; [|exact Hrev]. intros x Hx. simpl.
    right. apply elem_of_app. by left.
  - eapply Forall2_impl; [exact Hps|]. intros b p. apply checked_mono. intros x Hx. simpl. right. apply elem_of_app. right.
    apply elem_of_app. by left.
Qed.

Lemma batches_path request tr batches : path (_load_batches parse_uuid request) tr (Ok batches) ->
  (exists rows, (SelectBatches (qe_quarantine_id <$> batches), ABatches rows) ∈ tr /\
    _explicit_quarantine_ids parse_uuid request = Ok (qe_quarantine_id <$> batches) /\ Forall (fun b => b ∈ rows) batches) \/
  (exists run, rr_original_dataset_run_id request = Some run /\ (SelectBatchesForRun (rr_dataset_id request) run, ABatches batches) ∈ tr).
Proof.
  intros [(e & _ & He)|(tr1 & ids & tr2 & -> & (-> & Hids)%pure_path & Hp)]%path_bind; [done|]. cbn [app].
  destruct (negb _).
  - apply path_bind in Hp as [(e & _ & He)|(tr3 & u & tr4 & -> & (-> & _)%pure_path & Hp)]; [done|].
    apply path_bind in Hp as [(e & _ & He)|(tr5 & rows & tr6 & -> & (a & -> & Ha)%one_statement & Hp)]; [done|].
    apply path_bind in Hp as [(e & _ & He)|(tr7 & rows' & tr8 & -> & (-> & Hev)%pure_path & (-> & Ho)%pure_path)]; [done|].
    destruct a; try done. injection Ha as <-. symmetry in Hev, Ho. apply evidence_of_Ok in Hev as ->. apply batches_in_order_Ok in Ho.
    assert (qe_quarantine_id <$> batches = ids) as E by (clear -Ho; induction Ho as [|id b ids bs [<- _] _ IH]; [done|]; rewrite fmap_cons; by f_equal).
    left. exists rows. rewrite E, Hids. split; [by left|]. split; [done|]. clear -Ho. induction Ho as [|? ? ? ? [_ ?]]; by constructor.
  - destruct (rr_original_dataset_run_id request) as [run|]; [|by apply pure_path in Hp as [_ ?]]. right. exists run. split; [done|].
    apply path_bind in Hp as [(e & _ & He)|(tr5 & rows & tr6 & -> & (a & -> & Ha)%one_statement & (-> & Hev)%pure_path)]; [done|].
    destruct a; try done. injection Ha as <-. symmetry in Hev. apply evidence_of_Ok in Hev as ->. by left.
Qed.

Lemma scope_fresh batches request run refs : _validate_batch_scope batches request run = Ok (false, refs) ->
  batches <> [] /\ Forall (fun b => qe_dataset_id b = rr_dataset_id request /\ qe_replayed_by_dataset_run_id b = None /\
    exists reference, qe_source_reference b = Some reference /\ reference <> EmptyString) batches.
Proof.
  unfold _validate_batch_scope. case_bool_decide as Hl; [done|]. intros (rs & Hrs & Hm)%bind_Ok.
  split; [by intros ->|]. case_bool_decide as Hn; [|by destruct (forallb _ _ && _)]. clear Hm Hl. apply mapM_res_Forall2 in Hrs.
  revert Hn. induction Hrs as [|b reference batches rs Hb _ IH]; [constructor|]. rewrite omap_step. intros Hn.
  destruct (qe_replayed_by_dataset_run_id b) eqn:Er; [done|]. constructor; [|by apply IH].
  unfold scope_reference in Hb. destruct (String.eqb _ _) eqn:Ed; [|done]. apply String.eqb_eq in Ed. cbn [negb] in Hb.
  destruct (qe_source_reference b) as [rf|]; [|done]. split_and!; try done. exists rf. split; [done|]. by intros ->.
Qed.

Lemma prepare_path request run tr prepared :
  path (prepare_quarantine_replay parse_uuid request run) tr (Ok prepared) -> pq_already_replayed prepared = false ->
  exists batches, scope_checked request tr batches /\ Forall2 (payload_checked tr) batches (pq_payloads prepared) /\
    qp_quarantine_ids (pq_plan prepared) = qe_quarantine_id <$> batches.
Proof.
  unfold prepare_quarantine_replay. destruct (negb _); [by intros [_ ?]%pure_path|].
  intros [(e & _ & He)|(tr1 & batches & tr2 & -> & Hb%batches_path & Hp)]%path_bind; [done|].
  apply path_bind in Hp as [(e & _ & He)|(tr3 & [replayed refs] & tr4 & -> & (-> & Hscope)%pure_path & Hp)]; [done|].
  apply path_bind in Hp as [(e & _ & He)|(tr5 & plan & tr6 & -> & (-> & Hplan)%pure_path & Hp)]; [done|].
  symmetry in Hscope, Hplan. apply make_plan_Ok in Hplan as ->. cbn [fst app] in *.
  destruct replayed; [apply pure_path in Hp as [_ [= ->]]; done|]. apply scope_fresh in Hscope as [Hne Hall].
  apply path_bind in Hp as [(e & _ & He)|(tr7 & payloads & tr8 & -> & Hps%load_path & (-> & [= ->])%pure_path)]; [done|].
  intros _. exists batches. split; [|split; [|done]].
  - split; [done| |done]. destruct Hb as [(rows & ? & ?)|(r & ? & ?)]; [left; exists rows|right; exists r];
      (split; [|done]) || (split; [done|]); apply elem_of_app; by left.
  - simpl. eapply Forall2_impl; [exact Hps|]. intros b p. apply checked_mono. intros x Hx. apply elem_of_app. right.
    apply elem_of_app. by left.
Qed.

Lemma mark_only_marks d ids run gate : statements (fun q => is_execute q = false) (mark_quarantine_replayed d ids run gate).
Proof. unfold mark_quarantine_replayed, select_batches. walk_statements. Qed.

Lemma statements_except {A} (P : statement -> Prop) classes handler (p : sql A) :
  statements P p -> (forall e, statements P (handler e)) -> statements P (prog_except classes handler p).
Proof.
  intros Hp Hh. unfold prog_except. induction p as [[a|e]|q k IH]; simpl; [done| |].
  - by case_bool_decide.
  - destruct Hp as [Hq Hk]. split; [done|]. intros a. apply IH, Hk.
Qed.

(** Only a replay calls the target, after its checks. *)
Lemma execute_leads call tr payloads k : leads (quarantine_program parse_uuid call) tr (Stmt (ExecutePayloads payloads) k) ->
  exists request run batches, call = Replay request run /\ scope_checked request tr batches /\ Forall2 (payload_checked tr) batches payloads.
Proof.
  intros Hl. assert (Hother : statements (fun q => is_execute q = false) (quarantine_program parse_uuid call) -> False)
    by (intros Hs; by pose proof (leads_statements _ _ _ _ _ Hs Hl)).
  destruct call as [event|correction event|batch|id|request run]; try (exfalso; apply Hother; cbn [quarantine_program];
    unfold record_quarantine_review_event, resolve_quarantine_with_manual_correction, _validate_event, record_quarantine_batch,
      get_quarantine_case, _case_from_connection, _batch_row, _ordered_events, select_reviews, insert_and_read;
    walk_statements; try (apply statements_except; [|intros ?; done]); walk_statements; fail).
  exists request, run. cbn [quarantine_program] in Hl.
  apply leads_bind in Hl as [[k' Hl]|(tr1 & x & tr2 & _ & _ & Hl)]; [|by inversion Hl]. unfold execute_quarantine_replay in Hl.
  apply leads_bind in Hl as [[k2 Hl]|(tr1 & prepared & tr2 & -> & Hp & Hl)].
  { pose proof (leads_statements harmless _ _ _ _ (prepare_harmless request run) Hl) as [? _]. done. }
  destruct (pq_already_replayed prepared) eqn:Eal; [by inversion Hl|].
  destruct (prepare_path _ _ _ _ Hp Eal) as (batches & Hscope & Hchecked & _).
  assert (payloads = pq_payloads prepared) as ->.
  { apply leads_bind in Hl as [[k2 Hl]|(tr3 & o & tr4 & _ & _ & Hl)].
    - inversion Hl as [|? ? a ? ? Hk]; subst; [done|]. by inversion Hk.
    - destruct (negb _); [by inversion Hl|]. apply leads_bind in Hl as [[k3 Hl]|(tr5 & bs & tr6 & _ & _ & Hl)]; [|by inversion Hl].
      by pose proof (leads_statements _ _ _ _ _ (mark_only_marks _ _ _ _) Hl). }
  assert (Hin : forall x, x ∈ tr1 -> x ∈ tr1 ++ tr2) by (intros x Hx; apply elem_of_app; by left).
  exists batches. split; [done|]. split; [by eapply scope_mono|]. eapply Forall2_impl; [exact Hchecked|]. intros b p. by apply checked_mono.
Qed.
End order.

(** ** Decisions that were read *)

(** An event that leads to a terminal status is the last one. *)
Lemma chain_terminal s es pre e post : chain s es -> es = pre ++ e :: post -> terminal (qv_to_status e) = true -> post = [].
Proof.
  intros Hc -> Ht. revert s Hc. induction pre as [|e0 pre IH]; intros s; simpl.
  - intros (_ & _ & _ & Hc). destruct post as [|e1 post]; [done|]. destruct Hc as (_ & Ha & _). exfalso.
    unfold terminal in Ht. apply bool_decide_eq_true in Ht. rewrite !elem_of_cons, elem_of_nil in Ht.
    destruct Ht as [E|[E|[E|[]]]]; rewrite E in Ha; by apply elem_of_nil in Ha.
  - intros (_ & _ & _ & Hc). by apply IH in Hc.
Qed.

Lemma chain_resolutions s es : chain s es -> Forall (fun e => _resolution_allowed e = true) es.
Proof. revert s. induction es as [|e es IH]; intros s; [constructor|]. intros (_ & _ & Hr & Hc). constructor; [done|by eapply IH]. Qed.

Lemma resolution_text_inj r r' : resolution_text r = resolution_text r' -> r = r'.
Proof. by destruct r, r'. Qed.

(** A case that was resolved by a correction is read as decided by it. *)
Lemma decided_read t id c rows events :
  quarantine_inv t -> decided_by t id c -> read_rows read_review (reviews_for t id) rows -> ordered_events rows = Ok events ->
  exists e, last events = Some e /\ qv_to_status e = Q_RESOLVED /\ qv_resolution e = Some MANUAL_CORRECTION /\ qv_correction_id e = Some c.
Proof.
  intros (_ & Hcases & _) (r & Hr & Hres & Hcor) Hread Ho. destruct (Hcases id) as (es & Hes & Hc & _).
  destruct (ordered_read _ _ _ Hes Hc Hread) as (es' & Hs & Ho'). rewrite Ho in Ho'. injection Ho' as <-.
  apply mapM_res_Forall2 in Hes. apply list_elem_of_lookup_1 in Hr as [i Hi].
  destruct (Forall2_lookup_l _ _ _ _ _ Hes Hi) as (e & He & (_ & _ & _ & _ & Hec & Her & _)%event_from_row_fields).
  apply list_elem_of_lookup_2 in He. pose proof (chain_resolutions _ _ Hc) as Hall. rewrite Forall_forall in Hall. specialize (Hall e He).
  rewrite Hres in Her. assert (qv_resolution e = Some MANUAL_CORRECTION) as Hman.
  { destruct (qv_resolution e) as [x|]; [|done]. injection Her as Her. f_equal. by apply resolution_text_inj. }
  assert (qv_to_status e = Q_RESOLVED) as Hto.
  { unfold _resolution_allowed in Hall. rewrite Hman in Hall. by destruct (qv_to_status e). }
  apply list_elem_of_split in He as (pre & post & ->).
  rewrite (chain_terminal _ _ pre e post Hc eq_refl) in Hs by (by rewrite Hto).
  apply Forall2_app_inv_l in Hs as (l1 & l2 & _ & Hl2 & ->). inversion Hl2 as [|? e' ? l2' [d ->] Hnil]; subst.
  inversion Hnil; subst. exists (event_at d e). rewrite last_snoc. split_and!; try done. simpl. by rewrite Hec.
Qed.

(** ** Properties *)

Section properties.
Context (parse_uuid : value -> option N).

(** What the database answered between two of its states. *)
Lemma answered_between {A} posts (pool pool' : list (sql A)) t0 trace t q a :
  Forall (stable quarantine_later) posts -> quarantine_inv t0 -> Forall2 (fun post p => qsafe post p t0) posts pool ->
  pool_run documented pool t0 trace pool' t -> (q, a) ∈ trace ->
  exists t1 t2, quarantine_inv t1 /\ quarantine_later t0 t1 /\ documented t1 q a t2 /\ quarantine_later t1 t.
Proof using Type.
  intros Hst Hinv Hsafe Hrun (tr1 & tr2 & ->)%list_elem_of_split.
  destruct (pool_statement documented quarantine_inv quarantine_later quarantine_wf posts pool t0 tr1 q a tr2 pool' t Hst Hinv Hsafe Hrun)
    as (t1 & t2 & Hi & Hl & Hwf & Hex & Hl2). exists t1, t2. split_and!; try done. eapply quarantine_later_trans; [|exact Hl2].
  by eapply (later_exec documented quarantine_inv quarantine_later quarantine_wf).
Qed.

(** The database when the target is called: what was checked before, and what that means for a case that had been
    resolved by a correction. *)
Lemma target_called {St} `{LawfulDatabase statement answer St quarantine_tables documented} calls (s s' : St) trace1 payloads a trace2 pool' :
  quarantine_inv (view s) -> Forall valid_call calls ->
  pool_run db_exec (quarantine_program parse_uuid <$> calls) s (trace1 ++ (ExecutePayloads payloads, a) :: trace2) pool' s' ->
  exists t request run batches, quarantine_later (view s) t /\ quarantine_later t (view s') /\ Forall (provenance t) payloads /\
    Replay request run ∈ calls /\ scope_checked parse_uuid request trace1 batches /\ Forall2 (payload_checked trace1) batches payloads /\
    forall p c b, p ∈ payloads -> decided_by (view s) (rp_quarantine_id p) c ->
      qt_batches t !! rp_quarantine_id p = Some b -> qe_replayed_by_dataset_run_id b = None -> rp_correction_id p = Some c.
Proof using Type.
  intros Hinv Hv Hrun%(database_refines documented).
  assert (Hst : Forall (stable quarantine_later) ((fun c => returns (done_post c)) <$> calls)).
  { apply Forall_fmap, Forall_true. intros c. apply done_post_stable. }
  assert (Hsafe : Forall2 (fun post p => qsafe post p (view s)) ((fun c => returns (done_post c)) <$> calls) (quarantine_program parse_uuid <$> calls)).
  { apply Forall2_fmap. clear -Hv. induction Hv; constructor; [by apply program_safe|done]. }
  destruct (pool_statement_at documented quarantine_inv quarantine_later quarantine_wf _ _ _ _ _ _ _ _ _ Hst Hinv Hsafe Hrun)
    as (pool1 & t & t' & Hpre & Hinvt & Hl1 & Hwf & Hex & Hl2).
  destruct (pool_run_leads _ _ _ _ _ _ _ _ _ Hrun) as (i & p0 & tr & k & Hi & Hleads & Hsub).
  rewrite list_lookup_fmap in Hi. destruct (calls !! i) as [call|] eqn:Ec; [|done]. injection Hi as <-.
  apply list_elem_of_lookup_2 in Ec. apply execute_leads in Hleads as (request & run & batches & -> & Hscope & Hchecked).
  assert (Hin : forall x, x ∈ tr -> x ∈ trace1) by (intros x Hx; by eapply elem_of_sublist).
  exists t, request, run, batches. split; [done|]. split.
  { eapply quarantine_later_trans; [by eapply (later_exec documented quarantine_inv quarantine_later quarantine_wf)|exact Hl2]. }
  split; [exact Hwf|]. split; [done|]. split; [by eapply scope_mono|].
  split. { eapply Forall2_impl; [exact Hchecked|]. intros b p. by apply checked_mono. }
  intros p c b Hp Hdec Hb Hnone. apply list_elem_of_lookup_1 in Hp as [j Hj].
  destruct (Forall2_lookup_r _ _ _ _ _ Hchecked Hj) as (batch & _ & [_ [Hid _ _ _] (b' & rows & events & Hb' & Hrows & Ho & Hm)]).
  rewrite Hid in *.
  destruct (answered_between _ _ _ _ _ _ _ _ Hst Hinv Hsafe Hpre (Hin _ Hb')) as (t1 & t2 & _ & _ & Hd1 & Hlt1).
  destruct (answered_between _ _ _ _ _ _ _ _ Hst Hinv Hsafe Hpre (Hin _ Hrows)) as (t3 & t4 & Hinv3 & Hl3 & Hd3 & _).
  assert (qe_replayed_by_dataset_run_id b' = None) as Hnone'.
  { inversion Hd1 as [q' a' Hdrv| | | |]; subst. inversion Hdrv as [b0 b1 Hr Eq Eq'| | | | | |]; subst. simpl in Hr.
    inversion Hr as [b0 b1 (d & _ & ->) Eb|]; subst. simpl. destruct Hlt1 as (Hbs & _). symmetry in Eb. destruct (Hbs _ _ Eb) as (b2 & Hb2 & Hev).
    rewrite Hb in Hb2. injection Hb2 as <-. by destruct Hev as [->|[? _]]. }
  assert (read_rows read_review (reviews_for t3 (qe_quarantine_id batch)) rows) as Hread.
  { inversion Hd3 as [q' a' Hdrv| | | |]; subst. by inversion Hdrv. }
  assert (decided_by t3 (qe_quarantine_id batch) c) as Hdec3.
  { destruct Hdec as (r & Hr & Hrest). exists r. split; [by eapply later_reviews|done]. }
  destruct (decided_read _ _ _ _ _ Hinv3 Hdec3 Hread Ho) as (e & Hlast & Hto & Hres & Hcor).
  destruct (rp_correction_id p) as [c'|].
  - destruct Hm as (_ & Hc' & _). rewrite Hlast in Hc'. simpl in Hc'. congruence.
  - exfalso. apply Hm. split; [done|]. by exists e.
Qed.

(** C33. A replay calls the target at most once, and only after all its checks: it has read the batches of the
    request, none of them replayed, and for each of them loaded the retained payload that it hands over, of the same
    dataset, source reference and number of rows, and read the review of its case; a payload without correction is
    used only if that case was not resolved by a manual correction, a corrected one only if it is the very correction
    that resolved the case.  Whatever the database, the payload provider and the target answer, it marks its batches
    only after the target reported an open gate; it returns either without any effect, because it had already been
    replayed, or with the value the target reported behind an open gate. *)
Theorem replay_executes_once request run tr r :
  path (execute_quarantine_replay parse_uuid request run) tr r ->
  (Forall (fun qa => harmless qa.1) tr /\ forall result, r = Ok result -> qr_already_replayed result = true) \/
  (exists pre batches payloads a post, tr = pre ++ (ExecutePayloads payloads, a) :: post /\
     Forall (fun qa => harmless qa.1) pre /\ Forall (fun qa => is_execute qa.1 = false) post /\
     scope_checked parse_uuid request pre batches /\ Forall2 (payload_checked pre) batches payloads /\
     (Exists (fun qa => is_mark qa.1 = true) post -> exists v gate, a = AOutcome (Ok (v, gate)) /\ can_advance_state gate = true) /\
     (forall result, r = Ok result -> qr_already_replayed result = false /\
        qp_quarantine_ids (qr_plan result) = qe_quarantine_id <$> batches /\
        exists v gate, a = AOutcome (Ok (v, gate)) /\ can_advance_state gate = true /\ qr_value result = Some v)).
Proof.
  unfold execute_quarantine_replay. intros [(e & Hp & ->)|(tr1 & prepared & tr2 & -> & Hp & Hrest)]%path_bind.
  { left. split; [|done]. exact (path_statements harmless _ _ _ (prepare_harmless parse_uuid request run) Hp). }
  assert (Hpre : Forall (fun qa => harmless qa.1) tr1)
    by exact (path_statements harmless _ _ _ (prepare_harmless parse_uuid request run) Hp).
  destruct (pq_already_replayed prepared) eqn:Eal.
  { inversion Hrest; subst. left. rewrite app_nil_r. split; [done|]. by intros result [= <-]. }
  destruct (prepare_path _ _ _ _ _ Hp Eal) as (batches & Hscope & Hchecked & Hids).
  right. apply path_bind in Hrest as [(e & He & ->)|(tr3 & [v gate] & tr4 & -> & He & Hrest)];
    inversion He as [|? ? a tr' ? Hdone]; subst; inversion Hdone as [x Hr|]; subst.
  { exists tr1, batches, (pq_payloads prepared), a, []. split_and!; [done|done|constructor|done|done|by intros ?%Exists_nil|done]. }
  assert (a = AOutcome (Ok (v, gate))) as -> by (destruct a; try done; by subst).
  exists tr1, batches, (pq_payloads prepared), (AOutcome (Ok (v, gate))), tr4. cbn [app] in *. split; [done|]. split; [done|].
  cbn [snd fst] in Hrest. destruct (can_advance_state gate) eqn:Eg; cbn [negb] in Hrest.
  - assert (Forall (fun qa : statement * answer => is_execute qa.1 = false) tr4 /\ forall result, r = Ok result ->
      qr_already_replayed result = false /\ qp_quarantine_ids (qr_plan result) = qe_quarantine_id <$> batches /\
      qr_value result = Some v) as [Hno Hres].
    { apply path_bind in Hrest as [(e & Hm & ->)|(tr5 & bs & tr6 & -> & Hm & Hend)].
      - split; [|done]. exact (path_statements _ _ _ _ (mark_only_marks _ _ _ _) Hm).
      - inversion Hend; subst. rewrite app_nil_r. split; [exact (path_statements _ _ _ _ (mark_only_marks _ _ _ _) Hm)|].
        by intros result [= <-]. }
    split; [done|]. split; [done|]. split; [done|]. split; [intros _; by exists v, gate|].
    intros result Hr. destruct (Hres _ Hr) as (? & ? & ?). split; [done|]. split; [done|]. by exists v, gate.
  - inversion Hrest; subst. split_and!; [constructor|done|done|by intros ?%Exists_nil|done].
Qed.

(** C32. However the calls of reviewers, replays and runs interleave on a lawful database, the review of
    every case stays one chain of allowed transitions from OPEN that ends with its first terminal
    decision, reviews are only appended, a manual correction names its recorded payload, and of two
    calls that leave the same status of the same case at most one returns. *)
Theorem reviews_governed {St} `{LawfulDatabase statement answer St quarantine_tables documented} calls (s s' : St) trace pool' :
  quarantine_inv (view s) -> Forall valid_call calls ->
  pool_run db_exec (quarantine_program parse_uuid <$> calls) s trace pool' s' ->
  (forall id, exists es, mapM_res _event_from_row (reviews_for (view s') id) = Ok es /\ chain Q_OPEN es /\
     ordered_events (reviews_for (view s') id) = Ok es /\ Forall (approved (view s')) es /\
     (forall pre e post, es = pre ++ e :: post -> terminal (qv_to_status e) = true -> post = [])) /\
  (exists new, qt_reviews (view s') = qt_reviews (view s) ++ new) /\
  (forall i j e1 e2 o1 o2, calls !! i = Some (Review e1) -> calls !! j = Some (Review e2) ->
     qv_quarantine_id e1 = qv_quarantine_id e2 -> qv_from_status e1 = qv_from_status e2 ->
     pool' !! i = Some (Done (Ok o1)) -> pool' !! j = Some (Done (Ok o2)) -> qv_event_id e1 = qv_event_id e2).
Proof.
  intros Hinv Hv Hrun. destruct (quarantine_pool parse_uuid calls s s' trace pool' Hinv Hv Hrun) as (Hinv' & Hl & Hposts & _).
  pose proof Hinv' as (_ & Hcases & _). split_and!.
  - intros id. destruct (Hcases id) as (es & Hes & Hc & Hap). exists es. split_and!; try done.
    + by eapply ordered_chain.
    + intros pre e post Hsplit. by apply (chain_terminal _ _ _ _ _ Hc Hsplit).
  - apply Hl.
  - intros i j e1 e2 o1 o2 Hi Hj Hq Hf Hp1 Hp2.
    pose proof (Forall2_lookup_lr _ _ _ _ _ _ Hposts Hi Hp1) as H1. pose proof (Forall2_lookup_lr _ _ _ _ _ _ Hposts Hj Hp2) as H2.
    simpl in H1, H2. destruct (Hcases (qv_quarantine_id e1)) as (es & Hes & Hc & _).
    rewrite Forall_forall in Hv. pose proof (Hv _ (list_elem_of_lookup_2 _ _ _ Hi)) as V1. pose proof (Hv _ (list_elem_of_lookup_2 _ _ _ Hj)) as V2.
    assert (Hin : forall e, make_QuarantineReviewEvent e = Ok e -> qv_quarantine_id e = qv_quarantine_id e1 ->
      _insert_event e ∈ qt_reviews (view s') -> e ∈ es).
    { intros e Ve Eq Hin. assert (_insert_event e ∈ reviews_for (view s') (qv_quarantine_id e1)) as Hf' by by apply list_elem_of_filter.
      apply mapM_res_Forall2 in Hes. apply list_elem_of_lookup_1 in Hf' as [k Hk].
      destruct (Forall2_lookup_l _ _ _ _ _ Hes Hk) as (e' & He' & Hd). rewrite (event_roundtrip _ Ve) in Hd. injection Hd as <-.
      by eapply list_elem_of_lookup_2. }
    apply Hin in H1; [|done|done]. apply Hin in H2; [|done|done]. apply chain_NoDup in Hc.
    apply list_elem_of_lookup_1 in H1 as [a Ha], H2 as [b Hb].
    assert (a = b) as ->; [|congruence].
    eapply (NoDup_lookup _ _ _ (qv_from_status e1)); [exact Hc|..]; rewrite list_lookup_fmap; [by rewrite Ha|by rewrite Hb, Hf].
Qed.

(** C34. However calls interleave, a replay hands to the target, when it calls it, for each batch of its scope the
    payload on record, by dataset, source reference and row count, that it had checked; a corrected payload carries
    the reference and hash of the correction that resolved its case.  A payload without correction was used only after
    a read of its case that showed no manual resolution: where the case of a batch had been resolved by a correction
    when the execution started, and the batch is not replayed when the target is called, the payload carries exactly
    that correction.  A batch a replay returned for is marked by its run, a marker never changes, and replays of a
    common batch by different runs never both return. *)
Theorem replay_governed {St} `{LawfulDatabase statement answer St quarantine_tables documented} calls (s s' : St) trace pool' :
  quarantine_inv (view s) -> Forall valid_call calls ->
  pool_run db_exec (quarantine_program parse_uuid <$> calls) s trace pool' s' ->
  (forall trace1 payloads a trace2, trace = trace1 ++ (ExecutePayloads payloads, a) :: trace2 ->
     exists t request run batches, quarantine_later (view s) t /\ quarantine_later t (view s') /\ Forall (provenance t) payloads /\
       Replay request run ∈ calls /\ scope_checked parse_uuid request trace1 batches /\ Forall2 (payload_checked trace1) batches payloads /\
       forall p c b, p ∈ payloads -> decided_by (view s) (rp_quarantine_id p) c ->
         qt_batches t !! rp_quarantine_id p = Some b -> qe_replayed_by_dataset_run_id b = None -> rp_correction_id p = Some c) /\
  (forall id b run, qt_batches (view s) !! id = Some b -> qe_replayed_by_dataset_run_id b = Some run ->
     qt_batches (view s') !! id = Some b) /\
  (forall i request run result, calls !! i = Some (Replay request run) -> pool' !! i = Some (Done (Ok (QO_replayed result))) ->
     all_marked (view s') (qp_quarantine_ids (qr_plan result)) run) /\
  (forall i j request1 request2 run1 run2 result1 result2 id,
     calls !! i = Some (Replay request1 run1) -> calls !! j = Some (Replay request2 run2) ->
     pool' !! i = Some (Done (Ok (QO_replayed result1))) -> pool' !! j = Some (Done (Ok (QO_replayed result2))) ->
     id ∈ qp_quarantine_ids (qr_plan result1) -> id ∈ qp_quarantine_ids (qr_plan result2) -> run1 = run2).
Proof.
  intros Hinv Hv Hrun. destruct (quarantine_pool parse_uuid calls s s' trace pool' Hinv Hv Hrun) as (_ & Hl & Hposts & _).
  assert (Hmarked : forall i request run result, calls !! i = Some (Replay request run) ->
    pool' !! i = Some (Done (Ok (QO_replayed result))) -> all_marked (view s') (qp_quarantine_ids (qr_plan result)) run).
  { intros i request run result Hi Hp. exact (Forall2_lookup_lr _ _ _ _ _ _ Hposts Hi Hp). }
  split_and!; [| |exact Hmarked|].
  - intros trace1 payloads a trace2 ->. exact (target_called calls s s' trace1 payloads a trace2 pool' Hinv Hv Hrun).
  - intros id b run Hb Hr. destruct Hl as (Hbs & _). destruct (Hbs _ _ Hb) as (b' & -> & [->|[Hn _]]); [done|congruence].
  - intros i j q1 q2 run1 run2 x1 x2 id Hi Hj Hp1 Hp2 H1 H2.
    destruct (Hmarked _ _ _ _ Hi Hp1 id H1) as (b1 & E1 & R1). destruct (Hmarked _ _ _ _ Hj Hp2 id H2) as (b2 & E2 & R2).
    congruence.
Qed.
End properties.

(** ** Concrete executions *)

Module Demo.

(** A database in memory, with the list of the payloads the target was given. *)
Definition state : Type := quarantine_tables * list (list QuarantineReplayPayload).

Definition open_gate : StateCommitGate :=
  {| target_committed := true; reconciliation_required := true; reconciliation_passed := true; batch_quarantined := false |}.

(** The provider returns the retained rows, or the corrected ones once they are recorded; the target commits. *)
Definition retained (b : QuarantineBatchEvidence) : QuarantineReplayPayload :=
  {| rp_quarantine_id := qe_quarantine_id b; rp_dataset_id := qe_dataset_id b;
     rp_source_reference := default "" (qe_source_reference b); rp_rows := [∅]; rp_payload_version := None;
     rp_correction_id := None; rp_correction_reference := None; rp_correction_payload_sha256 := None |}.

Definition correction : QuarantineManualCorrection :=
  {| qm_correction_id := 3; qm_quarantine_id := 1; qm_dataset_id := "orders"; qm_original_source_reference := "quarantine/1";
     qm_correction_reference := "corrections/3";
     qm_correction_payload_sha256 := "00000000000000000000000000000000000000000000000000000000000000aa";
     qm_corrected_by := "op"; qm_reason := "typo"; qm_ticket_reference := None; qm_created_at := utc 1 |}.

(** The payload of a correction. *)
Definition replaced (c : QuarantineManualCorrection) (b : QuarantineBatchEvidence) : QuarantineReplayPayload :=
  {| rp_quarantine_id := qe_quarantine_id b; rp_dataset_id := qe_dataset_id b;
     rp_source_reference := default "" (qe_source_reference b); rp_rows := [∅]; rp_payload_version := None;
     rp_correction_id := Some (qm_correction_id c); rp_correction_reference := Some (qm_correction_reference c);
     rp_correction_payload_sha256 := Some (qm_correction_payload_sha256 c) |}.

Definition memory_exec (s : state) (q : statement) : answer * state :=
  match q with
  | LoadPayload b => (APayload (Ok (match qt_corrections s.1 !! 3%N with Some c => replaced c b | None => retained b end)), s)
  | ExecutePayloads ps => (AOutcome (Ok (VInt 1, open_gate)), (s.1, s.2 ++ [ps]))
  | _ => ((exec_tables s.1 q).1, (after_answer s.1 q (exec_tables s.1 q).1, s.2))
  end.

#[local] Instance memory_database : Database statement answer state quarantine_tables :=
  {| view := fst; db_exec := fun s q a s' => memory_exec s q = (a, s') |}.

Lemma read_rows_refl {A} (read : A -> A -> Prop) l : (forall x, read x x) -> read_rows read l l.
Proof. intros Hr. exists l. split; [done|]. induction l; constructor; auto. Qed.

#[local] Instance memory_lawful : LawfulDatabase documented.
Proof.
  intros s q a s' Hex. change (memory_exec s q = (a, s')) in Hex. change (documented s.1 q a s'.1).
  assert (Hb : forall b, read_batch b b) by (intros b; exists (qe_created_at b); split; [by left|by destruct b]).
  assert (Hr : forall r, read_review r r) by (intros r; exists (vr_occurred_at r); split; [by left|by destruct r]).
  assert (Hc : forall c, read_correction c c) by (intros c; exists (qm_created_at c); split; [by left|by destruct c]).
  assert (Hbo : forall o, option_Forall2 read_batch o o) by (intros [?|]; constructor; auto).
  assert (Hco : forall o, option_Forall2 read_correction o o) by (intros [?|]; constructor; auto).
  assert (Hex' : (exists b, q = LoadPayload b) \/ (exists ps, q = ExecutePayloads ps) \/
    ((exec_tables s.1 q).1 = a /\ after_answer s.1 q a = s'.1 /\ (forall b, q <> LoadPayload b) /\ forall ps, q <> ExecutePayloads ps)).
  { destruct q; [..|left; by eexists|right; left; by eexists]; right; right; unfold memory_exec in Hex; by injection Hex as <- <-. }
  destruct Hex' as [[b ->]|[[ps ->]|(Ea & Et & Hn1 & Hn2)]].
  - injection Hex as <- <-. apply doc_payload.
  - injection Hex as <- <-. apply doc_outcome.
  - rewrite <-Et. apply doc_answered. rewrite <-Ea. clear Ea Et Hex.
    destruct q; cbn [exec_tables]; [..|by destruct (Hn1 b)|by destruct (Hn2 payloads)].
    all: repeat case_match; simpl; first [apply driver_integrity|apply driver_rowcount|constructor; auto using read_rows_refl].
Qed.

Definition no_uuid (v : value) : option N := match v with VUUID n => Some n | _ => None end.

Definition batch : QuarantineBatchEvidence :=
  {| qe_quarantine_id := 1; qe_dataset_run_id := 5; qe_dataset_id := "orders"; qe_scope := "ROW"; qe_row_count := 1;
     qe_reason_code := "DQ"; qe_reason_detail := None; qe_source_reference := Some "quarantine/1";
     qe_replayed_by_dataset_run_id := None; qe_created_at := utc 0 |}.

Definition event (id : N) (from_status to_status : QuarantineStatus) (resolution : option QuarantineResolution)
    (correction : option N) : QuarantineReviewEvent :=
  {| qv_event_id := id; qv_quarantine_id := 1; qv_dataset_id := "orders"; qv_from_status := from_status;
     qv_to_status := to_status; qv_resolution := resolution; qv_actor := "op"; qv_reason := "review";
     qv_ticket_reference := None; qv_correction_id := correction; qv_occurred_at := utc 1 |}.

(** The batch is under review. *)
Definition start : state :=
  ({| qt_batches := {[ 1%N := batch ]}; qt_corrections := ∅;
      qt_reviews := [_insert_event (event 10 Q_OPEN Q_UNDER_REVIEW None None)] |}, []).

Definition request : ReprocessRequest :=
  {| rr_reprocess_request_id := 9; rr_dataset_id := "orders"; rr_run_mode := RM_REPLAY; rr_reason := "fixed";
     rr_requested_by := "op"; rr_original_pipeline_run_id := None; rr_original_dataset_run_id := Some 5%N;
     rr_range_json := None; rr_status := RR_PENDING; rr_created_at := utc 0; rr_updated_at := None |}.

Lemma start_inv : quarantine_inv (view start).
Proof.
  change (quarantine_inv start.1).
  split_and!.
  - intros id b. simpl. intros [<- <-]%lookup_singleton_Some. done.
  - intros id. destruct (decide (id = 1%N)) as [->|Hne].
    + exists [event 10 Q_OPEN Q_UNDER_REVIEW None None]. split_and!; [by vm_compute| |by repeat constructor].
      simpl. split_and!; [done|by left|done|done].
    + exists []. split_and!; [|done|done]. unfold reviews_for, start. simpl. rewrite filter_cons, decide_False by (simpl; congruence). done.
  - simpl. apply NoDup_singleton.
Qed.

(** A replay and the resolution of the case by a manual correction: the replay validates the case
    while it is under review, and the reviewer resolves it before the replay calls the target. *)
Definition calls : list quarantine_call :=
  [Replay request 7; Resolve correction (event 11 Q_UNDER_REVIEW Q_RESOLVED (Some MANUAL_CORRECTION) (Some 3%N))].
Definition overtaken : list (sql quarantine_outcome) * state :=
  run_schedule memory_exec [0; 0; 0; 0; 1; 1; 1; 1; 1; 0; 0; 0; 0]%nat (quarantine_program no_uuid <$> calls) start.

(** A replay checks the review of its batches before it calls the target and never again: when the
    case is resolved by a manual correction in between, the uncorrected payload is written to the
    target and the batch is marked as replayed, although the approved resolution is the correction. *)
Theorem correction_overtaken :
  (exists result, overtaken.1 !! 0%nat = Some (Done (Ok (QO_replayed result))) /\ qr_already_replayed result = false) /\
  (exists case, overtaken.1 !! 1%nat = Some (Done (Ok (QO_case case))) /\ manually_resolved case = true) /\
  overtaken.2.2 = [[retained batch]] /\ rp_correction_id (retained batch) = None /\
  (qe_replayed_by_dataset_run_id <$> qt_batches overtaken.2.1 !! 1%N) = Some (Some 7%N).
Proof. split_and!; [eexists; by vm_compute|eexists; by vm_compute|by vm_compute..]. Qed.

(** ** Witnesses *)

Lemma calls_valid : Forall valid_call calls.
Proof. repeat constructor. Qed.

Definition alone : res QuarantineReplayResult * state :=
  run_alone memory_exec (execute_quarantine_replay no_uuid request 7) start.

Lemma replay_executes_once_witness :
  exists tr payloads a v gate result,
    path (execute_quarantine_replay no_uuid request 7) tr alone.1 /\ alone.1 = Ok result /\
    (ExecutePayloads payloads, a) ∈ tr /\ a = AOutcome (Ok (v, gate)) /\ can_advance_state gate = true.
Proof.
  destruct (run_alone_path memory_exec (execute_quarantine_replay no_uuid request 7) start) as [tr Htr].
  assert (exists result, alone.1 = Ok result /\ qr_already_replayed result = false) as (result & Er & Ea)
    by (eexists; split; by vm_compute).
  destruct (replay_executes_once no_uuid request 7 tr alone.1 Htr) as [[_ Hno]|(pre & batches & payloads & a & post & -> & _ & _ & _ & _ & _ & Hyes)].
  - pose proof (Hno result Er). congruence.
  - destruct (Hyes result Er) as (_ & _ & v & gate & -> & Hg & _). exists (pre ++ (ExecutePayloads payloads, AOutcome (Ok (v, gate))) :: post), payloads, (AOutcome (Ok (v, gate))), v, gate, result.
    split_and!; try done. apply elem_of_app. right. apply list_elem_of_here.
Defined.

Lemma overtaken_run : exists trace, pool_run db_exec (quarantine_program no_uuid <$> calls) start trace overtaken.1 overtaken.2.
Proof. exact (run_schedule_sound memory_exec [0; 0; 0; 0; 1; 1; 1; 1; 1; 0; 0; 0; 0]%nat (quarantine_program no_uuid <$> calls) start). Qed.

Lemma overtaken_facts :
  length (reviews_for (view overtaken.2) 1) = 2%nat /\
  exists result, overtaken.1 !! 0%nat = Some (Done (Ok (QO_replayed result))) /\ qp_quarantine_ids (qr_plan result) = [1%N].
Proof. split; [by vm_compute|]. eexists; split; by vm_compute. Qed.

Lemma reviews_governed_witness :
  exists es, mapM_res _event_from_row (reviews_for (view overtaken.2) 1) = Ok es /\ chain Q_OPEN es /\ length es = 2%nat.
Proof.
  destruct overtaken_run as [trace Hrun].
  destruct (reviews_governed no_uuid calls start overtaken.2 trace overtaken.1 start_inv calls_valid Hrun) as [Hcase _].
  destruct (Hcase 1%N) as (es & Hes & Hc & _). exists es. split; [exact Hes|]. split; [exact Hc|].
  rewrite <-(proj1 overtaken_facts). symmetry. exact (Forall2_length _ _ _ (proj1 (mapM_res_Forall2 _ _ _) Hes)).
Defined.

(** The case was resolved by the correction before the replay. *)
Definition resolved : state :=
  ({| qt_batches := {[ 1%N := batch ]}; qt_corrections := {[ 3%N := correction ]};
      qt_reviews := [_insert_event (event 10 Q_OPEN Q_UNDER_REVIEW None None);
                     _insert_event (event 11 Q_UNDER_REVIEW Q_RESOLVED (Some MANUAL_CORRECTION) (Some 3%N))] |}, []).

Lemma resolved_inv : quarantine_inv (view resolved).
Proof.
  change (quarantine_inv resolved.1). split_and!.
  - intros id b. simpl. intros [<- <-]%lookup_singleton_Some. done.
  - intros id. destruct (decide (id = 1%N)) as [->|Hne].
    + exists [event 10 Q_OPEN Q_UNDER_REVIEW None None; event 11 Q_UNDER_REVIEW Q_RESOLVED (Some MANUAL_CORRECTION) (Some 3%N)].
      split_and!; [by vm_compute| |].
      * simpl. split_and!; try done; [by left|left].
      * constructor; [done|]. constructor; [|done]. intros _. exists correction, batch. split_and!; try done; by vm_compute.
    + exists []. split_and!; [|done|done]. unfold reviews_for, resolved. simpl.
      rewrite !filter_cons, !decide_False by (simpl; congruence). done.
  - simpl. apply (bool_decide_unpack _). by vm_compute.
Qed.

Lemma resolved_decided : decided_by (view resolved) 1 3.
Proof. eexists. split; [right; left|]. done. Qed.

Definition corrected_run : list (sql quarantine_outcome) * state :=
  run_schedule memory_exec [0; 0; 0; 0; 0; 0; 0; 0]%nat (quarantine_program no_uuid <$> [Replay request 7]) resolved.

Lemma corrected_facts :
  corrected_run.2.2 = [[replaced correction batch]] /\
  exists result, corrected_run.1 !! 0%nat = Some (Done (Ok (QO_replayed result))) /\ qp_quarantine_ids (qr_plan result) = [1%N].
Proof. split; [by vm_compute|]. eexists; split; by vm_compute. Qed.

Lemma replay_governed_witness :
  exists trace result, pool_run db_exec (quarantine_program no_uuid <$> [Replay request 7]) resolved trace corrected_run.1 corrected_run.2 /\
    corrected_run.2.2 = [[replaced correction batch]] /\
    corrected_run.1 !! 0%nat = Some (Done (Ok (QO_replayed result))) /\
    all_marked (view corrected_run.2) (qp_quarantine_ids (qr_plan result)) 7 /\
    (forall trace1 payloads a trace2, trace = trace1 ++ (ExecutePayloads payloads, a) :: trace2 ->
       exists t, quarantine_later (view resolved) t /\ forall p b, p ∈ payloads -> rp_quarantine_id p = 1%N ->
         qt_batches t !! 1%N = Some b -> qe_replayed_by_dataset_run_id b = None -> rp_correction_id p = Some 3%N).
Proof.
  destruct (run_schedule_sound memory_exec [0; 0; 0; 0; 0; 0; 0; 0]%nat (quarantine_program no_uuid <$> [Replay request 7]) resolved)
    as [trace Hrun].
  destruct corrected_facts as [Hps (result & Er & Eq)].
  destruct (replay_governed no_uuid [Replay request 7] resolved corrected_run.2 trace corrected_run.1 resolved_inv
    ltac:(repeat constructor) Hrun) as (Hcalled & _ & Hmarked & _).
  exists trace, result. split; [exact Hrun|]. split; [exact Hps|]. split; [exact Er|].
  split; [exact (Hmarked 0%nat request 7%N result eq_refl Er)|].
  intros trace1 payloads a trace2 Htr. destruct (Hcalled trace1 payloads a trace2 Htr) as (t & rq & rn & bs & Hl & _ & _ & _ & _ & _ & Hp).
  exists t. split; [exact Hl|]. intros p b Hin Hid Hb Hn. apply (Hp p 3%N b Hin); [|rewrite Hid; exact Hb|exact Hn].
  rewrite Hid. exact resolved_decided.
Defined.
End Demo.
