(* ===== verification/Progress.v ===== *)
(** * Recorded progress ([control_plane/io.py])

    The CDC checkpoint of a dataset, committed with optimistic concurrency, and the append-only
    evidence of runs: capture receipts, attempt lineage, reprocess requests.  Each call is a
    program of statements (Transactions) on any lawful database; the quarantine operations of the
    same file are in Quarantine.  A JSON column gives back the value it was given. *)

From stdpp Require Import base gmap strings list.
From S2P Require Import Prelude PyValue Temporal ConfigTypes RuntimeState Transactions ControlPlane RunContracts CdcCapture.
#[local] Open Scope Z_scope.

(** ** Tables and statements *)

(** [cdc_checkpoint], by [dataset_id] *)
Record checkpoint_row := {
  kr_dataset_id : string;
  kr_positions : CDCCheckpoint;
  kr_committed_dataset_run_id : N;
  kr_version : Z;
  kr_created_at : datetime;
  kr_updated_at : option datetime
}.

(** [capture_receipt]; [dataset_attempt_lineage] and [reprocess_request] have the columns of their models. *)
Record receipt_row := { ct_receipt : CaptureReceipt; ct_created_at : datetime }.

Record progress_tables := {
  pt_checkpoints : gmap string checkpoint_row;
  pt_receipts : gmap N receipt_row;
  pt_lineage : gmap N DatasetAttemptLineage;
  pt_requests : gmap N ReprocessRequest
}.

(** The columns an UPDATE of [cdc_checkpoint] sets. *)
Record checkpoint_values := {
  kv_positions : CDCCheckpoint;
  kv_committed_dataset_run_id : N;
  kv_version : Z;
  kv_updated_at : datetime
}.

Definition set_checkpoint (r : checkpoint_row) (v : checkpoint_values) : checkpoint_row :=
  {| kr_dataset_id := kr_dataset_id r; kr_positions := kv_positions v;
     kr_committed_dataset_run_id := kv_committed_dataset_run_id v; kr_version := kv_version v;
     kr_created_at := kr_created_at r; kr_updated_at := Some (kv_updated_at v) |}.

Definition set_request (r : ReprocessRequest) (status : ReprocessRequestStatus) (updated_at : datetime) : ReprocessRequest :=
  {| rr_reprocess_request_id := rr_reprocess_request_id r; rr_dataset_id := rr_dataset_id r; rr_run_mode := rr_run_mode r;
     rr_reason := rr_reason r; rr_requested_by := rr_requested_by r;
     rr_original_pipeline_run_id := rr_original_pipeline_run_id r; rr_original_dataset_run_id := rr_original_dataset_run_id r;
     rr_range_json := rr_range_json r; rr_status := status; rr_created_at := rr_created_at r; rr_updated_at := Some updated_at |}.

(** The write of a transaction, at its commit, and the queries. *)
Inductive statement :=
| SelectCheckpoint (dataset_id : string)
| InsertCheckpoint (r : checkpoint_row)
| UpdateCheckpoint (dataset_id : string) (version : Z) (v : checkpoint_values)
| SelectReceipt (id : N)
| InsertReceipt (r : receipt_row)
| SelectLineage (id : N)
| InsertLineage (l : DatasetAttemptLineage)
| SelectRequest (id : N)
| InsertRequest (r : ReprocessRequest)
| UpdateRequest (id : N) (status : ReprocessRequestStatus) (updated_at : datetime).

(** [AIntegrityError] is SQLAlchemy's [IntegrityError], [AFailed] a lost connection. *)
Inductive answer :=
| ACheckpoint (r : option checkpoint_row)
| AFound (found : bool)
| ARequest (r : option ReprocessRequest)
| ARowcount (n : nat)
| AIntegrityError
| AFailed.

Definition is_write (q : statement) : bool :=
  match q with SelectCheckpoint _ | SelectReceipt _ | SelectLineage _ | SelectRequest _ => false | _ => true end.

Definition with_checkpoints (t : progress_tables) (m : gmap string checkpoint_row) : progress_tables :=
  {| pt_checkpoints := m; pt_receipts := pt_receipts t; pt_lineage := pt_lineage t; pt_requests := pt_requests t |}.
Definition with_receipts (t : progress_tables) (m : gmap N receipt_row) : progress_tables :=
  {| pt_checkpoints := pt_checkpoints t; pt_receipts := m; pt_lineage := pt_lineage t; pt_requests := pt_requests t |}.
Definition with_lineage (t : progress_tables) (m : gmap N DatasetAttemptLineage) : progress_tables :=
  {| pt_checkpoints := pt_checkpoints t; pt_receipts := pt_receipts t; pt_lineage := m; pt_requests := pt_requests t |}.
Definition with_requests (t : progress_tables) (m : gmap N ReprocessRequest) : progress_tables :=
  {| pt_checkpoints := pt_checkpoints t; pt_receipts := pt_receipts t; pt_lineage := pt_lineage t; pt_requests := m |}.

(** An INSERT of a key that is not there. *)
Definition insert_new {K V} `{Countable K} (t : progress_tables) (m : gmap K V) (k : K) (v : V)
    (with_table : progress_tables -> gmap K V -> progress_tables) : answer * progress_tables :=
  match m !! k with
  | Some _ => (AIntegrityError, t)
  | None => (ARowcount 1, with_table t (<[k := v]> m))
  end.

Definition exec_tables (t : progress_tables) (q : statement) : answer * progress_tables :=
  match q with
  | SelectCheckpoint d => (ACheckpoint (pt_checkpoints t !! d), t)
  | InsertCheckpoint r => insert_new t (pt_checkpoints t) (kr_dataset_id r) r with_checkpoints
  | UpdateCheckpoint d version v =>
    match pt_checkpoints t !! d with
    | Some r =>
      if kr_version r =? version then (ARowcount 1, with_checkpoints t (<[d := set_checkpoint r v]> (pt_checkpoints t)))
      else (ARowcount 0, t)
    | None => (ARowcount 0, t)
    end
  | SelectReceipt id => (AFound (bool_decide (is_Some (pt_receipts t !! id))), t)
  | InsertReceipt r => insert_new t (pt_receipts t) (cr_capture_receipt_id (ct_receipt r)) r with_receipts
  | SelectLineage id => (AFound (bool_decide (is_Some (pt_lineage t !! id))), t)
  | InsertLineage l => insert_new t (pt_lineage t) (dal_dataset_run_id l) l with_lineage
  | SelectRequest id => (ARequest (pt_requests t !! id), t)
  | InsertRequest r => insert_new t (pt_requests t) (rr_reprocess_request_id r) r with_requests
  | UpdateRequest id status updated_at =>
    match pt_requests t !! id with
    | Some r => (ARowcount 1, with_requests t (<[id := set_request r status updated_at]> (pt_requests t)))
    | None => (ARowcount 0, t)
    end
  end.

(** Timestamps may be read without their zone. *)
Definition read_checkpoint (r r' : checkpoint_row) : Prop :=
  exists c u, read_datetime (kr_created_at r) c /\ option_Forall2 read_datetime (kr_updated_at r) u /\
    r' = {| kr_dataset_id := kr_dataset_id r; kr_positions := kr_positions r;
            kr_committed_dataset_run_id := kr_committed_dataset_run_id r; kr_version := kr_version r;
            kr_created_at := c; kr_updated_at := u |}.
Definition read_request (r r' : ReprocessRequest) : Prop :=
  exists c u, read_datetime (rr_created_at r) c /\ option_Forall2 read_datetime (rr_updated_at r) u /\
    r' = {| rr_reprocess_request_id := rr_reprocess_request_id r; rr_dataset_id := rr_dataset_id r;
            rr_run_mode := rr_run_mode r; rr_reason := rr_reason r; rr_requested_by := rr_requested_by r;
            rr_original_pipeline_run_id := rr_original_pipeline_run_id r;
            rr_original_dataset_run_id := rr_original_dataset_run_id r;
            rr_range_json := rr_range_json r; rr_status := rr_status r; rr_created_at := c; rr_updated_at := u |}.

Inductive driver : answer -> answer -> Prop :=
| driver_checkpoint r r' : option_Forall2 read_checkpoint r r' -> driver (ACheckpoint r) (ACheckpoint r')
| driver_request r r' : option_Forall2 read_request r r' -> driver (ARequest r) (ARequest r')
| driver_found b : driver (AFound b) (AFound b)
| driver_rowcount n : driver (ARowcount n) (ARowcount n)
| driver_integrity : driver AIntegrityError AIntegrityError.

(** A statement is executed and answered; or a write is rejected by a constraint; or it fails, and may
    have been executed. *)
Inductive documented (t : progress_tables) (q : statement) : answer -> progress_tables -> Prop :=
| doc_answered a : driver (exec_tables t q).1 a -> documented t q a (exec_tables t q).2
| doc_rejected : is_write q = true -> documented t q AIntegrityError t
| doc_failed t' : t' = t \/ t' = (exec_tables t q).2 -> documented t q AFailed t'.

Abbreviation sql := (prog statement answer).

Definition sql_error {A} (a : answer) : res A :=
  match a with AIntegrityError => raise "IntegrityError" "" | _ => raise "OperationalError" "" end.

Definition affected_rows (q : statement) : sql nat :=
  Stmt q (fun a => Done (match a with ARowcount n => Ok n | _ => sql_error a end)).
Definition found (q : statement) : sql bool :=
  Stmt q (fun a => Done (match a with AFound b => Ok b | _ => sql_error a end)).

(** ** CDC checkpoints *)

Record CDCCheckpointState := {
  cs_dataset_id : string;
  cs_checkpoint : CDCCheckpoint;
  cs_committed_dataset_run_id : N;
  cs_version : Z
}.

Definition make_CDCCheckpointState (s : CDCCheckpointState) : res CDCCheckpointState :=
  if negb (nonempty (cs_dataset_id s)) || (cs_version s <? 1) then bad_field else Ok s.

Definition _checkpoint_from_row (r : checkpoint_row) : res CDCCheckpointState :=
  _ ← mapM_res validate_values (kr_positions r);
  _ ← validate_positions (kr_positions r);
  make_CDCCheckpointState
    {| cs_dataset_id := kr_dataset_id r; cs_checkpoint := kr_positions r;
       cs_committed_dataset_run_id := kr_committed_dataset_run_id r; cs_version := kr_version r |}.

Definition select_checkpoint (dataset_id : string) : sql (option checkpoint_row) :=
  Stmt (SelectCheckpoint dataset_id) (fun a => Done (match a with ACheckpoint r => Ok r | _ => sql_error a end)).

Definition read_cdc_checkpoint (dataset_id : string) : sql (option CDCCheckpointState) :=
  row ← select_checkpoint dataset_id;
  match row with
  | None => mret None
  | Some row => state ← pure (_checkpoint_from_row row); mret (Some state)
  end.

(** The state that the first commit returns is built before its INSERT is committed. *)
Definition commit_cdc_checkpoint (dataset_id : string) (checkpoint : CDCCheckpoint) (dataset_run_id : N)
    (expected_version : Z) (gate : StateCommitGate) (now : datetime) : sql CDCCheckpointState :=
  if expected_version <? 0 then pure (raise "ValueError" "expected_version must be >= 0")
  else
    current_row ← select_checkpoint dataset_id;
    match current_row with
    | None =>
      if negb (expected_version =? 0) then
        pure (raise "CDCCheckpointVersionConflict" "CDC checkpoint does not exist at expected version")
      else
        _ ← pure (validate_transition {| ct_before := None; ct_after := checkpoint; ct_gate := gate |});
        state ← pure (make_CDCCheckpointState
          {| cs_dataset_id := dataset_id; cs_checkpoint := checkpoint; cs_committed_dataset_run_id := dataset_run_id;
             cs_version := 1 |});
        _ ← affected_rows (InsertCheckpoint
          {| kr_dataset_id := dataset_id; kr_positions := checkpoint; kr_committed_dataset_run_id := dataset_run_id;
             kr_version := 1; kr_created_at := now; kr_updated_at := None |});
        mret state
    | Some current_row =>
      current ← pure (_checkpoint_from_row current_row);
      if negb (cs_version current =? expected_version) then
        pure (raise "CDCCheckpointVersionConflict" "CDC checkpoint expected another version")
      else
        _ ← pure (validate_transition {| ct_before := Some (cs_checkpoint current); ct_after := checkpoint; ct_gate := gate |});
        let next_version := cs_version current + 1 in
        n ← affected_rows (UpdateCheckpoint dataset_id expected_version
          {| kv_positions := checkpoint; kv_committed_dataset_run_id := dataset_run_id; kv_version := next_version;
             kv_updated_at := now |});
        if negb (Nat.eqb n 1) then
          pure (raise "CDCCheckpointVersionConflict" "CDC checkpoint changed concurrently")
        else
          pure (make_CDCCheckpointState
            {| cs_dataset_id := dataset_id; cs_checkpoint := checkpoint; cs_committed_dataset_run_id := dataset_run_id;
               cs_version := next_version |})
    end.

(** ** Evidence *)

Definition record_capture_receipt (receipt : CaptureReceipt) (now : datetime) : sql unit :=
  existing ← found (SelectReceipt (cr_capture_receipt_id receipt));
  if (existing : bool) then pure (raise "ValueError" "capture receipt is already recorded")
  else _ ← affected_rows (InsertReceipt {| ct_receipt := receipt; ct_created_at := now |}); mret tt.

Definition record_attempt_lineage (lineage : DatasetAttemptLineage) : sql unit :=
  existing ← found (SelectLineage (dal_dataset_run_id lineage));
  if (existing : bool) then pure (raise "ValueError" "attempt lineage already recorded")
  else _ ← affected_rows (InsertLineage lineage); mret tt.

(** The range column as a Python value. *)
Definition range_value (r : option (list (string * value))) : value := match r with Some l => VDict l | None => VNone end.

(** No key of [semantic] differs. *)
Definition same_semantics (existing request : ReprocessRequest) : bool :=
  String.eqb (rr_dataset_id existing) (rr_dataset_id request)
  && bool_decide (rr_run_mode existing = rr_run_mode request)
  && String.eqb (rr_reason existing) (rr_reason request)
  && String.eqb (rr_requested_by existing) (rr_requested_by request)
  && bool_decide (rr_original_pipeline_run_id existing = rr_original_pipeline_run_id request)
  && bool_decide (rr_original_dataset_run_id existing = rr_original_dataset_run_id request)
  && py_eqb (range_value (rr_range_json existing)) (range_value (rr_range_json request)).

Definition record_reprocess_request (request : ReprocessRequest) (now : datetime) : sql unit :=
  existing ← Stmt (SelectRequest (rr_reprocess_request_id request))
    (fun a => Done (match a with ARequest r => Ok r | _ => sql_error a end));
  match existing with
  | None => _ ← affected_rows (InsertRequest request); mret tt
  | Some existing =>
    if negb (same_semantics existing request) then
      pure (raise "ValueError" "reprocess request semantic identity cannot change")
    else
      _ ← affected_rows (UpdateRequest (rr_reprocess_request_id request) (rr_status request) (default now (rr_updated_at request)));
      mret tt
  end.

(** ** The tables of an execution *)

(** [after] drops no partition of [before] and moves none back. *)
Definition no_regress (before after : CDCCheckpoint) : Prop :=
  forall p v, position_for before p = Some v -> exists v', position_for after p = Some v' /\ zs_leb v v' = true.

Lemma no_regress_refl c : no_regress c c.
Proof. intros p v Hv. exists v. split; [done|apply zs_leb_refl]. Qed.

Lemma no_regress_trans a b c : no_regress a b -> no_regress b c -> no_regress a c.
Proof.
  intros Hab Hbc p v Hv. destruct (Hab p v Hv) as (v1 & H1 & L1). destruct (Hbc p v1 H1) as (v2 & H2 & L2).
  exists v2. split; [done|]. by eapply zs_leb_trans.
Qed.

(** A checkpoint row and the same row later: a version is one checkpoint, and versions move forward. *)
Definition advances (r r' : checkpoint_row) : Prop :=
  kr_version r <= kr_version r' /\ (kr_version r = kr_version r' -> r' = r) /\ no_regress (kr_positions r) (kr_positions r').

(** The columns of a request that identify what is requested. *)
Definition request_kept (r r' : ReprocessRequest) : Prop :=
  exists s u, r' = r \/ r' = set_request r s u.

Definition progress_inv (t : progress_tables) : Prop :=
  forall d r, pt_checkpoints t !! d = Some r -> kr_dataset_id r = d /\ 1 <= kr_version r.

Definition progress_later (t t' : progress_tables) : Prop :=
  (forall d r, pt_checkpoints t !! d = Some r -> exists r', pt_checkpoints t' !! d = Some r' /\ advances r r') /\
  (forall id r, pt_receipts t !! id = Some r -> pt_receipts t' !! id = Some r) /\
  (forall id l, pt_lineage t !! id = Some l -> pt_lineage t' !! id = Some l) /\
  (forall id r, pt_requests t !! id = Some r -> exists r', pt_requests t' !! id = Some r' /\ request_kept r r').

(** What a write of a checkpoint needs: it starts at version 1, or it continues the version it names. *)
Definition progress_wf (t : progress_tables) (q : statement) : Prop :=
  match q with
  | InsertCheckpoint r => kr_version r = 1
  | UpdateCheckpoint d version v =>
    kv_version v = version + 1 /\ exists r, pt_checkpoints t !! d = Some r /\ version <= kr_version r /\
      (kr_version r = version -> no_regress (kr_positions r) (kv_positions v))
  | _ => True
  end.

Lemma advances_refl r : advances r r.
Proof. split; [lia|]. split; [done|apply no_regress_refl]. Qed.

Lemma progress_advances_trans r1 r2 r3 : advances r1 r2 -> advances r2 r3 -> advances r1 r3.
Proof.
  intros (H1 & E1 & N1) (H2 & E2 & N2). split; [lia|]. split; [|by eapply no_regress_trans].
  intros Hv. rewrite E2 by lia. apply E1. lia.
Qed.

Lemma same_request_trans r1 r2 r3 : request_kept r1 r2 -> request_kept r2 r3 -> request_kept r1 r3.
Proof.
  intros (s & u & [->| ->]) (s' & u' & [->| ->]); [by exists s, u; left|by exists s', u'; right|by exists s, u; right|].
  exists s', u'. by right.
Qed.

Lemma progress_later_refl t : progress_later t t.
Proof.
  split_and!; [|done|done|].
  - intros d r Hr. exists r. split; [done|apply advances_refl].
  - intros id r Hr. exists r. split; [done|]. exists (rr_status r), (rr_created_at r). by left.
Qed.

Lemma progress_later_trans t1 t2 t3 : progress_later t1 t2 -> progress_later t2 t3 -> progress_later t1 t3.
Proof.
  intros (A1 & B1 & C1 & D1) (A2 & B2 & C2 & D2). split_and!; [|by auto..|].
  - intros d r (r1 & H1 & L1)%A1. destruct (A2 d r1 H1) as (r2 & H2 & L2). exists r2. split; [done|]. by eapply progress_advances_trans.
  - intros id r (r1 & H1 & L1)%D1. destruct (D2 id r1 H1) as (r2 & H2 & L2). exists r2. split; [done|]. by eapply same_request_trans.
Qed.

(** A new key of one table. *)
Lemma insert_later {V} (m : gmap N V) id v i r : m !! i = None -> m !! id = Some r -> <[i := v]> m !! id = Some r.
Proof. intros Hn Hr. rewrite lookup_insert_ne; [done|]. intros ->. congruence. Qed.

Lemma progress_exec_later t q : progress_wf t q -> progress_later t (exec_tables t q).2.
Proof.
  pose proof (progress_later_refl t) as (Hc & Hr & Hl & Hq). intros Hwf.
  destruct q as [d|r|d version v|id|r|id|l|id|r|id s u]; simpl in *; try apply progress_later_refl.
  - unfold insert_new. destruct (pt_checkpoints t !! kr_dataset_id r) eqn:E; [apply progress_later_refl|]. split_and!; [|done..].
    intros d r' Hr'. exists r'. split; [|apply advances_refl]. simpl. rewrite lookup_insert_ne; [done|]. intros <-. congruence.
  - destruct (pt_checkpoints t !! d) as [r|] eqn:E; [|apply progress_later_refl].
    destruct (kr_version r =? version) eqn:Ev; [|apply progress_later_refl]. apply Z.eqb_eq in Ev as <-. split_and!; [|done..].
    destruct Hwf as (Hv & r0 & Hr0 & _ & Hn). injection Hr0 as <-. specialize (Hn eq_refl).
    intros d' r' Hr'. simpl. destruct (decide (d = d')) as [<-|Hne]; [|rewrite lookup_insert_ne by done; eauto using advances_refl].
    rewrite lookup_insert_eq. eexists. split; [done|]. assert (r' = r) as -> by congruence. split; simpl; [lia|]. split; [lia|done].
  - unfold insert_new. destruct (pt_receipts t !! cr_capture_receipt_id (ct_receipt r)) eqn:E; [apply progress_later_refl|]. split_and!; [done| |done..].
    intros id r' Hr'. by apply insert_later.
  - unfold insert_new. destruct (pt_lineage t !! dal_dataset_run_id l) eqn:E; [apply progress_later_refl|]. split_and!; [done..| |done].
    intros id r' Hr'. by apply insert_later.
  - unfold insert_new. destruct (pt_requests t !! rr_reprocess_request_id r) eqn:E; [apply progress_later_refl|]. split_and!; [done..|].
    intros id r' (r1 & H1 & L1)%Hq. exists r1. split; [|done]. by apply insert_later.
  - destruct (pt_requests t !! id) as [r|] eqn:E; [|apply progress_later_refl]. split_and!; [done..|].
    intros id' r' Hr'. simpl. destruct (decide (id = id')) as [<-|Hne]; [|rewrite lookup_insert_ne by done; by apply Hq].
    rewrite lookup_insert_eq. eexists. split; [done|]. exists s, u. right. congruence.
Qed.

Lemma progress_exec_inv t q : progress_inv t -> progress_wf t q -> progress_inv (exec_tables t q).2.
Proof.
  intros Hinv Hwf. destruct q as [d|r|d version v|id|r|id|l|id|r|id s u]; simpl in *; try exact Hinv;
    try (unfold insert_new; by destruct (_ !! _)); try (by destruct (_ !! _)).
  - unfold insert_new. destruct (_ !! _); [done|]. intros d r'. simpl. rewrite lookup_insert_Some.
    intros [[<- <-]|[_ Hr']]; [split; [done|lia]|by apply Hinv].
  - destruct (pt_checkpoints t !! d) as [r|] eqn:E; [|done]. destruct (kr_version r =? version) eqn:Ev; [|done].
    destruct Hwf as (Hv & _). destruct (Hinv d r E) as [Hd H1]. intros d' r'. simpl. rewrite lookup_insert_Some.
    intros [[<- <-]|[_ Hr']]; [simpl; split; [done|lia]|by apply Hinv].
Qed.

#[export] Instance progress_state : SharedState documented progress_inv progress_later progress_wf.
Proof.
  split.
  - apply progress_later_refl.
  - apply progress_later_trans.
  - intros t q a t' _ Hwf [a' _|_|t2 [->| ->]]; first [by apply progress_exec_later|apply progress_later_refl].
  - intros t q a t' Hinv Hwf [a' _|_|t2 [->| ->]]; try done; by apply progress_exec_inv.
  - intros t t' q Hl. destruct q; try done. simpl. intros (Hv & r & Hr & Hle & Hn).
    destruct (proj1 Hl _ _ Hr) as (r' & Hr' & Hver & Heq & Hnr). split; [done|]. exists r'. split; [done|]. split; [lia|].
    intros E. rewrite Heq by lia. apply Hn. lia.
Qed.

(** ** The calls *)

#[local] Notation psafe := (safe documented progress_inv progress_later progress_wf).
Ltac pbind := eapply (safe_returns_bind documented progress_inv progress_later progress_wf).

(** The recorded checkpoint of a dataset has at least this version, and is this one if it has just it. *)
Definition committed (st : CDCCheckpointState) (t : progress_tables) : Prop :=
  exists r, pt_checkpoints t !! cs_dataset_id st = Some r /\ cs_version st <= kr_version r /\
    (kr_version r = cs_version st ->
       kr_positions r = cs_checkpoint st /\ kr_committed_dataset_run_id r = cs_committed_dataset_run_id st) /\
    no_regress (cs_checkpoint st) (kr_positions r).

Lemma committed_later t t' st : progress_later t t' -> committed st t -> committed st t'.
Proof.
  intros Hl (r & Hr & Hv & He & Hn). destruct (proj1 Hl _ _ Hr) as (r' & Hr' & Hv' & He' & Hn').
  exists r'. split; [done|]. split; [lia|]. split; [|by eapply no_regress_trans].
  intros E. rewrite He' by lia. apply He. lia.
Qed.

(** A row that was read says what is recorded. *)
Definition row_committed (d : string) (row : checkpoint_row) : CDCCheckpointState :=
  {| cs_dataset_id := d; cs_checkpoint := kr_positions row;
     cs_committed_dataset_run_id := kr_committed_dataset_run_id row; cs_version := kr_version row |}.

Lemma select_checkpoint_safe d t :
  psafe (returns (fun t' row => match row with
    | Some row => kr_dataset_id row = d /\ 1 <= kr_version row /\ committed (row_committed d row) t'
    | None => True end)) (select_checkpoint d) t.
Proof.
  split; [done|]. intros t1 a t2 Hl Hinv Hex. destruct Hex as [a Hd|Hw|t' Ht']; [|done|done].
  cbn [exec_tables fst snd] in *. inversion Hd as [row row' Hopt| | | |]; subst. simpl. destruct row' as [row'|]; [|done].
  inversion Hopt as [r0 ? Hread Hr0|]; subst. destruct Hread as (c & u & _ & _ & ->). symmetry in Hr0.
  destruct (Hinv _ _ Hr0) as [Hd' Hv]. split; [done|]. split; [done|]. exists r0. simpl. split; [done|]. split; [lia|].
  split; [done|apply no_regress_refl].
Qed.

Lemma rowcount_safe (P : progress_tables -> nat -> Prop) q t :
  progress_wf t q ->
  (forall t1, progress_later t t1 -> progress_inv t1 ->
     match (exec_tables t1 q).1 with ARowcount n => P (exec_tables t1 q).2 n | _ => True end) ->
  psafe (returns P) (affected_rows q) t.
Proof.
  intros Hwf HP. split; [done|]. intros t1 a t2 Hl Hinv Hex. destruct Hex as [a Hd|Hw|t' Ht']; [|done|done].
  specialize (HP t1 Hl Hinv). destruct Hd; simpl; try done.
Qed.

Lemma pure_safe {A} (P : progress_tables -> A -> Prop) (r : res A) t :
  (forall a, r = Ok a -> P t a) -> psafe (returns P) (pure r) t.
Proof. apply safe_returns_pure. Qed.

(** What the transition of a commit says of the two checkpoints. *)
Lemma validate_transition_no_regress before after gate :
  validate_transition {| ct_before := Some before; ct_after := after; ct_gate := gate |} = Ok tt -> no_regress before after.
Proof.
  unfold validate_transition. simpl. intros ([] & Hn & _)%bind_Ok p v Hv. by eapply check_no_regress_Ok.
Qed.

Lemma checkpoint_from_row_Ok row st :
  _checkpoint_from_row row = Ok st -> cs_checkpoint st = kr_positions row /\ cs_version st = kr_version row.
Proof.
  unfold _checkpoint_from_row, make_CDCCheckpointState. intros (us & _ & (u & _ & H)%bind_Ok)%bind_Ok.
  destruct (_ || _); [done|]. by injection H as <-.
Qed.

Lemma commit_safe d checkpoint run expected gate now t :
  psafe (returns (fun t' st => cs_dataset_id st = d /\ cs_checkpoint st = checkpoint /\
    cs_committed_dataset_run_id st = run /\ cs_version st = expected + 1 /\ committed st t'))
    (commit_cdc_checkpoint d checkpoint run expected gate now) t.
Proof.
  unfold commit_cdc_checkpoint. destruct (expected <? 0) eqn:Ee; [done|].
  pbind; [apply select_checkpoint_safe|]. intros t1 [row|] Hl1 Hrow; simpl in Hrow.
  - destruct Hrow as (Hd & Hv1 & Hrec). pbind; [apply (pure_safe (fun _ st => _checkpoint_from_row row = Ok st)); done|].
    intros t2 current Hl2 Hcur. apply checkpoint_from_row_Ok in Hcur as [Hpos Hver].
    destruct (cs_version current =? expected) eqn:Ev; cbn [negb]; [|done]. apply Z.eqb_eq in Ev.
    pbind; [apply (pure_safe (fun _ _ => no_regress (kr_positions row) checkpoint)); intros [] Ht; rewrite Hpos in Ht; by apply validate_transition_no_regress in Ht|].
    intros t3 [] Hl3 Hnr. cbn zeta.
    assert (committed (row_committed d row) t3) as (r3 & Hr3 & Hle3 & Heq3 & _).
    { eapply committed_later; [eapply progress_later_trans; [exact Hl2|exact Hl3]|exact Hrec]. }
    simpl in Hr3, Hle3, Heq3.
    pbind.
    { apply (rowcount_safe (fun t' n => n = 1%nat -> committed {| cs_dataset_id := d; cs_checkpoint := checkpoint;
        cs_committed_dataset_run_id := run; cs_version := cs_version current + 1 |} t')).
      - split; [simpl; lia|]. exists r3. split; [done|]. split; [lia|]. intros E. simpl. destruct Heq3 as [-> _]; [lia|done].
      - intros t4 _ _. simpl. destruct (pt_checkpoints t4 !! d) as [r4|] eqn:E4; [|done].
        destruct (kr_version r4 =? expected) eqn:E5; [|done]. intros _. eexists. simpl. rewrite lookup_insert_eq. split; [done|].
        simpl. split; [lia|]. split; [done|apply no_regress_refl]. }
    intros t4 n Hl4 Hn. destruct (Nat.eqb n 1) eqn:En; cbn [negb]; [|done]. apply Nat.eqb_eq in En. specialize (Hn En).
    apply pure_safe. unfold make_CDCCheckpointState. intros st. destruct (_ || _); [done|]. intros [= <-]. simpl. split_and!; [done..|lia|done].
  - destruct (expected =? 0) eqn:E0; cbn [negb]; [|done]. apply Z.eqb_eq in E0.
    pbind; [apply (pure_safe (fun _ _ => True)); done|]. intros t2 [] Hl2 _.
    pbind; [apply (pure_safe (fun _ st => st = {| cs_dataset_id := d; cs_checkpoint := checkpoint; cs_committed_dataset_run_id := run; cs_version := 1 |}));
      unfold make_CDCCheckpointState; intros st; destruct (_ || _); [done|]; by intros [= <-]|].
    intros t3 st Hl3 ->.
    pbind.
    { apply (rowcount_safe (fun t' _ => committed {| cs_dataset_id := d; cs_checkpoint := checkpoint;
        cs_committed_dataset_run_id := run; cs_version := 1 |} t')); [done|].
      intros t4 _ _. simpl. unfold insert_new. simpl. destruct (pt_checkpoints t4 !! d) as [r4|] eqn:E4; [done|]. simpl.
      eexists. simpl. rewrite lookup_insert_eq. split; [done|]. simpl. split; [lia|]. split; [done|apply no_regress_refl]. }
    intros t4 n Hl4 Hcom. simpl. split_and!; [done..|lia|done].
Qed.

(** A call of the file, and its result. *)
Inductive call :=
| CommitCheckpoint (dataset_id : string) (checkpoint : CDCCheckpoint) (run : N) (expected_version : Z)
    (gate : StateCommitGate) (now : datetime)
| ReadCheckpoint (dataset_id : string)
| RecordReceipt (receipt : CaptureReceipt) (now : datetime)
| RecordLineage (lineage : DatasetAttemptLineage)
| RecordRequest (request : ReprocessRequest) (now : datetime).

Definition progress_program (c : call) : sql (option CDCCheckpointState) :=
  match c with
  | CommitCheckpoint d checkpoint run expected gate now =>
    st ← commit_cdc_checkpoint d checkpoint run expected gate now; mret (Some st)
  | ReadCheckpoint d => read_cdc_checkpoint d
  | RecordReceipt receipt now => _ ← record_capture_receipt receipt now; mret None
  | RecordLineage lineage => _ ← record_attempt_lineage lineage; mret None
  | RecordRequest request now => _ ← record_reprocess_request request now; mret None
  end.

(** What a call that returned has recorded. *)
Definition recorded (c : call) (t : progress_tables) (r : option CDCCheckpointState) : Prop :=
  match c with
  | CommitCheckpoint d checkpoint run expected _ _ =>
    exists st, r = Some st /\ cs_dataset_id st = d /\ cs_checkpoint st = checkpoint /\
      cs_committed_dataset_run_id st = run /\ cs_version st = expected + 1 /\ committed st t
  | ReadCheckpoint d => forall st, r = Some st -> cs_dataset_id st = d /\ committed st t
  | RecordReceipt receipt now =>
    pt_receipts t !! cr_capture_receipt_id receipt = Some {| ct_receipt := receipt; ct_created_at := now |}
  | RecordLineage lineage => pt_lineage t !! dal_dataset_run_id lineage = Some lineage
  | RecordRequest request _ => exists r0, pt_requests t !! rr_reprocess_request_id request = Some r0 /\ same_semantics r0 request = true
  end.

Lemma same_semantics_same r r' request : request_kept r r' -> same_semantics r' request = same_semantics r request.
Proof. by intros (s & u & [->| ->]). Qed.

Lemma same_semantics_refl r : same_semantics r r = true.
Proof. unfold same_semantics. by rewrite !String.eqb_refl, !bool_decide_true, py_eqb_refl. Qed.

Lemma progress_recorded_later c t t' r : progress_later t t' -> recorded c t r -> recorded c t' r.
Proof.
  intros Hl. destruct c; simpl.
  - intros (st & -> & H1 & H2 & H3 & H4 & H5). exists st. split_and!; try done. by eapply committed_later.
  - intros Hr st E. destruct (Hr st E) as [Hd Hc]. split; [done|]. by eapply committed_later.
  - apply Hl.
  - apply Hl.
  - intros (r0 & Hr0 & Hs). destruct (proj2 (proj2 (proj2 Hl)) _ _ Hr0) as (r1 & Hr1 & Hsame). exists r1. split; [done|].
    by rewrite (same_semantics_same _ _ _ Hsame).
Qed.

Lemma found_safe q t : (forall t1, progress_wf t1 q) -> psafe (returns (fun _ _ => True)) (found q) t.
Proof. intros Hwf. split; [done|]. intros t1 a t2 _ _ _. by destruct a. Qed.

Lemma progress_insert_safe {V} (q : statement) (m : progress_tables -> gmap N V) (k : N) (v : V) t :
  (forall t1, progress_wf t1 q) ->
  (forall t1, exec_tables t1 q = (AIntegrityError, t1) \/ m (exec_tables t1 q).2 !! k = Some v) ->
  psafe (returns (fun t' (_ : nat) => m t' !! k = Some v)) (affected_rows q) t.
Proof.
  intros Hwf Hex. apply rowcount_safe; [done|]. intros t1 _ _. destruct (Hex t1) as [->|E]; [done|]. by destruct (exec_tables t1 q).1.
Qed.

Lemma receipt_safe receipt now t :
  psafe (returns (fun t' _ => recorded (RecordReceipt receipt now) t' None)) (record_capture_receipt receipt now) t.
Proof.
  unfold record_capture_receipt. pbind; [by apply found_safe|]. intros t1 [] Hl1 _; [done|]. pbind.
  - apply (progress_insert_safe _ pt_receipts (cr_capture_receipt_id receipt) {| ct_receipt := receipt; ct_created_at := now |}); [done|].
    intros t2. simpl. unfold insert_new. destruct (_ !! _); [by left|right]. simpl. by rewrite lookup_insert_eq.
  - intros t2 n Hl2 Hr. exact Hr.
Qed.

Lemma lineage_safe lineage t :
  psafe (returns (fun t' _ => recorded (RecordLineage lineage) t' None)) (record_attempt_lineage lineage) t.
Proof.
  unfold record_attempt_lineage. pbind; [by apply found_safe|]. intros t1 [] Hl1 _; [done|]. pbind.
  - apply (progress_insert_safe _ pt_lineage (dal_dataset_run_id lineage) lineage); [done|].
    intros t2. simpl. unfold insert_new. destruct (_ !! _); [by left|right]. simpl. by rewrite lookup_insert_eq.
  - intros t2 n Hl2 Hr. exact Hr.
Qed.

Lemma select_request_safe request t :
  psafe (returns (fun t' row => match row with
    | Some r => exists r0, pt_requests t' !! rr_reprocess_request_id request = Some r0 /\
        same_semantics r0 request = same_semantics r request
    | None => True end))
    (Stmt (SelectRequest (rr_reprocess_request_id request)) (fun a => Done (match a with ARequest r => Ok r | _ => sql_error a end))) t.
Proof.
  split; [done|]. intros t1 a t2 _ _ Hex. destruct Hex as [a Hd|Hw|t' Ht']; [|done|done]. cbn [exec_tables fst snd] in *.
  inversion Hd as [|r r' Hopt| | |]; subst. simpl. destruct r' as [r'|]; [|done]. inversion Hopt as [r0 ? Hread Hr0|]; subst.
  exists r0. split; [done|]. destruct Hread as (c & u & _ & _ & ->). done.
Qed.

Lemma request_safe request now t :
  psafe (returns (fun t' _ => recorded (RecordRequest request now) t' None)) (record_reprocess_request request now) t.
Proof.
  unfold record_reprocess_request. pbind; [apply select_request_safe|]. intros t1 [existing|] Hl1 Hrow.
  - destruct Hrow as (r0 & Hr0 & Hsame). destruct (same_semantics existing request) eqn:Es; cbn [negb]; [|done]. pbind.
    + apply (rowcount_safe (fun t' _ => recorded (RecordRequest request now) t' None)); [done|].
      intros t2 Hl2 _. destruct (proj2 (proj2 (proj2 Hl2)) _ _ Hr0) as (r1 & Hr1 & Hs1). cbn [exec_tables]. rewrite Hr1. cbn [fst snd].
      exists (set_request r1 (rr_status request) (default now (rr_updated_at request))). cbn [pt_requests with_requests].
      rewrite lookup_insert_eq. split; [done|].
      change (same_semantics r1 request = true). by rewrite (same_semantics_same _ _ request Hs1).
    + intros t2 n Hl2 Hr. exact Hr.
  - pbind.
    + apply (progress_insert_safe _ pt_requests (rr_reprocess_request_id request) request); [done|].
      intros t2. simpl. unfold insert_new. destruct (_ !! _); [by left|right]. simpl. by rewrite lookup_insert_eq.
    + intros t2 n Hl2 Hr. exists request. split; [exact Hr|apply same_semantics_refl].
Qed.

Lemma call_safe c t : psafe (returns (recorded c)) (progress_program c) t.
Proof.
  destruct c as [d checkpoint run expected gate now|d|receipt now|lineage|request now]; cbn [progress_program].
  - pbind; [apply commit_safe|]. intros t1 st _ (H1 & H2 & H3 & H4 & H5). exists st. by split_and!.
  - unfold read_cdc_checkpoint. pbind; [apply select_checkpoint_safe|]. intros t1 [row|] Hl1 Hrow; [|by intros st].
    destruct Hrow as (Hd & Hv & Hrec). pbind; [apply (pure_safe (fun t' st => cs_dataset_id st = d /\ committed st t'))|].
    + intros st Hst. unfold _checkpoint_from_row, make_CDCCheckpointState in Hst.
      apply bind_Ok in Hst as (us & _ & (u & _ & H)%bind_Ok). destruct (_ || _); [done|]. injection H as <-.
      simpl. split; [done|]. unfold row_committed in Hrec. by rewrite Hd.
    + intros t2 st Hl2 Hst. simpl. intros st' [= <-]. exact Hst.
  - pbind; [apply receipt_safe|]. intros t1 u _ Hr. exact Hr.
  - pbind; [apply lineage_safe|]. intros t1 u _ Hr. exact Hr.
  - pbind; [apply request_safe|]. intros t1 u _ Hr. exact Hr.
Qed.

(** ** What a commit has written *)

(** The statement writes version [version] of the checkpoint of [d] for the run [run]. *)
Definition writes_version (q : statement) (d : string) (version : Z) (run : N) : Prop :=
  match q with
  | InsertCheckpoint r => kr_dataset_id r = d /\ version = 1 /\ kr_committed_dataset_run_id r = run
  | UpdateCheckpoint d' expected v => d' = d /\ version = expected + 1 /\ kv_committed_dataset_run_id v = run
  | _ => False
  end.

(** A commit that returned wrote its version, and changed the checkpoint only behind an open gate. *)
Lemma commit_path d checkpoint run expected gate now tr st :
  path (commit_cdc_checkpoint d checkpoint run expected gate now) tr (Ok st) ->
  0 <= expected /\ (exists q n, (q, ARowcount n) ∈ tr /\ writes_version q d (expected + 1) run /\ (n = 1%nat \/ exists r, q = InsertCheckpoint r)) /\
  (can_advance_state gate = true \/
   exists row, (SelectCheckpoint d, ACheckpoint (Some row)) ∈ tr /\ kr_positions row = checkpoint).
Proof.
  unfold commit_cdc_checkpoint. destruct (expected <? 0) eqn:Ee; [intros H; by inversion H|].
  intros [(e & _ & He)|(tr1 & row & tr2 & -> & Hsel & Hp)]%path_bind; [done|]. split; [lia|].
  assert (exists a, tr1 = [(SelectCheckpoint d, a)] /\ a = ACheckpoint row) as (a & -> & ->).
  { inversion Hsel as [|q k a tr' r Hk]; subst. inversion Hk as [r Hr|]; subst. exists a. split; [done|].
    destruct a; simpl in *; try done; by simplify_eq. }
  assert (Hgate : forall before, validate_transition {| ct_before := before; ct_after := checkpoint; ct_gate := gate |} = Ok tt ->
    can_advance_state gate = true \/ before = Some checkpoint).
  { intros before Hv. unfold validate_transition in Hv. simpl in Hv. apply bind_Ok in Hv as ([] & _ & Hv).
    destruct (can_advance_state gate) eqn:Eg; [by left|right]. rewrite andb_true_r in Hv. destruct before as [b|]; [|done].
    case_bool_decide as E; [by rewrite E|done]. }
  assert (Hrow : forall q r, path (affected_rows q) r (Ok 1%nat) -> (q, ARowcount 1) ∈ r).
  { intros q r H. inversion H as [|q' k a tr' r' Hk]; subst. inversion Hk as [r' Hr|]; subst. destruct a; simpl in *; try done; simplify_eq. left. }
  destruct row as [row|].
  - apply path_bind in Hp as [(e & _ & He)|(tr3 & current & tr4 & -> & Hc & Hp)]; [done|].
    inversion Hc as [r Hr|]; subst. destruct (checkpoint_from_row_Ok row current) as [Hpos Hver]; [by simplify_eq|].
    destruct (cs_version current =? expected) eqn:Ev; cbn [negb] in Hp; [|by inversion Hp].
    apply path_bind in Hp as [(e & _ & He)|(tr5 & [] & tr6 & -> & Ht & Hp)]; [done|]. inversion Ht as [r Hr'|]; subst.
    cbn zeta in Hp. apply path_bind in Hp as [(e & _ & He)|(tr7 & n & tr8 & -> & Hu & Hp)]; [done|].
    destruct (Nat.eqb n 1) eqn:En; cbn [negb] in Hp; [|by inversion Hp]. apply Nat.eqb_eq in En as ->. apply Hrow in Hu.
    split.
    + eexists _, 1%nat. cbn [app]. split; [apply elem_of_cons; right; apply elem_of_app; left; exact Hu|]. split; [|by left]. simpl. done.
    + destruct (Hgate _ ltac:(eassumption)) as [Hg|Hg]; [by left|right]. exists row. split; [left|]. rewrite <-Hpos. congruence.
  - destruct (expected =? 0) eqn:E0; cbn [negb] in Hp; [|by inversion Hp]. apply Z.eqb_eq in E0 as ->.
    apply path_bind in Hp as [(e & _ & He)|(tr3 & [] & tr4 & -> & Ht & Hp)]; [done|]. inversion Ht as [r Hr'|]; subst.
    apply path_bind in Hp as [(e & _ & He)|(tr5 & st' & tr6 & -> & _ & Hp)]; [done|].
    apply path_bind in Hp as [(e & _ & He)|(tr7 & n & tr8 & -> & Hu & Hp)]; [done|]. split.
    + inversion Hu as [|q k a tr' r Hk]; subst. inversion Hk as [r Hr|]; subst. destruct a; simpl in *; try done; simplify_eq.
      eexists _, _. cbn [app]. split; [apply elem_of_cons; right; apply elem_of_app; right; left|]. split; [done|right; by eexists].
    + left. destruct (Hgate _ ltac:(eassumption)) as [Hg|Hg]; [done|discriminate].
Qed.

(** ** Properties *)

Section properties.
Context {St : Type} `{LawfulDatabase statement answer St progress_tables documented}.

Lemma progress_pool calls (s s' : St) trace pool' :
  progress_inv (view s) -> pool_run db_exec (progress_program <$> calls) s trace pool' s' ->
  pool_run documented (progress_program <$> calls) (view s) trace pool' (view s') /\
  Forall (stable progress_later) ((fun c => returns (recorded c)) <$> calls) /\
  Forall2 (fun post p => psafe post p (view s)) ((fun c => returns (recorded c)) <$> calls) (progress_program <$> calls) /\
  progress_inv (view s') /\ progress_later (view s) (view s') /\
  Forall2 (fun c p => psafe (returns (recorded c)) p (view s')) calls pool'.
Proof.
  intros Hinv Hrun%(database_refines documented). split; [done|].
  assert (Hst : Forall (stable progress_later) ((fun c => returns (recorded c)) <$> calls)).
  { apply Forall_fmap, Forall_true. intros c t t' [a|e] Hl; [by apply progress_recorded_later|done]. }
  assert (Hsafe : Forall2 (fun post p => psafe post p (view s)) ((fun c => returns (recorded c)) <$> calls) (progress_program <$> calls)).
  { apply Forall2_fmap. clear. induction calls; constructor; [apply call_safe|done]. }
  destruct (pool_safe documented progress_inv progress_later progress_wf _ _ _ _ _ _ Hst Hinv Hsafe Hrun) as (H1 & H2 & H3).
  split_and!; try done. by apply Forall2_fmap_l in H3.
Qed.

(** Of two writes of one version of a dataset, the second does not count a row. *)
Lemma version_written_once calls (s s' : St) pool' tr1 tr2 tr3 q1 q2 d v run1 run2 :
  progress_inv (view s) ->
  pool_run db_exec (progress_program <$> calls) s (tr1 ++ (q1, ARowcount 1) :: tr2 ++ (q2, ARowcount 1) :: tr3) pool' s' ->
  writes_version q1 d v run1 -> writes_version q2 d v run2 -> False.
Proof.
  intros Hinv Hrun Hw1 Hw2. destruct (progress_pool _ _ _ _ _ Hinv Hrun) as (Hd & Hst & Hsafe & _).
  assert (tr1 ++ (q1, ARowcount 1) :: tr2 ++ (q2, ARowcount 1) :: tr3 = (tr1 ++ (q1, ARowcount 1) :: tr2) ++ (q2, ARowcount 1) :: tr3) as Heq
    by (by rewrite <-app_assoc). rewrite Heq in Hd.
  destruct (pool_run_split _ _ _ _ _ _ _ _ Hd) as (pool1 & u & pool2 & u2 & Hpre & Hex & _). simpl in Hex.
  destruct (pool_statement documented progress_inv progress_later progress_wf _ _ _ _ _ _ _ _ _ Hst Hinv Hsafe Hpre)
    as (t1 & t2 & _ & _ & Hwf & Hex1 & Hl).
  assert (exists r, pt_checkpoints t2 !! d = Some r /\ kr_version r = v) as (r & Hr & Hv).
  { inversion Hex1 as [a Hdrv Ha| |]; subst.
    destruct q1; simpl in Hw1; try done; simpl in *.
    - destruct Hw1 as (<- & -> & _). unfold insert_new in *. destruct (pt_checkpoints t1 !! kr_dataset_id r); [by inversion Hdrv|].
      exists r. simpl. by rewrite lookup_insert_eq.
    - destruct Hw1 as (-> & -> & _). destruct (pt_checkpoints t1 !! d) as [r|]; [|by inversion Hdrv].
      destruct (kr_version r =? version); [|by inversion Hdrv]. eexists. simpl. rewrite lookup_insert_eq. split; [done|]. simpl. apply Hwf. }
  destruct (proj1 Hl _ _ Hr) as (r' & Hr' & Hle & _). rewrite Hv in Hle.
  inversion Hex as [a Hdrv Ha| |]; subst. destruct q2; simpl in Hw2; try done; simpl in *.
  - destruct Hw2 as (<- & _). unfold insert_new in Hdrv. rewrite Hr' in Hdrv. by inversion Hdrv.
  - destruct Hw2 as (-> & E & _). rewrite Hr' in Hdrv. destruct (kr_version r' =? version) eqn:Ev; [|by inversion Hdrv]. lia.
Qed.

(** An INSERT that is answered with a row count has inserted its row. *)
Lemma trace_documented calls (s s' : St) pool' trace q n :
  progress_inv (view s) -> pool_run db_exec (progress_program <$> calls) s trace pool' s' -> (q, ARowcount n) ∈ trace ->
  (exists r, q = InsertCheckpoint r) -> n = 1%nat.
Proof.
  intros Hinv Hrun (tr1 & tr2 & ->)%list_elem_of_split [r ->]. destruct (progress_pool _ _ _ _ _ Hinv Hrun) as (Hd & _).
  destruct (pool_run_split _ _ _ _ _ _ _ _ Hd) as (_ & u & _ & u2 & _ & Hex & _). simpl in Hex. inversion Hex as [a Hdrv| |]; subst. simpl in Hdrv.
  unfold insert_new in Hdrv. destruct (_ !! _); simpl in Hdrv; by inversion Hdrv.
Qed.

(** C29. However the calls interleave on a lawful database, statements failing with unknown outcome included:
    the checkpoint of a dataset only moves forward, no partition is dropped or moved back, and a version is one
    checkpoint; a commit that returned has recorded the version after the expected one, behind an open gate
    unless it kept the positions it had read; of the calls that commit one version of a dataset at most one run
    returns; receipts, lineage and the identity of reprocess requests never change once they are recorded. *)
Theorem checkpoint_commits_governed calls (s s' : St) trace pool' :
  progress_inv (view s) -> pool_run db_exec (progress_program <$> calls) s trace pool' s' ->
  progress_later (view s) (view s') /\
  (forall i c r, calls !! i = Some c -> pool' !! i = Some (Done (Ok r)) -> recorded c (view s') r) /\
  (forall i d checkpoint run expected gate now r, calls !! i = Some (CommitCheckpoint d checkpoint run expected gate now) ->
     pool' !! i = Some (Done (Ok r)) -> 0 <= expected /\ (can_advance_state gate = true \/
       exists row, (SelectCheckpoint d, ACheckpoint (Some row)) ∈ trace /\ kr_positions row = checkpoint)) /\
  (forall i j d c1 c2 run1 run2 expected g1 g2 n1 n2 r1 r2,
     calls !! i = Some (CommitCheckpoint d c1 run1 expected g1 n1) -> calls !! j = Some (CommitCheckpoint d c2 run2 expected g2 n2) ->
     pool' !! i = Some (Done (Ok r1)) -> pool' !! j = Some (Done (Ok r2)) -> run1 = run2).
Proof.
  intros Hinv Hrun. destruct (progress_pool _ _ _ _ _ Hinv Hrun) as (Hd & _ & _ & _ & Hl & Hsafe).
  assert (Hcommit : forall i d checkpoint run expected gate now r, calls !! i = Some (CommitCheckpoint d checkpoint run expected gate now) ->
    pool' !! i = Some (Done (Ok r)) -> 0 <= expected /\
    (exists q, (q, ARowcount 1) ∈ trace /\ writes_version q d (expected + 1) run) /\
    (can_advance_state gate = true \/ exists row, (SelectCheckpoint d, ACheckpoint (Some row)) ∈ trace /\ kr_positions row = checkpoint)).
  { intros i d checkpoint run expected gate now r Hi Hi'.
    destruct (pool_run_path _ _ _ _ _ _ i (progress_program (CommitCheckpoint d checkpoint run expected gate now)) (Ok r) Hd) as (tr & Hp & Hsub);
      [by rewrite list_lookup_fmap, Hi|done|]. cbn [progress_program] in Hp.
    apply path_bind in Hp as [(e & _ & He)|(tr1 & st & tr2 & -> & Hp & Hq)]; [done|].
    destruct (commit_path _ _ _ _ _ _ _ _ Hp) as (Hexp & (q & n & Hq1 & Hw & Hn) & Hg).
    assert (Hin : forall x, x ∈ tr1 -> x ∈ trace) by (intros x Hx; eapply elem_of_sublist; [|exact Hsub]; apply elem_of_app; by left).
    split; [done|]. split; [|destruct Hg as [Hg|(row & Hr & Hp')]; [by left|right; exists row; split; [by apply Hin|done]]].
    exists q. split; [|done]. destruct Hn as [->|Hins]; [by apply Hin|].
    assert (n = 1%nat) as -> by (eapply (trace_documented calls s s' pool' trace q); [done|done|by apply Hin|done]). by apply Hin. }
  split; [done|]. split; [|split].
  - intros i c r Hi Hi'. exact (Forall2_lookup_lr _ _ _ _ _ _ Hsafe Hi Hi').
  - intros i d checkpoint run expected gate now r Hi Hi'. destruct (Hcommit _ _ _ _ _ _ _ _ Hi Hi') as (Hexp & _ & Hg). done.
  - intros i j d c1 c2 run1 run2 expected g1 g2 n1 n2 r1 r2 Hi Hj Hi' Hj'.
    destruct (Hcommit _ _ _ _ _ _ _ _ Hi Hi') as (_ & (q1 & Hin1 & Hw1) & _).
    destruct (Hcommit _ _ _ _ _ _ _ _ Hj Hj') as (_ & (q2 & Hin2 & Hw2) & _).
    destruct (decide (run1 = run2)) as [|Hne]; [done|]. exfalso.
    assert (q1 <> q2) as Hq by (intros <-; destruct q1; simpl in *; naive_solver).
    apply list_elem_of_split in Hin1 as (tr1 & tr2 & ->). apply elem_of_app in Hin2 as [Hin2|[Hin2|Hin2]%elem_of_cons].
    + apply list_elem_of_split in Hin2 as (tr3 & tr4 & ->). rewrite <-app_assoc in Hrun. simpl in Hrun.
      eapply (version_written_once calls s s' pool' tr3 tr4 tr2 q2 q1 d (expected + 1)); eauto.
    + congruence.
    + apply list_elem_of_split in Hin2 as (tr3 & tr4 & ->).
      eapply (version_written_once calls s s' pool' tr1 tr3 tr4 q1 q2 d (expected + 1)); eauto.
Qed.
End properties.

(** ** Witnesses *)

Module Demo.

Definition memory : Database statement answer progress_tables progress_tables :=
  {| view := id; db_exec := fun t q a t' => exec_tables t q = (a, t') |}.

Lemma progress_memory_lawful : @LawfulDatabase _ _ _ _ documented memory.
Proof.
  intros t q a t'. simpl. intros E. assert (driver (exec_tables t q).1 (exec_tables t q).1) as Hd.
  { clear E. assert (forall d, read_datetime d d) as Hr by (by left).
    assert (forall o, option_Forall2 read_datetime o o) as Ho by (intros [d|]; constructor; apply Hr).
    assert (forall r, read_checkpoint r r) as Hc by (intros r; exists (kr_created_at r), (kr_updated_at r); by destruct r).
    assert (forall r, read_request r r) as Hq by (intros r; exists (rr_created_at r), (rr_updated_at r); by destruct r).
    destruct q; simpl; unfold insert_new; repeat (case_match; simpl); try constructor;
      try (destruct (pt_checkpoints t !! dataset_id); constructor; apply Hc); destruct (pt_requests t !! id); constructor; apply Hq. }
  pose proof (doc_answered t q _ Hd) as H. by rewrite E in H.
Qed.

Definition no_progress : progress_tables := {| pt_checkpoints := ∅; pt_receipts := ∅; pt_lineage := ∅; pt_requests := ∅ |}.

Definition at_offset (z : Z) : CDCCheckpoint := [{| sp_partition := "t:0"; sp_values := [z] |}].

(** Two runs commit the first version, a third continues from it, a fourth would go back. *)
Definition calls : list call :=
  [CommitCheckpoint "orders" (at_offset 5) 1 0 open_gate (utc 10); CommitCheckpoint "orders" (at_offset 7) 2 0 open_gate (utc 11);
   CommitCheckpoint "orders" (at_offset 9) 3 1 open_gate (utc 12); CommitCheckpoint "orders" (at_offset 4) 4 1 open_gate (utc 13)].

(** The first two read before either writes. *)
Definition schedule : list nat := [0; 1; 1; 0; 2; 2; 3]%nat.
Definition final : list (sql (option CDCCheckpointState)) * progress_tables :=
  run_schedule exec_tables schedule (progress_program <$> calls) no_progress.

Definition outcome (p : sql (option CDCCheckpointState)) : option (res Z) :=
  match p with Done (Ok (Some st)) => Some (Ok (cs_version st)) | Done (Raise e) => Some (Raise e) | _ => None end.

Lemma outcomes : map outcome final.1 =
  [Some (raise "IntegrityError" ""); Some (Ok 1); Some (Ok 2); Some (raise "CDCCheckpointVersionConflict" "CDC checkpoint expected another version")].
Proof. vm_compute. reflexivity. Qed.

Lemma final_row : kr_positions <$> pt_checkpoints final.2 !! "orders" = Some (at_offset 9).
Proof. vm_compute. reflexivity. Qed.

Lemma checkpoint_commits_governed_witness :
  exists trace, @pool_run _ _ _ _ (@db_exec _ _ _ _ memory) (progress_program <$> calls) no_progress trace final.1 final.2 /\
    progress_later no_progress final.2 /\ kr_positions <$> pt_checkpoints final.2 !! "orders" = Some (at_offset 9).
Proof.
  destruct (run_schedule_sound exec_tables schedule (progress_program <$> calls) no_progress) as [trace Hrun].
  exists trace. split; [exact Hrun|]. split; [|exact final_row].
  destruct (@checkpoint_commits_governed progress_tables memory progress_memory_lawful calls no_progress final.2 trace final.1) as [Hl _];
    [|exact Hrun|exact Hl].
  intros d r Hr. simpl in Hr. by rewrite lookup_empty in Hr.
Defined.
End Demo.
