(* ===== verification/ProjectionRun.v ===== *)
(** * Current projection runs ([execution/current_projection.py],
    [contracts/current_projection_execution.py], [contracts/current_projection.py])

    A run projects a range of committed history versions into the current target and then commits
    the upper version as its checkpoint, under the exclusive lease of the dataset.  Target and
    checkpoint do not share a transaction.  The control plane and the target are interfaces whose
    calls may fail, after their effect too; the reference target of the repository is an instance. *)

From stdpp Require Import base gmap strings list fin_maps.
From S2P Require Import Prelude Effects PyValue PyDict TypedValues RunAudit ConfigTypes RuntimeState Transactions ControlPlane DatasetLease CdcCapture Scd2 CurrentProjection DeltaCdf Progress.
#[local] Open Scope Z_scope.

Definition execution_error {A} (site : string) : res A := raise "CurrentProjectionExecutionError" site.

Record CurrentProjectionExecutionResult := {
  cpe_dataset_id : string;
  cpe_lower_processed_version : option Z;
  cpe_upper_processed_version : Z;
  cpe_affected_keys : Z;
  cpe_mutations : MutationCounts;
  cpe_checkpoint_version : Z;
  cpe_no_work : bool
}.

Definition make_CurrentProjectionExecutionResult (r : CurrentProjectionExecutionResult) : res CurrentProjectionExecutionResult :=
  if negb (nonempty (cpe_dataset_id r)) || (default 0 (cpe_lower_processed_version r) <? 0)
     || (cpe_upper_processed_version r <? 0) || (cpe_affected_keys r <? 0) || (cpe_checkpoint_version r <? 0) then bad_field
  else Ok r.

(** ** The interfaces *)

(** [CurrentProjectionTarget] *)
Class ProjectionTarget (Tg : Type) := {
  read_projection_rows : list string -> option (list (list value)) -> eff Tg (list row);
  apply_projection : CurrentProjectionApplyResult -> list string -> eff Tg MutationCounts
}.

(** What a run asks of the control plane, the clock and [uuid4]. *)
Class ProjectionWorld (W : Type) := {
  projection_now : eff W datetime;
  projection_uuid4 : eff W string;
  acquire_lease : string -> string -> N -> datetime -> eff W DatasetLeaseState;
  release_lease : DatasetLeaseState -> eff W unit;
  read_checkpoint : string -> eff W (option CDCCheckpointState);
  commit_checkpoint : string -> CDCCheckpoint -> N -> Z -> StateCommitGate -> eff W CDCCheckpointState
}.

(** ** The reference target *)

(** [tuple(row.get(column) for column in business_key)] *)
Definition row_key (business_key : list string) (r : row) : list value := map (get r) business_key.

(** [set(keys)]: every key is hashable. *)
Definition key_set (keys : list (list value)) : res (list (list value)) :=
  if forallb (forallb hashable) keys then Ok keys else raise "TypeError" "unhashable type".

Definition memory_read (rows : list row) (business_key : list string) (affected_keys : option (list (list value))) : res (list row) :=
  match affected_keys with
  | None => Ok rows
  | Some keys =>
    selected ← key_set keys;
    _ ← key_set (map (row_key business_key) rows);
    Ok (List.filter (fun r => affected selected (row_key business_key r)) rows)
  end.

Definition memory_index (rows : list row) (business_key : list string) : res (list (list value * row)) :=
  index_by (fun r => let key := row_key business_key r in
                     if existsb is_none key then
                       execution_error "current projection target contains an invalid/duplicate business key"
                     else Ok key)
    (Exn "CurrentProjectionExecutionError" "current projection target contains an invalid/duplicate business key")
    (fun _ _ => Ok tt) rows.

Section run.
Context `{PyRuntime} `{ScalarText}.

Definition memory_apply (rows : list row) (result : CurrentProjectionApplyResult) (business_key : list string) :
    res (list row) :=
  by_key ← memory_index rows business_key;
  let by_key := foldl (fun d raw_key => dpop d (row_key business_key raw_key)) by_key (cpr_delete_keys result) in
  let by_key := foldl (fun d r => dset d (row_key business_key r) r) by_key (cpr_upserts result) in
  Ok (sorted_values repr_key by_key).

#[export] Instance memory_target : ProjectionTarget (list row) := {
  read_projection_rows business_key affected_keys := fun rows => (memory_read rows business_key affected_keys, rows);
  apply_projection result business_key := fun rows =>
    match memory_apply rows result business_key with
    | Ok rows' => (Ok (cpr_mutations result), rows')
    | Raise e => (Raise e, rows)
    end
}.

(** ** The run *)

(** [current_projection_checkpoint_partition] of [contracts/current_projection.py] *)
Definition current_projection_checkpoint_partition (table_reference : string) (business_key projected_columns : list string)
    (current_flag_column : string) : res string :=
  if negb (nonempty table_reference) || bool_decide (business_key = []) || bool_decide (projected_columns = [])
     || negb (nonempty current_flag_column) then
    raise "ValueError" "current projection checkpoint identity inputs cannot be empty"
  else
    bytes ← canonical_typed_json_bytes (VDict
      [("semantic_version", VInt 1); ("table_reference", VStr table_reference);
       ("business_key", VTuple (map VStr business_key)); ("projected_columns", VTuple (map VStr projected_columns));
       ("current_flag_column", VStr current_flag_column)]);
    Ok ("current-projection:" +:+ sha256_hex bytes).

(** The arguments the two executors share. *)
Record ProjectionArgs := {
  pa_dataset_id : string;
  pa_dataset_run_id : N;
  pa_table_reference : string;
  pa_business_key : list string;
  pa_projected_columns : list string;
  pa_current_flag_column : string;
  pa_reconciliation_required : bool;
  pa_reconcile : option (CurrentProjectionApplyResult -> res bool)
}.

Definition partition_of (a : ProjectionArgs) : res string :=
  current_projection_checkpoint_partition (pa_table_reference a) (pa_business_key a) (pa_projected_columns a)
    (pa_current_flag_column a).

Definition _processed_version (a : ProjectionArgs) (state : option CDCCheckpointState) : res (option Z) :=
  match state with
  | None => Ok None
  | Some state =>
    partition ← partition_of a;
    if negb (Nat.eqb (length (cs_checkpoint state)) 1) then
      execution_error "current projection CDC checkpoint must contain exactly one history partition"
    else
      match position_for (cs_checkpoint state) partition with
      | Some (v :: _) => Ok (Some v)
      | _ => execution_error "current projection CDC checkpoint does not match authoritative history table"
      end
  end.

Definition affected_key_step (business_key : list string) (start_version upper_version : Z)
    (keys : list (list value * unit)) (record : DeltaCDFRecord) : res (list (list value * unit)) :=
  if upper_version <? dr_commit_version record then
    execution_error "history CDF contains a record newer than the frozen upper version"
  else if dr_commit_version record <? start_version then Ok keys
  else
    let key := row_key business_key (dr_data record) in
    if existsb is_none key then execution_error "history CDF row is missing business key columns"
    else if negb (forallb hashable key) then raise "TypeError" "unhashable type"
    else Ok (dset keys key tt).

Definition _affected_keys (records : list DeltaCDFRecord) (business_key : list string) (start_version upper_version : Z) :
    res (list (list value)) :=
  keys ← foldM (affected_key_step business_key start_version upper_version) [] records;
  Ok (sort_on repr_key (map fst keys)).

Definition _assert_history_scope (history_rows : list row) (business_key : list string) (affected_keys : list (list value)) :
    res unit :=
  foldM (fun _ r =>
    let key := row_key business_key r in
    if existsb is_none key then execution_error "authoritative history row is missing business key columns"
    else if negb (forallb hashable key) then raise "TypeError" "unhashable type"
    else if negb (affected affected_keys key) then
      execution_error "incremental authoritative history rows must be scoped to affected keys"
    else Ok tt) tt history_rows.

Context {W Tg : Type} `{ProjectionWorld W} `{ProjectionTarget Tg}.
#[local] Abbreviation prun := (eff (W * Tg)).

Definition on_world {A} (m : eff W A) : prun A := fun s => let '(r, w) := m s.1 in (r, (w, s.2)).
Definition on_target {A} (m : eff Tg A) : prun A := fun s => let '(r, t) := m s.2 in (r, (s.1, t)).

(** The [try] statement around the [yield]. *)
Definition release_after {A} (lease : DatasetLeaseState) (body : prun A) : prun A := fun s =>
  match body s with
  | (Ok a, s) =>
    (_ ← try (on_world (release_lease lease))
           (fun _ => lift (execution_error "current projection succeeded but its dataset lease could not be released"));
     mret a) s
  | (Raise e, s) =>
    (_ ← try (on_world (release_lease lease))
           (fun _ => throw "BaseExceptionGroup" "current projection execution and dataset-lease release both failed");
     lift (Raise e)) s
  end.

(** The context manager around [body]. *)
Definition _exclusive_projection_mutation {A} (dataset_id : string) (dataset_run_id : N) (body : prun A) : prun A :=
  token ← on_world projection_uuid4;
  now ← on_world projection_now;
  lease ← try (on_world (acquire_lease dataset_id ("current-projection:" +:+ token) dataset_run_id
                           (Datetime (dt_off now) (dt_us now + 86400000000))))
            (fun e => lift (if String.eqb (exn_type e) "DatasetLeaseConflict" then
                              execution_error "current projection mutation is already in progress for this dataset"
                            else Raise e));
  release_after lease body.

(** [except CurrentProjectionError as exc: raise CurrentProjectionExecutionError(str(exc))] *)
Definition projection_failure (e : exn) : exn :=
  if String.eqb (exn_type e) "CurrentProjectionError" then Exn "CurrentProjectionExecutionError" (exn_site e) else e.

(** The gate after the target mutation. *)
Definition projection_gate (a : ProjectionArgs) (projection : CurrentProjectionApplyResult) : res StateCommitGate :=
  passed ← match pa_reconcile a with Some reconcile => reconcile projection | None => Ok true end;
  Ok {| target_committed := true; reconciliation_required := pa_reconciliation_required a;
        reconciliation_passed := passed; batch_quarantined := false |}.

Definition _apply_and_commit (a : ProjectionArgs) (history_rows : list row) (affected_keys : option (list (list value)))
    (upper_version : Z) (checkpoint_state : option CDCCheckpointState) :
    prun (CurrentProjectionApplyResult * CDCCheckpointState) :=
  projection ← try (
      existing ← on_target (read_projection_rows (pa_business_key a) affected_keys);
      lift (apply_current_projection existing history_rows (pa_business_key a) (pa_projected_columns a) affected_keys
              (pa_current_flag_column a)))
    (fun e => lift (Raise (projection_failure e)));
  observed_mutations ← on_target (apply_projection projection (pa_business_key a));
  if negb (bool_decide (observed_mutations = cpr_mutations projection)) then
    lift (execution_error "current projection target mutation evidence does not match the planned mutation set")
  else
    gate ← lift (projection_gate a projection);
    if negb (can_advance_state gate) then
      lift (execution_error "current projection reconciliation failed; checkpoint was not advanced")
    else
      partition ← lift (partition_of a);
      checkpoint ← lift (build_cdc_checkpoint {[ partition := [upper_version] ]});
      next_state ← on_world (commit_checkpoint (pa_dataset_id a) checkpoint (pa_dataset_run_id a)
                               (match checkpoint_state with Some s => cs_version s | None => 0 end) gate);
      mret (projection, next_state).

(** The arguments of the incremental executor. *)
Record DeltaEvidence := {
  de_history_cdf_records : list DeltaCDFRecord;
  de_history_rows_at_upper : list row;
  de_history_snapshot_version : Z;
  de_earliest_available_version : Z;
  de_latest_available_version : Z;
  de_requested_upper_version : option Z;
  de_history_cdf_complete_through_upper : bool;
  de_history_snapshot_complete_for_affected_keys : bool
}.

Definition check_projection_args (a : ProjectionArgs) : res unit :=
  if negb (nonempty (pa_dataset_id a)) || negb (nonempty (pa_table_reference a)) then
    raise "ValueError" "dataset_id and table_reference are required"
  else if bool_decide (pa_business_key a = []) then raise "ValueError" "current projection requires business_key"
  else Ok tt.

Definition require_reconcile (a : ProjectionArgs) : res unit :=
  if pa_reconciliation_required a && match pa_reconcile a with None => true | Some _ => false end then
    execution_error "required current projection reconciliation callback is missing"
  else Ok tt.

(** The evidence checks of a range with work. *)
Definition check_delta_evidence (e : DeltaEvidence) (resume : DeltaCDFResumePlan) : res unit :=
  if negb (de_history_cdf_complete_through_upper e) then
    execution_error "current projection CDF evidence is not complete through the frozen upper version"
  else if negb (de_history_snapshot_complete_for_affected_keys e) then
    execution_error "authoritative history snapshot is not complete for every affected key"
  else if negb (de_history_snapshot_version e =? dp_upper_version resume) then
    execution_error "current projection must read authoritative history at the exact frozen upper version"
  else Ok tt.

(** The body of the [with] statement of the incremental executor. *)
Definition delta_projection_body (a : ProjectionArgs) (e : DeltaEvidence) : prun CurrentProjectionExecutionResult :=
  state ← on_world (read_checkpoint (pa_dataset_id a));
  match state with
  | None => lift (execution_error "current projection is uninitialized; run an explicit full projection rebuild")
  | Some checkpoint_state =>
    lower_version ← lift (_processed_version a (Some checkpoint_state));
    resume ← lift (plan_delta_cdf_resume (pa_table_reference a) lower_version (de_earliest_available_version e)
                     (de_latest_available_version e) (de_requested_upper_version e));
    if negb (delta_has_work resume) then
      lift (make_CurrentProjectionExecutionResult
        {| cpe_dataset_id := pa_dataset_id a; cpe_lower_processed_version := lower_version;
           cpe_upper_processed_version := dp_upper_version resume; cpe_affected_keys := 0;
           cpe_mutations := {| mc_inserted := 0; mc_updated := 0; mc_deleted := 0 |};
           cpe_checkpoint_version := cs_version checkpoint_state; cpe_no_work := true |})
    else
      _ ← lift (check_delta_evidence e resume);
      affected ← lift (_affected_keys (de_history_cdf_records e) (pa_business_key a) (dp_start_version resume)
                         (dp_upper_version resume));
      _ ← lift (_assert_history_scope (de_history_rows_at_upper e) (pa_business_key a) affected);
      done ← _apply_and_commit a (de_history_rows_at_upper e) (Some affected) (dp_upper_version resume) (Some checkpoint_state);
      lift (make_CurrentProjectionExecutionResult
        {| cpe_dataset_id := pa_dataset_id a; cpe_lower_processed_version := lower_version;
           cpe_upper_processed_version := dp_upper_version resume; cpe_affected_keys := Z.of_nat (length affected);
           cpe_mutations := cpr_mutations done.1; cpe_checkpoint_version := cs_version done.2; cpe_no_work := false |})
  end.

Definition execute_delta_current_projection (a : ProjectionArgs) (e : DeltaEvidence) : prun CurrentProjectionExecutionResult :=
  _ ← lift (check_projection_args a);
  _ ← lift (require_reconcile a);
  _exclusive_projection_mutation (pa_dataset_id a) (pa_dataset_run_id a) (delta_projection_body a e).

(** The body of the [with] statement of the rebuild. *)
Definition rebuild_projection_body (a : ProjectionArgs) (history_rows : list row) (history_snapshot_version : Z) :
    prun CurrentProjectionExecutionResult :=
  checkpoint_state ← on_world (read_checkpoint (pa_dataset_id a));
  lower_version ← lift (_processed_version a checkpoint_state);
  if match lower_version with Some v => history_snapshot_version <? v | None => false end then
    lift (execution_error "full current projection rebuild cannot rewind the committed history version")
  else
    done ← _apply_and_commit a history_rows None history_snapshot_version checkpoint_state;
    lift (make_CurrentProjectionExecutionResult
      {| cpe_dataset_id := pa_dataset_id a; cpe_lower_processed_version := lower_version;
         cpe_upper_processed_version := history_snapshot_version; cpe_affected_keys := Z.of_nat (cpr_affected_keys done.1);
         cpe_mutations := cpr_mutations done.1; cpe_checkpoint_version := cs_version done.2; cpe_no_work := false |}).

Definition rebuild_delta_current_projection (a : ProjectionArgs) (history_rows : list row) (history_snapshot_version : Z)
    (history_snapshot_complete : bool) : prun CurrentProjectionExecutionResult :=
  _ ← lift (check_projection_args a);
  if history_snapshot_version <? 0 then throw "ValueError" "history_snapshot_version must be non-negative"
  else if negb history_snapshot_complete then
    lift (execution_error "full current projection rebuild requires a complete authoritative history snapshot")
  else
    _ ← lift (require_reconcile a);
    _exclusive_projection_mutation (pa_dataset_id a) (pa_dataset_run_id a)
      (rebuild_projection_body a history_rows history_snapshot_version).
End run.

(** ** Rows by key *)

#[local] Arguments projection_step : simpl never.

Section keyed.
Context `{PyRuntime} `{ScalarText}.
Context (bk pc : list string) (flag : string).
Implicit Types (k : list value) (d : list (list value * row)).

(** [rows] holds [d]: one row per key, found under the key. *)
Definition holds (rows : list row) d : Prop := index_target rows bk = Ok d.

Lemma target_key r label k : _key r bk label = Ok k <-> k = row_key bk r /\ existsb is_none k = false.
Proof using Type. apply projection_key_Ok. Qed.

Lemma holds_spec rows d : holds rows d ->
  dwf d /\ map snd d = rows /\ Forall (fun kv => kv.1 = row_key bk kv.2 /\ existsb is_none kv.1 = false) d.
Proof using Type.
  intros (Hwf & Hs & Hk)%index_target_Ok'. split_and!; [done..|]. eapply Forall_impl; [exact Hk|].
  intros kv. apply target_key.
Qed.

Lemma holds_lookup rows d k r : holds rows d -> dget d k = Some r <-> r ∈ rows /\ keq (row_key bk r) k = true.
Proof using Type.
  intros (Hwf & <- & Hk)%holds_spec. rewrite Forall_forall in Hk. split.
  - intros (k' & Hkk & Hin)%dget_Some_elem. destruct (Hk _ Hin) as [Hk' _]. simpl in Hk'. subst k'. split; [|done].
    apply list_elem_of_fmap. by exists (row_key bk r, r).
  - intros [([k' r'] & -> & Hin)%list_elem_of_fmap Hkk]. simpl in *. destruct (Hk _ Hin) as [Hk' _]. simpl in Hk'. subst k'.
    rewrite <-(dget_compat d _ k Hkk). by apply dwf_elem.
Qed.

(** The rows of a dictionary whose keys are those of its rows. *)
Lemma holds_values d rows : dwf d -> rows ≡ₚ map snd d ->
  Forall (fun kv => keq (row_key bk kv.2) kv.1 = true /\ existsb is_none (row_key bk kv.2) = false) d ->
  exists d', holds rows d' /\ deq d' d.
Proof using Type.
  intros Hwf Hp Hall.
  destruct (index_by_reindex (fun r => _key r bk "existing current target")
    (Exn "CurrentProjectionError" "existing current target contains duplicate business key") (fun _ _ => Ok tt) d rows)
    as (d' & Hd & _ & Heq); [done|done| |by exists d'].
  eapply Forall_impl; [exact Hall|]. intros [k r] [Hk Hn]. exists (row_key bk r). split; [|done]. by apply target_key.
Qed.

(** The index of the reference target is the one of the projection. *)
Lemma memory_index_holds rows d : memory_index rows bk = Ok d <-> holds rows d.
Proof using Type.
  assert (Hboth : forall key_of key_of' dup dup' d, (forall r k, key_of r = Ok k -> key_of' r = Ok k) ->
    index_by key_of dup (fun _ _ => Ok tt) rows = Ok d -> index_by (K := list value) (V := row) key_of' dup' (fun _ _ => Ok tt) rows = Ok d).
  { intros key_of key_of' dup dup' d' Himp Hi. apply index_by_spec in Hi as (Hwf & <- & Hall).
    apply index_by_complete; [done|]. eapply Forall_impl; [exact Hall|]. intros kv [Hk ?]. split; [by apply Himp|done]. }
  split; apply Hboth; intros r k; unfold _key, row_key, execution_error; destruct (existsb is_none (map (get r) bk)); done.
Qed.

Lemma row_key_payload key : NoDup bk -> length key = length bk -> row_key bk (CurrentProjection._key_payload bk key) = key.
Proof using Type.
  intros Hnd Hlen. unfold row_key, CurrentProjection._key_payload. clear -Hnd Hlen. revert key Hlen.
  induction bk as [|c l IH]; intros [|v key] Hlen; simpl in *; try done. apply NoDup_cons in Hnd as [Hc Hnd].
  assert (forall c', get (list_to_map ((c, v) :: zip l key)) c' = if decide (c' = c) then v else get (list_to_map (zip l key)) c') as Hget.
  { intros c'. unfold get. rewrite list_to_map_cons. case_decide as Hc'; [subst; by rewrite lookup_insert_eq|by rewrite lookup_insert_ne]. }
  rewrite Hget, decide_True by done. f_equal. injection Hlen as Hlen. rewrite <-(IH Hnd key Hlen) at 2.
  apply map_ext_Forall, Forall_forall. intros c' Hin. rewrite Hget, decide_False; [done|congruence].
Qed.

(** ** The changes of a projection *)

(** [x] is replaced: it is missing, or has another fingerprint. *)
Definition replaced (existing : option row) (a : row) : Prop :=
  match existing with
  | None => True
  | Some e => exists f g, _fingerprint e = Ok f /\ _fingerprint a = Ok g /\ f <> g
  end.

(** The upserts and deletes of a loop over [keys]. *)
Record changes_of (ex cur : list (list value * row)) (keys : list (list value)) (upserts deletes : list row) : Prop := {
  co_upserts u : u ∈ upserts -> exists k, k ∈ keys /\ dget cur k = Some u /\ replaced (dget ex k) u;
  co_deletes x : x ∈ deletes -> exists k, k ∈ keys /\ x = CurrentProjection._key_payload bk k /\ dget cur k = None /\ is_Some (dget ex k);
  co_upserted k a : k ∈ keys -> dget cur k = Some a -> replaced (dget ex k) a -> a ∈ upserts;
  co_deleted k : k ∈ keys -> dget cur k = None -> is_Some (dget ex k) -> CurrentProjection._key_payload bk k ∈ deletes;
  co_fingerprints k a e : k ∈ keys -> dget cur k = Some a -> dget ex k = Some e ->
    is_ok (_fingerprint e) = true /\ is_ok (_fingerprint a) = true
}.

Lemma loop_changes ex cur keys s0 s : ps_upserts s0 = [] -> ps_delete_keys s0 = [] ->
  foldM (projection_step bk ex cur) s0 keys = Ok s -> changes_of ex cur keys (ps_upserts s) (ps_delete_keys s).
Proof using Type.
  intros Hu Hd Hf. refine (foldM_ind _ (fun done s => changes_of ex cur done (ps_upserts s) (ps_delete_keys s)) _ _ _ Hf _ _).
  { rewrite Hu, Hd. split; intros; by match goal with Hin : _ ∈ [] |- _ => apply not_elem_of_nil in Hin end. }
  clear Hf. intros done key s1 s2 _ [H1 H2 H3 H4 H5] Hstep. unfold projection_step in Hstep.
  assert (Hold : forall P : list value -> Prop, (exists k, k ∈ done /\ P k) -> exists k, k ∈ done ++ [key] /\ P k).
  { intros P (k & Hk & HP). exists k. split; [apply elem_of_app; by left|done]. }
  assert (Hkey : forall P : list value -> Prop, P key -> exists k, k ∈ done ++ [key] /\ P k).
  { intros P HP. exists key. split; [apply elem_of_app; right; by left|done]. }
  destruct (dget cur key) as [a|] eqn:Ea, (dget ex key) as [e|] eqn:Ee.
  - apply bind_Ok in Hstep as (f & Hfe & (g & Hga & Hstep)%bind_Ok). destruct (String.eqb f g) eqn:Efg; injection Hstep as <-; simpl.
    + apply String.eqb_eq in Efg as ->. split.
      * intros u Hin. apply Hold. by apply H1.
      * intros x Hin. apply Hold. by apply H2.
      * intros k a' [Hk| ->%list_elem_of_singleton]%elem_of_app Hc Hr; [by eapply H3|].
        rewrite Ee in Hr. destruct Hr as (f' & g' & ? & ? & ?). congruence.
      * intros k [Hk| ->%list_elem_of_singleton]%elem_of_app Hc Hr; [by apply H4|congruence].
      * intros k a' e' [Hk| ->%list_elem_of_singleton]%elem_of_app Hc Hr; [by eapply H5|]. simplify_eq. by rewrite Hfe, Hga.
    + apply String.eqb_neq in Efg. split.
      * intros u [Hin| ->%list_elem_of_singleton]%elem_of_app; [apply Hold; by apply H1|]. apply Hkey. rewrite Ee. split; [done|].
        by exists f, g.
      * intros x Hin. apply Hold. by apply H2.
      * intros k a' [Hk| ->%list_elem_of_singleton]%elem_of_app Hc Hr; apply elem_of_app; [left; by eapply H3|right].
        simplify_eq. by left.
      * intros k [Hk| ->%list_elem_of_singleton]%elem_of_app Hc Hr; [by apply H4|congruence].
      * intros k a' e' [Hk| ->%list_elem_of_singleton]%elem_of_app Hc Hr; [by eapply H5|]. simplify_eq. by rewrite Hfe, Hga.
  - injection Hstep as <-. simpl. split.
    + intros u [Hin| ->%list_elem_of_singleton]%elem_of_app; [apply Hold; by apply H1|]. apply Hkey. by rewrite Ee.
    + intros x Hin. apply Hold. by apply H2.
    + intros k a' [Hk| ->%list_elem_of_singleton]%elem_of_app Hc Hr; apply elem_of_app; [left; by eapply H3|right].
      simplify_eq. by left.
    + intros k [Hk| ->%list_elem_of_singleton]%elem_of_app Hc Hr; [by apply H4|congruence].
    + intros k a' e' [Hk| ->%list_elem_of_singleton]%elem_of_app Hc Hr; [by eapply H5|congruence].
  - injection Hstep as <-. simpl. split.
    + intros u Hin. apply Hold. by apply H1.
    + intros x [Hin| ->%list_elem_of_singleton]%elem_of_app; [apply Hold; by apply H2|]. apply Hkey. rewrite Ee. by eauto.
    + intros k a' [Hk| ->%list_elem_of_singleton]%elem_of_app Hc Hr; [by eapply H3|congruence].
    + intros k [Hk| ->%list_elem_of_singleton]%elem_of_app Hc Hr; apply elem_of_app; [left; by apply H4|right; by left].
    + intros k a' e' [Hk| ->%list_elem_of_singleton]%elem_of_app Hc Hr; [by eapply H5|congruence].
  - injection Hstep as <-. split.
    + intros u Hin. apply Hold. by apply H1.
    + intros x Hin. apply Hold. by apply H2.
    + intros k a' [Hk| ->%list_elem_of_singleton]%elem_of_app Hc Hr; [by eapply H3|congruence].
    + intros k [Hk| ->%list_elem_of_singleton]%elem_of_app Hc Hr; [by apply H4|]. rewrite Ee in Hr. by destruct Hr.
    + intros k a' e' [Hk| ->%list_elem_of_singleton]%elem_of_app Hc Hr; [by eapply H5|congruence].
Qed.

(** ** The target after the changes *)

Lemma dset_keys {V} (P : list value -> Prop) (d : list (list value * V)) k v :
  P k -> Forall P (map fst d) -> Forall P (map fst (dset d k v)).
Proof using Type.
  intros Hk. induction d as [|[k' v'] d IH]; simpl; [by constructor|]. intros [? ?]%Forall_cons.
  destruct (keq k' k); simpl; constructor; auto.
Qed.

Lemma selected_width ex history h keys sel : index_history history bk pc flag = Ok h ->
  Forall (fun k => length k = length bk) (map fst ex) -> select_keys bk ex (hi_keys h) keys = Ok sel ->
  Forall (fun k => length k = length bk) (map fst sel).
Proof using Type.
  intros Hh Hex Hsel. destruct keys as [keys|]; simpl in Hsel.
  - refine (foldM_ind _ (fun _ sel => Forall (fun k => length k = length bk) (map fst sel)) _ _ _ Hsel _ _); [constructor|].
    intros done key s1 s2 _ IH Hstep. unfold affected_step in Hstep. destruct (length key =? length bk)%nat eqn:El; [|done].
    destruct (existsb is_none key); [done|]. injection Hstep as <-. apply dset_keys; [by apply Nat.eqb_eq|done].
  - injection Hsel as <-.
    assert (Forall (fun k => length k = length bk) (map fst (hi_keys h))) as Hk.
    { refine (foldM_ind _ (fun _ h => Forall (fun k => length k = length bk) (map fst (hi_keys h))) _ _ _ Hh _ _); [constructor|].
      intros done r s1 s2 _ IH Hstep. unfold history_step in Hstep. apply bind_Ok in Hstep as (key & [-> _]%target_key & Hstep).
      assert (Forall (fun k => length k = length bk) (map fst (dset (hi_keys s1) (row_key bk r) tt))) as Hset.
      { apply dset_keys; [|done]. unfold row_key. by rewrite length_map. }
      destruct (get r flag) as [|[]| | | | | | | | | |]; try done; [|by injection Hstep as <-].
      destruct (dmem _ _); [done|]. apply bind_Ok in Hstep as (p & _ & [= <-]). done. }
    unfold dupdate. revert Hk. generalize (hi_keys h). intros upd Hk.
    assert (Forall (fun k => length k = length bk) (map fst (map (fun kv : list value * row => (kv.1, tt)) ex))) as Hb by by rewrite map_map.
    revert Hb. generalize (map (fun kv : list value * row => (kv.1, tt)) ex). induction upd as [|[k []] upd IH]; intros d Hb; simpl; [done|].
    apply Forall_cons in Hk as [Hk1 Hk2]. apply IH; [done|]. by apply dset_keys.
Qed.

Lemma validate_columns_NoDup : validate_columns bk pc = Ok tt -> NoDup bk.
Proof using Type.
  unfold validate_columns. case_bool_decide; [done|]. destruct (unique bk) eqn:E; [|done]. by apply bool_decide_eq_true in E.
Qed.

Lemma current_key history h k a : validate_columns bk pc = Ok tt -> index_history history bk pc flag = Ok h ->
  dget (hi_current h) k = Some a -> keq (row_key bk a) k = true /\ existsb is_none (row_key bk a) = false.
Proof using Type.
  intros Hv Hh (k' & Hkk & Hin)%dget_Some_elem. destruct (index_history_Ok _ _ _ _ _ Hh) as (Hc & _). rewrite Hc in Hin.
  apply list_elem_of_omap in Hin as (y & _ & Hy). unfold authoritative_entry in Hy. destruct (is_true _); [|done].
  destruct (_key y bk "history") as [k2|] eqn:Ek; [|done]. destruct (_project_row y pc) as [p|] eqn:Ep; [|done]. injection Hy as -> ->.
  pose proof (project_row_key _ _ _ _ "" _ _ Ep (validate_columns_keys bk pc Hv) Ek) as [<- Hn]%target_key. done.
Qed.

Lemma pops_lookup deletes d : dwf d ->
  let d' := foldl (fun d x => dpop d (row_key bk x)) d deletes in
  dwf d' /\ (forall kv, kv ∈ d' -> kv ∈ d) /\
  forall k, dget d' k = if existsb (fun x => keq (row_key bk x) k) deletes then None else dget d k.
Proof using Type.
  revert d. induction deletes as [|x deletes IH]; intros d Hwf; simpl; [done|].
  destruct (IH (dpop d (row_key bk x)) ltac:(by apply dwf_dpop)) as (Hwf' & Hin & Hget). split_and!; [done| |].
  - intros kv Hkv%Hin. clear -Hkv. induction d as [|[k v] d IH]; simpl in *; [done|].
    destruct (keq k (row_key bk x)); [by right|]. apply elem_of_cons in Hkv as [->|Hkv]; [by left|right; by apply IH].
  - intros k. rewrite Hget, dget_dpop by done. destruct (keq (row_key bk x) k); [by destruct (existsb _ deletes)|done].
Qed.

Lemma sets_lookup upserts d k v : dwf d -> (forall u, u ∈ upserts -> keq (row_key bk u) k = true -> Some u = v) ->
  dget (foldl (fun d u => dset d (row_key bk u) u) d upserts) k =
    if existsb (fun u => keq (row_key bk u) k) upserts then v else dget d k.
Proof using Type.
  revert d. induction upserts as [|u upserts IH]; intros d Hwf Hu; simpl; [done|].
  rewrite IH; [|by apply dwf_dset|intros; apply Hu; [by right|done]].
  rewrite dget_dset. destruct (keq (row_key bk u) k) eqn:E; simpl; [|done].
  rewrite (Hu u) by (done || by left). by destruct (existsb _ upserts).
Qed.

Lemma sets_entries upserts d : dwf d -> Forall (fun u => existsb is_none (row_key bk u) = false) upserts ->
  Forall (fun kv => keq (row_key bk kv.2) kv.1 = true /\ existsb is_none (row_key bk kv.2) = false) d ->
  let d' := foldl (fun d u => dset d (row_key bk u) u) d upserts in
  dwf d' /\ Forall (fun kv => keq (row_key bk kv.2) kv.1 = true /\ existsb is_none (row_key bk kv.2) = false) d'.
Proof using Type.
  revert d. induction upserts as [|u upserts IH]; intros d Hwf Hu Hd; simpl; [done|].
  apply Forall_cons in Hu as [Hu1 Hu2]. apply IH; [by apply dwf_dset|done|].
  clear -Hd Hu1. induction d as [|[k v] d IH]; simpl; [constructor; [split; [apply keq_refl|done]|constructor]|].
  apply Forall_cons in Hd as [Hk Hd]. destruct (keq k (row_key bk u)) eqn:E; constructor; auto. simpl. by rewrite keq_sym.
Qed.

(** The changes of a projection, applied to a dictionary that agrees with the rows read on the keys of the loop. *)
Definition changed_dict d (upserts deletes : list row) : list (list value * row) :=
  foldl (fun d r => dset d (row_key bk r) r) (foldl (fun d x => dpop d (row_key bk x)) d deletes) upserts.

Lemma changed_lookup ex cur keys upserts deletes d k :
  NoDup bk -> Forall (fun k => length k = length bk) keys -> changes_of ex cur keys upserts deletes -> dwf d ->
  (forall k a, dget cur k = Some a -> keq (row_key bk a) k = true) ->
  (affected keys k = true -> dget ex k = dget d k) ->
  dget (changed_dict d upserts deletes) k = if affected keys k then projected d cur k else dget d k.
Proof using Type.
  intros Hnd Hw [Hu Hx Hus Hds Hf] Hwf Hcur Hsame.
  destruct (pops_lookup deletes d Hwf) as (Hwf1 & _ & Hget1).
  assert (Hup : existsb (fun u => keq (row_key bk u) k) upserts = true <->
    affected keys k = true /\ exists a, dget cur k = Some a /\ replaced (dget ex k) a).
  { rewrite existsb_elem. split.
    - intros (u & (k1 & Hk1 & Hc & Hr)%Hu & Hk). pose proof (Hcur _ _ Hc) as Hkk.
      assert (keq k1 k = true) as E by (eapply keq_trans; [|exact Hk]; by rewrite keq_sym).
      rewrite !(dget_compat _ k1 k E) in *. split; [apply affected_elem; by exists k1|by exists u].
    - intros ((k1 & Hk1 & E)%affected_elem & a & Hc & Hr). rewrite <-!(dget_compat _ k1 k E) in *.
      exists a. split; [by eapply Hus|]. eapply keq_trans; [by apply Hcur|done]. }
  assert (Hde : existsb (fun x => keq (row_key bk x) k) deletes = true <->
    affected keys k = true /\ dget cur k = None /\ is_Some (dget ex k)).
  { rewrite existsb_elem. rewrite Forall_forall in Hw. split.
    - intros (x & (k1 & Hk1 & -> & Hc & Hr)%Hx & Hk). rewrite row_key_payload in Hk by auto.
      rewrite !(dget_compat _ k1 k Hk) in *. split; [apply affected_elem; by exists k1|done].
    - intros ((k1 & Hk1 & E)%affected_elem & Hc & Hr). rewrite <-!(dget_compat _ k1 k E) in *.
      eexists. split; [by apply (Hds k1)|]. by rewrite row_key_payload by auto. }
  unfold changed_dict. rewrite (sets_lookup _ _ k (dget cur k)) by
    (done || (intros u (k1 & _ & Hc & _)%Hu Hk; rewrite <-Hc; apply dget_compat;
       eapply keq_trans; [|exact Hk]; rewrite keq_sym; by apply Hcur)).
  rewrite Hget1. destruct (affected keys k) eqn:Eaff.
  - specialize (Hsame eq_refl). rewrite Hsame in *. unfold projected.
    destruct (existsb (fun u => keq (row_key bk u) k) upserts) eqn:E1.
    + destruct (proj1 Hup eq_refl) as (_ & a & Ha & Hr). rewrite Ha. destruct (dget d k) as [e|]; [|done].
      destruct Hr as (f & g & -> & -> & Hfg). by apply String.eqb_neq in Hfg as ->.
    + assert (Hnot : forall a, dget cur k = Some a -> ~ replaced (dget d k) a).
      { intros a Ha Hr. cut (false = true); [done|]. apply Hup. split; [done|by exists a]. }
      destruct (existsb (fun x => keq (row_key bk x) k) deletes) eqn:E2.
      * by destruct (proj1 Hde eq_refl) as (_ & -> & _).
      * destruct (dget cur k) as [a|] eqn:Ea.
        -- specialize (Hnot a eq_refl). destruct (dget d k) as [e|] eqn:Ee; [|by destruct Hnot].
           apply affected_elem in Eaff as (k1 & Hk1 & E). assert (dget ex k1 = Some e) as Hex1 by by rewrite (dget_compat _ k1 k E).
           rewrite <-(dget_compat _ k1 k E) in Ea. destruct (Hf k1 a e Hk1 Ea Hex1) as [Hfe Hfa].
           destruct (_fingerprint e) as [f|] eqn:Efe; [|done]. destruct (_fingerprint a) as [g|] eqn:Efa; [|done].
           destruct (String.eqb f g) eqn:Efg; [done|]. apply String.eqb_neq in Efg. destruct Hnot. by exists f, g.
        -- destruct (dget d k) as [e|] eqn:Ee; [|done]. cut (false = true); [done|]. apply Hde. by split_and!.
  - destruct (existsb _ upserts); [by destruct (proj1 Hup eq_refl)|]. by destruct (existsb _ deletes); [destruct (proj1 Hde eq_refl)|].
Qed.

(** The keys a projection selects. *)
Definition selects (keys : option (list (list value))) (k : list value) : bool :=
  match keys with Some keys => affected keys k | None => true end.

(** The changes computed from the rows read make every selected key of the target its projection, and leave every
    other key alone. *)
Lemma memory_apply_exact rows d out keys history r :
  holds rows d -> apply_current_projection out history bk pc keys flag = Ok r ->
  (forall ex, holds out ex -> forall k, selects keys k = true -> dget ex k = dget d k) ->
  exists h rows' d', index_history history bk pc flag = Ok h /\ memory_apply rows r bk = Ok rows' /\ holds rows' d' /\
    forall k, dget d' k = if selects keys k then projected d (hi_current h) k else dget d k.
Proof using Type.
  intros Hd Happ Hread. unfold apply_current_projection in Happ.
  apply bind_Ok in Happ as ([] & Hv & (ex & Hex & (h & Hh & (sel & Hsel & (s & Hs & Hr)%bind_Ok)%bind_Ok)%bind_Ok)%bind_Ok).
  injection Hr as <-. pose proof (Hread ex Hex) as Hsame. set (cur := hi_current h) in *.
  destruct (holds_spec _ _ Hd) as (Hwf & Hsnd & Hk). destruct (holds_spec _ _ Hex) as (_ & _ & Hkex).
  assert (Hwidth : Forall (fun k => length k = length bk) (sort_on repr_key (map fst sel))).
  { rewrite sort_on_perm. eapply (selected_width ex history h keys); [done| |done]. apply Forall_map. eapply Forall_impl; [exact Hkex|].
    intros kv [-> _]. unfold row_key. by rewrite length_map. }
  assert (Hnd : NoDup bk) by by apply validate_columns_NoDup.
  apply loop_changes in Hs; [|done..].
  pose proof (fun k => changed_lookup ex cur _ _ _ d k Hnd Hwidth Hs Hwf (fun k a Ha => proj1 (current_key _ _ _ _ Hv Hh Ha))) as Hget.
  assert (Haff : forall k, affected (sort_on repr_key (map fst sel)) k = dmem sel k).
  { intros k. by rewrite (affected_perm _ _ _ (sort_on_perm repr_key (map fst sel))), affected_dmem. }
  set (d1 := changed_dict d (ps_upserts s) (ps_delete_keys s)) in *.
  assert (Hd1 : dwf d1 /\ Forall (fun kv => keq (row_key bk kv.2) kv.1 = true /\ existsb is_none (row_key bk kv.2) = false) d1).
  { destruct (pops_lookup (ps_delete_keys s) d Hwf) as (Hwf1 & Hin1 & _). apply sets_entries; [done| |].
    - apply Forall_forall. intros u (k & _ & Hc & _)%(co_upserts _ _ _ _ _ Hs). by destruct (current_key _ _ _ _ Hv Hh Hc).
    - apply Forall_forall. intros kv Hkv%Hin1. rewrite Forall_forall in Hk. destruct (Hk kv Hkv) as [Hk1 Hk2].
      rewrite Hk1 in Hk2 |- *. split; [apply keq_refl|done]. }
  destruct Hd1 as [Hwf1 Hent]. destruct (holds_values d1 (sorted_values repr_key d1)) as (d' & Hd' & Heq); [done|apply sorted_values_perm|done|].
  exists h, (sorted_values repr_key d1), d'. split; [done|]. split.
  { unfold memory_apply. by rewrite (proj2 (memory_index_holds rows d) Hd). }
  split; [done|]. intros k. rewrite Heq, Hget, Haff.
  - destruct keys as [keys|]; simpl.
    + by rewrite (select_keys_Some _ _ _ _ _ _ Hsel).
    + pose proof (rebuild_lookup _ _ _ ex h sel history k Hh Hsel) as Hrb. destruct (dmem sel k); [done|].
      rewrite Hsame in Hrb by done. rewrite Hrb. unfold projected. by rewrite Hsame.
  - rewrite Haff. intros Hm. apply Hsame. destruct keys as [keys|]; [|done]. simpl. by rewrite <-(select_keys_Some _ _ _ _ _ _ Hsel).
Qed.
End keyed.

(** ** The contracts *)

(** The positions of a checkpoint and its version. *)
Definition content (st : CDCCheckpointState) : CDCCheckpoint * Z := (cs_checkpoint st, cs_version st).

(** The checkpoint of a dataset changes only by its commit: a run holds the lease, no one else commits.  A commit
    that raised may have taken effect. *)
Class LawfulProjectionWorld (W : Type) `{ProjectionWorld W} := {
  checkpoint_at : W -> string -> option (CDCCheckpoint * Z);
  now_keeps w d : checkpoint_at (projection_now w).2 d = checkpoint_at w d;
  uuid4_keeps w d : checkpoint_at (projection_uuid4 w).2 d = checkpoint_at w d;
  acquire_keeps dataset_id owner run deadline w d :
    checkpoint_at (acquire_lease dataset_id owner run deadline w).2 d = checkpoint_at w d;
  release_keeps lease w d : checkpoint_at (release_lease lease w).2 d = checkpoint_at w d;
  read_keeps dataset_id w d : checkpoint_at (read_checkpoint dataset_id w).2 d = checkpoint_at w d;
  read_returns dataset_id w st : (read_checkpoint dataset_id w).1 = Ok st -> content <$> st = checkpoint_at w dataset_id;
  commit_records dataset_id positions checkpoint run expected gate w :
    build_cdc_checkpoint positions = Ok checkpoint ->
    ends (commit_checkpoint dataset_id checkpoint run expected gate) w (fun r w' =>
      (checkpoint_at w' dataset_id = checkpoint_at w dataset_id \/
       exists v, checkpoint_at w' dataset_id = Some (checkpoint, v)) /\
      forall st, r = Ok st -> checkpoint_at w' dataset_id = Some (checkpoint, cs_version st))
}.

(** The target holds rows; a read returns the selected ones in any order; an application makes exactly the changes of
    the projection, or none, and none is an error. *)
Class LawfulProjectionTarget `{PyRuntime} (Tg : Type) `{ProjectionTarget Tg} := {
  target_rows : Tg -> list row;
  read_rows_spec business_key keys t :
    ends (read_projection_rows business_key keys) t (fun r t' =>
      target_rows t' = target_rows t /\
      forall rows, r = Ok rows -> exists selected, memory_read (target_rows t) business_key keys = Ok selected /\ rows ≡ₚ selected);
  apply_rows_spec result business_key t :
    ends (apply_projection result business_key) t (fun r t' =>
      (is_ok r = false /\ target_rows t' = target_rows t) \/
      exists rows, memory_apply (target_rows t) result business_key = Ok rows /\ target_rows t' ≡ₚ rows)
}.

(** ** Versions of the history *)

Section versions.
Context `{PyRuntime} `{ScalarText}.
Context (bk pc : list string) (flag : string).
Implicit Types (k : list value) (d : list (list value * row)).

(** The rows of the affected keys, in the order of the history. *)
Definition scoped (keys : list (list value)) (rows : list row) : list row :=
  List.filter (fun r => affected keys (row_key bk r)) rows.

Lemma authoritative_scoped keys rows k : affected keys k = true ->
  dget (authoritative bk pc flag rows) k = dget (authoritative bk pc flag (scoped keys rows)) k.
Proof using Type.
  intros Hk. unfold authoritative, scoped. induction rows as [|x rows IH]; [done|].
  cbn [omap list_omap List.filter]. destruct (affected keys (row_key bk x)) eqn:Ex; cbn [omap list_omap].
  - destruct (authoritative_entry bk pc flag x) as [[k2 p]|]; [|done]. cbn [dget]. by destruct (keq k2 k).
  - unfold authoritative_entry at 1. destruct (is_true _); [|done]. destruct (_key x bk "history") as [k'|] eqn:Ek; [|done].
    apply target_key in Ek as [-> _]. destruct (_project_row x pc); [|done]. cbn [dget].
    destruct (keq (row_key bk x) k) eqn:E; [|done]. by rewrite (affected_compat _ _ _ E), Hk in Ex.
Qed.

(** The affected keys of a range are the keys of its records. *)
Lemma affected_keys_spec records start upper keys k : _affected_keys records bk start upper = Ok keys ->
  affected keys k = true <->
  exists r, r ∈ records /\ start <= dr_commit_version r <= upper /\ keq (row_key bk (dr_data r)) k = true.
Proof using Type.
  unfold _affected_keys. intros (ks & Hf & [= <-])%bind_Ok.
  rewrite (affected_perm _ _ k (sort_on_perm repr_key (map fst ks))), affected_dmem.
  refine (foldM_ind _ (fun done ks => dmem ks k = true <->
    exists r, r ∈ done /\ start <= dr_commit_version r <= upper /\ keq (row_key bk (dr_data r)) k = true) _ _ _ Hf _ _).
  { split; [done|]. by intros (r & ?%not_elem_of_nil & _). }
  intros done r ks1 ks2 _ IH Hstep. unfold affected_key_step in Hstep.
  destruct (upper <? dr_commit_version r) eqn:E1; [done|]. destruct (dr_commit_version r <? start) eqn:E2.
  - injection Hstep as <-. rewrite IH. setoid_rewrite elem_of_app. split; [naive_solver|].
    intros (x & [?| ->%list_elem_of_singleton] & ? & ?); [naive_solver|lia].
  - destruct (existsb is_none _); [done|]. destruct (negb _); [done|]. injection Hstep as <-.
    rewrite dmem_true, dget_dset. setoid_rewrite elem_of_app. destruct (keq (row_key bk (dr_data r)) k) eqn:E.
    + split; [|by eauto]. intros _. exists r. split; [right; by left|]. split; [lia|done].
    + rewrite <-dmem_true, IH. split; [naive_solver|].
      intros (x & [?| ->%list_elem_of_singleton] & ? & ?); [naive_solver|congruence].
Qed.

(** The authoritative history at each committed version. *)
Context (history : Z -> list row).

Definition current (v : Z) : list (list value * row) := authoritative bk pc flag (history v).

(** The target agrees on [k] with the projection of version [v]: the row is the projected one, or has its fingerprint. *)
Definition agrees d k (v : Z) : Prop :=
  match dget d k, dget (current v) k with
  | None, None => True
  | Some x, Some a => x = a \/ exists f, _fingerprint x = Ok f /\ _fingerprint a = Ok f
  | _, _ => False
  end.

(** The target shows [k] as the projection of version [v] does: not at all, or with the projected row, or with one
    that means the same. *)
Definition mirrors d k (v : Z) : Prop :=
  match dget d k, dget (current v) k with
  | None, None => True
  | Some x, Some a => x = a \/ same_row x a
  | _, _ => False
  end.

Lemma agrees_shows `{!TypedTextLaws} d k v : agrees d k v -> mirrors d k v.
Proof using Type.
  unfold agrees, mirrors. destruct (dget d k), (dget (current v) k); try done.
  intros [->|(f & Hx & Ha)]; [by left|right]. by eapply same_digest_same_row.
Qed.

(** Every key agrees with a version between the checkpoint [c] and the last version [top] of a run. *)
Definition between (c top : Z) d : Prop := forall k, exists v, c <= v <= top /\ agrees d k v.

Lemma between_weaken c c' top top' d : c' <= c -> top <= top' -> between c top d -> between c' top' d.
Proof using Type. intros ?? Hb k. destruct (Hb k) as (v & ? & ?). exists v. split; [lia|done]. Qed.

Lemma agrees_deq d d' k v : dget d' k = dget d k -> agrees d k v -> agrees d' k v.
Proof using Type. unfold agrees. by intros ->. Qed.

Lemma agrees_same d k v w : dget (current v) k = dget (current w) k -> agrees d k v -> agrees d k w.
Proof using Type. unfold agrees. by intros ->. Qed.

Lemma projected_agrees d k v cur : dget cur k = dget (current v) k ->
  forall d', dget d' k = projected d cur k -> agrees d' k v.
Proof using Type.
  intros Hc d' Hd'. unfold agrees, projected in *. rewrite Hd', <-Hc. clear.
  destruct (dget cur k) as [a|]; [|done]. destruct (dget d k) as [e|]; [|by left].
  destruct (_fingerprint e) as [f|] eqn:Ee; [|by left]. destruct (_fingerprint a) as [g|] eqn:Ea; [|by left].
  destruct (String.eqb f g) eqn:E; [|by left]. apply String.eqb_eq in E as ->. right. eauto.
Qed.

(** The records name every key that changes after version [c], up to [upper]. *)
Definition names_changes (records : list DeltaCDFRecord) (c upper : Z) : Prop :=
  forall k v, c < v <= upper -> dget (current (v - 1)) k <> dget (current v) k ->
  exists r, r ∈ records /\ dr_commit_version r = v /\ keq (row_key bk (dr_data r)) k = true.

Lemma unchanged records c upper keys k v : names_changes records c upper -> _affected_keys records bk (c + 1) upper = Ok keys ->
  affected keys k = false -> c <= v <= upper -> dget (current v) k = dget (current upper) k.
Proof using Type.
  intros Hn Hkeys Haff [Hc Hv]. remember (Z.to_nat (upper - v)) as n eqn:En. revert v Hc Hv En.
  induction n as [|n IH]; intros v Hc Hv En; [by replace v with upper by lia|].
  rewrite <-(IH (v + 1)) by lia. destruct (decide (dget (current v) k = dget (current (v + 1)) k)) as [|Hne]; [done|].
  destruct (Hn k (v + 1)) as (r & Hr & Hrv & Hk); [lia|by replace (v + 1 - 1) with v by lia|].
  rewrite (proj2 (affected_keys_spec records (c + 1) upper keys k Hkeys)) in Haff; [done|]. exists r. split; [done|]. split; [lia|done].
Qed.

(** Projecting the affected keys brings the target from checkpoint [c] to [upper]. *)
Lemma projected_between records c upper keys rows top d d' : c <= upper ->
  names_changes records c upper -> _affected_keys records bk (c + 1) upper = Ok keys ->
  scoped keys rows = scoped keys (history upper) -> between c top d ->
  (forall k, dget d' k = if affected keys k then projected d (authoritative bk pc flag rows) k else dget d k) ->
  between upper (Z.max top upper) d'.
Proof using Type.
  intros Hc Hn Hkeys Hrows Hb Hd' k. destruct (Hb k) as (v & Hv & Hag). specialize (Hd' k).
  destruct (affected keys k) eqn:Eaff.
  - exists upper. split; [lia|]. eapply projected_agrees; [|exact Hd'].
    unfold current. by rewrite (authoritative_scoped keys rows k Eaff), Hrows, <-authoritative_scoped.
  - destruct (decide (upper <= v)).
    + exists v. split; [lia|]. by eapply agrees_deq.
    + exists upper. split; [lia|]. eapply agrees_deq; [exact Hd'|]. eapply agrees_same; [|exact Hag].
      eapply unchanged; [done..|lia].
Qed.

(** A target that agrees everywhere with one version is its projection. *)
Lemma between_exact v d : between v v d -> forall k, agrees d k v.
Proof using Type. intros Hb k. destruct (Hb k) as (u & Hu & ?). by replace v with u by lia. Qed.
End versions.

(** ** Runs *)

Section runs.
Context `{PyRuntime} `{ScalarText}.
Context {W Tg : Type} `{!ProjectionWorld W, !LawfulProjectionWorld W, !ProjectionTarget Tg, !LawfulProjectionTarget Tg}.
(** A projection of a dataset. *)
Context (ds table : string) (bk pc : list string) (flag : string).
#[local] Abbreviation prun := (eff (W * Tg)).

Lemma ends_on_world {A} (m : eff W A) s (Q : res A -> W * Tg -> Prop) :
  ends m s.1 (fun r w => Q r (w, s.2)) -> ends (on_world m) s Q.
Proof using Type. unfold ends, on_world. by destruct (m s.1). Qed.

Lemma ends_on_target {A} (m : eff Tg A) s (Q : res A -> W * Tg -> Prop) :
  ends m s.2 (fun r t => Q r (s.1, t)) -> ends (on_target m) s Q.
Proof using Type. unfold ends, on_target. by destruct (m s.2). Qed.

(** The arguments of a run. *)
Definition args (run : N) (required : bool) (reconcile : option (CurrentProjectionApplyResult -> res bool)) : ProjectionArgs :=
  {| pa_dataset_id := ds; pa_dataset_run_id := run; pa_table_reference := table; pa_business_key := bk;
     pa_projected_columns := pc; pa_current_flag_column := flag; pa_reconciliation_required := required;
     pa_reconcile := reconcile |}.

(** What a state shows: the checkpoint of the dataset and the rows of the target. *)
Definition shown (s : W * Tg) : option (CDCCheckpoint * Z) * list row := (checkpoint_at s.1 ds, target_rows s.2).

(** The checkpoint stands at history version [c]. *)
Definition at_version (ck : option (CDCCheckpoint * Z)) (c : Z) : Prop :=
  match ck with
  | Some (positions, v) =>
    _processed_version (args 0 false None)
      (Some {| cs_dataset_id := ds; cs_checkpoint := positions; cs_committed_dataset_run_id := 0; cs_version := v |}) = Ok (Some c)
  | None => False
  end.

Lemma committed_version partition upper checkpoint v run required reconcile :
  partition_of (args run required reconcile) = Ok partition -> build_cdc_checkpoint {[ partition := [upper] ]} = Ok checkpoint ->
  at_version (Some (checkpoint, v)) upper.
Proof using Type.
  intros Hp Hb. unfold build_cdc_checkpoint in Hb. rewrite map_to_list_singleton in Hb. unfold sort_on in Hb.
  cbn [sort_by foldr insert_by mapM_res fst snd] in Hb. apply bind_Ok in Hb as (ps & Hps & (u & _ & [= <-])%bind_Ok).
  destruct (validate_values _); [|done]. injection Hps as <-. unfold at_version, _processed_version.
  change (partition_of (args 0 false None)) with (partition_of (args run required reconcile)). rewrite Hp.
  cbn [mbind res_bind cs_checkpoint]. by rewrite position_for_single, decide_True.
Qed.

(** The rows read are those of the target under the selected keys. *)
Lemma read_same keys rows d out selected ex k : holds bk rows d -> memory_read rows bk keys = Ok selected -> out ≡ₚ selected ->
  holds bk out ex -> selects keys k = true -> dget ex k = dget d k.
Proof using Type.
  intros Hd Hread Hp Hex Hk. apply option_eq. intros r. rewrite (holds_lookup bk _ _ k r Hex), (holds_lookup bk _ _ k r Hd), Hp.
  destruct keys as [keys|]; simpl in Hread.
  - apply bind_Ok in Hread as (sel & Hsel & (u & _ & [= <-])%bind_Ok). unfold key_set in Hsel. destruct (forallb _ _); [|done].
    injection Hsel as <-. rewrite list_elem_of_In, filter_In, <-list_elem_of_In. split; [tauto|]. intros [Hr Hkk].
    split; [|done]. split; [done|]. by rewrite (affected_compat keys _ k Hkk).
  - by injection Hread as <-.
Qed.

(** The target is untouched, or holds the projection. *)
Definition moved (keys : option (list (list value))) (rows : list row) d d' : Prop :=
  forall k, dget d' k = if selects keys k then projected d (authoritative bk pc flag rows) k else dget d k.

Lemma apply_and_commit_ends run required reconcile rows keys upper st s d :
  holds bk (target_rows s.2) d ->
  ends (_apply_and_commit (args run required reconcile) rows keys upper st) s (fun r s' => exists d',
    holds bk (target_rows s'.2) d' /\ (d' = d \/ moved keys rows d d') /\
    ((is_ok r = false /\ (shown s').1 = (shown s).1) \/
     (moved keys rows d d' /\ exists ck, (shown s').1 = Some ck /\ at_version (Some ck) upper /\
        forall x, r = Ok x -> cs_version x.2 = ck.2))).
Proof using Type.
  intros Hd. unfold _apply_and_commit. apply ends_bind.
  eapply (ends_impl _ _ (fun r s1 => shown s1 = shown s /\ forall p, r = Ok p ->
    exists out selected, memory_read (target_rows s.2) bk keys = Ok selected /\ out ≡ₚ selected /\
      apply_current_projection out rows bk pc keys flag = Ok p)).
  { apply ends_try, ends_bind, ends_on_target. eapply ends_impl; [apply read_rows_spec|].
    intros [out|e] t [Ht Hout]; [|split; [by unfold shown; simpl; rewrite Ht|done]].
    destruct (Hout _ eq_refl) as (selected & Hsel & Hp). apply ends_lift.
    destruct (apply_current_projection _ _ _ _ _ _) as [p|e] eqn:Ep; [|split; [by unfold shown; simpl; rewrite Ht|done]].
    split; [by unfold shown; simpl; rewrite Ht|]. intros p' [= <-]. by exists out, selected. }
  intros [p|e] s1 [Hs1 Hproj]; pose proof (f_equal fst Hs1) as Hck; pose proof (f_equal snd Hs1) as Hrows; cbn [shown fst snd] in Hck, Hrows.
  2:{ exists d. rewrite Hrows. split; [done|]. split; [by left|by left]. }
  destruct (Hproj _ eq_refl) as (out & selected & Hsel & Hp & Happ). clear Hproj.
  destruct (memory_apply_exact bk pc flag _ d out keys rows p Hd Happ) as (h & rows1 & d1 & Hh & Hrows1 & Hd1 & Hget).
  { intros ex Hex k Hk. by eapply read_same. }
  destruct (index_history_Ok _ _ _ _ _ Hh) as (Hcur & _). rewrite Hcur in Hget. change (moved keys rows d d1) in Hget.
  apply ends_bind, ends_on_target. eapply ends_impl; [apply apply_rows_spec|]. cbn [pa_business_key args].
  intros r1 t1 [[Hr Ht]|(rows2 & Hrows2 & Ht)].
  { destruct r1; [done|]. exists d. simpl. rewrite Ht, Hrows. split; [done|]. split; [by left|by left]. }
  rewrite Hrows, Hrows1 in Hrows2. injection Hrows2 as <-.
  destruct (holds_spec _ _ _ Hd1) as (Hwf1 & Hsnd1 & Hent1).
  destruct (holds_values bk d1 (target_rows t1)) as (d2 & Hd2 & Heq2); [done|by rewrite Ht, Hsnd1| |].
  { eapply Forall_impl; [exact Hent1|]. intros kv [-> Hn]. split; [apply keq_refl|done]. }
  assert (Hmoved : moved keys rows d d2) by (intros k; by rewrite Heq2).
  assert (Hfail : forall e : exn, exists d', holds bk (target_rows t1) d' /\ (d' = d \/ moved keys rows d d') /\
    ((is_ok (Raise (A := CurrentProjectionApplyResult * CDCCheckpointState) e) = false /\ checkpoint_at s1.1 ds = (shown s).1) \/
     (moved keys rows d d' /\ exists ck, checkpoint_at s1.1 ds = Some ck /\ at_version (Some ck) upper /\
        forall x : CurrentProjectionApplyResult * CDCCheckpointState, Raise e = Ok x -> cs_version x.2 = ck.2))).
  { intros e. exists d2. split; [done|]. split; [by right|left]. done. }
  destruct r1 as [mutations|e]; [|apply (Hfail e)].
  destruct (negb _); [apply ends_lift, Hfail|]. apply ends_bind, ends_lift.
  destruct (projection_gate _ p) as [gate|e]; [|apply Hfail]. destruct (negb (can_advance_state gate)); [apply ends_lift, Hfail|].
  apply ends_bind, ends_lift. destruct (partition_of _) as [partition|e] eqn:Epart; [|apply Hfail].
  apply ends_bind, ends_lift. destruct (build_cdc_checkpoint _) as [checkpoint|e] eqn:Ecp; [|apply Hfail].
  apply ends_bind, ends_on_world. eapply ends_impl; [by eapply commit_records|]. cbn [pa_dataset_id args fst snd].
  intros r2 w2 [Hany Hok]. destruct r2 as [st2|e]; [apply ends_ret|]; exists d2.
  - pose proof (Hok _ eq_refl) as Hst2. split; [done|]. split; [by right|right]. split; [done|]. eexists. split; [exact Hst2|].
    split; [by eapply committed_version|]. by intros x [= <-].
  - split; [done|]. split; [by right|]. destruct Hany as [Hsame|(v & Hst')]; [left|right].
    + split; [done|]. simpl. by rewrite Hsame.
    + split; [done|]. eexists. split; [exact Hst'|]. split; [by eapply committed_version|done].
Qed.

(** A body under the lease: the lease changes nothing that is shown. *)
Lemma exclusive_ends {A} run (body : prun A) s (I : option (CDCCheckpoint * Z) * list row -> Prop)
    (P : A -> option (CDCCheckpoint * Z) * list row -> Prop) :
  I (shown s) ->
  (forall s1, shown s1 = shown s -> ends body s1 (fun r s' => I (shown s') /\ forall a, r = Ok a -> P a (shown s'))) ->
  ends (_exclusive_projection_mutation ds run body) s (fun r s' => I (shown s') /\ forall a, r = Ok a -> P a (shown s')).
Proof using Type.
  intros HI Hbody. unfold _exclusive_projection_mutation.
  assert (Hkeep : forall B (m : eff W B) s1, (forall w, checkpoint_at (m w).2 ds = checkpoint_at w ds) ->
    ends (on_world m) s1 (fun _ s2 => shown s2 = shown s1)).
  { intros B m s1 Hm. apply ends_on_world. unfold ends, shown. simpl. by rewrite Hm. }
  apply ends_bind. eapply ends_impl; [apply Hkeep; intros w; apply uuid4_keeps|]. intros [token|e] s1 Hs1; [|by rewrite Hs1].
  apply ends_bind. eapply ends_impl; [apply Hkeep; intros w; apply now_keeps|]. intros [now|e] s2 Hs2; [|by rewrite Hs2, Hs1].
  apply ends_bind, ends_try. eapply ends_impl; [apply Hkeep; intros w; apply acquire_keeps|].
  intros [lease|e] s3 Hs3; rewrite Hs2, Hs1 in Hs3.
  2:{ apply ends_lift. destruct (String.eqb _ _); by rewrite Hs3. }
  unfold release_after. specialize (Hbody s3 Hs3). unfold ends in Hbody |- *. destruct (body s3) as [[a|e] s4]; cbn [fst snd] in Hbody.
  - destruct Hbody as [HI4 HP4]. specialize (HP4 a eq_refl). apply ends_bind, ends_try.
    eapply ends_impl; [apply Hkeep; intros w; apply release_keeps|]. intros [[]|e] s5 Hs5; [apply ends_ret|apply ends_lift]; rewrite Hs5.
    + split; [done|]. by intros a' [= <-].
    + split; [done|]. intros a' Ha. done.
  - destruct Hbody as [HI4 _]. apply ends_bind, ends_try.
    eapply ends_impl; [apply Hkeep; intros w; apply release_keeps|]. intros [[]|e'] s5 Hs5; apply ends_lift; rewrite Hs5.
    + split; [done|]. intros a' Ha. done.
    + split; [done|]. intros a' Ha. done.
Qed.

(** ** Synchronization *)

Context (history : Z -> list row).

(** The target holds, for every key, the projection of some version between the checkpoint and [top]. *)
Definition synced (top : Z) (o : option (CDCCheckpoint * Z) * list row) : Prop :=
  exists d, holds bk o.2 d /\ forall c, at_version o.1 c -> between bk pc flag history c top d.

(** The version an incremental run goes to. *)
Definition upper_of (e : DeltaEvidence) : Z := default (de_latest_available_version e) (de_requested_upper_version e).

(** The claims of the evidence hold: its records name the keys changed after the checkpoint, its rows are those of
    the affected keys at the snapshot version. *)
Definition truthful (e : DeltaEvidence) (o : option (CDCCheckpoint * Z) * list row) : Prop :=
  forall c, at_version o.1 c ->
  (de_history_cdf_complete_through_upper e = true ->
   names_changes bk pc flag history (de_history_cdf_records e) c (upper_of e)) /\
  (de_history_snapshot_complete_for_affected_keys e = true ->
   forall keys, _affected_keys (de_history_cdf_records e) bk (c + 1) (upper_of e) = Ok keys ->
     scoped bk keys (de_history_rows_at_upper e) = scoped bk keys (history (de_history_snapshot_version e))).

(** What a run to [upper] leaves. *)
Definition reached_upper (upper : Z) (r : CurrentProjectionExecutionResult) (o : option (CDCCheckpoint * Z) * list row) : Prop :=
  cpe_upper_processed_version r = upper /\ at_version o.1 upper /\
  exists positions, o.1 = Some (positions, cpe_checkpoint_version r).

Lemma synced_weaken top top' o : top <= top' -> synced top o -> synced top' o.
Proof using Type. intros Ht (d & Hd & Hb). exists d. split; [done|]. intros c Hc. eapply between_weaken; [| |by apply Hb]; lia. Qed.

Lemma projection_result_Ok r r' : make_CurrentProjectionExecutionResult r = Ok r' -> r' = r.
Proof using Type. unfold make_CurrentProjectionExecutionResult. destruct (_ || _); [done|]. by intros [= <-]. Qed.

Lemma at_version_unique ck c c' : at_version ck c -> at_version ck c' -> c = c'.
Proof using Type. unfold at_version. destruct ck as [[]|]; [congruence|done]. Qed.

Lemma delta_body_ends run required reconcile e s top :
  synced top (shown s) -> truthful e (shown s) ->
  ends (delta_projection_body (args run required reconcile) e) s (fun r s' =>
    synced (Z.max top (upper_of e)) (shown s') /\ forall res, r = Ok res -> reached_upper (upper_of e) res (shown s')).
Proof using Type.
  intros Hs Ht. assert (Hs' : synced (Z.max top (upper_of e)) (shown s)) by (eapply synced_weaken; [|done]; lia).
  unfold delta_projection_body. apply ends_bind, ends_on_world. cbn [pa_dataset_id args].
  eapply (ends_impl _ _ (fun r w => checkpoint_at w ds = checkpoint_at s.1 ds /\ forall st, r = Ok st -> content <$> st = checkpoint_at s.1 ds)).
  { unfold ends. split; [apply read_keeps|]. intros st. apply read_returns. }
  intros r w [Hw Hr]. assert (Hsh : shown (w, s.2) = shown s) by (unfold shown; simpl; by rewrite Hw).
  assert (Hfail : forall A (ex : exn) (Q : A -> Prop), synced (Z.max top (upper_of e)) (shown (w, s.2)) /\ forall x, Raise ex = Ok x -> Q x)
    by (intros; by rewrite Hsh).
  destruct r as [st|ex]; [|apply Hfail]. specialize (Hr _ eq_refl). destruct st as [st|]; [|apply ends_lift, Hfail].
  apply ends_bind, ends_lift. destruct (_processed_version _ _) as [lower|ex] eqn:Elower; [|apply Hfail].
  change (_processed_version (args 0 false None) (Some st) = Ok lower) in Elower.
  destruct lower as [c|].
  2:{ exfalso. simpl in Elower. destruct (partition_of _); [|done]. cbn [mbind res_bind] in Elower. destruct (negb _); [done|]. by destruct (position_for _ _) as [[|]|]. }
  change (at_version (Some (content st)) c) in Elower. assert (Hat : at_version (shown s).1 c) by (simpl; by rewrite <-Hr).
  apply ends_bind, ends_lift. destruct (plan_delta_cdf_resume _ _ _ _ _) as [p|ex] eqn:Eplan; [|apply Hfail].
  apply delta_resume_exact in Eplan as (_ & _ & Hu & Hstart & [Hc _] & _ & _ & _ & _ & Hup). fold (upper_of e) in Hu, Hc, Hup.
  destruct (delta_has_work p) eqn:Ework; cbn [negb].
  2:{ apply ends_lift. split; [by rewrite Hsh|]. intros res ->%projection_result_Ok. unfold reached_upper.
      rewrite Hsh. cbn [cpe_upper_processed_version cpe_checkpoint_version]. rewrite Hup.
      unfold delta_has_work in Ework. assert (upper_of e = c) as -> by lia. split; [done|]. split; [done|]. by eexists. }
  apply ends_bind, ends_lift. destruct (check_delta_evidence e p) as [[]|ex] eqn:Echeck; [|apply Hfail].
  unfold check_delta_evidence in Echeck. destruct (de_history_cdf_complete_through_upper e) eqn:Ecdf; [|done]. cbn [negb] in Echeck.
  destruct (de_history_snapshot_complete_for_affected_keys e) eqn:Esnap; [|done]. cbn [negb] in Echeck.
  destruct (de_history_snapshot_version e =? dp_upper_version p) eqn:Ever; [|done]. apply Z.eqb_eq in Ever. clear Echeck.
  destruct (Ht c Hat) as [Hnames Hrows]. specialize (Hnames Ecdf). specialize (Hrows Esnap). rewrite Ever, Hup in Hrows.
  apply ends_bind, ends_lift. cbn [pa_business_key args]. rewrite Hstart, Hup.
  destruct (_affected_keys _ _ _ _) as [keys|ex] eqn:Ekeys; [|apply Hfail]. specialize (Hrows keys eq_refl).
  apply ends_bind, ends_lift. destruct (_assert_history_scope _ _ _) as [[]|ex]; [|apply Hfail].
  destruct Hs as (d & Hd & Hb). specialize (Hb c Hat).
  assert (Hmoved : forall d', moved (Some keys) (de_history_rows_at_upper e) d d' ->
    between bk pc flag history (upper_of e) (Z.max top (upper_of e)) d').
  { intros d' Hm. eapply projected_between; [|done..]. lia. }
  apply ends_bind. eapply ends_impl; [apply apply_and_commit_ends; exact Hd|].
  intros r2 s2 (d' & Hd' & Hdd & Hcase).
  assert (Hsync : synced (Z.max top (upper_of e)) (shown s2)).
  { exists d'. split; [done|]. intros c' Hc'. destruct Hcase as [[_ Hck]|(Hm & st' & Hst' & Hat' & _)].
    - rewrite Hck, Hsh in Hc'. rewrite (at_version_unique _ _ _ Hc' Hat). destruct Hdd as [->|Hm].
      + eapply between_weaken; [| |exact Hb]; lia.
      + eapply between_weaken; [| |by apply Hmoved]; lia.
    - rewrite Hst' in Hc'. rewrite (at_version_unique _ _ _ Hc' Hat'). by apply Hmoved. }
  destruct r2 as [x|ex]; [|done]. apply ends_lift. split; [done|]. intros res ->%projection_result_Ok.
  destruct Hcase as [[? _]|(_ & [positions v'] & Hst' & Hat' & Hx)]; [done|]. unfold reached_upper. rewrite Hst'. split; [done|].
  split; [done|]. exists positions. cbn. by rewrite (Hx x eq_refl).
Qed.

Lemma rebuild_body_ends run required reconcile v s top :
  synced top (shown s) -> 0 <= v ->
  ends (rebuild_projection_body (args run required reconcile) (history v) v) s (fun r s' =>
    synced (Z.max top v) (shown s') /\ forall res, r = Ok res -> reached_upper v res (shown s')).
Proof using Type.
  intros Hs Hv. assert (Hs' : synced (Z.max top v) (shown s)) by (eapply synced_weaken; [|done]; lia).
  unfold rebuild_projection_body. apply ends_bind, ends_on_world. cbn [pa_dataset_id args].
  eapply (ends_impl _ _ (fun r w => checkpoint_at w ds = checkpoint_at s.1 ds /\ forall st, r = Ok st -> content <$> st = checkpoint_at s.1 ds)).
  { unfold ends. split; [apply read_keeps|]. intros st. apply read_returns. }
  intros r w [Hw Hr]. assert (Hsh : shown (w, s.2) = shown s) by (unfold shown; simpl; by rewrite Hw).
  assert (Hfail : forall A (ex : exn) (Q : A -> Prop), synced (Z.max top v) (shown (w, s.2)) /\ forall x, Raise ex = Ok x -> Q x)
    by (intros; by rewrite Hsh).
  destruct r as [st|ex]; [|apply Hfail]. specialize (Hr _ eq_refl).
  apply ends_bind, ends_lift. destruct (_processed_version _ _) as [lower|ex] eqn:Elower; [|apply Hfail].
  change (_processed_version (args 0 false None) st = Ok lower) in Elower.
  destruct (match lower with Some c => v <? c | None => false end) eqn:Erewind; [apply ends_lift, Hfail|].
  destruct Hs as (d & Hd & Hb).
  assert (Hmoved : forall d', moved None (history v) d d' -> between bk pc flag history v (Z.max top v) d').
  { intros d' Hm k. exists v. split; [lia|]. eapply projected_agrees; [|exact (Hm k)]. done. }
  apply ends_bind. eapply ends_impl; [apply apply_and_commit_ends; exact Hd|].
  intros r2 s2 (d' & Hd' & Hdd & Hcase).
  assert (Hsync : synced (Z.max top v) (shown s2)).
  { exists d'. split; [done|]. intros c' Hc'. destruct Hcase as [[_ Hck]|(Hm & st' & Hst' & Hat' & _)].
    - rewrite Hck, Hsh in Hc'. destruct Hdd as [->|Hm]; [eapply between_weaken; [| |by apply Hb]; lia|].
      eapply between_weaken; [| |by apply Hmoved]; [|lia]. simpl in Hc'. rewrite <-Hr in Hc'.
      destruct st as [st|]; [|done]. change (_processed_version (args 0 false None) (Some st) = Ok (Some c')) in Hc'.
      rewrite Elower in Hc'. injection Hc' as ->. lia.
    - rewrite Hst' in Hc'. rewrite (at_version_unique _ _ _ Hc' Hat'). by apply Hmoved. }
  destruct r2 as [x|ex]; [|done]. apply ends_lift. split; [done|]. intros res ->%projection_result_Ok.
  destruct Hcase as [[? _]|(_ & [positions v'] & Hst' & Hat' & Hx)]; [done|]. unfold reached_upper. rewrite Hst'. split; [done|].
  split; [done|]. exists positions. cbn. by rewrite (Hx x eq_refl).
Qed.

(** A call of one of the two executors, on evidence of the caller. *)
Inductive projection_call :=
| Incremental (run : N) (required : bool) (reconcile : option (CurrentProjectionApplyResult -> res bool)) (e : DeltaEvidence)
| FullRebuild (run : N) (required : bool) (reconcile : option (CurrentProjectionApplyResult -> res bool))
    (history_rows : list row) (history_snapshot_version : Z) (history_snapshot_complete : bool).

Definition projection_program (c : projection_call) : prun CurrentProjectionExecutionResult :=
  match c with
  | Incremental run required reconcile e => execute_delta_current_projection (args run required reconcile) e
  | FullRebuild run required reconcile rows v complete =>
    rebuild_delta_current_projection (args run required reconcile) rows v complete
  end.

Definition upper_version (c : projection_call) : Z :=
  match c with Incremental _ _ _ e => upper_of e | FullRebuild _ _ _ _ v _ => v end.

(** What the evidence of a call claims is true. *)
Definition evidence_true (c : projection_call) (o : option (CDCCheckpoint * Z) * list row) : Prop :=
  match c with
  | Incremental _ _ _ e => truthful e o
  | FullRebuild _ _ _ rows v complete => complete = true -> rows = history v
  end.

Lemma call_ends c s top : synced top (shown s) -> evidence_true c (shown s) ->
  ends (projection_program c) s (fun r s' =>
    synced (Z.max top (upper_version c)) (shown s') /\ forall res, r = Ok res -> reached_upper (upper_version c) res (shown s')).
Proof using Type.
  intros Hs Ht. assert (Hs' : synced (Z.max top (upper_version c)) (shown s)) by (eapply synced_weaken; [|done]; lia).
  assert (Hfail : forall A (ex : exn) (Q : A -> Prop), synced (Z.max top (upper_version c)) (shown s) /\ forall x, Raise ex = Ok x -> Q x)
    by done.
  destruct c as [run required reconcile e|run required reconcile rows v complete]; simpl in *.
  - unfold execute_delta_current_projection. apply ends_bind, ends_lift. destruct (check_projection_args _) as [[]|ex]; [|apply Hfail].
    apply ends_bind, ends_lift. destruct (require_reconcile _) as [[]|ex]; [|apply Hfail].
    apply exclusive_ends; [done|]. intros s1 Hs1. apply delta_body_ends; by rewrite Hs1.
  - unfold rebuild_delta_current_projection. apply ends_bind, ends_lift. destruct (check_projection_args _) as [[]|ex]; [|apply Hfail].
    destruct (v <? 0) eqn:Ev; [apply ends_lift, Hfail|]. destruct complete; cbn [negb]; [|apply ends_lift, Hfail].
    rewrite (Ht eq_refl). apply ends_bind, ends_lift. destruct (require_reconcile _) as [[]|ex]; [|apply Hfail].
    apply exclusive_ends; [done|]. intros s1 Hs1. apply rebuild_body_ends; [by rewrite Hs1|lia].
Qed.

(** The states that calls reach from an uninitialized projection, whatever happens to each of them; [top] is the
    greatest version any of them was to go to. *)
Inductive reaches : Z -> W * Tg -> Prop :=
| reaches_start s d : checkpoint_at s.1 ds = None -> holds bk (target_rows s.2) d -> reaches 0 s
| reaches_call top s c r s' : reaches top s -> evidence_true c (shown s) -> projection_program c s = (r, s') ->
    reaches (Z.max top (upper_version c)) s'.

Lemma reaches_synced top s : reaches top s -> synced top (shown s).
Proof using Type.
  induction 1 as [s d Hck Hd|top s c r s' _ IH Ht Hrun].
  - exists d. split; [done|]. intros c Hc. simpl in Hc. by rewrite Hck in Hc.
  - pose proof (call_ends c s top IH Ht) as [Hs _]. by rewrite Hrun in Hs.
Qed.

(** C19. Current projection runs synchronize the target with the authoritative history, on any control plane and any
    target that keep their contracts, whatever calls fail and whether or not they took effect.  After any sequence of
    incremental runs and rebuilds on truthful evidence the target holds one row per key, and shows every key as the
    projection of the history does at some version between the checkpoint and the greatest version a run went to: the
    checkpoint is never ahead of the target.  A run that returns has its upper version as checkpoint, in the version
    it reports; unless an earlier run went beyond that version, the target then shows exactly the projection of the
    history at it.  A shown row is the projected one or one whose columns mean the same, for rows with aware datetimes
    and decimals of at most 28 digits and unless the SHA-256 digests of two texts collide. *)
Theorem projection_synchronizes `{!TypedTextLaws} top s c r s' :
  reaches top s -> evidence_true c (shown s) -> projection_program c s = (r, s') ->
  exists d, holds bk (target_rows s'.2) d /\
    (forall v, at_version (checkpoint_at s'.1 ds) v ->
       forall k, exists u, v <= u <= Z.max top (upper_version c) /\ mirrors bk pc flag history d k u) /\
    forall result, r = Ok result ->
      cpe_upper_processed_version result = upper_version c /\ at_version (checkpoint_at s'.1 ds) (upper_version c) /\
      (exists positions, checkpoint_at s'.1 ds = Some (positions, cpe_checkpoint_version result)) /\
      (top <= upper_version c -> forall k, mirrors bk pc flag history d k (upper_version c)).
Proof using Type.
  intros Hreach Ht Hrun. pose proof (call_ends c s top (reaches_synced _ _ Hreach) Ht) as Hends. unfold ends in Hends.
  rewrite Hrun in Hends. destruct Hends as [(d & Hd & Hb) Hok]. exists d. split; [done|]. split.
  { intros v Hv k. destruct (Hb v Hv k) as (u & Hu & Ha). exists u. split; [done|]. by apply agrees_shows. }
  intros result Hr. destruct (Hok _ Hr) as (Hu & Hat & Hst). split; [done|]. split; [done|]. split; [done|].
  intros Htop k. apply (agrees_shows bk pc flag history). specialize (Hb _ Hat). rewrite Z.max_r in Hb by done. by apply (between_exact bk pc flag history).
Qed.
End runs.

(** ** The control plane of the repository *)

(** The programs of [control_plane/io.py] and [control_plane/dataset_lease.py], run alone on databases whose answers
    are documented; failures of the checkpoint database included. *)
Section sql_world.
Context {PS LS : Type} (pexec : PS -> Progress.statement -> Progress.answer * PS) (pview : PS -> progress_tables).
Context (lexec : LS -> ControlPlane.statement -> ControlPlane.answer * LS).
Context (clock : nat -> datetime) (uuid : nat -> string).
Context (pexec_documented : forall s q, Progress.documented (pview s) q (pexec s q).1 (pview (pexec s q).2)).

Record sql_state := { sq_progress : PS; sq_leases : LS; sq_calls : nat }.

Definition on_progress {A} (p : Progress.sql A) : eff sql_state A := fun w =>
  let '(r, ps) := run_alone pexec p (sq_progress w) in
  (r, {| sq_progress := ps; sq_leases := sq_leases w; sq_calls := S (sq_calls w) |}).
Definition on_leases {A} (p : ControlPlane.sql A) : eff sql_state A := fun w =>
  let '(r, ls) := run_alone lexec p (sq_leases w) in
  (r, {| sq_progress := sq_progress w; sq_leases := ls; sq_calls := S (sq_calls w) |}).
Definition reading {A} (f : nat -> A) : eff sql_state A := fun w =>
  (Ok (f (sq_calls w)), {| sq_progress := sq_progress w; sq_leases := sq_leases w; sq_calls := S (sq_calls w) |}).

#[local] Instance sql_world : ProjectionWorld sql_state := {
  projection_now := reading clock;
  projection_uuid4 := reading uuid;
  acquire_lease dataset_id owner run deadline := fun w =>
    on_leases (acquire_dataset_lease dataset_id owner run deadline (clock (sq_calls w))) w;
  release_lease lease := on_leases (release_dataset_lease lease);
  read_checkpoint dataset_id := on_progress (read_cdc_checkpoint dataset_id);
  commit_checkpoint dataset_id checkpoint run expected gate := fun w =>
    on_progress (commit_cdc_checkpoint dataset_id checkpoint run expected gate (clock (sq_calls w))) w
}.

Definition stored (r : checkpoint_row) : CDCCheckpoint * Z := (kr_positions r, kr_version r).

Lemma checkpoint_from_row_stored r st : _checkpoint_from_row r = Ok st -> content st = stored r.
Proof using Type. intros [? ?]%checkpoint_from_row_Ok. unfold content, stored. congruence. Qed.

Lemma select_answered s d a s' : pexec s (SelectCheckpoint d) = (a, s') ->
  pview s' = pview s /\ forall r, a = ACheckpoint r -> stored <$> r = stored <$> pt_checkpoints (pview s) !! d.
Proof using pexec_documented.
  intros E. pose proof (pexec_documented s (SelectCheckpoint d)) as Hd. rewrite E in Hd. simpl in Hd.
  inversion Hd as [a' Hdr Ha Hv|Hw Ha Hv|t' Ht Ha Hv]; subst; [|done|by destruct Ht].
  split; [done|]. intros r ->. simpl in Hdr. inversion Hdr as [r1 r2 Hr| | | |]; subst.
  destruct Hr as [r1 r2 (c & u & _ & _ & ->)|]; [|done]. done.
Qed.

Lemma write_answered s q a s' : is_write q = true -> pexec s q = (a, s') ->
  (pview s' = pview s \/ pview s' = (exec_tables (pview s) q).2) /\
  forall n, a = ARowcount n -> (exec_tables (pview s) q).1 = ARowcount n /\ pview s' = (exec_tables (pview s) q).2.
Proof using pexec_documented.
  intros Hw E. pose proof (pexec_documented s q) as Hd. rewrite E in Hd. simpl in Hd.
  inversion Hd as [a' Hdr Ha Hv|Hw' Ha Hv|t' Ht Ha Hv]; subst.
  - split; [by right|]. intros n ->. by inversion Hdr; subst.
  - split; [by left|done].
  - split; [done|done].
Qed.

Definition sql_checkpoint (w : sql_state) (d : string) : option (CDCCheckpoint * Z) :=
  stored <$> pt_checkpoints (pview (sq_progress w)) !! d.

Lemma run_pure {A B} (m : res A) (f : A -> Progress.sql B) s :
  run_alone pexec (pure m ≫= f) s = match m with Ok a => run_alone pexec (f a) s | Raise e => (Raise e, s) end.
Proof using Type. by destruct m. Qed.

Definition found_in (t : progress_tables) (d : string) : option (CDCCheckpoint * Z) := stored <$> pt_checkpoints t !! d.

(** A commit, statement by statement. *)
Lemma commit_alone d checkpoint run expected gate now s r s' :
  run_alone pexec (commit_cdc_checkpoint d checkpoint run expected gate now) s = (r, s') ->
  let found t := stored <$> pt_checkpoints (pview t) !! d in
  (found s' = found s \/ exists v, found s' = Some (checkpoint, v)) /\
  forall st, r = Ok st -> found s' = Some (checkpoint, cs_version st).
Proof using pexec_documented.
  intros Hrun found. unfold commit_cdc_checkpoint in Hrun. destruct (expected <? 0).
  { cbn in Hrun. injection Hrun as <- <-. split; [by left|done]. }
  unfold select_checkpoint in Hrun. cbn [mbind prog_bind prog_then run_alone] in Hrun.
  destruct (pexec s (SelectCheckpoint d)) as [a s1] eqn:Esel. destruct (select_answered _ _ _ _ Esel) as [Hs1 Ha].
  assert (Hstop : forall e s2, found s2 = found s -> (Raise e, s2) = (r, s') ->
    (found s' = found s \/ exists v, found s' = Some (checkpoint, v)) /\ forall st, r = Ok st -> found s' = Some (checkpoint, cs_version st)).
  { intros e s2 Hs2 [= <- <-]. split; [by left|done]. }
  assert (Hfound1 : found s1 = found s) by (unfold found; by rewrite Hs1).
  destruct a as [row| | | | |]; try by (eapply (Hstop _ s1 Hfound1); exact Hrun). specialize (Ha _ eq_refl).
  assert (Hwritten : forall q m a2 s2, is_write q = true -> pexec s1 q = (a2, s2) ->
    ((exec_tables (pview s1) q).2 = pview s1 \/ found_in (exec_tables (pview s1) q).2 d = Some (checkpoint, m)) ->
    found s2 = found s \/ found s2 = Some (checkpoint, m)).
  { intros q m a2 s2 Hw Eq Hex. destruct (write_answered _ _ _ _ Hw Eq) as [[Hs2|Hs2] _]; unfold found; rewrite Hs2.
    - left. by rewrite Hs1.
    - destruct Hex as [->|Hex]; [left; by rewrite Hs1|by right]. }
  assert (Hend : forall m s2, (found s2 = found s \/ found s2 = Some (checkpoint, m)) ->
    forall r2, (r2, s2) = (r, s') -> (forall st, r2 = Ok st -> found s2 = Some (checkpoint, cs_version st)) ->
    (found s' = found s \/ exists v, found s' = Some (checkpoint, v)) /\ forall st, r = Ok st -> found s' = Some (checkpoint, cs_version st)).
  { intros m s2 Hfound r2 [= -> <-] Hr2. split; [destruct Hfound as [?|?]; [by left|right; by eexists]|done]. }
  destruct row as [row|]; cbn [prog_then run_alone] in Hrun.
  - rewrite run_pure in Hrun. destruct (_checkpoint_from_row row) as [cur|e] eqn:Erow; [|exact (Hstop _ s1 Hfound1 Hrun)].
    apply checkpoint_from_row_stored in Erow. destruct (cs_version cur =? expected) eqn:Ever; cbn [negb] in Hrun; [|exact (Hstop _ s1 Hfound1 Hrun)].
    apply Z.eqb_eq in Ever. rewrite run_pure in Hrun. destruct (validate_transition _) as [[]|e]; [|exact (Hstop _ s1 Hfound1 Hrun)].
    unfold affected_rows in Hrun. cbn [mbind prog_bind prog_then run_alone] in Hrun. destruct (pexec s1 _) as [a2 s2] eqn:Eup.
    set (q := UpdateCheckpoint _ _ _) in *.
    assert (Hexec : (exec_tables (pview s1) q).2 = pview s1 \/ found_in (exec_tables (pview s1) q).2 d = Some (checkpoint, cs_version cur + 1)).
    { unfold q, found_in. simpl. destruct (pt_checkpoints (pview s1) !! d) as [row1|] eqn:Er1; [|by left].
      destruct (kr_version row1 =? expected); [right|by left]. simpl. by rewrite lookup_insert_eq. }
    pose proof (Hwritten q _ a2 s2 eq_refl Eup Hexec) as Hfound.
    pose proof (Hend _ s2 Hfound) as Hstop2.
    destruct a2 as [| | |n| |]; cbn [prog_then run_alone sql_error] in Hrun; try exact (Hstop2 _ Hrun ltac:(done)).
    destruct (Nat.eqb n 1) eqn:En; cbn [negb run_alone pure] in Hrun; [|exact (Hstop2 _ Hrun ltac:(done))].
    eapply Hstop2; [exact Hrun|]. unfold make_CDCCheckpointState. intros st Hst. destruct (_ || _); [done|]. injection Hst as <-. simpl.
    destruct (write_answered _ q _ _ eq_refl Eup) as [_ Hrow]. destruct (Hrow n eq_refl) as [Hn Hs2].
    unfold found. rewrite Hs2. apply Nat.eqb_eq in En as ->. unfold q in Hn |- *. simpl in Hn |- *.
    destruct (pt_checkpoints (pview s1) !! d) as [row1|]; [|done]. destruct (kr_version row1 =? expected); [|done].
    simpl. by rewrite lookup_insert_eq.
  - destruct (expected =? 0); cbn [negb] in Hrun; [|exact (Hstop _ s1 Hfound1 Hrun)].
    rewrite run_pure in Hrun. destruct (validate_transition _) as [[]|e]; [|exact (Hstop _ s1 Hfound1 Hrun)].
    rewrite run_pure in Hrun. unfold make_CDCCheckpointState in Hrun. destruct (_ || _); [exact (Hstop _ s1 Hfound1 Hrun)|].
    unfold affected_rows in Hrun. cbn [mbind prog_bind prog_then run_alone] in Hrun. destruct (pexec s1 _) as [a2 s2] eqn:Eup.
    set (q := InsertCheckpoint _) in *.
    assert (Hexec : (exec_tables (pview s1) q).2 = pview s1 \/ found_in (exec_tables (pview s1) q).2 d = Some (checkpoint, 1)).
    { unfold q, found_in. simpl. unfold insert_new. destruct (pt_checkpoints (pview s1) !! d) as [row1|]; [by left|right].
      simpl. by rewrite lookup_insert_eq. }
    pose proof (Hend _ s2 (Hwritten q _ a2 s2 eq_refl Eup Hexec)) as Hstop2.
    destruct a2 as [| | |n| |]; cbn [prog_then run_alone sql_error] in Hrun; try exact (Hstop2 _ Hrun ltac:(done)).
    eapply Hstop2; [exact Hrun|]. intros st [= <-]. simpl. destruct (write_answered _ q _ _ eq_refl Eup) as [_ Hrow].
    destruct (Hrow n eq_refl) as [Hn Hs2]. unfold found. rewrite Hs2. unfold q in Hn |- *. simpl in Hn |- *. unfold insert_new in *.
    destruct (pt_checkpoints (pview s1) !! d) as [row1|]; [done|]. simpl. by rewrite lookup_insert_eq.
Qed.

(** The control plane keeps the contract of a run. *)
#[local] Program Instance sql_world_lawful : LawfulProjectionWorld sql_state := { checkpoint_at := sql_checkpoint }.
Next Obligation. done. Qed.
Next Obligation. done. Qed.
Next Obligation. intros. simpl. unfold on_leases. by destruct (run_alone lexec _ _). Qed.
Next Obligation. intros. simpl. unfold on_leases. by destruct (run_alone lexec _ _). Qed.
Next Obligation.
  intros dataset_id w d. simpl. unfold on_progress. destruct (run_alone pexec _ _) as [r ps] eqn:E. unfold sql_checkpoint. simpl.
  unfold read_cdc_checkpoint, select_checkpoint in E. cbn [mbind prog_bind prog_then run_alone] in E.
  destruct (pexec (sq_progress w) _) as [a s1] eqn:Esel. destruct (select_answered _ _ _ _ Esel) as [Hs1 _]. rewrite <-Hs1.
  destruct a as [[row|]| | | | |]; cbn [prog_then run_alone] in E; try (injection E as _ <-; done).
  rewrite run_pure in E. destruct (_checkpoint_from_row row); by injection E as _ <-.
Qed.
Next Obligation.
  intros dataset_id w st. simpl. unfold on_progress. destruct (run_alone pexec _ _) as [r ps] eqn:E. unfold sql_checkpoint. simpl.
  intros ->. unfold read_cdc_checkpoint, select_checkpoint in E. cbn [mbind prog_bind prog_then run_alone] in E.
  destruct (pexec (sq_progress w) _) as [a s1] eqn:Esel. destruct (select_answered _ _ _ _ Esel) as [_ Ha].
  destruct a as [row| | | | |]; try done. specialize (Ha _ eq_refl). rewrite <-Ha.
  destruct row as [row|]; cbn [prog_then run_alone] in E.
  - rewrite run_pure in E. destruct (_checkpoint_from_row row) as [cur|] eqn:Erow; [|done]. injection E as <- _. simpl.
    by rewrite (checkpoint_from_row_stored _ _ Erow).
  - by injection E as <- _.
Qed.
Next Obligation.
  intros dataset_id positions checkpoint run expected gate w _. unfold ends. simpl. unfold on_progress.
  destruct (run_alone pexec _ _) as [r ps] eqn:E. simpl. by apply commit_alone in E.
Qed.
End sql_world.

(** The reference target keeps its contract. *)
#[export] Program Instance memory_target_lawful `{PyRuntime} : LawfulProjectionTarget (list row) := { target_rows := id }.
Next Obligation.
  intros ? business_key keys t. unfold ends. simpl. split; [done|]. intros rows Hr. by exists rows.
Qed.
Next Obligation.
  intros ? result business_key t. unfold ends. simpl. destruct (memory_apply t result business_key) as [rows|e] eqn:E; simpl; [right|by left].
  by exists rows.
Qed.

(** ** Witnesses *)

(** The records name the changes, checked on the keys of the two versions. *)
Definition named (records : list DeltaCDFRecord) (bk : list string) (v : Z) (d1 d2 : list (list value * row)) : bool :=
  forallb (fun k => bool_decide (dget d1 k = dget d2 k)
                    || existsb (fun r => (dr_commit_version r =? v) && keq (row_key bk (dr_data r)) k) records)
    (map fst (d1 ++ d2)).

Lemma names_changes_named bk pc flag history records c upper :
  (forall v, c < v <= upper -> named records bk v (current bk pc flag history (v - 1)) (current bk pc flag history v) = true) ->
  names_changes bk pc flag history records c upper.
Proof.
  intros Hall k v Hv Hne. specialize (Hall v Hv). unfold named in Hall. rewrite forallb_forall in Hall.
  set (d1 := current bk pc flag history (v - 1)) in *. set (d2 := current bk pc flag history v) in *.
  assert (exists k', k' ∈ map fst (d1 ++ d2) /\ keq k' k = true) as (k' & Hin & Hk).
  { destruct (dget d1 k) as [x|] eqn:E1.
    - apply dget_Some_elem in E1 as (k' & ? & ?). exists k'. split; [|done]. apply list_elem_of_fmap. exists (k', x). split; [done|]. apply elem_of_app. by left.
    - destruct (dget d2 k) as [x|] eqn:E2; [|done]. apply dget_Some_elem in E2 as (k' & ? & ?). exists k'. split; [|done].
      apply list_elem_of_fmap. exists (k', x). split; [done|]. apply elem_of_app. by right. }
  specialize (Hall k' ltac:(by apply list_elem_of_In)). rewrite !(dget_compat _ k' k Hk) in Hall.
  rewrite bool_decide_false in Hall by done. apply existsb_elem in Hall as (r & Hr & [Hrv Hrk]%andb_true_iff).
  exists r. split; [done|]. split; [lia|]. by eapply keq_trans.
Qed.

Module Demo.

(** Version 2 closes the row of key 1 and opens two rows, version 3 closes key 1 for good. *)
Definition history (v : Z) : list row :=
  if v =? 1 then demo_before else if v =? 2 then demo_after
  else [demo_version 1 "a" false; demo_version 2 "b" true; demo_version 1 "c" false; demo_version 3 "d" true].

Definition record (v key : Z) : DeltaCDFRecord :=
  {| dr_change_type := CT_UPDATE_POSTIMAGE; dr_commit_version := v; dr_commit_timestamp := utc v; dr_data := {[ "id" := VInt key ]} |}.
Definition records : list DeltaCDFRecord := [record 2 1; record 2 3; record 3 1].

Definition evidence (upper : Z) : DeltaEvidence :=
  {| de_history_cdf_records := List.filter (fun r => dr_commit_version r <=? upper) records;
     de_history_rows_at_upper := scoped ["id"] [[VInt 1]; [VInt 3]] (history upper);
     de_history_snapshot_version := upper; de_earliest_available_version := 0; de_latest_available_version := upper;
     de_requested_upper_version := None; de_history_cdf_complete_through_upper := true;
     de_history_snapshot_complete_for_affected_keys := true |}.

(** A database that loses one connection. *)
Definition flaky (s : progress_tables * nat) (q : Progress.statement) : Progress.answer * (progress_tables * nat) :=
  if Nat.eqb s.2 5 then (Progress.AFailed, (s.1, S s.2))
  else let '(a, t) := Progress.exec_tables s.1 q in (a, (t, S s.2)).

Lemma flaky_documented s q : Progress.documented s.1 q (flaky s q).1 (flaky s q).2.1.
Proof.
  destruct s as [t n]. unfold flaky. simpl. destruct (Nat.eqb n 5); [by apply doc_failed; left|].
  pose proof (Progress.Demo.progress_memory_lawful t q) as Hl. destruct (Progress.exec_tables t q) as [a t'] eqn:E. simpl. by apply Hl.
Qed.

Definition clock (n : nat) : datetime := utc (Z.of_nat n).
Definition uuid (n : nat) : string := "run".
#[local] Notation world := (@sql_state (progress_tables * nat) tables).
#[local] Instance plane : ProjectionWorld world := sql_world flaky memory_exec clock uuid.
#[local] Instance plane_lawful : LawfulProjectionWorld world :=
  sql_world_lawful flaky fst memory_exec clock uuid flaky_documented.
#[local] Existing Instance demo_runtime.
#[local] Existing Instance demo_scalars.

Definition start : world * list row :=
  ({| sq_progress := (Progress.Demo.no_progress, 0%nat); sq_leases := no_tables; sq_calls := 0 |}, []).

Definition rebuild : projection_call := FullRebuild 1 false None (history 1) 1 true.
Definition increment (run : N) (upper : Z) : projection_call := Incremental run false None (evidence upper).
#[local] Notation program := (projection_program (W := world) (Tg := list row) "customer" "silver.customer" ["id"] ["id"; "v"] IS_CURRENT).

Definition s1 := (program rebuild start).2.
Definition s2 := (program (increment 2 2) s1).2.
Definition s3 := (program (increment 3 3) s2).2.

(** The commit of the second run fails after the target was changed; the third run catches up. *)
Definition report (r : res CurrentProjectionExecutionResult) : option (option Z * Z * Z) :=
  match r with
  | Ok x => Some (cpe_lower_processed_version x, cpe_upper_processed_version x, cpe_checkpoint_version x)
  | Raise _ => None
  end.
Definition contents (rows : list row) : list (value * value) := map (fun r => (get r "id", get r "v")) rows.

Example first_outcome :
  (report (program rebuild start).1, contents s1.2) = (Some (None, 1, 1), [(VInt 1, VStr "a"); (VInt 2, VStr "b")]).
Proof. vm_compute. reflexivity. Qed.
Example second_outcome : ((program (increment 2 2) s1).1, contents s2.2) =
  (raise "OperationalError" "", [(VInt 1, VStr "c"); (VInt 2, VStr "b"); (VInt 3, VStr "d")]).
Proof. vm_compute. reflexivity. Qed.
Lemma third_report : report (program (increment 3 3) s2).1 = Some (Some 1, 3, 2).
Proof. vm_compute. reflexivity. Qed.
Lemma third_contents : contents (target_rows s3.2) = [(VInt 2, VStr "b"); (VInt 3, VStr "d")].
Proof. vm_compute. reflexivity. Qed.

#[local] Notation at_ := (at_version "customer" "silver.customer" ["id"] ["id"; "v"] IS_CURRENT).
#[local] Notation shows := (shown (W := world) (Tg := list row) "customer").

Lemma stands_at : at_ (shows s1).1 1 /\ at_ (shows s2).1 1.
Proof. split; vm_compute; reflexivity. Qed.

Lemma scoped_idempotent keys rows : scoped ["id"] keys (scoped ["id"] keys rows) = scoped ["id"] keys rows.
Proof.
  unfold scoped. induction rows as [|r rows IH]; [done|]. cbn [List.filter]. destruct (affected keys _) eqn:E; [|done].
  cbn [List.filter]. rewrite E. by f_equal.
Qed.

Lemma affected_2 : _affected_keys (de_history_cdf_records (evidence 2)) ["id"] 2 2 = Ok [[VInt 1]; [VInt 3]].
Proof. vm_compute. reflexivity. Qed.
Lemma affected_3 : _affected_keys (de_history_cdf_records (evidence 3)) ["id"] 2 3 = Ok [[VInt 1]; [VInt 3]].
Proof. vm_compute. reflexivity. Qed.

Lemma evidence_holds upper s : upper = 2 \/ upper = 3 -> at_ (shows s).1 1 ->
  evidence_true "customer" "silver.customer" ["id"] ["id"; "v"] IS_CURRENT history (increment 9 upper) (shows s).
Proof.
  intros Hu Hat c Hc. rewrite <-(at_version_unique _ _ _ _ _ _ _ _ Hat Hc). clear Hat Hc s c. split.
  - intros _. apply names_changes_named. intros v Hv. destruct Hu as [-> | ->]; unfold upper_of in Hv; simpl in Hv.
    + assert (v = 2) as -> by lia. vm_compute. reflexivity.
    + assert (v = 2 \/ v = 3) as [-> | ->] by lia; vm_compute; reflexivity.
  - intros _ keys Hkeys. destruct Hu as [-> | ->].
    + pose proof (eq_trans (eq_sym Hkeys) affected_2) as E. injection E as ->. apply scoped_idempotent.
    + pose proof (eq_trans (eq_sym Hkeys) affected_3) as E. injection E as ->. apply scoped_idempotent.
Qed.

#[local] Notation reached := (reaches (W := world) (Tg := list row) "customer" "silver.customer" ["id"] ["id"; "v"] IS_CURRENT history).

Lemma run_split c s : program c s = ((program c s).1, (program c s).2).
Proof. apply surjective_pairing. Qed.

Lemma reached_s2 : reached 2 s2.
Proof.
  apply (reaches_call _ _ _ _ _ _ 1 s1 (increment 2 2) (program (increment 2 2) s1).1 s2); [|apply (evidence_holds 2); [by left|apply stands_at]|apply run_split].
  apply (reaches_call _ _ _ _ _ _ 0 start rebuild (program rebuild start).1 s1); [|done|apply run_split].
  eapply (reaches_start _ _ _ _ _ _ start []); vm_compute; reflexivity.
Qed.

Lemma projection_synchronizes_witness :
  contents (target_rows s3.2) = [(VInt 2, VStr "b"); (VInt 3, VStr "d")] /\
  exists d, holds ["id"] (target_rows s3.2) d /\ forall k, mirrors ["id"] ["id"; "v"] IS_CURRENT history d k 3.
Proof.
  split; [exact third_contents|].
  destruct (projection_synchronizes (H1 := demo_text_laws) "customer" "silver.customer" ["id"] ["id"; "v"] IS_CURRENT history 2 s2 (increment 3 3)
    (program (increment 3 3) s2).1 s3 reached_s2 (evidence_holds 3 s2 (or_intror eq_refl) (proj2 stands_at)) (run_split _ _))
    as (d & Hd & _ & Hok).
  exists d. split; [exact Hd|]. pose proof third_report as Hthird.
  destruct (program (increment 3 3) s2).1 as [result|e]; [|exfalso; discriminate Hthird].
  destruct (Hok result eq_refl) as (_ & _ & _ & Hexact). apply Hexact. vm_compute. discriminate.
Defined.
End Demo.
