(* ===== verification/RebuildImpact.v ===== *)
(** * Rebuild impact planning ([contracts/rebuild_impact.py], [recovery/rebuild_impact.py])

    When a dataset has lost trust, everything built from it is contaminated.  The plan holds the
    downstream closure of the roots, in waves that can be rebuilt one after another, with the
    scope of every rebuild.  The depth-first search is the one of the dispatch planner; its
    decision is carried over by a simulation. *)

From stdpp Require Import base gmap strings list relations sorting.
From S2P Require Import Prelude PyDict ConfigTypes Config RunContracts Planner.
#[local] Open Scope Z_scope.

Notation deployed := (list (string * DatasetConfig)).

Definition impact_error {A} (site : string) : res A := raise "RebuildImpactError" site.

(** ** Contracts *)

Inductive RepairIssueOrigin := TARGET_LOGIC | CAPTURE_DATA | CAPTURE_SEMANTICS.
#[export] Instance RepairIssueOrigin_eq_dec : EqDecision RepairIssueOrigin.
Proof. solve_decision. Defined.

Definition root_rebuild_scope (o : RepairIssueOrigin) : RebuildScope :=
  match o with
  | TARGET_LOGIC => TARGET_ONLY
  | CAPTURE_DATA => CAPTURE_AND_TARGET
  | CAPTURE_SEMANTICS => AUTHORITATIVE_RESET
  end.

Record RebuildImpactDataset := {
  rid_dataset_id : string;
  rid_target_layer : string;
  rid_enabled : bool;
  rid_is_root : bool;
  rid_rebuild_scope : RebuildScope
}.

Definition make_RebuildImpactDataset (d : RebuildImpactDataset) : res RebuildImpactDataset :=
  if bool_decide (rid_dataset_id d = "") || bool_decide (rid_target_layer d = "") then bad_field else Ok d.

Record RebuildImpactPlan := {
  rip_issue_origin : RepairIssueOrigin;
  rip_root_dataset_ids : list string;
  rip_datasets : list RebuildImpactDataset;
  rip_waves : list (list string);
  rip_disabled_affected_dataset_ids : list string
}.

Definition affected_dataset_ids (p : RebuildImpactPlan) : list string := map rid_dataset_id (rip_datasets p).

Definition validate_plan (p : RebuildImpactPlan) : res RebuildImpactPlan :=
  let dataset_ids := affected_dataset_ids p in
  let flattened := concat (rip_waves p) in
  if bool_decide (rip_root_dataset_ids p = []) then
    raise "ValueError" "rebuild impact plan requires at least one root dataset"
  else if negb (bool_decide (NoDup (rip_root_dataset_ids p))) then
    raise "ValueError" "root_dataset_ids must be unique"
  else if negb (bool_decide (NoDup dataset_ids)) then raise "ValueError" "impact datasets must be unique"
  else if negb (bool_decide (list_to_set (C := gset string) (rip_root_dataset_ids p) ⊆ list_to_set dataset_ids)) then
    raise "ValueError" "all rebuild roots must appear in impact datasets"
  else if negb (bool_decide (list_to_set (C := gset string) flattened = list_to_set dataset_ids))
       || negb (Nat.eqb (length flattened) (length dataset_ids)) then
    raise "ValueError" "rebuild waves must contain each affected dataset exactly once"
  else Ok p.

(** ** Graph *)

Definition _SCOPE_RANK (s : RebuildScope) : Z :=
  match s with TARGET_ONLY => 1 | CAPTURE_AND_TARGET => 2 | AUTHORITATIVE_RESET => 3 end.

Definition config_dependencies (c : DatasetConfig) : list string := op_dependencies (dc_orchestration c).

(** [configs[dataset_id]] *)
Definition config_of (configs : deployed) (dataset_id : string) : res DatasetConfig :=
  match dget configs dataset_id with Some c => Ok c | None => raise "KeyError" "configs" end.

(** The nested function of [_validate_graph], with fuel for the depth of the recursion. *)
Fixpoint visit_config (fuel : nat) (configs : deployed) (s : search) (dataset_id : string) : res search :=
  match fuel with
  | O => raise "OutOfFuel" "visit"
  | S fuel =>
    if bool_decide (dataset_id ∈ visited s) then Ok s
    else if bool_decide (dataset_id ∈ visiting s) then impact_error "dependency cycle detected"
    else
      let s := {| visiting := {[dataset_id]} ∪ visiting s; visited := visited s |} in
      config ← config_of configs dataset_id;
      s ← foldM (visit_config fuel configs) s (config_dependencies config);
      Ok {| visiting := visiting s ∖ {[dataset_id]}; visited := {[dataset_id]} ∪ visited s |}
  end.

Definition undeployed_dependency (configs : deployed) : bool :=
  existsb (fun e => existsb (fun d => negb (dmem configs d)) (config_dependencies e.2)) configs.

Definition _validate_graph (configs : deployed) : res unit :=
  if undeployed_dependency configs then impact_error "dataset depends on undeployed dataset"
  else
    _ ← foldM (visit_config (S (length configs)) configs) {| visiting := ∅; visited := ∅ |}
          (sort_on id (map fst configs));
    Ok tt.

(** [reverse[dependency].add(dataset_id)] *)
Definition add_reverse (dataset_id : string) (reverse : gmap string (gset string)) (dependency : string) :
    gmap string (gset string) :=
  <[dependency := {[dataset_id]} ∪ default ∅ (reverse !! dependency)]> reverse.

Definition reverse_of (configs : deployed) : gmap string (gset string) :=
  foldl (fun reverse e => foldl (add_reverse e.1) reverse (config_dependencies e.2)) ∅ configs.

Definition children_of (reverse : gmap string (gset string)) (current : string) : list string :=
  sort_on id (elements (default ∅ (reverse !! current))).

Definition child_step (s : gset string * list string) (child : string) : gset string * list string :=
  if bool_decide (child ∈ s.1) then s else ({[child]} ∪ s.1, s.2 ++ [child]).

(** The loop over the queue; an iteration takes one dataset out of it. *)
Fixpoint descend (fuel : nat) (reverse : gmap string (gset string)) (affected : gset string) (queue : list string) :
    res (gset string) :=
  match queue with
  | [] => Ok affected
  | current :: queue =>
    match fuel with
    | O => raise "OutOfFuel" "descend"
    | S fuel =>
      let s := foldl child_step (affected, queue) (children_of reverse current) in
      descend fuel reverse s.1 s.2
    end
  end.

(** Every deployed dataset enters the queue at most once. *)
Definition _downstream_descendants (configs : deployed) (roots : gset string) : res (gset string) :=
  descend (length configs) (reverse_of configs) roots (sort_on id (elements roots)).

Definition wave_ready (configs : deployed) (affected completed : gset string) (dataset_id : string) : res bool :=
  config ← config_of configs dataset_id;
  Ok (forallb (fun d => negb (bool_decide (d ∈ affected)) || bool_decide (d ∈ completed))
        (config_dependencies config)).

Definition ready_wave (configs : deployed) (affected completed remaining : gset string) : res (list string) :=
  ready ← filterM_res (wave_ready configs affected completed) (elements remaining);
  Ok (sort_on id ready).

(** The [while] loop; an iteration completes at least one dataset. *)
Fixpoint build_waves (fuel : nat) (configs : deployed) (affected remaining completed : gset string)
    (waves : list (list string)) : res (list (list string)) :=
  if bool_decide (remaining = ∅) then Ok waves
  else
    match fuel with
    | O => raise "OutOfFuel" "waves"
    | S fuel =>
      ready ← ready_wave configs affected completed remaining;
      if bool_decide (ready = []) then
        impact_error "affected rebuild subgraph cannot be topologically ordered"
      else
        build_waves fuel configs affected (remaining ∖ list_to_set ready) (list_to_set ready ∪ completed)
          (waves ++ [ready])
    end.

Definition _build_waves (configs : deployed) (affected : gset string) : res (list (list string)) :=
  build_waves (size affected) configs affected affected ∅ [].

(** ** The plan *)

Definition deploy_step (by_id : deployed) (config : DatasetConfig) : res deployed :=
  if dmem by_id (dc_dataset_id config) then impact_error "duplicate deployed dataset id"
  else Ok (dset by_id (dc_dataset_id config) config).

Definition narrower (overrides : list (string * RebuildScope)) (root_scope : RebuildScope) (root : string) : bool :=
  match dget overrides root with
  | Some override => _SCOPE_RANK override <? _SCOPE_RANK root_scope
  | None => false
  end.

Definition impact_scope (overrides : list (string * RebuildScope)) (root_scope : RebuildScope) (roots : list string)
    (dataset_id : string) : RebuildScope :=
  default (if bool_decide (dataset_id ∈ roots) then root_scope else TARGET_ONLY) (dget overrides dataset_id).

Definition impact_dataset (by_id : deployed) (overrides : list (string * RebuildScope)) (root_scope : RebuildScope)
    (roots : list string) (dataset_id : string) : res RebuildImpactDataset :=
  config ← config_of by_id dataset_id;
  make_RebuildImpactDataset
    {| rid_dataset_id := dataset_id;
       rid_target_layer := tgt_layer (dc_target config);
       rid_enabled := dc_enabled config;
       rid_is_root := bool_decide (dataset_id ∈ roots);
       rid_rebuild_scope := impact_scope overrides root_scope roots dataset_id |}.

Definition build_rebuild_impact_plan (configs : list DatasetConfig) (root_dataset_ids : list string)
    (issue_origin : RepairIssueOrigin) (scope_overrides : option (list (string * RebuildScope))) :
    res RebuildImpactPlan :=
  by_id ← foldM deploy_step [] configs;
  if bool_decide (by_id = []) then impact_error "rebuild impact planning requires deployed datasets"
  else
    _ ← _validate_graph by_id;
    let roots := sort_on id (remove_dups root_dataset_ids) in
    if bool_decide (roots = []) then impact_error "root_dataset_ids cannot be empty"
    else if negb (forallb (dmem by_id) roots) then impact_error "rebuild roots are not deployed"
    else
      affected ← _downstream_descendants by_id (list_to_set roots);
      let overrides := default [] scope_overrides in
      if negb (forallb (fun e => bool_decide (e.1 ∈ affected)) overrides) then
        impact_error "scope overrides target datasets outside the affected subgraph"
      else
        let root_scope := root_rebuild_scope issue_origin in
        if existsb (narrower overrides root_scope) roots then
          impact_error "root scope is narrower than required"
        else
          waves ← _build_waves by_id affected;
          datasets ← mapM_res (impact_dataset by_id overrides root_scope roots) (concat waves);
          validate_plan
            {| rip_issue_origin := issue_origin;
               rip_root_dataset_ids := roots;
               rip_datasets := datasets;
               rip_waves := waves;
               rip_disabled_affected_dataset_ids :=
                 map rid_dataset_id (List.filter (fun item => negb (rid_enabled item)) datasets) |}.

(** ** Specification *)

Section spec.
Context (configs : list DatasetConfig).

(** [x] is built from [d]. *)
Definition built_from (x d : string) : Prop :=
  exists c, c ∈ configs /\ dc_dataset_id c = x /\ d ∈ config_dependencies c.

Definition is_deployed (x : string) : Prop := exists c, c ∈ configs /\ dc_dataset_id c = x.

(** [x] is built, directly or not, from one of the roots. *)
Definition contaminated (roots : list string) (x : string) : Prop :=
  exists r, r ∈ roots /\ rtc built_from x r.

(** A wave that may follow the waves [pre]: everything contaminated it is built from has been rebuilt, and
    no dataset could have come earlier. *)
Record wave_after (roots : list string) (pre : list (list string)) (w : list string) : Prop := {
  wa_some : w <> [];
  wa_sorted : StronglySorted (fun a b => str_leb a b = true) w;
  wa_unique : NoDup w;
  wa_new x : x ∈ w -> contaminated roots x /\ x ∉ concat pre;
  wa_built x d : x ∈ w -> built_from x d -> contaminated roots d -> d ∈ concat pre;
  wa_earliest x : x ∈ w -> pre = [] \/
    exists d, built_from x d /\ contaminated roots d /\ d ∉ concat (removelast pre)
}.

Inductive wave_order (roots : list string) : list (list string) -> Prop :=
  | wo_nil : wave_order roots []
  | wo_snoc pre w : wave_order roots pre -> wave_after roots pre w -> wave_order roots (pre ++ [w]).

(** The requests that have a plan. *)
Record valid_request (roots : list string) (origin : RepairIssueOrigin)
    (overrides : list (string * RebuildScope)) : Prop := {
  vr_some : configs <> [];
  vr_unique : NoDup (map dc_dataset_id configs);
  vr_closed x d : built_from x d -> is_deployed d;
  vr_acyclic x : ~ tc built_from x x;
  vr_roots : roots <> [];
  vr_deployed r : r ∈ roots -> is_deployed r;
  vr_overrides x s : (x, s) ∈ overrides -> contaminated roots x;
  vr_scope r s : r ∈ roots -> dget overrides r = Some s -> _SCOPE_RANK (root_rebuild_scope origin) <= _SCOPE_RANK s
}.

(** What has to be rebuilt at a root, by where trust first failed. *)
Inductive required_for : RepairIssueOrigin -> RebuildScope -> Prop :=
  | rf_target : required_for TARGET_LOGIC TARGET_ONLY
  | rf_capture : required_for CAPTURE_DATA CAPTURE_AND_TARGET
  | rf_semantics : required_for CAPTURE_SEMANTICS AUTHORITATIVE_RESET.

Record planned_dataset (roots : list string) (origin : RepairIssueOrigin) (overrides : list (string * RebuildScope))
    (item : RebuildImpactDataset) : Prop := {
  pd_config : exists c, c ∈ configs /\ dc_dataset_id c = rid_dataset_id item /\
    rid_target_layer item = tgt_layer (dc_target c) /\ rid_enabled item = dc_enabled c;
  pd_root : rid_is_root item = true <-> rid_dataset_id item ∈ roots;
  pd_override s : dget overrides (rid_dataset_id item) = Some s -> rid_rebuild_scope item = s;
  pd_default : dget overrides (rid_dataset_id item) = None -> rid_is_root item = false ->
    rid_rebuild_scope item = TARGET_ONLY;
  pd_required : dget overrides (rid_dataset_id item) = None -> rid_is_root item = true ->
    required_for origin (rid_rebuild_scope item);
  pd_scope : rid_is_root item = true ->
    _SCOPE_RANK (root_rebuild_scope origin) <= _SCOPE_RANK (rid_rebuild_scope item)
}.

Record impact_plan (roots : list string) (origin : RepairIssueOrigin) (overrides : list (string * RebuildScope))
    (p : RebuildImpactPlan) : Prop := {
  ip_origin : rip_issue_origin p = origin;
  ip_roots x : x ∈ rip_root_dataset_ids p <-> x ∈ roots;
  ip_waves : wave_order roots (rip_waves p);
  ip_affected : affected_dataset_ids p = concat (rip_waves p);
  ip_unique : NoDup (affected_dataset_ids p);
  ip_closure x : x ∈ affected_dataset_ids p <-> contaminated roots x;
  ip_datasets item : item ∈ rip_datasets p -> planned_dataset roots origin overrides item;
  ip_disabled : rip_disabled_affected_dataset_ids p =
    map rid_dataset_id (List.filter (fun item => negb (rid_enabled item)) (rip_datasets p))
}.
End spec.

(** ** The deployed datasets *)

Lemma deploy_run configs :
  match foldM deploy_step [] configs with
  | Ok by_id => by_id = map (fun c => (dc_dataset_id c, c)) configs /\ NoDup (map dc_dataset_id configs)
  | Raise e => exn_type e = "RebuildImpactError" /\ ~ NoDup (map dc_dataset_id configs)
  end.
Proof.
  set (entry := fun c => (dc_dataset_id c, c)).
  assert (forall done : list DatasetConfig, NoDup (map dc_dataset_id done) ->
    match foldM deploy_step (map entry done) configs with
    | Ok by_id => by_id = map entry (done ++ configs) /\ NoDup (map dc_dataset_id (done ++ configs))
    | Raise e => exn_type e = "RebuildImpactError" /\ ~ NoDup (map dc_dataset_id (done ++ configs))
    end) as Hgen; [|apply (Hgen []); constructor].
  induction configs as [|c configs IH]; intros done Hd; simpl.
  { by rewrite app_nil_r. }
  unfold deploy_step at 1. destruct (dmem (map entry done) (dc_dataset_id c)) eqn:E.
  - split; [done|]. rewrite map_app, NoDup_app. intros (_ & Hn & _).
    apply dmem_true in E as [c' (k & Hk & Hin)%dget_Some_elem]. apply keq_string in Hk as ->.
    apply list_elem_of_fmap in Hin as (c2 & [= Hc <-] & Hin).
    apply (Hn (dc_dataset_id c)); [apply list_elem_of_fmap; by exists c'|]. simpl. by left.
  - apply dmem_false in E as Ed. rewrite dset_fresh by done.
    specialize (IH (done ++ [c])). rewrite (map_app entry), <-!app_assoc in IH.
    apply IH. rewrite map_app. apply NoDup_app. split_and!; [done| |apply NoDup_singleton].
    intros x Hx ->%list_elem_of_singleton. apply list_elem_of_fmap in Hx as (c' & Hc & Hin).
    apply dget_None in Ed. rewrite Forall_forall in Ed. specialize (Ed (entry c') ltac:(by apply list_elem_of_fmap; eauto)).
    simpl in Ed. rewrite Hc, keq_refl in Ed. done.
Qed.

Section deployed_configs.
Context (configs : list DatasetConfig) (Hu : NoDup (map dc_dataset_id configs)).
Let by_id : deployed := map (fun c => (dc_dataset_id c, c)) configs.

Lemma by_id_dget x c : dget by_id x = Some c <-> c ∈ configs /\ dc_dataset_id c = x.
Proof.
  split.
  - intros (k & Hk & Hin)%dget_Some_elem. apply keq_string in Hk as ->.
    apply list_elem_of_fmap in Hin as (c' & [= -> ->] & Hin). done.
  - intros [Hin <-]. apply dwf_elem; [|by apply list_elem_of_fmap; exists c].
    apply dwf_NoDup. unfold by_id. by rewrite map_map.
Qed.

Lemma by_id_dmem x : dmem by_id x = true <-> is_deployed configs x.
Proof.
  rewrite dmem_true. split.
  - intros [c [? ?]%by_id_dget]. by exists c.
  - intros (c & ? & ?). exists c. by apply by_id_dget.
Qed.

Lemma by_id_built x d c : dget by_id x = Some c -> d ∈ config_dependencies c <-> built_from configs x d.
Proof.
  intros [Hin Hx]%by_id_dget. split; [intros Hd; by exists c|].
  intros (c' & Hin' & Hx' & Hd). rewrite <-Hx in Hx'.
  assert (c' = c) as ->; [|done]. assert (dget by_id x = Some c') as H' by (apply by_id_dget; by rewrite Hx').
  assert (dget by_id x = Some c) as H'' by (apply by_id_dget; done). congruence.
Qed.

Lemma undeployed_false : undeployed_dependency by_id = false <-> forall x d, built_from configs x d -> is_deployed configs d.
Proof.
  unfold undeployed_dependency. rewrite <-not_true_iff_false. split.
  - intros Hn x d (c & Hin & <- & Hd). apply by_id_dmem. destruct (dmem by_id d) eqn:E; [done|]. exfalso. apply Hn.
    apply existsb_elem. exists (dc_dataset_id c, c). split; [apply list_elem_of_fmap; by exists c|].
    apply existsb_elem. exists d. by rewrite E.
  - intros Hc ([x c] & Hin & (d & Hd & Hm)%existsb_elem)%existsb_elem. simpl in Hd.
    apply list_elem_of_fmap in Hin as (c' & [= -> ->] & Hin). apply negb_true_iff, not_true_iff_false in Hm. apply Hm.
    apply by_id_dmem, (Hc (dc_dataset_id c')). by exists c'.
Qed.

(** ** The search is the planner's *)

Definition as_effective (c : DatasetConfig) : EffectiveDatasetConfig :=
  {| eff_config := c; eff_base_config_hash := ""; eff_effective_config_hash := ""; eff_applied_override_ids := [] |}.

Let selected : selection := map (fun c => (dc_dataset_id c, as_effective c)) configs.

Definition same_answer (a b : res search) : Prop :=
  match a, b with
  | Ok s, Ok s' => s = s'
  | Raise e, Raise e' => exn_type e' = "OrchestrationIntegrityError" -> exn_type e = "RebuildImpactError"
  | _, _ => False
  end.

Lemma foldM_same (f g : search -> string -> res search) s l :
  (forall s x, x ∈ l -> same_answer (f s x) (g s x)) -> same_answer (foldM f s l) (foldM g s l).
Proof.
  revert s. induction l as [|x l IH]; intros s Hfg; simpl; [done|].
  pose proof (Hfg s x ltac:(left)) as Hx.
  destruct (f s x) as [a|], (g s x) as [b|]; try done. simpl in Hx. subst b.
  apply IH. intros. apply Hfg. by right.
Qed.

Lemma selected_dget x : dget selected x = as_effective <$> dget by_id x.
Proof.
  unfold selected, by_id. clear Hu. clear. induction configs as [|c l IH]; simpl; [done|].
  destruct (keq (dc_dataset_id c) x); [done|apply IH].
Qed.

Lemma selected_dmem x : dmem selected x = dmem by_id x.
Proof. unfold dmem. rewrite selected_dget. by destruct (dget by_id x). Qed.

Hypothesis Hclosed : forall x d, built_from configs x d -> is_deployed configs d.

Lemma visit_same fuel s x : same_answer (visit_config fuel by_id s x) (visit fuel selected s x).
Proof.
  revert s x. induction fuel as [|fuel IH]; intros s x; simpl; [done|].
  case_bool_decide; [done|]. case_bool_decide; [done|].
  unfold config_of. rewrite selected_dget. destruct (dget by_id x) as [c|] eqn:E; cbn [fmap option_fmap option_map mbind res_bind raise]; [|done].
  change (dependencies_of (as_effective c)) with (config_dependencies c).
  set (s0 := {| visiting := _; visited := _ |}).
  assert (same_answer (foldM (visit_config fuel by_id) s0 (config_dependencies c))
    (foldM (fun s d => if dmem selected d then visit fuel selected s d else Ok s) s0 (config_dependencies c))) as Hf.
  { apply foldM_same. intros s1 d Hd. rewrite selected_dmem.
    assert (dmem by_id d = true) as ->; [|apply IH]. apply by_id_dmem, (Hclosed x). by eapply by_id_built. }
  destruct (foldM _ s0 _), (foldM _ s0 _); simpl in Hf |- *; [by subst|done..].
Qed.

Lemma selected_edge x d : edge selected x d <-> built_from configs x d.
Proof.
  unfold edge. split.
  - intros (e & He & Hd & _). rewrite selected_dget in He.
    apply fmap_Some in He as (c & Hc & ->). by eapply by_id_built.
  - intros Hb. pose proof Hb as (c & Hin & Hx & Hd). exists (as_effective c). rewrite selected_dmem, selected_dget.
    split_and!; [|done|by eapply by_id_dmem, Hclosed]. assert (dget by_id x = Some c) as -> by by apply by_id_dget. done.
Qed.

Lemma search_same :
  (exists s, foldM (visit_config (S (length by_id)) by_id) {| visiting := ∅; visited := ∅ |} (sort_on id (map fst by_id)) = Ok s) /\
  (forall x, Acc (flip (built_from configs)) x) \/
  (exists e, foldM (visit_config (S (length by_id)) by_id) {| visiting := ∅; visited := ∅ |} (sort_on id (map fst by_id)) = Raise e /\
     exn_type e = "RebuildImpactError") /\ exists x, tc (built_from configs) x x.
Proof.
  assert (map fst by_id = map fst selected) as -> by (unfold by_id, selected; by rewrite !map_map).
  assert (length by_id = length selected) as -> by (unfold by_id, selected; by rewrite !length_map).
  pose proof (foldM_same _ _ {| visiting := ∅; visited := ∅ |} (sort_on id (map fst selected))
    (fun s x _ => visit_same (visit_fuel selected) s x)) as Hf. unfold visit_fuel in Hf.
  destruct (search_decides selected _ (sorted_ids_selected selected)) as [(s & Hs & Hacc & Hall)|(e & He & Ht & x & Hx)].
  - left. unfold visit_fuel in Hs. rewrite Hs in Hf. destruct (foldM _ _ _) as [s'|] in Hf |- *; [|done].
    split; [by exists s'|]. intros x. constructor. intros y Hy.
    assert (dmem selected y = true) as Hm by (rewrite selected_dmem; by eapply by_id_dmem, Hclosed).
    assert (Acc (flip (edge selected)) y) as Hay.
    { apply Hacc, Hall, elem_of_sort_on. apply dmem_selected in Hm. by apply elem_of_list_to_set in Hm. }
    clear -by_id selected Hay Hu Hclosed. induction Hay as [y _ IH]. constructor. intros z Hz. apply IH. by apply selected_edge.
  - right. unfold visit_fuel in He. rewrite He in Hf. destruct (foldM _ _ _) as [s'|e'] in Hf |- *; [done|].
    split; [exists e'; split; [done|by apply Hf]|]. exists x.
    revert Hx. generalize x at 2 4. intros y Hx. induction Hx as [a b Hab|a b c Hab _ IH].
    + by apply tc_once, selected_edge.
    + eapply tc_l; [by apply selected_edge|done].
Qed.
End deployed_configs.

(** ** The downstream closure *)

Definition indexed_configs (configs : list DatasetConfig) : deployed := map (fun c => (dc_dataset_id c, c)) configs.

Lemma add_reverses x deps m d :
  default ∅ (foldl (add_reverse x) m deps !! d) = (if decide (d ∈ deps) then {[x]} else ∅) ∪ default ∅ (m !! d).
Proof.
  revert m. induction deps as [|e deps IH]; intros m; simpl.
  { set_solver. }
  rewrite IH. unfold add_reverse. destruct (decide (d = e)) as [<-|Hne].
  - rewrite lookup_insert_eq. cbn [default from_option id]. repeat case_decide; set_solver.
  - rewrite lookup_insert_ne by done. repeat case_decide; set_solver.
Qed.

Lemma reverse_of_spec configs x d : x ∈ default ∅ (reverse_of (indexed_configs configs) !! d) <-> built_from configs x d.
Proof.
  unfold reverse_of, indexed_configs.
  assert (forall m : gmap string (gset string), x ∈ default ∅ (foldl (fun reverse e => foldl (add_reverse e.1) reverse (config_dependencies e.2))
    m (map (fun c => (dc_dataset_id c, c)) configs) !! d) <-> built_from configs x d \/ x ∈ default ∅ (m !! d)) as Hgen.
  { unfold built_from. induction configs as [|c configs IH]; intros m; simpl.
    - split; [by right|intros [(c & []%not_elem_of_nil & _)|?]; done].
    - rewrite IH, add_reverses, elem_of_union. setoid_rewrite elem_of_cons. destruct (decide (d ∈ config_dependencies c)); set_solver. }
  rewrite Hgen, lookup_empty. simpl. set_solver.
Qed.

Lemma children_of_spec configs x d : x ∈ children_of (reverse_of (indexed_configs configs)) d <-> built_from configs x d.
Proof. unfold children_of. by rewrite elem_of_sort_on, elem_of_elements, reverse_of_spec. Qed.

(** The children that are not yet affected are marked and queued once. *)
Lemma child_steps children a q :
  exists new, foldl child_step (a, q) children = (a ∪ list_to_set new, q ++ new) /\ NoDup new /\
    forall x, x ∈ new <-> x ∈ children /\ x ∉ a.
Proof.
  revert a q. induction children as [|c children IH]; intros a q; simpl.
  { exists []. rewrite list_to_set_nil, union_empty_r_L, app_nil_r. split_and!; [done|constructor|set_solver]. }
  unfold child_step at 2. cbn [fst snd]. case_bool_decide as Hc.
  - destruct (IH a q) as (new & -> & Hn & Hx). exists new. split_and!; [done..|]. set_solver.
  - destruct (IH ({[c]} ∪ a) (q ++ [c])) as (new & -> & Hn & Hx). exists (c :: new). split_and!.
    + f_equal; [set_solver|]. by rewrite <-app_assoc.
    + constructor; [rewrite Hx; set_solver|done].
    + intros x. rewrite !elem_of_cons, Hx. destruct (decide (x = c)) as [->|]; set_solver.
Qed.

Section closure.
Context (configs : list DatasetConfig) (roots : list string).
Let ids : gset string := list_to_set (map dc_dataset_id configs).

Lemma built_from_id x d : built_from configs x d -> x ∈ ids.
Proof. intros (c & Hin & <- & _). apply elem_of_list_to_set, list_elem_of_fmap. by exists c. Qed.

Lemma contaminated_step x d : built_from configs x d -> contaminated configs roots d -> contaminated configs roots x.
Proof. intros Hxd (r & Hr & Hd). exists r. split; [done|]. by eapply rtc_l. Qed.

Definition frontier (affected : gset string) (queue : list string) : Prop :=
  (forall r, r ∈ roots -> r ∈ affected) /\ (forall x, x ∈ affected -> contaminated configs roots x) /\
  (forall x, x ∈ queue -> x ∈ affected) /\
  (forall x d, d ∈ affected -> d ∉ queue -> built_from configs x d -> x ∈ affected) /\ affected ⊆ ids.

Lemma descend_spec fuel affected queue :
  frontier affected queue -> (size (ids ∖ affected) + length queue <= fuel)%nat ->
  exists result, descend fuel (reverse_of (indexed_configs configs)) affected queue = Ok result /\ frontier result [].
Proof.
  revert affected queue. induction fuel as [|fuel IH]; intros affected [|d queue] HF Hfuel; simpl; [by eauto|simpl in *; lia|by eauto|].
  destruct (child_steps (children_of (reverse_of (indexed_configs configs)) d) affected queue) as (new & -> & Hnd & Hnew).
  cbn [fst snd]. setoid_rewrite children_of_spec in Hnew. destruct HF as (Hr & Hc & Hq & Hcl & Hid).
  assert (list_to_set new ⊆ ids) as Hni.
  { intros x [Hx _]%elem_of_list_to_set%Hnew. by eapply built_from_id. }
  apply IH.
  - split_and!; [set_solver| | | |set_solver].
    + intros x [?|[Hx _]%elem_of_list_to_set%Hnew]%elem_of_union; [by apply Hc|].
      eapply contaminated_step; [done|]. apply Hc, Hq. by left.
    + intros x [Hx|Hx]%elem_of_app; apply elem_of_union; [left; apply Hq; by right|right; by apply elem_of_list_to_set].
    + intros x y Hy Hyq Hxy. rewrite elem_of_app in Hyq. apply elem_of_union in Hy as [Hy|Hy%elem_of_list_to_set]; [|tauto].
      apply elem_of_union. destruct (decide (x ∈ affected)) as [|Hx]; [by left|right]. apply elem_of_list_to_set, Hnew.
      destruct (decide (y = d)) as [->|Hne]; [done|]. exfalso. apply Hx. apply (Hcl x y Hy); [|done].
      rewrite elem_of_cons. tauto.
  - assert (size (ids ∖ affected) = size (ids ∖ (affected ∪ list_to_set new)) + length new)%nat as Hs.
    { rewrite <-(size_list_to_set (C := gset string) new) by done.
      rewrite <-size_union by set_solver. f_equal. apply set_eq. intros x.
      rewrite !elem_of_union, !elem_of_difference, elem_of_union.
      destruct (decide (x ∈ (list_to_set new : gset string))) as [Hx|Hx]; [|set_solver].
      pose proof Hx as [_ Ha]%elem_of_list_to_set%Hnew. set_solver. }
    rewrite length_app. simpl in Hfuel. lia.
Qed.

Lemma descendants_exact :
  (forall r, r ∈ roots -> is_deployed configs r) ->
  exists affected, _downstream_descendants (indexed_configs configs) (list_to_set roots) = Ok affected /\
    affected ⊆ ids /\ forall x, x ∈ affected <-> contaminated configs roots x.
Proof.
  intros Hdep. unfold _downstream_descendants.
  assert ((list_to_set roots : gset string) ⊆ ids) as Hsub.
  { intros r (c & Hin & <-)%elem_of_list_to_set%Hdep. apply elem_of_list_to_set, list_elem_of_fmap. by exists c. }
  destruct (descend_spec (length (indexed_configs configs)) (list_to_set roots) (sort_on id (elements (list_to_set roots : gset string))))
    as (result & -> & Hr & Hc & _ & Hcl & Hid).
  - split_and!; [set_solver| | | |done].
    + intros x Hx%elem_of_list_to_set. exists x. by split.
    + intros x Hx%elem_of_sort_on. by apply elem_of_elements.
    + intros x d Hd Hn _. exfalso. apply Hn, elem_of_sort_on. by apply elem_of_elements.
  - unfold sort_on. rewrite length_sort_by. change (length (elements (list_to_set roots : gset string))) with (size (list_to_set roots : gset string)).
    rewrite size_difference by done. apply subseteq_size in Hsub.
    pose proof (size_list_to_set_le (map dc_dataset_id configs)) as Hle. fold ids in Hle.
    unfold indexed_configs. rewrite length_map in *. lia.
  - exists result. split_and!; [done..|]. intros x. split; [apply Hc|]. intros (r & Hroot & Hx).
    induction Hx as [x|x y z Hxy _ IH]; [by apply Hr|]. apply (Hcl x y); [by apply IH|set_solver|done].
Qed.
End closure.

(** ** Waves *)

Section waves.
Context (configs : list DatasetConfig) (roots : list string) (affected : gset string).
Context (Hu : NoDup (map dc_dataset_id configs)) (Hacc : forall x, Acc (flip (built_from configs)) x).
Context (Haff : forall x, x ∈ affected <-> contaminated configs roots x).
Context (Hdep : forall x, x ∈ affected -> is_deployed configs x).
Let by_id : deployed := indexed_configs configs.

Definition startable (completed : gset string) (x : string) : Prop :=
  forall d, built_from configs x d -> d ∈ affected -> d ∈ completed.

Lemma wave_ready_spec completed x : x ∈ affected ->
  exists b, wave_ready by_id affected completed x = Ok b /\ (b = true <-> startable completed x).
Proof.
  intros (c & Hin & Hx)%Hdep. unfold wave_ready, config_of.
  assert (dget by_id x = Some c) as E by by apply by_id_dget. rewrite E. cbn [mbind res_bind].
  eexists. split; [done|]. rewrite forallb_forall. unfold startable. split.
  - intros Hall d Hd Hda. apply (by_id_built configs Hu x d c E) in Hd. specialize (Hall d ltac:(by apply list_elem_of_In)).
    rewrite bool_decide_true in Hall by done. by apply bool_decide_eq_true in Hall.
  - intros Hs d Hd%list_elem_of_In. rewrite orb_true_iff, negb_true_iff, bool_decide_eq_false, bool_decide_eq_true.
    destruct (decide (d ∈ affected)); [right|by left]. apply Hs; [|done]. by apply (by_id_built configs Hu x d c E).
Qed.

Lemma filter_ready completed l : (forall x, x ∈ l -> x ∈ affected) ->
  exists ready, filterM_res (wave_ready by_id affected completed) l = Ok ready /\ sublist ready l /\
    forall x, x ∈ ready <-> x ∈ l /\ startable completed x.
Proof.
  induction l as [|x l IH]; intros Hl; simpl.
  { exists []. split_and!; [done|constructor|]. intros x. split; [by intros ?%not_elem_of_nil|by intros [?%not_elem_of_nil _]]. }
  destruct (wave_ready_spec completed x) as (b & -> & Hb); [by apply Hl; left|].
  destruct IH as (ready & -> & Hs & Hr); [intros; apply Hl; by right|]. cbn.
  destruct b; eexists; (split; [done|]); (split; [by constructor|]); intros y; rewrite ?elem_of_cons, Hr;
    [|assert (~ startable completed x) by (by intros ?%Hb)]; naive_solver.
Qed.

Lemma ready_wave_spec completed remaining : remaining ⊆ affected ->
  exists ready, ready_wave by_id affected completed remaining = Ok ready /\ NoDup ready /\
    StronglySorted (fun a b => str_leb a b = true) ready /\
    forall x, x ∈ ready <-> x ∈ remaining /\ startable completed x.
Proof.
  intros Hsub. unfold ready_wave.
  destruct (filter_ready completed (elements remaining)) as (ready & -> & Hs & Hr).
  { intros x ?%elem_of_elements. by apply Hsub. }
  eexists. split; [done|]. split_and!.
  - rewrite sort_on_perm. exact (sublist_NoDup _ _ (NoDup_elements remaining) Hs).
  - apply sort_on_sorted.
  - intros x. rewrite elem_of_sort_on, Hr. by rewrite elem_of_elements.
Qed.

(** Some remaining dataset is always startable. *)
Lemma some_startable completed remaining x :
  affected = completed ∪ remaining -> x ∈ remaining -> exists y, y ∈ remaining /\ startable completed y.
Proof.
  intros Ha. induction (Hacc x) as [x _ IH]. intros Hx.
  destruct (decide (Exists (fun d => d ∈ remaining) (match dget by_id x with Some c => config_dependencies c | None => [] end)))
    as [(d & Hd & Hrem)%Exists_exists|Hn].
  - destruct (dget by_id x) as [c|] eqn:E; [|by apply not_elem_of_nil in Hd].
    apply (IH d); [|done]. by apply (by_id_built configs Hu x d c E).
  - exists x. split; [done|]. intros d Hd Hda. destruct (decide (d ∈ remaining)) as [Hr|]; [|set_solver].
    exfalso. apply Hn, Exists_exists. exists d. split; [|done].
    destruct (Hdep x) as (c & Hin & Hc); [set_solver|].
    assert (dget by_id x = Some c) as E by by apply by_id_dget. rewrite E. by apply (by_id_built configs Hu x d c E).
Qed.

(** What the loop has done after the waves [ws]. *)
Record waves_done (remaining completed : gset string) (ws : list (list string)) : Prop := {
  wd_order : wave_order configs roots ws;
  wd_split : affected = completed ∪ remaining;
  wd_disjoint : completed ## remaining;
  wd_concat x : x ∈ concat ws <-> x ∈ completed;
  wd_unique : NoDup (concat ws);
  wd_late x : x ∈ remaining -> ws = [] \/
    exists d, built_from configs x d /\ d ∈ affected /\ d ∉ concat (removelast ws)
}.

Lemma concat_snoc (ws : list (list string)) w : concat (ws ++ [w]) = concat ws ++ w.
Proof. by rewrite concat_app, concat_cons, app_nil_r. Qed.

Lemma not_startable completed x : x ∈ affected -> ~ startable completed x ->
  exists d, built_from configs x d /\ d ∈ affected /\ d ∉ completed.
Proof.
  intros (c & Hin & Hx)%Hdep Hn. assert (dget by_id x = Some c) as E by by apply by_id_dget.
  destruct (decide (Exists (fun d => d ∈ affected /\ d ∉ completed) (config_dependencies c))) as [(d & Hd & ? & ?)%Exists_exists|Hno].
  - exists d. split; [by apply (by_id_built configs Hu x d c E)|done].
  - exfalso. apply Hn. intros d Hd Ha. destruct (decide (d ∈ completed)); [done|]. exfalso. apply Hno, Exists_exists.
    exists d. split; [by apply (by_id_built configs Hu x d c E)|done].
Qed.

Lemma waves_step remaining completed ws ready :
  waves_done remaining completed ws -> NoDup ready -> ready <> [] ->
  StronglySorted (fun a b => str_leb a b = true) ready ->
  (forall x, x ∈ ready <-> x ∈ remaining /\ startable completed x) ->
  waves_done (remaining ∖ list_to_set ready) (list_to_set ready ∪ completed) (ws ++ [ready]).
Proof.
  intros [Ho Hs Hd Hc Hn Hl] Hnr Hne Hsort Hr.
  assert (forall x, x ∈ ready -> x ∉ concat ws) as Hnew.
  { intros x [Hx _]%Hr ?%Hc. set_solver. }
  split.
  - constructor; [done|]. split; [done..| | |].
    + intros x Hx. split; [|by apply Hnew]. apply Haff. apply Hr in Hx as [Hx _]. set_solver.
    + intros x d [_ Hx]%Hr Hxd Hda%Haff. by apply Hc, Hx.
    + intros x [Hx _]%Hr. destruct (Hl x Hx) as [->|(d & ? & ?%Haff & ?)]; [by left|right]. by exists d.
  - apply set_eq. intros x. rewrite Hs, !elem_of_union, elem_of_difference, elem_of_list_to_set.
    specialize (Hr x). destruct (decide (x ∈ ready)); tauto.
  - set_solver.
  - intros x. rewrite concat_snoc, elem_of_app, elem_of_union, elem_of_list_to_set, Hc. tauto.
  - rewrite concat_snoc. apply NoDup_app. split_and!; [done| |done]. intros x Hx ?%Hnew. done.
  - intros x [Hx Hxr]%elem_of_difference. right. rewrite removelast_last, elem_of_list_to_set in *.
    destruct (not_startable completed x) as (d & ? & ? & Hdc); [set_solver| |].
    + intros Hst. apply Hxr, Hr. done.
    + exists d. rewrite Hc. done.
Qed.

Lemma build_waves_spec fuel remaining completed ws :
  waves_done remaining completed ws -> (size remaining <= fuel)%nat ->
  exists result, build_waves fuel by_id affected remaining completed ws = Ok result /\ waves_done ∅ affected result.
Proof.
  revert remaining completed ws. induction fuel as [|fuel IH]; intros remaining completed ws HD Hf; simpl;
    case_bool_decide as He.
  - exists ws. split; [done|]. subst remaining. replace affected with completed; [done|]. destruct HD as [_ Hs _ _ _ _]. set_solver.
  - exfalso. apply He, leibniz_equiv, size_empty_iff. lia.
  - exists ws. split; [done|]. subst remaining. replace affected with completed; [done|]. destruct HD as [_ Hs _ _ _ _]. set_solver.
  - destruct (ready_wave_spec completed remaining) as (ready & -> & Hnd & Hsort & Hr); [destruct HD; set_solver|].
    assert (ready <> []) as Hne.
    { intros ->. apply set_choose_L in He as [x Hx].
      destruct (some_startable completed remaining x) as (y & Hy); [by destruct HD|done|]. apply Hr in Hy. by apply not_elem_of_nil in Hy. }
    cbn [mbind res_bind]. rewrite bool_decide_false by done.
    apply IH; [by apply waves_step|].
    assert (size (remaining ∖ list_to_set ready : gset string) < size remaining)%nat; [|lia].
    apply subset_size. destruct ready as [|y ready]; [done|]. assert (y ∈ remaining) by (apply Hr; left).
    set_solver.
Qed.

Lemma waves_exact :
  exists result, _build_waves by_id affected = Ok result /\ wave_order configs roots result /\
    NoDup (concat result) /\ forall x, x ∈ concat result <-> contaminated configs roots x.
Proof.
  destruct (build_waves_spec (size affected) affected ∅ []) as (result & Hr & [Ho _ _ Hc Hn _]).
  - split; [constructor|set_solver|set_solver|set_solver|constructor|by left].
  - done.
  - exists result. split_and!; [done..|]. intros x. by rewrite Hc.
Qed.
End waves.

(** ** The plan *)

Lemma graph_decided configs : NoDup (map dc_dataset_id configs) ->
  match _validate_graph (indexed_configs configs) with
  | Ok _ => (forall x d, built_from configs x d -> is_deployed configs d) /\ forall x, Acc (flip (built_from configs)) x
  | Raise e => exn_type e = "RebuildImpactError" /\
      ~ ((forall x d, built_from configs x d -> is_deployed configs d) /\ forall x, ~ tc (built_from configs) x x)
  end.
Proof.
  intros Hu. unfold _validate_graph, indexed_configs. destruct (undeployed_dependency _) eqn:E.
  - split; [done|]. intros [Hc _]. apply (undeployed_false configs Hu) in Hc. congruence.
  - pose proof (proj1 (undeployed_false configs Hu) E) as Hc.
    destruct (search_same configs Hu Hc) as [[[s Hs] Hacc]|[(e & He & Ht) [x Hx]]].
    + rewrite Hs. done.
    + rewrite He. split; [done|]. intros [_ Hn]. by apply (Hn x).
Qed.

Lemma built_acyclic configs : (forall x, Acc (flip (built_from configs)) x) -> forall x, ~ tc (built_from configs) x x.
Proof.
  intros Hacc x. induction (Hacc x) as [x _ IH]. intros Hc. inversion Hc as [? ? Hxx|? y ? Hxy Hyx]; subst.
  - by apply (IH x).
  - apply (IH y); [done|]. by eapply tc_r.
Qed.

Lemma validate_plan_Ok p : rip_root_dataset_ids p <> [] -> NoDup (rip_root_dataset_ids p) ->
  affected_dataset_ids p = concat (rip_waves p) -> NoDup (concat (rip_waves p)) ->
  (forall x, x ∈ rip_root_dataset_ids p -> x ∈ concat (rip_waves p)) -> validate_plan p = Ok p.
Proof.
  intros Hr Hnr Ha Hn Hsub. unfold validate_plan. rewrite Ha.
  rewrite bool_decide_false, !bool_decide_true by (done || set_solver).
  by rewrite Nat.eqb_refl.
Qed.
Section plan_spec.
Context (configs : list DatasetConfig) (roots : list string) (origin : RepairIssueOrigin)
  (overrides : list (string * RebuildScope)).
Context (Hu : NoDup (map dc_dataset_id configs)).
Context (Hfields : forall c, c ∈ configs -> dc_dataset_id c <> "" /\ tgt_layer (dc_target c) <> "").
Let by_id : deployed := indexed_configs configs.

Lemma narrower_spec r : narrower overrides (root_rebuild_scope origin) r = false <->
  forall s, dget overrides r = Some s -> _SCOPE_RANK (root_rebuild_scope origin) <= _SCOPE_RANK s.
Proof.
  unfold narrower. destruct (dget overrides r) as [s|]; [|done]. rewrite Z.ltb_ge. split; [by intros ? ? [= <-]|auto].
Qed.

Lemma impact_dataset_spec rs x : (forall y, y ∈ rs <-> y ∈ roots) -> is_deployed configs x ->
  (forall r, r ∈ rs -> narrower overrides (root_rebuild_scope origin) r = false) ->
  exists item, impact_dataset by_id overrides (root_rebuild_scope origin) rs x = Ok item /\
    rid_dataset_id item = x /\ planned_dataset configs roots origin overrides item.
Proof.
  intros Hrs (c & Hin & Hx) Hn. unfold impact_dataset, config_of.
  assert (dget by_id x = Some c) as E by by apply by_id_dget. rewrite E. cbn [mbind res_bind].
  unfold make_RebuildImpactDataset. cbn [rid_dataset_id rid_target_layer].
  destruct (Hfields c Hin) as [Hid Hlayer]. rewrite !bool_decide_false by congruence. cbn [orb].
  eexists. split; [done|]. split; [done|]. unfold impact_scope. split; cbn [rid_dataset_id rid_target_layer rid_enabled rid_is_root rid_rebuild_scope].
  - by exists c.
  - by rewrite bool_decide_eq_true, Hrs.
  - by intros s ->.
  - by intros -> ->.
  - intros -> ->. by destruct origin; constructor.
  - intros Hroot. rewrite Hroot. destruct (dget overrides x) as [s|] eqn:Es; simpl; [|done].
    apply (narrower_spec x); [|done]. apply Hn. by apply bool_decide_eq_true in Hroot.
Qed.

Lemma impact_datasets_spec rs ids : (forall y, y ∈ rs <-> y ∈ roots) -> (forall x, x ∈ ids -> is_deployed configs x) ->
  (forall r, r ∈ rs -> narrower overrides (root_rebuild_scope origin) r = false) ->
  exists items, mapM_res (impact_dataset by_id overrides (root_rebuild_scope origin) rs) ids = Ok items /\
    map rid_dataset_id items = ids /\ forall item, item ∈ items -> planned_dataset configs roots origin overrides item.
Proof.
  intros Hrs Hids Hn. induction ids as [|x ids IH]; simpl.
  { exists []. split_and!; [done..|]. by intros ? ?%not_elem_of_nil. }
  destruct (impact_dataset_spec rs x Hrs) as (item & -> & Hx & Hp); [apply Hids; by left|done|].
  destruct IH as (items & -> & Hm & Hall); [intros; apply Hids; by right|].
  exists (item :: items). simpl. rewrite Hx, Hm. split_and!; [done..|]. intros i [->|Hi]%elem_of_cons; [done|by apply Hall].
Qed.

End plan_spec.

Lemma sorted_roots roots x : x ∈ sort_on id (remove_dups roots) <-> x ∈ roots.
Proof. by rewrite elem_of_sort_on, elem_of_remove_dups. Qed.

Lemma contaminated_sorted configs roots x :
  contaminated configs (sort_on id (remove_dups roots)) x <-> contaminated configs roots x.
Proof. unfold contaminated. by setoid_rewrite sorted_roots. Qed.

(** The three checks of the request decide their clauses. *)
Lemma roots_deployed configs rs : NoDup (map dc_dataset_id configs) ->
  forallb (dmem (indexed_configs configs)) rs = true <-> forall r, r ∈ rs -> is_deployed configs r.
Proof.
  intros Hu. rewrite forallb_forall. setoid_rewrite <-(by_id_dmem configs Hu).
  split; intros H r Hr; apply H; by apply list_elem_of_In.
Qed.

Lemma overrides_affected (affected : gset string) (os : list (string * RebuildScope)) :
  forallb (fun e => bool_decide (e.1 ∈ affected)) os = true <-> forall x s, (x, s) ∈ os -> x ∈ affected.
Proof.
  rewrite forallb_forall. split.
  - intros H x s Hin%list_elem_of_In. by apply H, bool_decide_eq_true in Hin.
  - intros H [x s] Hin%list_elem_of_In. apply bool_decide_eq_true. by eapply H.
Qed.

Lemma no_narrower os scope rs : existsb (narrower os scope) rs = false <-> forall r, r ∈ rs -> narrower os scope r = false.
Proof.
  rewrite <-not_true_iff_false, existsb_elem. setoid_rewrite <-not_true_iff_false. naive_solver.
Qed.

(** C30. Rebuild impact planning is exact.  A plan exists exactly when the deployed datasets have distinct ids, a closed
    and acyclic graph, and the request names deployed roots, overrides contaminated datasets only and never narrows
    the scope of a root; every other request is refused with [RebuildImpactError].  The plan holds exactly the datasets
    built from a root, each in one wave, after everything contaminated it is built from and no later than that
    demands; overrides are honoured, and a root without one has the scope its issue requires. *)
Theorem rebuild_impact_exact configs roots origin overrides
    (Hfields : forall c, c ∈ configs -> dc_dataset_id c <> "" /\ tgt_layer (dc_target c) <> "") :
  match build_rebuild_impact_plan configs roots origin overrides with
  | Ok p => valid_request configs roots origin (default [] overrides) /\
            impact_plan configs roots origin (default [] overrides) p
  | Raise e => exn_type e = "RebuildImpactError" /\ ~ valid_request configs roots origin (default [] overrides)
  end.
Proof.
  unfold build_rebuild_impact_plan. pose proof (deploy_run configs) as Hd.
  destruct (foldM deploy_step [] configs) as [by_id|e]; cbn [mbind res_bind].
  2: { destruct Hd as [? Hn]. split; [done|]. by intros []. }
  destruct Hd as [-> Hu]. case_bool_decide as Hnil.
  { split; [done|]. intros [Hs]. apply Hs. by destruct configs. }
  pose proof (graph_decided configs Hu) as Hg. fold (indexed_configs configs) in *.
  destruct (_validate_graph (indexed_configs configs)) as [[]|e]; cbn [mbind res_bind].
  2: { destruct Hg as [? Hn]. split; [done|]. intros []. by apply Hn. }
  destruct Hg as [Hclosed Hacc]. set (rs := sort_on id (remove_dups roots)).
  assert (forall y, y ∈ rs <-> y ∈ roots) as Hrs by apply sorted_roots.
  case_bool_decide as Hr.
  { split; [done|]. intros []. destruct roots as [|r l]; [done|]. assert (r ∈ rs) as Hin by (apply Hrs; left).
    rewrite Hr in Hin. by apply not_elem_of_nil in Hin. }
  pose proof (roots_deployed configs rs Hu) as Hdep. destruct (forallb _ rs); cbn [negb].
  2: { split; [done|]. intros []. enough (false = true) by done. apply Hdep. intros r Hin%Hrs. by apply vr_deployed0. }
  pose proof (proj1 Hdep eq_refl) as Hrd.
  destruct (descendants_exact configs rs Hrd) as (affected & -> & Hsub & Haff). cbn [mbind res_bind].
  set (os := default [] overrides) in *.
  assert (forall x, x ∈ affected <-> contaminated configs roots x) as Haff'.
  { intros x. rewrite Haff. apply contaminated_sorted. }
  clear Haff. rename Haff' into Haff.
  pose proof (overrides_affected affected os) as Hos. destruct (forallb _ os); cbn [negb].
  2: { split; [done|]. intros []. enough (false = true) by done. apply Hos. intros x s Hin. by eapply Haff, vr_overrides0. }
  pose proof (proj1 Hos eq_refl) as Hover.
  pose proof (no_narrower os (root_rebuild_scope origin) rs) as Hn. destruct (existsb _ rs).
  { split; [done|]. intros []. enough (true = false) by done. apply Hn. intros r Hr'%Hrs. apply narrower_spec.
    intros s. by apply vr_scope0. }
  pose proof (proj1 Hn eq_refl) as Hwide.
  assert (forall x, x ∈ affected -> is_deployed configs x) as Had.
  { intros x Hx. apply Hsub, elem_of_list_to_set, list_elem_of_fmap in Hx as (c & -> & Hin). by exists c. }
  destruct (waves_exact configs roots affected Hu Hacc Haff Had) as (waves & -> & Hord & Hnd & Hcat). cbn [mbind res_bind].
  destruct (impact_datasets_spec configs roots origin os Hu Hfields rs (concat waves)) as (items & -> & Hmap & Hitems);
    [done|intros x Hx%Hcat%Haff; by apply Had|done|]. cbn [mbind res_bind].
  rewrite validate_plan_Ok; cbn [rip_root_dataset_ids rip_waves rip_datasets affected_dataset_ids]; [|done| |done..|].
  - split; split; try done.
    + intros ->. by apply Hnil.
    + by apply built_acyclic.
    + intros ->. by apply Hr.
    + intros r Hr'. by apply Hrd, Hrs.
    + intros x s Hx. by eapply Haff, Hover.
    + intros r s Hr'. apply narrower_spec. by apply Hwide, Hrs.
    + unfold affected_dataset_ids. cbn. by rewrite Hmap.
    + unfold affected_dataset_ids. cbn. by rewrite Hmap.
  - unfold rs. rewrite sort_on_perm. apply NoDup_remove_dups.
  - intros x Hx%Hrs. apply Hcat. exists x. by split.
Qed.

(** A warehouse of four datasets and one outside: [mart] is built from [silver] and [dim], both from [raw]. *)
Module Demo.

Definition config (dataset_id : string) (dependencies : list string) (enabled : bool) : DatasetConfig :=
  with_enabled (demo_dataset dataset_id 100 dependencies) enabled.

Definition warehouse : list DatasetConfig :=
  [config "mart" ["silver"; "dim"] true; config "silver" ["raw"] true; config "raw" [] true;
   config "dim" ["raw"] false; config "other" [] true].

Definition widen : list (string * RebuildScope) := [("dim", CAPTURE_AND_TARGET)].

Definition expected : RebuildImpactPlan :=
  {| rip_issue_origin := CAPTURE_SEMANTICS; rip_root_dataset_ids := ["raw"];
     rip_datasets := map (fun e => {| rid_dataset_id := e.1.1.1; rid_target_layer := "silver"; rid_enabled := e.1.1.2;
                                      rid_is_root := e.1.2; rid_rebuild_scope := e.2 |})
       [("raw", true, true, AUTHORITATIVE_RESET); ("dim", false, false, CAPTURE_AND_TARGET);
        ("silver", true, false, TARGET_ONLY); ("mart", true, false, TARGET_ONLY)];
     rip_waves := [["raw"]; ["dim"; "silver"]; ["mart"]];
     rip_disabled_affected_dataset_ids := ["dim"] |}.

Lemma warehouse_plan : build_rebuild_impact_plan warehouse ["raw"] CAPTURE_SEMANTICS (Some widen) = Ok expected.
Proof. vm_compute. reflexivity. Qed.

Lemma rebuild_impact_exact_witness :
  valid_request warehouse ["raw"] CAPTURE_SEMANTICS widen /\ impact_plan warehouse ["raw"] CAPTURE_SEMANTICS widen expected.
Proof.
  pose proof (rebuild_impact_exact warehouse ["raw"] CAPTURE_SEMANTICS (Some widen)) as H.
  rewrite warehouse_plan in H. apply H. intros c Hc. unfold warehouse in Hc.
  repeat (apply elem_of_cons in Hc as [->|Hc]; [split; done|]). by apply not_elem_of_nil in Hc.
Defined.

(** A cycle and a narrowed root are refused. *)
Example refused :
  build_rebuild_impact_plan [config "a" ["b"] true; config "b" ["a"] true] ["a"] TARGET_LOGIC None =
    impact_error "dependency cycle detected" /\
  build_rebuild_impact_plan warehouse ["raw"] CAPTURE_DATA (Some [("raw", TARGET_ONLY)]) =
    impact_error "root scope is narrower than required".
Proof. split; vm_compute; reflexivity. Qed.
End Demo.
