(* ===== verification/Versioned.v ===== *)
(** * Versioned records under optimistic concurrency

    Maps whose records carry a version that grows with every change: what one execution of
    interleaved programs may conclude from the records it has seen.  Shared by the adapters of
    target cutovers and of rebuild states. *)

From stdpp Require Import base gmap list.
From S2P Require Import Prelude Transactions.
#[local] Open Scope Z_scope.

Section versioned.
Context {K V : Type} `{Countable K} (ver : V -> Z).

(** The record of [k] is [v], or [v] has been replaced since. *)
Definition reached (m : gmap K V) (k : K) (v : V) : Prop :=
  exists v', m !! k = Some v' /\ (v' = v \/ ver v < ver v').

(** Records are replaced by newer versions only, and are never removed. *)
Definition grows (m m' : gmap K V) : Prop := forall k v, m !! k = Some v -> reached m' k v.

Lemma grows_refl m : grows m m.
Proof. intros k v Hv. exists v. by split; [|left]. Qed.

Lemma reached_grows m m' k v : grows m m' -> reached m k v -> reached m' k v.
Proof.
  intros Hg (v' & Hv & Hle). destruct (Hg k v' Hv) as (v'' & Hv'' & Hle'). exists v''. split; [done|].
  destruct Hle as [->|Hle], Hle' as [->|Hle']; [by left|by right..|right; lia].
Qed.

Lemma grows_trans m1 m2 m3 : grows m1 m2 -> grows m2 m3 -> grows m1 m3.
Proof. intros H12 H23 k v Hv. by eapply reached_grows, H12. Qed.

Lemma reached_now m k v : m !! k = Some v -> reached m k v.
Proof. intros Hv. exists v. by split; [|left]. Qed.

Lemma grows_insert m k v : (forall v', m !! k = Some v' -> ver v' < ver v) -> grows m (<[k := v]> m).
Proof.
  intros Hlt k' v' Hv'. destruct (decide (k' = k)) as [->|Hne].
  - exists v. rewrite lookup_insert_eq. split; [done|]. right. by apply Hlt.
  - apply reached_now. by rewrite lookup_insert_ne.
Qed.

(** A record that has been reached is the record of its version. *)
Lemma reached_version m k v v' : reached m k v -> m !! k = Some v' -> ver v' = ver v -> v' = v.
Proof. intros (v'' & Hv & [->|Hlt]) Hv' Heq; [congruence|]. assert (v'' = v') as -> by congruence. lia. Qed.

Lemma reached_one m m' k v v' : m !! k = Some v -> grows m m' -> m' !! k = Some v' -> ver v' = ver v -> v' = v.
Proof. intros Hv Hg. apply reached_version. by apply Hg. Qed.

(** Statements that show a record, under an invariant they keep. *)
Section traces.
Context {Q R A : Type} (exec : gmap K V -> Q -> R -> gmap K V -> Prop) (inv : gmap K V -> Prop) (shows : Q -> R -> option (K * V)).
Context (Hkeeps : forall m q a m', inv m -> exec m q a m' -> grows m m' /\ inv m')
  (Hshows : forall m q a m' k v, exec m q a m' -> shows q a = Some (k, v) -> m' !! k = Some v).

Lemma pool_keeps (pool pool' : list (prog Q R A)) m trace m' :
  inv m -> pool_run exec pool m trace pool' m' -> grows m m' /\ inv m'.
Proof using Hkeeps.
  intros Hinv Hrun. revert Hinv.
  induction Hrun as [|pool m qa pool1 m1 trace pool2 m2 [i q k a m1' Hi Hex] _ IH]; intros Hinv; [split; [apply grows_refl|done]|].
  destruct (Hkeeps _ _ _ _ Hinv Hex) as [Hg Hinv']. destruct (IH Hinv') as [Hg' ?]. split; [by eapply grows_trans|done].
Qed.

(** Two records of one version seen in one execution are the same. *)
Lemma shown_version (pool pool' : list (prog Q R A)) m trace m' q1 a1 q2 a2 k v1 v2 :
  inv m -> pool_run exec pool m trace pool' m' -> (q1, a1) ∈ trace -> (q2, a2) ∈ trace ->
  shows q1 a1 = Some (k, v1) -> shows q2 a2 = Some (k, v2) -> ver v1 = ver v2 -> v1 = v2.
Proof using Hkeeps Hshows.
  intros Hinv Hrun H1 H2 Hs1 Hs2 Hv. apply list_elem_of_split in H1 as (tr1 & tr2 & ->).
  assert (Hone : forall q a q' a' w w' tr tr' tr'', pool_run exec pool m (tr ++ (q, a) :: tr' ++ (q', a') :: tr'') pool' m' ->
    shows q a = Some (k, w) -> shows q' a' = Some (k, w') -> ver w = ver w' -> w = w').
  { intros q a q' a' w w' tr tr' tr'' Hr Hw Hw' Heq.
    destruct (pool_run_split _ _ _ _ _ _ _ _ Hr) as (p1 & u1 & p2 & u2 & Hr1 & Hex & Hr2). simpl in Hex.
    destruct (pool_run_split _ _ _ _ _ _ _ _ Hr2) as (p3 & u3 & p4 & u4 & Hr3 & Hex' & _). simpl in Hex'.
    destruct (pool_keeps _ _ _ _ _ Hinv Hr1) as [_ Hi1]. destruct (Hkeeps _ _ _ _ Hi1 Hex) as [_ Hi2].
    destruct (pool_keeps _ _ _ _ _ Hi2 Hr3) as [Hg Hi3]. destruct (Hkeeps _ _ _ _ Hi3 Hex') as [Hg' _].
    symmetry. eapply reached_one; [by eapply (Hshows u1)| |by eapply (Hshows u3)|done]. by eapply grows_trans. }
  apply elem_of_app in H2 as [H2|[H2|H2]%elem_of_cons].
  - apply list_elem_of_split in H2 as (tr3 & tr4 & ->). rewrite <-app_assoc in Hrun. symmetry. by eapply (Hone q2 a2 q1 a1).
  - simplify_eq. congruence.
  - apply list_elem_of_split in H2 as (tr3 & tr4 & ->). by eapply (Hone q1 a1 q2 a2).
Qed.
End traces.
End versioned.
