(* ===== verification/TargetCutover.v ===== *)
(** * Target cutover ([contracts/target_version.py], [recovery/target_cutover.py])

    A stable logical object is bound to one physical version of a target; a cutover promotes a
    candidate.  The coordinator is a program of calls of an adapter, which may be any adapter that
    does what the reference adapter of the repository does, or fails: before the change, or after
    it with the answer lost.  Coordinators interleave between their calls. *)

From stdpp Require Import base gmap strings list.
From S2P Require Import Prelude PyValue Temporal ConfigTypes Transactions Versioned.
#[local] Open Scope Z_scope.

(** ** Contracts *)

Record TargetVersionSpec := {
  tv_dataset_id : string;
  tv_layer : string;
  tv_logical_object : string;
  tv_physical_object : string;
  tv_version : string
}.

(** [validate_distinct_physical_target], after the field constraints *)
Definition make_TargetVersionSpec (v : TargetVersionSpec) : res TargetVersionSpec :=
  if negb (forallb nonempty [tv_dataset_id v; tv_layer v; tv_logical_object v; tv_physical_object v; tv_version v]) then bad_field
  else if String.eqb (tv_logical_object v) (tv_physical_object v) then
    raise "ValueError" "versioned target physical_object must differ from logical_object"
  else Ok v.

Record TargetCutoverGate := {
  tg_candidate_built : bool;
  tg_reconciliation_passed : bool;
  tg_consumer_validation_passed : bool;
  tg_validation_reference : string;
  tg_approval_reference : string
}.

Definition can_promote (g : TargetCutoverGate) : bool :=
  tg_candidate_built g && tg_reconciliation_passed g && tg_consumer_validation_passed g.

Record TargetCutoverRequest := {
  tr_cutover_request_id : N;
  tr_dataset_id : string;
  tr_environment : string;
  tr_logical_object : string;
  tr_from_version : string;
  tr_to_version : string;
  tr_requested_by : string;
  tr_reason : string;
  tr_approval_reference : string;
  tr_created_at : datetime
}.

(** [validate_version_change], after the field constraints *)
Definition make_TargetCutoverRequest (r : TargetCutoverRequest) : res TargetCutoverRequest :=
  if negb (forallb nonempty [tr_dataset_id r; tr_environment r; tr_logical_object r; tr_from_version r; tr_to_version r;
                             tr_requested_by r; tr_reason r; tr_approval_reference r]) then bad_field
  else if String.eqb (tr_from_version r) (tr_to_version r) then
    raise "ValueError" "target cutover requires different from_version and to_version"
  else if is_naive (tr_created_at r) then raise "ValueError" "created_at must be timezone-aware"
  else Ok r.

Record TargetActiveVersionSnapshot := {
  ta_dataset_id : string;
  ta_environment : string;
  ta_logical_object : string;
  ta_version : string;
  ta_physical_object : string;
  ta_generation : Z;
  ta_last_cutover_request_id : option N
}.

Definition make_TargetActiveVersionSnapshot (s : TargetActiveVersionSnapshot) : res TargetActiveVersionSnapshot :=
  if negb (forallb nonempty [ta_dataset_id s; ta_environment s; ta_logical_object s; ta_version s; ta_physical_object s])
     || (ta_generation s <? 1) then bad_field
  else Ok s.

Record TargetCutoverResult := {
  tcr_request_id : N;
  tcr_before : TargetActiveVersionSnapshot;
  tcr_after : TargetActiveVersionSnapshot;
  tcr_candidate : TargetVersionSpec;
  tcr_already_promoted : bool
}.

Definition cutover_conflict {A} (site : string) : res A := raise "TargetCutoverConflict" site.
Definition cutover_gate_error {A} (site : string) : res A := raise "TargetCutoverGateError" site.

(** ** The reference adapter *)

(** [(dataset_id, environment, logical_object)] *)
Notation binding_key := (string * string * string)%type.
Notation bindings := (gmap binding_key TargetActiveVersionSnapshot).

Definition request_key (r : TargetCutoverRequest) : binding_key :=
  (tr_dataset_id r, tr_environment r, tr_logical_object r).

Definition seed_active (states : bindings) (key : binding_key) (version physical_object : string) :
    res (TargetActiveVersionSnapshot * bindings) :=
  let generation := match states !! key with Some current => ta_generation current + 1 | None => 1 end in
  state ← make_TargetActiveVersionSnapshot
    {| ta_dataset_id := key.1.1; ta_environment := key.1.2; ta_logical_object := key.2; ta_version := version;
       ta_physical_object := physical_object; ta_generation := generation; ta_last_cutover_request_id := None |};
  Ok (state, <[key := state]> states).

Definition read_active (states : bindings) (key : binding_key) : res TargetActiveVersionSnapshot :=
  match states !! key with
  | Some state => Ok state
  | None => cutover_conflict "no active target binding"
  end.

Definition promote (states : bindings) (expected_generation : Z) (request : TargetCutoverRequest)
    (candidate : TargetVersionSpec) : res (TargetActiveVersionSnapshot * bindings) :=
  let key := request_key request in
  current ← read_active states key;
  if bool_decide (ta_last_cutover_request_id current = Some (tr_cutover_request_id request)) then Ok (current, states)
  else if negb (ta_generation current =? expected_generation) then
    cutover_conflict "target binding generation changed"
  else if negb (String.eqb (ta_version current) (tr_from_version request)) then
    cutover_conflict "active version is not the expected one"
  else
    next_state ← make_TargetActiveVersionSnapshot
      {| ta_dataset_id := ta_dataset_id current;
         ta_environment := ta_environment current;
         ta_logical_object := ta_logical_object current;
         ta_version := tv_version candidate;
         ta_physical_object := tv_physical_object candidate;
         ta_generation := ta_generation current + 1;
         ta_last_cutover_request_id := Some (tr_cutover_request_id request) |};
    Ok (next_state, <[key := next_state]> states).

(** The calls of an adapter. *)
Inductive adapter_call :=
| ReadActive (key : binding_key)
| Promote (expected_generation : Z) (request : TargetCutoverRequest) (candidate : TargetVersionSpec)
| SeedActive (key : binding_key) (version physical_object : string).

Notation binding_answer := (res TargetActiveVersionSnapshot).
Notation cutover := (prog adapter_call binding_answer).

Definition answered (states : bindings) (r : res (TargetActiveVersionSnapshot * bindings)) : binding_answer * bindings :=
  match r with Ok (state, states') => (Ok state, states') | Raise e => (Raise e, states) end.

Definition exec_adapter (states : bindings) (q : adapter_call) : binding_answer * bindings :=
  match q with
  | ReadActive key => (read_active states key, states)
  | Promote expected_generation request candidate => answered states (promote states expected_generation request candidate)
  | SeedActive key version physical_object => answered states (seed_active states key version physical_object)
  end.

(** What an adapter may answer. *)
Inductive adapter_may (states : bindings) (q : adapter_call) : binding_answer -> bindings -> Prop :=
| may_answer : adapter_may states q (exec_adapter states q).1 (exec_adapter states q).2
| may_fail e : adapter_may states q (Raise e) states
| may_lose e : adapter_may states q (Raise e) (exec_adapter states q).2.

(** ** The coordinator *)

Definition call_adapter (q : adapter_call) : cutover TargetActiveVersionSnapshot := Stmt q (fun a => pure a).

Definition _validate_candidate (request : TargetCutoverRequest) (candidate : TargetVersionSpec)
    (before : TargetActiveVersionSnapshot) : res unit :=
  if negb (String.eqb (tv_dataset_id candidate) (tr_dataset_id request)) then
    cutover_conflict "candidate dataset_id does not match cutover request"
  else if negb (String.eqb (tv_logical_object candidate) (tr_logical_object request)) then
    cutover_conflict "candidate logical_object does not match cutover request"
  else if negb (String.eqb (tv_version candidate) (tr_to_version request)) then
    cutover_conflict "candidate version does not match cutover to_version"
  else if negb (String.eqb (ta_version before) (tr_from_version request)) then
    cutover_conflict "active version is not the expected one"
  else if String.eqb (tv_physical_object candidate) (ta_physical_object before) then
    cutover_conflict "blue/green cutover candidate physical object must differ from active object"
  else Ok tt.

(** The checks before the promotion. *)
Definition check_cutover (request : TargetCutoverRequest) (candidate : TargetVersionSpec) (gate : TargetCutoverGate)
    (before : TargetActiveVersionSnapshot) : res unit :=
  _ ← _validate_candidate request candidate before;
  if negb (String.eqb (tg_approval_reference gate) (tr_approval_reference request)) then
    cutover_gate_error "cutover gate approval_reference does not match request approval_reference"
  else if negb (can_promote gate) then
    cutover_gate_error "target cutover requires candidate build, reconciliation and consumer validation"
  else Ok tt.

Definition execute_target_cutover (request : TargetCutoverRequest) (candidate : TargetVersionSpec)
    (gate : TargetCutoverGate) : cutover TargetCutoverResult :=
  before ← call_adapter (ReadActive (request_key request));
  if bool_decide (ta_last_cutover_request_id before = Some (tr_cutover_request_id request)) then
    if negb (String.eqb (ta_version before) (tr_to_version request))
       || negb (String.eqb (ta_physical_object before) (tv_physical_object candidate)) then
      pure (cutover_conflict "cutover request id already applied to a different target version")
    else
      mret {| tcr_request_id := tr_cutover_request_id request; tcr_before := before; tcr_after := before;
              tcr_candidate := candidate; tcr_already_promoted := true |}
  else
    _ ← pure (check_cutover request candidate gate before);
    after ← call_adapter (Promote (ta_generation before) request candidate);
    if negb (String.eqb (ta_version after) (tv_version candidate))
       || negb (String.eqb (ta_physical_object after) (tv_physical_object candidate))
       || negb (bool_decide (ta_last_cutover_request_id after = Some (tr_cutover_request_id request))) then
      pure (cutover_conflict "target cutover adapter did not return the requested promoted binding")
    else
      mret {| tcr_request_id := tr_cutover_request_id request; tcr_before := before; tcr_after := after;
              tcr_candidate := candidate; tcr_already_promoted := false |}.

(** ** Coordinators at work *)

Inductive operation :=
| CutOver (request : TargetCutoverRequest) (candidate : TargetVersionSpec) (gate : TargetCutoverGate)
| Seed (key : binding_key) (version physical_object : string).

Definition operation_program (c : operation) : cutover (option TargetCutoverResult) :=
  match c with
  | CutOver request candidate gate => r ← execute_target_cutover request candidate gate; mret (Some r)
  | Seed key version physical_object => _ ← call_adapter (SeedActive key version physical_object); mret None
  end.

(** ** The adapter *)

Notation bindings_grow := (grows (K := binding_key) ta_generation).
Notation was_bound := (reached (K := binding_key) ta_generation).

Lemma promote_Ok m g request candidate s m' :
  promote m g request candidate = Ok (s, m') ->
  exists current, m !! request_key request = Some current /\
    ((ta_last_cutover_request_id current = Some (tr_cutover_request_id request) /\ s = current /\ m' = m) \/
     (ta_last_cutover_request_id current <> Some (tr_cutover_request_id request) /\ ta_generation current = g /\
      ta_version current = tr_from_version request /\
      s = {| ta_dataset_id := ta_dataset_id current; ta_environment := ta_environment current;
             ta_logical_object := ta_logical_object current; ta_version := tv_version candidate;
             ta_physical_object := tv_physical_object candidate; ta_generation := g + 1;
             ta_last_cutover_request_id := Some (tr_cutover_request_id request) |} /\
      m' = <[request_key request := s]> m)).
Proof.
  unfold promote, read_active. intros (current & Hc & H)%bind_Ok. exists current.
  destruct (m !! request_key request) as [c|]; [|done]. injection Hc as ->. split; [done|].
  case_bool_decide as Hl; [injection H as <- <-; by left|].
  destruct (ta_generation current =? g) eqn:Eg; [|done]. destruct (String.eqb _ _) eqn:Ev; [|done]. cbn [negb] in H.
  apply bind_Ok in H as (s' & Hs & [= <- <-]). unfold make_TargetActiveVersionSnapshot in Hs.
  destruct (_ || _) in Hs; [done|]. injection Hs as <-. right. apply Z.eqb_eq in Eg as <-. apply String.eqb_eq in Ev. done.
Qed.

Lemma seed_Ok m key version physical s m' :
  seed_active m key version physical = Ok (s, m') ->
  m' = <[key := s]> m /\ ta_last_cutover_request_id s = None /\ forall current, m !! key = Some current -> ta_generation current < ta_generation s.
Proof.
  unfold seed_active. intros (s' & Hs & [= <- <-])%bind_Ok. unfold make_TargetActiveVersionSnapshot in Hs.
  destruct (_ || _) in Hs; [done|]. injection Hs as <-. split_and!; [done..|]. intros current ->. simpl. lia.
Qed.

Definition shows_binding (q : adapter_call) (a : binding_answer) : option (binding_key * TargetActiveVersionSnapshot) :=
  match a with
  | Ok s => Some (match q with ReadActive key | SeedActive key _ _ => key | Promote _ request _ => request_key request end, s)
  | Raise _ => None
  end.

(** Every state an answer can leave behind is the old one or the one of the reference adapter. *)
Lemma adapter_states m q a m' : adapter_may m q a m' -> m' = m \/ m' = (exec_adapter m q).2.
Proof. intros []; auto. Qed.

Lemma exec_adapter_grows m q : bindings_grow m (exec_adapter m q).2.
Proof.
  destruct q as [key|g request candidate|key version physical]; simpl; [apply grows_refl|..].
  - destruct (promote m g request candidate) as [[s m']|e] eqn:E; simpl; [|apply grows_refl].
    apply promote_Ok in E as (current & Hc & [(_ & _ & ->)|(_ & Hg & _ & Hs & ->)]); [apply grows_refl|].
    apply grows_insert. intros v Hv. assert (v = current) as -> by congruence. subst s. simpl. lia.
  - destruct (seed_active m key version physical) as [[s m']|e] eqn:E; simpl; [|apply grows_refl].
    apply seed_Ok in E as (-> & _ & Hlt). by apply grows_insert.
Qed.

Lemma adapter_grows m q a m' : adapter_may m q a m' -> bindings_grow m m'.
Proof. intros [->| ->]%adapter_states; [apply grows_refl|apply exec_adapter_grows]. Qed.

Lemma adapter_shows m q a m' k v : adapter_may m q a m' -> shows_binding q a = Some (k, v) -> m' !! k = Some v.
Proof.
  intros [|e|e]; [|done..]. destruct q as [key|g request candidate|key version physical]; simpl.
  - unfold read_active. destruct (m !! key) eqn:E; simpl; [|done]. by intros [= <- <-].
  - destruct (promote m g request candidate) as [[s m1]|e] eqn:E; simpl; [|done]. intros [= <- <-].
    apply promote_Ok in E as (current & Hc & [(_ & -> & ->)|(_ & _ & _ & _ & ->)]); [done|]. by rewrite lookup_insert_eq.
  - destruct (seed_active m key version physical) as [[s m1]|e] eqn:E; simpl; [|done]. intros [= <- <-].
    apply seed_Ok in E as (-> & _). by rewrite lookup_insert_eq.
Qed.

(** ** The checks *)

(** What the checks of the coordinator establish of the binding it has read. *)
Record approved (request : TargetCutoverRequest) (candidate : TargetVersionSpec) (gate : TargetCutoverGate)
    (before : TargetActiveVersionSnapshot) : Prop := {
  ap_version : tv_version candidate = tr_to_version request;
  ap_from : ta_version before = tr_from_version request;
  ap_physical : tv_physical_object candidate <> ta_physical_object before;
  ap_object : tv_logical_object candidate = tr_logical_object request /\ tv_dataset_id candidate = tr_dataset_id request;
  ap_reference : tg_approval_reference gate = tr_approval_reference request;
  ap_gate : can_promote gate = true
}.

Lemma check_cutover_Ok request candidate gate before :
  check_cutover request candidate gate before = Ok tt <-> approved request candidate gate before.
Proof.
  unfold check_cutover, _validate_candidate, cutover_conflict, cutover_gate_error. split.
  - intros ([] & H & Hg)%bind_Ok.
    destruct (String.eqb (tv_dataset_id candidate) _) eqn:E1; [|done].
    destruct (String.eqb (tv_logical_object candidate) _) eqn:E2; [|done].
    destruct (String.eqb (tv_version candidate) _) eqn:E3; [|done].
    destruct (String.eqb (ta_version before) _) eqn:E4; [|done].
    destruct (String.eqb (tv_physical_object candidate) _) eqn:E5; [done|].
    destruct (String.eqb (tg_approval_reference gate) _) eqn:E6; [|done].
    destruct (can_promote gate) eqn:E7; [|done].
    rewrite ?String.eqb_eq, ?String.eqb_neq in *. split; by try split.
  - intros [-> -> Hp [-> ->] -> ->]. rewrite !String.eqb_refl. cbn.
    apply String.eqb_neq in Hp. by rewrite Hp.
Qed.

(** ** The coordinators *)

Section coordinators.
Context (operations : list operation).

(** A call of the adapter some operation may make. *)
Definition allowed (m : bindings) (q : adapter_call) : Prop :=
  match q with
  | ReadActive _ => True
  | Promote g request candidate => exists before gate, CutOver request candidate gate ∈ operations /\
      was_bound m (request_key request) before /\ ta_generation before = g /\ approved request candidate gate before
  | SeedActive key version physical => Seed key version physical ∈ operations
  end.

#[export] Instance cutover_state : SharedState adapter_may (fun _ => True) bindings_grow allowed.
Proof.
  split; [intros; apply grows_refl|intros; by eapply grows_trans| |done|].
  - intros m q a m' _ _. apply adapter_grows.
  - intros m m' [key|g request candidate|key version physical] Hg; simpl; try done.
    intros (before & gate & Hin & Hr & Hrest). exists before, gate. split; [done|]. split; [by eapply reached_grows|done].
Qed.
End coordinators.

(** What a cutover that returned has done. *)
Record cutover_done (request : TargetCutoverRequest) (candidate : TargetVersionSpec) (gate : TargetCutoverGate)
    (m : bindings) (r : TargetCutoverResult) : Prop := {
  cd_request : tcr_request_id r = tr_cutover_request_id request /\ tcr_candidate r = candidate;
  cd_bound : was_bound m (request_key request) (tcr_before r) /\ was_bound m (request_key request) (tcr_after r);
  cd_after : ta_version (tcr_after r) = tr_to_version request /\
    ta_physical_object (tcr_after r) = tv_physical_object candidate /\
    ta_last_cutover_request_id (tcr_after r) = Some (tr_cutover_request_id request);
  cd_already : tcr_already_promoted r = true -> tcr_after r = tcr_before r;
  cd_promoted : tcr_already_promoted r = false ->
    approved request candidate gate (tcr_before r) /\ ta_generation (tcr_before r) < ta_generation (tcr_after r)
}.

Definition operation_done (c : operation) (m : bindings) (r : option TargetCutoverResult) : Prop :=
  match c, r with
  | CutOver request candidate gate, Some r => cutover_done request candidate gate m r
  | CutOver _ _ _, None => False
  | Seed _ _ _, r => r = None
  end.

Lemma cutover_stable c : stable bindings_grow (returns (operation_done c)).
Proof.
  intros m m' [r|e] Hg; [|done]. destruct c as [request candidate gate|]; [|done]. destruct r as [r|]; [|done].
  intros [H1 [H2 H2'] H3 H4 H5]. split; try done. split; by eapply reached_grows.
Qed.

Section coordinators_safe.
Context (operations : list operation).
Notation csafe := (safe adapter_may (fun _ => True) bindings_grow (allowed operations)).

Lemma cutover_safe request candidate gate m : CutOver request candidate gate ∈ operations ->
  csafe (returns (cutover_done request candidate gate)) (execute_target_cutover request candidate gate) m.
Proof.
  intros Hop. unfold execute_target_cutover. cbn [call_adapter]. split; [done|]. intros m1 a m2 Hl _ Hex.
  destruct a as [before|e]; [|done]. cbn [prog_then pure].
  pose proof (adapter_shows _ _ _ _ _ _ Hex eq_refl) as Hb.
  case_bool_decide as Hid.
  - destruct (String.eqb (ta_version before) _) eqn:E1; [|done].
    destruct (String.eqb (ta_physical_object before) _) eqn:E2; [|done]. cbn.
    apply String.eqb_eq in E1, E2. pose proof (reached_now ta_generation _ _ _ Hb). split; done.
  - destruct (check_cutover request candidate gate before) as [[]|e] eqn:Ec; [|done]. cbn.
    apply check_cutover_Ok in Ec. split.
    { exists before, gate. split_and!; try done. by apply reached_now. }
    intros m3 [after|e] m4 Hl' _ Hex'; [|done]. cbn.
    destruct (String.eqb (ta_version after) _) eqn:E1; [|done].
    destruct (String.eqb (ta_physical_object after) _) eqn:E2; [|done].
    case_bool_decide as Hlast; [|done]. cbn. apply String.eqb_eq in E1, E2.
    pose proof (adapter_shows _ _ _ _ _ _ Hex' eq_refl) as Ha.
    assert (was_bound m4 (request_key request) before) as Hbefore.
    { eapply reached_grows; [by eapply adapter_grows|]. eapply reached_grows; [done|]. by apply reached_now. }
    split; cbn; try done.
    + split; [done|]. by apply reached_now.
    + destruct Ec. split_and!; congruence.
    + intros _. split; [done|]. destruct Hbefore as (s & Hs & Hcase).
      assert (s = after) as -> by congruence. destruct Hcase as [->|Hlt]; [by destruct Hid|done].
Qed.

Lemma cutover_operation_safe c m : c ∈ operations -> csafe (returns (operation_done c)) (operation_program c) m.
Proof.
  destruct c as [request candidate gate|key version physical]; intros Hop; cbn [operation_program].
  - eapply safe_returns_bind; [apply cutover_state|by apply cutover_safe|]. by intros m' r _ Hr.
  - split; [done|]. by intros m1 [s|e] m2 _ _ _.
Qed.
End coordinators_safe.

(** A change of a binding that is governed: an approved promotion of an operation, or a seed. *)
Definition governed_change (operations : list operation) (key : binding_key) (old new : option TargetActiveVersionSnapshot) : Prop :=
  (exists request candidate gate before, CutOver request candidate gate ∈ operations /\ key = request_key request /\
     old = Some before /\ approved request candidate gate before /\
     ta_last_cutover_request_id before <> Some (tr_cutover_request_id request) /\
     new = Some {| ta_dataset_id := ta_dataset_id before; ta_environment := ta_environment before;
                   ta_logical_object := ta_logical_object before; ta_version := tr_to_version request;
                   ta_physical_object := tv_physical_object candidate; ta_generation := ta_generation before + 1;
                   ta_last_cutover_request_id := Some (tr_cutover_request_id request) |}) \/
  (exists version physical, Seed key version physical ∈ operations).

Lemma promotion_governed operations m q key :
  allowed operations m q -> m !! key <> (exec_adapter m q).2 !! key ->
  governed_change operations key (m !! key) ((exec_adapter m q).2 !! key).
Proof.
  destruct q as [k|g request candidate|k version physical]; simpl; [done|..].
  - intros (before & gate & Hop & Hb & Hg & Hap). destruct (promote m g request candidate) as [[s m']|e] eqn:E; simpl; [|done].
    apply promote_Ok in E as (current & Hc & [(_ & _ & ->)|(Hlast & Hgc & _ & Hs & ->)]); [done|].
    destruct (decide (key = request_key request)) as [->|Hne]; [|by rewrite lookup_insert_ne].
    intros _. rewrite Hc, lookup_insert_eq. left.
    assert (current = before) as -> by (apply (reached_version _ _ _ _ _ Hb Hc); congruence).
    exists request, candidate, gate, before. split_and!; try done. subst s. rewrite (ap_version _ _ _ _ Hap). by rewrite Hg.
  - intros Hop. destruct (seed_active m k version physical) as [[s m']|e] eqn:E; simpl; [|done].
    apply seed_Ok in E as (-> & _). destruct (decide (key = k)) as [->|Hne]; [|by rewrite lookup_insert_ne].
    right. by exists version, physical.
Qed.

Lemma cutover_path request candidate gate tr r :
  path (execute_target_cutover request candidate gate) tr (Ok r) ->
  tcr_request_id r = tr_cutover_request_id request /\ ta_last_cutover_request_id (tcr_after r) = Some (tr_cutover_request_id request) /\
  exists q a, (q, a) ∈ tr /\ shows_binding q a = Some (request_key request, tcr_after r).
Proof.
  unfold execute_target_cutover. intros [(e & _ & He)|(tr1 & before & tr2 & -> & Hread & Hp)]%path_bind; [done|].
  inversion Hread as [|q k a tr' r' Hk]; subst. inversion Hk as [r' Hr|]; subst.
  case_bool_decide as Hid.
  - destruct (_ || _) in Hp; [by inversion Hp|]. inversion Hp as [r' Hr|]; subst. split; [done|]. split; [done|].
    eexists _, (Ok before). split; [by left|done].
  - apply path_bind in Hp as [(e & _ & He)|(tr3 & [] & tr4 & -> & Hc & Hp)]; [done|]. inversion Hc as [r' Hr|]; subst.
    apply path_bind in Hp as [(e & _ & He)|(tr5 & after & tr6 & -> & Hw & Hp)]; [done|].
    inversion Hw as [|q k a tr' r' Hk']; subst. inversion Hk' as [r' Hr'|]; subst.
    destruct (negb (String.eqb (ta_version after) _) || _); [by inversion Hp|]. cbn [orb] in Hp.
    case_bool_decide as Hlast; [|by inversion Hp]. inversion Hp as [r' Hr''|]; subst. split; [done|]. split; [done|].
    eexists _, (Ok after). split; [right; by left|done].
Qed.

(** ** Properties *)

Section cutover_properties.
Context {St : Type} `{LawfulDatabase adapter_call binding_answer St bindings adapter_may}.

End cutover_properties.

(** ** Repeated requests *)

(** Repeating a cutover whose binding is still active changes nothing and returns the same binding, on the
    reference adapter. *)
Theorem cutover_repeated request candidate gate gate2 m r m' :
  run_alone exec_adapter (execute_target_cutover request candidate gate) m = (Ok r, m') ->
  run_alone exec_adapter (execute_target_cutover request candidate gate2) m' =
    (Ok {| tcr_request_id := tr_cutover_request_id request; tcr_before := tcr_after r; tcr_after := tcr_after r;
           tcr_candidate := candidate; tcr_already_promoted := true |}, m').
Proof.
  intros Hrun. destruct (run_alone_path exec_adapter (execute_target_cutover request candidate gate) m) as [tr Hp].
  rewrite Hrun in Hp. cbn [fst] in Hp.
  assert (m' !! request_key request = Some (tcr_after r) /\ ta_version (tcr_after r) = tr_to_version request /\
    ta_physical_object (tcr_after r) = tv_physical_object candidate /\
    ta_last_cutover_request_id (tcr_after r) = Some (tr_cutover_request_id request)) as (Hb & Hv & Hph & Hl).
  { clear Hp tr. cbn in Hrun. unfold read_active in Hrun. destruct (m !! request_key request) as [before|] eqn:E; [|done]. cbn in Hrun.
    case_bool_decide as Hid.
    - destruct (String.eqb (ta_version before) _) eqn:E1; [|done]. destruct (String.eqb (ta_physical_object before) _) eqn:E2; [|done].
      cbn in Hrun. apply String.eqb_eq in E1, E2. injection Hrun as <- <-. done.
    - destruct (check_cutover request candidate gate before) as [[]|] eqn:Ec; [|done]. apply check_cutover_Ok in Ec. cbn in Hrun.
      destruct (promote m (ta_generation before) request candidate) as [[s m1]|] eqn:Ep; [|done]. cbn in Hrun.
      destruct (String.eqb (ta_version s) _) eqn:E1; [|done]. destruct (String.eqb (ta_physical_object s) _) eqn:E2; [|done].
      cbn in Hrun. case_bool_decide as Hlast; [|done]. cbn in Hrun. injection Hrun as <- <-. apply String.eqb_eq in E1, E2.
      apply promote_Ok in Ep as (current & Hc & [(Hc' & _)|(_ & _ & _ & _ & ->)]); [congruence|].
      rewrite lookup_insert_eq. destruct Ec. split_and!; cbn; congruence. }
  cbn. unfold read_active. rewrite Hb. cbn. rewrite bool_decide_true by done. by rewrite Hv, Hph, !String.eqb_refl.
Qed.

(** ** Concrete cutovers *)

Module Demo.

Definition memory : Database adapter_call binding_answer bindings bindings :=
  {| view := id; db_exec := fun m q a m' => exec_adapter m q = (a, m') |}.

Lemma reference_adapter_lawful : @LawfulDatabase _ _ _ _ adapter_may memory.
Proof. intros m q a m'. simpl. intros E. pose proof (may_answer m q) as Hm. by rewrite E in Hm. Qed.

Definition version (v : string) : TargetVersionSpec :=
  {| tv_dataset_id := "silver.customer"; tv_layer := "silver"; tv_logical_object := "customer";
     tv_physical_object := "customer_" +:+ v; tv_version := v |}.

Definition request (id : N) (from_version to_version : string) : TargetCutoverRequest :=
  {| tr_cutover_request_id := id; tr_dataset_id := "silver.customer"; tr_environment := "PROD"; tr_logical_object := "customer";
     tr_from_version := from_version; tr_to_version := to_version; tr_requested_by := "data-ops"; tr_reason := "corrected logic";
     tr_approval_reference := "CAB-1"; tr_created_at := utc 10 |}.

Definition gate : TargetCutoverGate :=
  {| tg_candidate_built := true; tg_reconciliation_passed := true; tg_consumer_validation_passed := true;
     tg_validation_reference := "uat://pass"; tg_approval_reference := "CAB-1" |}.

Definition key : binding_key := ("silver.customer", "PROD", "customer").

(** Two requests race for one binding; the second is asked again after the first has won. *)
Definition operations : list operation :=
  [Seed key "v1" "customer_v1"; CutOver (request 1 "v1" "v2") (version "v2") gate;
   CutOver (request 2 "v1" "v3") (version "v3") gate; CutOver (request 3 "v2" "v3") (version "v3") gate].
Definition schedule : list nat := [0; 1; 2; 1; 2; 3; 3]%nat.

Definition final : list (cutover (option TargetCutoverResult)) * bindings :=
  run_schedule exec_adapter schedule (operation_program <$> operations) ∅.

Definition cutover_summary (p : cutover (option TargetCutoverResult)) : option (res (option (string * Z))) :=
  match p with
  | Done (Ok (Some r)) => Some (Ok (Some (ta_version (tcr_after r), ta_generation (tcr_after r))))
  | Done (Ok None) => Some (Ok None)
  | Done (Raise e) => Some (Raise e)
  | Stmt _ _ => None
  end.

Lemma final_outcomes : map cutover_summary final.1 =
  [Some (Ok None); Some (Ok (Some ("v2", 2))); Some (cutover_conflict "target binding generation changed"); Some (Ok (Some ("v3", 3)))].
Proof. vm_compute. reflexivity. Qed.


Definition seeded : bindings := (run_alone exec_adapter (call_adapter (SeedActive key "v1" "customer_v1")) ∅).2.

Definition cut (m : bindings) (r : TargetCutoverRequest) (candidate : TargetVersionSpec) : res TargetCutoverResult * bindings :=
  run_alone exec_adapter (execute_target_cutover r candidate gate) m.

Lemma cutover_repeated_witness :
  exists r m', run_alone exec_adapter (execute_target_cutover (request 1 "v1" "v2") (version "v2") gate) seeded = (Ok r, m') /\
    (run_alone exec_adapter (execute_target_cutover (request 1 "v1" "v2") (version "v2") gate) m').2 = m'.
Proof.
  destruct (run_alone exec_adapter (execute_target_cutover (request 1 "v1" "v2") (version "v2") gate) seeded) as [[r|e] m'] eqn:E.
  - exists r, m'. split; [reflexivity|]. by rewrite (cutover_repeated (request 1 "v1" "v2") (version "v2") gate gate seeded r m' E).
  - exfalso. assert (is_ok (run_alone exec_adapter (execute_target_cutover (request 1 "v1" "v2") (version "v2") gate) seeded).1 = true) as Hok
      by (vm_compute; reflexivity). by rewrite E in Hok.
Defined.

(** A repeated request is not idempotent after a rollback: the binding remembers only the last request, so the
    retry of a cutover from v1 to v2 that was rolled back to v1 finds the version it expects and promotes v2 again. *)
Theorem rolled_back_request_promotes_again :
  exists r1 m1 r2 m2 r3 m3,
    cut seeded (request 1 "v1" "v2") (version "v2") = (Ok r1, m1) /\
    cut m1 (request 2 "v2" "v1") (version "v1") = (Ok r2, m2) /\
    cut m2 (request 1 "v1" "v2") (version "v2") = (Ok r3, m3) /\
    ta_version (tcr_after r2) = "v1" /\ tcr_already_promoted r3 = false /\
    ta_version (tcr_after r3) = "v2" /\ ta_generation (tcr_after r3) = ta_generation (tcr_after r1) + 2.
Proof. repeat eexists. Qed.
End Demo.
