(* ===== verification/Rebuild.v ===== *)
(** * Full rebuild ([contracts/rebuild.py], [recovery/rebuild.py])

    A full rebuild reconstructs a target within an authorised scope and then cuts the runtime state
    of the dataset over.  The coordinator is a program: it reads the state, calls the physical
    rebuild, which is a parameter that may answer anything, and commits the new state at the version
    it has read.  Coordinators interleave between these calls, on any state adapter that does what
    the reference adapter of the repository does, or fails. *)

From stdpp Require Import base gmap strings list.
From S2P Require Import Prelude PyValue PyDict ConfigTypes RuntimeState RunContracts Transactions Versioned.
#[local] Open Scope Z_scope.

(** ** Contracts *)

Inductive RebuildProgressKind := PK_NONE | PK_WATERMARK | PK_CDC | PK_EXTERNAL.
#[export] Instance RebuildProgressKind_eq_dec : EqDecision RebuildProgressKind.
Proof. solve_decision. Defined.

Record FullRebuildStateReplacement := {
  fsr_progress_kind : RebuildProgressKind;
  fsr_progress_payload : list (string * value);
  fsr_dataset_state : list (string * value);
  fsr_source_boundary_reference : option string
}.

(** Equality of models: of their fields. *)
Definition replacement_eqb (a b : FullRebuildStateReplacement) : bool :=
  bool_decide (fsr_progress_kind a = fsr_progress_kind b)
  && py_eqb (VDict (fsr_progress_payload a)) (VDict (fsr_progress_payload b))
  && py_eqb (VDict (fsr_dataset_state a)) (VDict (fsr_dataset_state b))
  && bool_decide (fsr_source_boundary_reference a = fsr_source_boundary_reference b).

Definition same_replacement (a b : option FullRebuildStateReplacement) : bool :=
  match a, b with
  | Some a, Some b => replacement_eqb a b
  | None, None => true
  | _, _ => false
  end.

Record FullRebuildStateSnapshot := {
  fss_dataset_id : string;
  fss_version : Z;
  fss_replacement : option FullRebuildStateReplacement;
  fss_last_rebuild_request_id : option N;
  fss_last_rebuild_dataset_run_id : option N
}.

Definition make_FullRebuildStateSnapshot (s : FullRebuildStateSnapshot) : res FullRebuildStateSnapshot :=
  if negb (nonempty (fss_dataset_id s)) || (fss_version s <? 0) then bad_field else Ok s.

Definition rebuild_error {A} (site : string) : res A := raise "FullRebuildError" site.
Definition rebuild_gate_error {A} (site : string) : res A := raise "FullRebuildGateError" site.

Record FullRebuildContext := {
  frc_dataset_id : string;
  frc_rebuild_request_id : N;
  frc_dataset_run_id : N;
  frc_rebuild_scope : RebuildScope;
  frc_before_state : FullRebuildStateSnapshot
}.

(** ** The reference adapter *)

Notation rebuild_states := (gmap string FullRebuildStateSnapshot).

Definition seed_state (states : rebuild_states) (dataset_id : string) (replacement : option FullRebuildStateReplacement) :
    res (FullRebuildStateSnapshot * rebuild_states) :=
  let version := match states !! dataset_id with Some current => fss_version current + 1 | None => 1 end in
  state ← make_FullRebuildStateSnapshot
    {| fss_dataset_id := dataset_id; fss_version := version; fss_replacement := replacement;
       fss_last_rebuild_request_id := None; fss_last_rebuild_dataset_run_id := None |};
  Ok (state, <[dataset_id := state]> states).

(** The default of [self._states.get] is built, and validated, in any case. *)
Definition read_state (states : rebuild_states) (dataset_id : string) : res FullRebuildStateSnapshot :=
  unset ← make_FullRebuildStateSnapshot
    {| fss_dataset_id := dataset_id; fss_version := 0; fss_replacement := None;
       fss_last_rebuild_request_id := None; fss_last_rebuild_dataset_run_id := None |};
  Ok (default unset (states !! dataset_id)).

Definition commit_rebuild_state (states : rebuild_states) (dataset_id : string) (expected_version : Z)
    (rebuild_request_id dataset_run_id : N) (replacement : option FullRebuildStateReplacement) :
    res (FullRebuildStateSnapshot * rebuild_states) :=
  current ← read_state states dataset_id;
  if bool_decide (fss_last_rebuild_request_id current = Some rebuild_request_id) then Ok (current, states)
  else if negb (fss_version current =? expected_version) then
    raise "FullRebuildStateVersionConflict" "FULL_REBUILD state expected another version"
  else
    next_state ← make_FullRebuildStateSnapshot
      {| fss_dataset_id := dataset_id; fss_version := fss_version current + 1; fss_replacement := replacement;
         fss_last_rebuild_request_id := Some rebuild_request_id; fss_last_rebuild_dataset_run_id := Some dataset_run_id |};
    Ok (next_state, <[dataset_id := next_state]> states).

(** ** The coordinator *)

Section coordinator.
Context {T : Type}.

Record FullRebuildMutationOutcome := {
  fro_value : T;
  fro_completed_scope : RebuildScope;
  fro_authoritative_rebuild_completed : bool;
  fro_gate : StateCommitGate;
  fro_state_replacement : option FullRebuildStateReplacement
}.

Record FullRebuildResult := {
  frr_value : option T;
  frr_rebuild_request_id : N;
  frr_dataset_run_id : N;
  frr_rebuild_scope : RebuildScope;
  frr_state : FullRebuildStateSnapshot;
  frr_already_rebuilt : bool
}.

(** The calls of a coordinator: of the state adapter and of the physical rebuild. *)
Inductive rebuild_call :=
| ReadState (dataset_id : string)
| ExecuteRebuild (context : FullRebuildContext)
| CommitState (dataset_id : string) (expected_version : Z) (rebuild_request_id dataset_run_id : N)
    (replacement : option FullRebuildStateReplacement)
| SeedState (dataset_id : string) (replacement : option FullRebuildStateReplacement).

Inductive rebuild_answer :=
| AState (state : FullRebuildStateSnapshot)
| AOutcome (outcome : FullRebuildMutationOutcome)
| AError (e : exn).

#[local] Notation rebuild_prog := (prog rebuild_call rebuild_answer).

Definition state_answer (states : rebuild_states) (r : res (FullRebuildStateSnapshot * rebuild_states)) :
    rebuild_answer * rebuild_states :=
  match r with Ok (state, states') => (AState state, states') | Raise e => (AError e, states) end.

(** The answers of the reference adapter; the physical rebuild answers [physical context]. *)
Definition exec_rebuild (physical : FullRebuildContext -> rebuild_answer) (states : rebuild_states) (q : rebuild_call) :
    rebuild_answer * rebuild_states :=
  match q with
  | ReadState dataset_id => state_answer states (state ← read_state states dataset_id; Ok (state, states))
  | ExecuteRebuild context => (physical context, states)
  | CommitState dataset_id expected_version rebuild_request_id dataset_run_id replacement =>
    state_answer states
      (commit_rebuild_state states dataset_id expected_version rebuild_request_id dataset_run_id replacement)
  | SeedState dataset_id replacement => state_answer states (seed_state states dataset_id replacement)
  end.

(** What the calls may answer: any physical rebuild, and an adapter that answers, fails, or fails after the change. *)
Inductive rebuild_may (states : rebuild_states) (q : rebuild_call) : rebuild_answer -> rebuild_states -> Prop :=
| rebuild_answers physical : rebuild_may states q (exec_rebuild physical states q).1 (exec_rebuild physical states q).2
| rebuild_fails e : rebuild_may states q (AError e) states
| rebuild_loses physical e : rebuild_may states q (AError e) (exec_rebuild physical states q).2.

Definition ask_state (q : rebuild_call) : rebuild_prog FullRebuildStateSnapshot :=
  Stmt q (fun a => pure match a with
                        | AState state => Ok state
                        | AError e => Raise e
                        | AOutcome _ => raise "TypeError" "state"
                        end).

Definition ask_outcome (context : FullRebuildContext) : rebuild_prog FullRebuildMutationOutcome :=
  Stmt (ExecuteRebuild context) (fun a => pure match a with
                        | AOutcome outcome => Ok outcome
                        | AError e => Raise e
                        | AState _ => raise "TypeError" "outcome"
                        end).

Definition prepare_full_rebuild (request : ReprocessRequest) (dataset_run_id : N) : rebuild_prog (FullRebuildContext * bool) :=
  if negb (bool_decide (rr_run_mode request = RM_FULL_REBUILD)) then
    pure (rebuild_error "FULL_REBUILD execution requires a FULL_REBUILD request")
  else
    spec ← pure (full_rebuild_spec request);
    before ← ask_state (ReadState (rr_dataset_id request));
    let already_rebuilt := bool_decide (fss_last_rebuild_request_id before = Some (rr_reprocess_request_id request)) in
    mret ({| frc_dataset_id := rr_dataset_id request;
             frc_rebuild_request_id := rr_reprocess_request_id request;
             frc_dataset_run_id := dataset_run_id;
             frc_rebuild_scope := frs_rebuild_scope spec;
             frc_before_state := before |}, already_rebuilt).

Definition _validate_scope_evidence (context : FullRebuildContext) (outcome : FullRebuildMutationOutcome) : res unit :=
  if negb (bool_decide (fro_completed_scope outcome = frc_rebuild_scope context)) then
    rebuild_gate_error "FULL_REBUILD completed scope does not match authorized request"
  else
    let before := fss_replacement (frc_before_state context) in
    let replacement := fro_state_replacement outcome in
    match frc_rebuild_scope context with
    | TARGET_ONLY =>
      if negb (same_replacement replacement before) then
        rebuild_gate_error "TARGET_ONLY rebuild must preserve capture/runtime state exactly"
      else Ok tt
    | scope =>
      match replacement with
      | None => rebuild_gate_error "rebuild requires explicit post-rebuild state"
      | Some r =>
        match scope, before with
        | CAPTURE_AND_TARGET, Some b =>
          if negb (bool_decide (fsr_progress_kind r = fsr_progress_kind b)) then
            rebuild_gate_error "CAPTURE_AND_TARGET rebuild cannot change progress kind"
          else Ok tt
        | _, _ => Ok tt
        end
      end
    end.

(** The three gates between the physical rebuild and the cutover of the state. *)
Definition check_outcome (context : FullRebuildContext) (outcome : FullRebuildMutationOutcome) : res unit :=
  if negb (fro_authoritative_rebuild_completed outcome) then
    rebuild_gate_error "FULL_REBUILD callback did not prove authoritative reconstruction"
  else if negb (can_advance_state (fro_gate outcome)) then
    rebuild_gate_error "FULL_REBUILD runtime state cannot cut over before target commit and required reconciliation"
  else _validate_scope_evidence context outcome.

Definition execute_full_rebuild (request : ReprocessRequest) (dataset_run_id : N) : rebuild_prog FullRebuildResult :=
  prepared ← prepare_full_rebuild request dataset_run_id;
  let context := prepared.1 in
  if prepared.2 : bool then
    mret {| frr_value := None; frr_rebuild_request_id := frc_rebuild_request_id context;
            frr_dataset_run_id := dataset_run_id; frr_rebuild_scope := frc_rebuild_scope context;
            frr_state := frc_before_state context; frr_already_rebuilt := true |}
  else
    outcome ← ask_outcome context;
    _ ← pure (check_outcome context outcome);
    state ← ask_state (CommitState (rr_dataset_id request) (fss_version (frc_before_state context))
                         (rr_reprocess_request_id request) dataset_run_id (fro_state_replacement outcome));
    mret {| frr_value := Some (fro_value outcome); frr_rebuild_request_id := rr_reprocess_request_id request;
            frr_dataset_run_id := dataset_run_id; frr_rebuild_scope := frc_rebuild_scope context;
            frr_state := state; frr_already_rebuilt := false |}.
End coordinator.
Arguments FullRebuildMutationOutcome : clear implicits.
Arguments FullRebuildResult : clear implicits.
Arguments rebuild_answer : clear implicits.

(** ** The adapter *)

Notation states_grow := (grows (K := string) fss_version).

Definition unset_state (dataset_id : string) : FullRebuildStateSnapshot :=
  {| fss_dataset_id := dataset_id; fss_version := 0; fss_replacement := None;
     fss_last_rebuild_request_id := None; fss_last_rebuild_dataset_run_id := None |}.

Definition state_of (m : rebuild_states) (d : string) : FullRebuildStateSnapshot := default (unset_state d) (m !! d).

(** The state of [d] is [s], or was [s]. *)
Definition was_state (m : rebuild_states) (d : string) (s : FullRebuildStateSnapshot) : Prop :=
  reached fss_version m d s \/ s = unset_state d.

Definition states_ok (m : rebuild_states) : Prop := forall d s, m !! d = Some s -> 1 <= fss_version s.

Lemma was_state_grows m m' d s : states_grow m m' -> was_state m d s -> was_state m' d s.
Proof. intros Hg [Hr| ->]; [left; by eapply reached_grows|by right]. Qed.

Lemma was_state_now m d : was_state m d (state_of m d).
Proof. unfold state_of. destruct (m !! d) eqn:E; [left; by apply reached_now|by right]. Qed.

(** A state that has been seen is the state of its version. *)
Lemma was_state_version m d s : states_ok m -> was_state m d s -> fss_version (state_of m d) = fss_version s -> state_of m d = s.
Proof.
  intros Hok Hs Hv. unfold state_of in *. destruct (m !! d) as [c|] eqn:E; simpl in *.
  - destruct Hs as [Hs| ->]; [by apply (reached_version fss_version m d)|]. apply Hok in E. simpl in Hv. lia.
  - destruct Hs as [(v & Hv' & _)| ->]; [congruence|done].
Qed.

Lemma read_state_Ok m d s : read_state m d = Ok s -> s = state_of m d.
Proof. unfold read_state, make_FullRebuildStateSnapshot. intros (u & Hu & [= <-])%bind_Ok. destruct (_ || _) in Hu; [done|]. by injection Hu as <-. Qed.

Lemma make_state_Ok s s' : make_FullRebuildStateSnapshot s = Ok s' -> s' = s.
Proof. unfold make_FullRebuildStateSnapshot. destruct (_ || _); [done|]. by intros [= <-]. Qed.

Definition installed (d : string) (before : FullRebuildStateSnapshot) (request run : N) (r : option FullRebuildStateReplacement) :
    FullRebuildStateSnapshot :=
  {| fss_dataset_id := d; fss_version := fss_version before + 1; fss_replacement := r;
     fss_last_rebuild_request_id := Some request; fss_last_rebuild_dataset_run_id := Some run |}.

Lemma commit_Ok m d v request run r s m' :
  commit_rebuild_state m d v request run r = Ok (s, m') ->
  (fss_last_rebuild_request_id (state_of m d) = Some request /\ s = state_of m d /\ m' = m /\ m !! d = Some s) \/
  (fss_last_rebuild_request_id (state_of m d) <> Some request /\ fss_version (state_of m d) = v /\
   s = installed d (state_of m d) request run r /\ m' = <[d := s]> m).
Proof.
  unfold commit_rebuild_state. intros (c & ->%read_state_Ok & H)%bind_Ok. case_bool_decide as Hl.
  - injection H as <- <-. left. split_and!; try done. unfold state_of in *. by destruct (m !! d).
  - destruct (fss_version (state_of m d) =? v) eqn:E; [|done]. cbn [negb] in H.
    apply bind_Ok in H as (s' & ->%make_state_Ok & [= <- <-]). right. apply Z.eqb_eq in E. done.
Qed.

Lemma seed_state_Ok m d r s m' : seed_state m d r = Ok (s, m') ->
  m' = <[d := s]> m /\ fss_version s = fss_version (state_of m d) + 1 /\ fss_last_rebuild_request_id s = None.
Proof.
  unfold seed_state. intros (s' & ->%make_state_Ok & [= <- <-])%bind_Ok. unfold state_of. by destruct (m !! d).
Qed.

Lemma newer_insert m d s : states_ok m -> fss_version s = fss_version (state_of m d) + 1 ->
  states_grow m (<[d := s]> m) /\ states_ok (<[d := s]> m).
Proof.
  intros Hok Hv. split.
  - apply grows_insert. intros c Hc. unfold state_of in Hv. rewrite Hc in Hv. simpl in Hv. lia.
  - intros d' s' Hs'. destruct (decide (d' = d)) as [->|Hne].
    + rewrite lookup_insert_eq in Hs'. injection Hs' as <-. rewrite Hv. unfold state_of. destruct (m !! d) eqn:E; simpl; [apply Hok in E|]; lia.
    + rewrite lookup_insert_ne in Hs' by done. by eapply Hok.
Qed.

(** ** The gates *)

(** What a scope allows the rebuild to do to the state. *)
Definition scope_respected (scope : RebuildScope) (before replacement : option FullRebuildStateReplacement) : Prop :=
  match scope with
  | TARGET_ONLY => same_replacement replacement before = true
  | CAPTURE_AND_TARGET => exists r, replacement = Some r /\ forall b, before = Some b -> fsr_progress_kind r = fsr_progress_kind b
  | AUTHORITATIVE_RESET => is_Some replacement
  end.

Section operations.
Context {T : Type}.
Notation outcome := (FullRebuildMutationOutcome T).
Notation exec := (rebuild_may (T := T)).

Lemma check_outcome_Ok context (out : outcome) :
  check_outcome context out = Ok tt <->
  fro_authoritative_rebuild_completed out = true /\ can_advance_state (fro_gate out) = true /\
  fro_completed_scope out = frc_rebuild_scope context /\
  scope_respected (frc_rebuild_scope context) (fss_replacement (frc_before_state context)) (fro_state_replacement out).
Proof.
  unfold check_outcome, _validate_scope_evidence, rebuild_gate_error.
  destruct (fro_authoritative_rebuild_completed out); cbn [negb]; [|naive_solver].
  destruct (can_advance_state (fro_gate out)); cbn [negb]; [|naive_solver].
  case_bool_decide as Hs; cbn [negb]; [|naive_solver]. unfold scope_respected.
  destruct (frc_rebuild_scope context).
  - destruct (same_replacement _ _); naive_solver.
  - destruct (fro_state_replacement out) as [r|]; [|naive_solver].
    destruct (fss_replacement (frc_before_state context)) as [b|]; [|naive_solver]. case_bool_decide; naive_solver.
  - destruct (fro_state_replacement out); naive_solver.
Qed.

(** What the coordinator checks before the cutover: the outcome proves an authoritative rebuild, the target is
    committed and not quarantined, its reconciliation has passed where it is required, and the rebuild completed
    the authorised scope and did to the state what the scope allows. *)
Record approved (context : FullRebuildContext) (out : outcome) : Prop := {
  ap_authoritative : fro_authoritative_rebuild_completed out = true;
  ap_committed : target_committed (fro_gate out) = true;
  ap_not_quarantined : batch_quarantined (fro_gate out) = false;
  ap_reconciled : reconciliation_required (fro_gate out) = true -> reconciliation_passed (fro_gate out) = true;
  ap_scope : fro_completed_scope out = frc_rebuild_scope context;
  ap_state : scope_respected (frc_rebuild_scope context) (fss_replacement (frc_before_state context)) (fro_state_replacement out)
}.

Lemma check_outcome_approved context (out : outcome) : check_outcome context out = Ok tt <-> approved context out.
Proof.
  rewrite check_outcome_Ok. unfold can_advance_state. rewrite !andb_true_iff, orb_true_iff, !negb_true_iff. split.
  - intros (Ha & [[Hc Hq] Hr] & Hs & Hst). split; try done. intros Hrq. destruct Hr; congruence.
  - intros [Ha Hc Hq Hr Hs Hst]. split_and!; try done. destruct (reconciliation_required _); auto.
Qed.

Inductive operation :=
| Rebuild (request : ReprocessRequest) (dataset_run_id : N)
| Seed (dataset_id : string) (replacement : option FullRebuildStateReplacement).

Definition operation_program (c : operation) : prog rebuild_call (rebuild_answer T) (option (FullRebuildResult T)) :=
  match c with
  | Rebuild request dataset_run_id => r ← execute_full_rebuild request dataset_run_id; mret (Some r)
  | Seed dataset_id replacement => _ ← ask_state (SeedState dataset_id replacement); mret None
  end.

Definition request_context (request : ReprocessRequest) (run : N) (spec : FullRebuildRequestSpec) (before : FullRebuildStateSnapshot) :
    FullRebuildContext :=
  {| frc_dataset_id := rr_dataset_id request; frc_rebuild_request_id := rr_reprocess_request_id request;
     frc_dataset_run_id := run; frc_rebuild_scope := frs_rebuild_scope spec; frc_before_state := before |}.

(** The context of an operation that has not found its request rebuilt. *)
Definition prepared_context (operations : list operation) (m : rebuild_states) (context : FullRebuildContext) : Prop :=
  exists request run spec before, Rebuild request run ∈ operations /\ rr_run_mode request = RM_FULL_REBUILD /\
    full_rebuild_spec request = Ok spec /\ context = request_context request run spec before /\
    was_state m (rr_dataset_id request) before /\ fss_last_rebuild_request_id before <> Some (rr_reprocess_request_id request).

Definition allowed (operations : list operation) (m : rebuild_states) (q : rebuild_call) : Prop :=
  match q with
  | ReadState _ => True
  | ExecuteRebuild context => prepared_context operations m context
  | CommitState d v request run r => exists context (out : outcome), prepared_context operations m context /\
      check_outcome context out = Ok tt /\ r = fro_state_replacement out /\ d = frc_dataset_id context /\
      v = fss_version (frc_before_state context) /\ request = frc_rebuild_request_id context /\ run = frc_dataset_run_id context
  | SeedState d r => Seed d r ∈ operations
  end.

Lemma prepared_grows operations m m' context :
  states_grow m m' -> prepared_context operations m context -> prepared_context operations m' context.
Proof.
  intros Hg (request & run & spec & before & ? & ? & ? & ? & Hb & ?). exists request, run, spec, before.
  split_and!; try done. by eapply was_state_grows.
Qed.

Lemma rebuild_states_of m q a m' : exec m q a m' -> m' = m \/ exists physical, m' = (exec_rebuild (T := T) physical m q).2.
Proof. intros []; eauto. Qed.

Lemma rebuild_keeps m q a m' : states_ok m -> exec m q a m' -> states_grow m m' /\ states_ok m'.
Proof.
  intros Hok [->|[physical ->]]%rebuild_states_of; [split; [apply grows_refl|done]|].
  destruct q as [d|context|d v request run r|d r]; simpl.
  - destruct (read_state m d); simpl; split; done || apply grows_refl.
  - split; [apply grows_refl|done].
  - destruct (commit_rebuild_state m d v request run r) as [[s m1]|e] eqn:E; simpl; [|split; [apply grows_refl|done]].
    apply commit_Ok in E as [(_ & _ & -> & _)|(_ & Hv & Hs & ->)]; [split; [apply grows_refl|done]|].
    apply newer_insert; [done|]. by subst s.
  - destruct (seed_state m d r) as [[s m1]|e] eqn:E; simpl; [|split; [apply grows_refl|done]].
    apply seed_state_Ok in E as (-> & Hv & _). by apply newer_insert.
Qed.

#[export] Instance rebuild_shared operations : SharedState exec states_ok states_grow (allowed operations).
Proof.
  split.
  - intros; apply grows_refl.
  - intros; by eapply grows_trans.
  - intros m q a m' Hok _ Hex. by eapply rebuild_keeps.
  - intros m q a m' Hok _ Hex. by eapply rebuild_keeps.
  - intros m m' q Hg. destruct q as [d|context|d v request run r|d r]; simpl; try done; [by apply prepared_grows|].
    intros (context & out & Hc & Hrest). exists context, out. split; [by eapply prepared_grows|done].
Qed.

(** The states the answers show, once a request has been rebuilt. *)
Definition shows_state (q : rebuild_call) (a : rebuild_answer T) : option (string * FullRebuildStateSnapshot) :=
  match q, a with
  | ReadState d, AState s | CommitState d _ _ _ _, AState s =>
    if bool_decide (fss_last_rebuild_request_id s = None) then None else Some (d, s)
  | _, _ => None
  end.

Lemma rebuild_shows m q a m' d s : exec m q a m' -> shows_state q a = Some (d, s) -> m' !! d = Some s.
Proof.
  intros [physical|e|physical e]; [|by destruct q..]. destruct q as [k|context|k v request run r|k r]; simpl.
  - destruct (read_state m k) as [s'|] eqn:E; simpl; [|done]. apply read_state_Ok in E as ->. case_bool_decide as Hl; [done|].
    intros [= <- <-]. unfold state_of in *. by destruct (m !! k).
  - by destruct (physical context).
  - destruct (commit_rebuild_state m k v request run r) as [[s' m1]|e] eqn:E; simpl; [|done].
    case_bool_decide; [done|]. intros [= <- <-].
    apply commit_Ok in E as [(_ & _ & -> & Hs)|(_ & _ & _ & ->)]; [done|]. by rewrite lookup_insert_eq.
  - by destruct (seed_state m k r) as [[s' m1]|].
Qed.

(** What a rebuild that returned has done. *)
Record rebuild_done (request : ReprocessRequest) (run : N) (m : rebuild_states) (r : FullRebuildResult T) : Prop := {
  rd_request : frr_rebuild_request_id r = rr_reprocess_request_id request /\ frr_dataset_run_id r = run /\
    full_rebuild_spec request = Ok {| frs_rebuild_scope := frr_rebuild_scope r |};
  rd_state : reached fss_version m (rr_dataset_id request) (frr_state r) /\
    fss_last_rebuild_request_id (frr_state r) = Some (rr_reprocess_request_id request);
  rd_value : frr_value r = None <-> frr_already_rebuilt r = true
}.

Definition operation_done (c : operation) (m : rebuild_states) (r : option (FullRebuildResult T)) : Prop :=
  match c, r with
  | Rebuild request run, Some r => rebuild_done request run m r
  | Rebuild _ _, None => False
  | Seed _ _, r => r = None
  end.

Lemma operation_stable c : stable states_grow (returns (operation_done c)).
Proof.
  intros m m' [r|e] Hg; [|done]. destruct c as [request run|]; [|done]. destruct r as [r|]; [|done].
  intros [H1 [H2 H2'] H3]. split; [done| |done]. split; [by eapply reached_grows|done].
Qed.

(** The answers of the adapter. *)
Lemma read_answer m d s m' : exec m (ReadState d) (AState s) m' -> s = state_of m d /\ m' = m.
Proof.
  inversion 1 as [physical Ha Hm|e|physical e]; subst. simpl in *. unfold state_answer in *.
  destruct (read_state m d) as [c|] eqn:E; simpl in *; [|done]. injection Ha as ->. by apply read_state_Ok in E.
Qed.

Lemma commit_answer m d v request run r s m' : exec m (CommitState d v request run r) (AState s) m' ->
  m' !! d = Some s /\ fss_last_rebuild_request_id s = Some request.
Proof.
  inversion 1 as [physical Ha Hm|e|physical e]; subst. simpl in *.
  destruct (commit_rebuild_state m d v request run r) as [[c m1]|] eqn:E; simpl in *; [|done]. injection Ha as ->.
  apply commit_Ok in E as [(Hl & -> & -> & Hs)|(_ & _ & -> & ->)]; [done|]. by rewrite lookup_insert_eq.
Qed.

Section pool.
Context (operations : list operation).
Notation rsafe := (safe exec states_ok states_grow (allowed operations)).

Lemma rebuild_safe request run m : Rebuild request run ∈ operations ->
  rsafe (returns (rebuild_done request run)) (execute_full_rebuild request run) m.
Proof.
  intros Hop. unfold execute_full_rebuild, prepare_full_rebuild. case_bool_decide as Hmode; [|done]. cbn [negb].
  destruct (full_rebuild_spec request) as [[scope]|e] eqn:Espec; [|done]. cbn. split; [done|].
  intros m1 a m2 Hl Hok Hex. destruct a as [before|out|e]; [|done..]. cbn.
  destruct (read_answer _ _ _ _ Hex) as [Hb ->]. case_bool_decide as Hid.
  - cbn. split; cbn; [by rewrite Espec| |done]. split; [|done]. apply reached_now. subst before. unfold state_of in *. by destruct (m1 !! _).
  - set (context := request_context request run {| frs_rebuild_scope := scope |} before).
    assert (Hprep : forall m', states_grow m1 m' -> prepared_context operations m' context).
    { intros m' Hg. exists request, run, {| frs_rebuild_scope := scope |}, before. split_and!; try done.
      eapply was_state_grows; [exact Hg|]. subst before. apply was_state_now. }
    cbn. split; [apply Hprep, grows_refl|]. intros m3 a m4 Hl3 Hok3 Hex3. destruct a as [s|out|e]; [done| |done]. cbn.
    match goal with |- context [check_outcome ?c out] => change c with context end.
    destruct (check_outcome context out) as [[]|e] eqn:Ec; [|done]. cbn.
    assert (states_grow m1 m4) as H14 by (eapply grows_trans; [exact Hl3|]; by eapply rebuild_keeps).
    split. { exists context, out. split_and!; try done. by apply Hprep. }
    intros m5 a m6 Hl5 Hok5 Hex5. destruct a as [s|out'|e]; [|done..]. cbn.
    destruct (commit_answer _ _ _ _ _ _ _ _ Hex5) as [Hs Hlast]. split; cbn; [done| |done]. split; [by apply reached_now|done].
Qed.

Lemma operation_safe c m : c ∈ operations -> rsafe (returns (operation_done c)) (operation_program c) m.
Proof.
  destruct c as [request run|d r]; intros Hop; cbn [operation_program].
  - eapply safe_returns_bind; [apply rebuild_shared|by apply rebuild_safe|]. by intros m' r _ Hr.
  - split; [done|]. intros m1 a m2 _ _ _. by destruct a.
Qed.

(** What the coordinator has seen when it commits. *)
Lemma commit_leads request run tr d v id rn r k :
  leads (operation_program (Rebuild request run)) tr (Stmt (CommitState d v id rn r) k) ->
  exists before spec out, full_rebuild_spec request = Ok spec /\ (ReadState (rr_dataset_id request), AState before) ∈ tr /\
    fss_last_rebuild_request_id before <> Some (rr_reprocess_request_id request) /\
    (ExecuteRebuild (request_context request run spec before), AOutcome out) ∈ tr /\
    approved (request_context request run spec before) out /\
    d = rr_dataset_id request /\ v = fss_version before /\ id = rr_reprocess_request_id request /\ rn = run /\ r = fro_state_replacement out.
Proof.
  cbn [operation_program]. unfold execute_full_rebuild, prepare_full_rebuild. case_bool_decide as Hmode; [|by inversion 1]. cbn [negb].
  destruct (full_rebuild_spec request) as [[scope]|e] eqn:Espec; [|by inversion 1].
  inversion 1 as [|q1 k1 a1 tr1 p1 H1]; subst. destruct a1 as [before|o|e]; cbn in H1; [|by inversion H1..].
  case_bool_decide as Hid; cbn in H1; [by inversion H1|].
  set (context := request_context request run {| frs_rebuild_scope := scope |} before) in *.
  change {| frc_dataset_id := rr_dataset_id request; frc_rebuild_request_id := _; frc_dataset_run_id := run;
            frc_rebuild_scope := scope; frc_before_state := before |} with context in H1.
  inversion H1 as [|q2 k2 a2 tr2 p2 H2]; subst. destruct a2 as [s2|out|e]; cbn in H2; [by inversion H2| |by inversion H2].
  change {| frc_dataset_id := rr_dataset_id request; frc_rebuild_request_id := _; frc_dataset_run_id := run;
            frc_rebuild_scope := scope; frc_before_state := before |} with context in H2.
  destruct (check_outcome context out) as [[]|e] eqn:Ec; cbn in H2; [|by inversion H2]. apply check_outcome_approved in Ec.
  exists before, {| frs_rebuild_scope := scope |}, out. split; [done|]. split; [by left|]. split; [done|]. split; [right; by left|].
  split; [done|]. inversion H2 as [|q3 k3 a3 tr3 p3 H3]; subst; [done|].
  exfalso. destruct a3; cbn in H3; by inversion H3.
Qed.

Lemma seed_leads c tr d r k : c ∈ operations ->
  leads (operation_program c) tr (Stmt (SeedState d r) k) -> Seed d r ∈ operations.
Proof.
  destruct c as [request run|d' r']; intros Hc.
  - cbn [operation_program]. unfold execute_full_rebuild, prepare_full_rebuild. case_bool_decide as Hmode; [|by inversion 1]. cbn [negb].
    destruct (full_rebuild_spec request) as [[scope]|e]; [|by inversion 1].
    inversion 1 as [|q1 k1 a1 tr1 p1 H1]; subst. destruct a1 as [before|o|e]; cbn in H1; [|by inversion H1..].
    case_bool_decide as Hid; cbn in H1; [by inversion H1|].
    inversion H1 as [|q2 k2 a2 tr2 p2 H2]; subst. destruct a2 as [s2|out|e]; cbn in H2; [by inversion H2| |by inversion H2].
    destruct (check_outcome _ out) as [[]|e]; cbn in H2; [|by inversion H2].
    inversion H2 as [|q3 k3 a3 tr3 p3 H3]; subst. destruct a3; cbn in H3; by inversion H3.
  - cbn. inversion 1 as [|q1 k1 a1 tr1 p1 H1]; subst; [done|]. destruct a1; cbn in H1; by inversion H1.
Qed.

Lemma seed_no_commit d' r' tr d v id rn r k :
  ~ leads (operation_program (Seed d' r')) tr (Stmt (CommitState d v id rn r) k).
Proof. cbn. inversion 1 as [|q1 k1 a1 tr1 p1 H1]; subst. destruct a1; cbn in H1; by inversion H1. Qed.

(** A change of a state that is governed, after these calls: the cutover after a rebuild that was called with the
    very state the coordinator had read, and whose outcome was approved, or a seed. *)
Definition governed_change (calls : list (rebuild_call * rebuild_answer T)) (d : string) (old new : FullRebuildStateSnapshot) : Prop :=
  (exists request run spec (out : outcome), Rebuild request run ∈ operations /\ d = rr_dataset_id request /\
     full_rebuild_spec request = Ok spec /\ (ExecuteRebuild (request_context request run spec old), AOutcome out) ∈ calls /\
     approved (request_context request run spec old) out /\
     fss_last_rebuild_request_id old <> Some (rr_reprocess_request_id request) /\
     new = installed d old (rr_reprocess_request_id request) run (fro_state_replacement out)) \/
  (exists r, Seed d r ∈ operations).

Lemma run_keeps (pool pool' : list (prog rebuild_call (rebuild_answer T) (option (FullRebuildResult T)))) m trace m' :
  states_ok m -> pool_run exec pool m trace pool' m' -> states_grow m m' /\ states_ok m'.
Proof.
  intros Hok Hrun. induction Hrun as [|pool m qa pool1 m1 trace pool2 m2 [i q k a m1' Hi Hex] _ IH]; [split; [apply grows_refl|done]|].
  destruct (rebuild_keeps _ _ _ _ Hok Hex) as [Hg1 Hok1]. destruct (IH Hok1) as [Hg2 Hok2]. split; [by eapply grows_trans|done].
Qed.

(** A state that has been read was the state. *)
Lemma run_read (pool pool' : list (prog rebuild_call (rebuild_answer T) (option (FullRebuildResult T)))) m trace m' d b :
  states_ok m -> pool_run exec pool m trace pool' m' -> (ReadState d, AState b) ∈ trace -> was_state m' d b.
Proof.
  intros Hok Hrun (tr1 & tr2 & ->)%list_elem_of_split.
  destruct (pool_run_split _ _ _ _ _ _ _ _ Hrun) as (p1 & m1 & p2 & m2 & H1 & Hex & H2). simpl in Hex.
  destruct (run_keeps _ _ _ _ _ Hok H1) as [_ Hok1]. destruct (rebuild_keeps _ _ _ _ Hok1 Hex) as [_ Hok2].
  inversion Hex as [physical Ha Hm|e|physical e]; subst. simpl in *. unfold state_answer in *.
  destruct (read_state m1 d) as [c|] eqn:E; simpl in *; [|done]. injection Ha as ->. apply read_state_Ok in E as ->.
  destruct (run_keeps _ _ _ _ _ Hok2 H2) as [Hg _]. eapply was_state_grows; [exact Hg|]. apply was_state_now.
Qed.

Lemma change_governed pool' m trace1 q a trace2 m' :
  states_ok m -> pool_run exec (operation_program <$> operations) m (trace1 ++ (q, a) :: trace2) pool' m' ->
  exists m1 m2, exec m1 q a m2 /\ states_grow m m1 /\ states_grow m2 m' /\
    forall d, m1 !! d <> m2 !! d -> governed_change trace1 d (state_of m1 d) (state_of m2 d).
Proof.
  intros Hok Hrun. destruct (pool_run_split _ _ _ _ _ _ _ _ Hrun) as (p1 & m1 & p2 & m2 & H1 & Hex & H2). simpl in Hex.
  destruct (run_keeps _ _ _ _ _ Hok H1) as [Hg1 Hok1]. destruct (rebuild_keeps _ _ _ _ Hok1 Hex) as [_ Hok2].
  destruct (run_keeps _ _ _ _ _ Hok2 H2) as [Hg2 _]. exists m1, m2. split_and!; try done. intros d Hne.
  destruct (pool_run_leads _ _ _ _ _ _ _ _ _ Hrun) as (i & p & tr & k & Hi & Hl & Hs).
  rewrite list_lookup_fmap in Hi. destruct (operations !! i) as [c|] eqn:Ec; [|done]. injection Hi as <-.
  apply list_elem_of_lookup_2 in Ec.
  destruct (rebuild_states_of _ _ _ _ Hex) as [->|[physical ->]]; [done|].
  destruct q as [k'|context|k' v id rn r|k' r]; simpl in *; [by destruct (read_state m1 k')|done| |].
  - destruct c as [request run|d' r']; [|by apply seed_no_commit in Hl].
    apply commit_leads in Hl as (before & spec & out & Hspec & Hread & Hlast & Hcall & Hap & -> & -> & -> & -> & ->).
    assert (Hb : was_state m1 (rr_dataset_id request) before).
    { eapply run_read; [exact Hok|exact H1|]. by eapply elem_of_sublist. }
    destruct (commit_rebuild_state _ _ _ _ _ _) as [[s m1']|e] eqn:E; simpl in *; [|done].
    apply commit_Ok in E as [(_ & _ & -> & _)|(_ & Hv & -> & ->)]; [done|].
    destruct (decide (d = rr_dataset_id request)) as [->|Hnd]; [|by rewrite lookup_insert_ne in Hne].
    assert (state_of m1 (rr_dataset_id request) = before) as Heq by (by apply was_state_version).
    left. exists request, run, spec, out. rewrite Heq. split_and!; try done; [by eapply elem_of_sublist|].
    unfold state_of. by rewrite lookup_insert_eq.
  - apply (seed_leads _ _ _ _ _ Ec) in Hl. destruct (seed_state m1 k' r) as [[s m1']|e] eqn:E; simpl in *; [|done].
    apply seed_state_Ok in E as (-> & _). destruct (decide (d = k')) as [->|Hnd]; [|by rewrite lookup_insert_ne in Hne].
    right. by exists r.
Qed.
End pool.

(** ** Paths of a coordinator *)

Lemma rebuild_path request run tr (r : FullRebuildResult T) : path (execute_full_rebuild request run) tr (Ok r) ->
  exists before spec, full_rebuild_spec request = Ok spec /\
    let context := request_context request run spec before in
    (exists q a, (q, a) ∈ tr /\ (fss_last_rebuild_request_id (frr_state r) <> None ->
       shows_state q a = Some (rr_dataset_id request, frr_state r))) /\
    (frr_already_rebuilt r = true -> forall q a, (q, a) ∈ tr -> forall c, q <> ExecuteRebuild c) /\
    (frr_already_rebuilt r = false -> exists out, (ExecuteRebuild context, AOutcome out) ∈ tr /\ check_outcome context out = Ok tt /\
       frr_value r = Some (fro_value out)).
Proof.
  unfold execute_full_rebuild, prepare_full_rebuild.
  intros [(e & _ & He)|(tr1 & [context already] & tr2 & -> & Hprep & Hp)]%path_bind; [done|].
  case_bool_decide as Hmode; cbn [negb] in Hprep; [|by inversion Hprep].
  apply path_bind in Hprep as [(e & _ & He)|(tr3 & spec & tr4 & -> & Hs & Hprep)]; [done|]. inversion Hs as [r' Hspec|]; subst.
  apply path_bind in Hprep as [(e & _ & He)|(tr5 & before & tr6 & -> & Hread & Hret)]; [done|].
  inversion Hread as [|q k a tr' r' Hk]; subst. inversion Hk as [r' Hr|]; subst. destruct a as [s| |]; simplify_eq.
  inversion Hret as [r' Hr|]; subst. exists before, spec. split; [done|].
  cbn [fst snd] in Hp. case_bool_decide as Hid.
  - inversion Hp as [r' Hr|]; subst. cbn. split_and!; [|intros _|done].
    + eexists _, _. split; [by left|]. intros Hn. simpl. by rewrite bool_decide_false.
    + intros q a [[= -> ->]|Hin]%elem_of_cons c; [done|]. by apply not_elem_of_nil in Hin.
  - fold (request_context request run spec before) in Hp. set (context := request_context request run spec before) in *.
    apply path_bind in Hp as [(e & _ & He)|(tr7 & out & tr8 & -> & Ho & Hp)]; [done|].
    inversion Ho as [|q k a tr' r' Hk']; subst. inversion Hk' as [r' Hr'|]; subst. destruct a as [|o|]; simplify_eq.
    apply path_bind in Hp as [(e & _ & He)|(tr9 & [] & tr10 & -> & Hc & Hp)]; [done|]. inversion Hc as [r' Hc'|]; subst.
    apply path_bind in Hp as [(e & _ & He)|(tr11 & state & tr12 & -> & Hw & Hp)]; [done|].
    inversion Hw as [|q k a tr' r' Hk'']; subst. inversion Hk'' as [r' Hr''|]; subst. destruct a as [s| |]; simplify_eq.
    inversion Hp as [r' Hend|]; subst. cbn. split_and!; [|done|intros _; exists out; split_and!; [right; by left|done..]].
    eexists _, _. split; [right; right; by left|]. intros Hn. simpl. by rewrite bool_decide_false.
Qed.

(** ** Properties *)

Context {St : Type} `{LawfulDatabase rebuild_call (rebuild_answer T) St rebuild_states exec}.

Lemma rebuild_pool operations (s s' : St) trace pool' :
  states_ok (view s) -> pool_run db_exec (operation_program <$> operations) s trace pool' s' ->
  pool_run exec (operation_program <$> operations) (view s) trace pool' (view s') /\
  Forall (stable states_grow) ((fun c => returns (operation_done c)) <$> operations) /\
  Forall2 (fun post p => safe exec states_ok states_grow (allowed operations) post p (view s))
    ((fun c => returns (operation_done c)) <$> operations) (operation_program <$> operations) /\
  states_grow (view s) (view s') /\
  Forall2 (fun c p => safe exec states_ok states_grow (allowed operations) (returns (operation_done c)) p (view s')) operations pool'.
Proof.
  intros Hok Hrun%(database_refines exec). split; [done|].
  assert (Hst : Forall (stable states_grow) ((fun c => returns (operation_done c)) <$> operations)).
  { apply Forall_fmap, Forall_true. intros c. apply operation_stable. }
  assert (Hsafe : Forall2 (fun post p => safe exec states_ok states_grow (allowed operations) post p (view s))
    ((fun c => returns (operation_done c)) <$> operations) (operation_program <$> operations)).
  { apply Forall2_fmap. apply Forall_Forall2_diag, Forall_forall. intros c Hc. by apply operation_safe. }
  destruct (pool_safe _ _ _ _ _ _ _ _ _ _ Hst Hok Hsafe Hrun) as (_ & Hgrow & Hdone).
  split_and!; try done. by apply Forall2_fmap_l in Hdone.
Qed.


(** The rebuilds that installed one version of the state of a dataset belong to one request: two results of one
    version hold the same state. *)
Theorem one_rebuild_per_version operations (s s' : St) trace pool' i j request1 run1 r1 request2 run2 r2 :
  states_ok (view s) -> pool_run db_exec (operation_program <$> operations) s trace pool' s' ->
  operations !! i = Some (Rebuild request1 run1) -> pool' !! i = Some (Done (Ok (Some r1))) ->
  operations !! j = Some (Rebuild request2 run2) -> pool' !! j = Some (Done (Ok (Some r2))) ->
  rr_dataset_id request1 = rr_dataset_id request2 -> fss_version (frr_state r1) = fss_version (frr_state r2) ->
  frr_state r1 = frr_state r2 /\ rr_reprocess_request_id request1 = rr_reprocess_request_id request2.
Proof.
  intros Hok Hrun Hi Hi' Hj Hj' Hds Hv. destruct (rebuild_pool _ _ _ _ _ Hok Hrun) as (Hd & _ & _ & _ & Hdone).
  assert (Hshown : forall i request run r, operations !! i = Some (Rebuild request run) -> pool' !! i = Some (Done (Ok (Some r))) ->
    fss_last_rebuild_request_id (frr_state r) = Some (rr_reprocess_request_id request) /\
    exists q a, (q, a) ∈ trace /\ shows_state q a = Some (rr_dataset_id request, frr_state r)).
  { intros k request run r Hk Hk'. pose proof (Forall2_lookup_lr _ _ _ _ _ _ Hdone Hk Hk') as [_ [_ Hl] _]. split; [done|].
    destruct (pool_run_path _ _ _ _ _ _ k (operation_program (Rebuild request run)) (Ok (Some r)) Hd)
      as (tr & Hp & Hsub); [by rewrite list_lookup_fmap, Hk|done|].
    cbn [operation_program] in Hp. apply path_bind in Hp as [(e & _ & He)|(tr1 & r' & tr2 & -> & Hp & Hm)]; [done|].
    inversion Hm; subst. apply rebuild_path in Hp as (before & spec & _ & (q & a & Hin & Hs) & _). exists q, a.
    split; [|apply Hs; by rewrite Hl]. eapply elem_of_sublist; [|exact Hsub]. apply elem_of_app. by left. }
  destruct (Hshown _ _ _ _ Hi Hi') as (Hl1 & q1 & a1 & Hin1 & Hs1). destruct (Hshown _ _ _ _ Hj Hj') as (Hl2 & q2 & a2 & Hin2 & Hs2).
  rewrite <-Hds in Hs2. assert (frr_state r1 = frr_state r2) as Heq.
  { eapply (shown_version fss_version exec states_ok shows_state rebuild_keeps rebuild_shows); [exact Hok|exact Hd|exact Hin1|exact Hin2|done..]. }
  split; [done|]. congruence.
Qed.
End operations.

(** ** Concrete rebuilds *)

Module Demo.

Definition request (id : N) (scope : string) : ReprocessRequest :=
  {| rr_reprocess_request_id := id; rr_dataset_id := "erp.order"; rr_run_mode := RM_FULL_REBUILD; rr_reason := "approved";
     rr_requested_by := "operator"; rr_original_pipeline_run_id := None; rr_original_dataset_run_id := None;
     rr_range_json := Some [("rebuild_scope", VStr scope); ("authoritative_reset", VBool true)];
     rr_status := RR_PENDING; rr_created_at := utc 10; rr_updated_at := None |}.

Definition at_marker (z : Z) : FullRebuildStateReplacement :=
  {| fsr_progress_kind := PK_WATERMARK; fsr_progress_payload := [("marker", VInt z)]; fsr_dataset_state := [];
     fsr_source_boundary_reference := None |}.

(** A physical rebuild that completes its scope and reads the source up to a marker of the request. *)
Definition physical (context : FullRebuildContext) : rebuild_answer N :=
  AOutcome {| fro_value := frc_dataset_run_id context; fro_completed_scope := frc_rebuild_scope context;
    fro_authoritative_rebuild_completed := true;
    fro_gate := {| target_committed := true; reconciliation_required := true; reconciliation_passed := true; batch_quarantined := false |};
    fro_state_replacement := Some (at_marker (100 * Z.of_N (frc_rebuild_request_id context))) |}.

Definition memory : Database rebuild_call (rebuild_answer N) rebuild_states rebuild_states :=
  {| view := id; db_exec := fun m q a m' => exec_rebuild physical m q = (a, m') |}.

Lemma reference_states_lawful : @LawfulDatabase _ _ _ _ rebuild_may memory.
Proof. intros m q a m'. simpl. intros E. pose proof (rebuild_answers m q physical) as Hm. by rewrite E in Hm. Qed.

(** Two attempts of one request run side by side, another request loses the race, a narrow one is refused. *)
Definition operations : list operation :=
  [Rebuild (request 1 "CAPTURE_AND_TARGET") 11; Rebuild (request 1 "CAPTURE_AND_TARGET") 12;
   Rebuild (request 2 "AUTHORITATIVE_RESET") 13; Rebuild (request 3 "TARGET_ONLY") 14].
Definition schedule : list nat := [0; 1; 2; 0; 1; 2; 0; 1; 2; 3; 3]%nat.

#[local] Notation final := (run_schedule (exec_rebuild physical) schedule (operation_program <$> operations) ∅).

Definition outcome_summary (p : prog rebuild_call (rebuild_answer N) (option (FullRebuildResult N))) : option (res (option (Z * option N))) :=
  match p with
  | Done (Ok (Some r)) => Some (Ok (Some (fss_version (frr_state r), fss_last_rebuild_dataset_run_id (frr_state r))))
  | Done (Ok None) => Some (Ok None)
  | Done (Raise e) => Some (Raise e)
  | Stmt _ _ => None
  end.

Lemma rebuild_outcomes : map outcome_summary final.1 =
  [Some (Ok (Some (1, Some 11%N))); Some (Ok (Some (1, Some 11%N)));
   Some (raise "FullRebuildStateVersionConflict" "FULL_REBUILD state expected another version");
   Some (rebuild_gate_error "TARGET_ONLY rebuild must preserve capture/runtime state exactly")].
Proof. vm_compute. reflexivity. Qed.

Lemma empty_ok : states_ok ∅.
Proof. intros d s Hs. by rewrite lookup_empty in Hs. Qed.

Definition result_at (i : nat) : option (FullRebuildResult N) :=
  match final.1 !! i with Some (Done (Ok r)) => r | _ => None end.

Lemma result_of (i : nat) r : result_at i = Some r -> final.1 !! i = Some (Done (Ok (Some r))).
Proof. unfold result_at. destruct (final.1 !! i) as [[[r'|]|]|]; try done. by intros ->. Qed.

Lemma attempts_return :
  exists r1 r2, result_at 0 = Some r1 /\ result_at 1 = Some r2 /\ fss_version (frr_state r1) = fss_version (frr_state r2).
Proof. repeat eexists. Qed.

Lemma first_rebuilds : exists r, result_at 0 = Some r /\ frr_already_rebuilt r = false.
Proof. repeat eexists. Qed.


Lemma one_rebuild_per_version_witness : exists r1 r2, result_at 0 = Some r1 /\ result_at 1 = Some r2 /\ frr_state r1 = frr_state r2.
Proof.
  destruct attempts_return as (r1 & r2 & H1 & H2 & Hv). exists r1, r2. split; [exact H1|]. split; [exact H2|].
  destruct (run_schedule_sound (exec_rebuild physical) schedule (operation_program <$> operations) ∅) as [trace Hrun].
  exact (proj1 (@one_rebuild_per_version N rebuild_states memory reference_states_lawful operations ∅ final.2 trace final.1 0 1
    (request 1 "CAPTURE_AND_TARGET") 11%N r1 (request 1 "CAPTURE_AND_TARGET") 12%N r2 empty_ok Hrun eq_refl (result_of 0 r1 H1)
    eq_refl (result_of 1 r2 H2) eq_refl Hv)).
Defined.

Definition rebuild (m : rebuild_states) (id run : N) : res (FullRebuildResult N) * rebuild_states :=
  run_alone (exec_rebuild physical) (execute_full_rebuild (request id "AUTHORITATIVE_RESET") run) m.

(** A request is recognised only while it is the last one rebuilt: repeating a request after another one calls the
    physical rebuild again and puts the state of the older request back. *)
Theorem older_request_rebuilds_again :
  exists r1 m1 r2 m2 r3 m3, rebuild ∅ 1 11 = (Ok r1, m1) /\ rebuild m1 2 12 = (Ok r2, m2) /\ rebuild m2 1 13 = (Ok r3, m3) /\
    frr_already_rebuilt r3 = false /\ frr_value r3 = Some 13%N /\
    fss_replacement (frr_state r2) = Some (at_marker 200) /\ fss_replacement (frr_state r3) = Some (at_marker 100).
Proof. repeat eexists. Qed.
End Demo.
